(* ===== verification/_CoqProject ===== *)
-Q . S2P
Prelude.v
Numbers.v
PointerArray.v
Doubles.v
SimpleMap.v
SimpleMapTable.v
SimpleMapSpec.v
Maps.v
SimpleMapTheorems.v
LinkedList.v
LinkedEntries.v
Time.v
Polymur.v
Murmur.v
Wyhash.v
WyhashNumbers.v
WyhashSecret.v
Xxhash.v
Xxh3.v
Xxh3Theorems.v
Portable.v
Xxh3Long.v
Xxh3LongTheorems.v
Xxh3Vector.v
Xxh3VectorTheorems.v
Xxh3Stream.v
Xxh3StreamTheorems.v
Xxh3Secret.v
Hasher.v
Events.v
System.v
Context.v
StaticBuffers.v
Memory.v
Uring.v
Executor.v
Scheduler.v
Wakeup.v
Transport.v
TransportTheorems.v
Sockets.v
SocketsTheorems.v
MsgPack.v
MsgSkip.v
MsgSkipTheorems.v
MsgCodec.v
MsgDouble.v
MsgValues.v
Box.v
BoxTheorems.v
StorageExecutor.v
Storage.v
Exchange.v
Handlers.v
StorageExchange.v
Dart.v
Handshake.v
Lifetimes.v
LifetimesArrays.v
Launcher.v
Stacktrace.v
