(* ===== verification/Prelude.v ===== *)
(** * A verification development for the feng-shui native runtime

    The repository is a runtime for Dart programs written in C: a core of data
    structures, hashes, events and modules; memory pools; executors that exchange
    tasks over io_uring and a scheduler that wakes them; a transport for sockets and
    files; and a storage that runs a database behind the same exchange of tasks.
    This library translates that C code into Gallina, function by function under
    the names of the source, and proves what the parts promise to each other.

    ** How C is translated

    An integer of width [w] is a [Z] with its conversions written out ([wrap],
    [swrap] below, as [u32], [i32] and so on), a structure is a [Record], an
    enumeration an [Inductive], memory that is shared through pointers an explicit
    store ([LinkedList]) or a finite map by address ([StorageExecutor]).  A function
    that can fail is a function into [outcome] (below): [Done] with a result, [Exits]
    for [exit], [Faults] for what C leaves undefined or for a failed assertion (a null
    or wild pointer, an overflow of a signed integer, an access outside of an array)
    and [Spins] when a loop has used up its fuel.  A loop that is not structural has
    fuel; theorems that say a result is reached exclude [Spins], so that the fuel
    given there is enough.  Code outside of the repository is a parameter: a class
    with laws where the code relies on its behaviour ([Uring], [Slab], [Ibuf],
    [Obuf]), a function from the calls made before to an answer where it does not
    (the kernel in [Sockets], the database in [Box], the threads in [Storage], the
    Dart interface in [Dart]).

    ** The files and the code they model

    Core ([src/core/native]):
    - [Numbers]: [numbers/numbers.h];  [PointerArray]: [arrays/pointer.h];
      [LinkedList], [LinkedEntries]: [lists/linked.h], its nodes and the structures
      they are members of;  [Time]: [time/time.h], [strings/format.h];
    - [SimpleMap], [SimpleMapTable], [SimpleMapSpec], [SimpleMapTheorems]: the
      template [maps/simple.h], an open-addressing table that is resized
      incrementally; [Maps]: its instances ([collections/maps.h],
      [transport/maps.h]) behind the interface [MapOps]/[MapLaws];
    - hashes ([hashing/]): [Polymur]; [Murmur]; [Wyhash], [WyhashNumbers] (random
      numbers) and [WyhashSecret] (the primality test and [make_secret]); [Xxhash]
      (XXH32, XXH64); XXH3 in [Xxh3] and [Xxh3Theorems] (up to 240 bytes),
      [Xxh3Long] and [Xxh3LongTheorems], [Xxh3Stream] and [Xxh3StreamTheorems],
      [Xxh3Vector] and [Xxh3VectorTheorems] (the kernels for SSE2, AVX2, AVX-512,
      NEON, VSX and SVE), [Xxh3Secret]; [Portable], the branches for other machines
      and compilers; [Hasher], the choice of a hash;
    - [Doubles]: the doubles of IEEE 754 that hold integers, as bits;
    - [Events]: [events/];  [Stacktrace]: [stacktrace/];  [System]: [system/],
      [bootstrap/], [crash/], [panic/], [printer/], [modules/];  [Context]:
      [context/];  [Dart]: [dart/dart.c].

    Memory ([src/memory]): [StaticBuffers] (the pool of fixed buffers, and its
    clients in [buffers.dart]) and [Memory] (the wrappers of the allocators and the input and output buffers); the [tuple.h]
    of the memory is in [MsgSkip].

    Executors ([src/executor]): [Uring] (the interface of the rings), [Executor]
    ([executor.c], [task.h]), [Scheduler] ([scheduler.c]) and [Wakeup], the executors,
    the scheduler, the kernel and the Dart side ([executor.dart]) as a step relation.

    Transport ([src/transport]): [Transport], [TransportTheorems] ([transport.c] and
    the dispatch of completions of [transport.dart]), [Sockets], [SocketsTheorems]
    ([socket.c], [server.c], [client.c], [file.c]).

    Storage ([src/storage]): [MsgPack], [MsgSkip], [MsgSkipTheorems], [MsgCodec],
    [MsgDouble], [MsgValues] ([msgpuck.h]: encoders, decoders, reads of doubles,
    skipping and checking), [Box], [BoxTheorems], [Handlers] ([box.c], [box.h]),
    [StorageExecutor] ([executor.c]), [Storage] ([storage.c]), [Launcher]
    ([launcher.cc]), [Handshake], the two threads of [storage.c] interleaved,
    and [Exchange], which puts executors, the storage and
    the delivery of messages by the kernel together as a step relation, for any
    handlers; [StorageExchange] puts the handlers of [Box] there.

    Across the components, [Lifetimes] and [LifetimesArrays] say which blocks and
    objects are alive: [memory.h], [io_buffers.h], [static_buffers.h], [factory.c],
    and the creating and destroying functions of the executor, the transport, the
    hash map and the events.

    ** How the parts depend on each other

    The maps hash their keys with [Hasher] and hold the libraries of [System], the
    modules of [Context] and the pending requests of [Transport]; these are proved
    against the interface of [Maps], whose instances [SimpleMap] discharges.  Every
    part raises the events of [Events], to which [Stacktrace] gives a text.
    [Executor], [Scheduler], [Transport] and [StorageExecutor] are clients of [Uring].
    [StorageExecutor] asks of its handlers only [keeps_route]; [Handlers] proves it of
    the handlers of [Box].  [Box] reads its batches with [MsgPack] and [MsgSkip], and
    [Storage] its errors.  The long and the streaming XXH3 are written over the class
    [Kernel] of functions on accumulators, whose instances are those of [Xxh3Vector]:
    what is proved of the scalar one holds for all.  [MsgDouble] and [WyhashNumbers]
    stand on [Doubles].

    ** What is shown

    - Maps and lists: every operation of the hash map, at rest and during a resize,
      is the operation of a finite map, and a run from the empty map never aborts;
      the invariant of the two tables; lists as sequences of distinct nodes, and the
      loops over them and over their entries.
    - Hashes: the polynomial PolymurHash evaluates; streaming and one-shot xxHash,
      XXH3 included, and progressive MurmurHash3 agree, the last one where the shifts
      of its single bytes are defined; XXH3 reads nothing outside of
      its input and is the same with every vectorised kernel; the loads of other
      machines read the same numbers; results are of their width, parameters are
      valid; the primality test of wyhash refuses no odd prime, and the words of a
      secret are the first good ones of the stream of its seed.
    - Events and system: fields as a finite map with a bound, the text of an event
      and its buffer, the text of a stack trace and of the callers of a module, the
      life of a library.
    - Memory: a buffer of the pool is never handed out twice, and always whole,
      whatever its last client did to its length and bytes; the mirrors of the
      input buffer agree with it.
    - Lifetimes: what a creation that succeeds makes, the destruction releases, all of
      it and once, and nothing is used or released that is not alive; the theorems
      also say what is lost on the paths where a creation fails.
    - Executors: messages are handed over once each and in order; the answer to a
      task goes back to its caller; the scheduler implements an abstract protocol; no
      wake-up of an executor is made twice, none is lost but in a post that fails, and
      an idle executor with completions to see is woken unless one did.
    - Transport: accepted requests are pending under their data until they complete,
      are cancelled or time out; the data of a request comes back from its
      completion; a socket is configured as its tables of settings say.
    - Message pack: decoders invert encoders at any place of a buffer; a value of any
      depth is skipped and checked as a whole; the fast loops equal a reference that
      reads one header at a time; checking reads nothing outside of the data and
      accepts only what can be skipped; an integer of any encoding is read as a double
      exactly or refused.
    - Storage: a batch is one transaction, all or nothing; every handler ends and
      gives its task back, on requests as they should be and with an allocator that
      answers, and faults only on others; a round answers every task once; starting and stopping
      make their calls in order and report the error of the first that fails; no wake-up between the
      two threads is lost, and what a time-out leaves behind; the first request for
      a shutdown is carried out, once and in order, and the others are ignored; and in
      every interleaving of calls, deliveries and rounds a task is in one place and can
      be brought back to its caller, which with the handlers of the storage it can
      from every state in which the tasks sent are well formed.

    Theorems also record where the code does not do what it means to, for instance
    a map cleared during a resize, cancellation during one, sizes of tuples taken
    for their number of elements, or mutexes used after they were destroyed.

    ** Bounds and fuel

    The hash map is proved for as many operations as keep its tables below the last
    two of its primes ([budget] in [SimpleMapSpec]), where [next_slot] would
    overflow, with as much fuel as there are slots.  Skipping and checking have as
    much fuel as there are bytes, plus one.  The count of the values to come is an
    [int64_t] that wraps around or overflows in data of five gigabytes and more
    ([MsgSkip]): what is read is proved below that, what is written at any length of a
    C object, since a count never exceeds the bytes of the values it counts.  The
    handler of an iterator ends for fewer than [2 ^ 32] tuples, the width of its
    counter.  The hashes are proved for messages of any length (MurmurHash3 for
    pieces below [2 ^ 31] bytes, the range of its parameter, with the length modulo
    [2 ^ 32]), the streaming XXH64 and XXH3 for those below [2 ^ 64] bytes, whose length they count;
    the loop on the blocks of a stream has as much fuel as there are stripes, the one
    that fills a secret as many rounds as it has bytes, and each is shown to be enough.
    How many words [make_secret] draws depends on its seed: its fuel is the number of
    draws for a word, and its theorem says what was drawn when that was not enough.
    The loops of [Storage] take fuel for the number of times a wait returns, which
    only the threads decide; the theorems there hold for any fuel, and say which waits
    used it up.  The callers of a module
    are shown to fit their buffer up to 45 of them; the code asks for 3.

    ** What is not modelled

    What does nothing of its own: declarations, and the macros that choose attributes
    and builtins of the compiler ([common.h], the heads of [xxhash.h]); the byte-map
    variant of [maps/simple.h], which no instance uses, and its debugging output; the
    intrinsics of the processors, which are classes with the laws of their
    documentation; the numbers wyhash draws from the clock ([WYTRNG]); dates and the text of floating-point numbers and pointers, which
    are libc's; the [tuple.h] of the storage, whose functions each call one function of
    the database; test code ([executor/test]); generated and vendored declarations
    ([library.h], [lua.h], [luaconf.h]); the Dart packages, except for the dispatch of
    completions.

    [Exchange] has no scheduler and no transport in it: its executors act at any time,
    and that they are woken when they should is [Wakeup], which in turn leaves aside
    what tasks do.  In [Wakeup] an executor may be deactivated, or be refused a wake-up
    by a full ring: its wake-ups are followed until then.  [Lifetimes] follows neither
    the sizes of blocks nor the capacity of arrays.  The threads of
    [Storage] and the fiber of [Launcher] are proved apart; that the call of
    [storage_launcher_shutdown] is made where [Launcher] expects it, after the start
    has returned, is what the sequence of calls in [Storage] says. *)
From Stdlib Require Export ZArith Lia Bool.
From stdpp Require Export base list option gmap.

#[global] Open Scope Z_scope.

(** ** Machine integers

    A C integer of width [w] is a [Z]; [wrap w] is the conversion to the
    unsigned type and [swrap w] the (two's complement) conversion to the
    signed type. *)

Definition wrap (w x : Z) : Z := x mod 2 ^ w.
Definition swrap (w x : Z) : Z := (x + 2 ^ (w - 1)) mod 2 ^ w - 2 ^ (w - 1).

Abbreviation u8 := (wrap 8).
Abbreviation u16 := (wrap 16).
Abbreviation u32 := (wrap 32).
Abbreviation u64 := (wrap 64).
Abbreviation u128 := (wrap 128).
Abbreviation i8 := (swrap 8).
Abbreviation i16 := (swrap 16).
Abbreviation i32 := (swrap 32).
Abbreviation i64 := (swrap 64).

Create HintDb mach.

Lemma pow2_pos n : 0 <= n -> 0 < 2 ^ n.
Proof. intros; apply Z.pow_pos_nonneg; lia. Qed.

Lemma wrap_bound w x : 0 <= w -> 0 <= wrap w x < 2 ^ w.
Proof. intros; apply Z.mod_pos_bound, pow2_pos; lia. Qed.

Lemma wrap_small w x : 0 <= x < 2 ^ w -> wrap w x = x.
Proof. apply Z.mod_small. Qed.

Lemma wrap_idemp w x : 0 <= w -> wrap w (wrap w x) = wrap w x.
Proof. intros; apply wrap_small, wrap_bound; lia. Qed.

Lemma wrap_add_l w x y : 0 <= w -> wrap w (wrap w x + y) = wrap w (x + y).
Proof. intros; unfold wrap; apply Zplus_mod_idemp_l. Qed.

Lemma wrap_add_r w x y : 0 <= w -> wrap w (x + wrap w y) = wrap w (x + y).
Proof. intros; unfold wrap; apply Zplus_mod_idemp_r. Qed.

Lemma wrap_mul_l w x y : 0 <= w -> wrap w (wrap w x * y) = wrap w (x * y).
Proof. intros; unfold wrap; apply Zmult_mod_idemp_l. Qed.

Lemma wrap_mul_r w x y : 0 <= w -> wrap w (x * wrap w y) = wrap w (x * y).
Proof. intros; unfold wrap; apply Zmult_mod_idemp_r. Qed.

Lemma swrap_small w x : - 2 ^ (w - 1) <= x < 2 ^ (w - 1) -> 0 < w -> swrap w x = x.
Proof.
  intros Hx Hw. unfold swrap. replace (2 ^ w) with (2 * 2 ^ (w - 1)).
  - rewrite Z.mod_small; lia.
  - rewrite <- Z.pow_succ_r by lia. f_equal; lia.
Qed.

Lemma swrap_bound w x : 0 < w -> - 2 ^ (w - 1) <= swrap w x < 2 ^ (w - 1).
Proof.
  intros Hw. unfold swrap.
  assert (E : 2 ^ w = 2 * 2 ^ (w - 1)) by (rewrite <- Z.pow_succ_r by lia; f_equal; lia).
  pose proof (Z.mod_pos_bound (x + 2 ^ (w - 1)) (2 ^ w) ltac:(apply pow2_pos; lia)). lia.
Qed.

Lemma wrap_land w x : 0 <= w -> wrap w x = Z.land x (Z.ones w).
Proof. intros; unfold wrap; symmetry; apply Z.land_ones; lia. Qed.

Lemma testbit_wrap w x i :
  0 <= w -> Z.testbit (wrap w x) i = (i <? w) && Z.testbit x i.
Proof.
  intros Hw. destruct (Z.ltb_spec i w); unfold wrap.
  - rewrite Z.mod_pow2_bits_low by lia. reflexivity.
  - rewrite Z.mod_pow2_bits_high by lia. reflexivity.
Qed.

(** A non-negative number below [2 ^ w] has no bit at or above [w]. *)
Lemma testbit_above w x i : 0 <= x < 2 ^ w -> w <= i -> Z.testbit x i = false.
Proof.
  intros Hx Hi. destruct (Z.eq_dec x 0) as [->|]; [apply Z.bits_0|].
  apply Z.bits_above_log2; [lia|]. pose proof (proj1 (Z.log2_lt_pow2 x w ltac:(lia))). lia.
Qed.

Lemma bits_bound w x : 0 <= w -> 0 <= x -> (forall i, w <= i -> Z.testbit x i = false) -> x < 2 ^ w.
Proof.
  intros Hw Hx Hb. destruct (Z.eq_dec x 0) as [->|]; [apply pow2_pos; lia|].
  apply Z.log2_lt_pow2; [lia|]. destruct (Z.lt_ge_cases (Z.log2 x) w) as [|H]; [lia|].
  specialize (Hb _ H). rewrite Z.bit_log2 in Hb by lia. discriminate.
Qed.

Lemma lor_bound w x y : 0 <= w -> 0 <= x < 2 ^ w -> 0 <= y < 2 ^ w -> 0 <= Z.lor x y < 2 ^ w.
Proof.
  intros Hw Hx Hy. assert (0 <= Z.lor x y) by (apply Z.lor_nonneg; lia). split; [lia|].
  apply bits_bound; [lia..|]. intros i Hi.
  rewrite Z.lor_spec, (testbit_above w x), (testbit_above w y); auto; lia.
Qed.

Lemma lxor_bound w x y : 0 <= w -> 0 <= x < 2 ^ w -> 0 <= y < 2 ^ w -> 0 <= Z.lxor x y < 2 ^ w.
Proof.
  intros Hw Hx Hy. assert (0 <= Z.lxor x y) by (apply Z.lxor_nonneg; lia). split; [lia|].
  apply bits_bound; [lia..|]. intros i Hi.
  rewrite Z.lxor_spec, (testbit_above w x), (testbit_above w y); auto; lia.
Qed.

Lemma land_bound w x y : 0 <= w -> 0 <= x -> 0 <= y < 2 ^ w -> 0 <= Z.land x y < 2 ^ w.
Proof.
  intros Hw Hx Hy. assert (0 <= Z.land x y) by (apply Z.land_nonneg; lia). split; [lia|].
  apply bits_bound; [lia..|]. intros i Hi.
  rewrite Z.land_spec, (testbit_above w y), andb_false_r; auto; lia.
Qed.

Lemma land_pow2_eqb w k : 0 <= k -> negb (Z.land w (2 ^ k) =? 0) = Z.testbit w k.
Proof.
  intros Hk. destruct (Z.eqb_spec (Z.land w (2 ^ k)) 0) as [E|E]; cbn; symmetry.
  - apply (f_equal (fun x => Z.testbit x k)) in E.
    rewrite Z.land_spec, Z.pow2_bits_true, Z.bits_0, andb_true_r in E by lia. exact E.
  - destruct (Z.testbit w k) eqn:T; [reflexivity|]. destruct E.
    apply Z.bits_inj'. intros i Hi. rewrite Z.land_spec, Z.bits_0, Z.pow2_bits_eqb by lia.
    destruct (Z.eqb_spec k i); subst; rewrite ?T; auto using andb_false_r.
Qed.

(** Disjoint bit patterns are added by [Z.lor]. *)
Lemma lor_add_disjoint x y : Z.land x y = 0 -> Z.lor x y = x + y.
Proof. intros H. symmetry. rewrite Z.add_nocarry_lxor, Z.lxor_lor; auto. Qed.

Lemma lor_shiftl_add w hi lo : 0 <= w -> 0 <= lo < 2 ^ w -> Z.lor (Z.shiftl hi w) lo = hi * 2 ^ w + lo.
Proof.
  intros Hw Hlo. rewrite lor_add_disjoint; [rewrite Z.shiftl_mul_pow2 by lia; lia|].
  apply Z.bits_inj'. intros i Hi. rewrite Z.land_spec, Z.bits_0.
  destruct (Z.lt_ge_cases i w).
  - rewrite Z.shiftl_spec_low by lia. reflexivity.
  - rewrite (testbit_above w lo) by lia. apply andb_false_r.
Qed.

#[export] Hint Rewrite wrap_add_l wrap_add_r wrap_mul_l wrap_mul_r wrap_idemp using lia : mach.
#[export] Hint Resolve wrap_bound lor_bound lxor_bound pow2_pos : mach.

(** Turn literal powers of two into numerals, so that [lia] sees them. *)
Ltac pow2_norm :=
  repeat match goal with
  | |- context [2 ^ ?k] =>
      match k with
      | Zpos _ => let v := eval vm_compute in (2 ^ k) in change (2 ^ k) with v
      | Z0 => change (2 ^ 0) with 1
      end
  | H : context [2 ^ ?k] |- _ =>
      match k with
      | Zpos _ => let v := eval vm_compute in (2 ^ k) in change (2 ^ k) with v in H
      | Z0 => change (2 ^ 0) with 1 in H
      end
  end.

(** [lia] with division and remainder by constants turned into equations. *)
Ltac zdiv_lia := Z.to_euclidean_division_equations; lia.

(** ** Outcomes of C code

    [Done a]: the code returns [a]; [Exits code]: it calls [exit(code)] or
    aborts the process; [Faults]: its behaviour is undefined there (a null or
    out-of-range access, a division by zero, a read of an indeterminate
    value); [Spins]: a loop of it did not finish within the fuel of the model. *)

Inductive outcome (A : Type) : Type :=
| Done (a : A)
| Exits (code : Z)
| Faults
| Spins.
Arguments Done {A} a.
Arguments Exits {A} code.
Arguments Faults {A}.
Arguments Spins {A}.

#[export] Instance outcome_ret : MRet outcome := fun A a => Done a.
#[export] Instance outcome_bind : MBind outcome := fun A B f m =>
  match m with Done a => f a | Exits c => Exits c | Faults => Faults | Spins => Spins end.
#[export] Instance outcome_eq_dec {A} `{EqDecision A} : EqDecision (outcome A).
Proof. solve_decision. Defined.

(** A null or out-of-range access is a fault. *)
Definition demand {A} (o : option A) : outcome A :=
  match o with Some a => Done a | None => Faults end.

Definition result_of {A} (o : outcome A) : option A := match o with Done a => Some a | _ => None end.

Lemma bind_done {A B} (f : A -> outcome B) a : Done a ≫= f = f a.
Proof. reflexivity. Qed.

Lemma outcome_bind_done {A B} (f : A -> outcome B) (m : outcome A) b :
  m ≫= f = Done b -> exists a, m = Done a /\ f a = Done b.
Proof. destruct m; cbn; intros; simplify_eq; eauto. Qed.

(** ** Lists *)

Lemma lookup_replicate_Some {A} n (x y : A) i : replicate n x !! i = Some y -> y = x.
Proof. rewrite lookup_replicate. tauto. Qed.

Lemma last_split {A} (l : list A) x : last l = Some x -> exists l', l = l' ++ [x].
Proof. intros H. apply last_Some in H. exact H. Qed.

Lemma take_take_le {A} (l : list A) n m : (n <= m)%nat -> take n (take m l) = take n l.
Proof. intros. rewrite take_take. f_equal. lia. Qed.

Lemma take_insert_snoc {A} (l : list A) (n : nat) x :
  (n < length l)%nat -> take (S n) (<[n := x]> l) = take n l ++ [x].
Proof.
  intros Hn. rewrite (take_S_r _ _ x) by (apply list_lookup_insert_eq; lia).
  rewrite take_insert_ge by lia. reflexivity.
Qed.

(** ** Little-endian reads from a byte buffer

    A buffer is the list of its bytes (each a [Z] in [0, 256)); a read past its
    end is [None]. *)

Definition byte_range (b : Z) : Prop := 0 <= b < 256.
#[export] Instance byte_range_dec b : Decision (byte_range b).
Proof. unfold byte_range. apply _. Defined.

Fixpoint le_combine (bs : list Z) : Z :=
  match bs with [] => 0 | b :: bs => b + 256 * le_combine bs end.

(** [memcpy(&v, p, n)] on a little-endian machine, [p] at offset [off]. *)
Definition load_le (n : nat) (buf : list Z) (off : Z) : option Z :=
  if (0 <=? off) && (off + Z.of_nat n <=? Z.of_nat (length buf))
  then Some (le_combine (take n (drop (Z.to_nat off) buf)))
  else None.

Definition byte_at (buf : list Z) (off : Z) : option Z :=
  if 0 <=? off then buf !! Z.to_nat off else None.

Lemma le_combine_bound bs :
  Forall byte_range bs -> 0 <= le_combine bs < 256 ^ Z.of_nat (length bs).
Proof.
  induction 1 as [|b bs Hb Hbs IH]; cbn [le_combine length]; [cbn; lia|].
  rewrite Nat2Z.inj_succ, Z.pow_succ_r by lia. unfold byte_range in Hb. lia.
Qed.

Lemma le_combine_take n bs :
  Forall byte_range bs -> le_combine (take n bs) = le_combine bs mod 256 ^ Z.of_nat n.
Proof.
  intros Hb. revert n. induction Hb as [|b bs Hb Hbs IH]; intros n.
  - rewrite take_nil. cbn. symmetry. apply Z.mod_0_l. lia.
  - destruct n as [|n]; [cbn; symmetry; apply Z.mod_1_r|]. cbn [take le_combine].
    rewrite IH, Nat2Z.inj_succ, Z.pow_succ_r by lia. unfold byte_range in Hb.
    rewrite Z.rem_mul_r by lia. replace ((b + 256 * le_combine bs) mod 256) with b.
    + replace ((b + 256 * le_combine bs) / 256) with (le_combine bs); [reflexivity|zdiv_lia].
    + rewrite Z.mul_comm, Z.mod_add, Z.mod_small by lia. reflexivity.
Qed.

Lemma le_combine_drop n bs :
  Forall byte_range bs -> le_combine (drop n bs) = le_combine bs / 256 ^ Z.of_nat n.
Proof.
  intros Hb. revert n. induction Hb as [|b bs Hb Hbs IH]; intros n.
  - rewrite drop_nil. cbn. symmetry. apply Z.div_0_l. lia.
  - destruct n as [|n]; [cbn; symmetry; apply Z.div_1_r|]. cbn [drop le_combine].
    rewrite IH, Nat2Z.inj_succ, Z.pow_succ_r by lia. unfold byte_range in Hb.
    rewrite <- Z.div_div by lia. f_equal. zdiv_lia.
Qed.

(** The [n] bytes at offset [off], as a number. *)
Definition bytes_at (n : nat) (buf : list Z) (off : Z) : Z := le_combine (take n (drop (Z.to_nat off) buf)).

Lemma bytes_at_bound n buf off :
  Forall byte_range buf -> 0 <= bytes_at n buf off < 256 ^ Z.of_nat n.
Proof.
  intros Hb. unfold bytes_at. pose proof (le_combine_bound (take n (drop (Z.to_nat off) buf))
    ltac:(apply Forall_take, Forall_drop; exact Hb)) as HB.
  rewrite length_take in HB. split; [lia|]. eapply Z.lt_le_trans; [apply HB|].
  apply Z.pow_le_mono_r; lia.
Qed.

Lemma bytes_at_prefix n m buf off :
  Forall byte_range buf -> (n <= m)%nat -> bytes_at n buf off = bytes_at m buf off mod 256 ^ Z.of_nat n.
Proof.
  intros Hb Hn. unfold bytes_at. rewrite <- le_combine_take by (apply Forall_take, Forall_drop; exact Hb).
  rewrite take_take_le by lia. reflexivity.
Qed.

Lemma bytes_at_suffix n k buf off :
  Forall byte_range buf -> 0 <= off ->
  bytes_at n buf (off + Z.of_nat k) = bytes_at (k + n) buf off / 256 ^ Z.of_nat k.
Proof.
  intros Hb Ho. unfold bytes_at. rewrite <- le_combine_drop by (apply Forall_take, Forall_drop; exact Hb).
  f_equal. rewrite <- take_drop_commute, drop_drop. f_equal. f_equal. lia.
Qed.

Lemma byte_at_bytes buf off :
  0 <= off < Z.of_nat (length buf) -> byte_at buf off = Some (bytes_at 1 buf off).
Proof.
  intros Ho. unfold byte_at, bytes_at. rewrite (proj2 (Z.leb_le _ _)) by lia.
  destruct (buf !! Z.to_nat off) as [b|] eqn:E; [|apply lookup_ge_None in E; lia].
  rewrite (drop_S _ _ _ E). cbn [take le_combine]. rewrite Z.mul_0_r, Z.add_0_r. reflexivity.
Qed.

Lemma load_le_some n buf off :
  0 <= off -> off + Z.of_nat n <= Z.of_nat (length buf) ->
  load_le n buf off = Some (bytes_at n buf off).
Proof.
  intros. unfold load_le. rewrite (proj2 (Z.leb_le _ _)), (proj2 (Z.leb_le _ _)) by lia. reflexivity.
Qed.

Lemma load_le_bound n buf off v :
  Forall byte_range buf -> load_le n buf off = Some v -> 0 <= v < 256 ^ Z.of_nat n.
Proof.
  unfold load_le. intros Hb H. case_match eqn:E; [|discriminate]. simplify_eq.
  apply andb_prop in E as [E1 E2]. apply Z.leb_le in E1, E2.
  pose proof (le_combine_bound (take n (drop (Z.to_nat off) buf))
    ltac:(apply Forall_take, Forall_drop; exact Hb)) as HB.
  rewrite length_take, length_drop in HB. replace (n `min` _)%nat with n in HB by lia. exact HB.
Qed.

Lemma byte_at_bound buf off v : Forall byte_range buf -> byte_at buf off = Some v -> byte_range v.
Proof.
  unfold byte_at. intros Hb H. case_match; [|discriminate].
  eapply Forall_lookup_1; eauto.
Qed.

Lemma byte_at_some buf off :
  0 <= off < Z.of_nat (length buf) -> is_Some (byte_at buf off).
Proof.
  intros. unfold byte_at. rewrite (proj2 (Z.leb_le _ _)) by lia. apply lookup_lt_is_Some. lia.
Qed.

(** *** Writing a number, and reversing its bytes *)

Fixpoint le_split (n : nat) (x : Z) : list Z :=
  match n with O => [] | S n => x mod 256 :: le_split n (x / 256) end.

(** [__builtin_bswap16], [32] and [64], for [n] of 2, 4 and 8. *)
Definition bswap (n : nat) (x : Z) : Z := le_combine (rev (le_split n x)).

Lemma le_split_length n x : length (le_split n x) = n.
Proof. revert x. induction n; cbn; auto. Qed.

Lemma le_split_range n x : Forall byte_range (le_split n x).
Proof. revert x. induction n; cbn; intros; constructor; [unfold byte_range; apply Z.mod_pos_bound; lia|auto]. Qed.

Lemma le_split_combine bs : Forall byte_range bs -> le_split (length bs) (le_combine bs) = bs.
Proof.
  induction 1 as [|b bs Hb Hbs IH]; cbn [length le_split le_combine]; [done|].
  unfold byte_range in Hb. f_equal; [zdiv_lia|].
  replace ((b + 256 * le_combine bs) / 256) with (le_combine bs) by zdiv_lia. exact IH.
Qed.

Lemma le_combine_split n x : le_combine (le_split n x) = x mod 256 ^ Z.of_nat n.
Proof.
  revert x. induction n as [|n IH]; intros x; cbn [le_split le_combine]; [cbn; by rewrite Z.mod_1_r|].
  rewrite IH, Nat2Z.inj_succ, Z.pow_succ_r, Z.rem_mul_r by lia. lia.
Qed.

Lemma bswap_combine bs : Forall byte_range bs -> bswap (length bs) (le_combine bs) = le_combine (rev bs).
Proof. intros Hb. unfold bswap. by rewrite le_split_combine. Qed.

Lemma bswap_bswap n x : bswap n (bswap n x) = x mod 256 ^ Z.of_nat n.
Proof.
  unfold bswap at 2. pose proof (bswap_combine (rev (le_split n x))) as B.
  rewrite length_rev, le_split_length in B. rewrite B by (apply Forall_rev, le_split_range).
  rewrite rev_involutive. apply le_combine_split.
Qed.

Lemma bswap_bound n x : 0 <= bswap n x < 256 ^ Z.of_nat n.
Proof.
  unfold bswap. pose proof (le_combine_bound (rev (le_split n x)) ltac:(apply Forall_rev, le_split_range)) as B.
  by rewrite length_rev, le_split_length in B.
Qed.

Lemma load_le_at n (pre bs post : list Z) :
  length bs = n -> load_le n (pre ++ bs ++ post) (Z.of_nat (length pre)) = Some (le_combine bs).
Proof.
  intros L. rewrite load_le_some by (rewrite ?length_app; lia). unfold bytes_at.
  rewrite Nat2Z.id, drop_app_length, take_app_length' by lia. done.
Qed.

(** ** Counted loops

    [for (i = a; i < b; i++) body], the state [s] being what the body changes. *)

Section Loops.
Context {St : Type}.

Fixpoint for_loop (n : nat) (i : Z) (body : Z -> St -> outcome St) (s : St) : outcome St :=
  match n with O => Done s | S n => s' ← body i s; for_loop n (i + 1) body s' end.
Definition for_up (a b : Z) : (Z -> St -> outcome St) -> St -> outcome St := for_loop (Z.to_nat (b - a)) a.

Lemma for_loop_app n m i body s :
  for_loop (n + m) i body s = (s' ← for_loop n i body s; for_loop m (i + Z.of_nat n) body s').
Proof.
  revert i s. induction n as [|n IH]; intros i s; cbn [Nat.add for_loop].
  - rewrite bind_done. f_equal. lia.
  - destruct (body i s) as [s'| | |]; cbn -[for_loop Z.of_nat]; try reflexivity.
    rewrite IH. destruct (for_loop n (i + 1) body s'); cbn -[for_loop Z.of_nat]; try reflexivity. f_equal. lia.
Qed.

Lemma for_loop_inv (I : Z -> St -> Prop) n i body s :
  I i s ->
  (forall j s', i <= j < i + Z.of_nat n -> I j s' -> exists s'', body j s' = Done s'' /\ I (j + 1) s'') ->
  exists s', for_loop n i body s = Done s' /\ I (i + Z.of_nat n) s'.
Proof.
  revert i s. induction n as [|n IH]; intros i s H0 Hb; cbn [for_loop].
  - exists s. split; [reflexivity|]. replace (i + Z.of_nat 0) with i by lia. exact H0.
  - destruct (Hb i s ltac:(lia) H0) as (s' & -> & H1). rewrite bind_done.
    destruct (IH (i + 1) s' H1) as (r & E & Hr); [intros; apply Hb; auto; lia|].
    exists r. split; [exact E|]. replace (i + Z.of_nat (S n)) with (i + 1 + Z.of_nat n) by lia. exact Hr.
Qed.

End Loops.

(** ** Counting and bounded search over [0, n) *)

Fixpoint count (f : Z -> bool) (n : nat) : Z :=
  match n with O => 0 | S n => count f n + (if f (Z.of_nat n) then 1 else 0) end.

Lemma count_ext f g n :
  (forall i, 0 <= i < Z.of_nat n -> f i = g i) -> count f n = count g n.
Proof. induction n as [|n IH]; cbn; intros Hfg; [reflexivity|]. rewrite IH, Hfg by (intros; try apply Hfg; lia). reflexivity. Qed.

Lemma count_bounds f n : 0 <= count f n <= Z.of_nat n.
Proof. induction n as [|n IH]; cbn -[Z.of_nat]; [lia|]. case_match; lia. Qed.

Lemma count_mono f g n :
  (forall i, 0 <= i < Z.of_nat n -> f i = true -> g i = true) -> count f n <= count g n.
Proof.
  induction n as [|n IH]; cbn; intros Hfg; [lia|].
  specialize (IH ltac:(intros; apply Hfg; [lia|assumption])).
  specialize (Hfg (Z.of_nat n) ltac:(lia)). destruct (f (Z.of_nat n)); [rewrite Hfg by reflexivity|]; [lia|].
  case_match; lia.
Qed.

(** [count] when one element changes. *)
Lemma count_flip f g n i :
  0 <= i < Z.of_nat n -> f i = false -> g i = true ->
  (forall j, 0 <= j < Z.of_nat n -> j <> i -> g j = f j) -> count g n = count f n + 1.
Proof.
  induction n as [|n IH]; cbn -[Z.of_nat]; intros Hi Hf Hg Hfg; [lia|].
  destruct (Z.eq_dec i (Z.of_nat n)) as [->|N].
  - rewrite Hf, Hg, (count_ext g f) by (intros; apply Hfg; lia). lia.
  - rewrite (Hfg (Z.of_nat n)) by lia.
    rewrite IH; [lia|lia|exact Hf|exact Hg|]. intros; apply Hfg; lia.
Qed.

Lemma count_hole f n : count f n < Z.of_nat n -> exists i, 0 <= i < Z.of_nat n /\ f i = false.
Proof.
  induction n as [|n IH]; cbn -[Z.of_nat]; intros Hc; [lia|].
  destruct (f (Z.of_nat n)) eqn:E; [|exists (Z.of_nat n); split; [lia|exact E]].
  destruct IH as (i & Hi & Hf); [lia|]. exists i. split; [lia|exact Hf].
Qed.

(** The least index from [k] on at which [f] holds. *)
Lemma least_from (f : Z -> bool) k c :
  k <= c -> f c = true ->
  exists m, k <= m <= c /\ f m = true /\ forall j, k <= j < m -> f j = false.
Proof.
  intros Hk Hc. remember (Z.to_nat (c - k)) as d eqn:Hd. revert k Hk Hd.
  induction d as [|d IH]; intros k Hk Hd.
  - exists k. replace k with c by lia. split_and!; [lia..|exact Hc|lia].
  - destruct (f k) eqn:E; [exists k; split_and!; [lia..|exact E|lia]|].
    destruct (IH (k + 1) ltac:(lia) ltac:(lia)) as (m & Hm & Hf & Hlt).
    exists m. split_and!; [lia..|exact Hf|]. intros j Hj.
    destruct (Z.eq_dec j k) as [->|]; [exact E|apply Hlt; lia].
Qed.

Lemma to_nat_nonpos x : x <= 0 -> Z.to_nat x = O.
Proof. lia. Qed.
