(* ===== verification/Numbers.v ===== *)
(** * Integer helpers ([core/native/numbers/numbers.h]) *)
From Stdlib Require Import Znumtheory.
From S2P Require Import Prelude.

(** [round_up_to_power_of_two]: smear the highest set bit of [x - 1]
    downwards, then add one, all in [uint64_t]. *)
Definition smear (k x : Z) : Z := Z.lor x (Z.shiftr x k).

Definition round_up_to_power_of_two (x : Z) : Z :=
  let x := u64 (x - 1) in
  let x := smear 1 x in
  let x := smear 2 x in
  let x := smear 4 x in
  let x := smear 8 x in
  let x := smear 16 x in
  let x := smear 32 x in
  u64 (x + 1).

(** [filled k m x]: every bit of [x] in the [k] positions below the top bit
    [m] (and [m] itself) is set, and none is above [m]. *)
Definition filled (k m x : Z) : Prop :=
  0 <= x /\ (forall i, m < i -> Z.testbit x i = false)
  /\ (forall i, 0 <= i -> m - k < i <= m -> Z.testbit x i = true).

Lemma smear_filled k k' m x :
  0 < k -> 0 <= m -> k' = 2 * k -> filled k m x -> filled k' m (smear k x).
Proof.
  intros Hk Hm -> (H0 & Ha & Hf). unfold smear. split_and!.
  - apply Z.lor_nonneg. split; [lia|]. apply Z.shiftr_nonneg. lia.
  - intros i Hi. rewrite Z.lor_spec, Z.shiftr_spec, !Ha by lia. reflexivity.
  - intros i Hi0 Hi. rewrite Z.lor_spec, Z.shiftr_spec by lia.
    destruct (Z.lt_ge_cases (m - k) i); [rewrite Hf by lia; reflexivity|].
    rewrite (Hf (i + k)) by lia. apply orb_true_r.
Qed.

Lemma filled_all m x : 0 <= m -> filled (m + 1) m x -> x = 2 ^ (m + 1) - 1.
Proof.
  intros Hm (H0 & Ha & Hf). rewrite Z.sub_1_r, <- Z.ones_equiv.
  apply Z.bits_inj'. intros i Hi.
  rewrite Z.testbit_ones_nonneg by lia. destruct (Z.ltb_spec i (m + 1)).
  - apply Hf; lia.
  - apply Ha; lia.
Qed.

Lemma filled_weaken k k' m x : k' <= k -> filled k m x -> filled k' m x.
Proof. intros Hk (H0 & Ha & Hf). split_and!; auto. intros; apply Hf; lia. Qed.

Lemma round_up_spec x :
  1 <= x <= 2 ^ 63 -> round_up_to_power_of_two x = 2 ^ Z.log2_up x.
Proof.
  intros Hx. destruct (Z.eq_dec x 1) as [->|Hx1]; [vm_compute; reflexivity|]. unfold round_up_to_power_of_two. rewrite (wrap_small 64 (x - 1)) by lia.
  set (m := Z.log2 (x - 1)).
  assert (Hm : 0 <= m) by apply Z.log2_nonneg.
  assert (Hm' : m < 63) by (apply Z.log2_lt_pow2; lia).
  assert (F1 : filled 1 m (x - 1)).
  { split_and!; [lia| |].
    - intros i Hi. apply Z.bits_above_log2; unfold m in *; lia.
    - intros i Hi0 Hi. replace i with m by lia. apply Z.bit_log2. lia. }
  apply (smear_filled 1 2), (smear_filled 2 4), (smear_filled 4 8), (smear_filled 8 16),
    (smear_filled 16 32), (smear_filled 32 64) in F1; try lia.
  apply (filled_weaken _ (m + 1)) in F1; [|lia].
  apply (filled_all m _ Hm) in F1. cbv zeta. rewrite F1.
  rewrite Z.sub_add, wrap_small.
  - rewrite Z.log2_up_eqn by lia. reflexivity.
  - split; [apply Z.lt_le_incl, pow2_pos; lia|].
    apply Z.pow_lt_mono_r; lia.
Qed.

(** [round_up_to_power_of_two] of a [uint64_t] in [1, 2^63] is the least
    power of two that is at least the argument. *)
Theorem round_up_least_power x :
  1 <= x <= 2 ^ 63 ->
  x <= round_up_to_power_of_two x
  /\ (exists k, 0 <= k /\ round_up_to_power_of_two x = 2 ^ k)
  /\ (forall k, 0 <= k -> x <= 2 ^ k -> round_up_to_power_of_two x <= 2 ^ k).
Proof.
  intros Hx. rewrite round_up_spec by lia.
  pose proof (Z.log2_log2_up_spec x ltac:(lia)) as [_ Hle]. split_and!; [lia| |].
  - exists (Z.log2_up x). split; [apply Z.log2_up_nonneg|reflexivity].
  - intros k Hk Hxk. apply Z.pow_le_mono_r; [lia|]. apply Z.log2_up_le_pow2; lia.
Qed.

Lemma round_up_least_power_witness :
  1 <= 33 <= 2 ^ 63 /\ round_up_to_power_of_two 33 = 64 /\ 33 <= round_up_to_power_of_two 33.
Proof.
  split; [lia|]. split; [vm_compute; reflexivity|].
  exact (proj1 (round_up_least_power 33 ltac:(lia))).
Defined.

(** ** Primality by trial division

    Used for the sizes of the hash map and the exponents of the string hash. *)

Lemma prime_by_trial n :
  2 <= n -> (forall d, 2 <= d -> d * d <= n -> n mod d <> 0) -> Znumtheory.prime n.
Proof.
  intros Hn Hd. apply prime_intro; [lia|]. intros m Hm. apply Zgcd_1_rel_prime.
  set (g := Z.gcd m n).
  assert (Hg : 0 < g).
  { pose proof (Z.gcd_nonneg m n). destruct (Z.eq_dec g 0) as [E|]; [|unfold g in *; lia].
    apply Z.gcd_eq_0_r in E. lia. }
  destruct (Z.eq_dec g 1) as [|N]; [assumption|exfalso].
  assert (Hgm : g <= m) by (apply Z.divide_pos_le; [lia|apply Z.gcd_divide_l]).
  destruct (Z.gcd_divide_r m n) as [q Hq]. fold g in Hq.
  assert (Hq2 : 2 <= q) by nia.
  destruct (Z.le_gt_cases g q).
  - apply (Hd g); [lia|nia|]. rewrite Hq. apply Z.mod_mul. lia.
  - apply (Hd q); [lia|nia|]. rewrite Hq, Z.mul_comm. apply Z.mod_mul. lia.
Qed.

Fixpoint trial (fuel : nat) (d n : Z) : bool :=
  match fuel with O => true | S fuel => negb (n mod d =? 0) && trial fuel (d + 1) n end.

Definition trial_check (n : Z) : bool := (2 <=? n) && trial (Z.to_nat (Z.sqrt n - 1)) 2 n.

Lemma trial_no_divisor fuel d n e :
  trial fuel d n = true -> d <= e < d + Z.of_nat fuel -> n mod e <> 0.
Proof.
  revert d. induction fuel as [|fuel IH]; intros d Ht He; [lia|].
  apply andb_prop in Ht as [Hn%negb_true_iff%Z.eqb_neq Ht].
  destruct (Z.eq_dec e d) as [->|]; [exact Hn|]. apply (IH (d + 1)); [exact Ht|lia].
Qed.

Lemma trial_check_prime n : trial_check n = true -> Znumtheory.prime n.
Proof.
  unfold trial_check. rewrite andb_true_iff, Z.leb_le. intros [Hn Hf].
  apply prime_by_trial; [exact Hn|]. intros d Hd Hdd.
  assert (Hs : d <= Z.sqrt n) by (apply Z.sqrt_le_square; lia).
  apply (trial_no_divisor _ 2 n d Hf). lia.
Qed.
