(* ===== verification/PointerArray.v ===== *)
(** * The growable array of pointers ([core/native/arrays/pointer.h])

    A [struct pointer_array] is a record; its [memory] is the list of the cells
    of the allocated block, [None] for a cell that was never written.  Pointers
    are [Z], [NULL] is [0].  Allocation is taken to succeed, as the code never
    tests it. *)
From S2P Require Import Prelude Numbers.

Record pointer_array := PointerArray {
  capacity : Z;
  size : Z;
  resize_factor : Z;
  memory : list (option Z);
}.

Definition NULL : Z := 0.
Definition sizeof_pointer : Z := 8.
Definition POINTER_ARRAY_DEFAULT_CAPACITY : Z := 16.
Definition POINTER_ARRAY_DEFAULT_RESIZE_FACTOR : Z := 2.

(** ** The block of cells *)

Definition zlength {A} (l : list A) : Z := Z.of_nat (length l).

(** A read of a cell: out of range or indeterminate is a fault. *)
Definition load (mem : list (option Z)) (i : Z) : outcome Z :=
  demand (if 0 <=? i then mjoin (mem !! Z.to_nat i) else None).

Definition store (mem : list (option Z)) (i v : Z) : outcome (list (option Z)) :=
  if (0 <=? i) && (i <? zlength mem) then Done (<[Z.to_nat i := Some v]> mem) else Faults.

Definition calloc (n : Z) : list (option Z) := replicate (Z.to_nat n) (Some NULL).

Definition realloc (mem : list (option Z)) (n : Z) : list (option Z) :=
  take (Z.to_nat n) mem ++ replicate (Z.to_nat n - length mem) None.

(** [memmove] of [n] cells from cell [src] to cell [dst] of the block. *)
Definition memmove (mem : list (option Z)) (dst src n : Z) : outcome (list (option Z)) :=
  if n =? 0 then Done mem else
  if (0 <=? dst) && (0 <=? src) && (0 <=? n)
     && (dst + n <=? zlength mem) && (src + n <=? zlength mem)
  then Done (take (Z.to_nat dst) mem
             ++ take (Z.to_nat n) (drop (Z.to_nat src) mem)
             ++ drop (Z.to_nat (dst + n)) mem)
  else Faults.

(** ** Operations *)

Definition pointer_array_create (initial_capacity resize_factor : Z) : pointer_array :=
  PointerArray initial_capacity 0 resize_factor (calloc initial_capacity).

Definition pointer_array_create_default : pointer_array :=
  pointer_array_create POINTER_ARRAY_DEFAULT_CAPACITY POINTER_ARRAY_DEFAULT_RESIZE_FACTOR.

Definition pointer_array_grow (a : pointer_array) : pointer_array :=
  let new_capacity := round_up_to_power_of_two (u64 (resize_factor a * capacity a)) in
  PointerArray new_capacity (size a) (resize_factor a)
    (realloc (memory a) (u64 (new_capacity * sizeof_pointer) / sizeof_pointer)).

Definition pointer_array_get (a : pointer_array) (index : Z) : outcome Z :=
  if index >=? size a then Done NULL else load (memory a) index.

Definition pointer_array_set (a : pointer_array) (index value : Z) : outcome (Z * pointer_array) :=
  if index >=? capacity a then Done (NULL, a) else
  current ← load (memory a) index;
  mem ← store (memory a) index value;
  Done (current, PointerArray (capacity a) (size a) (resize_factor a) mem).

(** The offsets given to [memmove] are offsets of a pointer to pointers, which C
    scales by the size of a pointer; the source multiplies them by that size
    once more. *)
Definition pointer_array_remove_range (a : pointer_array) (from count : Z) : outcome pointer_array :=
  if u64 (from + count) >=? capacity a then Done a else
  let bytes := u64 (u64 (size a - from - count) * sizeof_pointer) in
  mem ← memmove (memory a) (u64 (from * sizeof_pointer))
                (u64 (u64 (from + count) * sizeof_pointer)) (bytes / sizeof_pointer);
  Done (PointerArray (capacity a) (u64 (size a - count)) (resize_factor a) mem).

Definition pointer_array_remove (a : pointer_array) (index : Z) : outcome (Z * pointer_array) :=
  if index >=? capacity a then Done (NULL, a) else
  current ← load (memory a) index;
  a' ← pointer_array_remove_range a index 1;
  Done (current, a').

Definition pointer_array_remove_last (a : pointer_array) : outcome (Z * pointer_array) :=
  if size a =? 0 then Done (NULL, a) else
  current ← load (memory a) (size a - 1);
  mem ← store (memory a) (size a - 1) NULL;
  Done (current, PointerArray (capacity a) (size a - 1) (resize_factor a) mem).

Definition pointer_array_add (a : pointer_array) (value : Z) : outcome pointer_array :=
  let a := if size a >=? capacity a then pointer_array_grow a else a in
  mem ← store (memory a) (size a) value;
  Done (PointerArray (capacity a) (u64 (size a + 1)) (resize_factor a) mem).

(** ** Representation

    [represents a l]: the first [size a] cells hold the list [l]. *)

Definition represents (a : pointer_array) (l : list Z) : Prop :=
  size a = zlength l /\ zlength l <= capacity a /\ capacity a = zlength (memory a)
  /\ take (length l) (memory a) = Some <$> l.

(** The sizes of the blocks the arithmetic of [pointer_array_grow] is exact for. *)
Definition growable (a : pointer_array) : Prop :=
  2 <= resize_factor a /\ 1 <= capacity a /\ resize_factor a * capacity a <= 2 ^ 60.

Lemma zlength_nonneg {A} (l : list A) : 0 <= zlength l.
Proof. unfold zlength; lia. Qed.

Lemma represents_lookup a l i x :
  represents a l -> l !! i = Some x -> memory a !! i = Some (Some x).
Proof.
  intros (_ & _ & _ & H) Hi. pose proof (lookup_lt_Some _ _ _ Hi).
  rewrite <- (lookup_take_lt (memory a) (length l)) by lia.
  rewrite H, list_lookup_fmap, Hi. reflexivity.
Qed.

Lemma cell_load_done mem i x : 0 <= i -> mem !! Z.to_nat i = Some (Some x) -> load mem i = Done x.
Proof. intros Hi Hx. unfold load. rewrite (proj2 (Z.leb_le 0 i)), Hx by lia. reflexivity. Qed.

Lemma store_done mem i v :
  0 <= i < zlength mem -> store mem i v = Done (<[Z.to_nat i := Some v]> mem).
Proof.
  intros Hi. unfold store. rewrite (proj2 (Z.leb_le 0 i)), (proj2 (Z.ltb_lt _ _)) by lia. reflexivity.
Qed.

Lemma grow_memory a :
  growable a ->
  capacity (pointer_array_grow a) = 2 ^ Z.log2_up (resize_factor a * capacity a)
  /\ resize_factor a * capacity a <= capacity (pointer_array_grow a) <= 2 ^ 60.
Proof.
  intros (Hf & Hc & Hb). unfold pointer_array_grow; cbn.
  assert (1 <= resize_factor a * capacity a) by nia.
  rewrite wrap_small by lia. rewrite round_up_spec by lia. split; [reflexivity|].
  split; [apply Z.log2_log2_up_spec; lia|].
  apply Z.pow_le_mono_r; [lia|]. rewrite <- (Z.log2_up_pow2 60) by lia. apply Z.log2_up_le_mono. lia.
Qed.

Lemma grow_represents a l : growable a -> represents a l -> represents (pointer_array_grow a) l.
Proof.
  intros Hg (Hs & Hc & Hm & Ht). destruct (grow_memory a Hg) as [_ [Hlo Hhi]].
  destruct Hg as (Hf & Hc1 & Hb). unfold represents.
  assert (Hcap : capacity a <= capacity (pointer_array_grow a)) by nia.
  revert Hlo Hhi Hcap. unfold pointer_array_grow; cbn [capacity size memory].
  set (c := round_up_to_power_of_two _). intros Hlo Hhi Hcap.
  assert (E : u64 (c * sizeof_pointer) / sizeof_pointer = c).
  { unfold sizeof_pointer. rewrite wrap_small by lia. apply Z.div_mul; lia. }
  rewrite E. unfold realloc, zlength in *. split_and!; [lia..| |].
  - rewrite length_app, length_take, length_replicate. lia.
  - rewrite <- Ht, take_app_le by (rewrite length_take; lia). apply take_take_le. lia.
Qed.

(** Appending to a well-formed array returns without a fault and the array
    then holds the old elements followed by the new one; when the block is full
    it is first grown to a power of two. *)
Theorem pointer_array_add_appends a l v :
  represents a l -> growable a ->
  exists a', pointer_array_add a v = Done a' /\ represents a' (l ++ [v])
    /\ (size a < capacity a -> capacity a' = capacity a)
    /\ (capacity a <= size a -> capacity a' = 2 ^ Z.log2_up (resize_factor a * capacity a)).
Proof.
  intros Hr Hg. unfold pointer_array_add.
  set (b := if size a >=? capacity a then pointer_array_grow a else a).
  assert (Hb : represents b l) by (unfold b; case_match; auto using grow_represents).
  assert (Hlt : size b < capacity b /\ size b <= 2 ^ 60).
  { destruct Hr as (Hs & Hc & _). pose proof Hg as (Hf & Hc1 & Hm). unfold b. case_match eqn:E.
    - destruct (grow_memory a Hg) as [_ [? ?]].
      change (size (pointer_array_grow a)) with (size a). nia.
    - rewrite Z.geb_leb in E. apply Z.leb_gt in E. nia. }
  destruct Hb as (Hs & Hc & Hm & Ht). pose proof (zlength_nonneg l).
  rewrite store_done by lia. cbn. eexists; split; [reflexivity|]. split_and!.
  - unfold represents; cbn [size capacity memory]. unfold zlength in *.
    rewrite length_app, length_insert, wrap_small by (cbn in *; lia). cbn [length].
    split_and!; [lia..|]. rewrite Hs, Nat2Z.id, Nat.add_1_r, take_insert_snoc by lia.
    rewrite Ht, fmap_app. reflexivity.
  - intros Hlt'. cbn. unfold b. rewrite Z.geb_leb, (proj2 (Z.leb_gt _ _)) by lia. reflexivity.
  - intros Hge. cbn. unfold b. rewrite Z.geb_leb, (proj2 (Z.leb_le _ _)) by lia. apply grow_memory, Hg.
Qed.

Lemma pointer_array_add_appends_witness :
  exists a', pointer_array_add (PointerArray 1 1 2 [Some 7]) 9 = Done a'
    /\ represents a' ([7] ++ [9]).
Proof.
  destruct (pointer_array_add_appends (PointerArray 1 1 2 [Some 7]) [7] 9) as (a' & H & H' & _).
  - repeat split; vm_compute; congruence.
  - repeat split; vm_compute; congruence.
  - exists a'; auto.
Defined.

(** A read returns the element of the list at the index, [NULL] past its end. *)
Theorem pointer_array_get_lookup a l i :
  represents a l -> 0 <= i -> pointer_array_get a i = Done (default NULL (l !! Z.to_nat i)).
Proof.
  intros Hr Hi. unfold pointer_array_get. destruct Hr as (Hs & Hr'). rewrite Hs, Z.geb_leb.
  unfold zlength. destruct (Z.leb_spec (Z.of_nat (length l)) i).
  - rewrite lookup_ge_None_2 by lia. reflexivity.
  - destruct (lookup_lt_is_Some_2 l (Z.to_nat i) ltac:(lia)) as [x Hx]. rewrite Hx.
    apply cell_load_done; [lia|]. eapply represents_lookup; [|exact Hx]. split; auto.
Qed.

(** [pointer_array_remove_last] returns the last element and drops it. *)
Theorem pointer_array_remove_last_pops a l v :
  represents a (l ++ [v]) ->
  exists a', pointer_array_remove_last a = Done (v, a') /\ represents a' l.
Proof.
  intros Hr. pose proof Hr as (Hs & Hc & Hm & Ht). unfold zlength in *.
  rewrite length_app in *. cbn [length] in *. unfold pointer_array_remove_last.
  rewrite (proj2 (Z.eqb_neq _ _)) by lia.
  rewrite (cell_load_done _ _ v); [| lia |].
  2: { eapply represents_lookup; [exact Hr|]. replace (Z.to_nat _) with (length l) by lia.
       apply list_lookup_middle. reflexivity. }
  cbn [mbind outcome_bind]. rewrite store_done by (unfold zlength; lia). cbn.
  eexists; split; [reflexivity|]. unfold represents; cbn [size capacity memory].
  unfold zlength. rewrite length_insert. split_and!; [lia..|].
  rewrite take_insert_ge by lia.
  rewrite <- (take_take_le _ (length l) (length l + 1)), Ht, fmap_app, take_app_le by (rewrite ?length_fmap; lia).
  rewrite take_ge; [reflexivity|]. rewrite length_fmap. lia.
Qed.

Lemma pointer_array_remove_last_pops_witness :
  exists a', pointer_array_remove_last (PointerArray 2 2 2 [Some 7; Some 9]) = Done (9, a')
    /\ represents a' [7].
Proof.
  apply (pointer_array_remove_last_pops (PointerArray 2 2 2 [Some 7; Some 9]) [7] 9).
  repeat split; vm_compute; congruence.
Defined.

Lemma pointer_array_get_lookup_witness :
  pointer_array_get (PointerArray 2 1 2 [Some 7; None]) 0 = Done 7
  /\ pointer_array_get (PointerArray 2 1 2 [Some 7; None]) 1 = Done NULL.
Proof.
  split; [apply (pointer_array_get_lookup _ [7] 0) | apply (pointer_array_get_lookup _ [7] 1)];
    try lia; repeat split; vm_compute; congruence.
Defined.

(** Removing elements in the middle of an array works only for a suffix: the
    byte scaling applied twice moves the wrong cells, or cells outside the
    block. *)
Lemma remove_range_offsets a l from count :
  represents a l -> 0 <= from -> 0 <= count -> from + count <= zlength l ->
  from + count < capacity a -> capacity a <= 2 ^ 57 ->
  pointer_array_remove_range a from count =
    mem ← memmove (memory a) (from * 8) ((from + count) * 8) (zlength l - from - count);
    Done (PointerArray (capacity a) (zlength l - count) (resize_factor a) mem).
Proof.
  intros (Hs & Hc & Hm & Ht) Hf Hn Hr Hlt Hb. unfold pointer_array_remove_range, sizeof_pointer.
  rewrite (wrap_small 64 (from + count)), Z.geb_leb, (proj2 (Z.leb_gt _ _)) by lia.
  rewrite Hs, (wrap_small 64 (zlength l - count)), (wrap_small 64 (zlength l - from - count)) by lia.
  rewrite !(wrap_small 64 (_ * 8)), Z.div_mul by lia.
  reflexivity.
Qed.

(** [pointer_array_remove_range] of a suffix drops that suffix. *)
Theorem pointer_array_remove_range_suffix a l l' :
  represents a (l ++ l') -> zlength (l ++ l') < capacity a -> capacity a <= 2 ^ 57 ->
  exists a', pointer_array_remove_range a (zlength l) (zlength l') = Done a' /\ represents a' l.
Proof.
  intros Hr Hlt Hb. pose proof (zlength_nonneg l). pose proof (zlength_nonneg l').
  assert (E : zlength (l ++ l') = zlength l + zlength l') by (unfold zlength; rewrite length_app; lia).
  rewrite (remove_range_offsets a (l ++ l')) by (auto; lia).
  replace (zlength (l ++ l') - zlength l - zlength l') with 0 by lia. cbn.
  eexists; split; [reflexivity|]. destruct Hr as (Hs & Hc & Hm & Ht).
  unfold represents; cbn [size capacity memory]. split_and!; [lia..|].
  rewrite length_app in Ht.
  rewrite <- (take_take_le _ (length l) (length l + length l')), Ht, fmap_app by lia.
  rewrite take_app_le by (rewrite length_fmap; lia). apply take_ge. rewrite length_fmap. lia.
Qed.

Lemma pointer_array_remove_range_suffix_witness :
  exists a', pointer_array_remove_range (PointerArray 4 3 2 [Some 7; Some 8; Some 9; None]) 1 2 = Done a'
    /\ represents a' [7].
Proof.
  apply (pointer_array_remove_range_suffix (PointerArray 4 3 2 [Some 7; Some 8; Some 9; None]) [7] [8; 9]);
    [repeat split; vm_compute; congruence | vm_compute; reflexivity | vm_compute; congruence].
Defined.

(** Removing a range that is not a suffix accesses memory outside the block
    as soon as eight times its end plus the length of the tail exceeds the
    capacity: every removal of an inner element of an array of at most eight
    cells, for instance, is such an access. *)
Theorem pointer_array_remove_range_overruns a l from count :
  represents a l -> 0 <= from -> 0 <= count -> from + count < zlength l ->
  capacity a <= 2 ^ 57 -> capacity a < 8 * (from + count) + (zlength l - from - count) ->
  pointer_array_remove_range a from count = Faults.
Proof.
  intros Hr Hf Hn Hlt Hb Hov. pose proof Hr as (Hs & Hc & Hm & Ht).
  rewrite (remove_range_offsets a l) by (auto; lia). unfold memmove.
  rewrite (proj2 (Z.eqb_neq _ _)) by lia.
  rewrite (proj2 (Z.leb_gt ((from + count) * 8 + _) _)) by lia. rewrite andb_false_r. reflexivity.
Qed.

Lemma pointer_array_remove_range_overruns_witness :
  pointer_array_remove_range (PointerArray 4 3 2 [Some 7; Some 8; Some 9; None]) 0 1 = Faults.
Proof.
  apply (pointer_array_remove_range_overruns _ [7; 8; 9]);
    try (vm_compute; congruence); repeat split; vm_compute; congruence.
Defined.
