(* ===== verification/Doubles.v ===== *)
(** * Doubles that hold integers

    C converts between integers and doubles in the readers of [msgpuck.h] and in
    the generators of [wyhash.h].  A double is its 64 bits (IEEE 754, binary64, as
    the message pack stores it): a sign, eleven bits of exponent and 52 bits of
    significand.  Integers are rounded to the nearest double, ties to even. *)
From S2P Require Import Prelude.

(** ** Conversions *)

(** [a] over [2 ^ k], rounded to the nearest integer, ties to the even one. *)
Definition round_even (a k : Z) : Z :=
  if k <=? 0 then a * 2 ^ (- k)
  else
    let q := a / 2 ^ k in let r := a mod 2 ^ k in let half := 2 ^ (k - 1) in
    if (half <? r) || ((r =? half) && Z.odd q) then q + 1 else q.

(** The exponent of the last bit of a significand of 53 bits. *)
Definition last_place (a : Z) : Z := Z.log2 a - 52.

(** The double of [q * 2 ^ k], for [2 ^ 52 <= q <= 2 ^ 53]. *)
Definition assemble (negative : bool) (q k : Z) : Z :=
  (if negative then 2 ^ 63 else 0) + (k + 1075) * 2 ^ 52 + (q - 2 ^ 52).

(** [(double) n] *)
Definition double_of_Z (n : Z) : Z :=
  if n =? 0 then 0
  else let a := Z.abs n in let k := last_place a in assemble (n <? 0) (round_even a k) k.

(** The sign, the significand and the exponent of its last bit; nothing for an
    infinity and what is not a number. *)
Definition double_parts (bits : Z) : option (bool * Z * Z) :=
  let e := bits / 2 ^ 52 mod 2 ^ 11 in
  let m := bits mod 2 ^ 52 in
  if e =? 2047 then None
  else Some (2 ^ 63 <=? bits, if e =? 0 then m else m + 2 ^ 52, Z.max e 1 - 1075).

(** The integer towards zero. *)
Definition double_truncate (bits : Z) : option Z :=
  match double_parts bits with
  | Some (negative, m, k) =>
      let a := if 0 <=? k then m * 2 ^ k else m / 2 ^ (- k) in Some (if negative then - a else a)
  | None => None
  end.

(** [(int64_t) val] and [(uint64_t) val]: undefined outside of the range. *)
Definition int64_of_double (bits : Z) : outcome Z :=
  z ← demand (double_truncate bits);
  if (- 2 ^ 63 <=? z) && (z <? 2 ^ 63) then Done z else Faults.
Definition uint64_of_double (bits : Z) : outcome Z :=
  z ← demand (double_truncate bits);
  if (0 <=? z) && (z <? 2 ^ 64) then Done z else Faults.

(** [(double) f] of the bits of a float: exact, what is not a number made quiet. *)
Definition double_of_float (f : Z) : Z :=
  let sign := if 2 ^ 31 <=? f then 2 ^ 63 else 0 in
  let e := f / 2 ^ 23 mod 2 ^ 8 in
  let m := f mod 2 ^ 23 in
  if e =? 255 then sign + 2047 * 2 ^ 52 + (if m =? 0 then 0 else Z.lor (m * 2 ^ 29) (2 ^ 51))
  else if e =? 0 then
    if m =? 0 then sign
    else sign + (Z.log2 m + 874) * 2 ^ 52 + (m * 2 ^ (52 - Z.log2 m) - 2 ^ 52)
  else sign + (e + 896) * 2 ^ 52 + m * 2 ^ 29.

(** The parts of a float. *)
Definition float_parts (bits : Z) : option (bool * Z * Z) :=
  let e := bits / 2 ^ 23 mod 2 ^ 8 in
  let m := bits mod 2 ^ 23 in
  if e =? 255 then None
  else Some (2 ^ 31 <=? bits, if e =? 0 then m else m + 2 ^ 23, Z.max e 1 - 150).

(** ** What the conversion gives *)

(** The integer that [double_of_Z n] stands for. *)
Definition rounded (n : Z) : Z :=
  let k := last_place (Z.abs n) in
  if k <=? 0 then n else Z.sgn n * (round_even (Z.abs n) k * 2 ^ k).

(** The integers a double can hold: at most 53 significant bits. *)
Definition significant (n : Z) : Prop := exists m e, 0 <= e /\ Z.abs m < 2 ^ 53 /\ n = m * 2 ^ e.

(** ** Rounding *)

Lemma round_even_near a k : 0 < k ->
  2 * Z.abs (round_even a k * 2 ^ k - a) <= 2 ^ k.
Proof.
  intros Hk. unfold round_even. rewrite (proj2 (Z.leb_gt _ _)) by lia. cbv zeta.
  pose proof (Z.pow_pos_nonneg 2 (k - 1) ltac:(lia) ltac:(lia)) as P.
  replace (2 ^ k) with (2 * 2 ^ (k - 1)) by (rewrite <- Z.pow_succ_r by lia; f_equal; lia).
  set (h := 2 ^ (k - 1)) in *. pose proof (Z.div_mod a (2 * h) ltac:(lia)) as D. pose proof (Z.mod_pos_bound a (2 * h) ltac:(lia)) as B.
  set (q := a / (2 * h)) in *. set (r := a mod (2 * h)) in *.
  destruct (Z.ltb_spec h r); cbn [orb]; [nia|].
  destruct (Z.eqb_spec r h); cbn [andb]; [destruct (Z.odd q); nia|nia].
Qed.

Lemma last_place_bounds a : 0 < a -> 2 ^ 52 * 2 ^ Z.max 0 (last_place a) <= a * 2 ^ Z.max 0 (- last_place a) < 2 ^ 53 * 2 ^ Z.max 0 (last_place a).
Proof.
  intros Ha. unfold last_place. pose proof (Z.log2_spec a Ha) as [L U]. pose proof (Z.log2_nonneg a).
  set (l := Z.log2 a) in *. destruct (Z.le_gt_cases 52 l).
  - rewrite !(Z.max_r 0 (l - 52)), (Z.max_l 0 (- (l - 52))) by lia. rewrite <- !Z.pow_add_r by lia.
    replace (52 + (l - 52)) with l by lia. replace (53 + (l - 52)) with (Z.succ l) by lia. lia.
  - rewrite (Z.max_l 0 (l - 52)), (Z.max_r 0 (- (l - 52))) by lia. change (2 ^ 0) with 1. rewrite !Z.mul_1_r.
    replace (2 ^ 52) with (2 ^ l * 2 ^ (- (l - 52))) by (rewrite <- Z.pow_add_r by lia; f_equal; lia).
    replace (2 ^ 53) with (2 ^ Z.succ l * 2 ^ (- (l - 52))) by (rewrite <- Z.pow_add_r by lia; f_equal; lia).
    assert (0 < 2 ^ (- (l - 52))) by (apply Z.pow_pos_nonneg; lia). nia.
Qed.

Lemma round_even_bounds a : 0 < a -> 2 ^ 52 <= round_even a (last_place a) <= 2 ^ 53.
Proof.
  intros Ha. pose proof (last_place_bounds a Ha) as [L U]. set (k := last_place a) in *.
  unfold round_even. destruct (Z.leb_spec k 0).
  - rewrite (Z.max_l 0 k), (Z.max_r 0 (- k)) in * by lia. change (2 ^ 0) with 1 in *. lia.
  - rewrite (Z.max_r 0 k), (Z.max_l 0 (- k)) in * by lia. change (2 ^ 0) with 1 in *. cbv zeta.
    assert (P : 0 < 2 ^ k) by (apply Z.pow_pos_nonneg; lia).
    assert (2 ^ 52 <= a / 2 ^ k) by (apply Z.div_le_lower_bound; nia).
    assert (a / 2 ^ k < 2 ^ 53) by (apply Z.div_lt_upper_bound; nia).
    destruct (_ || _); lia.
Qed.

(** The parts of the bits that were put together. *)
Lemma parts_fields (s : bool) e m : 0 <= e < 2 ^ 11 -> 0 <= m < 2 ^ 52 ->
  double_parts ((if s then 2 ^ 63 else 0) + e * 2 ^ 52 + m) =
    if e =? 2047 then None else Some (s, if e =? 0 then m else m + 2 ^ 52, Z.max e 1 - 1075).
Proof.
  intros He Hm. unfold double_parts. set (h := if s then 1 else 0).
  assert (E : (if s then 2 ^ 63 else 0) + e * 2 ^ 52 + m = (e + h * 2 ^ 11) * 2 ^ 52 + m) by (unfold h; destruct s; pow2_norm; lia).
  rewrite E, Z.div_add_l, (Z.div_small m), Z.add_0_r by (pow2_norm; lia).
  rewrite Z_mod_plus_full, (Z.mod_small e), (Z.add_comm _ m), Z_mod_plus_full, (Z.mod_small m) by done.
  destruct (e =? 2047); [done|]. do 3 f_equal. unfold h.
  destruct s; [apply Z.leb_le|apply Z.leb_gt]; pow2_norm; lia.
Qed.

(** A significand that rounded up to [2 ^ 53] carries into the exponent. *)
Lemma parts_assembled s q k : 2 ^ 52 <= q <= 2 ^ 53 -> - 1074 <= k <= 900 ->
  double_parts (assemble s q k) = Some (s, if q =? 2 ^ 53 then 2 ^ 52 else q, if q =? 2 ^ 53 then k + 1 else k).
Proof.
  intros Hq Hk. unfold assemble. destruct (Z.eqb_spec q (2 ^ 53)) as [->|].
  - replace (_ + _ + _) with ((if s then 2 ^ 63 else 0) + (k + 1076) * 2 ^ 52 + 0) by (pow2_norm; lia).
    rewrite parts_fields by (pow2_norm; lia). rewrite !(proj2 (Z.eqb_neq _ _)) by lia. do 2 f_equal. lia.
  - rewrite parts_fields by (pow2_norm; lia). rewrite !(proj2 (Z.eqb_neq _ _)) by lia. f_equal. f_equal; [f_equal|]; lia.
Qed.

Lemma truncate_double_of_Z n : Z.abs n <= 2 ^ 64 -> double_truncate (double_of_Z n) = Some (rounded n).
Proof.
  intros Hn. unfold double_of_Z. destruct (Z.eqb_spec n 0) as [->|N0]; [reflexivity|]. cbv zeta.
  assert (Ha : 0 < Z.abs n) by lia. pose proof (round_even_bounds _ Ha) as Bq.
  assert (Bk : - 52 <= last_place (Z.abs n) <= 12).
  { unfold last_place. pose proof (Z.log2_nonneg (Z.abs n)). pose proof (Z.log2_le_mono _ _ Hn) as L. rewrite Z.log2_pow2 in L by lia. lia. }
  unfold double_truncate, rounded. rewrite parts_assembled by lia. cbn [mbind option_bind]. f_equal.
  assert (S : Z.sgn n * Z.abs n = n) by lia. set (k := last_place (Z.abs n)) in *.
  assert (V : (if 0 <=? (if round_even (Z.abs n) k =? 2 ^ 53 then k + 1 else k)
      then (if round_even (Z.abs n) k =? 2 ^ 53 then 2 ^ 52 else round_even (Z.abs n) k) * 2 ^ (if round_even (Z.abs n) k =? 2 ^ 53 then k + 1 else k)
      else (if round_even (Z.abs n) k =? 2 ^ 53 then 2 ^ 52 else round_even (Z.abs n) k) / 2 ^ (- (if round_even (Z.abs n) k =? 2 ^ 53 then k + 1 else k)))
    = if k <=? 0 then Z.abs n else round_even (Z.abs n) k * 2 ^ k).
  { destruct (Z.leb_spec k 0).
    - pose proof (last_place_bounds _ Ha) as [_ U]. fold k in U. rewrite (Z.max_l 0 k), (Z.max_r 0 (- k)) in U by lia. change (2 ^ 0) with 1 in U.
      unfold round_even. rewrite (proj2 (Z.leb_le k 0)) by lia. rewrite (proj2 (Z.eqb_neq _ _)) by lia.
      destruct (Z.leb_spec 0 k); [replace k with 0 by lia; change (- 0) with 0; change (2 ^ 0) with 1; lia|].
      apply Z.div_mul. apply Z.pow_nonzero; lia.
    - destruct (Z.eqb_spec (round_even (Z.abs n) k) (2 ^ 53)) as [->|]; rewrite (proj2 (Z.leb_le 0 _)) by lia; [|done].
      rewrite <- !Z.pow_add_r by lia. f_equal. lia. }
  rewrite V. destruct (Z.ltb_spec n 0), (k <=? 0); lia.
Qed.

(** ** Exactness *)

Lemma rounded_significant n : significant (rounded n).
Proof.
  destruct (Z.eq_dec n 0) as [->|N0]; [exists 0, 0; split_and!; [lia|pow2_norm; lia|reflexivity]|]. assert (Ha : 0 < Z.abs n) by lia.
  unfold rounded. set (k := last_place (Z.abs n)). destruct (Z.leb_spec k 0).
  - exists n, 0. pose proof (last_place_bounds _ Ha) as [_ U]. fold k in U. rewrite (Z.max_l 0 k), (Z.max_r 0 (- k)) in U by lia.
    change (2 ^ 0) with 1 in *. assert (0 < 2 ^ (- k)) by (apply Z.pow_pos_nonneg; lia).
    assert (Z.abs n * 1 <= Z.abs n * 2 ^ (- k)) by (apply Z.mul_le_mono_nonneg_l; lia). split_and!; lia.
  - pose proof (round_even_bounds _ Ha) as B. fold k in B. destruct (Z.eq_dec (round_even (Z.abs n) k) (2 ^ 53)) as [E|].
    + exists (Z.sgn n * 2 ^ 52), (k + 1). rewrite E, Z.pow_add_r by lia. split_and!; [lia|pow2_norm; lia|]. change (2 ^ 53) with (2 ^ 52 * 2 ^ 1). lia.
    + exists (Z.sgn n * round_even (Z.abs n) k), k. split_and!; [lia|pow2_norm; lia|lia].
Qed.

(** A multiple of [2 ^ k] is not rounded. *)
Lemma round_even_exact q k : 0 < k -> round_even (q * 2 ^ k) k = q.
Proof.
  intros Hk. unfold round_even. rewrite (proj2 (Z.leb_gt _ _)) by lia. cbv zeta.
  assert (P : 0 < 2 ^ (k - 1)) by (apply Z.pow_pos_nonneg; lia). assert (0 < 2 ^ k) by (apply Z.pow_pos_nonneg; lia).
  rewrite Z.mod_mul, Z.div_mul by lia. by rewrite (proj2 (Z.ltb_ge _ _)), (proj2 (Z.eqb_neq _ _)) by lia.
Qed.

(** A number of 53 significant bits that is large has a large last place. *)
Lemma significant_multiple r k : significant r -> 0 < k -> 2 ^ 52 * 2 ^ k <= Z.abs r -> exists q, r = q * 2 ^ k.
Proof.
  intros (m & e & He & Hm & ->) Hk Hr.
  rewrite Z.abs_mul, (Z.abs_eq (2 ^ e)) in Hr by (apply Z.pow_nonneg; lia).
  assert (k <= e).
  { destruct (Z.le_gt_cases k e); [done|exfalso]. assert (E : 2 ^ k = 2 * 2 ^ e * 2 ^ (k - 1 - e)).
    { rewrite <- (Z.pow_succ_r 2 e), <- Z.pow_add_r by lia. f_equal. lia. }
    assert (0 < 2 ^ (k - 1 - e)) by (apply Z.pow_pos_nonneg; lia). assert (0 < 2 ^ e) by (apply Z.pow_pos_nonneg; lia).
    assert (2 ^ 52 * (2 * 2 ^ e) <= 2 ^ 52 * 2 ^ k) by (rewrite E; nia). pow2_norm. nia. }
  exists (m * 2 ^ (e - k)). rewrite <- Z.mul_assoc, <- Z.pow_add_r by lia. f_equal. f_equal. lia.
Qed.

Lemma large n : 0 < last_place (Z.abs n) -> 2 ^ 52 * 2 ^ last_place (Z.abs n) <= Z.abs n.
Proof.
  intros Hk. assert (Ha : 0 < Z.abs n) by (unfold last_place in Hk; destruct (Z.eq_dec n 0) as [->|]; [by vm_compute in Hk|lia]).
  pose proof (last_place_bounds _ Ha) as [L _]. rewrite (Z.max_r 0 (last_place (Z.abs n))), (Z.max_l 0 (- last_place (Z.abs n))) in L by lia.
  change (2 ^ 0) with 1 in L. lia.
Qed.

Lemma rounded_exact n : rounded n = n <-> significant n.
Proof.
  split; [intros <-; apply rounded_significant|]. intros Hs. unfold rounded. destruct (Z.leb_spec (last_place (Z.abs n)) 0) as [|Hk]; [done|].
  destruct (significant_multiple n _ Hs Hk (large n Hk)) as (q & E). set (k := last_place (Z.abs n)) in *.
  assert (0 < 2 ^ k) by (apply Z.pow_pos_nonneg; lia).
  clearbody k. assert (P : 0 <= 2 ^ k) by lia.
  assert (Ea : Z.abs n = Z.abs q * 2 ^ k) by (apply (f_equal Z.abs) in E; by rewrite Z.abs_mul, (Z.abs_eq (2 ^ k) P) in E).
  assert (Es : Z.sgn n = Z.sgn q) by (apply (f_equal Z.sgn) in E; by rewrite Z.sgn_mul, (Z.sgn_pos (2 ^ k)), Z.mul_1_r in E by lia).
  rewrite Ea, round_even_exact, Es by lia. lia.
Qed.

(** ** The nearest double *)

Lemma rounded_near n : 0 < last_place (Z.abs n) -> 2 * Z.abs (rounded n - n) <= 2 ^ last_place (Z.abs n).
Proof.
  intros Hk. unfold rounded. rewrite (proj2 (Z.leb_gt _ _)) by lia. pose proof (round_even_near (Z.abs n) _ Hk).
  set (x := round_even _ _ * _) in *. destruct (Z.sgn_spec n) as [[? ->]|[[? ->]|[? ->]]]; lia.
Qed.

(** No number that a double can hold is nearer. *)
Lemma rounded_nearest n r : significant r -> Z.abs (rounded n - n) <= Z.abs (r - n).
Proof.
  intros Hr. destruct (Z.le_gt_cases (last_place (Z.abs n)) 0) as [|Hk].
  { unfold rounded. rewrite (proj2 (Z.leb_le _ _)) by done. lia. }
  pose proof (rounded_near n Hk) as Near. pose proof (large n Hk) as L.
  assert (M : exists c, rounded n = c * 2 ^ last_place (Z.abs n)).
  { unfold rounded. rewrite (proj2 (Z.leb_gt _ _)) by lia. eexists. by rewrite Z.mul_assoc. }
  set (k := last_place (Z.abs n)) in *. assert (0 < 2 ^ k) by (apply Z.pow_pos_nonneg; lia). destruct M as (c & Ec).
  assert (Multiple : forall q, Z.abs (rounded n - n) <= Z.abs (q * 2 ^ k - n)).
  { intros q. destruct (Z.eq_dec q c) as [->|]; [lia|]. rewrite Ec in *. destruct (Z.le_gt_cases q c); nia. }
  destruct (Z.le_gt_cases (2 ^ 52 * 2 ^ k) (Z.abs r)) as [Hb|Hb].
  - destruct (significant_multiple r k Hr Hk Hb) as (q & ->). apply Multiple.
  - specialize (Multiple (Z.sgn n * 2 ^ 52)). destruct (Z.sgn_spec n) as [[? E]|[[? E]|[? E]]]; rewrite E in Multiple; lia.
Qed.

(** ** Floats *)

(** A float is a double of the same value; its significand is only scaled. *)
Lemma double_of_float_parts f s m k : 0 <= f < 2 ^ 32 -> float_parts f = Some (s, m, k) ->
  exists k', k' <= k /\ double_parts (double_of_float f) = Some (s, m * 2 ^ (k - k'), k').
Proof.
  intros Hf. unfold float_parts, double_of_float. cbv zeta.
  pose proof (Z.mod_pos_bound (f / 2 ^ 23) (2 ^ 8) ltac:(lia)) as Be. pose proof (Z.mod_pos_bound f (2 ^ 23) ltac:(lia)) as Bm.
  set (e := f / 2 ^ 23 mod 2 ^ 8) in *. set (r := f mod 2 ^ 23) in *.
  destruct (Z.eqb_spec e 255); [done|]. intros [= <- <- <-]. destruct (Z.eqb_spec e 0) as [->|He].
  - destruct (Z.eqb_spec r 0) as [->|Hr].
    + exists (-1074). split; [lia|]. pose proof (parts_fields (2 ^ 31 <=? f) 0 0 ltac:(lia) ltac:(lia)) as P.
      rewrite !Z.add_0_r in P. by rewrite P.
    + pose proof (Z.log2_spec r ltac:(lia)) as [L U]. pose proof (Z.log2_nonneg r).
      assert (Hl : Z.log2 r < 23) by (apply Z.log2_lt_pow2; lia). set (l := Z.log2 r) in *.
      assert (E : 2 ^ l * 2 ^ (52 - l) = 2 ^ 52) by (rewrite <- Z.pow_add_r by lia; f_equal; lia).
      assert (0 < 2 ^ (52 - l)) by (apply Z.pow_pos_nonneg; lia). rewrite Z.pow_succ_r in U by lia.
      exists (l + 874 - 1075). split; [lia|]. rewrite parts_fields by (pow2_norm; nia).
      rewrite !(proj2 (Z.eqb_neq _ _)) by lia. f_equal. f_equal; [f_equal|]; [|lia].
      replace (Z.max 0 1 - 150 - (l + 874 - 1075)) with (52 - l) by lia. lia.
  - exists (e + 896 - 1075). split; [lia|]. rewrite parts_fields by (pow2_norm; lia).
    rewrite !(proj2 (Z.eqb_neq _ _)) by lia. f_equal. f_equal; [f_equal|]; [|lia].
    replace (Z.max e 1 - 150 - (e + 896 - 1075)) with 29 by lia. pow2_norm. lia.
Qed.

(** ** Products and differences

    Exact, then rounded to the nearest double; for results that are zero or of a
    normal exponent. *)

(** The double next to [a * 2 ^ k]. *)
Definition round_scaled (negative : bool) (a k : Z) : Z :=
  assemble negative (round_even a (last_place a)) (last_place a + k).

Definition double_mul (x y : Z) : option Z :=
  match double_parts x, double_parts y with
  | Some (s1, m1, k1), Some (s2, m2, k2) =>
      Some (if m1 * m2 =? 0 then (if xorb s1 s2 then 2 ^ 63 else 0) else round_scaled (xorb s1 s2) (m1 * m2) (k1 + k2))
  | _, _ => None
  end.

Definition signed_part (s : bool) (m : Z) : Z := if s then - m else m.

Definition double_sub (x y : Z) : option Z :=
  match double_parts x, double_parts y with
  | Some (s1, m1, k1), Some (s2, m2, k2) =>
      let k := Z.min k1 k2 in
      let z := signed_part s1 m1 * 2 ^ (k1 - k) - signed_part s2 m2 * 2 ^ (k2 - k) in
      Some (if z =? 0 then 0 else round_scaled (z <? 0) (Z.abs z) k)
  | _, _ => None
  end.

(** A double is exactly [v * 2 ^ e]. *)
Definition is_scaled (d v e : Z) : Prop :=
  if v =? 0 then d = 0
  else double_parts d = Some (v <? 0, Z.abs v * 2 ^ (- last_place (Z.abs v)), last_place (Z.abs v) + e).

Lemma last_place_scaled w j : 0 < w -> 0 <= j -> last_place (w * 2 ^ j) = last_place w + j.
Proof. intros Hw Hj. unfold last_place. rewrite Z.log2_mul_pow2 by lia. lia. Qed.

Lemma last_place_small w : 0 < w < 2 ^ 53 -> -52 <= last_place w <= 0.
Proof.
  intros Hw. unfold last_place. pose proof (Z.log2_nonneg w). assert (Z.log2 w < 53) by (apply Z.log2_lt_pow2; lia). lia.
Qed.

Lemma round_scaled_parts s w j k : 0 < w < 2 ^ 53 -> 0 <= j -> -1074 <= last_place w + j + k <= 900 ->
  double_parts (round_scaled s (w * 2 ^ j) k) = Some (s, w * 2 ^ (- last_place w), last_place w + j + k).
Proof.
  intros Hw Hj Hk. pose proof (last_place_small w Hw) as Bl. unfold round_scaled. rewrite last_place_scaled by lia.
  pose proof (last_place_bounds w ltac:(lia)) as [L U]. set (l := last_place w) in *. clearbody l.
  rewrite (Z.max_l 0 l), (Z.max_r 0 (- l)) in L, U by lia. change (2 ^ 0) with 1 in L, U.
  assert (E : round_even (w * 2 ^ j) (l + j) = w * 2 ^ (- l)).
  { destruct (Z.le_gt_cases (l + j) 0) as [H|H].
    - unfold round_even. rewrite (proj2 (Z.leb_le _ _)) by lia. rewrite <- Z.mul_assoc, <- Z.pow_add_r by lia. do 2 f_equal. lia.
    - replace (w * 2 ^ j) with (w * 2 ^ (- l) * 2 ^ (l + j)); [by apply round_even_exact|].
      rewrite <- Z.mul_assoc, <- Z.pow_add_r by lia. do 2 f_equal. lia. }
  rewrite E, parts_assembled by lia. by rewrite (proj2 (Z.eqb_neq _ _)) by lia.
Qed.

Lemma of_Z_scaled n : Z.abs n < 2 ^ 53 -> is_scaled (double_of_Z n) n 0.
Proof.
  intros Hn. unfold is_scaled, double_of_Z. destruct (Z.eqb_spec n 0); [done|]. cbv zeta.
  pose proof (last_place_small (Z.abs n) ltac:(lia)). pose proof (round_scaled_parts (n <? 0) (Z.abs n) 0 0 ltac:(lia) ltac:(lia) ltac:(lia)) as P.
  change (2 ^ 0) with 1 in P. rewrite Z.mul_1_r, !Z.add_0_r in P. unfold round_scaled in P. rewrite Z.add_0_r in P. by rewrite Z.add_0_r.
Qed.

(** The double of a power of two, for exponents of normal numbers. *)
Definition double_pow2 (j : Z) : Z := (j + 1023) * 2 ^ 52.

Lemma pow2_parts j : -1000 <= j <= 1000 -> double_parts (double_pow2 j) = Some (false, 2 ^ 52, j - 52).
Proof.
  intros Hj. unfold double_pow2. pose proof (parts_fields false (j + 1023) 0 ltac:(lia) ltac:(lia)) as P. cbv iota in P.
  rewrite Z.add_0_l, Z.add_0_r in P. rewrite P, !(proj2 (Z.eqb_neq _ _)) by lia. do 2 f_equal. lia.
Qed.

Lemma mul_pow2_scaled d v e j : is_scaled d v e -> Z.abs v < 2 ^ 53 -> -500 <= e <= 500 -> -400 <= j <= 400 ->
  exists d', double_mul d (double_pow2 j) = Some d' /\ is_scaled d' v (e + j).
Proof.
  intros Hd Hv He Hj. unfold double_mul, is_scaled in *. rewrite pow2_parts by lia. destruct (Z.eqb_spec v 0) as [->|Hv0].
  { subst d. change (double_parts 0) with (Some (false, 0, -1074)). eexists. split; [done|]. done. }
  rewrite Hd. pose proof (last_place_small (Z.abs v) ltac:(lia)) as Bl. set (l := last_place (Z.abs v)) in *.
  assert (P : 0 < 2 ^ (- l)) by (apply Z.pow_pos_nonneg; lia).
  rewrite (proj2 (Z.eqb_neq _ _)) by (pow2_norm; nia). rewrite xorb_false_r. eexists. split; [done|].
  replace (Z.abs v * 2 ^ (- l) * 2 ^ 52) with (Z.abs v * 2 ^ (52 - l)) by (rewrite <- Z.mul_assoc, <- Z.pow_add_r by lia; do 2 f_equal; lia).
  rewrite round_scaled_parts by (fold l; lia). fold l. do 2 f_equal. lia.
Qed.

Lemma signed_abs v x : signed_part (v <? 0) (Z.abs v * x) = v * x.
Proof. unfold signed_part. destruct (Z.ltb_spec v 0); lia. Qed.

(** The difference of two numbers over the same power of two. *)
Lemma sub_scaled d1 v1 d2 v2 e : is_scaled d1 v1 e -> is_scaled d2 v2 e -> v1 <> 0 -> v2 <> 0 ->
  Z.abs v1 < 2 ^ 53 -> Z.abs v2 < 2 ^ 53 -> Z.abs (v1 - v2) < 2 ^ 53 -> -500 <= e <= 500 ->
  exists d', double_sub d1 d2 = Some d' /\ is_scaled d' (v1 - v2) e.
Proof.
  intros H1 H2 N1 N2 B1 B2 B He. unfold double_sub, is_scaled in *.
  rewrite (proj2 (Z.eqb_neq v1 0) N1) in H1. rewrite (proj2 (Z.eqb_neq v2 0) N2) in H2. rewrite H1, H2. cbv zeta. rewrite !signed_abs.
  pose proof (last_place_small (Z.abs v1) ltac:(lia)) as L1. pose proof (last_place_small (Z.abs v2) ltac:(lia)) as L2.
  set (l1 := last_place (Z.abs v1)) in *. set (l2 := last_place (Z.abs v2)) in *. set (l := Z.min l1 l2).
  replace (Z.min (l1 + e) (l2 + e)) with (l + e) by lia.
  assert (E1 : forall v li, l <= li -> li <= 0 -> v * 2 ^ (- li) * 2 ^ (li + e - (l + e)) = v * 2 ^ (- l)).
  { intros v li Hl Hi. rewrite <- Z.mul_assoc, <- Z.pow_add_r by lia. do 2 f_equal. lia. }
  rewrite !E1 by lia. rewrite <- Z.mul_sub_distr_r. assert (P : 0 < 2 ^ (- l)) by (apply Z.pow_pos_nonneg; lia).
  eexists. split; [done|]. destruct (Z.eqb_spec (v1 - v2) 0) as [E|E]; [by rewrite E|].
  rewrite (proj2 (Z.eqb_neq _ _)) by nia. rewrite Z.abs_mul, (Z.abs_eq (2 ^ (- l))) by lia.
  pose proof (last_place_small (Z.abs (v1 - v2)) ltac:(lia)) as L3.
  rewrite round_scaled_parts by lia. f_equal. f_equal; [f_equal|lia].
  destruct (Z.ltb_spec (v1 - v2) 0); [apply Z.ltb_lt|apply Z.ltb_ge]; nia.
Qed.

(** The difference from zero. *)
Lemma zero_sub_scaled d v e : is_scaled d v e -> v <> 0 -> Z.abs v < 2 ^ 53 -> -500 <= e <= 500 ->
  exists d', double_sub 0 d = Some d' /\ is_scaled d' (- v) e.
Proof.
  intros Hd N B He. unfold double_sub, is_scaled in *. rewrite (proj2 (Z.eqb_neq v 0) N) in Hd. rewrite (proj2 (Z.eqb_neq (- v) 0)) by lia.
  rewrite Hd. change (double_parts 0) with (Some (false, 0, -1074)). cbv zeta. rewrite signed_abs, Z.abs_opp.
  pose proof (last_place_small (Z.abs v) ltac:(lia)) as L. set (l := last_place (Z.abs v)) in *.
  rewrite Z.min_l by lia. cbn [signed_part]. rewrite Z.mul_0_l, Z.sub_0_l.
  replace (v * 2 ^ (- l) * 2 ^ (l + e - -1074)) with (v * 2 ^ (e + 1074)) by (rewrite <- Z.mul_assoc, <- Z.pow_add_r by lia; do 2 f_equal; lia).
  assert (P : 0 < 2 ^ (e + 1074)) by (apply Z.pow_pos_nonneg; lia). eexists. split; [done|].
  rewrite (proj2 (Z.eqb_neq _ _)) by nia. rewrite Z.abs_opp, Z.abs_mul, (Z.abs_eq (2 ^ (e + 1074))) by lia.
  rewrite round_scaled_parts by (fold l; lia). fold l. f_equal. f_equal; [f_equal|lia].
  destruct (Z.ltb_spec (- v) 0); [apply Z.ltb_lt|apply Z.ltb_ge]; nia.
Qed.

(** The same double, over a smaller power of two. *)
Lemma is_scaled_shift d v e j : is_scaled d v e -> v <> 0 -> 0 <= j -> Z.abs v * 2 ^ j < 2 ^ 53 -> is_scaled d (v * 2 ^ j) (e - j).
Proof.
  intros Hd N Hj B. unfold is_scaled in *. assert (P : 0 < 2 ^ j) by (apply Z.pow_pos_nonneg; lia).
  rewrite (proj2 (Z.eqb_neq v 0) N) in Hd. rewrite (proj2 (Z.eqb_neq (v * 2 ^ j) 0)) by nia. rewrite Hd.
  rewrite Z.abs_mul, (Z.abs_eq (2 ^ j)) by lia.
  pose proof (last_place_small (Z.abs v * 2 ^ j) ltac:(nia)) as L. rewrite last_place_scaled in * by lia.
  rewrite <- Z.mul_assoc, <- Z.pow_add_r by lia. f_equal. f_equal; [f_equal|lia].
  - destruct (Z.ltb_spec v 0); symmetry; [apply Z.ltb_lt|apply Z.ltb_ge]; nia.
  - do 2 f_equal. lia.
Qed.
