(* ===== verification/SimpleMap.v ===== *)
(** * The incrementally resized hash map ([core/native/maps/simple.h])

    An open-addressing table with double hashing.  Every slot has an "exist"
    bit (it holds a node) and a "dirty" bit (a collision chain passes through
    it).  A map is a table plus, while a resize is in progress, a shadow table
    that is filled batch by batch.  This file holds the data and the operations;
    [SimpleMapTable] and [SimpleMapSpec] prove them correct. *)
From Stdlib Require Import SpecFloat.
From S2P Require Import Prelude PointerArray.

(** ** The parameters of the template

    The macros [simple_map_hash], [simple_map_hash_key], [simple_map_cmp] and
    [simple_map_cmp_key]; the comparisons are true on a difference, as in C. *)

Class SimpleMapNode (A K : Type) := {
  simple_map_hash : A -> Z;
  simple_map_hash_key : K -> Z;
  simple_map_cmp : A -> A -> bool;
  simple_map_cmp_key : K -> A -> bool;
}.

(** What a client promises: the hash and the comparisons see only a key. *)
Class SimpleMapLaws (A K : Type) `{SimpleMapNode A K} := {
  key_of : A -> K;
  hash_key_of a : simple_map_hash_key (key_of a) = simple_map_hash a;
  cmp_same a b : simple_map_cmp a b = false <-> key_of a = key_of b;
  cmp_key_same k a : simple_map_cmp_key k a = false <-> k = key_of a;
}.

(** ** Doubles

    [SIMPLE_MAP_DENSITY] is a C double; products and quotients with it are
    computed on the binary64 format and truncated to [uint32_t]. *)

Definition double_of (n : Z) : spec_float := binary_normalize 53 1024 n 0 false.
Definition double_trunc (x : spec_float) : Z :=
  match x with
  | S754_finite s m e =>
      let a := if 0 <=? e then Z.pos m * 2 ^ e else Z.pos m / 2 ^ (- e) in
      if s then - a else a
  | _ => 0
  end.
Definition SIMPLE_MAP_DENSITY : spec_float := SFdiv 53 1024 (double_of 7) (double_of 10).
Definition times_density (n : Z) : Z :=
  u32 (double_trunc (SFmul 53 1024 (double_of n) SIMPLE_MAP_DENSITY)).
Definition over_density (n : Z) : Z :=
  u32 (double_trunc (SFdiv 53 1024 (double_of n) SIMPLE_MAP_DENSITY)).

Definition __ac_HASH_PRIME_SIZE : Z := 31.
Definition __ac_prime_list : list Z :=
  [3; 11; 23; 53; 97; 193; 389; 769; 1543; 3079; 6151; 12289; 24593; 49157; 98317; 196613;
   393241; 786433; 1572869; 3145739; 6291469; 12582917; 25165843; 50331653; 100663319;
   201326611; 402653189; 805306457; 1610612741; 3221225473; 4294967291].
Definition prime_at (i : Z) : Z := default 0 (__ac_prime_list !! Z.to_nat i).

(** ** The slot bits

    Sixteen slots per [uint32_t] word: bit [i % 16] is "exist", bit
    [i % 16 + 16] is "dirty". *)

Definition word (b : list Z) (i : Z) : Z := default 0 (b !! Z.to_nat (Z.shiftr i 4)).
Definition set_word (b : list Z) (i w : Z) : list Z := <[Z.to_nat (Z.shiftr i 4) := w]> b.
Definition exist_mask (i : Z) : Z := Z.shiftl 1 (i mod 16).
Definition dirty_mask (i : Z) : Z := Z.shiftl 1 (i mod 16 + 16).

Definition simple_map_exist (b : list Z) (i : Z) : bool :=
  negb (Z.land (word b i) (exist_mask i) =? 0).
Definition simple_map_dirty (b : list Z) (i : Z) : bool :=
  negb (Z.land (word b i) (dirty_mask i) =? 0).
Definition simple_map_setfree (b : list Z) (i : Z) : list Z :=
  set_word b i (Z.land (word b i) (u32 (Z.lnot (exist_mask i)))).
Definition simple_map_setexist (b : list Z) (i : Z) : list Z :=
  set_word b i (Z.lor (word b i) (exist_mask i)).
Definition simple_map_setdirty (b : list Z) (i : Z) : list Z :=
  set_word b i (Z.lor (word b i) (dirty_mask i)).

Section Map.
Context {A K : Type} `{SimpleMapNode A K}.

(** ** A table: the struct without its [shadow] pointer *)

Record table := Table {
  p : list (option A);       (* nodes; [None]: never written *)
  b : list Z;                (* slot bits *)
  n_buckets : Z;
  n_dirty : Z;
  size : Z;
  upper_bound : Z;
  prime : Z;
  resize_cnt : Z;
  resize_position : Z;
  batch : Z;
}.

Definition zero_table : table := Table [] [] 0 0 0 0 0 0 0 0.

Definition exist (t : table) (i : Z) : bool := simple_map_exist (b t) i.
Definition dirty (t : table) (i : Z) : bool := simple_map_dirty (b t) i.

Definition with_b (t : table) (b' : list Z) : table :=
  Table (p t) b' (n_buckets t) (n_dirty t) (size t) (upper_bound t) (prime t)
        (resize_cnt t) (resize_position t) (batch t).
Definition with_p (t : table) (p' : list (option A)) : table :=
  Table p' (b t) (n_buckets t) (n_dirty t) (size t) (upper_bound t) (prime t)
        (resize_cnt t) (resize_position t) (batch t).
Definition with_counts (t : table) (n_dirty' size' : Z) : table :=
  Table (p t) (b t) (n_buckets t) n_dirty' size' (upper_bound t) (prime t)
        (resize_cnt t) (resize_position t) (batch t).
Definition with_resize (t : table) (prime' cnt position batch' : Z) : table :=
  Table (p t) (b t) (n_buckets t) (n_dirty t) (size t) (upper_bound t) prime' cnt position batch'.

(** [h->p[i]] read and written. *)
Definition node (t : table) (i : Z) : outcome A := demand (mjoin (p t !! Z.to_nat i)).
Definition set_node (t : table) (i : Z) (a : A) : table := with_p t (<[Z.to_nat i := Some a]> (p t)).

(** ** Probing *)

Definition next_slot (slot inc size : Z) : Z :=
  let slot := u32 (slot + inc) in
  if slot >=? size then u32 (slot - size) else slot.

(** [simple_map_mayeq(h, i, hk) && !cmp(.., node(h, i))]. *)
Definition slot_matches (t : table) (differs : A -> bool) (i : Z) : outcome bool :=
  if exist t i then a ← node t i; Done (negb (differs a)) else Done false.

Fixpoint probe (fuel : nat) (t : table) (differs : A -> bool) (i inc : Z) : outcome Z :=
  match fuel with
  | O => Spins
  | S fuel =>
      found ← slot_matches t differs i;
      if (found : bool) then Done i
      else if negb (dirty t i) then Done (n_buckets t)
      else probe fuel t differs (next_slot i inc (n_buckets t)) inc
  end.

(** The divisions [k % n_buckets] and [k % (n_buckets - 1)]. *)
Definition home_and_inc (t : table) (hash : Z) : outcome (Z * Z) :=
  let k := u32 hash in
  if n_buckets t <=? 1 then Faults
  else Done (k mod n_buckets t, 1 + k mod (n_buckets t - 1)).

Definition fuel_of (t : table) : nat := Z.to_nat (n_buckets t).

Definition simple_map_find (t : table) (key : K) : outcome Z :=
  '(i, inc) ← home_and_inc t (simple_map_hash_key key);
  probe (fuel_of t) t (simple_map_cmp_key key) i inc.

Definition simple_map_get (t : table) (a : A) : outcome Z :=
  '(i, inc) ← home_and_inc t (simple_map_hash a);
  probe (fuel_of t) t (simple_map_cmp a) i inc.

(** The first loop of [put_slot]: skip occupied slots, marking them dirty. *)
Fixpoint skip_occupied (fuel : nat) (t : table) (a : A) (i inc : Z) : outcome (bool * Z * table) :=
  match fuel with
  | O => Spins
  | S fuel =>
      if exist t i then
        found ← slot_matches t (simple_map_cmp a) i;
        if (found : bool) then Done (true, i, t)
        else skip_occupied fuel (with_b t (simple_map_setdirty (b t) i)) a
               (next_slot i inc (n_buckets t)) inc
      else Done (false, i, t)
  end.

(** The second loop: look for a duplicate further down the collision chain. *)
Fixpoint seek_duplicate (fuel : nat) (t : table) (a : A) (i inc : Z) : outcome (option Z) :=
  match fuel with
  | O => Spins
  | S fuel =>
      if dirty t i then
        let i := next_slot i inc (n_buckets t) in
        found ← slot_matches t (fun x => simple_map_cmp x a) i;
        if (found : bool) then Done (Some i) else seek_duplicate fuel t a i inc
      else Done None
  end.

(** The slot for a node, whether it held a node with that key, the table. *)
Definition put_slot (t : table) (a : A) : outcome (Z * bool * table) :=
  '(i, inc) ← home_and_inc t (simple_map_hash a);
  '(found, i, t) ← skip_occupied (S (fuel_of t)) t a i inc;
  if (found : bool) then Done (i, true, t) else
  let save_i := i in
  duplicate ← seek_duplicate (S (fuel_of t)) t a i inc;
  match duplicate with
  | Some i => Done (i, true, t)
  | None =>
      let size' := u32 (size t + 1) in
      let n_dirty' := if negb (dirty t save_i) then u32 (n_dirty t + 1) else n_dirty t in
      Done (save_i, false,
            with_b (with_counts t n_dirty' size') (simple_map_setexist (b t) save_i))
  end.

(** ** The map: the struct and the struct its [shadow] field points to

    While a resize runs, the shadow is a copy of the struct, its own [shadow]
    field included, which therefore points to the shadow itself. *)
Record simple_map := SimpleMap { main : table; shadow : table }.

Definition simple_map_new : simple_map :=
  let n := prime_at 0 in
  SimpleMap (Table (replicate (Z.to_nat n) None) (replicate (Z.to_nat (n / 16 + 1)) 0)
                   n 0 0 (times_density n) 0 0 0 0) zero_table.

Definition simple_map_clear (m : simple_map) : simple_map :=
  let h := main m in
  let n := prime_at (prime h) in
  SimpleMap (Table (replicate (Z.to_nat n) None) (replicate (Z.to_nat (n / 16 + 1)) 0)
                   n (n_dirty h) 0 (times_density n) 0 (resize_cnt h) (resize_position h) (batch h))
            zero_table.

(** The loop of [resize]: moves the nodes from slot [i] on into the shadow until
    the batch is used up ([Some position]) or the table is done ([None]). *)
Fixpoint resize_loop (fuel : nat) (h s : table) (i batch : Z) : outcome (table * option Z) :=
  match fuel with
  | O => Done (s, None)
  | S fuel =>
      if batch =? 0 then Done (s, Some i) else
      if negb (exist h i) then resize_loop fuel h s (i + 1) (u32 (batch - 1)) else
      a ← node h i;
      '(n, _, s) ← put_slot s a;
      resize_loop fuel h (set_node s n a) (i + 1) (u32 (batch - 1))
  end.

Definition simple_map_resize (m : simple_map) : outcome simple_map :=
  let h := main m in
  '(s, stop) ← resize_loop (Z.to_nat (n_buckets h - resize_position h)) h (shadow m)
                 (resize_position h) (batch h);
  match stop with
  | Some i => Done (SimpleMap (with_resize h (prime h) (resize_cnt h) i (batch h)) s)
  | None =>
      if negb (size s =? size h) then Exits 134 else
      Done (SimpleMap (with_resize s (prime s) (u32 (resize_cnt s + 1)) (resize_position s) (batch s))
                      zero_table)
  end.

(** [while (new_prime < SIZE - 1) { if (list[new_prime] >= buckets) break; ++ }]. *)
Fixpoint choose_prime (fuel : nat) (new_prime buckets : Z) : Z :=
  match fuel with
  | O => new_prime
  | S fuel =>
      if new_prime <? __ac_HASH_PRIME_SIZE - 1 then
        if prime_at new_prime >=? buckets then new_prime
        else choose_prime fuel (new_prime + 1) buckets
      else new_prime
  end.

Definition simple_map_start_resize (m : simple_map) (buckets batch0 : Z) : outcome simple_map :=
  let h := main m in
  if negb (resize_position h =? 0) then Done m else
  if buckets <? n_buckets h then Done m else
  let new_prime := choose_prime (Z.to_nat __ac_HASH_PRIME_SIZE) (prime h) buckets in
  let new_batch := if batch0 >? 0 then batch0 else n_buckets h / (256 * 1024) in
  let new_batch := if new_batch <? 256 then 256 else new_batch in
  let n := prime_at new_prime in
  let h := with_resize h new_prime (resize_cnt h) (resize_position h) new_batch in
  let s := Table (replicate (Z.to_nat n) None) (replicate (Z.to_nat (n / 16 + 1)) 0)
                 n 0 0 (times_density n) (prime h) (resize_cnt h) 0 (batch h) in
  simple_map_resize (SimpleMap h s).

Definition simple_map_reserve (m : simple_map) (size0 : Z) : outcome simple_map :=
  simple_map_start_resize m (over_density size0) (size (main m)).

(** [put(h->shadow, node, NULL, arg)]: the shadow is not being resized; if it
    were full, [start_resize] would copy the struct onto itself, its shadow being
    itself, and [memcpy] on overlapping objects is undefined. *)
Definition put_shadow (s : table) (a : A) : outcome table :=
  if negb (size s <? n_buckets s) then Faults else
  if n_dirty s >=? upper_bound s then Faults else
  '(x, _, s) ← put_slot s a;
  Done (set_node s x a).

(** [put] and [put_copy]: the slot, the replaced node, the map.  An assertion that
    does not hold is a fault. *)
Definition simple_map_put (m : simple_map) (a : A) : outcome (Z * option A * simple_map) :=
  if negb (size (main m) <? n_buckets (main m)) then Faults else
  m ← (if resize_position (main m) >? 0 then simple_map_resize m
       else if n_dirty (main m) >=? upper_bound (main m)
       then simple_map_start_resize m (u32 (n_buckets (main m) + 1)) 0
       else Done m);
  s ← (if negb (resize_position (main m) =? 0) then put_shadow (shadow m) a else Done (shadow m));
  '(x, found, h) ← put_slot (main m) a;
  replaced ← (if (found : bool) then a' ← node h x; Done (Some a') else Done None);
  Done (x, replaced, SimpleMap (set_node h x a) s).

(** The part of [del] on one struct. *)
Definition del_slot (t : table) (x : Z) : table :=
  let t := with_b t (simple_map_setfree (b t) x) in
  let n_dirty' := if negb (dirty t x) then u32 (n_dirty t - 1) else n_dirty t in
  with_counts t n_dirty' (u32 (size t - 1)).

Definition del_shadow (s : table) (y : Z) : outcome table :=
  if (y =? n_buckets s) then Done s else
  if exist s y then Done (del_slot s y) else Done s.

Definition del_resize (m : simple_map) (x : Z) : outcome simple_map :=
  a ← node (main m) x;
  y ← simple_map_get (shadow m) a;
  s ← del_shadow (shadow m) y;
  simple_map_resize (SimpleMap (main m) s).

(** A slot past [n_buckets] is outside the bit array. *)
Definition simple_map_del (m : simple_map) (x : Z) : outcome simple_map :=
  if x =? n_buckets (main m) then Done m else
  if negb ((0 <=? x) && (x <? n_buckets (main m))) then Faults else
  if negb (exist (main m) x) then Done m else
  let m := SimpleMap (del_slot (main m) x) (shadow m) in
  if negb (resize_position (main m) =? 0) then del_resize m x else Done m.

Definition simple_map_remove (m : simple_map) (a : A) : outcome simple_map :=
  k ← simple_map_get (main m) a;
  if negb (k =? n_buckets (main m)) then simple_map_del m k else Done m.

Definition simple_map_find_value (m : simple_map) (key : K) : outcome (option A) :=
  slot ← simple_map_find (main m) key;
  if negb (slot =? n_buckets (main m)) then a ← node (main m) slot; Done (Some a) else Done None.

(** ** Iteration *)

(** The first existing slot at or after [i], [n_buckets] when there is none. *)
Fixpoint scan (fuel : nat) (t : table) (i : Z) : Z :=
  match fuel with
  | O => i
  | S fuel => if i <? n_buckets t then if exist t i then i else scan fuel t (i + 1) else i
  end.

Definition simple_map_first (t : table) : Z := scan (fuel_of t) t 0.
Definition simple_map_next (t : table) (i : Z) : Z :=
  if i <? n_buckets t then scan (fuel_of t) t (i + 1) else i.

(** [simple_map_foreach]: the slots visited, in order. *)
Fixpoint foreach_from (fuel : nat) (t : table) (i : Z) : list Z :=
  match fuel with
  | O => []
  | S fuel => if i <? n_buckets t then i :: foreach_from fuel t (simple_map_next t i) else []
  end.
Definition simple_map_foreach (t : table) : list Z :=
  foreach_from (S (fuel_of t)) t (simple_map_first t).

Definition simple_map_random (t : table) (rnd : Z) : outcome Z :=
  if n_buckets t =? 0 then Faults else
  let res := simple_map_next t (rnd mod n_buckets t) in
  Done (if negb (res =? n_buckets t) then res else simple_map_first t).

(** [keys]: pointers to the nodes of the map, here their slots. *)
Definition simple_map_keys (m : simple_map) (address : Z -> Z) : outcome pointer_array :=
  foldl (fun acc slot => array ← acc; pointer_array_add array (address slot))
    (Done (pointer_array_create (size (main m)) POINTER_ARRAY_DEFAULT_RESIZE_FACTOR))
    (simple_map_foreach (main m)).

(** [memsize], with the sizes of the struct and of a node. *)
Definition simple_map_memsize (m : simple_map) (sizeof_t sizeof_node : Z) : Z :=
  let h := main m in
  let sz := 2 * sizeof_t + n_buckets h * sizeof_node + (n_buckets h / 16 + 1) * 4 in
  if negb (resize_position h =? 0)
  then u64 (sz + n_buckets (shadow m) * sizeof_node + (n_buckets (shadow m) / 16 + 1) * 4)
  else u64 sz.

End Map.
Arguments table A : clear implicits.
Arguments simple_map A : clear implicits.
