(* ===== verification/SimpleMapTable.v ===== *)
(** * One table of the hash map: bits, probing, insertion and deletion

    The invariant of a table, and the proof that [find], [put_slot] and the slot
    part of [del] implement lookup, insertion and deletion on the finite map the
    table represents. *)
From Stdlib Require Import Znumtheory.
From S2P Require Import Prelude PointerArray SimpleMap.

(** ** The slot bits *)

(** Both bits at once: [off] is 0 for "exist" and 16 for "dirty". *)
Definition bit_at (b : list Z) (off j : Z) : bool := Z.testbit (word b j) (j mod 16 + off).

Lemma exist_bit b j : simple_map_exist b j = bit_at b 0 j.
Proof.
  unfold simple_map_exist, exist_mask, bit_at.
  rewrite Z.shiftl_1_l, Z.add_0_r, land_pow2_eqb; [reflexivity|]. apply Z.mod_pos_bound. lia.
Qed.

Lemma dirty_bit b j : simple_map_dirty b j = bit_at b 16 j.
Proof.
  unfold simple_map_dirty, dirty_mask, bit_at.
  rewrite Z.shiftl_1_l, land_pow2_eqb; [reflexivity|].
  pose proof (Z.mod_pos_bound j 16). lia.
Qed.

Lemma shiftr4_mod i j :
  0 <= i -> 0 <= j -> Z.shiftr i 4 = Z.shiftr j 4 -> i mod 16 = j mod 16 -> i = j.
Proof.
  rewrite !Z.shiftr_div_pow2 by lia. change (2 ^ 4) with 16. intros Hi Hj Hd Hm.
  rewrite (Z.div_mod i 16), (Z.div_mod j 16), Hd, Hm by lia. reflexivity.
Qed.

Lemma word_set_word b i w j :
  0 <= i -> 0 <= j -> Z.shiftr i 4 < zlength b ->
  word (set_word b i w) j = if Z.shiftr i 4 =? Z.shiftr j 4 then w else word b j.
Proof.
  intros Hi Hj Hl. unfold word, set_word, zlength in *.
  pose proof (proj2 (Z.shiftr_nonneg i 4) Hi). pose proof (proj2 (Z.shiftr_nonneg j 4) Hj).
  destruct (Z.eqb_spec (Z.shiftr i 4) (Z.shiftr j 4)) as [<-|E].
  - rewrite list_lookup_insert_eq by lia. reflexivity.
  - rewrite list_lookup_insert_ne by lia. reflexivity.
Qed.

Section Bits.
Context (b : list Z) (i j : Z).
Hypothesis Hi : 0 <= i.
Hypothesis Hj : 0 <= j.
Hypothesis Hl : Z.shiftr i 4 < zlength b.

Lemma bit_at_lor off off' :
  (off = 0 \/ off = 16) -> (off' = 0 \/ off' = 16) ->
  bit_at (set_word b i (Z.lor (word b i) (2 ^ (i mod 16 + off')))) off j
  = ((i =? j) && (off =? off')) || bit_at b off j.
Proof.
  intros Ho Ho'. unfold bit_at. rewrite word_set_word by auto.
  pose proof (Z.mod_pos_bound i 16). pose proof (Z.mod_pos_bound j 16).
  destruct (Z.eqb_spec (Z.shiftr i 4) (Z.shiftr j 4)) as [E|E].
  - rewrite Z.lor_spec, Z.pow2_bits_eqb by lia. unfold word. rewrite E, orb_comm. f_equal.
    destruct (Z.eqb_spec i j) as [->|N]; cbn.
    + destruct (Z.eqb_spec off off'); destruct (Z.eqb_spec (j mod 16 + off') (j mod 16 + off)); lia.
    + destruct (Z.eqb_spec (i mod 16 + off') (j mod 16 + off)); [|reflexivity].
      destruct N. apply shiftr4_mod; lia.
  - destruct (Z.eqb_spec i j) as [->|N]; [congruence|reflexivity].
Qed.

Lemma bit_at_free off :
  (off = 0 \/ off = 16) ->
  bit_at (simple_map_setfree b i) off j = negb ((i =? j) && (off =? 0)) && bit_at b off j.
Proof.
  intros Ho. unfold bit_at, simple_map_setfree, exist_mask. rewrite word_set_word by auto.
  pose proof (Z.mod_pos_bound i 16). pose proof (Z.mod_pos_bound j 16).
  destruct (Z.eqb_spec (Z.shiftr i 4) (Z.shiftr j 4)) as [E|E].
  - rewrite Z.land_spec, testbit_wrap, Z.shiftl_1_l, Z.lnot_spec, Z.pow2_bits_eqb by lia.
    rewrite (proj2 (Z.ltb_lt _ _)) by lia. cbn [andb]. unfold word. rewrite E, andb_comm. f_equal.
    destruct (Z.eqb_spec i j) as [->|N]; cbn.
    + destruct (Z.eqb_spec off 0); destruct (Z.eqb_spec (j mod 16) (j mod 16 + off)); cbn; lia.
    + destruct (Z.eqb_spec (i mod 16) (j mod 16 + off)); [|reflexivity].
      destruct N. apply shiftr4_mod; lia.
  - destruct (Z.eqb_spec i j) as [->|N]; [congruence|reflexivity].
Qed.

Lemma exist_setexist : simple_map_exist (simple_map_setexist b i) j = (i =? j) || simple_map_exist b j.
Proof.
  rewrite !exist_bit. unfold simple_map_setexist, exist_mask. rewrite Z.shiftl_1_l.
  pose proof (bit_at_lor 0 0 ltac:(auto) ltac:(auto)) as E. rewrite Z.add_0_r, andb_true_r in E. exact E.
Qed.

Lemma dirty_setexist : simple_map_dirty (simple_map_setexist b i) j = simple_map_dirty b j.
Proof.
  rewrite !dirty_bit. unfold simple_map_setexist, exist_mask. rewrite Z.shiftl_1_l.
  pose proof (bit_at_lor 16 0 ltac:(auto) ltac:(auto)) as E. rewrite Z.add_0_r, andb_false_r in E. exact E.
Qed.

Lemma exist_setdirty : simple_map_exist (simple_map_setdirty b i) j = simple_map_exist b j.
Proof.
  rewrite !exist_bit. unfold simple_map_setdirty, dirty_mask. rewrite Z.shiftl_1_l.
  rewrite bit_at_lor, andb_false_r by auto. reflexivity.
Qed.

Lemma dirty_setdirty : simple_map_dirty (simple_map_setdirty b i) j = (i =? j) || simple_map_dirty b j.
Proof.
  rewrite !dirty_bit. unfold simple_map_setdirty, dirty_mask. rewrite Z.shiftl_1_l.
  rewrite bit_at_lor, andb_true_r by auto. reflexivity.
Qed.

Lemma exist_setfree : simple_map_exist (simple_map_setfree b i) j = negb (i =? j) && simple_map_exist b j.
Proof. rewrite !exist_bit, bit_at_free, andb_true_r by auto. reflexivity. Qed.

Lemma dirty_setfree : simple_map_dirty (simple_map_setfree b i) j = simple_map_dirty b j.
Proof. rewrite !dirty_bit, bit_at_free, andb_false_r by auto. reflexivity. Qed.

End Bits.

Lemma length_set_word b i w : zlength (set_word b i w) = zlength b.
Proof. unfold zlength, set_word. rewrite length_insert. reflexivity. Qed.

Lemma word_fresh n j : word (replicate n 0) j = 0.
Proof. unfold word. destruct (replicate n 0 !! _) eqn:E; [|reflexivity]. by apply lookup_replicate_Some in E. Qed.

Lemma exist_fresh n j : simple_map_exist (replicate n 0) j = false.
Proof. unfold simple_map_exist. rewrite word_fresh, Z.land_0_l. reflexivity. Qed.

Lemma dirty_fresh n j : simple_map_dirty (replicate n 0) j = false.
Proof. unfold simple_map_dirty. rewrite word_fresh, Z.land_0_l. reflexivity. Qed.

(** ** The probe path

    With a prime number of slots the double-hashing path of a key visits every
    slot once. *)

Definition slot_at (n i0 inc t : Z) : Z := (i0 + t * inc) mod n.

(** The sizes on which [next_slot] does not overflow. *)
Definition good_size (n : Z) : Prop := Znumtheory.prime n /\ 3 <= n < 2 ^ 31.

Section Path.
Context (n i0 inc : Z).
Hypothesis Hn : good_size n.
Hypothesis Hinc : 1 <= inc <= n - 1.

Lemma slot_at_range t : 0 <= slot_at n i0 inc t < n.
Proof. apply Z.mod_pos_bound. destruct Hn. lia. Qed.

Lemma next_slot_at t : next_slot (slot_at n i0 inc t) inc n = slot_at n i0 inc (t + 1).
Proof.
  pose proof (slot_at_range t) as Hr. destruct Hn as [_ Hb]. unfold next_slot.
  rewrite (wrap_small 32 (slot_at n i0 inc t + inc)) by lia.
  assert (E : slot_at n i0 inc (t + 1) = (slot_at n i0 inc t + inc) mod n).
  { unfold slot_at. rewrite Z.add_mod_idemp_l by lia. f_equal. lia. }
  rewrite E, Z.geb_leb. destruct (Z.leb_spec n (slot_at n i0 inc t + inc)).
  - rewrite wrap_small by lia. apply (Z.mod_unique _ _ 1); lia.
  - rewrite Z.mod_small; lia.
Qed.

Lemma slot_at_inj t t' : 0 <= t < n -> 0 <= t' < n -> slot_at n i0 inc t = slot_at n i0 inc t' -> t = t'.
Proof.
  intros Ht Ht' E. destruct Hn as [Hp Hb].
  assert (D : (n | (t - t') * inc)).
  { apply Z.mod_divide; [lia|]. unfold slot_at in E.
    replace ((t - t') * inc) with ((i0 + t * inc) - (i0 + t' * inc)) by lia.
    rewrite Zminus_mod, E, Z.sub_diag. reflexivity. }
  apply prime_mult in D; [|exact Hp]. destruct D as [[q D]|D].
  - assert (q = 0) by nia. subst. lia.
  - apply Z.divide_pos_le in D; lia.
Qed.

(** Pigeonhole: [n] distinct slots below [n] are all of them. *)
Lemma slot_at_surj s : 0 <= s < n -> exists t, 0 <= t < n /\ slot_at n i0 inc t = s.
Proof.
  intros Hs. set (l := slot_at n i0 inc <$> seqZ 0 n).
  assert (Hnd : NoDup l).
  { apply NoDup_fmap_2_strong; [|apply NoDup_seqZ].
    intros t t' Ht Ht'. rewrite elem_of_seqZ in Ht, Ht'. apply slot_at_inj; lia. }
  assert (Hsub : l ⊆+ seqZ 0 n).
  { apply NoDup_submseteq; [exact Hnd|]. intros x Hx. unfold l in Hx.
    apply list_elem_of_fmap in Hx as (t & -> & _). rewrite elem_of_seqZ.
    pose proof (slot_at_range t). lia. }
  assert (Hperm : l ≡ₚ seqZ 0 n).
  { apply submseteq_length_Permutation; [exact Hsub|]. unfold l. rewrite length_fmap. lia. }
  assert (Hin : s ∈ l) by (rewrite Hperm, elem_of_seqZ; lia).
  unfold l in Hin. apply list_elem_of_fmap in Hin as (t & -> & Ht). rewrite elem_of_seqZ in Ht.
  exists t. split; [lia|reflexivity].
Qed.

End Path.

Definition path (n h k : Z) : Z := slot_at n (u32 h mod n) (1 + u32 h mod (n - 1)) k.

Section PathOf.
Context (n h : Z) (Hn : good_size n).

Lemma path_inc : 1 <= 1 + u32 h mod (n - 1) <= n - 1.
Proof. destruct Hn. pose proof (Z.mod_pos_bound (u32 h) (n - 1)). lia. Qed.

Lemma path_range k : 0 <= path n h k < n.
Proof. apply slot_at_range; auto. Qed.

Lemma path_next k : next_slot (path n h k) (1 + u32 h mod (n - 1)) n = path n h (k + 1).
Proof. apply next_slot_at; auto using path_inc. Qed.

Lemma path_inj k k' : 0 <= k < n -> 0 <= k' < n -> path n h k = path n h k' -> k = k'.
Proof. apply slot_at_inj; auto using path_inc. Qed.

Lemma path_surj s : 0 <= s < n -> exists k, 0 <= k < n /\ path n h k = s.
Proof. apply slot_at_surj; auto using path_inc. Qed.

Lemma path_0 : path n h 0 = u32 h mod n.
Proof. unfold path, slot_at. rewrite Z.mul_0_l, Z.add_0_r. apply Z.mod_mod. destruct Hn; lia. Qed.

End PathOf.

(** ** The invariant of a table *)

Section Table.
Context {A K : Type} `{SimpleMapLaws A K}.
Implicit Types (t : table A) (a x : A) (key : K).

(** The node a slot holds, if any. *)
Definition node_at t (i : Z) : option A := if exist t i then mjoin (p t !! Z.to_nat i) else None.

Definition in_range t (i : Z) : Prop := 0 <= i < n_buckets t.

Record table_wf t : Prop := {
  wf_good : good_size (n_buckets t);
  wf_p : zlength (p t) = n_buckets t;
  wf_b : zlength (b t) = n_buckets t / 16 + 1;
  wf_init i : in_range t i -> exist t i = true -> exists a, p t !! Z.to_nat i = Some (Some a);
  wf_chain i a : in_range t i -> node_at t i = Some a ->
    exists k, 0 <= k < n_buckets t /\ path (n_buckets t) (simple_map_hash a) k = i
      /\ forall k', 0 <= k' < k -> dirty t (path (n_buckets t) (simple_map_hash a) k') = true;
  wf_unique i j a x : in_range t i -> in_range t j -> node_at t i = Some a -> node_at t j = Some x ->
    key_of a = key_of x -> i = j;
  wf_size : size t = count (exist t) (fuel_of t);
  wf_dirty : n_dirty t = count (fun i => exist t i || dirty t i) (fuel_of t);
}.

Lemma wf_pos t : table_wf t -> 3 <= n_buckets t < 2 ^ 31.
Proof. intros []. apply wf_good0. Qed.

Lemma wf_bits t i : table_wf t -> in_range t i -> Z.shiftr i 4 < zlength (b t).
Proof.
  intros Hwf Hi. rewrite wf_b by auto. rewrite Z.shiftr_div_pow2 by lia. change (2 ^ 4) with 16.
  pose proof (wf_pos _ Hwf). pose proof (Z.div_le_mono i (n_buckets t) 16). unfold in_range in Hi. lia.
Qed.

Lemma fuel_of_n t : table_wf t -> Z.of_nat (fuel_of t) = n_buckets t.
Proof. intros Hwf. pose proof (wf_pos _ Hwf). unfold fuel_of. lia. Qed.

Lemma node_at_exist t i : table_wf t -> in_range t i -> exist t i = bool_decide (is_Some (node_at t i)).
Proof.
  intros Hwf Hi. unfold node_at. destruct (exist t i) eqn:E.
  - destruct (wf_init _ Hwf _ Hi E) as [a Ha]. rewrite Ha. reflexivity.
  - reflexivity.
Qed.

Lemma node_at_node t i a : node_at t i = Some a -> node t i = Done a.
Proof. unfold node_at, node. case_match; [|discriminate]. intros ->. reflexivity. Qed.

(** Whether slot [i] holds a node the comparison accepts. *)
Definition match_at t (differs : A -> bool) (i : Z) : bool :=
  match node_at t i with Some a => negb (differs a) | None => false end.

Lemma slot_matches_done t differs i :
  table_wf t -> in_range t i -> slot_matches t differs i = Done (match_at t differs i).
Proof.
  intros Hwf Hi. unfold slot_matches, match_at, node_at, node. destruct (exist t i) eqn:E; [|reflexivity].
  destruct (wf_init _ Hwf _ Hi E) as [a Ha]. rewrite Ha. reflexivity.
Qed.

Lemma home_and_inc_done t h :
  table_wf t ->
  home_and_inc t h = Done (path (n_buckets t) h 0, 1 + u32 h mod (n_buckets t - 1)).
Proof.
  intros Hwf. unfold home_and_inc. pose proof (wf_pos _ Hwf).
  rewrite (proj2 (Z.leb_gt _ _)) by lia. rewrite path_0 by apply Hwf. reflexivity.
Qed.

(** *** The probe loop *)

Section Probe.
Context t (Hwf : table_wf t) (h : Z) (differs : A -> bool).
Local Notation at_ k := (path (n_buckets t) h k).

Lemma path_in_range k : in_range t (at_ k).
Proof. apply path_range, Hwf. Qed.

Lemma probe_found T fuel k0 :
  k0 <= T -> T - k0 < Z.of_nat fuel ->
  (forall k, k0 <= k < T -> match_at t differs (at_ k) = false /\ dirty t (at_ k) = true) ->
  match_at t differs (at_ T) = true ->
  probe fuel t differs (at_ k0) (1 + u32 h mod (n_buckets t - 1)) = Done (at_ T).
Proof.
  revert k0. induction fuel as [|fuel IH]; intros k0 Hk Hf Hpre HT; [lia|]. cbn [probe].
  rewrite slot_matches_done by auto using path_in_range. cbn [mbind outcome_bind].
  destruct (Z.eq_dec k0 T) as [->|N]; [rewrite HT; reflexivity|].
  destruct (Hpre k0 ltac:(lia)) as [-> ->]. cbn [negb]. rewrite path_next by apply Hwf.
  apply IH; [lia|lia| |exact HT]. intros; apply Hpre; lia.
Qed.

Lemma probe_absent T fuel k0 :
  k0 <= T -> T - k0 < Z.of_nat fuel ->
  (forall k, k0 <= k < T -> match_at t differs (at_ k) = false /\ dirty t (at_ k) = true) ->
  match_at t differs (at_ T) = false -> dirty t (at_ T) = false ->
  probe fuel t differs (at_ k0) (1 + u32 h mod (n_buckets t - 1)) = Done (n_buckets t).
Proof.
  revert k0. induction fuel as [|fuel IH]; intros k0 Hk Hf Hpre HT HD; [lia|]. cbn [probe].
  rewrite slot_matches_done by auto using path_in_range. cbn [mbind outcome_bind].
  destruct (Z.eq_dec k0 T) as [->|N]; [rewrite HT, HD; reflexivity|].
  destruct (Hpre k0 ltac:(lia)) as [-> ->]. cbn [negb]. rewrite path_next by apply Hwf.
  apply IH; [lia|lia| |exact HT|exact HD]. intros; apply Hpre; lia.
Qed.

(** A table that is not full of used slots has a clean slot on every path. *)
Lemma clean_on_path :
  n_dirty t < n_buckets t ->
  exists k, 0 <= k < n_buckets t /\ exist t (at_ k) = false /\ dirty t (at_ k) = false.
Proof.
  intros Hd. rewrite (wf_dirty t) in Hd by auto. rewrite <- (fuel_of_n t) in Hd by auto.
  apply count_hole in Hd as (s & Hs & Hf). rewrite fuel_of_n in Hs by auto.
  destruct (path_surj _ h (wf_good _ Hwf) s Hs) as (k & Hk & <-). exists k.
  apply orb_false_elim in Hf. tauto.
Qed.

End Probe.
(** *** Lookup *)

Definition absent t (key : K) : Prop :=
  forall j a, in_range t j -> node_at t j = Some a -> key_of a <> key.

Lemma no_match_absent t h key V :
  table_wf t -> (forall a, key_of a = key -> simple_map_hash a = h) ->
  0 <= V < n_buckets t -> dirty t (path (n_buckets t) h V) = false ->
  (forall k a, 0 <= k <= V -> node_at t (path (n_buckets t) h k) = Some a -> key_of a <> key) ->
  absent t key.
Proof.
  intros Hwf Hh HV HD Hno j a Hj Hja Hkey.
  destruct (wf_chain _ Hwf j a Hj Hja) as (k & Hk & Hp & Hd). rewrite (Hh a Hkey) in *.
  destruct (Z.lt_ge_cases V k) as [Hlt|Hge].
  - rewrite Hd in HD by lia. discriminate.
  - apply (Hno k a); [lia|congruence|exact Hkey].
Qed.

Lemma probe_spec t h key (differs : A -> bool) :
  table_wf t -> n_dirty t < n_buckets t ->
  (forall a, key_of a = key -> simple_map_hash a = h) ->
  (forall a, differs a = false <-> key_of a = key) ->
  let r := probe (fuel_of t) t differs (path (n_buckets t) h 0) (1 + u32 h mod (n_buckets t - 1)) in
  (exists j a, in_range t j /\ node_at t j = Some a /\ key_of a = key /\ r = Done j)
  \/ (absent t key /\ r = Done (n_buckets t)).
Proof.
  intros Hwf Hnd Hh Hdf r. set (at_ k := path (n_buckets t) h k).
  destruct (clean_on_path t Hwf h Hnd) as (c & Hc & _ & Hcd).
  destruct (least_from (fun k => match_at t differs (at_ k) || negb (dirty t (at_ k))) 0 c)
    as (T & HT & HfT & Hpre); [lia|unfold at_; rewrite Hcd; apply orb_true_r|].
  assert (Hpre' : forall k, 0 <= k < T -> match_at t differs (at_ k) = false /\ dirty t (at_ k) = true).
  { intros k Hk. specialize (Hpre k Hk). apply orb_false_elim in Hpre as [? ?%negb_false_iff]. auto. }
  pose proof (fuel_of_n t Hwf) as Hfuel.
  destruct (match_at t differs (at_ T)) eqn:HM; cbn in HfT.
  - left. exists (at_ T). unfold match_at in HM. destruct (node_at t (at_ T)) as [a|] eqn:Ha; [|discriminate].
    exists a. split_and!; [apply path_in_range; auto|reflexivity|apply Hdf, negb_true_iff, HM|].
    apply probe_found; auto; [lia|lia|]. unfold match_at, at_ in *. rewrite Ha. exact HM.
  - right. apply negb_true_iff in HfT. split; [|apply (probe_absent t Hwf h differs T); auto; lia].
    apply (no_match_absent t h key T); auto; [lia|]. intros k a Hk Ha Hkey.
    assert (E : match_at t differs (at_ k) = false).
    { destruct (Z.eq_dec k T) as [->|]; [exact HM|apply Hpre'; lia]. }
    unfold match_at, at_ in E. rewrite Ha in E. apply Hdf in Hkey. rewrite Hkey in E. discriminate.
Qed.

Lemma find_spec t key :
  table_wf t -> n_dirty t < n_buckets t ->
  (exists j a, in_range t j /\ node_at t j = Some a /\ key_of a = key /\ simple_map_find t key = Done j)
  \/ (absent t key /\ simple_map_find t key = Done (n_buckets t)).
Proof.
  intros Hwf Hnd. unfold simple_map_find. rewrite home_and_inc_done by auto. cbn [mbind outcome_bind].
  apply probe_spec; auto.
  - intros a <-. symmetry. apply hash_key_of.
  - intros a. rewrite cmp_key_same. split; auto.
Qed.

Lemma get_spec t a :
  table_wf t -> n_dirty t < n_buckets t ->
  (exists j x, in_range t j /\ node_at t j = Some x /\ key_of x = key_of a /\ simple_map_get t a = Done j)
  \/ (absent t (key_of a) /\ simple_map_get t a = Done (n_buckets t)).
Proof.
  intros Hwf Hnd. unfold simple_map_get. rewrite home_and_inc_done by auto. cbn [mbind outcome_bind].
  apply probe_spec; auto.
  - intros x E. rewrite <- !hash_key_of. congruence.
  - intros x. rewrite cmp_same. split; auto.
Qed.

(** *** The two loops of [put_slot] *)

Section PutLoops.
Context t (Hwf : table_wf t) (a : A).
Local Notation at_ k := (path (n_buckets t) (simple_map_hash a) k).
Local Notation inc := (1 + u32 (simple_map_hash a) mod (n_buckets t - 1)).

(** [b'] has the exist bits of the table. *)
Definition same_exist (b' : list Z) : Prop :=
  zlength b' = zlength (b t) /\ forall s, in_range t s -> simple_map_exist b' s = exist t s.

Lemma slot_matches_marked b' differs i :
  same_exist b' -> in_range t i -> slot_matches (with_b t b') differs i = Done (match_at t differs i).
Proof.
  intros [_ He] Hi. rewrite <- slot_matches_done by auto.
  unfold slot_matches, exist, node. cbn [b p with_b]. rewrite He by auto. reflexivity.
Qed.

Lemma setdirty_marks b' s :
  same_exist b' -> in_range t s ->
  same_exist (simple_map_setdirty b' s)
  /\ forall s', in_range t s' ->
       simple_map_dirty (simple_map_setdirty b' s) s' = true <-> s' = s \/ simple_map_dirty b' s' = true.
Proof.
  intros [Hl He] Hs. pose proof (wf_bits t s Hwf Hs) as Hw. unfold in_range in *. split; [split|].
  - unfold simple_map_setdirty. rewrite length_set_word. exact Hl.
  - intros s' Hs'. unfold in_range in *. rewrite exist_setdirty by lia. apply He. exact Hs'.
  - intros s' Hs'. rewrite dirty_setdirty, orb_true_iff, Z.eqb_eq by lia. intuition auto.
Qed.

Lemma skip_spec fuel k0 T f b0 :
  same_exist b0 -> 0 <= k0 <= T -> T - k0 < Z.of_nat fuel ->
  (forall k, k0 <= k < T -> exist t (at_ k) = true /\ match_at t (simple_map_cmp a) (at_ k) = false) ->
  (if f : bool then match_at t (simple_map_cmp a) (at_ T) = true else exist t (at_ T) = false) ->
  exists b', skip_occupied fuel (with_b t b0) a (at_ k0) inc = Done (f, at_ T, with_b t b')
    /\ same_exist b'
    /\ forall s, in_range t s ->
         simple_map_dirty b' s = true <-> simple_map_dirty b0 s = true \/ exists k, k0 <= k < T /\ at_ k = s.
Proof.
  revert k0 b0. induction fuel as [|fuel IH]; intros k0 b0 Hb Hk Hf Hpre HT; [lia|]. cbn [skip_occupied].
  pose proof (path_in_range t Hwf (simple_map_hash a)) as Hr.
  unfold exist at 1. cbn [b with_b]. rewrite (proj2 Hb) by apply Hr.
  destruct (Z.eq_dec k0 T) as [->|N].
  - exists b0. split_and!; [|exact Hb|]. 2: { intros s Hs. split; [auto|]. intros [|(k & ? & _)]; [auto|lia]. }
    destruct f; [|rewrite HT; reflexivity].
    assert (E : exist t (at_ T) = true).
    { rewrite node_at_exist by auto. unfold match_at in HT. case_match; [|discriminate]. reflexivity. }
    rewrite E, slot_matches_marked by auto. cbn. rewrite HT. reflexivity.
  - destruct (Hpre k0 ltac:(lia)) as [-> HM]. rewrite slot_matches_marked by auto. cbn [mbind outcome_bind].
    rewrite HM. cbn [n_buckets with_b b]. rewrite path_next by apply Hwf.
    destruct (setdirty_marks b0 (at_ k0) Hb (Hr k0)) as [Hb1 Hd1].
    destruct (IH (k0 + 1) _ Hb1) as (b' & E & Hb' & Hd'); [lia|lia| |exact HT|].
    { intros; apply Hpre; lia. }
    exists b'. split_and!; [exact E|exact Hb'|]. intros s Hs. rewrite Hd', Hd1 by auto. split.
    + intros [[->|]|(k & ? & <-)]; [|auto|]; right; eexists; (split; [|reflexivity]); lia.
    + intros [|(k & ? & <-)]; [auto|]. destruct (Z.eq_dec k k0) as [->|]; [auto|].
      right. exists k. split; [lia|reflexivity].
Qed.

Lemma seek_spec b' fuel k0 V (f : bool) :
  same_exist b' -> k0 <= V -> V - k0 < Z.of_nat fuel ->
  (forall k, k0 <= k < V -> simple_map_dirty b' (at_ k) = true) ->
  (forall k, k0 < k < V -> match_at t (fun x => simple_map_cmp x a) (at_ k) = false) ->
  (if f then k0 < V /\ match_at t (fun x => simple_map_cmp x a) (at_ V) = true
   else simple_map_dirty b' (at_ V) = false
        /\ (k0 < V -> match_at t (fun x => simple_map_cmp x a) (at_ V) = false)) ->
  seek_duplicate fuel (with_b t b') a (at_ k0) inc = Done (if f then Some (at_ V) else None).
Proof.
  intros Hb. pose proof (path_in_range t Hwf (simple_map_hash a)) as Hr.
  revert k0. induction fuel as [|fuel IH]; intros k0 Hk Hf Hd Hno HV; [lia|]. cbn [seek_duplicate].
  unfold dirty. cbn [b with_b n_buckets]. rewrite path_next by apply Hwf.
  destruct (Z.eq_dec k0 V) as [->|N].
  { destruct f; [lia|]. destruct HV as [-> _]. reflexivity. }
  rewrite Hd by lia. rewrite slot_matches_marked by auto. cbn [mbind outcome_bind].
  destruct (Z.eq_dec (k0 + 1) V) as [E|N'].
  - subst V. destruct f.
    + destruct HV as [_ ->]. reflexivity.
    + destruct HV as [HD HM]. rewrite HM by lia.
      apply (IH (k0 + 1)); [lia|lia|intros; lia|intros; lia|]. split; [exact HD|lia].
  - rewrite Hno by lia. apply IH; [lia|lia|intros; apply Hd; lia|intros; apply Hno; lia|].
    destruct f; [split; [lia|apply HV]|]. split; [apply HV|]. intros _. apply HV. lia.
Qed.

End PutLoops.
(** *** [put_slot] *)

(** [b'] differs from the bits of the table by dirty bits of occupied slots. *)
Definition marks t (b' : list Z) : Prop :=
  same_exist t b'
  /\ forall s, in_range t s ->
       (dirty t s = true -> simple_map_dirty b' s = true)
       /\ (simple_map_dirty b' s = true -> dirty t s = true \/ exist t s = true).

Definition inserted t (b' : list Z) (i : Z) : table A :=
  with_b (with_counts t (if negb (simple_map_dirty b' i) then u32 (n_dirty t + 1) else n_dirty t)
                        (u32 (size t + 1)))
         (simple_map_setexist b' i).

Lemma marks_skip t h T b' :
  table_wf t ->
  (forall k, 0 <= k < T -> exist t (path (n_buckets t) h k) = true) ->
  same_exist t b' ->
  (forall s, in_range t s -> simple_map_dirty b' s = true <->
     dirty t s = true \/ exists k, 0 <= k < T /\ path (n_buckets t) h k = s) ->
  marks t b'.
Proof.
  intros Hwf Hex Hse Hd. split; [exact Hse|]. intros s Hs. rewrite Hd by auto.
  split; [auto|]. intros [|(k & Hk & <-)]; auto.
Qed.

Lemma put_slot_spec t a :
  table_wf t -> n_dirty t < n_buckets t ->
  exists b', marks t b' /\
  ((exists j x, in_range t j /\ node_at t j = Some x /\ key_of x = key_of a
      /\ put_slot t a = Done (j, true, with_b t b'))
   \/ (absent t (key_of a) /\ exists T,
        0 <= T < n_buckets t /\ exist t (path (n_buckets t) (simple_map_hash a) T) = false
        /\ (forall k, 0 <= k < T -> simple_map_dirty b' (path (n_buckets t) (simple_map_hash a) k) = true)
        /\ put_slot t a = Done (path (n_buckets t) (simple_map_hash a) T, false,
                                inserted t b' (path (n_buckets t) (simple_map_hash a) T)))).
Proof.
  intros Hwf Hnd. set (at_ k := path (n_buckets t) (simple_map_hash a) k).
  set (mat k := match_at t (simple_map_cmp a) (at_ k)).
  assert (Hmat : forall k x, node_at t (at_ k) = Some x -> mat k = true <-> key_of a = key_of x).
  { intros k x Hx. unfold mat, match_at. rewrite Hx. rewrite negb_true_iff. apply cmp_same. }
  assert (Hmat' : forall k, mat k = match_at t (fun x => simple_map_cmp x a) (at_ k)).
  { intros k. unfold mat, match_at. destruct (node_at t (at_ k)) as [x|]; [|reflexivity]. f_equal.
    apply eq_iff_eq_true. rewrite <- !not_false_iff_true, !cmp_same. intuition congruence. }
  assert (Hmex : forall k, mat k = true -> exists x, node_at t (at_ k) = Some x /\ key_of x = key_of a).
  { intros k Hk. pose proof Hk as Hk'. unfold mat, match_at in Hk.
    destruct (node_at t (at_ k)) as [x|] eqn:Ex; [|discriminate]. exists x. split; [reflexivity|].
    symmetry. apply (Hmat k x Ex), Hk'. }
  destruct (clean_on_path t Hwf (simple_map_hash a) Hnd) as (c & Hc & Hce & Hcd).
  pose proof (path_in_range t Hwf (simple_map_hash a)) as Hr.
  pose proof (fuel_of_n t Hwf) as Hfuel.
  destruct (least_from (fun k => mat k || negb (exist t (at_ k))) 0 c) as (T & HT & HfT & Hpre);
    [lia|unfold at_; rewrite Hce; apply orb_true_r|].
  assert (Hpre' : forall k, 0 <= k < T -> exist t (at_ k) = true /\ mat k = false).
  { intros k Hk. pose proof (orb_false_elim _ _ (Hpre k Hk)) as [? ?%negb_false_iff]; auto. }
  assert (Hse0 : same_exist t (b t)) by (split; auto).
  assert (Hskip : exists b', skip_occupied (S (fuel_of t)) t a (at_ 0)
             (1 + u32 (simple_map_hash a) mod (n_buckets t - 1)) = Done (mat T, at_ T, with_b t b')
          /\ marks t b' /\ (forall s, in_range t s -> simple_map_dirty b' s = true <->
               dirty t s = true \/ exists k, 0 <= k < T /\ at_ k = s)).
  { destruct (skip_spec t Hwf a (S (fuel_of t)) 0 T (mat T) (b t) Hse0) as (b' & E & Hb' & Hd');
      [lia|lia|auto| |].
    { destruct (mat T) eqn:EM; [exact EM|]. cbn in HfT. apply negb_true_iff, HfT. }
    exists b'. replace (with_b t (b t)) with t in E by (destruct t; reflexivity).
    split_and!; [exact E| |exact Hd'].
    apply (marks_skip t (simple_map_hash a) T); auto. intros k Hk. apply Hpre'. exact Hk. }
  destruct Hskip as (b' & Eskip & Hmarks & Hd'). exists b'. split; [exact Hmarks|].
  unfold put_slot. rewrite home_and_inc_done by auto. cbn [mbind outcome_bind].
  fold (at_ 0). rewrite Eskip. cbn [mbind outcome_bind].
  destruct (mat T) eqn:HMT.
  { left. destruct (Hmex T HMT) as (x & Hx & Hkx). exists (at_ T), x. split_and!; auto. }
  cbn in HfT. apply negb_true_iff in HfT.
  (* dirty bits of the marked table on the rest of the path *)
  assert (Hdrest : forall k, T <= k <= c -> simple_map_dirty b' (at_ k) = dirty t (at_ k)).
  { intros k Hk. apply eq_iff_eq_true. rewrite Hd' by apply Hr. split; [|auto].
    intros [|(k' & Hk' & E)]; [auto|]. apply path_inj in E; [lia|apply Hwf|lia|lia]. }
  destruct (least_from (fun k => mat k || negb (dirty t (at_ k))) T c) as (V & HV & HfV & HpreV);
    [lia|unfold at_; rewrite Hcd; apply orb_true_r|].
  assert (HpreV' : forall k, T <= k < V -> dirty t (at_ k) = true /\ mat k = false).
  { intros k Hk. pose proof (orb_false_elim _ _ (HpreV k Hk)) as [? ?%negb_false_iff]; auto. }
  assert (Eseek : seek_duplicate (S (fuel_of (with_b t b'))) (with_b t b') a (at_ T)
            (1 + u32 (simple_map_hash a) mod (n_buckets t - 1)) = Done (if mat V then Some (at_ V) else None)).
  { change (fuel_of (with_b t b')) with (fuel_of t). apply seek_spec; auto.
    - apply Hmarks.
    - lia.
    - lia.
    - intros k Hk. rewrite Hdrest by lia. apply HpreV'. lia.
    - intros k Hk. rewrite <- Hmat'. apply HpreV'. lia.
    - rewrite <- Hmat'. destruct (mat V) eqn:EV.
      + split; [|reflexivity]. destruct (Z.eq_dec T V) as [->|]; [congruence|lia].
      + cbn in HfV. apply negb_true_iff in HfV. rewrite Hdrest by lia. auto. }
  rewrite Eseek. cbn [mbind outcome_bind]. destruct (mat V) eqn:HMV.
  - left. destruct (Hmex V HMV) as (x & Hx & Hkx). exists (at_ V), x. split_and!; auto.
  - right. cbn in HfV. apply negb_true_iff in HfV. split.
    + apply (no_match_absent t (simple_map_hash a) _ V); auto; [|lia|].
      * intros x Hx. rewrite <- !hash_key_of. congruence.
      * intros k x Hk Hx Hkey. assert (E : mat k = false).
        { destruct (Z.lt_ge_cases k T); [apply Hpre'; lia|].
          destruct (Z.eq_dec k V) as [->|]; [exact HMV|apply HpreV'; lia]. }
        rewrite (proj2 (Hmat k x Hx)) in E by auto. discriminate.
    + exists T. split_and!; [lia|lia|exact HfT| |reflexivity].
      intros k Hk. apply Hd'; [apply Hr|]. right. exists k. split; [lia|reflexivity].
Qed.

(** *** Writing the node *)

(** [t] holds node [a] under [key]. *)
Definition has t (key : K) (a : A) : Prop :=
  exists i, in_range t i /\ node_at t i = Some a /\ key_of a = key.

(** The fields insertion and deletion leave alone. *)
Record same_frame t t' : Prop := {
  sf_n : n_buckets t' = n_buckets t;
  sf_upper : upper_bound t' = upper_bound t;
  sf_prime : prime t' = prime t;
  sf_cnt : resize_cnt t' = resize_cnt t;
  sf_pos : resize_position t' = resize_position t;
  sf_batch : batch t' = batch t;
}.

Lemma same_frame_refl t : same_frame t t.
Proof. by split. Qed.

Lemma same_frame_trans t1 t2 t3 : same_frame t1 t2 -> same_frame t2 t3 -> same_frame t1 t3.
Proof. intros [] []. split; congruence. Qed.

Lemma has_unique t key a a' : table_wf t -> has t key a -> has t key a' -> a = a'.
Proof.
  intros Hwf (i & Hi & Ha & Hk) (i' & Hi' & Ha' & Hk').
  assert (i = i') as <- by (eapply (wf_unique _ Hwf); eauto; congruence). congruence.
Qed.

Lemma absent_has t key a : absent t key -> ~ has t key a.
Proof. intros Hab (i & Hi & Ha & Hk). exact (Hab i a Hi Ha Hk). Qed.

(** [t'] is [t] with node [a] written to slot [i]; the other slots hold the same
    nodes, and dirty bits only grow. *)
Record wrote t t' (i : Z) (a : A) : Prop := {
  wr_range : in_range t i;
  wr_frame : same_frame t t';
  wr_p : zlength (p t') = zlength (p t);
  wr_b : zlength (b t') = zlength (b t);
  wr_init j : in_range t j -> exist t' j = true -> exists x, p t' !! Z.to_nat j = Some (Some x);
  wr_node : node_at t' i = Some a;
  wr_other j : in_range t j -> j <> i -> node_at t' j = node_at t j;
  wr_dirty j : in_range t j -> dirty t j = true -> dirty t' j = true;
}.

Lemma wrote_range t t' i a j : wrote t t' i a -> in_range t' j <-> in_range t j.
Proof. intros []. unfold in_range. rewrite (sf_n _ _ wr_frame0). reflexivity. Qed.

Lemma wrote_has t t' i a key x :
  wrote t t' i a -> (forall y, node_at t i = Some y -> key_of y = key_of a) ->
  (forall j y, in_range t j -> j <> i -> node_at t j = Some y -> key_of y <> key_of a) ->
  has t' key x <-> (key = key_of a /\ x = a) \/ (key <> key_of a /\ has t key x).
Proof.
  intros Hw Hi Hno. split.
  - intros (j & Hj & Hx & Hk). apply (wrote_range _ _ _ _ _ Hw) in Hj.
    destruct (Z.eq_dec j i) as [->|N].
    + rewrite (wr_node _ _ _ _ Hw) in Hx. left. split; congruence.
    + rewrite (wr_other _ _ _ _ Hw) in Hx by auto. right. split.
      * rewrite <- Hk. eapply Hno; eauto.
      * exists j. auto.
  - intros [[-> ->]|[N (j & Hj & Hx & Hk)]].
    + exists i. split_and!; [|apply Hw|reflexivity]. apply (wrote_range _ _ _ _ _ Hw), Hw.
    + exists j. split_and!; [apply (wrote_range _ _ _ _ _ Hw); auto| |auto].
      rewrite (wr_other _ _ _ _ Hw); auto. intros ->. rewrite (Hi x Hx) in Hk. congruence.
Qed.

(** Writing a node at the end of a dirty path keeps the invariant. *)
Lemma wrote_wf t t' i a k :
  table_wf t -> wrote t t' i a ->
  (forall j y, in_range t j -> j <> i -> node_at t j = Some y -> key_of y <> key_of a) ->
  0 <= k < n_buckets t -> path (n_buckets t) (simple_map_hash a) k = i ->
  (forall k', 0 <= k' < k -> dirty t' (path (n_buckets t) (simple_map_hash a) k') = true) ->
  size t' = count (exist t') (fuel_of t) ->
  n_dirty t' = count (fun i => exist t' i || dirty t' i) (fuel_of t) ->
  table_wf t'.
Proof.
  intros Hwf Hw Hno Hk Hp Hd Hs Hnd.
  pose proof (sf_n _ _ (wr_frame _ _ _ _ Hw)) as Hn.
  assert (Hfu : fuel_of t' = fuel_of t) by (unfold fuel_of; rewrite Hn; reflexivity).
  split; rewrite ?Hn, ?Hfu; auto.
  - apply Hwf.
  - rewrite (wr_p _ _ _ _ Hw). apply Hwf.
  - rewrite (wr_b _ _ _ _ Hw). apply Hwf.
  - intros j Hj. apply (wr_init _ _ _ _ Hw), (wrote_range _ _ _ _ _ Hw), Hj.
  - intros j x Hj Hx. apply (wrote_range _ _ _ _ _ Hw) in Hj. destruct (Z.eq_dec j i) as [->|N].
    + rewrite (wr_node _ _ _ _ Hw) in Hx. injection Hx as <-. exists k. auto.
    + rewrite (wr_other _ _ _ _ Hw) in Hx by auto.
      destruct (wf_chain _ Hwf j x Hj Hx) as (kj & Hkj & Hpj & Hdj). exists kj. split_and!; auto; [lia..|].
      intros k' Hk'. apply (wr_dirty _ _ _ _ Hw); auto using path_in_range.
  - intros j j' x x' Hj Hj' Hx Hx' E.
    apply (wrote_range _ _ _ _ _ Hw) in Hj, Hj'.
    assert (Hcase : forall l y, in_range t l -> node_at t' l = Some y ->
              (l = i /\ y = a) \/ (l <> i /\ node_at t l = Some y)).
    { intros l y Hl Hy. destruct (Z.eq_dec l i) as [->|N].
      - rewrite (wr_node _ _ _ _ Hw) in Hy. left. split; congruence.
      - rewrite (wr_other _ _ _ _ Hw) in Hy by auto. auto. }
    destruct (Hcase j x Hj Hx) as [[-> ->]|[N Hx0]], (Hcase j' x' Hj' Hx') as [[-> ->]|[N' Hx0']].
    + reflexivity.
    + destruct (Hno j' x'); auto.
    + destruct (Hno j x); auto.
    + eapply (wf_unique _ Hwf); eauto.
Qed.

Lemma lookup_set_node t i j a :
  0 <= i < zlength (p t) -> 0 <= j ->
  mjoin (p (set_node t i a) !! Z.to_nat j) = if i =? j then Some a else mjoin (p t !! Z.to_nat j).
Proof.
  intros Hi Hj. cbn. unfold zlength in Hi. destruct (Z.eqb_spec i j) as [->|N].
  - rewrite list_lookup_insert_eq by lia. reflexivity.
  - rewrite list_lookup_insert_ne by lia. reflexivity.
Qed.

(** The write of a node into a table whose exist bits are those of [t] plus [i]. *)
Lemma wrote_set t t1 i a :
  table_wf t -> in_range t i -> same_frame t t1 -> p t1 = p t -> zlength (b t1) = zlength (b t) ->
  (forall j, in_range t j -> exist t1 j = (i =? j) || exist t j) ->
  (forall j, in_range t j -> dirty t j = true -> dirty t1 j = true) ->
  wrote t (set_node t1 i a) i a.
Proof.
  intros Hwf Hi Hf Hp Hb Hex Hd. pose proof (wf_p _ Hwf) as Hl. unfold in_range in *.
  assert (Hlook : forall j, 0 <= j < n_buckets t ->
    mjoin (p (set_node t1 i a) !! Z.to_nat j) = if i =? j then Some a else mjoin (p t !! Z.to_nat j)).
  { intros j Hj. rewrite lookup_set_node by (rewrite ?Hp; lia). rewrite Hp. reflexivity. }
  split; auto.
  - destruct Hf; split; auto.
  - cbn. unfold zlength. rewrite length_insert, Hp. reflexivity.
  - intros j Hj He. change (exist (set_node t1 i a) j) with (exist t1 j) in He.
    rewrite Hex in He by auto. specialize (Hlook j Hj). destruct (Z.eqb_spec i j) as [->|N].
    + exists a. destruct (p _ !! _) as [[?|]|]; cbn in Hlook; congruence.
    + cbn in He. destruct (wf_init _ Hwf j Hj He) as [x Hx]. exists x. rewrite Hx in Hlook.
      destruct (p (set_node t1 i a) !! _) as [[?|]|]; cbn in Hlook; congruence.
  - unfold node_at. change (exist (set_node t1 i a) i) with (exist t1 i).
    rewrite Hex, Z.eqb_refl, Hlook, Z.eqb_refl by auto. reflexivity.
  - intros j Hj N. unfold node_at. change (exist (set_node t1 i a) j) with (exist t1 j).
    rewrite Hex, Hlook by auto. rewrite (proj2 (Z.eqb_neq i j)) by auto. reflexivity.
Qed.

Lemma count_le_n t f : table_wf t -> 0 <= count f (fuel_of t) <= n_buckets t.
Proof. intros Hwf. pose proof (count_bounds f (fuel_of t)). rewrite fuel_of_n in * by auto. lia. Qed.

(** What [put_slot] followed by the store of the node does. *)
Record put_result t (a : A) (i : Z) (f : bool) (t1 t2 : table A) : Prop := {
  pr_slot : put_slot t a = Done (i, f, t1);
  pr_set : t2 = set_node t1 i a;
  pr_wf : table_wf t2;
  pr_wrote : wrote t t2 i a;
  pr_found : f = true -> exists x, node t1 i = Done x /\ has t (key_of a) x;
  pr_absent : f = false -> absent t (key_of a);
  pr_has key x : has t2 key x <-> (key = key_of a /\ x = a) \/ (key <> key_of a /\ has t key x);
  pr_size : size t2 = size t + (if f then 0 else 1);
  pr_dirty : n_dirty t <= n_dirty t2 <= n_dirty t + (if f then 0 else 1);
}.

Lemma put_present t a j x b' :
  table_wf t -> marks t b' -> in_range t j -> node_at t j = Some x -> key_of x = key_of a ->
  put_slot t a = Done (j, true, with_b t b') ->
  put_result t a j true (with_b t b') (set_node (with_b t b') j a).
Proof.
  intros Hwf [[Hlb Hex] Hd] Hj Hx Hk E.
  assert (Hej : exist t j = true).
  { rewrite node_at_exist, Hx by auto. reflexivity. }
  assert (Hw : wrote t (set_node (with_b t b') j a) j a).
  { apply wrote_set; auto; [by split| |].
    - intros s Hs. unfold exist at 1. cbn. rewrite Hex by auto.
      destruct (Z.eqb_spec j s) as [->|]; [rewrite Hej|]; reflexivity.
    - intros s Hs. apply Hd, Hs. }
  assert (Hno : forall l y, in_range t l -> l <> j -> node_at t l = Some y -> key_of y <> key_of a).
  { intros l y Hl N Hy Ek. apply N. eapply (wf_unique _ Hwf); eauto. congruence. }
  destruct (wf_chain _ Hwf j x Hj Hx) as (k & Hkr & Hkp & Hkd).
  rewrite <- (hash_key_of x), Hk, hash_key_of in Hkp, Hkd.
  assert (Hrng : forall s, 0 <= s < Z.of_nat (fuel_of t) -> in_range t s).
  { intros s. rewrite fuel_of_n by auto. auto. }
  split; auto.
  - apply (wrote_wf t _ j a k); auto.
    + intros k' Hk'. apply (wr_dirty _ _ _ _ Hw); auto using path_in_range.
    + cbn. rewrite (wf_size t) by auto. apply count_ext. intros s Hs. symmetry. apply Hex; auto.
    + cbn. rewrite (wf_dirty t) by auto. apply count_ext. intros s Hs. unfold exist at 2, dirty at 2. cbn.
      rewrite Hex by auto. specialize (Hd s (Hrng s Hs)) as [D1 D2].
      destruct (exist t s); [reflexivity|]. cbn. apply eq_iff_eq_true. intuition discriminate.
  - intros _. exists x. split; [|exists j; auto]. apply node_at_node in Hx. exact Hx.
  - discriminate.
  - intros key y. apply (wrote_has _ _ j); auto. intros z Hz. congruence.
  - cbn. lia.
  - cbn. lia.
Qed.

Lemma put_absent t a b' T :
  table_wf t -> marks t b' -> absent t (key_of a) -> 0 <= T < n_buckets t ->
  let i := path (n_buckets t) (simple_map_hash a) T in
  exist t i = false ->
  (forall k, 0 <= k < T -> simple_map_dirty b' (path (n_buckets t) (simple_map_hash a) k) = true) ->
  put_slot t a = Done (i, false, inserted t b' i) ->
  put_result t a i false (inserted t b' i) (set_node (inserted t b' i) i a).
Proof.
  intros Hwf [[Hlb Hex] Hd] Hab HT i Hei Hchain E.
  assert (Hi : in_range t i) by (apply path_in_range; auto).
  assert (Hrng : forall s, 0 <= s < Z.of_nat (fuel_of t) -> in_range t s).
  { intros s. rewrite fuel_of_n by auto. auto. }
  pose proof (wf_bits t i Hwf Hi) as Hwb. rewrite <- Hlb in Hwb.
  assert (Hex' : forall s, in_range t s -> exist (inserted t b' i) s = (i =? s) || exist t s).
  { intros s Hs. unfold exist at 1, inserted. cbn. unfold in_range in *.
    rewrite exist_setexist by lia. rewrite Hex by auto. reflexivity. }
  assert (Hd' : forall s, in_range t s -> dirty (inserted t b' i) s = simple_map_dirty b' s).
  { intros s Hs. unfold dirty, inserted. cbn. unfold in_range in *. apply dirty_setexist; lia. }
  assert (Hw : wrote t (set_node (inserted t b' i) i a) i a).
  { apply wrote_set; auto; [by split| |].
    - unfold inserted, simple_map_setexist. cbn. rewrite length_set_word. exact Hlb.
    - intros s Hs. rewrite Hd' by auto. apply Hd, Hs. }
  assert (Hno : forall l y, in_range t l -> l <> i -> node_at t l = Some y -> key_of y <> key_of a) by
    (intros l y Hl _ Hy; apply (Hab l y Hl Hy)).
  pose proof (count_le_n t (exist t) Hwf) as Hcs. rewrite <- wf_size in Hcs by auto.
  pose proof (count_le_n t (fun s => exist t s || dirty t s) Hwf) as Hcd. rewrite <- wf_dirty in Hcd by auto.
  pose proof (wf_pos t Hwf).
  assert (Hfi : 0 <= i < Z.of_nat (fuel_of t)) by (rewrite fuel_of_n; auto).
  assert (Hes : size t + 1 = count (exist (inserted t b' i)) (fuel_of t)).
  { rewrite (wf_size t) by auto. symmetry. apply (count_flip _ _ _ i); auto.
    - rewrite Hex', Z.eqb_refl by auto. reflexivity.
    - intros s Hs N. rewrite Hex', (proj2 (Z.eqb_neq i s)) by auto. reflexivity. }
  assert (Hdi : (if simple_map_dirty b' i then n_dirty t else n_dirty t + 1)
     = count (fun s => exist (inserted t b' i) s || dirty (inserted t b' i) s) (fuel_of t)).
  { assert (Hsame : forall s, in_range t s -> s <> i -> (exist (inserted t b' i) s || dirty (inserted t b' i) s)
      = (exist t s || dirty t s)).
    { intros s Hs N. rewrite Hex', Hd', (proj2 (Z.eqb_neq i s)) by auto. cbn.
      destruct (Hd s Hs) as [D1 D2]. destruct (exist t s); [reflexivity|]. cbn.
      apply eq_iff_eq_true. intuition discriminate. }
    rewrite (wf_dirty t) by auto. destruct (simple_map_dirty b' i) eqn:Di.
    - apply count_ext. intros s Hs. destruct (Z.eq_dec s i) as [->|N]; [|symmetry; auto].
      rewrite Hex', Z.eqb_refl by auto. cbn. destruct (Hd i Hi) as [_ D]. destruct D as [->|]; auto; [|congruence].
      apply orb_true_r.
    - symmetry. apply (count_flip _ _ _ i); auto.
      + rewrite Hei. cbn. destruct (dirty t i) eqn:D; [|reflexivity]. apply Hd in D; congruence.
      + rewrite Hex', Z.eqb_refl by auto. reflexivity. }
  assert (Esz : size (inserted t b' i) = size t + 1) by (cbn; apply wrap_small; lia).
  assert (End_ : n_dirty (inserted t b' i) = if simple_map_dirty b' i then n_dirty t else n_dirty t + 1).
  { cbn. destruct (simple_map_dirty b' i); cbn; [reflexivity|]. apply wrap_small. lia. }
  split; auto.
  - apply (wrote_wf t _ i a T); auto.
    + intros k Hk. change (dirty (set_node ?u _ _)) with (dirty u). rewrite Hd' by auto using path_in_range. auto.
    + change (size (set_node ?u _ _)) with (size u). rewrite Esz. exact Hes.
    + change (n_dirty (set_node ?u _ _)) with (n_dirty u). rewrite End_. exact Hdi.
  - discriminate.
  - intros key y. apply (wrote_has _ _ i); auto. intros z Hz.
    rewrite node_at_exist, Hz in Hei by auto. discriminate.
  - change (n_dirty (set_node ?u _ _)) with (n_dirty u). rewrite End_. case_match; lia.
Qed.

Lemma put_slot_result t a :
  table_wf t -> n_dirty t < n_buckets t -> exists i f t1 t2, put_result t a i f t1 t2.
Proof.
  intros Hwf Hnd.
  destruct (put_slot_spec t a Hwf Hnd) as (b' & Hm & [(j & x & Hj & Hx & Hk & E)|(Hab & T & HT & He & Hc & E)]).
  - do 4 eexists. eapply put_present; eauto.
  - do 4 eexists. eapply put_absent; eauto.
Qed.

(** *** Deletion of a slot *)

Record del_result t (i : Z) (a : A) (t' : table A) : Prop := {
  dr_wf : table_wf t';
  dr_frame : same_frame t t';
  dr_node : node_at t' i = None;
  dr_other j : in_range t j -> j <> i -> node_at t' j = node_at t j;
  dr_p : p t' = p t;
  dr_has key x : has t' key x <-> key <> key_of a /\ has t key x;
  dr_size : size t' = size t - 1;
  dr_dirty : n_dirty t' <= n_dirty t;
}.

Lemma del_slot_result t i a :
  table_wf t -> in_range t i -> node_at t i = Some a -> del_result t i a (del_slot t i).
Proof.
  intros Hwf Hi Ha. set (t' := del_slot t i).
  assert (Hrng : forall s, 0 <= s < Z.of_nat (fuel_of t) -> in_range t s).
  { intros s. rewrite fuel_of_n by auto. auto. }
  pose proof (wf_bits t i Hwf Hi) as Hwb. pose proof (wf_pos t Hwf).
  assert (Hex : forall s, in_range t s -> exist t' s = negb (i =? s) && exist t s).
  { intros s Hs. unfold in_range in *. apply exist_setfree; lia. }
  assert (Hd : forall s, in_range t s -> dirty t' s = dirty t s).
  { intros s Hs. unfold in_range in *. apply dirty_setfree; lia. }
  assert (Hei : exist t i = true) by (rewrite node_at_exist, Ha by auto; reflexivity).
  assert (Hother : forall j, in_range t j -> j <> i -> node_at t' j = node_at t j).
  { intros j Hj N. unfold node_at. rewrite Hex, (proj2 (Z.eqb_neq i j)) by auto. reflexivity. }
  assert (Hnone : node_at t' i = None) by (unfold node_at; rewrite Hex, Z.eqb_refl by auto; reflexivity).
  assert (Hsub : forall j x, in_range t j -> node_at t' j = Some x -> j <> i /\ node_at t j = Some x).
  { intros j x Hj Hx. destruct (Z.eq_dec j i) as [->|N]; [congruence|]. rewrite <- Hother; auto. }
  assert (Hfi : 0 <= i < Z.of_nat (fuel_of t)) by (rewrite fuel_of_n; auto).
  assert (Hes : size t' = size t - 1 /\ size t' = count (exist t') (fuel_of t)).
  { pose proof (count_le_n t (exist t) Hwf). pose proof (count_le_n t (exist t') Hwf).
    assert (E : count (exist t) (fuel_of t) = count (exist t') (fuel_of t) + 1).
    { apply (count_flip _ _ _ i); auto.
      - rewrite Hex, Z.eqb_refl by auto. reflexivity.
      - intros s Hs N. rewrite Hex, (proj2 (Z.eqb_neq i s)) by auto. reflexivity. }
    rewrite <- wf_size in E by auto. unfold t' at 1 2, del_slot. cbn. rewrite wrap_small by lia. lia. }
  assert (Hed : n_dirty t' <= n_dirty t
      /\ n_dirty t' = count (fun s => exist t' s || dirty t' s) (fuel_of t)).
  { pose proof (count_le_n t (fun s => exist t s || dirty t s) Hwf).
    pose proof (count_le_n t (fun s => exist t' s || dirty t' s) Hwf).
    assert (Hsame : forall s, in_range t s -> s <> i -> (exist t s || dirty t s) = (exist t' s || dirty t' s)).
    { intros s Hs N. rewrite Hex, Hd, (proj2 (Z.eqb_neq i s)) by auto. reflexivity. }
    assert (Edi : dirty (with_b t (simple_map_setfree (b t) i)) i = dirty t i) by (apply (Hd i Hi)).
    unfold t' at 1 2, del_slot. cbn [n_dirty with_counts]. rewrite Edi. cbn [n_dirty with_b].
    rewrite (wf_dirty t) in * by auto. destruct (dirty t i) eqn:Di; cbn [negb].
    - split; [lia|]. apply count_ext. intros s Hs. destruct (Z.eq_dec s i) as [->|N]; [|auto].
      rewrite Hd, Di by auto. rewrite !orb_true_r. reflexivity.
    - assert (E : count (fun s => exist t s || dirty t s) (fuel_of t)
                = count (fun s => exist t' s || dirty t' s) (fuel_of t) + 1).
      { apply (count_flip _ _ _ i); auto.
        - rewrite Hex, Z.eqb_refl, Hd, Di by auto. reflexivity.
        - rewrite Hei. reflexivity. }
      rewrite E, wrap_small by lia. lia. }
  split; try (destruct Hes, Hed; assumption); auto.
  - split; auto; try apply Hwf.
    + change (b t') with (simple_map_setfree (b t) i). unfold simple_map_setfree.
      rewrite length_set_word. apply Hwf.
    + intros s Hs He. rewrite Hex in He by auto. apply andb_prop in He as [_ He]. apply (wf_init _ Hwf s Hs He).
    + intros j x Hj Hx. apply Hsub in Hx as [_ Hx]; [|exact Hj].
      destruct (wf_chain _ Hwf j x Hj Hx) as (k & Hk & Hp & Hdk). exists k.
      change (n_buckets t') with (n_buckets t). split; [exact Hk|]. split; [exact Hp|].
      intros k' Hk'. rewrite Hd by (apply path_in_range; auto). auto.
    + intros j j' x x' Hj Hj' Hx Hx'. apply Hsub in Hx as [_ Hx]; [|exact Hj].
      apply Hsub in Hx' as [_ Hx']; [|exact Hj']. eapply (wf_unique _ Hwf); eauto.
    + apply Hes.
    + apply Hed.
  - by split.
  - intros key x. split.
    + intros (j & Hj & Hx & Hk). apply Hsub in Hx as [N Hx]; [|exact Hj]. split; [|exists j; auto].
      intros ->. apply N. eapply (wf_unique _ Hwf); eauto.
    + intros [N (j & Hj & Hx & Hk)]. exists j. split_and!; auto. rewrite Hother; auto. congruence.
Qed.

(** *** A fresh table *)

Definition fresh_table (n prime cnt position batch : Z) : table A :=
  Table (replicate (Z.to_nat n) None) (replicate (Z.to_nat (n / 16 + 1)) 0)
        n 0 0 (times_density n) prime cnt position batch.

Lemma fresh_table_wf n pr cnt pos ba :
  good_size n -> table_wf (fresh_table n pr cnt pos ba) /\ forall key, absent (fresh_table n pr cnt pos ba) key.
Proof.
  intros Hn. pose proof (proj2 Hn) as Hb.
  assert (Hnone : forall i, node_at (fresh_table n pr cnt pos ba) i = None).
  { intros i. unfold node_at, exist. cbn. rewrite exist_fresh. reflexivity. }
  assert (Hc : forall m, count (exist (fresh_table n pr cnt pos ba)) m = 0
     /\ count (fun i => exist (fresh_table n pr cnt pos ba) i || dirty (fresh_table n pr cnt pos ba) i) m = 0).
  { induction m as [|m [IH1 IH2]]; cbn [count]; [auto|]. rewrite IH1, IH2. unfold exist, dirty. cbn.
    rewrite exist_fresh, dirty_fresh. auto. }
  split; [split; cbn|]; auto.
  - unfold zlength. rewrite length_replicate. lia.
  - unfold zlength. rewrite length_replicate. pose proof (Z.div_pos n 16). lia.
  - intros i _ He. unfold exist in He. cbn in He. rewrite exist_fresh in He. discriminate.
  - intros i a _ E. rewrite Hnone in E. discriminate.
  - intros i j a x _ _ E. rewrite Hnone in E. discriminate.
  - symmetry. apply Hc.
  - symmetry. apply Hc.
  - intros key j a _ E. rewrite Hnone in E. discriminate.
Qed.

(** *** The finite map a table stands for *)

Context `{Countable K}.

Definition nodes t : list A := omap (node_at t) (seqZ 0 (n_buckets t)).
Definition contents t : gmap K A := list_to_map ((fun a => (key_of a, a)) <$> nodes t).

Lemma elem_of_nodes t a : a ∈ nodes t <-> exists i, in_range t i /\ node_at t i = Some a.
Proof.
  unfold nodes. rewrite list_elem_of_omap. split; intros (i & Hi & Ha); exists i; split; auto;
    rewrite elem_of_seqZ in *; unfold in_range in *; lia.
Qed.

Lemma contents_has t key a : table_wf t -> contents t !! key = Some a <-> has t key a.
Proof.
  intros Hwf. unfold contents.
  assert (Hin : forall x, (key, x) ∈ ((fun a => (key_of a, a)) <$> nodes t) <-> has t key x).
  { intros x. rewrite list_elem_of_fmap. split.
    - intros (y & E & Hy). injection E as -> ->. apply elem_of_nodes in Hy as (i & Hi & Hx). exists i. auto.
    - intros (i & Hi & Hx & Hk). exists x. rewrite Hk. split; [reflexivity|]. apply elem_of_nodes. eauto. }
  split.
  - intros E. apply Hin. by apply elem_of_list_to_map_2.
  - intros Hh. apply elem_of_list_to_map_1'; [|by apply Hin].
    intros y Hy. apply Hin in Hy. eapply has_unique; eauto.
Qed.

Lemma contents_absent t key : table_wf t -> contents t !! key = None <-> absent t key.
Proof.
  intros Hwf. split.
  - intros E i a Hi Ha Hk. assert (contents t !! key = Some a) by (apply contents_has; [auto|exists i; auto]).
    congruence.
  - intros Hab. destruct (contents t !! key) as [a|] eqn:E; [|reflexivity].
    apply contents_has in E as (i & Hi & Ha & Hk); [|auto]. destruct (Hab i a Hi Ha Hk).
Qed.

Lemma nodes_keys_NoDup t : table_wf t -> NoDup (key_of <$> nodes t).
Proof.
  intros Hwf. unfold nodes.
  assert (Hl : forall i, i ∈ seqZ 0 (n_buckets t) -> in_range t i).
  { intros i. rewrite elem_of_seqZ. unfold in_range. lia. }
  pose proof (NoDup_seqZ 0 (n_buckets t)) as Hnd. revert Hnd Hl.
  generalize (seqZ 0 (n_buckets t)) as l. induction l as [|i l IH]; intros Hnd Hl; cbn; [constructor|].
  apply NoDup_cons in Hnd as [Hni Hnd].
  assert (IH' : NoDup (key_of <$> omap (node_at t) l)) by (apply IH; [exact Hnd|intros; apply Hl; set_solver]).
  destruct (node_at t i) as [a|] eqn:Ha; [|exact IH']. cbn. apply NoDup_cons. split; [|exact IH'].
  rewrite list_elem_of_fmap. intros (x & Hk & Hx). apply list_elem_of_omap in Hx as (j & Hj & Hx).
  apply Hni. replace i with j; [exact Hj|]. eapply (wf_unique _ Hwf); eauto; apply Hl; set_solver.
Qed.

Lemma length_nodes t : table_wf t -> Z.of_nat (length (nodes t)) = size t.
Proof.
  intros Hwf. rewrite (wf_size t) by auto. unfold nodes. rewrite <- (fuel_of_n t) by auto.
  assert (Hle : Z.of_nat (fuel_of t) <= n_buckets t) by (rewrite fuel_of_n; auto; lia).
  induction (fuel_of t) as [|m IH]; [reflexivity|].
  rewrite seqZ_S, omap_app, length_app, Nat2Z.inj_add, IH by lia. cbn [count omap list_omap].
  rewrite Z.add_0_l, node_at_exist by (auto; unfold in_range; lia).
  destruct (node_at t (Z.of_nat m)); cbn; lia.
Qed.

Lemma size_contents t : table_wf t -> Z.of_nat (base.size (contents t)) = size t.
Proof.
  intros Hwf. rewrite <- length_nodes by auto. f_equal. unfold contents.
  rewrite <- length_map_to_list, map_to_list_to_map; [by rewrite length_fmap|].
  rewrite <- list_fmap_compose. apply nodes_keys_NoDup, Hwf.
Qed.

End Table.
