(* ===== verification/SimpleMapSpec.v ===== *)
(** * The hash map refines a finite map

    The invariant of a map in both of its states (at rest, and with a resize in
    progress), and the theorems that its operations are those of a finite map.
    The bounds exclude the last two primes of the table, on which [next_slot]
    would overflow. *)
From Stdlib Require Import Znumtheory.
From S2P Require Import Prelude Numbers PointerArray SimpleMap SimpleMapTable.

(** ** The table of primes *)

(** The entries below [2^31] are primes; the fill limit is seven tenths; and each
    is large enough to take the nodes of its predecessor, and one more for every
    256 slots moved, without reaching its own limit. *)
Definition entry_check (i : Z) : bool :=
  let n := prime_at i in
  trial_check n && (3 <=? n) && (n <? 2 ^ 31) && (times_density n =? 7 * n / 10)
  && (choose_prime 31 i (n + 1) =? i + 1)
  && (257 * n <? 256 * (7 * prime_at (i + 1) / 10)).

Lemma entries_checked : forallb entry_check (seqZ 0 28) = true.
Proof. vm_compute. reflexivity. Qed.

Lemma entry_checked i : 0 <= i <= 27 -> entry_check i = true.
Proof.
  intros Hi. apply (proj1 (forallb_forall _ _) entries_checked).
  apply list_elem_of_In, elem_of_seqZ. lia.
Qed.

Lemma last_entry_checked :
  trial_check (prime_at 28) && (times_density (prime_at 28) =? 7 * prime_at 28 / 10) = true.
Proof. vm_compute. reflexivity. Qed.

Lemma entry_facts i :
  0 <= i <= 28 -> good_size (prime_at i) /\ times_density (prime_at i) = 7 * prime_at i / 10.
Proof.
  intros Hi. destruct (Z.eq_dec i 28) as [->|N].
  - pose proof last_entry_checked as E. apply andb_prop in E as [E1 E2]. split.
    + split; [apply trial_check_prime, E1|]. vm_compute. split; congruence.
    + apply Z.eqb_eq, E2.
  - pose proof (entry_checked i ltac:(lia)) as E.
    unfold entry_check in E. rewrite !andb_true_iff, !Z.eqb_eq, Z.leb_le, !Z.ltb_lt in E.
    destruct E as [[[[[E1 E2] E3] E4] E5] E6]. split; [|exact E4].
    split; [apply trial_check_prime, E1|lia].
Qed.

Lemma next_entry_facts i :
  0 <= i <= 27 ->
  choose_prime (Z.to_nat __ac_HASH_PRIME_SIZE) i (prime_at i + 1) = i + 1
  /\ prime_at i < 2 ^ 31 /\ 257 * prime_at i < 256 * (7 * prime_at (i + 1) / 10).
Proof.
  intros Hi. pose proof (entry_checked i Hi) as E.
  unfold entry_check in E. rewrite !andb_true_iff, !Z.eqb_eq, Z.leb_le, !Z.ltb_lt in E.
  destruct E as [[[[[E1 E2] E3] E4] E5] E6]. auto.
Qed.

(** The number of operations after which a map on the last exact table could be
    full: the fill limit of [prime_at 27]. *)
Definition budget : Z := 7 * prime_at 27 / 10.

Section Spec.
Context {A K : Type} `{SimpleMapLaws A K} `{Countable K}.
Implicit Types (h s t : table A) (m : simple_map A) (a : A) (key : K).

(** ** The invariant of a map *)

(** The shadow holds part of the nodes of the table, and all those of the slots
    before [i]. *)
Definition moved h s (i : Z) : Prop :=
  (forall key a, has s key a -> has h key a)
  /\ (forall j a, in_range h j -> j < i -> node_at h j = Some a -> has s (key_of a) a).

(** [c] is the number of insertions that may still follow before the next step
    of the resize (1 in the middle of [put], 0 between operations). *)
Record at_rest (c : Z) m : Prop := {
  ar_prime : 0 <= prime (main m) <= 28;
  ar_n : n_buckets (main m) = prime_at (prime (main m));
  ar_dirty : n_dirty (main m) + c <= upper_bound (main m);
}.

Record resizing (c : Z) m : Prop := {
  rs_pos : 0 <= resize_position (main m) < n_buckets (main m);
  rs_batch : 256 <= batch (main m) < 2 ^ 32;
  rs_shadow : table_wf (shadow m);
  rs_prime : 0 <= prime (shadow m) <= 28;
  rs_n : n_buckets (shadow m) = prime_at (prime (shadow m));
  rs_upper : upper_bound (shadow m) = 7 * n_buckets (shadow m) / 10;
  rs_spos : resize_position (shadow m) = 0;
  rs_room : 257 * n_buckets (main m) < 256 * upper_bound (shadow m);
  rs_moved : moved (main m) (shadow m) (resize_position (main m));
  rs_sdirty : 256 * (n_dirty (shadow m) + c) <= 257 * resize_position (main m);
  rs_dirty : 256 * (n_dirty (main m) - upper_bound (main m) + c) <= resize_position (main m);
}.

Record map_inv (c : Z) m : Prop := {
  mi_main : table_wf (main m);
  mi_upper : upper_bound (main m) = 7 * n_buckets (main m) / 10;
  mi_state : (resize_position (main m) = 0 /\ at_rest c m) \/ (0 < resize_position (main m) /\ resizing c m);
}.

Definition map_wf m : Prop := map_inv 0 m.

(** The finite map a map stands for. *)
Definition map_contents m : gmap K A := contents (main m).

(** A full table can still grow to a size on which [next_slot] is exact. *)
Definition growable m : Prop := n_buckets (main m) <= prime_at 27.

(** After [k] insertions and [d] deletions: the dirty slots are at most the nodes
    plus the deletions, the tables are of an exact size. *)
Record within (k d : Z) m : Prop := {
  wi_d : 0 <= d;
  wi_main : n_dirty (main m) <= size (main m) + d;
  wi_shadow : n_dirty (shadow m) <= size (shadow m) + d;
  wi_size : size (main m) <= k;
  wi_n : n_buckets (main m) <= prime_at 27;
  wi_sn : n_buckets (shadow m) <= prime_at 27;
}.

Lemma pr_growth t a i f t1 t2 :
  put_result t a i f t1 t2 ->
  n_dirty t <= n_dirty t2 <= n_dirty t + 1
  /\ n_dirty t2 - size t2 <= n_dirty t - size t /\ size t <= size t2 <= size t + 1.
Proof. intros Hp. pose proof (pr_dirty _ _ _ _ _ _ Hp). pose proof (pr_size _ _ _ _ _ _ Hp). destruct f; lia. Qed.

Lemma size_dirty t : table_wf t -> size t <= n_dirty t.
Proof. intros Hw. rewrite (wf_size _ Hw), (wf_dirty _ Hw). apply count_mono. intros i _ ->. done. Qed.

Lemma main_dirty_lt c m : 0 <= c -> map_inv c m -> n_dirty (main m) + c < n_buckets (main m).
Proof.
  intros Hc [Hwf Hu Hst]. pose proof (wf_pos _ Hwf).
  assert (E : 7 * n_buckets (main m) / 10 < n_buckets (main m)) by zdiv_lia.
  destruct Hst as [[_ []]|[_ []]]; [lia|].
  assert (E' : 10 * upper_bound (main m) <= 7 * n_buckets (main m)) by (rewrite Hu; zdiv_lia). lia.
Qed.

Lemma shadow_dirty_lt c m :
  0 <= c -> resizing c m -> n_dirty (shadow m) + c < upper_bound (shadow m)
  /\ upper_bound (shadow m) < n_buckets (shadow m).
Proof.
  intros Hc []. pose proof (wf_pos _ rs_shadow0). split; [lia|].
  rewrite rs_upper0. zdiv_lia.
Qed.

Lemma wf_with_resize t pr cnt pos ba : table_wf t -> table_wf (with_resize t pr cnt pos ba).
Proof. intros []. split; assumption. Qed.

Lemma inv_weaken c c' m : c' <= c -> map_inv c m -> map_inv c' m.
Proof.
  intros Hc [Hwf Hu Hst]. split; auto. destruct Hst as [[Hp []]|[Hp []]]; [left|right].
  - split; [exact Hp|]. split; auto. lia.
  - split; [exact Hp|]. split; auto; lia.
Qed.

(** ** The resize loop *)

Lemma moved_put h s s' i a j f s1 :
  table_wf h -> moved h s i -> has h (key_of a) a -> put_result s a j f s1 s' -> moved h s' i.
Proof.
  intros Hh [M1 M2] Ha Hp. split.
  - intros key x Hx. apply (pr_has _ _ _ _ _ _ Hp) in Hx as [[-> ->]|[_ Hx]]; auto.
  - intros k x Hk Hlt Hx. apply (pr_has _ _ _ _ _ _ Hp).
    destruct (decide (key_of x = key_of a)) as [E|N]; [left|right; eauto].
    split; [exact E|]. apply (has_unique h (key_of a)); [auto|exists k; auto|auto].
Qed.

Lemma resize_loop_spec h fuel s i ba :
  table_wf h -> table_wf s -> moved h s i -> 0 <= i -> i + Z.of_nat fuel = n_buckets h ->
  0 <= ba < 2 ^ 32 -> n_dirty s + Z.of_nat fuel < n_buckets s ->
  exists s' stop, resize_loop fuel h s i ba = Done (s', stop) /\ table_wf s' /\ same_frame s s'
    /\ n_dirty s' - size s' <= n_dirty s - size s
    /\ match stop with
       | Some i' => i' = i + ba /\ i' < n_buckets h /\ moved h s' i' /\ n_dirty s' <= n_dirty s + ba
       | None => moved h s' (n_buckets h) /\ n_dirty s' <= n_dirty s + Z.of_nat fuel
       end.
Proof.
  intros Hh. revert s i ba. induction fuel as [|fuel IH]; intros s i ba Hs Hm Hi Hn Hb Hd.
  { exists s, None. replace (n_buckets h) with i by lia. split_and!; auto using same_frame_refl; lia. }
  cbn [resize_loop]. destruct (Z.eqb_spec ba 0) as [->|Nb].
  { exists s, (Some i). split_and!; auto using same_frame_refl; lia. }
  assert (Hir : in_range h i) by (unfold in_range; lia).
  rewrite (wrap_small 32 (ba - 1)) by lia.
  destruct (exist h i) eqn:He; cbn [negb].
  - rewrite node_at_exist in He by auto. apply bool_decide_eq_true in He as [a Ha].
    rewrite (node_at_node _ _ _ Ha). cbn [mbind outcome_bind].
    destruct (put_slot_result s a Hs ltac:(lia)) as (j & f & s1 & s2 & Hp).
    rewrite (pr_slot _ _ _ _ _ _ Hp). cbn [mbind outcome_bind]. rewrite <- (pr_set _ _ _ _ _ _ Hp).
    pose proof (wr_frame _ _ _ _ (pr_wrote _ _ _ _ _ _ Hp)) as Hf.
    pose proof (pr_growth _ _ _ _ _ _ Hp). assert (En : n_buckets s2 = n_buckets s) by apply Hf.
    assert (Hha : has h (key_of a) a) by (exists i; auto).
    assert (Hm' : moved h s2 (i + 1)).
    { pose proof (moved_put h s s2 i a j f s1 Hh Hm Hha Hp) as [M1 M2]. split; [exact M1|].
      intros k x Hk Hlt Hx. destruct (Z.eq_dec k i) as [->|]; [|apply (M2 k); auto; lia].
      apply (pr_has _ _ _ _ _ _ Hp). left. split; congruence. }
    destruct (IH s2 (i + 1) (ba - 1)) as (s' & stop & E & Hs' & Hf' & Hg' & Hst); auto; try lia.
    { apply (pr_wf _ _ _ _ _ _ Hp). }
    exists s', stop. split_and!; auto; [eapply same_frame_trans; eauto|lia|].
    destruct stop; destruct_and!; split_and!; auto; lia.
  - assert (Hm' : moved h s (i + 1)).
    { destruct Hm as [M1 M2]. split; [exact M1|]. intros k x Hk Hlt Hx.
      destruct (Z.eq_dec k i) as [->|]; [|apply (M2 k); auto; lia].
      rewrite node_at_exist, Hx in He by auto. discriminate. }
    destruct (IH s (i + 1) (ba - 1)) as (s' & stop & E & Hs' & Hf' & Hg' & Hst); auto; try lia.
    exists s', stop. split_and!; auto.
    destruct stop; destruct_and!; split_and!; auto; lia.
Qed.

Lemma moved_all_contents h s : table_wf h -> table_wf s -> moved h s (n_buckets h) -> contents s = contents h.
Proof.
  intros Hh Hs [M1 M2]. apply map_eq. intros key. apply option_eq. intros a.
  rewrite !contents_has by auto. split; [apply M1|].
  intros (i & Hi & Ha & <-). apply (M2 i); auto. apply Hi.
Qed.

(** One batch: the map keeps its contents, and there is room for one insertion. *)
Lemma resize_spec m :
  table_wf (main m) -> upper_bound (main m) = 7 * n_buckets (main m) / 10 -> resizing 0 m ->
  exists m', simple_map_resize m = Done m' /\ map_inv 1 m' /\ map_contents m' = map_contents m
    /\ forall k d, within k d m -> within k d m'.
Proof.
  intros Hwf Hu [R1 R2 R3 R4 R5 R6 R7 R8 R9 R10 R11]. unfold simple_map_resize.
  set (fuel := Z.to_nat _).
  assert (Hfuel : Z.of_nat fuel = n_buckets (main m) - resize_position (main m)) by (unfold fuel; lia).
  assert (Hub : upper_bound (shadow m) < n_buckets (shadow m)) by (pose proof (wf_pos _ R3); rewrite R6; zdiv_lia).
  destruct (resize_loop_spec (main m) fuel (shadow m) (resize_position (main m)) (batch (main m)))
    as (s & stop & E & Hs & [F1 F2 F3 F4 F5 F6] & Hgr & Hstop); auto; try lia.
  rewrite E. cbn [mbind outcome_bind]. destruct stop as [i|].
  - destruct Hstop as (-> & Hlt & Hm & Hd). eexists. split_and!; [reflexivity| |reflexivity|].
    + split; cbn; [by apply wf_with_resize|exact Hu|right]; split; [lia|].
      split; cbn; auto; try lia; try congruence.
    + intros k d []. split; cbn; auto; try lia; try congruence.
  - destruct Hstop as [Hm Hd].
    pose proof (moved_all_contents _ _ Hwf Hs Hm) as Hc.
    assert (Esz : size s = size (main m)).
    { rewrite <- (size_contents s), <- (size_contents (main m)), Hc by auto. reflexivity. }
    rewrite Esz, Z.eqb_refl. cbn [negb].
    eexists. split_and!; [reflexivity| |exact Hc|].
    + split; cbn; [by apply wf_with_resize|congruence|left]. split; [congruence|].
      split; cbn; [lia|congruence|lia].
    + intros k d []. split; cbn -[prime_at]; lia.
Qed.

Lemma prime_at_le_27 i : 0 <= i <= 28 -> prime_at i <= prime_at 27 -> i <= 27.
Proof.
  intros Hi Hp. destruct (Z.eq_dec i 28) as [->|]; [|lia]. vm_compute in Hp. destruct (Hp eq_refl).
Qed.

Lemma prime_at_mono i : 0 <= i <= 26 -> prime_at (i + 1) <= prime_at 27.
Proof.
  intros Hi. apply Z.leb_le. change (27) with (26 + 1).
  apply (proj1 (forallb_forall (fun i => prime_at (i + 1) <=? prime_at 27) (seqZ 0 27)) eq_refl).
  apply list_elem_of_In, elem_of_seqZ. lia.
Qed.

Lemma has_fresh n pr cnt pos ba key a : good_size n -> ~ has (fresh_table n pr cnt pos ba) key a.
Proof. intros Hn. apply absent_has, fresh_table_wf, Hn. Qed.

(** A full table starts a resize, and moves its first batch. *)
Lemma start_resize_spec m :
  map_wf m -> resize_position (main m) = 0 -> growable m -> upper_bound (main m) <= n_dirty (main m) ->
  exists m', simple_map_start_resize m (u32 (n_buckets (main m) + 1)) 0 = Done m'
    /\ map_inv 1 m' /\ map_contents m' = map_contents m
    /\ forall k d, k + d < budget -> within k d m -> within k d m'.
Proof.
  intros [Hwf Hu Hst] Hpos Hg Hfull. destruct Hst as [[_ [A1 A2 A3]]|[]]; [|lia].
  pose proof (wf_pos _ Hwf) as Hn. unfold growable in Hg. rewrite A2 in Hg.
  pose proof (prime_at_le_27 _ A1 Hg) as Hp.
  destruct (next_entry_facts (prime (main m)) ltac:(lia)) as (Hcp & _ & Hroom).
  destruct (entry_facts (prime (main m) + 1) ltac:(lia)) as [Hgood Hdens].
  unfold simple_map_start_resize. rewrite Hpos, wrap_small by lia.
  rewrite (proj2 (Z.ltb_ge (n_buckets (main m) + 1) _)) by lia. cbn [negb Z.eqb Z.gtb Z.compare].
  rewrite A2, Hcp. set (ba := if _ <? 256 then 256 else _).
  assert (Hba : 256 <= ba < 2 ^ 32).
  { rewrite A2 in Hn. unfold ba. case_match eqn:E; [lia|]. apply Z.ltb_ge in E. split; [lia|]. zdiv_lia. }
  destruct (fresh_table_wf (prime_at (prime (main m) + 1)) (prime (main m) + 1) (resize_cnt (main m)) 0 ba Hgood)
    as [Hs Hab]. set (s := fresh_table _ _ _ _ _) in *.
  destruct (resize_spec (SimpleMap (with_resize (main m) (prime (main m) + 1) (resize_cnt (main m)) 0 ba) s))
    as (m' & E & Hi & Hc & Hw).
  - by apply wf_with_resize.
  - exact Hu.
  - split; cbn; auto; try lia.
    split; [intros key a Hh; destruct (absent_has s key a); auto|unfold in_range; intros; lia].
  - exists m'. split_and!; auto. intros k d Hkd [W0 W1 W2 W3 W4 W5]. apply Hw.
    assert (H26 : prime (main m) <= 26).
    { destruct (Z.eq_dec (prime (main m)) 27) as [E27|]; [|lia].
      rewrite A2, E27 in Hu. fold budget in Hu. lia. }
    split; cbn -[prime_at]; try lia. apply prime_at_mono; lia.
Qed.

(** ** Insertion *)

Lemma moved_put_both h h' s s' i a x y f g h1 s1 :
  table_wf h -> moved h s i -> put_result h a x f h1 h' -> put_result s a y g s1 s' -> moved h' s' i.
Proof.
  intros Hh [M1 M2] Hph Hps. split.
  - intros key z Hz. apply (pr_has _ _ _ _ _ _ Hph). apply (pr_has _ _ _ _ _ _ Hps) in Hz as [|[]]; auto.
  - intros j z Hj Hlt Hz. apply (pr_has _ _ _ _ _ _ Hps).
    pose proof (pr_wrote _ _ _ _ _ _ Hph) as Hw. apply (wrote_range _ _ _ _ _ Hw) in Hj as Hj'.
    assert (Hhz : has h' (key_of z) z) by (exists j; auto).
    apply (pr_has _ _ _ _ _ _ Hph) in Hhz as [|[N _]]; [auto|right]. split; [exact N|].
    apply (M2 j); auto. rewrite <- (wr_other _ _ _ _ Hw); auto.
    intros ->. rewrite (wr_node _ _ _ _ Hw) in Hz. congruence.
Qed.

Lemma put_contents t a i f t1 t2 :
  table_wf t -> put_result t a i f t1 t2 -> contents t2 = <[key_of a := a]> (contents t).
Proof.
  intros Hwf Hp. apply map_eq. intros key. apply option_eq. intros x.
  rewrite contents_has by apply Hp. rewrite (pr_has _ _ _ _ _ _ Hp), lookup_insert_Some, contents_has by auto.
  intuition congruence.
Qed.

Lemma put_replaced t a i f t1 t2 :
  table_wf t -> put_result t a i f t1 t2 ->
  (if f then a' ← node t1 i; Done (Some a') else Done None) = Done (contents t !! key_of a).
Proof.
  intros Hwf Hp. destruct f.
  - destruct (pr_found _ _ _ _ _ _ Hp eq_refl) as (x & -> & Hx). cbn. f_equal. symmetry. by apply contents_has.
  - f_equal. symmetry. apply contents_absent, Hp; auto.
Qed.

(** The step before the insertion leaves room for it. *)
Lemma put_prepare m :
  map_wf m -> growable m ->
  exists m1, (if resize_position (main m) >? 0 then simple_map_resize m
       else if n_dirty (main m) >=? upper_bound (main m)
       then simple_map_start_resize m (u32 (n_buckets (main m) + 1)) 0 else Done m) = Done m1
    /\ map_inv 1 m1 /\ map_contents m1 = map_contents m
    /\ forall k d, k + d < budget -> within k d m -> within k d m1.
Proof.
  intros Hm Hg. pose proof Hm as [Hwf Hu [[Hp [A1 A2 A3]]|[Hp Hr]]].
  - rewrite Hp. cbn [Z.gtb Z.compare]. destruct (Z.geb_spec (n_dirty (main m)) (upper_bound (main m))).
    + apply start_resize_spec; auto.
    + exists m. split_and!; auto. split; auto. left. split; [exact Hp|]. split; auto. lia.
  - destruct (Z.gtb_spec (resize_position (main m)) 0); [|lia].
    destruct (resize_spec m) as (m1 & ? & ? & ? & ?); auto. exists m1. auto.
Qed.

Lemma put_shadow_spec m a :
  resizing 1 m -> exists y g s1 s', put_result (shadow m) a y g s1 s' /\ put_shadow (shadow m) a = Done s'.
Proof.
  intros Hr. destruct (shadow_dirty_lt 1 m ltac:(lia) Hr) as [Hlt Hn].
  destruct (put_slot_result (shadow m) a (rs_shadow _ _ Hr) ltac:(lia)) as (y & g & s1 & s' & Hp).
  exists y, g, s1, s'. split; [exact Hp|]. unfold put_shadow.
  pose proof (size_dirty _ (rs_shadow _ _ Hr)). rewrite (proj2 (Z.ltb_lt (size (shadow m)) (n_buckets (shadow m)))) by lia. cbn [negb].
  destruct (Z.geb_spec (n_dirty (shadow m)) (upper_bound (shadow m))); [lia|].
  rewrite (pr_slot _ _ _ _ _ _ Hp). cbn. rewrite (pr_set _ _ _ _ _ _ Hp). reflexivity.
Qed.

Lemma put_main_inv m a x f h1 h' s' :
  map_inv 1 m -> put_result (main m) a x f h1 h' ->
  (resize_position (main m) = 0 \/ exists y g s1, put_result (shadow m) a y g s1 s') ->
  map_wf (SimpleMap h' s').
Proof.
  intros [Hwf Hu Hst] Hp Hs.
  pose proof (pr_growth _ _ _ _ _ _ Hp).
  destruct (wr_frame _ _ _ _ (pr_wrote _ _ _ _ _ _ Hp)) as [F1 F2 F3 F4 F5 F6].
  split; cbn; [apply Hp|congruence|]. rewrite F5.
  destruct Hst as [[Hz []]|[Hz Hr]]; [left|right]; (split; [exact Hz|]).
  - split; cbn; [lia|congruence|lia].
  - destruct Hs as [|(y & g & s1 & Hps)]; [lia|]. pose proof (pr_growth _ _ _ _ _ _ Hps).
    pose proof (moved_put_both _ _ _ _ _ _ _ _ _ _ _ _ Hwf (rs_moved _ _ Hr) Hp Hps) as Hm.
    destruct (wr_frame _ _ _ _ (pr_wrote _ _ _ _ _ _ Hps)) as [G1 G2 G3 G4 G5 G6]. destruct Hr.
    split; cbn; rewrite ?F5; auto; try lia; try congruence. apply Hps.
Qed.

Lemma put_spec m a :
  map_wf m -> growable m ->
  exists x m', simple_map_put m a = Done (x, map_contents m !! key_of a, m')
    /\ map_wf m' /\ map_contents m' = <[key_of a := a]> (map_contents m)
    /\ node_at (main m') x = Some a
    /\ forall k d, k + d < budget -> within k d m -> within (k + 1) d m'.
Proof.
  intros Hm Hg. unfold simple_map_put.
  pose proof (main_dirty_lt 0 m ltac:(lia) Hm). pose proof (size_dirty _ (mi_main _ _ Hm)).
  rewrite (proj2 (Z.ltb_lt (size (main m)) (n_buckets (main m)))) by lia. cbn [negb].
  destruct (put_prepare m Hm Hg) as (m1 & -> & Hi & <- & Hw). rewrite bind_done.
  pose proof (mi_main _ _ Hi) as Hwf. pose proof (main_dirty_lt 1 m1 ltac:(lia) Hi).
  destruct (put_slot_result (main m1) a Hwf ltac:(lia)) as (x & f & h1 & h' & Hp).
  assert (Hs : exists s', (if negb (resize_position (main m1) =? 0) then put_shadow (shadow m1) a
      else Done (shadow m1)) = Done s'
    /\ (resize_position (main m1) = 0 \/ exists y g s1, put_result (shadow m1) a y g s1 s')
    /\ n_dirty s' - size s' <= n_dirty (shadow m1) - size (shadow m1) /\ n_buckets s' = n_buckets (shadow m1)).
  { destruct (Z.eqb_spec (resize_position (main m1)) 0) as [E|N]; cbn [negb].
    { exists (shadow m1). split_and!; auto. lia. }
    destruct (mi_state _ _ Hi) as [[]|[_ Hr]]; [lia|].
    destruct (put_shadow_spec m1 a Hr) as (y & g & s1 & s' & Hps & E). exists s'.
    pose proof (pr_growth _ _ _ _ _ _ Hps). split_and!; [exact E|eauto|lia|].
    apply (wr_frame _ _ _ _ (pr_wrote _ _ _ _ _ _ Hps)). }
  destruct Hs as (s' & -> & Hs & Hgs & Hns).
  rewrite bind_done, (pr_slot _ _ _ _ _ _ Hp), bind_done. cbn beta iota.
  rewrite (put_replaced _ _ _ _ _ _ Hwf Hp), bind_done.
  rewrite <- (pr_set _ _ _ _ _ _ Hp). exists x, (SimpleMap h' s'). split_and!; [reflexivity| | |apply Hp|].
  - eapply put_main_inv; eauto.
  - eapply put_contents; eauto.
  - intros k d Hkd Hin. apply Hw in Hin as []; [|exact Hkd]. pose proof (pr_growth _ _ _ _ _ _ Hp).
    destruct (wr_frame _ _ _ _ (pr_wrote _ _ _ _ _ _ Hp)). split; cbn; lia.
Qed.

(** ** Deletion *)

Lemma moved_del h h' s i j a :
  table_wf h -> moved h s i -> in_range h j -> del_result h j a h' ->
  forall s', (forall key x, has s' key x <-> key <> key_of a /\ has s key x) -> moved h' s' i.
Proof.
  intros Hh [M1 M2] Hj Hd s' Hs. pose proof (dr_frame _ _ _ _ Hd) as [F1 F2 F3 F4 F5 F6]. split.
  - intros key x Hx. apply (dr_has _ _ _ _ Hd). apply Hs in Hx as []. auto.
  - intros k x Hk Hlt Hx. unfold in_range in Hk. rewrite F1 in Hk.
    assert (Hkj : k <> j) by (intros ->; rewrite (dr_node _ _ _ _ Hd) in Hx; discriminate).
    assert (Hh' : has h' (key_of x) x).
    { exists k. split_and!; auto. unfold in_range. rewrite F1. exact Hk. }
    apply (dr_has _ _ _ _ Hd) in Hh' as [N _]. apply Hs. split; [exact N|].
    apply (M2 k); auto. rewrite <- (dr_other _ _ _ _ Hd); auto.
Qed.

(** The deletion of a key from the shadow, whether it got there or not. *)
Lemma del_shadow_spec s a :
  table_wf s -> n_dirty s < n_buckets s ->
  exists s', (y ← simple_map_get s a; del_shadow s y) = Done s' /\ table_wf s' /\ same_frame s s'
    /\ (forall key x, has s' key x <-> key <> key_of a /\ has s key x)
    /\ n_dirty s' <= n_dirty s /\ size s - 1 <= size s'.
Proof.
  intros Hs Hd. destruct (get_spec s a Hs Hd) as [(j & x & Hj & Hx & Hk & ->)|[Hab ->]];
    rewrite bind_done; unfold del_shadow.
  - destruct (Z.eqb_spec j (n_buckets s)); [unfold in_range in Hj; lia|].
    rewrite node_at_exist, Hx by auto. cbn [bool_decide].
    pose proof (del_slot_result s j x Hs Hj Hx) as Hr. exists (del_slot s j).
    rewrite bool_decide_true by eauto. rewrite <- Hk. pose proof (dr_size _ _ _ _ Hr).
    split_and!; try apply Hr; [reflexivity|lia].
  - rewrite Z.eqb_refl. exists s. split_and!; auto using same_frame_refl; try lia.
    intros key x. split; [|tauto]. intros Hh. split; [|exact Hh]. intros ->. exact (absent_has _ _ _ Hab Hh).
Qed.

Lemma del_contents t i a t' : table_wf t -> del_result t i a t' -> contents t' = delete (key_of a) (contents t).
Proof.
  intros Hwf Hd. apply map_eq. intros key. apply option_eq. intros x.
  rewrite contents_has by apply Hd. rewrite (dr_has _ _ _ _ Hd), lookup_delete_Some, contents_has by auto.
  intuition congruence.
Qed.

Lemma del_spec m i a :
  map_wf m -> in_range (main m) i -> node_at (main m) i = Some a ->
  exists m', simple_map_del m i = Done m' /\ map_wf m'
    /\ map_contents m' = delete (key_of a) (map_contents m)
    /\ forall k d, within k d m -> within k (d + 1) m'.
Proof.
  intros [Hwf Hu Hst] Hi Ha. unfold simple_map_del. unfold in_range in Hi.
  rewrite (proj2 (Z.eqb_neq i _)), (proj2 (Z.leb_le 0 i)), (proj2 (Z.ltb_lt i _)) by lia. cbn [andb negb].
  rewrite node_at_exist, Ha by auto. rewrite bool_decide_true by eauto. cbn [negb main shadow].
  pose proof (del_slot_result (main m) i a Hwf Hi Ha) as Hd.
  pose proof (dr_frame _ _ _ _ Hd) as [F1 F2 F3 F4 F5 F6].
  pose proof (dr_dirty _ _ _ _ Hd). pose proof (dr_size _ _ _ _ Hd).
  rewrite F5. destruct Hst as [[Hz [A1 A2 A3]]|[Hz Hr]].
  - rewrite Hz. cbn [Z.eqb negb]. eexists. split_and!; [reflexivity| |by eapply del_contents|].
    + split; cbn [main]; [apply Hd|congruence|left]. split; [congruence|].
      split; cbn [main]; [lia|congruence|lia].
    + intros k d []. split; cbn [main shadow]; lia.
  - rewrite (proj2 (Z.eqb_neq _ 0)) by lia. cbn [negb]. unfold del_resize. cbn [main shadow].
    unfold node. rewrite (dr_p _ _ _ _ Hd). pose proof (node_at_node _ _ _ Ha) as Hna. unfold node in Hna.
    rewrite Hna, bind_done. destruct (shadow_dirty_lt 0 m ltac:(lia) Hr) as [D1 D2].
    destruct (del_shadow_spec (shadow m) a (rs_shadow _ _ Hr) ltac:(lia))
      as (s' & E & Hs' & [G1 G2 G3 G4 G5 G6] & Hhas & Hds & Hss).
    apply outcome_bind_done in E as (y & -> & E). rewrite bind_done, E, bind_done.
    pose proof (moved_del _ _ _ _ i a Hwf (rs_moved _ _ Hr) Hi Hd s' Hhas) as Hm.
    destruct (resize_spec (SimpleMap (del_slot (main m) i) s')) as (m' & Em & Hi' & Hc & Hw).
    + apply Hd.
    + cbn [main]. congruence.
    + destruct Hr. split; cbn [main shadow]; rewrite ?F5; auto; try lia; congruence.
    + exists m'. split_and!; [exact Em|by apply (inv_weaken 1); [lia|]| |].
      * rewrite Hc. by eapply del_contents.
      * intros k d []. apply Hw. split; cbn [main shadow]; lia.
Qed.

Lemma remove_spec m a :
  map_wf m ->
  exists m', simple_map_remove m a = Done m' /\ map_wf m'
    /\ map_contents m' = delete (key_of a) (map_contents m)
    /\ forall k d, within k d m -> within k (d + 1) m'.
Proof.
  intros Hm. pose proof (main_dirty_lt 0 m ltac:(lia) Hm). pose proof (mi_main _ _ Hm) as Hwf.
  unfold simple_map_remove.
  destruct (get_spec (main m) a Hwf ltac:(lia)) as [(j & x & Hj & Hx & <- & ->)|[Hab ->]]; rewrite bind_done.
  - rewrite (proj2 (Z.eqb_neq j _)) by (unfold in_range in Hj; lia). cbn [negb]. apply del_spec; auto.
  - rewrite Z.eqb_refl. cbn [negb]. exists m. split_and!; auto.
    + rewrite delete_id; [reflexivity|]. apply contents_absent; auto.
    + intros k d []. split; lia.
Qed.

(** ** Lookup *)

Lemma find_value_spec m key : map_wf m -> simple_map_find_value m key = Done (map_contents m !! key).
Proof.
  intros Hm. pose proof (main_dirty_lt 0 m ltac:(lia) Hm). pose proof (mi_main _ _ Hm) as Hwf.
  unfold simple_map_find_value, map_contents.
  destruct (find_spec (main m) key Hwf ltac:(lia)) as [(j & x & Hj & Hx & Hk & ->)|[Hab ->]]; rewrite bind_done.
  - rewrite (proj2 (Z.eqb_neq j _)) by (unfold in_range in Hj; lia). cbn [negb].
    rewrite (node_at_node _ _ _ Hx), bind_done. f_equal. symmetry. apply contents_has; auto. exists j. auto.
  - rewrite Z.eqb_refl. cbn [negb]. f_equal. symmetry. apply contents_absent; auto.
Qed.

(** ** The empty map *)

Lemma new_spec : map_wf (simple_map_new (A := A)) /\ map_contents (simple_map_new (A := A)) = ∅
  /\ within 0 0 (simple_map_new (A := A)).
Proof.
  destruct (entry_facts 0 ltac:(lia)) as [Hgood Hdens].
  destruct (fresh_table_wf (A := A) (prime_at 0) 0 0 0 0 Hgood) as [Hwf Hab]. split_and!.
  - split; [exact Hwf|exact Hdens|left]. split; [reflexivity|].
    split; cbn [main simple_map_new prime n_buckets n_dirty upper_bound]; [lia|reflexivity|].
    rewrite Hdens. vm_compute. discriminate.
  - apply map_empty. intros key. apply contents_absent; auto.
  - split; vm_compute; discriminate.
Qed.

End Spec.
