(* ===== verification/Maps.v ===== *)
(** * The maps of the runtime ([core/native/collections/maps.h], [transport/maps.h])

    The interface a map promises to its users, the instantiations of the
    [simple.h] template, and the proof that each of them keeps the promise. *)
From stdpp Require Import strings.
From S2P Require Import Prelude PointerArray SimpleMap SimpleMapTable SimpleMapSpec.

(** ** The interface

    Operations on nodes [A] with keys [K], and their meaning as a finite map.
    [map_room m n] says that [m] takes [n] more operations. *)

Class MapOps (M A K : Type) := {
  map_new : M;
  map_put : M -> A -> outcome (Z * option A * M);
  map_remove : M -> A -> outcome M;
  map_find : M -> K -> outcome (option A);
  map_slot : M -> K -> outcome Z;
  map_end : M -> Z;
  map_node : M -> Z -> outcome A;
  map_del : M -> Z -> outcome M;
  map_values : M -> outcome (list A);
  map_size : M -> Z;
}.

Class MapLaws (M A K : Type) `{MapOps M A K, Countable K} := {
  map_key : A -> K;
  map_valid : M -> Prop;
  map_room : M -> Z -> Prop;
  map_capacity : Z;
  map_abs : M -> gmap K A;
  map_new_valid : map_valid map_new;
  map_new_room : map_room map_new map_capacity;
  map_new_abs : map_abs map_new = ∅;
  map_put_ok m a n : map_valid m -> map_room m n -> 0 < n -> exists x m',
    map_put m a = Done (x, map_abs m !! map_key a, m')
    /\ map_valid m' /\ map_room m' (n - 1) /\ map_abs m' = <[map_key a := a]> (map_abs m);
  map_remove_ok m a n : map_valid m -> map_room m n -> exists m',
    map_remove m a = Done m' /\ map_valid m' /\ map_room m' (n - 1)
    /\ map_abs m' = delete (map_key a) (map_abs m);
  map_find_ok m k : map_valid m -> map_find m k = Done (map_abs m !! k);
  map_slot_ok m k n : map_valid m -> map_room m n ->
    (map_slot m k = Done (map_end m) /\ map_abs m !! k = None)
    \/ exists i a m', map_slot m k = Done i /\ i <> map_end m /\ map_node m i = Done a
         /\ map_abs m !! k = Some a /\ map_del m i = Done m' /\ map_valid m' /\ map_room m' (n - 1)
         /\ map_abs m' = delete k (map_abs m);
  map_values_ok m : map_valid m -> exists l,
    map_values m = Done l /\ l ≡ₚ (map_to_list (map_abs m)).*2;
  map_size_ok m : map_valid m -> map_size m = Z.of_nat (base.size (map_abs m));
}.

(** ** Iteration *)

Section Foreach.
Context {A K : Type} `{SimpleMapLaws A K} `{Countable K}.
Implicit Types (t : table A) (m : simple_map A).

Lemma scan_fuel F F' t i :
  n_buckets t - i <= Z.of_nat F -> n_buckets t - i <= Z.of_nat F' -> scan F t i = scan F' t i.
Proof.
  revert F' i. induction F as [|F IH]; intros F' i HF HF'.
  - destruct F'; cbn; [reflexivity|]. rewrite (proj2 (Z.ltb_ge _ _)) by lia. reflexivity.
  - destruct F'; cbn; [rewrite (proj2 (Z.ltb_ge _ _)) by lia; reflexivity|].
    case_match; [|reflexivity]. case_match; [reflexivity|]. apply IH; lia.
Qed.

Lemma scan_end F t i : n_buckets t <= i -> scan F t i = i.
Proof. destruct F; cbn; [reflexivity|]. intros. rewrite (proj2 (Z.ltb_ge _ _)) by lia. reflexivity. Qed.

Lemma scan_step F t i :
  i < n_buckets t -> n_buckets t - i <= Z.of_nat F ->
  scan F t i = if exist t i then i else scan F t (i + 1).
Proof.
  intros Hi HF. rewrite (scan_fuel F (S F)) by lia. cbn [scan].
  rewrite (proj2 (Z.ltb_lt _ _)) by lia. reflexivity.
Qed.

(** [simple_map_foreach] visits every occupied slot once, in order. *)
Lemma foreach_slots t :
  0 <= n_buckets t -> simple_map_foreach t = filter (fun i => exist t i = true) (seqZ 0 (n_buckets t)).
Proof.
  intros Hn. unfold simple_map_foreach, simple_map_first.
  assert (HN : Z.of_nat (fuel_of t) = n_buckets t) by (unfold fuel_of; lia).
  replace (seqZ 0 (n_buckets t)) with (seqZ 0 (n_buckets t - 0)) by (f_equal; lia).
  assert (G : forall d fuel i, 0 <= i -> n_buckets t - i = Z.of_nat d -> (d < fuel)%nat ->
    foreach_from fuel t (scan (fuel_of t) t i) = filter (fun i => exist t i = true) (seqZ i (n_buckets t - i)));
    [|apply (G (fuel_of t)); lia].
  induction d as [|d IH]; intros fuel i Hi Hd Hf.
  - rewrite scan_end by lia. destruct fuel; [lia|]. cbn. rewrite (proj2 (Z.ltb_ge _ _)), Hd by lia. reflexivity.
  - rewrite scan_step by lia. rewrite seqZ_cons by lia.
    replace (Z.pred (n_buckets t - i)) with (n_buckets t - (i + 1)) by lia. rewrite filter_cons.
    replace (Z.succ i) with (i + 1) by lia. destruct (exist t i) eqn:E.
    + rewrite decide_True by reflexivity. destruct fuel as [|fuel]; [lia|]. cbn [foreach_from].
      rewrite (proj2 (Z.ltb_lt _ _)) by lia. f_equal. unfold simple_map_next.
      rewrite (proj2 (Z.ltb_lt _ _)) by lia. apply IH; lia.
    + rewrite decide_False by discriminate. apply IH; lia.
Qed.

(** The nodes at a list of slots, read one after the other. *)
Fixpoint read_nodes t (slots : list Z) : outcome (list A) :=
  match slots with
  | [] => Done []
  | i :: slots => a ← node t i; l ← read_nodes t slots; Done (a :: l)
  end.

Lemma read_nodes_foreach t :
  table_wf t -> read_nodes t (simple_map_foreach t) = Done (nodes t).
Proof.
  intros Hwf. pose proof (wf_pos t Hwf). rewrite foreach_slots by lia. unfold nodes.
  assert (Hl : forall i, i ∈ seqZ 0 (n_buckets t) -> in_range t i).
  { intros i. rewrite elem_of_seqZ. unfold in_range. lia. }
  revert Hl. generalize (seqZ 0 (n_buckets t)) as l. induction l as [|i l IH]; intros Hl; [reflexivity|].
  rewrite filter_cons. cbn [omap list_omap].
  specialize (IH ltac:(intros; apply Hl; set_solver)).
  pose proof (node_at_exist t i Hwf ltac:(apply Hl; set_solver)) as E.
  destruct (node_at t i) as [a|] eqn:Ha.
  - rewrite decide_True by (rewrite E; reflexivity). cbn [read_nodes].
    rewrite (node_at_node _ _ _ Ha), bind_done, IH, bind_done. reflexivity.
  - rewrite decide_False by (rewrite E; discriminate). exact IH.
Qed.

Lemma nodes_values t : table_wf t -> nodes t ≡ₚ (map_to_list (contents t)).*2.
Proof.
  intros Hwf. unfold contents. rewrite map_to_list_to_map.
  - rewrite <- list_fmap_compose. cbn. by rewrite list_fmap_id.
  - rewrite <- list_fmap_compose. apply nodes_keys_NoDup, Hwf.
Qed.

(** ** The template keeps the promise of the interface *)

#[export] Instance simple_map_ops : MapOps (simple_map A) A K := {
  map_new := simple_map_new;
  map_put := simple_map_put;
  map_remove := simple_map_remove;
  map_find := simple_map_find_value;
  map_slot m := simple_map_find (main m);
  map_end m := n_buckets (main m);
  map_node m := node (main m);
  map_del := simple_map_del;
  map_values m := read_nodes (main m) (simple_map_foreach (main m));
  map_size m := size (main m);
}.

#[export] Program Instance simple_map_laws : MapLaws (simple_map A) A K := {
  map_key := key_of;
  map_valid := map_wf;
  map_room m n := exists k d, within k d m /\ k + d + n <= budget;
  map_capacity := budget;
  map_abs := map_contents;
}.
Next Obligation. apply new_spec. Qed.
Next Obligation. exists 0, 0. split; [apply new_spec|lia]. Qed.
Next Obligation. apply new_spec. Qed.
Next Obligation.
  intros m a n Hm (k & d & Hw & Hb) Hn. destruct (put_spec m a Hm (wi_n _ _ _ Hw)) as (x & m' & ? & ? & ? & _ & Hw').
  exists x, m'. split_and!; auto. exists (k + 1), d. split; [apply Hw'; [lia|exact Hw]|lia].
Qed.
Next Obligation.
  intros m a n Hm (k & d & Hw & Hb). destruct (remove_spec m a Hm) as (m' & ? & ? & ? & Hw').
  exists m'. split_and!; auto. exists k, (d + 1). split; [apply Hw', Hw|lia].
Qed.
Next Obligation. intros m k Hm. apply find_value_spec, Hm. Qed.
Next Obligation.
  intros m k n Hm (kk & d & Hw & Hb). pose proof (main_dirty_lt 0 m ltac:(lia) Hm). pose proof (mi_main _ _ Hm) as Hwf.
  cbn [map_slot map_end map_node map_del simple_map_ops].
  destruct (find_spec (main m) k Hwf ltac:(lia)) as [(i & a & Hi & Ha & Hk & E)|[Hab E]]; [right|left].
  - destruct (del_spec m i a Hm Hi Ha) as (m' & Ed & Hm' & Hc & Hw'). exists i, a, m'.
    split_and!; auto using node_at_node; [unfold in_range in Hi; lia| | |by rewrite <- Hk].
    + apply contents_has; [exact Hwf|exists i; auto].
    + exists kk, (d + 1). split; [apply Hw', Hw|lia].
  - split; [exact E|]. apply contents_absent; auto.
Qed.
Next Obligation.
  intros m Hm. exists (nodes (main m)). split; [apply read_nodes_foreach|apply nodes_values]; apply Hm.
Qed.
Next Obligation. intros m Hm. symmetry. apply size_contents, Hm. Qed.

End Foreach.

(** ** Maps keyed by strings

    [hash_string_64] is the hash of [hashing_64.h]. *)
Section StringMaps.
Context (hash_string_64 : string -> Z).

Record module_container := ModuleContainer {
  mc_id : Z;
  mc_name : string;
  mc_module : Z;
  mc_type : string;
}.

#[export] Instance module_container_node : SimpleMapNode module_container string := {
  simple_map_hash node := hash_string_64 (mc_name node);
  simple_map_hash_key key := hash_string_64 key;
  simple_map_cmp left right := negb (String.eqb (mc_name left) (mc_name right));
  simple_map_cmp_key key node := negb (String.eqb key (mc_name node));
}.

#[export] Program Instance module_container_laws : SimpleMapLaws module_container string := {
  key_of := mc_name;
}.
Next Obligation. reflexivity. Qed.
Next Obligation. intros a b. cbn. by rewrite negb_false_iff, String.eqb_eq. Qed.
Next Obligation. intros k a. cbn. by rewrite negb_false_iff, String.eqb_eq. Qed.

(** The nodes of [_system_libraries] are pointers to libraries: [sl_address] is the
    pointer, the other fields what it points to. *)
Record system_library := SystemLibrary {
  sl_address : Z;
  sl_path : string;
  sl_module : string;
  sl_handle : Z;
}.

#[export] Instance system_library_node : SimpleMapNode system_library string := {
  simple_map_hash node := hash_string_64 (sl_path node);
  simple_map_hash_key key := hash_string_64 key;
  simple_map_cmp left right := negb (String.eqb (sl_path left) (sl_path right));
  simple_map_cmp_key key node := negb (String.eqb key (sl_path node));
}.

#[export] Program Instance system_library_laws : SimpleMapLaws system_library string := {
  key_of := sl_path;
}.
Next Obligation. reflexivity. Qed.
Next Obligation. intros a b. cbn. by rewrite negb_false_iff, String.eqb_eq. Qed.
Next Obligation. intros k a. cbn. by rewrite negb_false_iff, String.eqb_eq. Qed.

(** The nodes of [_string_values], and of [_string_value_pointers] behind a pointer;
    [V] is what the untyped value is. *)
Record string_value_pair (V : Type) := StringValuePair { sv_key : string; sv_value : V }.
#[global] Arguments StringValuePair {V}.
#[global] Arguments sv_key {V}.
#[global] Arguments sv_value {V}.
Context {V : Type}.

#[export] Instance string_value_pair_node : SimpleMapNode (string_value_pair V) string := {
  simple_map_hash node := hash_string_64 (sv_key node);
  simple_map_hash_key key := hash_string_64 key;
  simple_map_cmp left right := negb (String.eqb (sv_key left) (sv_key right));
  simple_map_cmp_key key node := negb (String.eqb key (sv_key node));
}.

#[export] Program Instance string_value_pair_laws : SimpleMapLaws (string_value_pair V) string := {
  key_of := sv_key;
}.
Next Obligation. reflexivity. Qed.
Next Obligation. intros a b. cbn. by rewrite negb_false_iff, String.eqb_eq. Qed.
Next Obligation. intros k a. cbn. by rewrite negb_false_iff, String.eqb_eq. Qed.

End StringMaps.

(** ** The map of pending transport events, keyed by their data *)

Record simple_map_transport_event := TransportEvent {
  te_data : Z;
  te_timeout : Z;
  te_timestamp : Z;
  te_fd : Z;
}.

#[export] Instance transport_event_node : SimpleMapNode simple_map_transport_event Z := {
  simple_map_hash a := te_data a;
  simple_map_hash_key key := key;
  simple_map_cmp a b := negb (te_data a =? te_data b);
  simple_map_cmp_key key b := negb (key =? te_data b);
}.

#[export] Program Instance transport_event_laws : SimpleMapLaws simple_map_transport_event Z := {
  key_of := te_data;
}.
Next Obligation. reflexivity. Qed.
Next Obligation. intros a b. cbn. by rewrite negb_false_iff, Z.eqb_eq. Qed.
Next Obligation. intros k a. cbn. by rewrite negb_false_iff, Z.eqb_eq. Qed.
