(* ===== verification/SimpleMapTheorems.v ===== *)
(** * The properties of the hash map

    Each operation, in any state of the incremental resize, is the operation of
    a finite map; a whole run from the empty map neither aborts nor faults; the
    iteration visits every node once; and what [clear] leaves behind. *)
From S2P Require Import Prelude PointerArray SimpleMap SimpleMapTable SimpleMapSpec Maps.

(** ** Runs of operations *)

Section Run.
Context {A K : Type} `{SimpleMapLaws A K} `{Countable K}.
Implicit Types (m : simple_map A) (a : A) (key : K).

Inductive operation :=
| OpPut (a : A)
| OpRemove (a : A)
| OpFind (key : K).

(** The answer of an operation: the replaced node, none, the found node. *)
Definition run_op m (o : operation) : outcome (option A * simple_map A) :=
  match o with
  | OpPut a => '(_, replaced, m) ← simple_map_put m a; Done (replaced, m)
  | OpRemove a => m ← simple_map_remove m a; Done (None, m)
  | OpFind key => found ← simple_map_find_value m key; Done (found, m)
  end.

Fixpoint run_ops m (l : list operation) : outcome (list (option A) * simple_map A) :=
  match l with
  | [] => Done ([], m)
  | o :: l =>
      '(answer, m) ← run_op m o;
      '(answers, m) ← run_ops m l;
      Done (answer :: answers, m)
  end.

(** The same on finite maps. *)
Definition spec_op (g : gmap K A) (o : operation) : option A * gmap K A :=
  match o with
  | OpPut a => (g !! key_of a, <[key_of a := a]> g)
  | OpRemove a => (None, delete (key_of a) g)
  | OpFind key => (g !! key, g)
  end.

Fixpoint spec_ops (g : gmap K A) (l : list operation) : list (option A) * gmap K A :=
  match l with
  | [] => ([], g)
  | o :: l =>
      let (answer, g) := spec_op g o in
      let (answers, g) := spec_ops g l in (answer :: answers, g)
  end.

Lemma run_op_spec m o k d :
  map_wf m -> within k d m -> k + d < budget ->
  exists m', run_op m o = Done (fst (spec_op (map_contents m) o), m') /\ map_wf m'
    /\ map_contents m' = snd (spec_op (map_contents m) o)
    /\ exists k' d', within k' d' m' /\ k' + d' <= k + d + 1.
Proof.
  intros Hm Hw Hkd. destruct o as [a|a|key]; cbn [run_op spec_op fst snd].
  - destruct (put_spec m a Hm (wi_n _ _ _ Hw)) as (x & m' & -> & Hm' & Hc & _ & Hw').
    exists m'. split_and!; auto. exists (k + 1), d. split; [auto|lia].
  - destruct (remove_spec m a Hm) as (m' & -> & Hm' & Hc & Hw').
    exists m'. split_and!; auto. exists k, (d + 1). split; [auto|lia].
  - rewrite find_value_spec by auto. exists m. split_and!; auto. exists k, d. split; [auto|lia].
Qed.

Lemma run_ops_spec l m k d :
  map_wf m -> within k d m -> k + d + Z.of_nat (length l) <= budget ->
  exists m', run_ops m l = Done (fst (spec_ops (map_contents m) l), m') /\ map_wf m'
    /\ map_contents m' = snd (spec_ops (map_contents m) l).
Proof.
  revert m k d. induction l as [|o l IH]; intros m k d Hm Hw Hkd; cbn [run_ops spec_ops]; [eauto|].
  cbn [length] in Hkd. destruct (run_op_spec m o k d) as (m1 & -> & Hm1 & Hc1 & k1 & d1 & Hw1 & Hk1); auto; [lia|].
  destruct (spec_op (map_contents m) o) as [answer g]. cbn [fst snd] in *. subst g. rewrite bind_done.
  destruct (IH m1 k1 d1) as (m' & -> & Hm' & Hc'); auto; [lia|].
  destruct (spec_ops (map_contents m1) l) as [answers g]. exists m'. auto.
Qed.

End Run.
Arguments operation : clear implicits.

Section Theorems.
Context {A K : Type} `{SimpleMapLaws A K} `{Countable K}.
Implicit Types (m : simple_map A) (a : A) (key : K).

(** C1: a run of puts, removals and lookups from the empty map: as long as the
    run is shorter than the fill limit of the 805306457-slot table, it returns
    (no abort in the resize, no fault, no endless probe), through every resize it
    starts and every batch it moves, with the answers and the final contents of
    the same run on a finite map. *)
Theorem simple_map_run_refines (l : list (operation A K)) :
  Z.of_nat (length l) <= budget ->
  exists m, run_ops simple_map_new l = Done (fst (spec_ops ∅ l), m)
    /\ map_wf m /\ map_contents m = snd (spec_ops ∅ l).
Proof.
  intros Hl. destruct (new_spec (A := A)) as (Hwf & Hc & Hw).
  destruct (run_ops_spec l simple_map_new 0 0 Hwf Hw ltac:(lia)) as (m & E & Hm & Hcm).
  rewrite Hc in *. eauto.
Qed.

(** C2: [put] on a well-formed map that can still grow, whether it is at rest,
    about to resize or in the middle of a resize: it returns, the map is
    well-formed again, its contents are the old ones with the node inserted, the
    returned slot holds the node, and the replaced node is the one the key had. *)
Theorem simple_map_put_inserts m a :
  map_wf m -> growable m ->
  exists x m', simple_map_put m a = Done (x, map_contents m !! key_of a, m')
    /\ map_wf m' /\ map_contents m' = <[key_of a := a]> (map_contents m)
    /\ node_at (main m') x = Some a.
Proof.
  intros Hm Hg. destruct (put_spec m a Hm Hg) as (x & m' & E & ? & ? & ? & _). eauto 8.
Qed.

(** [remove] (lookup of the slot, [del], and the deletion from the shadow and
    one more batch when a resize is in progress) deletes the key of the node and
    nothing else. *)
Theorem simple_map_remove_deletes m a :
  map_wf m ->
  exists m', simple_map_remove m a = Done m' /\ map_wf m'
    /\ map_contents m' = delete (key_of a) (map_contents m).
Proof. intros Hm. destruct (remove_spec m a Hm) as (m' & ? & ? & ? & _). eauto. Qed.

(** [find_value] returns the node of the key, or [NULL], after finitely many
    probes, during a resize as well. *)
Theorem simple_map_find_value_lookup m key :
  map_wf m -> simple_map_find_value m key = Done (map_contents m !! key).
Proof. apply find_value_spec. Qed.

(** [simple_map_foreach] visits each node of the map exactly once, and [size]
    is their number. *)
Theorem simple_map_foreach_enumerates m :
  map_wf m ->
  exists l, read_nodes (main m) (simple_map_foreach (main m)) = Done l
    /\ l ≡ₚ (map_to_list (map_contents m)).*2 /\ size (main m) = Z.of_nat (length l).
Proof.
  intros Hm. pose proof (mi_main _ _ Hm) as Hwf. exists (nodes (main m)).
  split_and!; [by apply read_nodes_foreach|by apply nodes_values|by rewrite length_nodes].
Qed.

(** A map without nodes has nothing to move. *)
Lemma resize_loop_empty fuel (h s : table A) i ba :
  (forall j, exist h j = false) ->
  exists stop, resize_loop fuel h s i ba = Done (s, stop) /\ forall i', stop = Some i' -> i <= i'.
Proof.
  intros Hno. revert i ba. induction fuel as [|fuel IH]; intros i ba; cbn [resize_loop].
  - exists None. split; [reflexivity|discriminate].
  - destruct (ba =? 0); [exists (Some i); split; [reflexivity|intros ? [= <-]; lia]|].
    rewrite Hno. cbn [negb]. destruct (IH (i + 1) (u32 (ba - 1))) as (stop & -> & Hs).
    exists stop. split; [reflexivity|]. intros i' E. specialize (Hs _ E). lia.
Qed.

(** [clear] resets neither [resize_position] nor [n_dirty]: after a [clear] in
    the middle of a resize, the next [put] inserts into a table of no buckets,
    a division by zero. *)
Theorem simple_map_clear_during_resize_faults m a :
  resize_position (main m) > 0 -> simple_map_put (simple_map_clear m) a = Faults.
Proof.
  intros Hp. unfold simple_map_put. set (c := simple_map_clear m). destruct (negb _); [done|].
  assert (Ep : resize_position (main c) = resize_position (main m)) by reflexivity.
  rewrite Ep. destruct (Z.gtb_spec (resize_position (main m)) 0); [|lia]. unfold simple_map_resize.
  destruct (resize_loop_empty (Z.to_nat (n_buckets (main c) - resize_position (main c))) (main c) (shadow c)
    (resize_position (main c)) (batch (main c))) as (stop & -> & Hstop).
  { intros j. apply exist_fresh. }
  rewrite bind_done. destruct stop as [i|].
  - specialize (Hstop i eq_refl). rewrite bind_done. cbn [main shadow with_resize resize_position].
    rewrite (proj2 (Z.eqb_neq i 0)) by lia. reflexivity.
  - reflexivity.
Qed.

End Theorems.

(** ** The properties at work: 64 transport events *)

Definition event_of (i : Z) : simple_map_transport_event := TransportEvent (i * 7 + 1) 0 0 i.
Definition sixty_four_puts : list (operation simple_map_transport_event Z) :=
  (fun i => OpPut (event_of i)) <$> seqZ 0 64.

Lemma simple_map_run_refines_witness :
  exists m, run_ops simple_map_new (sixty_four_puts ++ [OpRemove (event_of 5); OpFind 36; OpFind 43])
    = Done (replicate 65 None ++ [None; Some (event_of 6)], m) /\ size (main m) = 63.
Proof.
  destruct (simple_map_run_refines (sixty_four_puts ++ [OpRemove (event_of 5); OpFind 36; OpFind 43]))
    as (m & E & _ & Hc); [vm_compute; discriminate|].
  assert (Em : size (main m) = 63).
  { change (match Done (fst (spec_ops (∅ : gmap Z simple_map_transport_event)
      (sixty_four_puts ++ [OpRemove (event_of 5); OpFind 36; OpFind 43])), m)
      with Done r => size (main (snd r)) | _ => 0 end = 63). rewrite <- E. vm_compute. reflexivity. }
  exists m. split; [rewrite E; vm_compute; reflexivity|exact Em].
Defined.

Lemma simple_map_put_inserts_witness :
  exists x m', simple_map_put simple_map_new (event_of 3) = Done (x, map_contents simple_map_new !! key_of (event_of 3), m') /\ map_wf m'
    /\ map_contents m' = <[key_of (event_of 3) := event_of 3]> (map_contents simple_map_new)
    /\ node_at (main m') x = Some (event_of 3).
Proof.
  apply (simple_map_put_inserts (simple_map_new (A := simple_map_transport_event)) (event_of 3));
    [apply new_spec|vm_compute; discriminate].
Defined.

Lemma simple_map_remove_deletes_witness :
  exists m', simple_map_remove simple_map_new (event_of 3) = Done m' /\ map_wf m'
    /\ map_contents m' = delete (key_of (event_of 3)) (map_contents simple_map_new).
Proof.
  apply (simple_map_remove_deletes (simple_map_new (A := simple_map_transport_event)) (event_of 3)).
  apply new_spec.
Defined.

Lemma simple_map_find_value_lookup_witness :
  simple_map_find_value (simple_map_new (A := simple_map_transport_event)) 22
  = Done (map_contents simple_map_new !! 22).
Proof. apply simple_map_find_value_lookup, new_spec. Defined.

Definition no_events : simple_map simple_map_transport_event := simple_map_new.

Lemma simple_map_foreach_enumerates_witness :
  exists l, read_nodes (main no_events) (simple_map_foreach (main no_events)) = Done l
    /\ l ≡ₚ (map_to_list (map_contents no_events)).*2 /\ size (main no_events) = Z.of_nat (length l).
Proof. apply (simple_map_foreach_enumerates no_events), new_spec. Defined.

(** A table in the middle of a resize, by 273 insertions. *)
Definition resizing_map : outcome (simple_map simple_map_transport_event) :=
  '(_, m) ← run_ops simple_map_new ((fun i => OpPut (event_of i)) <$> seqZ 0 273); Done m.

Lemma simple_map_clear_during_resize_faults_witness :
  exists m, resizing_map = Done m /\ resize_position (main m) = 256
    /\ simple_map_put (simple_map_clear m) (event_of 0) = Faults.
Proof.
  destruct resizing_map as [m| | |] eqn:E; try (vm_compute in E; discriminate E).
  exists m. split; [reflexivity|].
  assert (Hp : resize_position (main m) = 256).
  { change (match Done m with Done m => resize_position (main m) | _ => 0 end = 256).
    rewrite <- E. vm_compute. reflexivity. }
  split; [exact Hp|]. apply (simple_map_clear_during_resize_faults m). lia.
Defined.

(** A new map that is asked for more slots has no node to move: the resize is finished
    in the call that starts it. *)
Lemma new_map_grows_at_once {A K} `{SimpleMapNode A K} (buckets : Z) : 3 <= buckets ->
  exists m, simple_map_start_resize (simple_map_new (A := A)) buckets 0 = Done m /\ shadow m = zero_table /\ size (main m) = 0.
Proof.
  intros B. unfold simple_map_start_resize.
  replace (buckets <? n_buckets (main (simple_map_new (A := A)))) with false by (symmetry; apply Z.ltb_ge; exact B).
  generalize (choose_prime (Z.to_nat __ac_HASH_PRIME_SIZE) (prime (main (simple_map_new (A := A)))) buckets). intros np.
  eexists. split; [|split].
  - cbn -[prime_at times_density replicate Z.to_nat __ac_prime_list]. unfold simple_map_resize. cbn. reflexivity.
  - reflexivity.
  - reflexivity.
Qed.
