(* ===== verification/LinkedList.v ===== *)
(** * The intrusive doubly linked list ([core/native/lists/linked.h])

    The list nodes are embedded in other structures and shared through
    pointers, so the model is a store from node addresses to their two fields.
    [items] says which addresses a list head links, in order. *)
From S2P Require Import Prelude.

(** ** The store *)

(** Addresses of [struct linked_list] nodes. *)
Abbreviation loc := Z.

Record store := Store { next_of : gmap loc loc; prev_of : gmap loc loc }.

Definition get_next (s : store) (x : loc) : outcome loc := demand (next_of s !! x).
Definition get_prev (s : store) (x : loc) : outcome loc := demand (prev_of s !! x).
(** A store to an address that is no node is a fault. *)
Definition set_next (x y : loc) (s : store) : outcome store :=
  if decide (is_Some (next_of s !! x)) then Done (Store (<[x := y]> (next_of s)) (prev_of s)) else Faults.
Definition set_prev (x y : loc) (s : store) : outcome store :=
  if decide (is_Some (prev_of s !! x)) then Done (Store (next_of s) (<[x := y]> (prev_of s))) else Faults.

(** ** The operations *)

Definition linked_list_create (s : store) (list : loc) : outcome store :=
  s ← set_next list list s;
  set_prev list list s.

Definition linked_list_add (s : store) (head item : loc) : outcome store :=
  s ← set_prev item head s;
  n ← get_next s head; s ← set_next item n s;
  p ← get_prev s item; s ← set_next p item s;
  n ← get_next s item; set_prev n item s.

Definition linked_list_add_tail (s : store) (head item : loc) : outcome store :=
  s ← set_next item head s;
  p ← get_prev s head; s ← set_prev item p s;
  p ← get_prev s item; s ← set_next p item s;
  n ← get_next s item; set_prev n item s.

Definition linked_list_del (s : store) (item : loc) : outcome store :=
  p ← get_prev s item; n ← get_next s item; s ← set_next p n s;
  n ← get_next s item; p ← get_prev s item; s ← set_prev n p s;
  linked_list_create s item.

Definition linked_list_shift (s : store) (head : loc) : outcome (loc * store) :=
  shift ← get_next s head;
  n ← get_next s shift; s ← set_next head n s;
  n ← get_next s shift; s ← set_prev n head s;
  s ← set_prev shift shift s; s ← set_next shift shift s;
  Done (shift, s).

Definition linked_list_shift_tail (s : store) (head : loc) : outcome (loc * store) :=
  shift ← get_prev s head;
  s ← linked_list_del s shift;
  Done (shift, s).

Definition linked_list_first (s : store) (head : loc) : outcome loc := get_next s head.
Definition linked_list_last (s : store) (head : loc) : outcome loc := get_prev s head.
Definition linked_list_next (s : store) (item : loc) : outcome loc := get_next s item.
Definition linked_list_prev (s : store) (item : loc) : outcome loc := get_prev s item.

Definition linked_list_empty (s : store) (item : loc) : outcome bool :=
  n ← get_next s item; p ← get_prev s item;
  if n =? p then n ← get_next s item; Done (n =? item) else Done false.

Definition linked_list_move (s : store) (to item : loc) : outcome store :=
  s ← linked_list_del s item;
  linked_list_add s to item.

Definition linked_list_move_tail (s : store) (to item : loc) : outcome store :=
  p ← get_prev s item; n ← get_next s item; s ← set_next p n s;
  n ← get_next s item; p ← get_prev s item; s ← set_prev n p s;
  s ← set_next item to s;
  p ← get_prev s to; s ← set_prev item p s;
  p ← get_prev s item; s ← set_next p item s;
  n ← get_next s item; set_prev n item s.

Definition linked_list_swap (s : store) (rhs lhs : loc) : outcome store :=
  tmp_n ← get_next s rhs; tmp_p ← get_prev s rhs;
  n ← get_next s lhs; p ← get_prev s lhs; s ← set_next rhs n s; s ← set_prev rhs p s;
  s ← set_next lhs tmp_n s; s ← set_prev lhs tmp_p s;
  n ← get_next s lhs;
  s ← (if n =? rhs then set_next lhs lhs s else Done s);
  n ← get_next s lhs; s ← set_prev n lhs s;
  p ← get_prev s lhs; s ← set_next p lhs s;
  n ← get_next s rhs;
  s ← (if n =? lhs then set_next rhs rhs s else Done s);
  n ← get_next s rhs; s ← set_prev n rhs s;
  p ← get_prev s rhs; set_next p rhs s.

Definition linked_list_splice (s : store) (head1 head2 : loc) : outcome store :=
  empty ← linked_list_empty s head2;
  if (empty : bool) then Done s else
  n ← get_next s head1; p ← get_prev s head2; s ← set_prev n p s;
  p ← get_prev s head2; n ← get_next s head1; s ← set_next p n s;
  n ← get_next s head2; s ← set_next head1 n s;
  n ← get_next s head2; s ← set_prev n head1 s;
  linked_list_create s head2.

Definition linked_list_splice_tail (s : store) (head1 head2 : loc) : outcome store :=
  empty ← linked_list_empty s head2;
  if (empty : bool) then Done s else
  p ← get_prev s head1; n ← get_next s head2; s ← set_next p n s;
  n ← get_next s head2; p ← get_prev s head1; s ← set_prev n p s;
  p ← get_prev s head2; s ← set_prev head1 p s;
  p ← get_prev s head2; s ← set_next p head1 s;
  linked_list_create s head2.

Definition linked_list_cut_before (s : store) (head1 head2 item : loc) : outcome store :=
  n ← get_next s head1;
  if n =? item then linked_list_create s head1 else
  n ← get_next s head2; s ← set_next head1 n s;
  n ← get_next s head1; s ← set_prev n head1 s;
  p ← get_prev s item; s ← set_prev head1 p s;
  p ← get_prev s head1; s ← set_next p head1 s;
  s ← set_next head2 item s;
  set_prev item head2 s.

(** The loops: [linked_list_foreach] and its reverse, the addresses visited; and
    [linked_list_foreach_entry_safe], whose body may unlink the item it is given,
    since the next one is read before. *)
Fixpoint foreach_loop (fuel : nat) (step : store -> loc -> outcome loc) (s : store) (head item : loc)
    : outcome (list loc) :=
  match fuel with
  | O => Spins
  | S fuel =>
      if item =? head then Done [] else
      item' ← step s item;
      l ← foreach_loop fuel step s head item';
      Done (item :: l)
  end.
Definition linked_list_foreach (fuel : nat) (s : store) (head : loc) : outcome (list loc) :=
  item ← linked_list_first s head; foreach_loop fuel linked_list_next s head item.
Definition linked_list_foreach_reverse (fuel : nat) (s : store) (head : loc) : outcome (list loc) :=
  item ← linked_list_last s head; foreach_loop fuel linked_list_prev s head item.

Fixpoint foreach_safe_loop (fuel : nat) (body : store -> loc -> outcome store) (s : store) (head item : loc)
    : outcome store :=
  match fuel with
  | O => Spins
  | S fuel =>
      if item =? head then Done s else
      tmp ← linked_list_next s item;
      s ← body s item;
      foreach_safe_loop fuel body s head tmp
  end.
Definition linked_list_foreach_entry_safe (fuel : nat) (body : store -> loc -> outcome store) (s : store)
    (head : loc) : outcome store :=
  item ← linked_list_first s head; foreach_safe_loop fuel body s head item.

(** ** What a list is *)

Definition link (s : store) (x y : loc) : Prop :=
  next_of s !! x = Some y /\ prev_of s !! y = Some x.

(** From [a] through [l] to [b]. *)
Fixpoint seg (s : store) (a : loc) (l : list loc) (b : loc) : Prop :=
  match l with
  | [] => link s a b
  | x :: l => link s a x /\ seg s x l b
  end.

(** [head] links exactly the items [l], in order, both ways round. *)
Definition items (s : store) (head : loc) (l : list loc) : Prop :=
  seg s head l head /\ NoDup (head :: l).

(** A node whose two fields exist. *)
Definition node_in (s : store) (x : loc) : Prop := is_Some (next_of s !! x) /\ is_Some (prev_of s !! x).

Lemma seg_app s a l1 x l2 b : seg s a (l1 ++ x :: l2) b <-> seg s a l1 x /\ seg s x l2 b.
Proof. revert a. induction l1 as [|y l1 IH]; intros a; cbn; [reflexivity|]. rewrite IH. tauto. Qed.

Lemma seg_snoc s a l x b : seg s a (l ++ [x]) b <-> seg s a l x /\ link s x b.
Proof. apply seg_app. Qed.

(** A segment survives writes to other cells. *)
Lemma seg_frame s s' a l b :
  (forall x, x = a \/ x ∈ l -> next_of s' !! x = next_of s !! x) ->
  (forall x, x ∈ l \/ x = b -> prev_of s' !! x = prev_of s !! x) ->
  seg s a l b -> seg s' a l b.
Proof.
  revert a. induction l as [|x l IH]; intros a Hn Hp; cbn.
  - intros [? ?]. split; [rewrite Hn|rewrite Hp]; auto.
  - intros [[? ?] Hs]. split.
    + split; [rewrite Hn|rewrite Hp]; auto. left. set_solver.
    + apply IH; auto; intros y Hy; [apply Hn|apply Hp]; set_solver.
Qed.

Lemma seg_first s a l b : seg s a l b -> next_of s !! a = Some (hd b l).
Proof. destruct l; cbn; [intros []|intros [[] ?]]; auto. Qed.

Lemma seg_last s a l b : seg s a l b -> prev_of s !! b = Some (default a (last l)).
Proof.
  destruct l as [|x l _] using rev_ind; [intros []; auto|].
  rewrite seg_snoc, last_snoc. intros [_ []]. auto.
Qed.

Lemma get_next_done s x y : next_of s !! x = Some y -> get_next s x = Done y.
Proof. unfold get_next. intros ->. reflexivity. Qed.
Lemma get_prev_done s x y : prev_of s !! x = Some y -> get_prev s x = Done y.
Proof. unfold get_prev. intros ->. reflexivity. Qed.
Lemma set_next_done s x y z :
  next_of s !! x = Some z -> set_next x y s = Done (Store (<[x := y]> (next_of s)) (prev_of s)).
Proof. unfold set_next. intros ->. rewrite decide_True by eauto. reflexivity. Qed.
Lemma set_prev_done s x y z :
  prev_of s !! x = Some z -> set_prev x y s = Done (Store (next_of s) (<[x := y]> (prev_of s))).
Proof. unfold set_prev. intros ->. rewrite decide_True by eauto. reflexivity. Qed.

Lemma NoDup_sub (l k : list loc) : NoDup k -> l ⊆+ k -> NoDup l.
Proof.
  intros Hk Hl. apply submseteq_Permutation in Hl as [k' E]. rewrite E in Hk. apply NoDup_app in Hk. tauto.
Qed.

(** [cell] reads a cell through the writes before it; [ll_run] runs a sequence
    of reads and writes; [ll_facts K] derives from [Hnd] that the nodes of [K]
    are distinct; [ll_frame] proves that a segment kept its cells. *)
Ltac cell :=
  cbn [next_of prev_of];
  repeat first [rewrite lookup_insert_eq | rewrite lookup_insert_ne by congruence];
  first [reflexivity | eassumption].
Ltac ll_run :=
  repeat first
    [ rewrite bind_done
    | erewrite get_next_done by cell | erewrite get_prev_done by cell
    | erewrite set_next_done by cell | erewrite set_prev_done by cell ].
(** [ll_if] decides the test of a conditional. *)
Ltac ll_if :=
  match goal with |- context [?a =? ?b] =>
    first [rewrite (proj2 (Z.eqb_eq a b)) by congruence | rewrite (proj2 (Z.eqb_neq a b)) by congruence]
  end; cbv beta iota.
Ltac ll_nodup Hnd := apply (NoDup_sub _ _ Hnd); cbn [app]; solve_submseteq.
Ltac ll_facts Hnd K :=
  let F := fresh "F" in
  assert (F : NoDup K) by ll_nodup Hnd;
  rewrite ?NoDup_cons, ?not_elem_of_cons, ?not_elem_of_app, ?not_elem_of_cons in F; destruct_and! F.
Ltac ll_frame :=
  eapply seg_frame; [| |eassumption];
  (let x := fresh "x" in let Hx := fresh "Hx" in intros x Hx; cbn [next_of prev_of];
   rewrite ?lookup_insert_ne by (intros ?; subst; destruct Hx; congruence || contradiction); reflexivity).
Ltac ll_outside :=
  let x := fresh "x" in let Hx := fresh "Hx" in intros x Hx;
  repeat rewrite ?not_elem_of_cons, ?not_elem_of_app in Hx; destruct_and? Hx; cbn [next_of prev_of];
  rewrite ?lookup_insert_ne by congruence; auto.

(** The cells outside [l] are as they were. *)
Definition same_outside (l : list loc) (s s' : store) : Prop :=
  forall x, x ∉ l -> next_of s' !! x = next_of s !! x /\ prev_of s' !! x = prev_of s !! x.

Lemma same_outside_items l s s' head l' :
  same_outside l s s' -> (forall x, x ∈ head :: l' -> x ∉ l) -> items s head l' -> items s' head l'.
Proof.
  intros Hsame Hd [Hs Hnd]. split; [|exact Hnd].
  eapply seg_frame; [| |exact Hs]; intros x Hx; apply Hsame, Hd; set_solver.
Qed.

Lemma same_outside_trans l s1 s2 s3 : same_outside l s1 s2 -> same_outside l s2 s3 -> same_outside l s1 s3.
Proof. intros H1 H2 x Hx. destruct (H1 x Hx), (H2 x Hx). split; congruence. Qed.

Lemma same_outside_mono l l' s s' : same_outside l s s' -> (forall x, x ∈ l -> x ∈ l') -> same_outside l' s s'.
Proof. intros Hs Hl x Hx. apply Hs. auto. Qed.

(** The nodes of a list are nodes. *)
Lemma items_node s head l x : items s head l -> x ∈ head :: l -> node_in s x.
Proof.
  intros [Hs _] Hx.
  assert (G : forall a b, seg s a l b -> forall y, (y = a \/ y ∈ l -> is_Some (next_of s !! y))
      /\ (y ∈ l \/ y = b -> is_Some (prev_of s !! y))).
  { clear. induction l as [|z l IH]; intros a b; cbn.
    - intros [Hn Hp] y. rewrite !elem_of_nil. split; intros [Hy|Hy]; subst; try tauto; eauto.
    - intros [[Hn Hp] Hs] y. destruct (IH _ _ Hs y) as [G1 G2]. split.
      + intros [->|Hy]; [eauto|]. apply elem_of_cons in Hy as [->|Hy]; apply G1; auto.
      + intros [Hy| ->]; [apply elem_of_cons in Hy as [->|Hy]|]; [eauto|apply G2; auto..]. }
  destruct (G _ _ Hs x) as [G1 G2]. apply elem_of_cons in Hx. split; [apply G1|apply G2]; tauto.
Qed.

Lemma list_create_spec s x :
  node_in s x -> exists s', linked_list_create s x = Done s' /\ items s' x [] /\ same_outside [x] s s'.
Proof.
  intros [[n Hn] [p Hp]]. unfold linked_list_create. ll_run. eexists. split_and!; [reflexivity| |ll_outside].
  split; [split; cell|apply NoDup_singleton].
Qed.

(** Insertion after the head, and before it. *)
Lemma add_spec s head item l :
  items s head l -> item ∉ head :: l -> node_in s item ->
  exists s', linked_list_add s head item = Done s' /\ items s' head (item :: l)
    /\ same_outside (item :: head :: l) s s'.
Proof.
  intros [Hs Hnd] Hni [[n0 Hn] [p0 Hp]]. unfold linked_list_add.
  pose proof (seg_first _ _ _ _ Hs) as Hf. pose proof (NoDup_cons_2 _ _ Hni Hnd) as Hnd'.
  destruct l as [|x l]; cbn [hd] in *.
  - ll_facts Hnd' [item; head]. destruct Hs as [_ Hl]. ll_run.
    eexists. split_and!; [reflexivity| |ll_outside]. split; [|ll_nodup Hnd'].
    cbn. split; split; cell.
  - destruct Hs as [[H1 H2] Hs]. ll_facts Hnd' (item :: head :: x :: l).
    ll_run. eexists. split_and!; [reflexivity| |ll_outside]. split; [|ll_nodup Hnd'].
    cbn. split_and!; [split; cell|split; cell|]. ll_frame.
Qed.

Lemma add_tail_spec s head item l :
  items s head l -> item ∉ head :: l -> node_in s item ->
  exists s', linked_list_add_tail s head item = Done s' /\ items s' head (l ++ [item])
    /\ same_outside (item :: head :: l) s s'.
Proof.
  intros [Hs Hnd] Hni [[n0 Hn] [p0 Hp]]. unfold linked_list_add_tail.
  pose proof (seg_last _ _ _ _ Hs) as Hf. pose proof (NoDup_cons_2 _ _ Hni Hnd) as Hnd'.
  destruct l as [|x l _] using rev_ind.
  - ll_facts Hnd' [item; head]. destruct Hs as [Hl _]. cbn in Hf. ll_run.
    eexists. split_and!; [reflexivity| |ll_outside]. split; [|ll_nodup Hnd'].
    cbn. split; split; cell.
  - rewrite last_snoc in Hf. cbn in Hf. apply seg_snoc in Hs as [Hs [H1 H2]].
    ll_facts Hnd' (item :: head :: x :: l).
    ll_run. eexists. split_and!; [reflexivity| |ll_outside]. split; [|ll_nodup Hnd'].
    rewrite !seg_snoc. split_and!; [ll_frame|split; cell|split; cell].
Qed.

(** The two writes that [del] and [move_tail] start with. *)
Definition unlink (s : store) (item : loc) : outcome store :=
  p ← get_prev s item; n ← get_next s item; s ← set_next p n s;
  n ← get_next s item; p ← get_prev s item; set_prev n p s.

Lemma unlink_del s item : linked_list_del s item = (s ← unlink s item; linked_list_create s item).
Proof.
  unfold linked_list_del, unlink.
  destruct (get_prev s item) as [p| | |]; [rewrite !bind_done|reflexivity..].
  destruct (get_next s item) as [n| | |]; [rewrite !bind_done|reflexivity..].
  destruct (set_next p n s) as [s1| | |]; [rewrite !bind_done|reflexivity..].
  destruct (get_next s1 item) as [n1| | |]; [rewrite !bind_done|reflexivity..].
  destruct (get_prev s1 item) as [p1| | |]; [rewrite !bind_done|reflexivity..].
  reflexivity.
Qed.

Lemma unlink_move_tail s to item :
  linked_list_move_tail s to item = (s ← unlink s item; linked_list_add_tail s to item).
Proof.
  unfold linked_list_move_tail, unlink.
  destruct (get_prev s item) as [p| | |]; [rewrite !bind_done|reflexivity..].
  destruct (get_next s item) as [n| | |]; [rewrite !bind_done|reflexivity..].
  destruct (set_next p n s) as [s1| | |]; [rewrite !bind_done|reflexivity..].
  destruct (get_next s1 item) as [n1| | |]; [rewrite !bind_done|reflexivity..].
  destruct (get_prev s1 item) as [p1| | |]; [rewrite !bind_done|reflexivity..].
  reflexivity.
Qed.

(** The neighbours of the item get linked; its own cells are still there. *)
Lemma unlink_spec s head item l1 l2 :
  items s head (l1 ++ item :: l2) ->
  exists s', unlink s item = Done s' /\ items s' head (l1 ++ l2) /\ node_in s' item
    /\ same_outside (head :: l1 ++ l2) s s'.
Proof.
  intros [Hs Hnd]. apply seg_app in Hs as [Hs1 Hs2]. unfold unlink.
  pose proof (seg_last _ _ _ _ Hs1) as Hp. pose proof (seg_first _ _ _ _ Hs2) as Hn.
  destruct l1 as [|p l1 _] using rev_ind; destruct l2 as [|n l2]; cbn [default hd app last] in *.
  - destruct Hs1, Hs2. ll_facts Hnd [item; head]. ll_run.
    eexists. split_and!; [reflexivity|split; [split; cell|ll_nodup Hnd]|split; eexists; cell|ll_outside].
  - destruct Hs1 as [? ?], Hs2 as [[? ?] Hs2]. ll_facts Hnd (item :: head :: n :: l2).
    ll_run. eexists. split_and!; [reflexivity| |split; eexists; cell|ll_outside].
    split; [|ll_nodup Hnd]. cbn. split; [split; cell|ll_frame].
  - rewrite last_snoc in Hp. cbn in Hp. apply seg_snoc in Hs1 as [Hs1 [? ?]]. destruct Hs2 as [? ?].
    ll_facts Hnd (item :: head :: p :: l1).
    ll_run. eexists. split_and!; [reflexivity| |split; eexists; cell|ll_outside].
    rewrite app_nil_r. split; [|ll_nodup Hnd]. rewrite seg_snoc. split; [ll_frame|split; cell].
  - rewrite last_snoc in Hp. cbn in Hp. apply seg_snoc in Hs1 as [Hs1 [? ?]]. destruct Hs2 as [[? ?] Hs2].
    ll_facts Hnd (item :: head :: p :: n :: l1 ++ l2).
    ll_run. eexists. split_and!; [reflexivity| |split; eexists; cell|ll_outside].
    split; [|ll_nodup Hnd]. rewrite seg_app, seg_snoc. cbn. split_and!; [ll_frame|split; cell|ll_frame].
Qed.

Lemma items_disjoint_item (head item : loc) l1 l2 :
  NoDup (head :: l1 ++ item :: l2) -> item ∉ head :: l1 ++ l2.
Proof.
  intros Hnd. ll_facts Hnd (item :: head :: l1 ++ l2).
  rewrite !not_elem_of_cons, not_elem_of_app. auto.
Qed.

(** Deletion: the item becomes a list of its own. *)
Lemma list_del_spec s head item l1 l2 :
  items s head (l1 ++ item :: l2) ->
  exists s', linked_list_del s item = Done s' /\ items s' head (l1 ++ l2) /\ items s' item []
    /\ same_outside (item :: head :: l1 ++ l2) s s'.
Proof.
  intros Hi. pose proof (items_disjoint_item _ _ _ _ (proj2 Hi)) as Hni.
  destruct (unlink_spec _ _ _ _ _ Hi) as (s1 & E1 & Hi1 & Hin & Ho1).
  destruct (list_create_spec s1 item Hin) as (s2 & E2 & Hi2 & Ho2). rewrite unlink_del, E1, bind_done.
  exists s2. split_and!; [exact E2| |exact Hi2|].
  - eapply same_outside_items; [exact Ho2| |exact Hi1]. set_solver.
  - eapply same_outside_trans; eapply same_outside_mono; [exact Ho1| |exact Ho2|]; set_solver.
Qed.

(** Moving an item to another list. *)
Lemma move_spec s head item l1 l2 to l :
  items s head (l1 ++ item :: l2) -> items s to l ->
  (forall x, x ∈ head :: l1 ++ item :: l2 -> x ∉ to :: l) ->
  (exists s', linked_list_move s to item = Done s' /\ items s' head (l1 ++ l2) /\ items s' to (item :: l))
  /\ (exists s', linked_list_move_tail s to item = Done s' /\ items s' head (l1 ++ l2)
        /\ items s' to (l ++ [item])).
Proof.
  intros Hi Ht Hd. pose proof (items_disjoint_item _ _ _ _ (proj2 Hi)) as Hni.
  assert (Hit : item ∉ to :: l) by (apply Hd; set_solver). split.
  - destruct (list_del_spec _ _ _ _ _ Hi) as (s1 & E1 & Hi1 & Hii & Ho1).
    unfold linked_list_move. rewrite E1, bind_done.
    destruct (add_spec s1 to item l) as (s2 & E2 & Hi2 & Ho2); auto.
    + eapply same_outside_items; [exact Ho1| |exact Ht]. set_solver.
    + eapply items_node; [exact Hii|set_solver].
    + exists s2. split_and!; auto. eapply same_outside_items; [exact Ho2| |exact Hi1]. set_solver.
  - destruct (unlink_spec _ _ _ _ _ Hi) as (s1 & E1 & Hi1 & Hin & Ho1).
    rewrite unlink_move_tail, E1, bind_done.
    destruct (add_tail_spec s1 to item l) as (s2 & E2 & Hi2 & Ho2); auto.
    + eapply same_outside_items; [exact Ho1| |exact Ht]. set_solver.
    + exists s2. split_and!; auto. eapply same_outside_items; [exact Ho2| |exact Hi1]. set_solver.
Qed.

(** [shift] and [shift_tail]. *)
Lemma shift_spec s head item l :
  items s head (item :: l) ->
  exists s', linked_list_shift s head = Done (item, s') /\ items s' head l /\ items s' item []
    /\ same_outside (item :: head :: l) s s'.
Proof.
  intros [[[? ?] Hs] Hnd]. unfold linked_list_shift.
  destruct l as [|n l].
  - destruct Hs. ll_facts Hnd [item; head]. ll_run.
    eexists. split_and!; [reflexivity|split; [split; cell|ll_nodup Hnd]..|ll_outside].
  - destruct Hs as [[? ?] Hs]. ll_facts Hnd (item :: head :: n :: l). ll_run.
    eexists. split_and!; [reflexivity| |split; [split; cell|ll_nodup Hnd]|ll_outside].
    split; [|ll_nodup Hnd]. cbn. split; [split; cell|ll_frame].
Qed.

Lemma shift_tail_spec s head item l :
  items s head (l ++ [item]) ->
  exists s', linked_list_shift_tail s head = Done (item, s') /\ items s' head l /\ items s' item []
    /\ same_outside (item :: head :: l) s s'.
Proof.
  intros Hi. pose proof (seg_last _ _ _ _ (proj1 Hi)) as Hl. rewrite last_snoc in Hl. cbn in Hl.
  destruct (list_del_spec s head item l [] Hi) as (s' & E & Hi' & Hii & Ho). rewrite app_nil_r in *.
  unfold linked_list_shift_tail. rewrite (get_prev_done _ _ _ Hl), bind_done, E, bind_done. eauto.
Qed.

Lemma empty_spec s head l :
  items s head l -> linked_list_empty s head = Done (bool_decide (l = [])).
Proof.
  intros [Hs Hnd]. unfold linked_list_empty.
  pose proof (seg_first _ _ _ _ Hs) as Hn. pose proof (seg_last _ _ _ _ Hs) as Hp.
  rewrite (get_next_done _ _ _ Hn), (get_prev_done _ _ _ Hp), !bind_done.
  destruct l as [|x l]; cbn in Hn, Hp; [by rewrite !Z.eqb_refl|].
  ll_facts Hnd (head :: x :: l). cbn [hd]. rewrite (proj2 (Z.eqb_neq x head)) by congruence.
  destruct (_ =? _); reflexivity.
Qed.

(** A segment whose two ends are linked to other nodes. *)
Lemma seg_relink s s' a b a' b' x l :
  seg s a (x :: l) b -> NoDup (x :: l) ->
  (forall z, z ∈ x :: l -> z <> default x (last l) -> next_of s' !! z = next_of s !! z) ->
  (forall z, z ∈ l -> prev_of s' !! z = prev_of s !! z) ->
  link s' a' x -> link s' (default x (last l)) b' -> seg s' a' (x :: l) b'.
Proof.
  intros Hs Hnd Hn Hp Ha Hb. destruct l as [|y l _] using rev_ind.
  - cbn in *. auto.
  - rewrite last_snoc in *. cbn [default] in *. unfold id in *. cbn [seg] in Hs |- *. split; [exact Ha|].
    destruct Hs as [_ Hs]. rewrite seg_snoc in Hs |- *. split; [|exact Hb].
    eapply seg_frame; [| |apply Hs]; intros z Hz; [apply Hn|apply Hp].
    + set_solver.
    + ll_facts Hnd (y :: x :: l). intros ->. destruct Hz; [congruence|contradiction].
    + set_solver.
Qed.

Lemma last_in (x : loc) l : default x (last l) ∈ x :: l.
Proof. destruct l as [|y l _] using rev_ind; [|rewrite last_snoc]; set_solver. Qed.

(** The four cells at the ends of a non-empty segment. *)
Lemma seg_ends s a x l b :
  seg s a (x :: l) b -> link s a x /\ link s (default x (last l)) b.
Proof.
  intros Hs. split; [apply Hs|]. destruct l as [|y l _] using rev_ind; [apply Hs|].
  rewrite last_snoc. change (x :: l ++ [y]) with ((x :: l) ++ [y]) in Hs. apply seg_snoc in Hs as [_ Hl]. exact Hl.
Qed.

(** Two disjoint lists. *)
Record two_lists (s : store) (h1 : loc) (l1 : list loc) (h2 : loc) (l2 : list loc) : Prop := {
  tl_1 : items s h1 l1;
  tl_2 : items s h2 l2;
  tl_d : NoDup (h1 :: h2 :: l1 ++ l2);
}.

Lemma last_apart (h1 h2 x : loc) l1 l2 :
  NoDup (h1 :: h2 :: l1 ++ x :: l2) ->
  default x (last l2) <> h1 /\ default x (last l2) <> h2 /\ default x (last l2) ∉ l1.
Proof.
  intros Hnd. pose proof (last_in x l2) as Hy. rewrite !NoDup_cons, NoDup_app in Hnd.
  destruct Hnd as (H1 & H2 & _ & Hd & _). rewrite !not_elem_of_cons, not_elem_of_app in H1.
  rewrite not_elem_of_app in H2. destruct H1 as (_ & _ & H1), H2 as [_ H2].
  split_and!; [intros E; rewrite E in Hy; auto..|]. intros Hin. exact (Hd _ Hin Hy).
Qed.

Ltac ll_ne := intros ?; subst; rewrite ?elem_of_cons in *;
  repeat match goal with H : _ \/ _ |- _ => destruct H end; first [congruence | contradiction].
Ltac ll_keep := let z := fresh "z" in let Hz := fresh "Hz" in
  intros z Hz; intros; cbn [next_of prev_of]; rewrite ?lookup_insert_ne by ll_ne; reflexivity.

(** All the nodes of the second list go to the head of the first. *)
Lemma splice_spec s h1 l1 h2 l2 :
  two_lists s h1 l1 h2 l2 ->
  exists s', linked_list_splice s h1 h2 = Done s' /\ items s' h1 (l2 ++ l1) /\ items s' h2 [].
Proof.
  intros [[Hs1 Hn1] [Hs2 Hn2] Hd]. unfold linked_list_splice, linked_list_create.
  rewrite (empty_spec s h2 l2) by (split; assumption). rewrite bind_done.
  destruct l2 as [|x l2].
  { rewrite bool_decide_true by reflexivity. exists s. split_and!; [reflexivity|split; assumption..]. }
  rewrite bool_decide_false by discriminate.
  destruct (seg_ends _ _ _ _ _ Hs2) as [[? ?] [? ?]]. pose proof (seg_relink s) as Hrel.
  specialize (fun s' a' b' => Hrel s' h2 h2 a' b' x l2 Hs2 ltac:(ll_nodup Hd)).
  destruct (last_apart _ _ _ _ _ Hd) as (? & ? & Hy1).
  remember (default x (last l2)) as y eqn:Ey. clear Ey.
  ll_facts Hd (h1 :: h2 :: x :: l1 ++ l2).
  destruct l1 as [|z l1].
  - destruct Hs1 as [? ?]. ll_run. eexists. split_and!; [reflexivity| |split; [split; cell|apply NoDup_singleton]].
    rewrite app_nil_r. split; [|ll_nodup Hd].
    apply Hrel; [ll_keep|ll_keep|split; cell|split; cell].
  - destruct Hs1 as [[? ?] Hs1]. rewrite not_elem_of_cons in Hy1. destruct Hy1.
    ll_facts Hd (z :: x :: h1 :: h2 :: l1 ++ l2).
    ll_run. eexists. split_and!; [reflexivity| |split; [split; cell|apply NoDup_singleton]].
    split; [|ll_nodup Hd]. rewrite seg_app. split.
    + apply Hrel; [ll_keep|ll_keep|split; cell|split; cell].
    + eapply seg_frame; [| |exact Hs1]; ll_keep.
Qed.

(** All the nodes of the second list go to the tail of the first. *)
Lemma splice_tail_spec s h1 l1 h2 l2 :
  two_lists s h1 l1 h2 l2 ->
  exists s', linked_list_splice_tail s h1 h2 = Done s' /\ items s' h1 (l1 ++ l2) /\ items s' h2 [].
Proof.
  intros [[Hs1 Hn1] [Hs2 Hn2] Hd]. unfold linked_list_splice_tail, linked_list_create.
  rewrite (empty_spec s h2 l2) by (split; assumption). rewrite bind_done.
  destruct l2 as [|x l2].
  { rewrite bool_decide_true by reflexivity. exists s.
    rewrite app_nil_r. split_and!; [reflexivity|split; assumption..]. }
  rewrite bool_decide_false by discriminate.
  destruct (seg_ends _ _ _ _ _ Hs2) as [[? ?] [? ?]]. pose proof (seg_relink s) as Hrel.
  specialize (fun s' a' b' => Hrel s' h2 h2 a' b' x l2 Hs2 ltac:(ll_nodup Hd)).
  destruct (last_apart _ _ _ _ _ Hd) as (? & ? & Hy1).
  remember (default x (last l2)) as y eqn:Ey. clear Ey.
  ll_facts Hd (h1 :: h2 :: x :: l1 ++ l2).
  destruct l1 as [|z l1 _] using rev_ind.
  - destruct Hs1 as [? ?]. ll_run. eexists. split_and!; [reflexivity| |split; [split; cell|apply NoDup_singleton]].
    split; [|ll_nodup Hd]. apply Hrel; [ll_keep|ll_keep|split; cell|split; cell].
  - apply seg_snoc in Hs1 as [Hs1 [? ?]]. rewrite not_elem_of_app, not_elem_of_cons in Hy1.
    destruct Hy1 as [? [? _]]. ll_facts Hd (z :: x :: h1 :: h2 :: l1 ++ l2).
    ll_run. eexists. split_and!; [reflexivity| |split; [split; cell|apply NoDup_singleton]].
    split; [|ll_nodup Hd]. rewrite <- app_assoc. cbn [app]. rewrite seg_app. split.
    + eapply seg_frame; [| |exact Hs1]; ll_keep.
    + apply Hrel; [ll_keep|ll_keep|split; cell|split; cell].
Qed.

(** The two heads exchange their lists. *)
Lemma swap_spec s rhs l1 lhs l2 :
  two_lists s rhs l1 lhs l2 ->
  exists s', linked_list_swap s rhs lhs = Done s' /\ items s' lhs l1 /\ items s' rhs l2.
Proof.
  intros [[Hs1 Hn1] [Hs2 Hn2] Hd]. unfold linked_list_swap.
  assert (Hd' : NoDup (lhs :: rhs :: l2 ++ l1)) by (eapply NoDup_sub; [exact Hd|solve_submseteq]).
  destruct l1 as [|x1 l1], l2 as [|x2 l2].
  - destruct Hs1, Hs2. ll_facts Hd [rhs; lhs]. do 2 (ll_run; ll_if). ll_run.
    eexists. split; [reflexivity|]. split; (split; [split; cell|apply NoDup_singleton]).
  - destruct Hs1, (seg_ends _ _ _ _ _ Hs2) as [[? ?] [? ?]].
    destruct (last_apart _ _ _ _ _ Hd) as (? & ? & _).
    pose proof (fun s' a' b' => seg_relink s s' _ _ a' b' x2 l2 Hs2 ltac:(ll_nodup Hd)) as Hrel.
    remember (default x2 (last l2)) as y2 eqn:Ey. clear Ey. ll_facts Hd (rhs :: lhs :: x2 :: l2).
    do 2 (ll_run; ll_if). ll_run. eexists. split; [reflexivity|].
    split; (split; [|ll_nodup Hd]); [split; cell|]. apply Hrel; [ll_keep|ll_keep|split; cell|split; cell].
  - destruct Hs2, (seg_ends _ _ _ _ _ Hs1) as [[? ?] [? ?]].
    destruct (last_apart _ _ _ _ _ Hd') as (? & ? & _).
    pose proof (fun s' a' b' => seg_relink s s' _ _ a' b' x1 l1 Hs1 ltac:(ll_nodup Hd)) as Hrel.
    remember (default x1 (last l1)) as y1 eqn:Ey. clear Ey. ll_facts Hd (rhs :: lhs :: x1 :: l1).
    do 2 (ll_run; ll_if). ll_run. eexists. split; [reflexivity|].
    split; (split; [|ll_nodup Hd]); [|split; cell]. apply Hrel; [ll_keep|ll_keep|split; cell|split; cell].
  - destruct (seg_ends _ _ _ _ _ Hs1) as [[? ?] [? ?]], (seg_ends _ _ _ _ _ Hs2) as [[? ?] [? ?]].
    destruct (last_apart _ _ _ _ _ Hd) as (? & ? & Hy2), (last_apart _ _ _ _ _ Hd') as (? & ? & Hy1).
    pose proof (fun s' a' b' => seg_relink s s' _ _ a' b' x1 l1 Hs1 ltac:(ll_nodup Hd)) as Hrel1.
    pose proof (fun s' a' b' => seg_relink s s' _ _ a' b' x2 l2 Hs2 ltac:(ll_nodup Hd)) as Hrel2.
    assert (Hyy : default x1 (last l1) <> default x2 (last l2)).
    { intros E. apply Hy2. rewrite <- E. apply last_in. }
    rewrite not_elem_of_cons in Hy1, Hy2. destruct Hy1, Hy2.
    remember (default x1 (last l1)) as y1 eqn:Ey. clear Ey.
    remember (default x2 (last l2)) as y2 eqn:Ey. clear Ey.
    ll_facts Hd (rhs :: lhs :: x1 :: x2 :: l1 ++ l2).
    do 2 (ll_run; ll_if). ll_run. eexists. split; [reflexivity|].
    split; (split; [|ll_nodup Hd]); [apply Hrel1|apply Hrel2]; first [split; cell|ll_keep].
Qed.

(** The part before [item] goes to [head1]. *)
Lemma cut_before_spec s head1 head2 item l1 l2 :
  items s head2 (l1 ++ item :: l2) -> head1 ∉ head2 :: l1 ++ item :: l2 -> node_in s head1 ->
  next_of s !! head1 <> Some item ->
  exists s', linked_list_cut_before s head1 head2 item = Done s' /\ items s' head1 l1 /\ items s' head2 (item :: l2).
Proof.
  intros [Hs Hnd] Hh [[n Hn] [p Hp]] Hne. apply seg_app in Hs as [Hs1 Hs2]. unfold linked_list_cut_before.
  pose proof (NoDup_cons_2 _ _ Hh Hnd) as Hd. assert (n <> item) by congruence.
  rewrite (get_next_done _ _ _ Hn), bind_done. ll_if. destruct l1 as [|x l1].
  - destruct Hs1. ll_facts Hd (head1 :: head2 :: item :: l2). ll_run. eexists. split; [reflexivity|].
    split; (split; [|ll_nodup Hd]); [split; cell|]. split; [split; cell|ll_frame].
  - destruct (seg_ends _ _ _ _ _ Hs1) as [[? ?] [? ?]].
    pose proof (fun s' a' b' => seg_relink s s' _ _ a' b' x l1 Hs1 ltac:(ll_nodup Hd)) as Hrel.
    assert (Hd' : NoDup (head1 :: head2 :: (item :: l2) ++ x :: l1)) by ll_nodup Hd.
    destruct (last_apart _ _ _ _ _ Hd') as (? & ? & Hy). rewrite not_elem_of_cons in Hy. destruct Hy.
    remember (default x (last l1)) as y eqn:Ey. clear Ey.
    ll_facts Hd (head1 :: head2 :: item :: x :: l1 ++ l2). ll_run. eexists. split; [reflexivity|].
    split; (split; [|ll_nodup Hd]).
    + apply Hrel; [ll_keep|ll_keep|split; cell|split; cell].
    + split; [split; cell|]. eapply seg_frame; [| |exact Hs2]; ll_keep.
Qed.

(** The loop visits the items in order, the reverse loop in reverse order. *)
Lemma foreach_seg s fuel head a l :
  seg s a l head -> head ∉ l -> (length l < fuel)%nat ->
  foreach_loop fuel linked_list_next s head (hd head l) = Done l.
Proof.
  revert a fuel. induction l as [|x l IH]; intros a fuel Hs Hh Hf; (destruct fuel; cbn in Hf; [lia|]); cbn [foreach_loop hd].
  - rewrite Z.eqb_refl. reflexivity.
  - rewrite not_elem_of_cons in Hh. destruct Hh, Hs as [_ Hs].
    rewrite (proj2 (Z.eqb_neq x head)) by congruence. change (linked_list_next s x) with (get_next s x).
    rewrite (get_next_done _ _ _ (seg_first _ _ _ _ Hs)), bind_done, (IH x), bind_done by (auto; lia). reflexivity.
Qed.

Lemma foreach_reverse_seg s fuel head l b :
  seg s head l b -> head ∉ l -> (length l < fuel)%nat ->
  foreach_loop fuel linked_list_prev s head (default head (last l)) = Done (reverse l).
Proof.
  revert b fuel. induction l as [|x l IH] using rev_ind; intros b fuel Hs Hh Hf;
    (destruct fuel; [rewrite ?length_app in Hf; cbn in Hf; lia|]); cbn [foreach_loop].
  - cbn. rewrite Z.eqb_refl. reflexivity.
  - rewrite not_elem_of_app, not_elem_of_cons in Hh. rewrite length_app in Hf. cbn in Hf.
    destruct Hh as (? & ? & _). apply seg_snoc in Hs as [Hs _]. rewrite last_snoc, reverse_snoc. cbn [default from_option].
    unfold id. rewrite (proj2 (Z.eqb_neq x head)) by congruence. change (linked_list_prev s x) with (get_prev s x).
    rewrite (get_prev_done _ _ _ (seg_last _ _ _ _ Hs)), bind_done, (IH x), bind_done by (auto; lia). reflexivity.
Qed.

(** The safe loop, its body unlinking the item it is given. *)
Lemma foreach_safe_del s fuel head l :
  items s head l -> (length l < fuel)%nat ->
  exists s', foreach_safe_loop fuel linked_list_del s head (hd head l) = Done s' /\ items s' head []
    /\ (forall x, x ∈ l -> items s' x []) /\ same_outside (head :: l) s s'.
Proof.
  revert s fuel. induction l as [|x l IH]; intros s fuel Hi Hf; (destruct fuel; cbn in Hf; [lia|]); cbn [foreach_safe_loop hd].
  - rewrite Z.eqb_refl. exists s. split_and!; auto; [intros x Hx; by apply not_elem_of_nil in Hx|split; reflexivity].
  - pose proof Hi as [[_ Hs] Hnd]. ll_facts Hnd (head :: x :: l).
    rewrite (proj2 (Z.eqb_neq x head)) by congruence. change (linked_list_next s x) with (get_next s x).
    rewrite (get_next_done _ _ _ (seg_first _ _ _ _ Hs)), bind_done.
    destruct (list_del_spec s head x [] l Hi) as (s1 & -> & Hi1 & Hx1 & Ho1). rewrite bind_done.
    destruct (IH s1 fuel Hi1 ltac:(lia)) as (s' & -> & Hi' & Hall & Ho). exists s'.
    split_and!; auto.
    + intros y Hy. apply elem_of_cons in Hy as [->|Hy]; [|auto].
      eapply same_outside_items; [exact Ho| |exact Hx1]. intros z Hz. apply list_elem_of_singleton in Hz as ->.
      rewrite not_elem_of_cons. split; congruence || assumption.
    + eapply same_outside_trans; eapply same_outside_mono; [exact Ho1| |exact Ho|]; set_solver.
Qed.

(** ** The properties *)

(** [linked_list_add] and [linked_list_add_tail] insert a node that is on no
    list at the front and at the back, and touch no cell outside the list. *)
Theorem linked_list_add_inserts s head item l :
  items s head l -> item ∉ head :: l -> node_in s item ->
  (exists s', linked_list_add s head item = Done s' /\ items s' head (item :: l)
     /\ same_outside (item :: head :: l) s s')
  /\ (exists s', linked_list_add_tail s head item = Done s' /\ items s' head (l ++ [item])
     /\ same_outside (item :: head :: l) s s').
Proof. intros. split; [apply add_spec|apply add_tail_spec]; auto. Qed.

(** [linked_list_del] takes the item out of the list it is on, wherever it is,
    without knowing the head, leaves it a list of its own, and touches no cell
    outside the list; [move] and [move_tail] put it on another list. *)
Theorem linked_list_del_unlinks s head item l1 l2 :
  items s head (l1 ++ item :: l2) ->
  (exists s', linked_list_del s item = Done s' /\ items s' head (l1 ++ l2) /\ items s' item []
     /\ same_outside (item :: head :: l1 ++ l2) s s')
  /\ forall to l, items s to l -> (forall x, x ∈ head :: l1 ++ item :: l2 -> x ∉ to :: l) ->
     (exists s', linked_list_move s to item = Done s' /\ items s' head (l1 ++ l2) /\ items s' to (item :: l))
     /\ (exists s', linked_list_move_tail s to item = Done s' /\ items s' head (l1 ++ l2)
          /\ items s' to (l ++ [item])).
Proof. intros Hi. split; [by apply list_del_spec|]. intros to l. by apply move_spec. Qed.

(** On two disjoint lists, empty ones included, [splice] and [splice_tail]
    concatenate them and empty the second, and [swap] exchanges them. *)
Theorem linked_list_splice_swap s h1 l1 h2 l2 :
  two_lists s h1 l1 h2 l2 ->
  (exists s', linked_list_splice s h1 h2 = Done s' /\ items s' h1 (l2 ++ l1) /\ items s' h2 [])
  /\ (exists s', linked_list_splice_tail s h1 h2 = Done s' /\ items s' h1 (l1 ++ l2) /\ items s' h2 [])
  /\ (exists s', linked_list_swap s h1 h2 = Done s' /\ items s' h1 l2 /\ items s' h2 l1).
Proof.
  intros Ht. split_and!; [by apply splice_spec|by apply splice_tail_spec|].
  destruct (swap_spec s h1 l1 h2 l2 Ht) as (s' & ? & ? & ?). eauto.
Qed.

(** [linked_list_cut_before] splits a list before an item, unless the discarded
    head already points to that item. *)
Theorem linked_list_cut_before_splits s head1 head2 item l1 l2 :
  items s head2 (l1 ++ item :: l2) -> head1 ∉ head2 :: l1 ++ item :: l2 -> node_in s head1 ->
  next_of s !! head1 <> Some item ->
  exists s', linked_list_cut_before s head1 head2 item = Done s' /\ items s' head1 l1 /\ items s' head2 (item :: l2).
Proof. apply cut_before_spec. Qed.

(** The loops end, [foreach] visits the items in order and [foreach_reverse]
    in reverse order; a safe loop whose body unlinks each item empties the list. *)
Theorem linked_list_foreach_visits s fuel head l :
  items s head l -> (length l < fuel)%nat ->
  linked_list_foreach fuel s head = Done l
  /\ linked_list_foreach_reverse fuel s head = Done (reverse l)
  /\ exists s', linked_list_foreach_entry_safe fuel linked_list_del s head = Done s' /\ items s' head []
       /\ forall x, x ∈ l -> items s' x [].
Proof.
  intros [Hs Hnd] Hf. pose proof (NoDup_cons_1_1 _ _ Hnd) as Hh.
  unfold linked_list_foreach, linked_list_foreach_reverse, linked_list_foreach_entry_safe,
    linked_list_first, linked_list_last.
  rewrite (get_next_done _ _ _ (seg_first _ _ _ _ Hs)), (get_prev_done _ _ _ (seg_last _ _ _ _ Hs)), !bind_done.
  split_and!; [by eapply foreach_seg|by eapply foreach_reverse_seg|].
  destruct (foreach_safe_del s fuel head l) as (s' & E & Hi & Hx & _); [split; assumption|exact Hf|]. eauto.
Qed.

(** *** The properties at work *)

(** Two lists, with heads 0 and 4, and a node alone. *)
Definition two_heads : store :=
  Store (list_to_map [(0, 1); (1, 2); (2, 3); (3, 0); (4, 5); (5, 6); (6, 4); (7, 7)])
        (list_to_map [(1, 0); (2, 1); (3, 2); (0, 3); (5, 4); (6, 5); (4, 6); (7, 7)]).

Ltac items_compute :=
  split; [cbn; repeat split; vm_compute; reflexivity|by apply (bool_decide_unpack _)].

Lemma linked_list_add_inserts_witness :
  exists s', linked_list_add two_heads 0 7 = Done s' /\ items s' 0 [7; 1; 2; 3].
Proof.
  destruct (proj1 (linked_list_add_inserts two_heads 0 7 [1; 2; 3] ltac:(items_compute)
    ltac:(by apply (bool_decide_unpack _)) ltac:(split; vm_compute; eauto))) as (s' & E & Hi & _).
  exists s'. split; assumption.
Defined.

Lemma linked_list_del_unlinks_witness :
  (exists s', linked_list_del two_heads 2 = Done s' /\ items s' 0 [1; 3] /\ items s' 2 [])
  /\ exists s', linked_list_move_tail two_heads 4 2 = Done s' /\ items s' 0 [1; 3] /\ items s' 4 [5; 6; 2].
Proof.
  destruct (linked_list_del_unlinks two_heads 0 2 [1] [3] ltac:(items_compute)) as [(s' & E & Hi & Hx & _) Hm].
  split; [eauto|]. apply (Hm 4 [5; 6] ltac:(items_compute)). 
  intros x Hx1 Hx2. rewrite !elem_of_cons, !elem_of_nil in Hx2. cbn in Hx1.
  rewrite !elem_of_cons, !elem_of_nil in Hx1. lia.
Defined.

Lemma linked_list_splice_swap_witness :
  (exists s', linked_list_splice two_heads 0 4 = Done s' /\ items s' 0 [5; 6; 1; 2; 3] /\ items s' 4 [])
  /\ (exists s', linked_list_splice_tail two_heads 0 4 = Done s' /\ items s' 0 [1; 2; 3; 5; 6] /\ items s' 4 [])
  /\ (exists s', linked_list_swap two_heads 0 4 = Done s' /\ items s' 0 [5; 6] /\ items s' 4 [1; 2; 3]).
Proof.
  apply (linked_list_splice_swap two_heads 0 [1; 2; 3] 4 [5; 6]).
  split; [items_compute|items_compute|by apply (bool_decide_unpack _)].
Defined.

Lemma linked_list_cut_before_splits_witness :
  exists s', linked_list_cut_before two_heads 7 0 3 = Done s' /\ items s' 7 [1; 2] /\ items s' 0 [3].
Proof.
  apply (linked_list_cut_before_splits two_heads 7 0 3 [1; 2] []);
    [items_compute|by apply (bool_decide_unpack _)|split; vm_compute; eauto|vm_compute; discriminate].
Defined.

Lemma linked_list_foreach_visits_witness :
  linked_list_foreach 4 two_heads 0 = Done [1; 2; 3]
  /\ linked_list_foreach_reverse 4 two_heads 0 = Done [3; 2; 1]
  /\ exists s', linked_list_foreach_entry_safe 4 linked_list_del two_heads 0 = Done s' /\ items s' 0 []
       /\ forall x, x ∈ [1; 2; 3] -> items s' x [].
Proof. apply (linked_list_foreach_visits two_heads 4 0 [1; 2; 3]); [items_compute|cbn; lia]. Defined.
