(* ===== verification/LinkedEntries.v ===== *)
(** * Entries of intrusive lists ([core/native/lists/linked.h], lines 292-423)

    The macros that go from a list node to the structure it is a member of, and the
    loops over these structures.  A structure is its address, [member] the offset of
    the node in it; the nodes are those of [LinkedList]. *)
From S2P Require Import Prelude LinkedList.

Section Entries.
Context (member : Z).

(** ** The macros *)

Definition linked_list_entry (item : loc) : Z := item - member.
(** [&(item)->member]. *)
Definition entry_node (item : Z) : loc := item + member.

Definition linked_list_first_entry (s : store) (head : loc) : outcome Z := item ← linked_list_first s head; Done (linked_list_entry item).
Definition linked_list_last_entry (s : store) (head : loc) : outcome Z := item ← linked_list_last s head; Done (linked_list_entry item).
Definition linked_list_shift_entry (s : store) (head : loc) : outcome (Z * store) :=
  '(item, s) ← linked_list_shift s head; Done (linked_list_entry item, s).
Definition linked_list_shift_tail_entry (s : store) (head : loc) : outcome (Z * store) :=
  '(item, s) ← linked_list_shift_tail s head; Done (linked_list_entry item, s).
Definition linked_list_next_entry (s : store) (item : Z) : outcome Z :=
  next ← linked_list_next s (entry_node item); Done (linked_list_entry next).
Definition linked_list_prev_entry (s : store) (item : Z) : outcome Z :=
  prev ← linked_list_prev s (entry_node item); Done (linked_list_entry prev).
Definition linked_list_prev_entry_safe (s : store) (item : Z) (head : loc) : outcome (option Z) :=
  prev ← linked_list_prev s (entry_node item);
  if prev =? head then Done None else
  prev ← linked_list_prev s (entry_node item); Done (Some (linked_list_entry prev)).
Definition linked_list_add_entry (s : store) (head : loc) (item : Z) : outcome store := linked_list_add s head (entry_node item).
Definition linked_list_add_tail_entry (s : store) (head : loc) (item : Z) : outcome store := linked_list_add_tail s head (entry_node item).
Definition linked_list_move_entry (s : store) (to : loc) (item : Z) : outcome store := linked_list_move s to (entry_node item).
Definition linked_list_move_tail_entry (s : store) (to : loc) (item : Z) : outcome store := linked_list_move_tail s to (entry_node item).
Definition linked_list_del_entry (s : store) (item : Z) : outcome store := linked_list_del s (entry_node item).
Definition linked_list_entry_is_head (item : Z) (head : loc) : bool := item + member =? head.

(** ** The loops

    The entries a loop gives to its body.  A safe loop reads the next entry before
    its body, which may unlink the item, and takes it for a condition: it stops at an
    entry whose address is null. *)

Fixpoint entry_loop (fuel : nat) (step : store -> Z -> outcome Z) (s : store) (head : loc) (item : Z) : outcome (list Z) :=
  match fuel with
  | O => Spins
  | S fuel =>
      if linked_list_entry_is_head item head then Done [] else
      item' ← step s item; l ← entry_loop fuel step s head item'; Done (item :: l)
  end.
Definition foreach_entry (fuel : nat) (s : store) (head : loc) : outcome (list Z) :=
  item ← linked_list_first_entry s head; entry_loop fuel linked_list_next_entry s head item.
Definition foreach_entry_reverse (fuel : nat) (s : store) (head : loc) : outcome (list Z) :=
  item ← linked_list_last_entry s head; entry_loop fuel linked_list_prev_entry s head item.

Fixpoint entry_safe_loop (fuel : nat) (step : store -> Z -> outcome Z) (body : store -> Z -> outcome store)
    (s : store) (head : loc) (item : Z) : outcome (list Z * store) :=
  match fuel with
  | O => Spins
  | S fuel =>
      if linked_list_entry_is_head item head then Done ([], s) else
      tmp ← step s item;
      if tmp =? 0 then Done ([], s) else
      s ← body s item;
      '(l, s) ← entry_safe_loop fuel step body s head tmp;
      Done (item :: l, s)
  end.
Definition foreach_entry_safe (fuel : nat) (body : store -> Z -> outcome store) (s : store) (head : loc) : outcome (list Z * store) :=
  item ← linked_list_first_entry s head; entry_safe_loop fuel linked_list_next_entry body s head item.
Definition foreach_entry_safe_reverse (fuel : nat) (body : store -> Z -> outcome store) (s : store) (head : loc) : outcome (list Z * store) :=
  item ← linked_list_last_entry s head; entry_safe_loop fuel linked_list_prev_entry body s head item.

(** ** Entries and nodes *)

Lemma entry_node_entry x : entry_node (linked_list_entry x) = x.
Proof. unfold entry_node, linked_list_entry. lia. Qed.

Lemma entry_is_head x head : linked_list_entry_is_head (linked_list_entry x) head = (x =? head).
Proof. unfold linked_list_entry_is_head, linked_list_entry. f_equal. lia. Qed.

(** A loop over entries is the loop over their nodes. *)
Lemma entry_loop_nodes fuel step nstep s head :
  (forall x, step s (linked_list_entry x) = (y ← nstep s x; Done (linked_list_entry y))) ->
  forall x, entry_loop fuel step s head (linked_list_entry x)
  = (l ← foreach_loop fuel nstep s head x; Done (map linked_list_entry l)).
Proof.
  intros Hstep. induction fuel as [|fuel IH]; intros x; [reflexivity|]. cbn [entry_loop foreach_loop].
  rewrite entry_is_head. destruct (x =? head); [reflexivity|]. rewrite Hstep.
  destruct (nstep s x) as [y| | |]; try reflexivity. cbn [mbind outcome_bind]. rewrite IH.
  destruct (foreach_loop fuel nstep s head y); reflexivity.
Qed.

Lemma next_entry_node s x : linked_list_next_entry s (linked_list_entry x) = (y ← linked_list_next s x; Done (linked_list_entry y)).
Proof. unfold linked_list_next_entry. rewrite entry_node_entry. reflexivity. Qed.
Lemma prev_entry_node s x : linked_list_prev_entry s (linked_list_entry x) = (y ← linked_list_prev s x; Done (linked_list_entry y)).
Proof. unfold linked_list_prev_entry. rewrite entry_node_entry. reflexivity. Qed.
Lemma del_entry_node s x : linked_list_del_entry s (linked_list_entry x) = linked_list_del s x.
Proof. unfold linked_list_del_entry. rewrite entry_node_entry. reflexivity. Qed.

(** What is left when a list has been unlinked item by item. *)
Definition unlinked (s s' : store) (head : loc) (l : list loc) : Prop :=
  items s' head [] /\ (forall x, x ∈ l -> items s' x []) /\ same_outside (head :: l) s s'.

Lemma unlinked_step s s1 s' head x l k :
  l ≡ₚ x :: k -> NoDup (head :: l) -> items s1 x [] -> same_outside (x :: head :: k) s s1 -> unlinked s1 s' head k -> unlinked s s' head l.
Proof.
  intros Hl Hnd Hx Ho (Hi & Hall & Ho'). split; [exact Hi|]. rewrite Hl in Hnd.
  pose proof (NoDup_cons_1_1 _ _ Hnd) as Hh. apply NoDup_cons_1_2, NoDup_cons_1_1 in Hnd.
  rewrite not_elem_of_cons in Hh. split.
  - intros y Hy. rewrite Hl in Hy. apply elem_of_cons in Hy as [->|Hy]; [|auto].
    eapply same_outside_items; [exact Ho'| |exact Hx]. intros z Hz. apply list_elem_of_singleton in Hz as ->.
    rewrite not_elem_of_cons. destruct Hh. split; [congruence|assumption].
  - eapply same_outside_trans; eapply same_outside_mono; [exact Ho| |exact Ho'|]; intros z Hz; rewrite elem_of_cons, Hl; set_unfold; tauto.
Qed.

Lemma entry_not_null x : x <> member -> (linked_list_entry x =? 0) = false.
Proof. intros H. apply Z.eqb_neq. unfold linked_list_entry. lia. Qed.

(** The two safe loops whose body unlinks the entry it is given. *)
Lemma entry_safe_forward s fuel head l :
  items s head l -> (forall x, x ∈ head :: l -> x <> member) -> (length l < fuel)%nat ->
  exists s', entry_safe_loop fuel linked_list_next_entry linked_list_del_entry s head (linked_list_entry (hd head l))
    = Done (map linked_list_entry l, s') /\ unlinked s s' head l.
Proof.
  revert s fuel. induction l as [|x l IH]; intros s fuel Hi Hm Hf; (destruct fuel; cbn in Hf; [lia|]);
    cbn [entry_safe_loop hd]; rewrite entry_is_head.
  - rewrite Z.eqb_refl. exists s. split; [reflexivity|]. split; [exact Hi|]. split; [set_solver|split; reflexivity].
  - pose proof Hi as [[_ Hs] Hnd]. rewrite (proj2 (Z.eqb_neq x head)) by (intros ->; apply NoDup_cons_1_1 in Hnd; set_solver).
    rewrite next_entry_node. change (linked_list_next s x) with (get_next s x).
    rewrite (get_next_done _ _ _ (seg_first _ _ _ _ Hs)), !bind_done.
    rewrite entry_not_null by (apply Hm; destruct l; set_solver).
    rewrite del_entry_node.
    destruct (list_del_spec s head x [] l Hi) as (s1 & -> & Hi1 & Hx1 & Ho1). rewrite bind_done.
    destruct (IH s1 fuel Hi1 ltac:(set_solver) ltac:(lia)) as (s' & -> & Hu). exists s'. split; [reflexivity|].
    eapply unlinked_step; eauto.
Qed.

Lemma entry_safe_backward s fuel head l :
  items s head l -> (forall x, x ∈ head :: l -> x <> member) -> (length l < fuel)%nat ->
  exists s', entry_safe_loop fuel linked_list_prev_entry linked_list_del_entry s head (linked_list_entry (default head (last l)))
    = Done (map linked_list_entry (reverse l), s') /\ unlinked s s' head l.
Proof.
  revert s fuel. induction l as [|x l IH] using rev_ind; intros s fuel Hi Hm Hf;
    (destruct fuel; [rewrite ?length_app in Hf; cbn in Hf; lia|]); cbn [entry_safe_loop].
  - rewrite entry_is_head. cbn. rewrite Z.eqb_refl. exists s. split; [reflexivity|]. split; [exact Hi|]. split; [set_solver|split; reflexivity].
  - rewrite last_snoc, reverse_snoc. cbn [default from_option]. unfold id. rewrite entry_is_head.
    rewrite length_app in Hf. cbn in Hf. pose proof Hi as [Hs Hnd]. apply seg_snoc in Hs as [Hs _].
    rewrite (proj2 (Z.eqb_neq x head)) by (intros ->; apply NoDup_cons_1_1 in Hnd; set_solver).
    rewrite prev_entry_node. change (linked_list_prev s x) with (get_prev s x).
    rewrite (get_prev_done _ _ _ (seg_last _ _ _ _ Hs)), !bind_done.
    rewrite entry_not_null by (apply Hm; destruct (last l) eqn:E; [apply last_Some in E as [? ->]|]; set_solver).
    rewrite del_entry_node.
    destruct (list_del_spec s head x l [] Hi) as (s1 & -> & Hi1 & Hx1 & Ho1). rewrite app_nil_r in *. rewrite bind_done.
    destruct (IH s1 fuel Hi1 ltac:(set_solver) ltac:(lia)) as (s' & -> & Hu). exists s'. split; [reflexivity|].
    eapply unlinked_step; eauto. symmetry. apply Permutation_cons_append.
Qed.

(** The loops over entries visit the structures of the list once each and in
    order, forwards and backwards, also when the body of a safe loop unlinks them: it
    then leaves the list empty and every item a list of its own.  No node may be
    where its structure would be at the null address. *)
Theorem linked_list_entries_visited s fuel head l :
  items s head l -> (forall x, x ∈ head :: l -> x <> member) -> (length l < fuel)%nat ->
  foreach_entry fuel s head = Done (map linked_list_entry l)
  /\ foreach_entry_reverse fuel s head = Done (map linked_list_entry (reverse l))
  /\ (exists s', foreach_entry_safe fuel linked_list_del_entry s head = Done (map linked_list_entry l, s') /\ unlinked s s' head l)
  /\ (exists s', foreach_entry_safe_reverse fuel linked_list_del_entry s head = Done (map linked_list_entry (reverse l), s')
        /\ unlinked s s' head l).
Proof.
  intros Hi Hm Hf. pose proof Hi as [Hs Hnd]. pose proof (NoDup_cons_1_1 _ _ Hnd) as Hh.
  assert (F : linked_list_first_entry s head = Done (linked_list_entry (hd head l))).
  { unfold linked_list_first_entry, linked_list_first. rewrite (get_next_done _ _ _ (seg_first _ _ _ _ Hs)). reflexivity. }
  assert (L : linked_list_last_entry s head = Done (linked_list_entry (default head (last l)))).
  { unfold linked_list_last_entry, linked_list_last. rewrite (get_prev_done _ _ _ (seg_last _ _ _ _ Hs)). reflexivity. }
  unfold foreach_entry, foreach_entry_reverse, foreach_entry_safe, foreach_entry_safe_reverse. rewrite F, L, !bind_done.
  split_and!.
  - rewrite (entry_loop_nodes _ _ linked_list_next) by (intros; apply next_entry_node).
    rewrite (foreach_seg s fuel head head l) by auto. reflexivity.
  - rewrite (entry_loop_nodes _ _ linked_list_prev) by (intros; apply prev_entry_node).
    rewrite (foreach_reverse_seg s fuel head l head) by auto. reflexivity.
  - apply entry_safe_forward; assumption.
  - apply entry_safe_backward; assumption.
Qed.

(** Before the first entry there is none. *)
Lemma prev_entry_safe_spec s head x l1 l2 :
  items s head (l1 ++ x :: l2) ->
  linked_list_prev_entry_safe s (linked_list_entry x) head = Done (linked_list_entry <$> last l1).
Proof.
  intros [Hs Hnd]. apply seg_app in Hs as [Hs _]. unfold linked_list_prev_entry_safe. rewrite entry_node_entry.
  change (linked_list_prev s x) with (get_prev s x). rewrite (get_prev_done _ _ _ (seg_last _ _ _ _ Hs)), bind_done.
  apply NoDup_cons_1_1 in Hnd. destruct (last l1) as [y|] eqn:E; cbn.
  - rewrite (proj2 (Z.eqb_neq y head)); [reflexivity|]. intros ->. apply last_Some in E as [l' ->]. set_solver.
  - rewrite Z.eqb_refl. reflexivity.
Qed.
End Entries.

(** Two entries of 24 bytes whose nodes are 8 bytes into them, on a list with its
    head at 100. *)
Definition two_entries : store := Store {[100 := 208; 208 := 308; 308 := 100]} {[100 := 308; 208 := 100; 308 := 208]}.
Example two_entries_visited :
  foreach_entry 8 3 two_entries 100 = Done [200; 300] /\ foreach_entry_reverse 8 3 two_entries 100 = Done [300; 200]
  /\ (r ← foreach_entry_safe_reverse 8 3 (linked_list_del_entry 8) two_entries 100; foreach_entry 8 1 (snd r) 100) = Done [].
Proof. vm_compute. auto. Qed.
