(* ===== verification/Time.v ===== *)
(** * Time arithmetic ([core/native/time/time.h]) and number printing ([strings/format.h])

    The macros work on [struct timespec] variables they modify in place; each
    is here a function from the values of its variables to their new values.
    [tv_sec] and [tv_nsec] are 64-bit signed integers, whose overflow is a
    fault. *)
From stdpp Require Import pretty.
From S2P Require Import Prelude.

Definition NANOSECONDS_PER_SECOND : Z := 1000000000.

Record timespec := Timespec { tv_sec : Z; tv_nsec : Z }.

(** A signed 64-bit result. *)
Definition fits64 (x : Z) : bool := (- 2 ^ 63 <=? x) && (x <? 2 ^ 63).
Definition signed64 (x : Z) : outcome Z := if fits64 x then Done x else Faults.

(** The two loops of [time_normalize]. *)
Fixpoint carry_down (fuel : nat) (time : timespec) : outcome timespec :=
  match fuel with
  | O => Spins
  | S fuel =>
      if tv_nsec time >=? NANOSECONDS_PER_SECOND then
        sec ← signed64 (tv_sec time + 1);
        nsec ← signed64 (tv_nsec time - NANOSECONDS_PER_SECOND);
        carry_down fuel (Timespec sec nsec)
      else Done time
  end.
Fixpoint carry_up (fuel : nat) (time : timespec) : outcome timespec :=
  match fuel with
  | O => Spins
  | S fuel =>
      if tv_nsec time <=? - NANOSECONDS_PER_SECOND then
        sec ← signed64 (tv_sec time - 1);
        nsec ← signed64 (tv_nsec time + NANOSECONDS_PER_SECOND);
        carry_up fuel (Timespec sec nsec)
      else Done time
  end.

(** Each iteration takes a second off [tv_nsec]. *)
Definition loop_fuel (time : timespec) : nat := S (Z.to_nat (Z.abs (tv_nsec time) / NANOSECONDS_PER_SECOND)).

Definition time_normalize (time : timespec) : outcome timespec :=
  time ← carry_down (loop_fuel time) time;
  time ← carry_up (loop_fuel time) time;
  if tv_nsec time <? 0 then
    sec ← signed64 (tv_sec time - 1);
    nsec ← signed64 (NANOSECONDS_PER_SECOND + tv_nsec time);
    Done (Timespec sec nsec)
  else Done time.

(** C's division truncates. *)
Definition time_from_milliseconds (milliseconds : Z) : outcome timespec :=
  time_normalize (Timespec (Z.quot milliseconds 1000) (Z.rem milliseconds 1000 * 1000000)).

Definition time_to_milliseconds (time : timespec) : outcome Z :=
  sec ← signed64 (tv_sec time * 1000);
  signed64 (sec + Z.quot (tv_nsec time) 1000000).
Definition time_to_microseconds (time : timespec) : outcome Z :=
  sec ← signed64 (tv_sec time * 1000000);
  signed64 (sec + Z.quot (tv_nsec time) 1000).

(** The result and the new value of the second variable. *)
Definition time_add (result adding : timespec) : outcome (timespec * timespec) :=
  result ← time_normalize result;
  adding ← time_normalize adding;
  sec ← signed64 (tv_sec result + tv_sec adding);
  nsec ← signed64 (tv_nsec result + tv_nsec adding);
  result ← time_normalize (Timespec sec nsec);
  Done (result, adding).

Definition time_sub (result subtracting : timespec) : outcome (timespec * timespec) :=
  result ← time_normalize result;
  subtracting ← time_normalize subtracting;
  sec ← signed64 (tv_sec result - tv_sec subtracting);
  nsec ← signed64 (tv_nsec result - tv_nsec subtracting);
  result ← time_normalize (Timespec sec nsec);
  Done (result, subtracting).

(** The deadlines, [now] being what [time_now_real] reads from the clock. *)
Definition timeout_milliseconds (now : timespec) (milliseconds : Z) : outcome timespec :=
  add ← time_from_milliseconds milliseconds;
  '(timeout, _) ← time_add now add;
  Done timeout.
Definition timeout_seconds (now : timespec) (seconds : Z) : outcome timespec :=
  milliseconds ← signed64 (seconds * 1000);
  timeout_milliseconds now milliseconds.
Definition timeout_microseconds (now : timespec) (microseconds : Z) : outcome timespec :=
  timeout_milliseconds now (Z.quot microseconds 1000).

(** [snprintf(buf, 22, "%lld", val)]: both print the signed value. *)
Definition signed_to_string (val : Z) : string := pretty (i64 val).
Definition unsigned_to_string (val : Z) : string := pretty (i64 val).

(** ** Lemmas *)

Definition nanoseconds (time : timespec) : Z := tv_sec time * NANOSECONDS_PER_SECOND + tv_nsec time.
Definition normal (time : timespec) : Prop := 0 <= tv_nsec time < NANOSECONDS_PER_SECOND.

Lemma signed64_done x : - 2 ^ 63 <= x < 2 ^ 63 -> signed64 x = Done x.
Proof.
  intros H. unfold signed64, fits64. rewrite (proj2 (Z.leb_le _ _)), (proj2 (Z.ltb_lt _ _)) by lia. reflexivity.
Qed.

Local Abbreviation N := NANOSECONDS_PER_SECOND.

Lemma N_pos : N = 1000000000.
Proof. reflexivity. Qed.

Lemma div_step n : (n - N) / N = n / N - 1 /\ (n - N) mod N = n mod N.
Proof.
  replace (n - N) with (n + (-1) * N) by lia. rewrite Z.div_add, Z.mod_add by (rewrite N_pos; lia). lia.
Qed.

Lemma carry_down_done fuel sec nsec :
  0 <= nsec < 2 ^ 63 -> - 2 ^ 63 <= sec -> sec + nsec / N < 2 ^ 63 -> nsec / N < Z.of_nat fuel ->
  carry_down fuel (Timespec sec nsec) = Done (Timespec (sec + nsec / N) (nsec mod N)).
Proof.
  revert sec nsec. induction fuel as [|fuel IH]; intros sec nsec Hn Hs Hr Hf.
  { pose proof (Z.div_pos nsec N). rewrite N_pos in *. lia. }
  cbn [carry_down tv_sec tv_nsec]. destruct (Z.geb_spec nsec N) as [Hge|Hlt].
  - assert (1 <= nsec / N) by (rewrite N_pos in *; zdiv_lia).
    rewrite !signed64_done, !bind_done by (rewrite N_pos in *; lia). pose proof (div_step nsec) as [E1 E2].
    rewrite IH by (rewrite ?E1; rewrite N_pos in *; lia). rewrite E1, E2. do 2 f_equal. lia.
  - rewrite Z.div_small, Z.mod_small by lia. do 2 f_equal. lia.
Qed.

Lemma carry_up_done fuel sec nsec :
  0 <= nsec < 2 ^ 63 -> sec < 2 ^ 63 -> - 2 ^ 63 <= sec - nsec / N -> nsec / N < Z.of_nat fuel ->
  carry_up fuel (Timespec sec (- nsec)) = Done (Timespec (sec - nsec / N) (- (nsec mod N))).
Proof.
  revert sec nsec. induction fuel as [|fuel IH]; intros sec nsec Hn Hs Hr Hf.
  { pose proof (Z.div_pos nsec N). rewrite N_pos in *. lia. }
  cbn [carry_up tv_sec tv_nsec]. destruct (Z.leb_spec (- nsec) (- N)) as [Hge|Hlt].
  - assert (1 <= nsec / N) by (rewrite N_pos in *; zdiv_lia).
    rewrite !signed64_done, !bind_done by (rewrite N_pos in *; lia). pose proof (div_step nsec) as [E1 E2].
    replace (- nsec + N) with (- (nsec - N)) by lia.
    rewrite IH by (rewrite ?E1; rewrite N_pos in *; lia). rewrite E1, E2. do 2 f_equal. lia.
  - rewrite Z.div_small, Z.mod_small by lia. do 2 f_equal. lia.
Qed.

Lemma carry_down_small fuel time : tv_nsec time < N -> carry_down (S fuel) time = Done time.
Proof. intros H. cbn [carry_down]. destruct (Z.geb_spec (tv_nsec time) N); [lia|reflexivity]. Qed.
Lemma carry_up_small fuel time : - N < tv_nsec time -> carry_up (S fuel) time = Done time.
Proof. intros H. cbn [carry_up]. destruct (Z.leb_spec (tv_nsec time) (- N)); [lia|reflexivity]. Qed.

(** [time_normalize] computes the floored quotient, when it is representable. *)
Lemma normalize_done sec nsec :
  - 2 ^ 63 <= sec < 2 ^ 63 -> Z.abs nsec < 2 ^ 63 -> - 2 ^ 63 <= sec + nsec / N < 2 ^ 63 ->
  time_normalize (Timespec sec nsec) = Done (Timespec (sec + nsec / N) (nsec mod N)).
Proof.
  intros Hs Hn Hr. unfold time_normalize.
  destruct (Z.le_gt_cases 0 nsec).
  - rewrite carry_down_done; [|lia..|].
    2: { unfold loop_fuel. cbn [tv_nsec]. rewrite Z.abs_eq by lia. pose proof (Z.div_pos nsec N). rewrite N_pos in *. lia. }
    rewrite bind_done. pose proof (Z.mod_pos_bound nsec N ltac:(rewrite N_pos; lia)).
    unfold loop_fuel. rewrite carry_up_small, bind_done by (cbn; lia). cbn [tv_nsec].
    destruct (Z.ltb_spec (nsec mod N) 0); [lia|reflexivity].
  - unfold loop_fuel. rewrite carry_down_small, bind_done by (cbn; rewrite N_pos; lia).
    set (m := - nsec). replace nsec with (- m) in * by lia.
    assert (Hm : m / N <= - (- m / N) <= m / N + 1) by (rewrite N_pos; zdiv_lia).
    rewrite carry_up_done; [|lia..|].
    2: { unfold loop_fuel. cbn [tv_nsec]. rewrite Z.abs_neq by lia. pose proof (Z.div_pos m N).
         rewrite Z.opp_involutive. rewrite N_pos in *. lia. }
    rewrite bind_done. cbn [tv_nsec tv_sec]. pose proof (Z.mod_pos_bound m N ltac:(rewrite N_pos; lia)) as Hb.
    destruct (Z.ltb_spec (- (m mod N)) 0).
    + assert (E : - m / N = - (m / N) - 1 /\ - m mod N = N - m mod N) by (rewrite N_pos in *; zdiv_lia).
      destruct E as [E1 E2]. rewrite !signed64_done, !bind_done by (rewrite N_pos in *; lia).
      rewrite E1, E2. do 2 f_equal; lia.
    + assert (E : - m / N = - (m / N) /\ - m mod N = - (m mod N)) by (rewrite N_pos in *; zdiv_lia).
      destruct E as [-> ->]. reflexivity.
Qed.

Lemma nanoseconds_floor time :
  nanoseconds time / N = tv_sec time + tv_nsec time / N /\ nanoseconds time mod N = tv_nsec time mod N.
Proof.
  unfold nanoseconds. rewrite Z.add_comm, Z.div_add, Z.mod_add by (rewrite N_pos; lia). lia.
Qed.

(** The representable times, and the normal form of a number of nanoseconds. *)
Record time_ok (time : timespec) : Prop := {
  ok_sec : - 2 ^ 63 <= tv_sec time < 2 ^ 63;
  ok_nsec : Z.abs (tv_nsec time) < 2 ^ 63;
}.
Definition seconds_fit (n : Z) : Prop := - 2 ^ 63 <= n / N < 2 ^ 63.
Definition of_nanoseconds (n : Z) : timespec := Timespec (n / N) (n mod N).

Lemma normalize_nanoseconds time :
  time_ok time -> seconds_fit (nanoseconds time) -> time_normalize time = Done (of_nanoseconds (nanoseconds time)).
Proof.
  intros [Hs Hn] Hf. unfold seconds_fit, of_nanoseconds in *. destruct (nanoseconds_floor time) as [E1 E2].
  rewrite E1, E2 in *. destruct time. apply normalize_done; assumption.
Qed.

Lemma of_nanoseconds_total n : nanoseconds (of_nanoseconds n) = n.
Proof. unfold nanoseconds, of_nanoseconds. cbn. rewrite N_pos. zdiv_lia. Qed.

Lemma normal_of n : normal (of_nanoseconds n).
Proof. unfold normal. cbn. apply Z.mod_pos_bound. rewrite N_pos. lia. Qed.

Lemma from_milliseconds_done ms :
  - 2 ^ 63 <= ms < 2 ^ 63 -> time_from_milliseconds ms = Done (of_nanoseconds (ms * 1000000)).
Proof.
  intros Hm. unfold time_from_milliseconds.
  rewrite normalize_nanoseconds; unfold seconds_fit, nanoseconds; cbn [tv_sec tv_nsec]; rewrite ?N_pos.
  - do 2 f_equal. pose proof (Z.quot_rem' ms 1000). lia.
  - split; cbn [tv_sec tv_nsec]; zdiv_lia.
  - zdiv_lia.
Qed.

(** ** The properties *)

(** [time_normalize] ends, with the nanoseconds in range and the total time
    unchanged, for every pair of 64-bit fields whose whole seconds fit. *)
Theorem time_normalize_total time :
  time_ok time -> seconds_fit (nanoseconds time) ->
  exists t, time_normalize time = Done t /\ normal t /\ nanoseconds t = nanoseconds time.
Proof.
  intros Hok Hf. exists (of_nanoseconds (nanoseconds time)).
  split_and!; [by apply normalize_nanoseconds| |apply of_nanoseconds_total].
  apply normal_of.
Qed.

(** [time_add] and [time_sub] add and subtract times exactly, in normal form,
    when no whole number of seconds overflows. *)
Theorem time_add_sub_exact a b :
  time_ok a -> time_ok b -> seconds_fit (nanoseconds a) -> seconds_fit (nanoseconds b) ->
  (seconds_fit (nanoseconds a + nanoseconds b - N) -> seconds_fit (nanoseconds a + nanoseconds b) ->
     exists t b', time_add a b = Done (t, b') /\ normal t
       /\ nanoseconds t = nanoseconds a + nanoseconds b)
  /\ (seconds_fit (nanoseconds a - nanoseconds b) -> seconds_fit (nanoseconds a - nanoseconds b + N) ->
     exists t b', time_sub a b = Done (t, b') /\ normal t
       /\ nanoseconds t = nanoseconds a - nanoseconds b).
Proof.
  intros Ha Hb Hfa Hfb. set (x := nanoseconds a) in *. set (y := nanoseconds b) in *.
  split; intros H1 H2; [exists (of_nanoseconds (x + y))|exists (of_nanoseconds (x - y))];
    exists (of_nanoseconds y); (split_and!; [|apply normal_of|apply of_nanoseconds_total]);
    [unfold time_add|unfold time_sub];
    rewrite !normalize_nanoseconds, !bind_done by assumption; fold x y; cbn [tv_sec tv_nsec of_nanoseconds].
  - rewrite !signed64_done, !bind_done by (unfold seconds_fit in *; rewrite N_pos in *; zdiv_lia).
    rewrite (normalize_nanoseconds (Timespec _ _)), bind_done; unfold nanoseconds; cbn [tv_sec tv_nsec].
    + do 3 f_equal. rewrite N_pos. zdiv_lia.
    + split; cbn [tv_sec tv_nsec]; unfold seconds_fit in *; rewrite N_pos in *; zdiv_lia.
    + replace (_ + _) with (x + y) by (rewrite N_pos; zdiv_lia). exact H2.
  - rewrite !signed64_done, !bind_done by (unfold seconds_fit in *; rewrite N_pos in *; zdiv_lia).
    rewrite (normalize_nanoseconds (Timespec _ _)), bind_done; unfold nanoseconds; cbn [tv_sec tv_nsec].
    + do 3 f_equal. rewrite N_pos. zdiv_lia.
    + split; cbn [tv_sec tv_nsec]; unfold seconds_fit in *; rewrite N_pos in *; zdiv_lia.
    + replace (_ + _) with (x - y) by (rewrite N_pos; zdiv_lia). exact H1.
Qed.

(** Milliseconds to a time and back is the identity, for negative ones too,
    down to the last thousand of the 64-bit range. *)
Theorem time_milliseconds_roundtrip ms :
  - 2 ^ 63 + 999 <= ms < 2 ^ 63 ->
  exists t, time_from_milliseconds ms = Done t /\ normal t /\ time_to_milliseconds t = Done ms.
Proof.
  intros Hm. exists (of_nanoseconds (ms * 1000000)).
  split_and!; [apply from_milliseconds_done; lia|apply normal_of|].
  unfold time_to_milliseconds, of_nanoseconds. cbn [tv_sec tv_nsec]. rewrite N_pos.
  assert (E : ms * 1000000 / 1000000000 = ms / 1000 /\ ms * 1000000 mod 1000000000 = ms mod 1000 * 1000000) by zdiv_lia.
  destruct E as [-> ->]. rewrite Z.quot_mul by lia.
  rewrite signed64_done, bind_done, signed64_done by zdiv_lia. f_equal. zdiv_lia.
Qed.

(** *** The properties at work *)

Lemma time_normalize_total_witness :
  exists t, time_normalize (Timespec 5 (-2500000001)) = Done t /\ normal t
    /\ nanoseconds t = nanoseconds (Timespec 5 (-2500000001)).
Proof. apply (time_normalize_total (Timespec 5 (-2500000001))); [split; cbn; lia|vm_compute; split; congruence]. Defined.

Lemma time_add_sub_exact_witness :
  (exists t b, time_add (Timespec 1 900000000) (Timespec 2 300000000) = Done (t, b) /\ t = Timespec 4 200000000)
  /\ exists t b, time_sub (Timespec 1 200000000) (Timespec 2 300000000) = Done (t, b) /\ nanoseconds t = -1100000000.
Proof.
  destruct (time_add_sub_exact (Timespec 1 900000000) (Timespec 2 300000000)) as [Ha _];
    [split; cbn; lia|split; cbn; lia|vm_compute; split; congruence|vm_compute; split; congruence|].
  destruct (time_add_sub_exact (Timespec 1 200000000) (Timespec 2 300000000)) as [_ Hs];
    [split; cbn; lia|split; cbn; lia|vm_compute; split; congruence|vm_compute; split; congruence|].
  split.
  - destruct Ha as (t & b & E & _ & Et); [vm_compute; split; congruence..|]. exists t, b. split; [exact E|].
    vm_compute in E. congruence.
  - destruct Hs as (t & b & E & _ & Et); [vm_compute; split; congruence..|]. exists t, b. split; [exact E|].
    rewrite Et. reflexivity.
Defined.

Lemma time_milliseconds_roundtrip_witness :
  exists t, time_from_milliseconds (-1500) = Done t /\ normal t /\ time_to_milliseconds t = Done (-1500).
Proof. apply (time_milliseconds_roundtrip (-1500)). lia. Defined.
