(* ===== verification/Polymur.v ===== *)
(** * PolymurHash ([core/native/hashing/polymur.h])

    The default string hash: a polynomial over the field of 2^61 - 1 elements,
    evaluated with lazy reductions in 64- and 128-bit integers. *)
From Stdlib Require Import Zdiv Znumtheory.
From S2P Require Import Prelude Numbers.

(** ** The definitions *)

Record PolymurHashParams := PolymurParams { pk : Z; pk2 : Z; pk7 : Z; ps : Z }.

(** The machine is little-endian, so no load swaps bytes. *)
Definition polymur_load_le_u32 (buf : list Z) (p : Z) : outcome Z := demand (load_le 4 buf p).
Definition polymur_load_le_u64 (buf : list Z) (p : Z) : outcome Z := demand (load_le 8 buf p).

(** [buf] at offset [p], [len] bytes. *)
Definition polymur_load_le_u64_0_8 (buf : list Z) (p len : Z) : outcome Z :=
  if len <? 4 then
    if len =? 0 then Done 0 else
    b0 ← demand (byte_at buf p);
    b1 ← demand (byte_at buf (p + len / 2));
    b2 ← demand (byte_at buf (p + (len - 1)));
    let v := Z.lor b0 (Z.shiftl b1 (8 * (len / 2))) in
    Done (Z.lor v (Z.shiftl b2 (8 * (len - 1))))
  else
    lo ← polymur_load_le_u32 buf p;
    hi ← polymur_load_le_u32 buf (p + len - 4);
    Done (Z.lor lo (u64 (Z.shiftl hi (8 * (len - 4))))).

Definition POLYMUR_P611 : Z := 2 ^ 61 - 1.

Definition polymur_add128 (a b : Z) : Z := u128 (a + b).
Definition polymur_mul128 (a b : Z) : Z := u128 (a * b).
Definition polymur_red611 (x : Z) : Z := u64 (Z.land (u64 x) POLYMUR_P611 + u64 (Z.shiftr x 61)).
Definition polymur_extrared611 (x : Z) : Z := u64 (Z.land x POLYMUR_P611 + Z.shiftr x 61).

Definition POLYMUR_ARBITRARY1 : Z := 0x6a09e667f3bcc908.
Definition POLYMUR_ARBITRARY2 : Z := 0xbb67ae8584caa73b.
Definition POLYMUR_ARBITRARY3 : Z := 0x3c6ef372fe94f82b.
Definition POLYMUR_ARBITRARY4 : Z := 0xa54ff53a5f1d36f1.

Definition polymur_mix (x : Z) : Z :=
  let x := Z.lxor x (Z.shiftr x 32) in
  let x := u64 (x * 0xe9846af9b1a615d) in
  let x := Z.lxor x (Z.shiftr x 32) in
  let x := u64 (x * 0xe9846af9b1a615d) in
  Z.lxor x (Z.shiftr x 28).

Definition mulred (a b : Z) : Z := polymur_red611 (polymur_mul128 a b).
Definition mulred2 (a b : Z) : Z := polymur_extrared611 (mulred a b).

(** The table [POLYMUR_POW37], entries 0..31 and 32..63: repeated squares. *)
Fixpoint pow37_from (n : nat) (x : Z) : list Z :=
  match n with O => [] | S n => x :: pow37_from n (mulred2 x x) end.
Definition POLYMUR_POW37 : list Z := pow37_from 32 37 ++ pow37_from 32 559096694736811184.

(** The exponents that are tried: odd, and coprime to 2^61 - 2. *)
Definition divisor_free (e : Z) (l : list Z) : bool := forallb (fun d => negb (e mod d =? 0)) l.
Definition exponent_accepted (e : Z) : bool :=
  divisor_free e [3] && divisor_free e [5; 7] && divisor_free e [11; 13; 31]
  && divisor_free e [41; 61; 151; 331; 1321].

(** [for (int i = 0; e; i += 2, e >>= 2)]. *)
Fixpoint power_loop (fuel : nat) (i e ka kb : Z) : Z * Z :=
  match fuel with
  | O => (ka, kb)
  | S fuel =>
      if e =? 0 then (ka, kb) else
      let pow j := default 0 (POLYMUR_POW37 !! Z.to_nat j) in
      let ka := if negb (Z.land e 1 =? 0) then mulred2 ka (pow i) else ka in
      let kb := if negb (Z.land e 2 =? 0) then mulred2 kb (pow (i + 1)) else kb in
      power_loop fuel (i + 2) (Z.shiftr e 2) ka kb
  end.

(** One attempt with an accepted exponent. *)
Definition params_of_exponent (e s : Z) : PolymurHashParams :=
  let '(ka, kb) := power_loop 32 0 e 1 1 in
  let k := polymur_extrared611 (mulred2 ka kb) in
  let k2 := mulred2 k k in
  let k3 := mulred k k2 in
  let k4 := mulred k2 k2 in
  PolymurParams k k2 (mulred2 k3 k4) s.

(** The loop runs until an attempt succeeds; [fuel] attempts here. *)
Fixpoint init_loop (fuel : nat) (k_seed s : Z) : outcome PolymurHashParams :=
  match fuel with
  | O => Spins
  | S fuel =>
      let k_seed := u64 (k_seed + POLYMUR_ARBITRARY2) in
      let e := Z.lor (Z.shiftr k_seed 3) 1 in
      if negb (exponent_accepted e) then init_loop fuel k_seed s else
      let p := params_of_exponent e s in
      if pk7 p <? 2 ^ 60 - 2 ^ 56 then Done p else init_loop fuel k_seed s
  end.

Definition polymur_init_params (fuel : nat) (k_seed s_seed : Z) : outcome PolymurHashParams :=
  init_loop fuel k_seed (Z.lxor s_seed POLYMUR_ARBITRARY1).

Definition polymur_init_params_from_seed (fuel : nat) (seed : Z) : outcome PolymurHashParams :=
  polymur_init_params fuel (polymur_mix (u64 (seed + POLYMUR_ARBITRARY3)))
    (polymur_mix (u64 (seed + POLYMUR_ARBITRARY4))).

Definition mask56 : Z := 0x00ffffffffffffff.
Definition load56 (buf : list Z) (p : Z) : outcome Z :=
  v ← polymur_load_le_u64 buf p; Done (Z.land v mask56).

(** The body of the [do] loop on 49 bytes, and the loop. *)
Definition block_step (buf : list Z) (p : PolymurHashParams) (k3 k4 k5 k6 h off : Z) : outcome Z :=
  m0 ← load56 buf off; m1 ← load56 buf (off + 7); m2 ← load56 buf (off + 14);
  m3 ← load56 buf (off + 21); m4 ← load56 buf (off + 28); m5 ← load56 buf (off + 35);
  m6 ← load56 buf (off + 42);
  let t0 := polymur_mul128 (u64 (pk p + m0)) (u64 (k6 + m1)) in
  let t1 := polymur_mul128 (u64 (pk2 p + m2)) (u64 (k5 + m3)) in
  let t2 := polymur_mul128 (u64 (k3 + m4)) (u64 (k4 + m5)) in
  let t3 := polymur_mul128 (u64 (h + m6)) (pk7 p) in
  Done (polymur_red611 (polymur_add128 (polymur_add128 t0 t1) (polymur_add128 t2 t3))).

Fixpoint block_loop (fuel : nat) (buf : list Z) (p : PolymurHashParams) (k3 k4 k5 k6 h off len : Z)
    : outcome (Z * Z * Z) :=
  match fuel with
  | O => Spins
  | S fuel =>
      h ← block_step buf p k3 k4 k5 k6 h off;
      let len := len - 49 in
      let off := off + 49 in
      if len >=? 50 then block_loop fuel buf p k3 k4 k5 k6 h off len else Done (h, off, len)
  end.

Definition hash_short (buf : list Z) (off len : Z) (p : PolymurHashParams) (poly_acc : Z) : outcome Z :=
  m0 ← polymur_load_le_u64_0_8 buf off len;
  Done (u64 (poly_acc + mulred (u64 (pk p + m0)) (u64 (pk2 p + len)))).

Definition hash_tail (buf : list Z) (off len : Z) (p : PolymurHashParams) (k3 k4 poly_acc : Z) : outcome Z :=
  if len >=? 8 then
    m0 ← load56 buf off;
    m1 ← load56 buf (off + (len - 7) / 2);
    w2 ← polymur_load_le_u64 buf (off + len - 8);
    let m2 := Z.shiftr w2 8 in
    let t0 := polymur_mul128 (u64 (pk2 p + m0)) (u64 (pk7 p + m1)) in
    let t1 := polymur_mul128 (u64 (pk p + m2)) (u64 (k3 + len)) in
    if len <=? 21 then Done (u64 (poly_acc + polymur_red611 (polymur_add128 t0 t1))) else
    m3 ← load56 buf (off + 7);
    m4 ← load56 buf (off + 14);
    m5 ← load56 buf (off + len - 21);
    m6 ← load56 buf (off + len - 14);
    let t0r := polymur_red611 t0 in
    let t2 := polymur_mul128 (u64 (pk2 p + m3)) (u64 (pk7 p + m4)) in
    let t3 := polymur_mul128 (u64 (t0r + m5)) (u64 (k4 + m6)) in
    Done (u64 (poly_acc + polymur_red611 (polymur_add128 (polymur_add128 t1 t2) t3)))
  else hash_short buf off len p poly_acc.

Definition polymur_hash_poly611 (buf : list Z) (len : Z) (p : PolymurHashParams) (tweak : Z) : outcome Z :=
  if len <=? 7 then hash_short buf 0 len p tweak else
  let k3 := mulred (pk p) (pk2 p) in
  let k4 := mulred (pk2 p) (pk2 p) in
  if len >=? 50 then
    let k5 := mulred2 (pk p) k4 in
    let k6 := mulred2 (pk2 p) k4 in
    let k3 := polymur_extrared611 k3 in
    let k4 := polymur_extrared611 k4 in
    '(h, off, len) ← block_loop (Z.to_nat (len / 49)) buf p k3 k4 k5 k6 0 0 len;
    let k14 := mulred (pk7 p) (pk7 p) in
    let hk14 := mulred (polymur_extrared611 h) k14 in
    hash_tail buf off len p k3 k4 (u64 (tweak + polymur_extrared611 hk14))
  else hash_tail buf 0 len p k3 k4 tweak.

Definition polymur_hash (buf : list Z) (len : Z) (p : PolymurHashParams) (tweak : Z) : outcome Z :=
  h ← polymur_hash_poly611 buf len p tweak;
  Done (u64 (polymur_mix h + ps p)).

(** ** Congruence modulo 2^61 - 1 *)

Local Abbreviation P := POLYMUR_P611.
Lemma P_value : P = 2305843009213693951.
Proof. reflexivity. Qed.

Definition cong (a b : Z) : Prop := a mod P = b mod P.
Declare Scope poly_scope.
Infix "≡ₚ₆₁" := cong (at level 70) : poly_scope.
Local Open Scope poly_scope.

#[export] Instance cong_equiv : Equivalence cong.
Proof. split; unfold cong; congruence. Qed.
#[export] Instance cong_add : Proper (cong ==> cong ==> cong) Z.add.
Proof. intros a b H c d H'. unfold cong in *. rewrite Z.add_mod, H, H', <- Z.add_mod by discriminate. reflexivity. Qed.
#[export] Instance cong_mul : Proper (cong ==> cong ==> cong) Z.mul.
Proof. intros a b H c d H'. unfold cong in *. rewrite Z.mul_mod, H, H', <- Z.mul_mod by discriminate. reflexivity. Qed.

Lemma cong_mod a : a mod P ≡ₚ₆₁ a.
Proof. unfold cong. apply Z.mod_mod. discriminate. Qed.

(** 2^61 is 1. *)
Lemma cong_fold x : x mod 2 ^ 61 + x / 2 ^ 61 ≡ₚ₆₁ x.
Proof.
  unfold cong. rewrite (Z.div_mod x (2 ^ 61)) at 3 by lia.
  replace (2 ^ 61 * (x / 2 ^ 61) + x mod 2 ^ 61) with (x mod 2 ^ 61 + x / 2 ^ 61 + x / 2 ^ 61 * P)
    by (unfold POLYMUR_P611; ring).
  symmetry. apply Z.mod_add. discriminate.
Qed.

Lemma land_P x : Z.land x P = x mod 2 ^ 61.
Proof. change P with (Z.ones 61). apply Z.land_ones. lia. Qed.

Lemma red611_value x : 0 <= x < 7 * 2 ^ 122 -> polymur_red611 x = x mod 2 ^ 61 + x / 2 ^ 61.
Proof.
  intros Hx. unfold polymur_red611. rewrite land_P, Z.shiftr_div_pow2 by lia.
  assert (E : u64 x mod 2 ^ 61 = x mod 2 ^ 61).
  { unfold wrap. apply Z.mod_mod_divide. exists (2 ^ 3). reflexivity. }
  assert (H1 : 0 <= x / 2 ^ 61 < 7 * 2 ^ 61).
  { split; [apply Z.div_pos; lia|]. apply Z.div_lt_upper_bound; lia. }
  pose proof (Z.mod_pos_bound x (2 ^ 61) ltac:(lia)).
  rewrite E, (wrap_small 64 (x / 2 ^ 61)), wrap_small by lia. reflexivity.
Qed.

Lemma extrared611_value x : 0 <= x < 2 ^ 64 -> polymur_extrared611 x = x mod 2 ^ 61 + x / 2 ^ 61.
Proof.
  intros Hx. unfold polymur_extrared611. rewrite land_P, Z.shiftr_div_pow2 by lia.
  apply wrap_small. pose proof (Z.mod_pos_bound x (2 ^ 61) ltac:(lia)).
  assert (x / 2 ^ 61 < 8) by (apply Z.div_lt_upper_bound; lia). pose proof (Z.div_pos x (2 ^ 61)). lia.
Qed.

Lemma red611_spec x B :
  0 <= x < B * 2 ^ 61 -> B <= 7 * 2 ^ 61 -> polymur_red611 x ≡ₚ₆₁ x /\ 0 <= polymur_red611 x <= P + B.
Proof.
  intros Hx HB. rewrite red611_value by lia. split; [apply cong_fold|].
  pose proof (Z.mod_pos_bound x (2 ^ 61) ltac:(lia)). pose proof (Z.div_pos x (2 ^ 61)).
  assert (x / 2 ^ 61 < B) by (apply Z.div_lt_upper_bound; lia). rewrite P_value. lia.
Qed.

Lemma extrared611_spec x :
  0 <= x < 2 ^ 64 -> polymur_extrared611 x ≡ₚ₆₁ x /\ 0 <= polymur_extrared611 x <= P + 7.
Proof.
  intros Hx. rewrite extrared611_value by lia. split; [apply cong_fold|].
  pose proof (Z.mod_pos_bound x (2 ^ 61) ltac:(lia)). pose proof (Z.div_pos x (2 ^ 61)).
  assert (x / 2 ^ 61 < 8) by (apply Z.div_lt_upper_bound; lia). rewrite P_value. lia.
Qed.

Lemma mul128_value a b A B :
  0 <= a <= A -> 0 <= b <= B -> A * B < 2 ^ 128 -> polymur_mul128 a b = a * b /\ 0 <= a * b <= A * B.
Proof.
  intros Ha Hb HAB. assert (0 <= a * b <= A * B) by (split; [nia|apply Z.mul_le_mono_nonneg; lia]).
  split; [apply wrap_small; lia|lia].
Qed.

Lemma mulred_spec a b A B C :
  0 <= a <= A -> 0 <= b <= B -> A * B < C * 2 ^ 61 -> C <= 7 * 2 ^ 61 ->
  mulred a b ≡ₚ₆₁ a * b /\ 0 <= mulred a b <= P + C.
Proof.
  intros Ha Hb HAB HC. unfold mulred. destruct (mul128_value a b A B) as [-> H]; [lia..|].
  apply red611_spec; lia.
Qed.

Lemma mulred2_spec a b A B :
  0 <= a <= A -> 0 <= b <= B -> A * B < 7 * 2 ^ 122 ->
  mulred2 a b ≡ₚ₆₁ a * b /\ 0 <= mulred2 a b <= P + 7.
Proof.
  intros Ha Hb HAB. unfold mulred2. destruct (mulred_spec a b A B (7 * 2 ^ 61)) as [E H]; [lia..|].
  destruct (extrared611_spec (mulred a b)) as [E' H']; [rewrite P_value in *; lia|].
  split; [rewrite E'; exact E|exact H'].
Qed.

(** ** The loads *)

Definition seven_bytes (buf : list Z) (p : Z) : Z := bytes_at 7 buf p.

Section Loads.
Context (buf : list Z) (Hbuf : Forall byte_range buf).
Local Abbreviation total := (Z.of_nat (length buf)).

Lemma load_u64_done p : 0 <= p -> p + 8 <= total -> polymur_load_le_u64 buf p = Done (bytes_at 8 buf p).
Proof. intros. unfold polymur_load_le_u64. rewrite load_le_some by lia. reflexivity. Qed.

Lemma load56_done p : 0 <= p -> p + 8 <= total -> load56 buf p = Done (seven_bytes buf p).
Proof.
  intros. unfold load56. rewrite load_u64_done, bind_done by lia. f_equal.
  change mask56 with (Z.ones 56). rewrite Z.land_ones by lia. symmetry.
  apply (bytes_at_prefix 7 8); [exact Hbuf|lia].
Qed.

(** The last seven of the eight bytes. *)
Lemma load_u64_shifted p : 0 <= p -> Z.shiftr (bytes_at 8 buf p) 8 = seven_bytes buf (p + 1).
Proof.
  intros. rewrite Z.shiftr_div_pow2 by lia. symmetry. apply (bytes_at_suffix 7 1); [exact Hbuf|lia].
Qed.

Lemma seven_bytes_bound p : 0 <= seven_bytes buf p < 2 ^ 56.
Proof. apply (bytes_at_bound 7); exact Hbuf. Qed.

(** Two overlapping halves of a number. *)
Lemma lor_halves v s : 0 <= v -> 0 <= s <= 32 -> Z.lor (v mod 2 ^ 32) (Z.shiftl (v / 2 ^ s) s) = v.
Proof.
  intros Hv Hs. apply Z.bits_inj'. intros i Hi. rewrite Z.lor_spec, Z.shiftl_spec by lia.
  destruct (Z.lt_ge_cases i 32).
  - rewrite Z.mod_pow2_bits_low by lia. destruct (Z.lt_ge_cases i s).
    + rewrite (Z.testbit_neg_r _ (i - s)) by lia. apply orb_false_r.
    + rewrite Z.div_pow2_bits by lia. replace (i - s + s) with i by lia. apply orb_diag.
  - rewrite Z.mod_pow2_bits_high by lia. rewrite Z.div_pow2_bits by lia.
    replace (i - s + s) with i by lia. reflexivity.
Qed.

(** [polymur_load_le_u64_0_8] is the little-endian value of its bytes. *)
Lemma load_0_8_done p len :
  0 <= p -> 0 <= len <= 8 -> p + len <= total ->
  polymur_load_le_u64_0_8 buf p len = Done (bytes_at (Z.to_nat len) buf p).
Proof.
  intros Hp Hl Ht. unfold polymur_load_le_u64_0_8. destruct (Z.ltb_spec len 4).
  - destruct (Z.eqb_spec len 0) as [->|]; [reflexivity|].
    assert (0 <= len / 2 < len) by zdiv_lia.
    rewrite !byte_at_bytes by lia. cbn [demand]. rewrite !bind_done. f_equal.
    pose proof (bytes_at_bound 1 buf p Hbuf) as B0. pose proof (bytes_at_bound 1 buf (p + 1) Hbuf) as B1.
    assert (E2 : bytes_at 2 buf p = bytes_at 1 buf p + bytes_at 1 buf (p + 1) * 2 ^ 8).
    { change (p + 1) with (p + Z.of_nat 1). rewrite (bytes_at_prefix 1 2), (bytes_at_suffix 1 1 buf p) by (auto; lia). cbn [Nat.add].
      change (256 ^ Z.of_nat 1) with (2 ^ 8). zdiv_lia. }
    assert (H3 : len = 1 \/ len = 2 \/ len = 3) by lia. destruct H3 as [->|[->| ->]].
    + change (1 / 2) with 0. change (1 - 1) with 0. rewrite Z.add_0_r, Z.mul_0_r, !Z.shiftl_0_r, !Z.lor_diag. reflexivity.
    + change (2 / 2) with 1. change (2 - 1) with 1. change (8 * 1) with 8.
      rewrite <- Z.lor_assoc, Z.lor_diag, Z.lor_comm, lor_shiftl_add by (cbn in *; lia).
      change (Z.to_nat 2) with 2%nat. rewrite E2. lia.
    + change (3 / 2) with 1. change (3 - 1) with 2. change (8 * 1) with 8. change (8 * 2) with 16.
      rewrite (Z.lor_comm (bytes_at 1 buf p)), lor_shiftl_add, Z.lor_comm, lor_shiftl_add by (cbn in *; lia).
      change (Z.to_nat 3) with 3%nat.
      assert (E3 : bytes_at 3 buf p = bytes_at 2 buf p + bytes_at 1 buf (p + 2) * 2 ^ 16).
      { change (p + 2) with (p + Z.of_nat 2). rewrite (bytes_at_prefix 2 3), (bytes_at_suffix 1 2 buf p) by (auto; lia). cbn [Nat.add].
        change (256 ^ Z.of_nat 2) with (2 ^ 16). zdiv_lia. }
      rewrite E3, E2. lia.
  - unfold polymur_load_le_u32. rewrite !load_le_some by lia. cbn [demand]. rewrite !bind_done. f_equal.
    set (n := Z.to_nat len). replace (p + len - 4) with (p + Z.of_nat (n - 4)) by lia.
    rewrite (bytes_at_prefix 4 n), (bytes_at_suffix 4 (n - 4)) by (auto; lia).
    replace (n - 4 + 4)%nat with n by lia. replace (8 * (len - 4)) with (8 * Z.of_nat (n - 4)) by lia.
    pose proof (bytes_at_bound n buf p Hbuf) as B. change (256) with (2 ^ 8) in *.
    rewrite <- !Z.pow_mul_r in * by lia. change (8 * Z.of_nat 4) with 32.
    assert (Hle : 2 ^ (8 * Z.of_nat n) <= 2 ^ 64) by (apply Z.pow_le_mono_r; lia).
    rewrite wrap_small; [apply lor_halves; lia|].
    rewrite Z.shiftl_mul_pow2 by lia. pose proof (pow2_pos (8 * Z.of_nat (n - 4)) ltac:(lia)).
    pose proof (Z.mul_div_le (bytes_at n buf p) (2 ^ (8 * Z.of_nat (n - 4)))).
    pose proof (Z.div_pos (bytes_at n buf p) (2 ^ (8 * Z.of_nat (n - 4)))). nia.
Qed.
End Loads.

(** ** The polynomial *)

Section Polynomial.
Context (k : Z) (buf : list Z).
Local Abbreviation w := (seven_bytes buf).

Definition tail_poly (off len : Z) : Z :=
  if len <=? 7 then (k + bytes_at (Z.to_nat len) buf off) * (k ^ 2 + len)
  else
    let t0 := (k ^ 2 + w off) * (k ^ 7 + w (off + (len - 7) / 2)) in
    let t1 := (k + w (off + len - 7)) * (k ^ 3 + len) in
    if len <=? 21 then t0 + t1
    else t1 + (k ^ 2 + w (off + 7)) * (k ^ 7 + w (off + 14))
         + (t0 + w (off + len - 21)) * (k ^ 4 + w (off + len - 14)).

Definition block_poly (h off : Z) : Z :=
  (k + w off) * (k ^ 6 + w (off + 7)) + (k ^ 2 + w (off + 14)) * (k ^ 5 + w (off + 21))
  + ((k ^ 3 + w (off + 28)) * (k ^ 4 + w (off + 35)) + (h + w (off + 42)) * k ^ 7).

Fixpoint blocks_poly (fuel : nat) (h off len : Z) : Z * Z * Z :=
  match fuel with
  | O => (h, off, len)
  | S fuel =>
      let h := block_poly h off mod P in
      if len - 49 >=? 50 then blocks_poly fuel h (off + 49) (len - 49) else (h, off + 49, len - 49)
  end.

Definition polynomial (len : Z) : Z :=
  if len >=? 50 then
    let '(h, off, len) := blocks_poly (Z.to_nat (len / 49)) 0 0 len in
    h * k ^ 14 + tail_poly off len
  else tail_poly 0 len.
End Polynomial.

(** What the parameters must be. *)
Record params_ok (p : PolymurHashParams) : Prop := {
  ok_k : 0 <= pk p <= P + 7;
  ok_k2 : 0 <= pk2 p <= P + 7;
  ok_k7 : 0 <= pk7 p < 2 ^ 60 - 2 ^ 56;
  ok_e2 : pk2 p ≡ₚ₆₁ pk p ^ 2;
  ok_e7 : pk7 p ≡ₚ₆₁ pk p ^ 7;
}.

Lemma add128_value a b : 0 <= a -> 0 <= b -> a + b < 2 ^ 128 -> polymur_add128 a b = a + b.
Proof. intros. apply wrap_small. lia. Qed.

Lemma add128_three a b c :
  0 <= a -> 0 <= b -> 0 <= c -> a + b + c < 2 ^ 128 -> polymur_add128 (polymur_add128 a b) c = a + b + c.
Proof. intros. rewrite (add128_value a b), add128_value by lia. reflexivity. Qed.

Lemma add128_four a b c d :
  0 <= a -> 0 <= b -> 0 <= c -> 0 <= d -> a + b + c + d < 2 ^ 128 ->
  polymur_add128 (polymur_add128 a b) (polymur_add128 c d) = a + b + (c + d).
Proof. intros. rewrite (add128_value a b), (add128_value c d), add128_value by lia. reflexivity. Qed.

Section Hash.
Context (buf : list Z) (Hbuf : Forall byte_range buf) (p : PolymurHashParams) (Hp : params_ok p).
Local Abbreviation total := (Z.of_nat (length buf)).
Local Abbreviation k := (pk p).
Local Abbreviation w := (seven_bytes buf).

(** A short message, or a short rest. *)
Lemma short_done off len acc :
  0 <= off -> 0 <= len <= 7 -> off + len <= total ->
  exists r, hash_short buf off len p acc = Done (u64 (acc + r)) /\ 0 <= r < 2 ^ 63
    /\ r ≡ₚ₆₁ (k + bytes_at (Z.to_nat len) buf off) * (k ^ 2 + len).
Proof.
  intros Ho Hl Ht. destruct Hp as [H1 H2 H3 H4 H5]. unfold hash_short.
  rewrite load_0_8_done, bind_done by (auto; lia).
  pose proof (bytes_at_bound (Z.to_nat len) buf off Hbuf) as B.
  assert (B' : 256 ^ Z.of_nat (Z.to_nat len) <= 2 ^ 56).
  { change 256 with (2 ^ 8). rewrite <- Z.pow_mul_r by lia. apply Z.pow_le_mono_r; lia. }
  set (m0 := bytes_at _ _ _) in *. rewrite P_value in *.
  rewrite (wrap_small 64 (k + m0)), (wrap_small 64 (pk2 p + len)) by lia.
  destruct (mulred_spec (k + m0) (pk2 p + len) (2 ^ 61 + 2 ^ 56 + 7) (2 ^ 61 + 14) (2 ^ 62)) as [E R]; [lia..|].
  eexists. split; [reflexivity|]. split; [rewrite P_value in R; lia|]. rewrite E, H4. reflexivity.
Qed.

(** The last at most 49 bytes. *)
Lemma tail_done off len k3 k4 acc :
  0 <= off -> 0 <= len < 50 -> off + len <= total ->
  0 <= k3 <= 2 ^ 62 + 16 -> 0 <= k4 <= 2 ^ 62 + 16 -> k3 ≡ₚ₆₁ k ^ 3 -> k4 ≡ₚ₆₁ k ^ 4 ->
  exists r, hash_tail buf off len p k3 k4 acc = Done (u64 (acc + r)) /\ 0 <= r < 109 * 2 ^ 57
    /\ r ≡ₚ₆₁ tail_poly k buf off len.
Proof.
  intros Ho Hl Ht H3 H4 E3 E4. unfold hash_tail, tail_poly.
  destruct (Z.geb_spec len 8) as [Hge|Hlt]; destruct (Z.leb_spec len 7) as [Hle|Hgt]; try lia.
  2: { destruct (short_done off len acc) as (r & E & R & C); [lia..|]. exists r. split_and!; auto; lia. }
  assert (Hh : 0 <= (len - 7) / 2 /\ (len - 7) / 2 + 8 <= len) by zdiv_lia.
  rewrite (load56_done buf Hbuf off), bind_done by lia.
  rewrite (load56_done buf Hbuf (off + (len - 7) / 2)), bind_done by lia. rewrite load_u64_done, bind_done by lia.
  cbv zeta. rewrite load_u64_shifted by (auto; lia). replace (off + len - 8 + 1) with (off + len - 7) by lia.
  destruct Hp as [P1 P2 P3 P4 P5]. rewrite P_value in *.
  set (x := (len - 7) / 2) in *. pose proof (seven_bytes_bound buf Hbuf) as B.
  pose proof (B off) as B0. pose proof (B (off + x)) as B1. pose proof (B (off + len - 7)) as B2.
  rewrite (wrap_small 64 (pk2 p + w off)), (wrap_small 64 (pk7 p + w (off + x))),
    (wrap_small 64 (k + w (off + len - 7))), (wrap_small 64 (k3 + len)) by lia.
  destruct (mul128_value (pk2 p + w off) (pk7 p + w (off + x)) (2 ^ 61 + 2 ^ 56 + 7) (2 ^ 60)) as [-> T0]; [lia..|].
  destruct (mul128_value (k + w (off + len - 7)) (k3 + len) (2 ^ 61 + 2 ^ 56 + 7) (2 ^ 62 + 66)) as [-> T1]; [lia..|].
  set (t0 := (pk2 p + w off) * _) in *. set (t1 := (k + w (off + len - 7)) * (k3 + len)) in *.
  assert (C0 : t0 ≡ₚ₆₁ (k ^ 2 + w off) * (k ^ 7 + w (off + x))) by (unfold t0; rewrite P4, P5; reflexivity).
  assert (C1 : t1 ≡ₚ₆₁ (k + w (off + len - 7)) * (k ^ 3 + len)) by (unfold t1; rewrite E3; reflexivity).
  destruct (Z.leb_spec len 21).
  - rewrite add128_value by lia. destruct (red611_spec (t0 + t1) (2 * 2 ^ 62)) as [E R]; [lia..|].
    eexists. split; [reflexivity|]. rewrite P_value in R. split; [lia|]. rewrite E, C0, C1. reflexivity.
  - rewrite !load56_done, !bind_done by (auto; lia).
    pose proof (B (off + 7)) as B3. pose proof (B (off + 14)) as B4.
    pose proof (B (off + len - 21)) as B5. pose proof (B (off + len - 14)) as B6.
    destruct (red611_spec t0 (2 ^ 60 + 2 ^ 55 + 4)) as [Er Rr]; [lia..|].
    rewrite P_value in Rr. set (t0r := polymur_red611 t0) in *.
    rewrite (wrap_small 64 (pk2 p + w (off + 7))), (wrap_small 64 (pk7 p + w (off + 14))),
      (wrap_small 64 (t0r + w (off + len - 21))), (wrap_small 64 (k4 + w (off + len - 14))) by lia.
    destruct (mul128_value (pk2 p + w (off + 7)) (pk7 p + w (off + 14)) (2 ^ 61 + 2 ^ 56 + 7) (2 ^ 60)) as [-> T2]; [lia..|].
    destruct (mul128_value (t0r + w (off + len - 21)) (k4 + w (off + len - 14)) (199 * 2 ^ 54) (65 * 2 ^ 56 + 16))
      as [-> T3]; [lia..|].
    rewrite add128_three by lia.
    match goal with |- context [polymur_red611 ?s] => destruct (red611_spec s (92 * 2 ^ 57)) as [E R]; [lia..|] end.
    eexists. split; [reflexivity|]. rewrite P_value in R. split; [lia|]. rewrite E, C1, Er, C0, P4, P5, E4. reflexivity.
Qed.

(** The constants of the loop. *)
Record loop_constants (k3 k4 k5 k6 : Z) : Prop := {
  lc_3 : 0 <= k3 <= P + 7; lc_4 : 0 <= k4 <= P + 7; lc_5 : 0 <= k5 <= P + 7; lc_6 : 0 <= k6 <= P + 7;
  lc_e3 : k3 ≡ₚ₆₁ k ^ 3; lc_e4 : k4 ≡ₚ₆₁ k ^ 4; lc_e5 : k5 ≡ₚ₆₁ k ^ 5; lc_e6 : k6 ≡ₚ₆₁ k ^ 6;
}.

Lemma block_done k3 k4 k5 k6 h off :
  loop_constants k3 k4 k5 k6 -> 0 <= off -> off + 50 <= total -> 0 <= h <= 127 * 2 ^ 57 ->
  exists h', block_step buf p k3 k4 k5 k6 h off = Done h' /\ 0 <= h' <= 127 * 2 ^ 57
    /\ h' ≡ₚ₆₁ block_poly k buf h off.
Proof.
  intros [C3 C4 C5 C6 E3 E4 E5 E6] Ho Ht Hh. unfold block_step, block_poly.
  rewrite !load56_done, !bind_done by (auto; lia). cbv zeta.
  destruct Hp as [P1 P2 P3 P4 P5]. rewrite P_value in *.
  pose proof (seven_bytes_bound buf Hbuf) as B.
  pose proof (B off). pose proof (B (off + 7)). pose proof (B (off + 14)). pose proof (B (off + 21)).
  pose proof (B (off + 28)). pose proof (B (off + 35)). pose proof (B (off + 42)).
  rewrite !(wrap_small 64 (_ + _)) by lia.
  destruct (mul128_value (k + w off) (k6 + w (off + 7)) (2 ^ 61 + 2 ^ 56 + 7) (2 ^ 61 + 2 ^ 56 + 7)) as [-> T0]; [lia..|].
  destruct (mul128_value (pk2 p + w (off + 14)) (k5 + w (off + 21)) (2 ^ 61 + 2 ^ 56 + 7) (2 ^ 61 + 2 ^ 56 + 7))
    as [-> T1]; [lia..|].
  destruct (mul128_value (k3 + w (off + 28)) (k4 + w (off + 35)) (2 ^ 61 + 2 ^ 56 + 7) (2 ^ 61 + 2 ^ 56 + 7))
    as [-> T2]; [lia..|].
  destruct (mul128_value (h + w (off + 42)) (pk7 p) (127 * 2 ^ 57 + 2 ^ 56) (15 * 2 ^ 56)) as [-> T3]; [lia..|].
  rewrite add128_four by lia.
  match goal with |- context [polymur_red611 ?s] =>
    destruct (red611_spec s (111 * 2 ^ 57 - 2))
      as [E R]; [lia..|] end.
  eexists. split; [reflexivity|]. rewrite P_value in R. split; [lia|]. rewrite E, P4, P5, E3, E4, E5, E6. reflexivity.
Qed.

#[local] Instance block_poly_cong : Proper (cong ==> eq ==> cong) (block_poly k buf).
Proof. intros h h' E off ? <-. unfold block_poly. rewrite E. reflexivity. Qed.

Lemma blocks_done fuel k3 k4 k5 k6 h h0 off len :
  loop_constants k3 k4 k5 k6 -> 0 <= off -> off + len <= total -> 0 <= h <= 127 * 2 ^ 57 -> h ≡ₚ₆₁ h0 ->
  50 <= len -> len < 49 * Z.of_nat fuel + 50 -> (0 < fuel)%nat ->
  exists h' h0' off' len', block_loop fuel buf p k3 k4 k5 k6 h off len = Done (h', off', len')
    /\ blocks_poly k buf fuel h0 off len = (h0', off', len') /\ h' ≡ₚ₆₁ h0'
    /\ 0 <= h' <= 127 * 2 ^ 57 /\ 0 <= off' /\ 0 < len' < 50 /\ off' + len' <= total.
Proof.
  intros Hc. revert h h0 off len. induction fuel as [|fuel IH]; intros h h0 off len Ho Ht Hh E Hl Hf Hpos; [lia|].
  cbn [block_loop blocks_poly]. destruct (block_done k3 k4 k5 k6 h off) as (h1 & -> & H1 & E1); auto; [lia|].
  rewrite bind_done. cbv zeta.
  assert (E2 : h1 ≡ₚ₆₁ block_poly k buf h0 off mod P) by (rewrite cong_mod, E1, E; reflexivity).
  destruct (Z.geb_spec (len - 49) 50).
  - apply IH; auto; lia.
  - exists h1, (block_poly k buf h0 off mod P), (off + 49), (len - 49). split_and!; auto; lia.
Qed.

Lemma poly611_done tweak :
  exists r, polymur_hash_poly611 buf total p tweak = Done (u64 (tweak + r)) /\ 0 <= r < 2 ^ 64
    /\ r ≡ₚ₆₁ polynomial k buf total.
Proof.
  unfold polymur_hash_poly611, polynomial. pose proof Hp as [P1 P2 P3 P4 P5].
  destruct (Z.leb_spec total 7) as [Hle|Hgt].
  { destruct (Z.geb_spec total 50); [lia|]. unfold tail_poly. rewrite (proj2 (Z.leb_le _ _)) by lia.
    destruct (short_done 0 total tweak) as (r & -> & R & C); [lia..|]. exists r. split_and!; auto; lia. }
  cbv zeta.
  destruct (mulred_spec k (pk2 p) (2 ^ 61 + 6) (2 ^ 61 + 6) (2 ^ 61 + 13)) as [E3 R3]; [rewrite P_value in *; lia..|].
  destruct (mulred_spec (pk2 p) (pk2 p) (2 ^ 61 + 6) (2 ^ 61 + 6) (2 ^ 61 + 13)) as [E4 R4]; [rewrite P_value in *; lia..|].
  assert (C3 : mulred k (pk2 p) ≡ₚ₆₁ k ^ 3) by (rewrite E3, P4; unfold cong; f_equal; ring).
  assert (C4 : mulred (pk2 p) (pk2 p) ≡ₚ₆₁ k ^ 4) by (rewrite E4, P4; unfold cong; f_equal; ring).
  rewrite P_value in *. set (k3 := mulred k (pk2 p)) in *. set (k4 := mulred (pk2 p) (pk2 p)) in *.
  destruct (Z.geb_spec total 50) as [H50|H50].
  - destruct (mulred2_spec k k4 (2 ^ 61 + 6) (2 ^ 62 + 16)) as [E5 R5]; [lia..|].
    destruct (mulred2_spec (pk2 p) k4 (2 ^ 61 + 6) (2 ^ 62 + 16)) as [E6 R6]; [lia..|].
    destruct (extrared611_spec k3) as [X3 S3]; [lia|]. destruct (extrared611_spec k4) as [X4 S4]; [lia|].
    assert (Hc : loop_constants (polymur_extrared611 k3) (polymur_extrared611 k4) (mulred2 k k4) (mulred2 (pk2 p) k4)).
    { split; auto; [rewrite X3|rewrite X4|rewrite E5, C4|rewrite E6, C4, P4]; auto; unfold cong; f_equal; ring. }
    destruct (blocks_done (Z.to_nat (total / 49)) _ _ _ _ 0 0 0 total Hc)
      as (h & h0 & off & len & -> & -> & Eh & Rh & Ho & Hl & Ht); [lia|lia|lia|reflexivity|lia|zdiv_lia|zdiv_lia|].
    rewrite bind_done.
    destruct (mulred_spec (pk7 p) (pk7 p) (2 ^ 60) (2 ^ 60) (2 ^ 59 + 1)) as [E14 R14]; [lia..|].
    destruct (extrared611_spec h) as [Xh Sh]; [lia|]. rewrite P_value in *.
    destruct (mulred_spec (polymur_extrared611 h) (mulred (pk7 p) (pk7 p)) (2 ^ 61 + 6) (2 ^ 61 + 2 ^ 59) (2 ^ 62)) as [Eh' Rh'];
      [lia..|]. rewrite P_value in *.
    match type of Eh' with cong ?t _ => destruct (extrared611_spec t) as [Xa Sa]; [lia|] end. rewrite P_value in *.
    destruct (tail_done off len (polymur_extrared611 k3) (polymur_extrared611 k4)
      (u64 (tweak + polymur_extrared611 (mulred (polymur_extrared611 h) (mulred (pk7 p) (pk7 p))))))
      as (r & -> & Rr & Cr); [lia..|rewrite X3; exact C3|rewrite X4; exact C4|].
    eexists. rewrite wrap_add_l, <- Z.add_assoc by lia. split; [reflexivity|]. split; [lia|].
    rewrite Xa, Eh', Xh, Eh, E14, P5, Cr. unfold cong. f_equal. ring.
  - destruct (tail_done 0 total k3 k4 tweak) as (r & -> & Rr & Cr); [lia..|exact C3|exact C4|].
    exists r. split; [reflexivity|]. split; [lia|exact Cr].
Qed.
End Hash.

(** ** The parameters *)

(** Repeated squaring modulo 2^61 - 1. *)
Fixpoint squares (n : nat) (x : Z) : Z := match n with O => x mod P | S n => squares n (x * x mod P) end.

Lemma cong_pow n a b : a ≡ₚ₆₁ b -> a ^ n ≡ₚ₆₁ b ^ n.
Proof.
  intros E. destruct (Z.lt_ge_cases n 0) as [|Hn]; [rewrite !Z.pow_neg_r by lia; reflexivity|].
  revert n Hn. apply natlike_ind; [reflexivity|]. intros n Hn IH.
  rewrite !Z.pow_succ_r by lia. apply cong_mul; assumption.
Qed.

Lemma pow_double x n : 0 <= n -> x ^ (2 ^ Z.succ n) = (x * x) ^ (2 ^ n).
Proof. intros. rewrite Z.pow_succ_r, Z.pow_mul_r, Z.pow_2_r by lia. reflexivity. Qed.

Lemma squares_cong n x : squares n x ≡ₚ₆₁ x ^ (2 ^ Z.of_nat n).
Proof.
  revert x. induction n as [|n IH]; intros x; cbn [squares].
  - rewrite cong_mod, Z.pow_1_r. reflexivity.
  - rewrite IH, Nat2Z.inj_succ, pow_double by lia. apply cong_pow, cong_mod.
Qed.

Lemma pow37_from_spec n x j y :
  0 <= x <= P + 7 -> pow37_from n x !! j = Some y -> y ≡ₚ₆₁ x ^ (2 ^ Z.of_nat j) /\ 0 <= y <= P + 7.
Proof.
  intros Hx. revert x j Hx. induction n as [|n IH]; intros x j Hx Hy; [discriminate|].
  destruct j as [|j]; cbn in Hy.
  - injection Hy as <-. rewrite Z.pow_1_r. split; [reflexivity|exact Hx].
  - destruct (mulred2_spec x x (2 ^ 61 + 6) (2 ^ 61 + 6)) as [E R]; [rewrite P_value in *; lia..|].
    apply IH in Hy as [Ey Ry]; [|exact R]. split; [|exact Ry]. rewrite Ey, Nat2Z.inj_succ, pow_double by lia.
    apply cong_pow, E.
Qed.

Lemma length_pow37_from n x : length (pow37_from n x) = n.
Proof. revert x. induction n; intros; cbn; auto. Qed.

Lemma pow37_32 : 559096694736811184 ≡ₚ₆₁ 37 ^ (2 ^ Z.of_nat 32).
Proof. rewrite <- squares_cong. vm_compute. reflexivity. Qed.

Lemma pow37_high n : (559096694736811184) ^ (2 ^ Z.of_nat n) ≡ₚ₆₁ 37 ^ (2 ^ (32 + Z.of_nat n)).
Proof.
  rewrite (Z.pow_add_r 2 32), Z.pow_mul_r by lia. apply cong_pow. exact pow37_32.
Qed.

Lemma pow37_lookup (i : nat) y :
  POLYMUR_POW37 !! i = Some y -> y ≡ₚ₆₁ 37 ^ (2 ^ Z.of_nat i) /\ 0 <= y <= P + 7.
Proof.
  unfold POLYMUR_POW37. rewrite lookup_app_Some, length_pow37_from. intros [E|[Hl E]].
  - apply pow37_from_spec in E; [exact E|rewrite P_value; lia].
  - apply pow37_from_spec in E as [E R]; [|rewrite P_value; lia]. split; [|exact R].
    rewrite E, pow37_high. replace (32 + Z.of_nat (i - 32)) with (Z.of_nat i) by lia. reflexivity.
Qed.

Lemma pow37_table i :
  0 <= i < 64 -> default 0 (POLYMUR_POW37 !! Z.to_nat i) ≡ₚ₆₁ 37 ^ (2 ^ i)
    /\ 0 <= default 0 (POLYMUR_POW37 !! Z.to_nat i) <= P + 7.
Proof.
  intros Hi. destruct (lookup_lt_is_Some_2 POLYMUR_POW37 (Z.to_nat i)) as [y E].
  { unfold POLYMUR_POW37. rewrite length_app, !length_pow37_from. lia. }
  rewrite E. apply pow37_lookup in E. rewrite Z2Nat.id in E by lia. exact E.
Qed.

(** The loop takes the exponent two bits at a time. *)
Lemma power_loop_spec fuel i e ka kb :
  0 <= i -> i + 2 * Z.of_nat fuel <= 64 -> 0 <= e < 4 ^ Z.of_nat fuel ->
  0 <= ka <= P + 7 -> 0 <= kb <= P + 7 ->
  exists ka' kb', power_loop fuel i e ka kb = (ka', kb') /\ ka' * kb' ≡ₚ₆₁ ka * kb * 37 ^ (2 ^ i * e)
    /\ 0 <= ka' <= P + 7 /\ 0 <= kb' <= P + 7.
Proof.
  revert i e ka kb. induction fuel as [|fuel IH]; intros i e ka kb Hi Hf He Ha Hb; cbn [power_loop].
  { exists ka, kb. split_and!; auto; try lia. replace e with 0 by (change (4 ^ Z.of_nat 0) with 1 in He; lia).
    rewrite Z.mul_0_r, Z.mul_1_r. reflexivity. }
  destruct (Z.eqb_spec e 0) as [->|Hne].
  { exists ka, kb. split_and!; auto; try lia. rewrite Z.mul_0_r, Z.mul_1_r. reflexivity. }
  rewrite Nat2Z.inj_succ, Z.pow_succ_r in He by lia.
  cbv zeta. rewrite Z.shiftr_div_pow2 by lia. change (2 ^ 2) with 4.
  destruct (pow37_table i ltac:(lia)) as [E1 R1]. destruct (pow37_table (i + 1) ltac:(lia)) as [E2 R2].
  set (p1 := default 0 (POLYMUR_POW37 !! Z.to_nat i)) in *. set (p2 := default 0 (POLYMUR_POW37 !! Z.to_nat (i + 1))) in *.
  set (ka1 := if negb (Z.land e 1 =? 0) then _ else _). set (kb1 := if negb (Z.land e 2 =? 0) then _ else _).
  assert (Hka : ka1 ≡ₚ₆₁ ka * 37 ^ (2 ^ i * (e mod 2)) /\ 0 <= ka1 <= P + 7).
  { unfold ka1. rewrite (Z.land_ones e 1 ltac:(lia) : Z.land e 1 = e mod 2).
    destruct (Z.eqb_spec (e mod 2) 0) as [->|N]; cbn [negb].
    - rewrite Z.mul_0_r, Z.mul_1_r. split; [reflexivity|exact Ha].
    - assert (e mod 2 = 1) as -> by (pose proof (Z.mod_pos_bound e 2); lia). rewrite Z.mul_1_r.
      destruct (mulred2_spec ka p1 (2 ^ 61 + 6) (2 ^ 61 + 6)) as [E R]; [rewrite P_value in *; lia..|].
      split; [rewrite E, E1; reflexivity|exact R]. }
  assert (Hkb : kb1 ≡ₚ₆₁ kb * 37 ^ (2 ^ (i + 1) * (e / 2 mod 2)) /\ 0 <= kb1 <= P + 7).
  { unfold kb1. assert (El : (Z.land e 2 =? 0) = (e / 2 mod 2 =? 0)).
    { rewrite <- (negb_involutive (Z.land _ _ =? 0)). change 2 with (2 ^ 1) at 1.
      rewrite land_pow2_eqb, Z.testbit_eqb by lia. change (2 ^ 1) with 2. pose proof (Z.mod_pos_bound (e / 2) 2).
      destruct (Z.eqb_spec (e / 2 mod 2) 1), (Z.eqb_spec (e / 2 mod 2) 0); try reflexivity; lia. }
    rewrite El. destruct (Z.eqb_spec (e / 2 mod 2) 0) as [->|N]; cbn [negb].
    - rewrite Z.mul_0_r, Z.mul_1_r. split; [reflexivity|exact Hb].
    - assert (e / 2 mod 2 = 1) as -> by (pose proof (Z.mod_pos_bound (e / 2) 2); lia). rewrite Z.mul_1_r.
      destruct (mulred2_spec kb p2 (2 ^ 61 + 6) (2 ^ 61 + 6)) as [E R]; [rewrite P_value in *; lia..|].
      split; [rewrite E, E2; reflexivity|exact R]. }
  destruct Hka as [Ea Ra], Hkb as [Eb Rb].
  destruct (IH (i + 2) (e / 4) ka1 kb1) as (ka' & kb' & E & Ec & Rc); auto; try lia; [zdiv_lia|].
  exists ka', kb'. split; [exact E|]. split; [|exact Rc]. rewrite Ec, Ea, Eb.
  replace (37 ^ (2 ^ i * e)) with (37 ^ (2 ^ i * (e mod 2)) * 37 ^ (2 ^ (i + 1) * (e / 2 mod 2)) * 37 ^ (2 ^ (i + 2) * (e / 4))).
  - unfold cong. f_equal.
    repeat match goal with |- context [37 ^ ?x] => generalize (37 ^ x); intros ? end. ring.
  - pose proof (pow2_pos i Hi). rewrite !Z.pow_add_r with (a := 2) by lia. change (2 ^ 1) with 2. change (2 ^ 2) with 4.
    rewrite <- !Z.pow_add_r by (try nia; zdiv_lia). f_equal.
    assert (e = e mod 2 + 2 * (e / 2 mod 2) + 4 * (e / 4)) by zdiv_lia. nia.
Qed.

Lemma params_of_exponent_ok e s :
  0 <= e < 2 ^ 61 ->
  let p := params_of_exponent e s in
  pk p ≡ₚ₆₁ 37 ^ e /\ 0 <= pk p <= P + 7 /\ 0 <= pk2 p <= P + 7 /\ 0 <= pk7 p
  /\ pk2 p ≡ₚ₆₁ pk p ^ 2 /\ pk7 p ≡ₚ₆₁ pk p ^ 7.
Proof.
  intros He. unfold params_of_exponent. cbv zeta.
  assert (He' : e < 4 ^ Z.of_nat 32) by (change (4 ^ Z.of_nat 32) with (2 ^ 64); lia).
  destruct (power_loop_spec 32 0 e 1 1) as (ka & kb & -> & E & Ra & Rb); try (rewrite ?P_value; lia).
  cbn [pk pk2 pk7].
  destruct (mulred2_spec ka kb (2 ^ 61 + 6) (2 ^ 61 + 6)) as [E1 R1]; [rewrite P_value in *; lia..|].
  destruct (extrared611_spec (mulred2 ka kb)) as [E2 R2]; [rewrite P_value in *; lia|].
  set (k := polymur_extrared611 (mulred2 ka kb)) in *.
  destruct (mulred2_spec k k (2 ^ 61 + 6) (2 ^ 61 + 6)) as [E3 R3]; [rewrite P_value in *; lia..|].
  set (k2 := mulred2 k k) in *.
  destruct (mulred_spec k k2 (2 ^ 61 + 6) (2 ^ 61 + 6) (2 ^ 61 + 13)) as [E4 R4]; [rewrite P_value in *; lia..|].
  destruct (mulred_spec k2 k2 (2 ^ 61 + 6) (2 ^ 61 + 6) (2 ^ 61 + 13)) as [E5 R5]; [rewrite P_value in *; lia..|].
  destruct (mulred2_spec (mulred k k2) (mulred k2 k2) (2 ^ 62 + 12) (2 ^ 62 + 12)) as [E6 R6];
    [rewrite P_value in *; lia..|].
  clearbody k2. split_and!; try lia.
  - rewrite E2, E1, E. unfold cong. f_equal. rewrite Z.mul_1_l. f_equal. lia.
  - rewrite E3. clearbody k. unfold cong. f_equal. ring.
  - rewrite E6, E4, E5, E3. clearbody k. unfold cong. f_equal. ring.
Qed.

Lemma exponent_bound k_seed : 0 <= k_seed < 2 ^ 64 -> 0 <= Z.lor (Z.shiftr k_seed 3) 1 < 2 ^ 61.
Proof.
  intros Hk. apply lor_bound; [lia| |lia]. rewrite Z.shiftr_div_pow2 by lia. zdiv_lia.
Qed.

(** [2^61 - 2] is [2 * 3^2 * 5^2 * 7 * 11 * 13 * 31 * 41 * 61 * 151 * 331 * 1321]. *)
Lemma rel_prime_trial e d : Znumtheory.prime d -> e mod d <> 0 -> Znumtheory.rel_prime e d.
Proof.
  intros Hd Hn. apply Znumtheory.rel_prime_sym, Znumtheory.prime_rel_prime; [exact Hd|].
  intros Hdiv. apply Hn. apply Z.mod_divide; [|exact Hdiv]. destruct Hd. lia.
Qed.

Definition order_factors : list Z := [2; 3; 3; 5; 5; 7; 11; 13; 31; 41; 61; 151; 331; 1321].

Lemma order_factored : foldr Z.mul 1 order_factors = 2 ^ 61 - 2.
Proof. reflexivity. Qed.

Lemma rel_prime_product e l :
  Forall (fun d => Znumtheory.rel_prime e d) l -> Znumtheory.rel_prime e (foldr Z.mul 1 l).
Proof.
  induction 1 as [|d l Hd Hl IH]; cbn; [apply Znumtheory.rel_prime_sym, Znumtheory.rel_prime_1|].
  apply Znumtheory.rel_prime_mult; assumption.
Qed.

Lemma exponent_accepted_coprime k_seed :
  let e := Z.lor (Z.shiftr k_seed 3) 1 in
  exponent_accepted e = true -> Znumtheory.rel_prime e (2 ^ 61 - 2).
Proof.
  intros e He. rewrite <- order_factored. apply rel_prime_product.
  assert (Ho : e mod 2 <> 0).
  { rewrite <- Z.bit0_mod. unfold e. rewrite Z.lor_spec. cbn. rewrite orb_true_r. discriminate. }
  unfold exponent_accepted, divisor_free in He. cbn [forallb] in He.
  rewrite !andb_true_iff, !negb_true_iff, !Z.eqb_neq in He. destruct_and! He. unfold order_factors.
  rewrite !Forall_cons, Forall_nil. split_and!; [..|exact I];
    (apply rel_prime_trial; [apply trial_check_prime; reflexivity|assumption]).
Qed.

Lemma init_loop_ok fuel k_seed s p :
  init_loop fuel k_seed s = Done p ->
  params_ok p /\ exists e, Znumtheory.rel_prime e (2 ^ 61 - 2) /\ pk p ≡ₚ₆₁ 37 ^ e.
Proof.
  revert k_seed. induction fuel as [|fuel IH]; intros k_seed; cbn [init_loop]; [discriminate|]. cbv zeta.
  pose proof (wrap_bound 64 (k_seed + POLYMUR_ARBITRARY2) ltac:(lia)) as Hk.
  set (ks := u64 _) in *. set (e := Z.lor _ 1).
  destruct (exponent_accepted e) eqn:Ha; cbn [negb]; [|apply IH].
  destruct (params_of_exponent_ok e s (exponent_bound ks Hk)) as (Ek & Rk & Rk2 & Rk7 & E2 & E7).
  destruct (Z.ltb_spec (pk7 (params_of_exponent e s)) (2 ^ 60 - 2 ^ 56)); [|apply IH].
  intros E. injection E as <-. split; [split; auto; lia|].
  exists e. split; [apply (exponent_accepted_coprime ks Ha)|exact Ek].
Qed.

(** The parameters of the default seed, 0. *)

Definition default_parameters : PolymurHashParams :=
  default (PolymurParams 0 0 0 0) (result_of (polymur_init_params_from_seed 16 0)).

Lemma default_parameters_done : polymur_init_params_from_seed 16 0 = Done default_parameters.
Proof. vm_compute. reflexivity. Qed.

Lemma from_seed_ok fuel seed p :
  polymur_init_params_from_seed fuel seed = Done p ->
  params_ok p /\ exists e, Znumtheory.rel_prime e (2 ^ 61 - 2) /\ pk p ≡ₚ₆₁ 37 ^ e.
Proof. apply init_loop_ok. Qed.

Lemma default_parameters_ok : params_ok default_parameters.
Proof. exact (proj1 (from_seed_ok _ _ _ default_parameters_done)). Qed.

(** ** The properties *)

(** C18: the hash of any message under valid parameters returns (every read is
    inside the message, the loop ends), and before the final mixing it is the
    tweak plus a number [r] without 64-bit overflow, where [r] is, modulo
    2^61 - 1, the polynomial of the message at the key: the lazy reductions and
    the 128-bit sums lose nothing. *)
Theorem polymur_hash_poly611_polynomial buf p tweak :
  Forall byte_range buf -> params_ok p ->
  exists r, polymur_hash_poly611 buf (Z.of_nat (length buf)) p tweak = Done (u64 (tweak + r))
    /\ 0 <= r < 2 ^ 64 /\ r ≡ₚ₆₁ polynomial (pk p) buf (Z.of_nat (length buf)).
Proof. intros Hb Hp. apply poly611_done; assumption. Qed.

(** C40: Whatever the seed, when the search for a key ends its parameters are valid
    (the powers are powers of the key, [k7] is below the bound the reductions
    need), and the key is a power of 37 with an exponent coprime to the order of
    the multiplicative group; for the default seed the search does end. *)
Theorem polymur_init_params_valid :
  (forall fuel seed p, polymur_init_params_from_seed fuel seed = Done p ->
     params_ok p /\ exists e, Znumtheory.rel_prime e (2 ^ 61 - 2) /\ pk p ≡ₚ₆₁ 37 ^ e)
  /\ polymur_init_params_from_seed 16 0 = Done default_parameters.
Proof.
  split; [exact from_seed_ok|exact default_parameters_done].
Qed.

(** *** The properties at work *)

Lemma polymur_hash_poly611_polynomial_witness :
  exists r, polymur_hash_poly611 (seqZ 0 120) 120 default_parameters 0 = Done (u64 (0 + r))
    /\ 0 <= r < 2 ^ 64 /\ r ≡ₚ₆₁ polynomial (pk default_parameters) (seqZ 0 120) 120.
Proof.
  apply (polymur_hash_poly611_polynomial (seqZ 0 120) default_parameters 0); [|apply default_parameters_ok].
  apply Forall_seqZ. unfold byte_range. lia.
Defined.
