(* ===== verification/Murmur.v ===== *)
(** * MurmurHash3 with progressive feeding ([core/native/hashing/murmur32.c])

    Both variants of [murmur32_process]: the one for processors that read words
    at any address, and the one that realigns.  A payload is the list of its
    bytes, at most [INT_MAX] of them; a running hash is the pair of the hash and
    the carry.  A byte that enters the carry is shifted as an [int], which is
    undefined from 128 on. *)
From S2P Require Import Prelude.

(** ** The definitions *)

Definition ROTL32 (x r : Z) : Z := Z.lor (u32 (Z.shiftl x r)) (Z.shiftr x (32 - r)).
Definition C1 : Z := 0xcc9e2d51.
Definition C2 : Z := 0x1b873593.

Definition DOBLOCK (h1 k1 : Z) : Z :=
  let k1 := u32 (k1 * C1) in
  let k1 := ROTL32 k1 15 in
  let k1 := u32 (k1 * C2) in
  let h1 := Z.lxor h1 k1 in
  let h1 := ROTL32 h1 13 in
  u32 (h1 * 5 + 0xe6546b64).

(** [READ_UINT32]: the little-endian word of four bytes. *)
Definition READ_UINT32 (b0 b1 b2 b3 : Z) : Z := le_combine [b0; b1; b2; b3].

(** The hash, the carry and the number of bytes in it. *)
Record running := Running { rh : Z; rc : Z; rn : Z }.

(** One turn of [DOBYTES]: [*ptr++<<24] is a shift of an [int]. *)
Definition DOBYTE (s : running) (byte : Z) : outcome running :=
  if Z.shiftl byte 24 <? 2 ^ 31 then
    let c' := Z.lor (Z.shiftr (rc s) 8) (Z.shiftl byte 24) in
    Done (if rn s + 1 =? 4 then Running (DOBLOCK (rh s) c') c' 0 else Running (rh s) c' (rn s + 1))
  else Faults.
Fixpoint DOBYTES (cnt : nat) (s : running) (ptr : list Z) : outcome running :=
  match cnt, ptr with
  | O, _ => Done s
  | S _, [] => Faults
  | S cnt, byte :: ptr => s ← DOBYTE s byte; DOBYTES cnt s ptr
  end.

(** The loop over whole words, and the rest of the payload. *)
Fixpoint chunks (ptr : list Z) (h : Z) : Z * list Z :=
  match ptr with
  | b0 :: b1 :: b2 :: b3 :: ptr => chunks ptr (DOBLOCK h (READ_UINT32 b0 b1 b2 b3))
  | _ => (h, ptr)
  end.

(** The loops of the realigning variant: [n] bytes of the previous word are
    completed with the low bytes of the next one. *)
Fixpoint shifted_chunks (n : Z) (ptr : list Z) (h c : Z) : Z * Z * list Z :=
  match ptr with
  | b0 :: b1 :: b2 :: b3 :: ptr =>
      let k1 := Z.shiftr c (32 - 8 * n) in
      let c := READ_UINT32 b0 b1 b2 b3 in
      let k1 := Z.lor k1 (u32 (Z.shiftl c (8 * n))) in
      shifted_chunks n ptr (DOBLOCK h k1) c
  | _ => (h, c, ptr)
  end.

Definition carry_out (s : running) : Z * Z := (rh s, Z.lor (Z.land (rc s) (u32 (Z.lnot 0xff))) (rn s)).

(** [UNALIGNED_SAFE]. *)
Definition murmur32_process (ph1 pcarry : Z) (key : list Z) : outcome (Z * Z) :=
  let n := Z.land pcarry 3 in
  let s := Running ph1 pcarry n in
  let i := Z.land (4 - n) 3 in
  '(s, ptr) ← (
    if negb (i =? 0) && (i <=? Z.of_nat (length key))
    then s ← DOBYTES (Z.to_nat i) s key; Done (s, drop (Z.to_nat i) key) else Done (s, key));
  let '(h, ptr) := chunks ptr (rh s) in
  s ← DOBYTES (length ptr) (Running h (rc s) (rn s)) ptr; Done (carry_out s).

(** The other variant, with the address of the payload. *)
Definition murmur32_process_aligned (address ph1 pcarry : Z) (key : list Z) : outcome (Z * Z) :=
  let n := Z.land pcarry 3 in
  let s := Running ph1 pcarry n in
  let i := Z.land (- address) 3 in
  '(s, ptr) ← (
    if negb (i =? 0) && (i <=? Z.of_nat (length key))
    then s ← DOBYTES (Z.to_nat i) s key; Done (s, drop (Z.to_nat i) key) else Done (s, key));
  let '(h, c, ptr) :=
    if rn s =? 0 then let '(h, ptr) := chunks ptr (rh s) in (h, rc s, ptr)
    else shifted_chunks (rn s) ptr (rh s) (rc s) in
  s ← DOBYTES (length ptr) (Running h c (rn s)) ptr; Done (carry_out s).

Definition fmix (h : Z) : Z :=
  let h := Z.lxor h (Z.shiftr h 16) in
  let h := u32 (h * 0x85ebca6b) in
  let h := Z.lxor h (Z.shiftr h 13) in
  let h := u32 (h * 0xc2b2ae35) in
  Z.lxor h (Z.shiftr h 16).

(** The length is passed as a [uint32_t]. *)
Definition murmur32_result (h carry total_length : Z) : Z :=
  let n := Z.land carry 3 in
  let h :=
    if negb (n =? 0) then
      let k1 := Z.shiftr carry ((4 - n) * 8) in
      let k1 := u32 (k1 * C1) in
      let k1 := ROTL32 k1 15 in
      let k1 := u32 (k1 * C2) in
      Z.lxor h k1
    else h in
  fmix (Z.lxor h (u32 total_length)).

Definition murmur32 (seed : Z) (key : list Z) : outcome Z :=
  '(h1, carry) ← murmur32_process seed 0 key;
  Done (murmur32_result h1 carry (Z.of_nat (length key))).

(** ** The reference: MurmurHash3_x86_32 of a whole message

    The length enters the hash modulo [2 ^ 32]. *)

Definition mix_tail (h : Z) (tail : list Z) : Z :=
  match tail with
  | [] => h
  | _ => Z.lxor h (u32 (ROTL32 (u32 (le_combine tail * C1)) 15 * C2))
  end.
Definition murmur3a (seed : Z) (key : list Z) : Z :=
  let '(h, tail) := chunks key seed in
  fmix (Z.lxor (mix_tail h tail) (u32 (Z.of_nat (length key)))).

(** ** Proofs *)

(** The state of a message: its words hashed, its last bytes in the carry. *)
Record feeds (seed : Z) (msg : list Z) (s : running) : Prop := {
  fd_h : rh s = fst (chunks msg seed);
  fd_n : rn s = Z.of_nat (length (snd (chunks msg seed)));
  fd_c : 0 <= rc s < 2 ^ 32;
  fd_top : Z.shiftr (rc s) (32 - 8 * rn s) = le_combine (snd (chunks msg seed));
}.

(** Induction on a list by fours. *)
Lemma list_ind4 (P : list Z -> Prop) :
  (forall l, (length l < 4)%nat -> P l) ->
  (forall b0 b1 b2 b3 l, P l -> P (b0 :: b1 :: b2 :: b3 :: l)) -> forall l, P l.
Proof.
  intros Hs H4 l. remember (length l) as m eqn:E. revert l E.
  induction m as [m IH] using lt_wf_ind. intros l ->.
  destruct l as [|b0 [|b1 [|b2 [|b3 l]]]]; try (apply Hs; cbn; lia).
  apply H4, (IH (length l)); cbn; lia.
Qed.

Lemma chunks_short l h : (length l < 4)%nat -> chunks l h = (h, l).
Proof. destruct l as [|? [|? [|? [|? ?]]]]; cbn; intros; try reflexivity; lia. Qed.

Lemma chunks_tail l h : (length (snd (chunks l h)) < 4)%nat.
Proof.
  revert h. induction l as [l Hl|b0 b1 b2 b3 l IH] using list_ind4; intros h.
  - rewrite chunks_short by exact Hl. exact Hl.
  - cbn [chunks]. apply IH.
Qed.

Lemma chunks_app l l' h : chunks (l ++ l') h = chunks (snd (chunks l h) ++ l') (fst (chunks l h)).
Proof.
  revert h. induction l as [l Hl|b0 b1 b2 b3 l IH] using list_ind4; intros h.
  - rewrite (chunks_short l) by exact Hl. reflexivity.
  - cbn [chunks app]. apply IH.
Qed.

Lemma le_combine_app l l' : le_combine (l ++ l') = le_combine l + 256 ^ Z.of_nat (length l) * le_combine l'.
Proof.
  induction l as [|b l IH]; cbn [app le_combine length]; [change (256 ^ Z.of_nat 0) with 1; lia|].
  rewrite IH, Nat2Z.inj_succ, Z.pow_succ_r by lia. lia.
Qed.

(** The bytes whose shift is defined. *)
Definition shiftable (b : Z) : bool := b <? 128.

(** What a turn gives. *)
Definition append (s : running) (b : Z) : running :=
  let c' := rc s / 256 + b * 2 ^ 24 in
  if rn s + 1 =? 4 then Running (DOBLOCK (rh s) c') c' 0 else Running (rh s) c' (rn s + 1).

Lemma DOBYTE_runs s b : 0 <= rc s < 2 ^ 32 -> byte_range b ->
  DOBYTE s b = if shiftable b then Done (append s b) else Faults.
Proof.
  intros Hc Hb. unfold byte_range in Hb. unfold DOBYTE, append, shiftable.
  assert (E : (Z.shiftl b 24 <? 2 ^ 31) = (b <? 128)).
  { rewrite Z.shiftl_mul_pow2 by lia. destruct (Z.ltb_spec b 128); [apply Z.ltb_lt|apply Z.ltb_ge]; pow2_norm; lia. }
  rewrite E. destruct (b <? 128); [|done]. rewrite Z.shiftr_div_pow2 by lia. change (2 ^ 8) with 256.
  rewrite Z.lor_comm, lor_shiftl_add by zdiv_lia. by rewrite (Z.add_comm (b * 2 ^ 24)).
Qed.

Lemma append_feeds seed msg s b :
  feeds seed msg s -> byte_range b -> feeds seed (msg ++ [b]) (append s b).
Proof.
  intros [Hh Hn Hc Ht] Hb. unfold append.
  pose proof (chunks_tail msg seed) as Hl. destruct (chunks msg seed) as [h t] eqn:E. cbn [fst snd] in *.
  assert (Ea : chunks (msg ++ [b]) seed = chunks (t ++ [b]) h) by (rewrite chunks_app, E; reflexivity).
  assert (Hc' : 0 <= rc s / 256 + b * 2 ^ 24 < 2 ^ 32) by (unfold byte_range in Hb; zdiv_lia).
  rewrite Z.shiftr_div_pow2 in Ht by lia.
  unfold byte_range in Hb. destruct (Z.eqb_spec (rn s + 1) 4) as [E4|N4];
    (split; cbn [rh rn rc]; rewrite ?Ea; try exact Hc'); rewrite Hn in *;
    (destruct t as [|x [|y [|z [|]]]]; cbn [length] in *; try lia); cbn [app chunks fst snd length];
    rewrite ?Z.shiftr_div_pow2 by lia; cbn [Z.of_nat Pos.of_succ_nat Pos.succ le_combine] in *;
    try exact Hh; try reflexivity; try zdiv_lia.
  unfold READ_UINT32. cbn [le_combine]. rewrite <- Hh. f_equal. zdiv_lia.
Qed.

(** The first bytes of a payload, one after the other. *)
Lemma DOBYTES_feeds seed bytes rest : Forall byte_range bytes -> forall msg s, feeds seed msg s ->
  exists s', feeds seed (msg ++ bytes) s' /\
    DOBYTES (length bytes) s (bytes ++ rest) = if forallb shiftable bytes then Done s' else Faults.
Proof.
  induction 1 as [|b bytes Hb Hbs IH]; intros msg s Hf; cbn [length app DOBYTES forallb].
  - exists s. rewrite app_nil_r. done.
  - destruct (IH (msg ++ [b]) (append s b) (append_feeds _ _ _ _ Hf Hb)) as (s' & Hf' & E).
    exists s'. rewrite <- app_assoc in Hf'. split; [exact Hf'|]. rewrite DOBYTE_runs by (exact (fd_c _ _ _ Hf) || exact Hb).
    destruct (shiftable b); [rewrite bind_done; exact E|done].
Qed.

(** Words fed to a state without carry. *)
Lemma chunks_split ptr h :
  exists body, ptr = body ++ snd (chunks ptr h) /\ chunks body h = (fst (chunks ptr h), []).
Proof.
  revert h. induction ptr as [l Hl|b0 b1 b2 b3 l IH] using list_ind4; intros h.
  - exists []. rewrite chunks_short by exact Hl. split; reflexivity.
  - cbn [chunks]. destruct (IH (DOBLOCK h (READ_UINT32 b0 b1 b2 b3))) as (body & E1 & E2).
    exists (b0 :: b1 :: b2 :: b3 :: body). cbn [app chunks]. split; [do 4 f_equal; exact E1|exact E2].
Qed.

Lemma chunks_feeds seed msg s ptr :
  feeds seed msg s -> rn s = 0 ->
  exists body, ptr = body ++ snd (chunks ptr (rh s))
    /\ feeds seed (msg ++ body) (Running (fst (chunks ptr (rh s))) (rc s) (rn s)).
Proof.
  intros [Hh Hn Hc Ht] H0. rewrite H0 in *. destruct (chunks_split ptr (rh s)) as (body & E1 & E2).
  exists body. split; [exact E1|]. assert (Et : snd (chunks msg seed) = []).
  { destruct (snd (chunks msg seed)); [reflexivity|cbn in Hn; lia]. }
  assert (Ea : chunks (msg ++ body) seed = (fst (chunks ptr (rh s)), [])).
  { rewrite chunks_app, Et, <- Hh. exact E2. }
  split; cbn [rh rn rc]; rewrite ?Ea; try assumption; try reflexivity. rewrite Ht, Et. reflexivity.
Qed.

Lemma shift_word w s : 0 <= s < 32 -> u32 (Z.shiftl w s) = Z.shiftl (w mod 2 ^ (32 - s)) s.
Proof.
  intros Hs. unfold wrap. rewrite !Z.shiftl_mul_pow2 by lia.
  replace (2 ^ 32) with (2 ^ (32 - s) * 2 ^ s) by (rewrite <- Z.pow_add_r by lia; f_equal; lia).
  apply Z.mul_mod_distr_r; apply Z.pow_nonzero; lia.
Qed.

(** Words fed through a carry of one, two or three bytes. *)
Lemma shifted_step seed msg h c n b0 b1 b2 b3 :
  feeds seed msg (Running h c n) -> 1 <= n -> Forall byte_range [b0; b1; b2; b3] ->
  let w := READ_UINT32 b0 b1 b2 b3 in
  feeds seed (msg ++ [b0; b1; b2; b3])
    (Running (DOBLOCK h (Z.lor (Z.shiftr c (32 - 8 * n)) (u32 (Z.shiftl w (8 * n))))) w n).
Proof.
  intros [Hh Hn Hc Ht] H1 Hb w. cbn [rh rn rc] in *.
  pose proof (chunks_tail msg seed) as Hl. destruct (chunks msg seed) as [h' t] eqn:E. cbn [fst snd] in *. subst h'.
  assert (Ea : chunks (msg ++ [b0; b1; b2; b3]) seed = chunks (t ++ [b0; b1; b2; b3]) h) by (rewrite chunks_app, E; reflexivity).
  rewrite Ht. rewrite !Forall_cons in Hb. unfold byte_range in Hb. destruct Hb as (B0 & B1 & B2 & B3 & _).
  assert (Hw : w = b0 + 256 * (b1 + 256 * (b2 + 256 * b3))) by (unfold w, READ_UINT32; cbn; lia).
  assert (Hb' : 0 <= le_combine t < 256 ^ n).
  { rewrite <- Ht, Hn, Z.shiftr_div_pow2 by lia. destruct t as [|x [|y [|z [|]]]]; cbn [length] in *; try lia;
      cbn [Z.of_nat Pos.of_succ_nat Pos.succ]; split; try (apply Z.div_pos; lia); apply Z.div_lt_upper_bound; lia. }
  assert (H24 : n = 1 \/ n = 2 \/ n = 3) by lia.
  rewrite shift_word, Z.lor_comm, lor_shiftl_add by (change 256 with (2 ^ 8) in Hb'; rewrite <- Z.pow_mul_r in Hb' by lia; lia).
  split; cbn [rh rn rc]; rewrite ?Ea; try lia.
  - destruct t as [|x [|y [|z [|]]]]; cbn [length] in *; try lia; subst n;
      cbn [Z.of_nat Pos.of_succ_nat Pos.succ le_combine app chunks fst snd] in *; f_equal; unfold READ_UINT32;
      cbn [le_combine]; rewrite Hw; zdiv_lia.
  - destruct t as [|x [|y [|z [|]]]]; cbn [length] in *; try lia; subst n; reflexivity.
  - rewrite Z.shiftr_div_pow2 by lia.
    destruct t as [|x [|y [|z [|]]]]; cbn [length] in *; try lia; subst n;
      cbn [Z.of_nat Pos.of_succ_nat Pos.succ le_combine app chunks fst snd] in *; rewrite Hw; zdiv_lia.
Qed.

Lemma shifted_chunks_feeds seed ptr msg h c n :
  feeds seed msg (Running h c n) -> 1 <= n -> Forall byte_range ptr ->
  let '(h', c', rest) := shifted_chunks n ptr h c in
  exists body, ptr = body ++ rest /\ feeds seed (msg ++ body) (Running h' c' n) /\ (length rest < 4)%nat.
Proof.
  revert msg h c. induction ptr as [l Hl|b0 b1 b2 b3 l IH] using list_ind4; intros msg h c Hf Hn Hb.
  - replace (shifted_chunks n l h c) with (h, c, l) by (destruct l as [|? [|? [|? [|? ?]]]]; cbn in *; try reflexivity; lia).
    exists []. rewrite app_nil_r. auto.
  - cbn [shifted_chunks]. change (b0 :: b1 :: b2 :: b3 :: l) with ([b0; b1; b2; b3] ++ l) in Hb |- *.
    apply Forall_app in Hb as [Hb4 Hb]. pose proof (shifted_step _ _ _ _ _ _ _ _ _ Hf Hn Hb4) as Hs. cbv zeta in Hs.
    specialize (IH _ _ _ Hs Hn Hb). destruct (shifted_chunks _ _ _ _) as [[h' c'] rest].
    destruct IH as (body & -> & Hf' & Hr). exists ([b0; b1; b2; b3] ++ body). rewrite !app_assoc in *. auto.
Qed.

(** ** A whole call *)

Definition state_of (hc : Z * Z) : running := Running (fst hc) (snd hc) (Z.land (snd hc) 3).

Lemma feeds_n seed msg s : feeds seed msg s -> 0 <= rn s < 4.
Proof. intros []. pose proof (chunks_tail msg seed). lia. Qed.

(** The carry goes out and comes back in. *)
Lemma carry_feeds seed msg s : feeds seed msg s -> feeds seed msg (state_of (carry_out s)).
Proof.
  intros Hf. pose proof (feeds_n _ _ _ Hf) as Hr. destruct Hf as [Hh Hn Hc Ht].
  unfold state_of, carry_out. cbn [fst snd].
  assert (Em : u32 (Z.lnot 0xff) = 2 ^ 32 - 2 ^ 8) by reflexivity. rewrite Em.
  assert (El : Z.land (rc s) (2 ^ 32 - 2 ^ 8) = Z.shiftl (rc s / 2 ^ 8) 8).
  { apply Z.bits_inj'. intros i Hi. rewrite Z.land_spec, Z.shiftl_spec by lia.
    change (2 ^ 32 - 2 ^ 8) with (Z.shiftl (Z.ones 24) 8). rewrite Z.shiftl_spec by lia.
    destruct (Z.lt_ge_cases i 8); [rewrite !(Z.testbit_neg_r _ (i - 8)) by lia; apply andb_false_r|].
    rewrite Z.div_pow2_bits by lia. replace (i - 8 + 8) with i by lia.
    destruct (Z.lt_ge_cases i 32).
    - rewrite Z.ones_spec_low by lia. apply andb_true_r.
    - rewrite (testbit_above 32 (rc s)) by lia. reflexivity. }
  rewrite El, lor_shiftl_add by lia.
  assert (Ec : rc s / 2 ^ 8 * 2 ^ 8 + rn s = rc s - rc s mod 256 + rn s) by zdiv_lia.
  assert (E3 : Z.land (rc s / 2 ^ 8 * 2 ^ 8 + rn s) 3 = rn s).
  { change 3 with (Z.ones 2). rewrite Z.land_ones by lia. zdiv_lia. }
  rewrite E3. split; cbn [rh rn rc]; [exact Hh|exact Hn|zdiv_lia|].
  rewrite <- Ht, !Z.shiftr_div_pow2 by lia.
  assert (H4 : rn s = 0 \/ rn s = 1 \/ rn s = 2 \/ rn s = 3) by lia.
  destruct H4 as [->|[->|[->| ->]]]; cbn [Z.mul Z.sub Z.add Z.opp Z.pos_sub Pos.pred_double Z.succ_double Z.pred_double]; zdiv_lia.
Qed.

(** How many bytes are taken before the words, of [k] that are wanted. *)
Definition lead (k : Z) (key : list Z) : nat := if k <=? Z.of_nat (length key) then Z.to_nat k else 0.

Lemma take_feeds seed msg s k key :
  0 <= k -> feeds seed msg s -> Forall byte_range key ->
  let before := take (lead k key) key in
  let ptr := drop (lead k key) key in
  exists s', (if negb (k =? 0) && (k <=? Z.of_nat (length key))
      then s ← DOBYTES (Z.to_nat k) s key; Done (s, drop (Z.to_nat k) key) else Done (s, key))
      = (if forallb shiftable before then Done (s', ptr) else Faults)
    /\ feeds seed (msg ++ before) s'
    /\ (s' = s /\ ptr = key /\ (k = 0 \/ Z.of_nat (length key) < k) \/ Z.of_nat (length before) = k).
Proof.
  intros Hk Hf Hb before ptr. subst before ptr. unfold lead.
  assert (Skip : forall m : nat, m = 0%nat -> k = 0 \/ Z.of_nat (length key) < k -> exists s', Done (s, key) =
      (if forallb shiftable (take m key) then Done (s', drop m key) else Faults)
      /\ feeds seed (msg ++ take m key) s'
      /\ (s' = s /\ drop m key = key /\ (k = 0 \/ Z.of_nat (length key) < k) \/ Z.of_nat (length (take m key)) = k)).
  { intros m -> Hs. exists s. cbn [take drop forallb]. rewrite app_nil_r. split_and!; [done|exact Hf|left; auto]. }
  destruct (Z.leb_spec k (Z.of_nat (length key))) as [E2|E2]; [|rewrite andb_false_r; apply Skip; auto].
  destruct (Z.eqb_spec k 0) as [->|E1]; cbn [negb andb]; [apply Skip; auto|].
  destruct (DOBYTES_feeds seed (take (Z.to_nat k) key) (drop (Z.to_nat k) key) ltac:(auto using Forall_take) msg s Hf) as (s' & Hf' & E).
  rewrite take_drop, length_take_le in E by lia. exists s'. rewrite E. split_and!; [by destruct (forallb _ _)|exact Hf'|].
  right. rewrite length_take_le; lia.
Qed.

Lemma chunks_length l h : Z.of_nat (length (snd (chunks l h))) = Z.of_nat (length l) mod 4.
Proof.
  revert h. induction l as [l Hl|b0 b1 b2 b3 l IH] using list_ind4; intros h.
  - rewrite chunks_short by exact Hl. symmetry. apply Z.mod_small. cbn [snd]. lia.
  - cbn [chunks length]. rewrite IH. zdiv_lia.
Qed.

Lemma feeds_count seed msg s : feeds seed msg s -> rn s = Z.of_nat (length msg) mod 4.
Proof. intros []. rewrite <- (chunks_length msg seed). assumption. Qed.

(** After the first bytes there is no carry, or there is no whole word left. *)
Lemma ready seed msg before s s' (key ptr : list Z) :
  feeds seed msg s -> feeds seed (msg ++ before) s' ->
  (s' = s /\ ptr = key /\ (Z.land (4 - rn s) 3 = 0 \/ Z.of_nat (length key) < Z.land (4 - rn s) 3)
     \/ Z.of_nat (length before) = Z.land (4 - rn s) 3) ->
  rn s' = 0 \/ (length ptr < 4)%nat.
Proof.
  intros Hs Hs'. change 3 with (Z.ones 2). rewrite Z.land_ones by lia. change (2 ^ 2) with 4.
  pose proof (feeds_count _ _ _ Hs) as E. pose proof (feeds_count _ _ _ Hs') as E'.
  rewrite length_app in E'. pose proof (feeds_n _ _ _ Hs). pose proof (feeds_n _ _ _ Hs').
  intros [(-> & -> & [Hi|Hi])|Hi]; zdiv_lia.
Qed.

Lemma running_eta s : Running (rh s) (rc s) (rn s) = s.
Proof. destruct s. reflexivity. Qed.

(** The bytes of a payload that enter the carry one by one: those before the words,
    if there are so many, and those after. *)
Definition single_bytes (k : Z) (key : list Z) : list Z :=
  let n := lead k key in take n key ++ drop (n + (length key - n) / 4 * 4) key.

(** The end of a call: what the words leave. *)
Lemma finish_feeds seed msg before body rest k key s' h c n :
  key = before ++ body ++ rest -> before = take (lead k key) key -> Forall byte_range key ->
  feeds seed (msg ++ before) s' -> n = rn s' -> feeds seed ((msg ++ before) ++ body) (Running h c n) -> (length rest < 4)%nat ->
  exists hc, feeds seed (msg ++ key) (state_of hc) /\
    (if forallb shiftable before then s ← DOBYTES (length rest) (Running h c n) rest; Done (carry_out s) else Faults) =
      if forallb shiftable (single_bytes k key) then Done hc else Faults.
Proof.
  intros Ek Eb Hb Hf' En Hg Hr. pose proof (feeds_count _ _ _ Hf') as C1. pose proof (feeds_count _ _ _ Hg) as C2. cbn [rn] in C2.
  assert (Hm : Z.of_nat (length body) mod 4 = 0) by (rewrite length_app in C2; zdiv_lia).
  assert (Es : single_bytes k key = before ++ rest).
  { unfold single_bytes. rewrite <- Eb. f_equal. assert (El : lead k key = length before).
    { rewrite Eb, length_take. unfold lead. case_match; lia. }
    rewrite El, Ek, !length_app. replace (length before + (length body + length rest) - length before)%nat with (length body + length rest)%nat by lia.
    rewrite app_assoc. apply drop_app_length'. rewrite length_app. f_equal.
    assert (E4 : exists q, (length body = 4 * q)%nat) by (exists (Z.to_nat (Z.of_nat (length body) / 4)); zdiv_lia). destruct E4 as [q Eq]. rewrite Eq.
    rewrite (Nat.mul_comm 4 q), Nat.div_add_l, (Nat.div_small (length rest)) by lia. lia. }
  rewrite Ek in Hb. apply Forall_app in Hb as [_ [_ Hbr]%Forall_app].
  destruct (DOBYTES_feeds seed rest [] Hbr _ _ Hg) as (s & Hs & E). rewrite app_nil_r in E.
  exists (carry_out s). split.
  - apply carry_feeds. rewrite Ek. rewrite <- !app_assoc in Hs. exact Hs.
  - rewrite E, Es, forallb_app. destruct (forallb shiftable before), (forallb shiftable rest); done.
Qed.

(** One call of either variant, the second with the address of its payload. *)
Definition feed (hc : Z * Z) (piece : option Z * list Z) : outcome (Z * Z) :=
  match fst piece with
  | None => murmur32_process (fst hc) (snd hc) (snd piece)
  | Some address => murmur32_process_aligned address (fst hc) (snd hc) (snd piece)
  end.

(** How many bytes the variant wants before the words, [fed] bytes having been fed. *)
Definition wanted (fed : Z) (address : option Z) : Z := (- default fed address) mod 4.

Lemma land3 x : Z.land x 3 = x mod 4.
Proof. change 3 with (Z.ones 2). by rewrite Z.land_ones by lia. Qed.

Lemma process_feeds seed msg h c key :
  feeds seed msg (state_of (h, c)) -> Forall byte_range key ->
  exists hc, feeds seed (msg ++ key) (state_of hc) /\ murmur32_process h c key =
    if forallb shiftable (single_bytes (wanted (Z.of_nat (length msg)) None) key) then Done hc else Faults.
Proof.
  intros Hf Hb. unfold murmur32_process. set (s := Running h c (Z.land c 3)). change (state_of (h, c)) with s in Hf.
  change (Z.land c 3) with (rn s).
  assert (Ew : wanted (Z.of_nat (length msg)) None = Z.land (4 - rn s) 3).
  { rewrite land3, (feeds_count _ _ _ Hf). unfold wanted. cbn [default]. zdiv_lia. }
  rewrite Ew. destruct (take_feeds seed msg s (Z.land (4 - rn s) 3) key) as (s' & -> & Hf' & Hcase); auto.
  { apply Z.land_nonneg. lia. }
  apply (ready _ _ _ _ _ _ _ Hf Hf') in Hcase. set (k := Z.land (4 - rn s) 3) in *.
  set (ptr := drop (lead k key) key) in *. destruct (chunks ptr (rh s')) as [h' rest] eqn:E.
  assert (G : exists body, ptr = body ++ rest /\ feeds seed ((msg ++ take (lead k key) key) ++ body) (Running h' (rc s') (rn s')) /\ (length rest < 4)%nat).
  { destruct Hcase as [H0|Hl].
    - destruct (chunks_feeds _ _ _ ptr Hf' H0) as (body & E1 & E2). pose proof (chunks_tail ptr (rh s')). rewrite E in *. eauto.
    - rewrite chunks_short in E by exact Hl. injection E as <- <-. exists [].
      rewrite app_nil_r, running_eta. auto. }
  destruct G as (body & Ep & Hg & Hr).
  destruct (finish_feeds seed msg (take (lead k key) key) body rest k key s' h' (rc s') (rn s')) as (hc & Hhc & Eh); auto.
  { rewrite <- Ep. symmetry. apply take_drop. }
  exists hc. split; [exact Hhc|]. rewrite <- Eh. destruct (forallb _ (take _ _)); [rewrite bind_done; by rewrite E|done].
Qed.

Lemma process_aligned_feeds address seed msg h c key :
  feeds seed msg (state_of (h, c)) -> Forall byte_range key ->
  exists hc, feeds seed (msg ++ key) (state_of hc) /\ murmur32_process_aligned address h c key =
    if forallb shiftable (single_bytes (wanted (Z.of_nat (length msg)) (Some address)) key) then Done hc else Faults.
Proof.
  intros Hf Hb. unfold murmur32_process_aligned. set (s := Running h c (Z.land c 3)).
  change (state_of (h, c)) with s in Hf.
  assert (Ew : wanted (Z.of_nat (length msg)) (Some address) = Z.land (- address) 3) by (by rewrite land3). rewrite Ew.
  destruct (take_feeds seed msg s (Z.land (- address) 3) key) as (s' & -> & Hf' & _); auto.
  { apply Z.land_nonneg. lia. }
  pose proof (feeds_n _ _ _ Hf') as Hn. set (k := Z.land (- address) 3) in *. set (ptr := drop (lead k key) key) in *.
  destruct (if rn s' =? 0 then let '(h, ptr) := chunks ptr (rh s') in (h, rc s', ptr)
            else shifted_chunks (rn s') ptr (rh s') (rc s')) as [[h' c'] rest] eqn:E.
  assert (G : exists body, ptr = body ++ rest /\ feeds seed ((msg ++ take (lead k key) key) ++ body) (Running h' c' (rn s')) /\ (length rest < 4)%nat).
  { assert (Hbp : Forall byte_range ptr) by (by apply Forall_drop). destruct (Z.eqb_spec (rn s') 0) as [H0|Hne].
    - destruct (chunks_feeds _ _ _ ptr Hf' H0) as (body & E1 & E2). pose proof (chunks_tail ptr (rh s')).
      destruct (chunks ptr (rh s')). injection E as <- <- <-. eauto.
    - pose proof (shifted_chunks_feeds seed ptr (msg ++ take (lead k key) key) (rh s') (rc s') (rn s')) as G.
      rewrite E, running_eta in G. apply G; auto. lia. }
  destruct G as (body & Ep & Hg & Hr).
  destruct (finish_feeds seed msg (take (lead k key) key) body rest k key s' h' c' (rn s')) as (hc & Hhc & Eh); auto.
  { rewrite <- Ep. symmetry. apply take_drop. }
  exists hc. split; [exact Hhc|]. rewrite <- Eh. destruct (forallb _ (take _ _)); [rewrite bind_done; by rewrite E|done].
Qed.

Lemma start_feeds seed : feeds seed [] (state_of (seed, 0)).
Proof. split; cbn; try reflexivity. lia. Qed.

Lemma result_feeds seed msg h c :
  feeds seed msg (state_of (h, c)) -> murmur32_result h c (Z.of_nat (length msg)) = murmur3a seed msg.
Proof.
  intros Hf. pose proof (feeds_n _ _ _ Hf) as Hr. destruct Hf as [Hh Hn Hc Ht].
  unfold state_of in *. cbn [rh rn rc fst snd] in *. unfold murmur32_result, murmur3a.
  destruct (chunks msg seed) as [h' t]. cbn [fst snd] in *. subst h'. f_equal. f_equal.
  destruct (Z.eqb_spec (Z.land c 3) 0) as [E|N]; cbn [negb].
  - destruct t; [reflexivity|cbn [length] in Hn; lia].
  - replace ((4 - Z.land c 3) * 8) with (32 - 8 * Z.land c 3) by lia. rewrite Ht.
    destruct t; [cbn [length] in Hn; lia|reflexivity].
Qed.

(** ** The properties *)

(** The calls one after the other, and the bytes of all of them that enter the carry
    one by one. *)
Fixpoint feed_all (hc : Z * Z) (pieces : list (option Z * list Z)) : outcome (Z * Z) :=
  match pieces with
  | [] => Done hc
  | piece :: pieces => hc ← feed hc piece; feed_all hc pieces
  end.
Fixpoint carried_bytes (fed : Z) (pieces : list (option Z * list Z)) : list Z :=
  match pieces with
  | [] => []
  | (address, key) :: pieces => single_bytes (wanted fed address) key ++ carried_bytes (fed + Z.of_nat (length key)) pieces
  end.

Lemma feed_feeds seed msg hc piece : feeds seed msg (state_of hc) -> Forall byte_range (snd piece) ->
  exists hc', feeds seed (msg ++ snd piece) (state_of hc') /\ feed hc piece =
    if forallb shiftable (single_bytes (wanted (Z.of_nat (length msg)) (fst piece)) (snd piece)) then Done hc' else Faults.
Proof.
  destruct hc as [h c], piece as [[address|] key]; cbn [fst snd]; intros Hf Hb; [by apply process_aligned_feeds|by apply process_feeds].
Qed.

Lemma feed_all_feeds seed pieces : Forall (fun piece => Forall byte_range (snd piece)) pieces -> forall msg hc,
  feeds seed msg (state_of hc) -> exists hc', feeds seed (msg ++ concat (map snd pieces)) (state_of hc') /\
    feed_all hc pieces = if forallb shiftable (carried_bytes (Z.of_nat (length msg)) pieces) then Done hc' else Faults.
Proof.
  induction 1 as [|piece pieces Hb Hp IH]; intros msg hc Hf; cbn [feed_all map concat carried_bytes].
  - exists hc. rewrite app_nil_r. done.
  - destruct (feed_feeds _ _ _ _ Hf Hb) as (hc1 & Hf1 & E1). destruct (IH _ _ Hf1) as (hc2 & Hf2 & E2).
    exists hc2. rewrite app_assoc. split; [exact Hf2|]. destruct piece as [address key]. cbn [fst snd] in *.
    rewrite E1, forallb_app. rewrite length_app, Nat2Z.inj_add in E2.
    destruct (forallb shiftable (single_bytes _ _)); [rewrite bind_done; exact E2|done].
Qed.

(** C30: a message fed in any pieces (each of at most [INT_MAX] bytes, the range of
    the parameter), at any addresses, each by the variant for unaligned reads or by
    the realigning one, has the MurmurHash3 of the whole message; the carry loses no
    byte; the length, as the code passes it, counts modulo [2 ^ 32].  This is so
    exactly when no byte from 128 on enters the carry by itself, as those before the
    first whole word of a piece and after its last do ([carried_bytes]): the shift
    of such a byte by 24 places in an [int] is undefined. *)
Theorem murmur32_progressive seed (pieces : list (option Z * list Z)) :
  Forall (fun piece => Forall byte_range (snd piece) /\ Z.of_nat (length (snd piece)) < 2 ^ 31) pieces ->
  let message := concat (map snd pieces) in
  if forallb (fun b => b <? 128) (carried_bytes 0 pieces)
  then exists h carry, feed_all (seed, 0) pieces = Done (h, carry) /\
    murmur32_result h carry (Z.of_nat (length message)) = murmur3a seed message
  else feed_all (seed, 0) pieces = Faults.
Proof.
  intros Hp message.
  destruct (feed_all_feeds seed pieces ltac:(eapply Forall_impl; [exact Hp|]; by intros ? []) [] (seed, 0) (start_feeds seed)) as ([h carry] & Hf & E).
  change (fun b => b <? 128) with shiftable. change (Z.of_nat (length [])) with 0 in E. rewrite E.
  destruct (forallb _ _); [|done]. exists h, carry. split; [done|]. apply result_feeds. exact Hf.
Qed.

(** Pieces of a message with bytes from 128 on in its words; one byte of them in the
    carry. *)
Lemma murmur32_progressive_witness :
  (let pieces := [(None, [1; 2; 3; 200; 5]); (Some 2, [6; 7; 8; 9; 210; 11; 12; 13]); (Some 7, [14]); (None, [15; 16])] in
   exists h carry, feed_all (7, 0) pieces = Done (h, carry) /\ murmur32_result h carry 16 = murmur3a 7 (concat (map snd pieces))) /\
  feed_all (7, 0) [(None, [1; 2; 3; 4; 200])] = Faults.
Proof.
  split.
  - apply (murmur32_progressive 7 [(None, [1; 2; 3; 200; 5]); (Some 2, [6; 7; 8; 9; 210; 11; 12; 13]); (Some 7, [14]); (None, [15; 16])]).
    repeat constructor; done.
  - apply (murmur32_progressive 7 [(None, [1; 2; 3; 4; 200])]). repeat constructor; done.
Defined.
