(* ===== verification/Wyhash.v ===== *)
(** * Wyhash ([core/native/hashing/wyhash.h], [wyhash32.h])

    The 64-bit and the 32-bit hash, the 128-bit multiplication they use in its
    two versions, and the modular arithmetic of the primality test.  The branches are
    those of GCC on a 64-bit little-endian machine; others are in [WyhashNumbers] and
    [Portable], the test and the secrets in [WyhashSecret]. *)
From Stdlib Require Import Zpow_facts.
From S2P Require Import Prelude.

(** ** Multiply and mix *)

Definition _wymum (A B : Z) : Z * Z :=
  let r := u128 (A * B) in (u64 r, u64 (Z.shiftr r 64)).

(** The same without a 128-bit type. *)
Definition _wymum_portable (A B : Z) : Z * Z :=
  let ha := Z.shiftr A 32 in let hb := Z.shiftr B 32 in
  let la := u32 A in let lb := u32 B in
  let rh := u64 (ha * hb) in let rm0 := u64 (ha * lb) in let rm1 := u64 (hb * la) in
  let rl := u64 (la * lb) in
  let t := u64 (rl + u64 (Z.shiftl rm0 32)) in
  let c := if t <? rl then 1 else 0 in
  let lo := u64 (t + u64 (Z.shiftl rm1 32)) in
  let c := u64 (c + (if lo <? t then 1 else 0)) in
  (lo, u64 (rh + Z.shiftr rm0 32 + Z.shiftr rm1 32 + c)).

Definition _wymix (A B : Z) : Z := let '(A, B) := _wymum A B in Z.lxor A B.

Definition _wyr8 (buf : list Z) (p : Z) : outcome Z := demand (load_le 8 buf p).
Definition _wyr4 (buf : list Z) (p : Z) : outcome Z := demand (load_le 4 buf p).
Definition _wyr3 (buf : list Z) (p k : Z) : outcome Z :=
  b0 ← demand (byte_at buf p); b1 ← demand (byte_at buf (p + Z.shiftr k 1)); b2 ← demand (byte_at buf (p + k - 1));
  Done (Z.lor (Z.lor (Z.shiftl b0 16) (Z.shiftl b1 8)) b2).

(** ** The 64-bit hash *)

Definition _wyp : list Z := [0x2d358dccaa6c78a5; 0x8bb84b93962eacc9; 0x4b33a62ed433d4a3; 0x4d5a2da51de1aa47].

(** [_wymix(_wyr8(p) ^ s, _wyr8(p + 8) ^ seed)]. *)
Definition mix_block (buf : list Z) (p s seed : Z) : outcome Z :=
  x ← _wyr8 buf p; y ← _wyr8 buf (p + 8); Done (_wymix (Z.lxor x s) (Z.lxor y seed)).

(** The [do] loop on 48 bytes. *)
Fixpoint long_loop (fuel : nat) (buf : list Z) (s1 s2 s3 seed see1 see2 p i : Z) : outcome (Z * Z * Z * Z * Z) :=
  match fuel with
  | O => Spins
  | S fuel =>
      seed ← mix_block buf p s1 seed;
      see1 ← mix_block buf (p + 16) s2 see1;
      see2 ← mix_block buf (p + 32) s3 see2;
      let p := p + 48 in let i := i - 48 in
      if i >=? 48 then long_loop fuel buf s1 s2 s3 seed see1 see2 p i else Done (seed, see1, see2, p, i)
  end.

(** The [while] loop on 16 bytes. *)
Fixpoint short_loop (fuel : nat) (buf : list Z) (s1 seed p i : Z) : outcome (Z * Z * Z) :=
  match fuel with
  | O => Spins
  | S fuel =>
      if i >? 16 then seed ← mix_block buf p s1 seed; short_loop fuel buf s1 seed (p + 16) (i - 16)
      else Done (seed, p, i)
  end.

(** The two words [a], [b] and the seed before the final mix. *)
Definition wyhash_words (buf : list Z) (len seed s1 s2 s3 : Z) : outcome (Z * Z * Z) :=
  if len <=? 16 then
    if len >=? 4 then
      let o := Z.shiftl (Z.shiftr len 3) 2 in
      x ← _wyr4 buf 0; y ← _wyr4 buf o; z ← _wyr4 buf (len - 4); w ← _wyr4 buf (len - 4 - o);
      Done (Z.lor (Z.shiftl x 32) y, Z.lor (Z.shiftl z 32) w, seed)
    else if len >? 0 then a ← _wyr3 buf 0 len; Done (a, 0, seed)
    else Done (0, 0, seed)
  else
    '(seed, p, i) ← (if len >=? 48 then
        '(seed, see1, see2, p, i) ← long_loop (Z.to_nat (len / 48)) buf s1 s2 s3 seed seed seed 0 len;
        Done (Z.lxor seed (Z.lxor see1 see2), p, i)
      else Done (seed, 0, len));
    '(seed, p, i) ← short_loop 4 buf s1 seed p i;
    a ← _wyr8 buf (p + i - 16); b ← _wyr8 buf (p + i - 8); Done (a, b, seed).

Definition wyhash (buf : list Z) (len seed : Z) (secret : list Z) : outcome Z :=
  s0 ← demand (secret !! 0%nat); s1 ← demand (secret !! 1%nat);
  s2 ← demand (secret !! 2%nat); s3 ← demand (secret !! 3%nat);
  let seed := Z.lxor seed (_wymix (Z.lxor seed s0) s1) in
  '(a, b, seed) ← wyhash_words buf len seed s1 s2 s3;
  let '(a, b) := _wymum (Z.lxor a s1) (Z.lxor b seed) in
  Done (_wymix (Z.lxor (Z.lxor a s0) len) (Z.lxor b s1)).

Definition wyhash64 (A B : Z) : Z :=
  let '(A, B) := _wymum (Z.lxor A 0x2d358dccaa6c78a5) (Z.lxor B 0x8bb84b93962eacc9) in
  _wymix (Z.lxor A 0x2d358dccaa6c78a5) (Z.lxor B 0x8bb84b93962eacc9).

(** The number drawn and the new seed. *)
Definition wyrand (seed : Z) : Z * Z :=
  let seed := u64 (seed + 0x2d358dccaa6c78a5) in (_wymix seed (Z.lxor seed 0x8bb84b93962eacc9), seed).

Definition wy2u0k (r k : Z) : Z := snd (_wymum r k).

(** ** The 32-bit hash *)

Definition _wyr32 (buf : list Z) (p : Z) : outcome Z := demand (load_le 4 buf p).
Definition _wyr24 (buf : list Z) (p k : Z) : outcome Z := _wyr3 buf p k.
Definition _wymix32 (A B : Z) : Z * Z :=
  let c := u64 (Z.lxor A 0x53c5ca59 * Z.lxor B 0x74743c1b) in (u32 c, u32 (Z.shiftr c 32)).

Fixpoint loop32 (fuel : nat) (buf : list Z) (seed see1 p i : Z) : outcome (Z * Z * Z * Z) :=
  match fuel with
  | O => Spins
  | S fuel =>
      if i >? 8 then
        x ← _wyr32 buf p; y ← _wyr32 buf (p + 4);
        let '(seed, see1) := _wymix32 (Z.lxor seed x) (Z.lxor see1 y) in
        loop32 fuel buf seed see1 (p + 8) (i - 8)
      else Done (seed, see1, p, i)
  end.

Definition wyhash32 (buf : list Z) (len seed : Z) : outcome Z :=
  let '(seed, see1) := _wymix32 (Z.lxor seed (u32 (Z.shiftr len 32))) (u32 len) in
  '(seed, see1, p, i) ← loop32 (S (Z.to_nat (len / 8))) buf seed see1 0 len;
  '(seed, see1) ← (if i >=? 4 then
      x ← _wyr32 buf p; y ← _wyr32 buf (p + i - 4); Done (Z.lxor seed x, Z.lxor see1 y)
    else if negb (i =? 0) then x ← _wyr24 buf p i; Done (Z.lxor seed x, see1)
    else Done (seed, see1));
  let '(seed, see1) := _wymix32 seed see1 in
  let '(seed, see1) := _wymix32 seed see1 in
  Done (Z.lxor seed see1).

Definition wy32x32 (a b : Z) : Z :=
  let '(a, b) := _wymix32 a b in let '(a, b) := _wymix32 a b in Z.lxor a b.

(** ** Modular arithmetic and the primality test *)

(** A sum modulo [m] of two numbers below [m], with the overflow detected. *)
Definition add_mod (x y m : Z) : Z :=
  let r2 := u64 (x + y) in
  let r2 := if r2 <? x then u64 (r2 - m) else r2 in r2 mod m.

Fixpoint mul_mod_loop (fuel : nat) (a b m r : Z) : outcome Z :=
  if b =? 0 then Done r else
  match fuel with
  | O => Spins
  | S fuel =>
      if m =? 0 then Faults else
      let r := if Z.testbit b 0 then add_mod r a m else r in
      let b := Z.shiftr b 1 in
      let a := if b =? 0 then a else add_mod a a m in
      mul_mod_loop fuel a b m r
  end.
Definition mul_mod (a b m : Z) : outcome Z := mul_mod_loop 64 a b m 0.

Fixpoint pow_mod_loop (fuel : nat) (a b m r : Z) : outcome Z :=
  if b =? 0 then Done r else
  match fuel with
  | O => Spins
  | S fuel =>
      r ← (if Z.testbit b 0 then mul_mod r a m else Done r);
      let b := Z.shiftr b 1 in
      a ← (if b =? 0 then Done a else mul_mod a a m);
      pow_mod_loop fuel a b m r
  end.
Definition pow_mod (a b m : Z) : outcome Z := pow_mod_loop 64 a b m 1.

(** [while (!(d & 0xff)) { d >>= 8; s += 8; }]. *)
Fixpoint shift_bytes (fuel : nat) (d s : Z) : outcome (Z * Z) :=
  if Z.land d 0xff =? 0 then
    match fuel with O => Spins | S fuel => shift_bytes fuel (Z.shiftr d 8) (u8 (s + 8)) end
  else Done (d, s).

Definition shift_if (mask w : Z) (ds : Z * Z) : Z * Z :=
  if Z.land (fst ds) mask =? 0 then (Z.shiftr (fst ds) w, u8 (snd ds + w)) else ds.

Fixpoint sprp_loop (fuel : nat) (n s r b : Z) : outcome bool :=
  match fuel with
  | O => Spins
  | S fuel =>
      if r <? s then
        b ← mul_mod b b n;
        if b <=? 1 then Done false else if b =? n - 1 then Done true else sprp_loop fuel n s (r + 1) b
      else Done false
  end.

Definition sprp (n a : Z) : outcome bool :=
  ds ← shift_bytes 8 (u64 (n - 1)) 0;
  let '(d, s) := shift_if 0x1 1 (shift_if 0x3 2 (shift_if 0xf 4 ds)) in
  b ← pow_mod a d n;
  if (b =? 1) || (b =? u64 (n - 1)) then Done true else sprp_loop 64 n s 1 b.

Fixpoint all_sprp (n : Z) (bases : list Z) : outcome bool :=
  match bases with
  | [] => Done true
  | a :: bases => ok ← sprp n a; if (ok : bool) then all_sprp n bases else Done false
  end.

Definition is_prime (n : Z) : outcome bool :=
  if (n <? 2) || (Z.land n 1 =? 0) then Done false else
  if n <? 4 then Done true else
  ok ← sprp n 2;
  if negb ok then Done false else
  if n <? 2047 then Done true else all_sprp n [3; 5; 7; 11; 13; 17; 19; 23; 29; 31; 37].

(** ** The hashes are defined on every buffer *)

Definition word (x : Z) : Prop := 0 <= x < 2 ^ 64.

Lemma lxor_word x y : word x -> word y -> word (Z.lxor x y).
Proof. intros. apply (lxor_bound 64); unfold word in *; lia. Qed.

Lemma lor_word x y : word x -> word y -> word (Z.lor x y).
Proof. intros. apply (lor_bound 64); unfold word in *; lia. Qed.

Lemma u64_word x : word (u64 x).
Proof. apply wrap_bound. lia. Qed.

Lemma mum_word A B : word (fst (_wymum A B)) /\ word (snd (_wymum A B)).
Proof. split; apply u64_word. Qed.

Lemma mix_word A B : word (_wymix A B).
Proof. apply lxor_word; apply mum_word. Qed.

Create HintDb words.
#[export] Hint Resolve lxor_word lor_word u64_word mix_word : words.

Section Total.
Context (buf : list Z) (Hbuf : Forall byte_range buf).
Notation total := (Z.of_nat (length buf)).

Lemma wyr8_word p : 0 <= p -> p + 8 <= total -> exists v, _wyr8 buf p = Done v /\ word v.
Proof.
  intros. exists (bytes_at 8 buf p). unfold _wyr8. rewrite load_le_some by lia.
  split; [reflexivity|]. apply (bytes_at_bound 8); exact Hbuf.
Qed.

Lemma wyr4_word p : 0 <= p -> p + 4 <= total -> exists v, _wyr4 buf p = Done v /\ 0 <= v < 2 ^ 32.
Proof.
  intros. exists (bytes_at 4 buf p). unfold _wyr4. rewrite load_le_some by lia.
  split; [reflexivity|]. apply (bytes_at_bound 4); exact Hbuf.
Qed.

Lemma byte_done p : 0 <= p < total -> exists b, demand (byte_at buf p) = Done b /\ byte_range b.
Proof.
  intros Hp. destruct (byte_at_some buf p Hp) as [b E]. exists b. rewrite E.
  split; [reflexivity|]. exact (byte_at_bound _ _ _ Hbuf E).
Qed.

Lemma wyr3_word p k :
  0 <= p -> 0 < k -> p + k <= total -> exists v, _wyr3 buf p k = Done v /\ 0 <= v < 2 ^ 24.
Proof.
  intros Hp Hk Ht. unfold _wyr3. rewrite (Z.shiftr_div_pow2 k 1) by lia.
  destruct (byte_done p) as (b0 & -> & H0); [lia|]. rewrite bind_done.
  destruct (byte_done (p + k / 2 ^ 1)) as (b1 & -> & H1); [zdiv_lia|]. rewrite bind_done.
  destruct (byte_done (p + k - 1)) as (b2 & -> & H2); [lia|]. rewrite bind_done.
  eexists. split; [reflexivity|]. unfold byte_range in *.
  rewrite !Z.shiftl_mul_pow2 by lia.
  apply (lor_bound 24); [lia|apply (lor_bound 24); lia|lia].
Qed.

Lemma mix_block_word p s seed :
  0 <= p -> p + 16 <= total -> exists v, mix_block buf p s seed = Done v /\ word v.
Proof.
  intros. unfold mix_block. destruct (wyr8_word p) as (x & -> & _); [lia..|].
  destruct (wyr8_word (p + 8)) as (y & E & _); [lia..|]. rewrite bind_done, E, bind_done. eauto with words.
Qed.

Lemma long_loop_word s1 s2 s3 fuel : forall seed see1 see2 p i,
  0 <= p -> 48 <= i -> p + i = total -> Z.of_nat fuel = i / 48 -> 
  exists seed' see1' see2' p' i', long_loop fuel buf s1 s2 s3 seed see1 see2 p i = Done (seed', see1', see2', p', i')
    /\ word seed' /\ word see1' /\ word see2' /\ 0 <= p' /\ 0 <= i' < 48 /\ p' + i' = total.
Proof.
  induction fuel as [|fuel IH]; intros seed see1 see2 p i Hp Hi Ht Hf; [zdiv_lia|]. cbn [long_loop].
  destruct (mix_block_word p s1 seed) as (x & -> & Hx); [lia..|]. rewrite bind_done.
  destruct (mix_block_word (p + 16) s2 see1) as (y & -> & Hy); [lia..|]. rewrite bind_done.
  destruct (mix_block_word (p + 32) s3 see2) as (z & -> & Hz); [lia..|]. rewrite bind_done.
  cbv zeta. destruct (Z.geb_spec (i - 48) 48).
  - apply IH; [lia..|]. replace i with (i - 48 + 1 * 48) in Hf by lia. rewrite Z.div_add in Hf by lia. lia.
  - exists x, y, z, (p + 48), (i - 48). split_and!; auto; lia.
Qed.

Lemma short_loop_word s1 fuel : forall seed p i,
  word seed -> 0 <= p -> 0 <= i -> p + i = total -> i <= 16 * Z.of_nat fuel -> 
  exists seed' p' i', short_loop (S fuel) buf s1 seed p i = Done (seed', p', i') /\ word seed' /\ p' + i' = total.
Proof.
  induction fuel as [|fuel IH]; intros seed p i Hs Hp Hi Ht Hf; cbn [short_loop];
    destruct (Z.gtb_spec i 16); try lia; try (exists seed, p, i; auto; fail).
  destruct (mix_block_word p s1 seed) as (x & -> & Hx); [lia..|]. rewrite bind_done. apply IH; [auto|lia..].
Qed.

Lemma wyhash_words_word seed s1 s2 s3 :
  word seed -> exists a b seed', wyhash_words buf total seed s1 s2 s3 = Done (a, b, seed') /\ word a /\ word b /\ word seed'.
Proof.
  intros Hs. assert (Hz : word 0) by (unfold word; lia). unfold wyhash_words. cbv zeta.
  destruct (Z.leb_spec total 16).
  - assert (Hpack : forall x y, 0 <= x < 2 ^ 32 -> 0 <= y < 2 ^ 32 -> word (Z.lor (Z.shiftl x 32) y)).
    { intros x y Hx Hy. apply lor_word; unfold word in *; rewrite ?Z.shiftl_mul_pow2 by lia; lia. }
    destruct (Z.geb_spec total 4).
    + set (o := Z.shiftl (Z.shiftr total 3) 2).
      assert (Ho : 0 <= o <= total - 4).
      { unfold o. rewrite Z.shiftl_mul_pow2, Z.shiftr_div_pow2 by lia. pow2_norm. zdiv_lia. }
      destruct (wyr4_word 0) as (x & -> & Hx); [lia..|]. rewrite bind_done.
      destruct (wyr4_word o) as (y & -> & Hy); [lia..|]. rewrite bind_done.
      destruct (wyr4_word (total - 4)) as (z & -> & Hz'); [lia..|]. rewrite bind_done.
      destruct (wyr4_word (total - 4 - o)) as (w & -> & Hw); [lia..|]. rewrite bind_done.
      do 3 eexists. split; [reflexivity|]. auto.
    + destruct (Z.gtb_spec total 0); [|eauto 10].
      destruct (wyr3_word 0 total) as (v & -> & Hv); [lia..|]. rewrite bind_done.
      do 3 eexists. split; [reflexivity|]. unfold word in *. split_and!; auto; lia.
  - assert (G : exists seed' p i, (if total >=? 48 then
        '(seed, see1, see2, p, i) ← long_loop (Z.to_nat (total / 48)) buf s1 s2 s3 seed seed seed 0 total;
        Done (Z.lxor seed (Z.lxor see1 see2), p, i)
      else Done (seed, 0, total)) = Done (seed', p, i) /\ word seed' /\ 0 <= p /\ 0 <= i < 48 /\ p + i = total).
    { destruct (Z.geb_spec total 48); [|exists seed, 0, total; split_and!; auto; lia].
      destruct (long_loop_word s1 s2 s3 (Z.to_nat (total / 48)) seed seed seed 0 total)
        as (x & y & z & p & i & -> & ? & ? & ? & ?); [lia..|zdiv_lia|].
      rewrite bind_done. do 3 eexists. split; [reflexivity|]. split; [auto with words|assumption]. }
    destruct G as (seed1 & p1 & i1 & -> & Hs1 & Hp1 & Hi1 & Ht1). rewrite bind_done.
    destruct (short_loop_word s1 3 seed1 p1 i1) as (seed2 & p2 & i2 & -> & Hs2 & Ht2); [auto|lia..|].
    rewrite bind_done.
    destruct (wyr8_word (p2 + i2 - 16)) as (a & -> & Ha); [lia..|]. rewrite bind_done.
    destruct (wyr8_word (p2 + i2 - 8)) as (b & -> & Hb); [lia..|]. rewrite bind_done. eauto 10.
Qed.

Lemma wyhash_word seed secret :
  word seed -> Forall word secret -> length secret = 4%nat -> exists h, wyhash buf total seed secret = Done h /\ word h.
Proof.
  intros Hs Hw Hl. destruct secret as [|s0 [|s1 [|s2 [|s3 [|]]]]]; try discriminate. unfold wyhash.
  cbn [lookup list_lookup demand]. rewrite !bind_done. cbv zeta.
  destruct (wyhash_words_word (Z.lxor seed (_wymix (Z.lxor seed s0) s1)) s1 s2 s3)
    as (a & b & seed' & -> & ? & ? & ?); [auto with words|].
  rewrite bind_done. destruct (_wymum (Z.lxor a s1) (Z.lxor b seed')). eauto with words.
Qed.

Lemma loop32_S fuel seed see1 p i :
  loop32 (S fuel) buf seed see1 p i
  = if i >? 8 then
      x ← _wyr32 buf p; y ← _wyr32 buf (p + 4);
      let '(seed, see1) := _wymix32 (Z.lxor seed x) (Z.lxor see1 y) in
      loop32 fuel buf seed see1 (p + 8) (i - 8)
    else Done (seed, see1, p, i).
Proof. reflexivity. Qed.

Lemma loop32_done fuel : forall seed see1 p i,
  0 <= p -> 0 <= i -> p + i = total -> i <= 8 * Z.of_nat fuel + 7 ->
  exists seed' see1' p' i', loop32 (S fuel) buf seed see1 p i = Done (seed', see1', p', i')
    /\ 0 <= p' /\ 0 <= i' <= 8 /\ p' + i' = total.
Proof.
  induction fuel as [|fuel IH]; intros seed see1 p i Hp Hi Ht Hf; rewrite loop32_S;
    destruct (Z.gtb_spec i 8); try lia; try (do 4 eexists; split; [reflexivity|lia]).
  unfold _wyr32. rewrite (load_le_some 4 buf p), (load_le_some 4 buf (p + 4)) by lia.
  cbn [demand]. rewrite !bind_done. destruct (_wymix32 _ _). apply IH; lia.
Qed.

Lemma mix32_bound A B : 0 <= fst (_wymix32 A B) < 2 ^ 32 /\ 0 <= snd (_wymix32 A B) < 2 ^ 32.
Proof. split; apply wrap_bound; lia. Qed.

Lemma wyhash32_done seed : exists h, wyhash32 buf total seed = Done h /\ 0 <= h < 2 ^ 32.
Proof.
  unfold wyhash32. destruct (_wymix32 _ _) as [x y].
  destruct (loop32_done (Z.to_nat (total / 8)) x y 0 total) as (x' & y' & p & i & -> & Hp & Hi & Ht); [lia..|zdiv_lia|].
  rewrite bind_done.
  match goal with |- exists h, (?m ≫= _) = _ /\ _ => assert (G : exists a b, m = Done (a, b)) end.
  { destruct (Z.geb_spec i 4).
    - unfold _wyr32. rewrite !load_le_some by lia. cbn [demand]. rewrite !bind_done. eauto.
    - destruct (Z.eqb_spec i 0); cbn [negb]; [eauto|].
      destruct (wyr3_word p i) as (v & E & _); [lia..|]. unfold _wyr24. rewrite E, bind_done. eauto. }
  destruct G as (a & b & ->). rewrite bind_done.
  destruct (_wymix32 a b) as [c d]. pose proof (mix32_bound c d) as [Hc Hd].
  destruct (_wymix32 c d) as [e f]. cbn in Hc, Hd.
  exists (Z.lxor e f). split; [reflexivity|apply lxor_bound; [lia|exact Hc|exact Hd]].
Qed.
End Total.

(** ** Multiplication without a 128-bit type *)

(** The carry out of a sum of two words. *)
Lemma carry x y : word x -> word y -> 
  u64 (x + y) + 2 ^ 64 * (if u64 (x + y) <? x then 1 else 0) = x + y.
Proof.
  intros Hx Hy. unfold word, wrap in *. 
  destruct (Z.ltb_spec ((x + y) mod 2 ^ 64) x); pow2_norm; zdiv_lia.
Qed.

Lemma wymum_value A B : word A -> word B -> _wymum A B = (A * B mod 2 ^ 64, A * B / 2 ^ 64).
Proof.
  intros HA HB. unfold _wymum, word in *. rewrite (wrap_small 128) by (pow2_norm; nia).
  rewrite Z.shiftr_div_pow2 by lia. f_equal. apply wrap_small. pow2_norm.
  split; [apply Z.div_pos; nia|apply Z.div_lt_upper_bound; nia].
Qed.

Lemma mul_halves ha la hb lb :
  (ha * 2 ^ 32 + la) * (hb * 2 ^ 32 + lb) = ha * hb * 2 ^ 64 + (ha * lb + hb * la) * 2 ^ 32 + la * lb.
Proof. ring. Qed.

Lemma mul32_bound a b : 0 <= a < 2 ^ 32 -> 0 <= b < 2 ^ 32 -> 0 <= a * b <= 2 ^ 64 - 2 ^ 33 + 1.
Proof. intros. pow2_norm. nia. Qed.

Lemma wymum_portable_eq A B : word A -> word B -> _wymum_portable A B = _wymum A B.
Proof.
  intros HA HB. rewrite wymum_value by assumption. unfold _wymum_portable. cbv zeta.
  rewrite !(Z.shiftr_div_pow2 A), !(Z.shiftr_div_pow2 B) by lia.
  set (ha := A / 2 ^ 32). set (la := u32 A). set (hb := B / 2 ^ 32). set (lb := u32 B).
  assert (Ha : 0 <= ha < 2 ^ 32) by (unfold ha, word in *; pow2_norm; zdiv_lia).
  assert (Hb : 0 <= hb < 2 ^ 32) by (unfold hb, word in *; pow2_norm; zdiv_lia).
  assert (Hla : 0 <= la < 2 ^ 32) by (apply wrap_bound; lia).
  assert (Hlb : 0 <= lb < 2 ^ 32) by (apply wrap_bound; lia).
  assert (EA : A = ha * 2 ^ 32 + la) by (unfold ha, la, wrap; pow2_norm; zdiv_lia).
  assert (EB : B = hb * 2 ^ 32 + lb) by (unfold hb, lb, wrap; pow2_norm; zdiv_lia).
  pose proof (mul32_bound ha hb Ha Hb) as Brh. pose proof (mul32_bound ha lb Ha Hlb) as Brm0.
  pose proof (mul32_bound hb la Hb Hla) as Brm1. pose proof (mul32_bound la lb Hla Hlb) as Brl.
  rewrite (wrap_small 64 (ha * hb)), (wrap_small 64 (ha * lb)), (wrap_small 64 (hb * la)), (wrap_small 64 (la * lb))
    by (pow2_norm; lia).
  rewrite EA, EB, mul_halves. clear EA EB. clearbody ha la hb lb.
  revert Brh Brm0 Brm1 Brl. generalize (ha * hb), (ha * lb), (hb * la), (la * lb). intros rh rm0 rm1 rl Brh Brm0 Brm1 Brl.
  rewrite !Z.shiftl_mul_pow2, !Z.shiftr_div_pow2 by lia.
  pose proof (carry rl (u64 (rm0 * 2 ^ 32)) ltac:(unfold word; pow2_norm; lia) (u64_word _)) as C1.
  set (t := u64 (rl + u64 (rm0 * 2 ^ 32))) in *.
  pose proof (carry t (u64 (rm1 * 2 ^ 32)) (u64_word _) (u64_word _)) as C2.
  set (lo := u64 (t + u64 (rm1 * 2 ^ 32))) in *.
  assert (Hlo : word lo) by apply u64_word.
  assert (E0 : u64 (rm0 * 2 ^ 32) = rm0 * 2 ^ 32 - rm0 / 2 ^ 32 * 2 ^ 64) by (unfold wrap; pow2_norm; zdiv_lia).
  assert (E1 : u64 (rm1 * 2 ^ 32) = rm1 * 2 ^ 32 - rm1 / 2 ^ 32 * 2 ^ 64) by (unfold wrap; pow2_norm; zdiv_lia).
  rewrite E0 in C1. rewrite E1 in C2. clear E0 E1. clearbody lo t.
  set (c1 := if t <? rl then 1 else 0) in *. set (c2 := if lo <? t then 1 else 0) in *.
  assert (Hc : 0 <= c1 <= 1 /\ 0 <= c2 <= 1) by (unfold c1, c2; repeat case_match; lia).
  rewrite (wrap_small 64 (c1 + c2)) by (pow2_norm; lia).
  set (S := rh * 2 ^ 64 + (rm0 + rm1) * 2 ^ 32 + rl).
  set (hi := rh + rm0 / 2 ^ 32 + rm1 / 2 ^ 32 + (c1 + c2)).
  assert (ES : S = hi * 2 ^ 64 + lo) by (unfold S, hi; pow2_norm; lia).
  assert (Hhi : 0 <= hi < 2 ^ 64).
  { clearbody hi c1 c2. unfold S, word in *. pow2_norm. lia. }
  rewrite (wrap_small 64 hi Hhi), ES. unfold word in Hlo. f_equal.
  - rewrite Z.add_comm, Z.mod_add, Z.mod_small by lia. reflexivity.
  - rewrite Z.add_comm, Z.div_add, Z.div_small by lia. reflexivity.
Qed.

(** ** Modular arithmetic *)

Section Modular.
Context (m : Z) (Hm : 1 < m < 2 ^ 64).

Lemma add_mod_spec x y : 0 <= x < m -> 0 <= y < m -> add_mod x y m = (x + y) mod m.
Proof.
  intros Hx Hy. unfold add_mod. cbv zeta.
  pose proof (carry x y ltac:(unfold word; lia) ltac:(unfold word; lia)) as C.
  destruct (Z.ltb_spec (u64 (x + y)) x) as [Hlt|Hge].
  - replace (u64 (u64 (x + y) - m)) with (x + y + (-1) * m).
    + rewrite Z.mod_add by lia. reflexivity.
    + unfold wrap in *. pow2_norm. zdiv_lia.
  - f_equal. lia.
Qed.

Lemma add_mod_bound x y : 0 <= add_mod x y m < m.
Proof. apply Z.mod_pos_bound. lia. Qed.

Lemma halve b : 0 <= b -> b = 2 * Z.shiftr b 1 + (if Z.testbit b 0 then 1 else 0).
Proof.
  intros Hb. rewrite Z.shiftr_div_pow2 by lia. rewrite Z.bit0_odd. pose proof (Zmod_odd b) as Ho.
  change (2 ^ 1) with 2. destruct (Z.odd b); zdiv_lia.
Qed.

Lemma halve_bound b n : 0 <= b < 2 ^ Z.of_nat (S n) -> 0 <= Z.shiftr b 1 < 2 ^ Z.of_nat n.
Proof.
  rewrite Nat2Z.inj_succ, Z.pow_succ_r, Z.shiftr_div_pow2 by lia. change (2 ^ 1) with 2. zdiv_lia.
Qed.

Lemma mul_mod_loop_spec fuel : forall a b r,
  0 <= a < m -> 0 <= r < m -> 0 <= b < 2 ^ Z.of_nat fuel ->
  mul_mod_loop fuel a b m r = Done ((r + a * b) mod m).
Proof.
  induction fuel as [|fuel IH]; intros a b r Ha Hr Hb.
  - replace b with 0 by (cbn in Hb; lia). cbn. rewrite Z.mul_0_r, Z.add_0_r, Z.mod_small by lia. reflexivity.
  - cbn [mul_mod_loop]. destruct (Z.eqb_spec b 0) as [->|Hb0].
    { rewrite Z.mul_0_r, Z.add_0_r, Z.mod_small by lia. reflexivity. }
    rewrite (proj2 (Z.eqb_neq _ _)) by lia. cbv zeta.
    pose proof (halve b ltac:(lia)) as E. pose proof (halve_bound b fuel Hb) as Hb'.
    revert E Hb'. generalize (Z.shiftr b 1), (Z.testbit b 0). intros b' odd E Hb'.
    rewrite IH; [|destruct (b' =? 0); [lia|apply add_mod_bound]|destruct odd; [apply add_mod_bound|lia]|exact Hb'].
    f_equal. destruct (Z.eqb_spec b' 0) as [->|_].
    + destruct odd; [|lia]. replace b with 1 by lia. rewrite add_mod_spec by lia. rewrite Z.mul_0_r, Z.add_0_r, Z.mod_mod by lia.
      f_equal. lia.
    + assert (G : forall s, (s + add_mod a a m * b') mod m = (s + (a + a) * b') mod m).
      { intros s. rewrite add_mod_spec, Z.add_mod, Z.mul_mod_idemp_l, <- Z.add_mod by lia. reflexivity. }
      rewrite G, E. destruct odd; [rewrite add_mod_spec by lia; rewrite Z.add_mod_idemp_l by lia|]; f_equal; ring.
Qed.

Lemma mul_mod_spec a b : 0 <= a < m -> word b -> mul_mod a b m = Done (a * b mod m).
Proof. intros Ha Hb. unfold mul_mod. rewrite mul_mod_loop_spec by (try exact Hb; lia). reflexivity. Qed.

Lemma pow_mod_loop_spec fuel : forall a b r,
  0 <= a < m -> 0 <= r < m -> 0 <= b < 2 ^ Z.of_nat fuel ->
  pow_mod_loop fuel a b m r = Done (r * a ^ b mod m).
Proof.
  induction fuel as [|fuel IH]; intros a b r Ha Hr Hb.
  - replace b with 0 by (cbn in Hb; lia). cbn. rewrite Z.mul_1_r, Z.mod_small by lia. reflexivity.
  - cbn [pow_mod_loop]. destruct (Z.eqb_spec b 0) as [->|Hb0].
    { rewrite Z.mul_1_r, Z.mod_small by lia. reflexivity. }
    pose proof (halve b ltac:(lia)) as E. pose proof (halve_bound b fuel Hb) as Hb'.
    revert E Hb'. generalize (Z.shiftr b 1), (Z.testbit b 0). intros b' odd E Hb'. cbv zeta.
    assert (Er : (if odd then mul_mod r a m else Done r) = Done (r * a ^ (if odd then 1 else 0) mod m)).
    { destruct odd; [rewrite mul_mod_spec by (unfold word; lia); rewrite Z.pow_1_r; reflexivity|].
      rewrite Z.mul_1_r, Z.mod_small by lia. reflexivity. }
    rewrite Er, bind_done.
    assert (Ea : (if b' =? 0 then Done a else mul_mod a a m) = Done (if b' =? 0 then a else a * a mod m)).
    { destruct (b' =? 0); [reflexivity|]. rewrite mul_mod_spec by (unfold word; lia). reflexivity. }
    rewrite Ea, bind_done, IH; [|case_match; [lia|apply Z.mod_pos_bound; lia]|apply Z.mod_pos_bound; lia|exact Hb'].
    f_equal. rewrite E, Z.pow_add_r, Z.pow_mul_r, Z.pow_2_r by (destruct odd; lia).
    rewrite Z.mul_mod_idemp_l by lia. destruct (Z.eqb_spec b' 0) as [->|_].
    + rewrite !Z.pow_0_r. f_equal. ring.
    + rewrite <- Z.mul_mod_idemp_r, <- Zpow_facts.Zpower_mod, Z.mul_mod_idemp_r by lia. f_equal. ring.
Qed.

End Modular.

(** ** The properties *)

(** Both hashes are defined on every buffer of bytes, the empty one
    included: no branch reads outside the buffer, the loops end, and the
    result fits its type.  The multiplication without 128-bit integers gives
    the same two words. *)
Theorem wyhash_total buf seed secret A B :
  Forall byte_range buf -> word seed -> Forall word secret -> length secret = 4%nat -> word A -> word B ->
  (exists h, wyhash buf (Z.of_nat (length buf)) seed secret = Done h /\ word h)
  /\ (exists h, wyhash32 buf (Z.of_nat (length buf)) (u32 seed) = Done h /\ 0 <= h < 2 ^ 32)
  /\ _wymum_portable A B = _wymum A B.
Proof.
  intros Hbuf Hs Hw Hl HA HB. split_and!; auto using wyhash_word, wyhash32_done, wymum_portable_eq.
Qed.

(** [mul_mod] and [pow_mod] compute the product and the power modulo [m],
    although the intermediate sums overflow, for every modulus of 64 bits. *)
Theorem wyhash_pow_mod m a b :
  1 < m < 2 ^ 64 -> 0 <= a < m -> word b ->
  mul_mod a b m = Done (a * b mod m) /\ pow_mod a b m = Done (a ^ b mod m).
Proof.
  intros Hm Ha Hb. split; [apply mul_mod_spec; assumption|]. unfold pow_mod.
  rewrite pow_mod_loop_spec by (try exact Hb; lia). rewrite Z.mul_1_l. reflexivity.
Qed.

(** *** The properties at work *)

Lemma wyhash_total_witness :
  (exists h, wyhash [97; 98; 99] 3 2 _wyp = Done h /\ word h) /\ wyhash [97; 98; 99] 3 2 _wyp = Done 0xa97f2f7b1d9b3314.
Proof.
  split; [|vm_compute; reflexivity].
  apply (wyhash_total [97; 98; 99] 2 _wyp 0 0);
    first [reflexivity | unfold word; lia | repeat constructor; unfold byte_range; lia].
Defined.

Lemma wyhash_pow_mod_witness : mul_mod 100 100 101 = Done 1 /\ pow_mod 3 100 101 = Done 1.
Proof.
  destruct (wyhash_pow_mod 101 3 100) as [_ G]; [lia|lia|unfold word; lia|].
  destruct (wyhash_pow_mod 101 100 100) as [G' _]; [lia|lia|unfold word; lia|].
  rewrite G, G'. split; reflexivity.
Defined.
