(* ===== verification/WyhashNumbers.v ===== *)
(** * The random numbers of wyhash ([core/native/hashing/wyhash.h])

    Numbers of a range and doubles made of random words, and the variants of the
    multiplication that mixes them. *)
From S2P Require Import Prelude Doubles Wyhash.

(** ** Doubles *)

(** [(r >> 12) * (1.0 / (1ull << 52))] *)
Definition wy2u01 (r : Z) : option Z := double_mul (double_of_Z (Z.shiftr r 12)) (double_pow2 (-52)).

Definition gaussian_sum (r : Z) : Z :=
  u64 (u64 (Z.land r 0x1fffff + Z.land (Z.shiftr r 21) 0x1fffff) + Z.land (Z.shiftr r 42) 0x1fffff).
Definition wy2gau (r : Z) : option Z :=
  match double_mul (double_of_Z (gaussian_sum r)) (double_pow2 (-20)) with
  | Some product => double_sub product (double_of_Z 3)
  | None => None
  end.

(** ** The other multiplications *)

Definition _wyrot (x : Z) : Z := Z.lor (Z.shiftr x 32) (u64 (Z.shiftl x 32)).

(** [WYHASH_CONDOM > 1]: the inputs are mixed in. *)
Definition _wymum_condom (A B : Z) : Z * Z := let '(lo, hi) := _wymum A B in (Z.lxor A lo, Z.lxor B hi).

(** [WYHASH_32BIT_MUM], without and with them. *)
Definition _wymum_32 (A B : Z) : Z * Z :=
  let hh := u64 (Z.shiftr A 32 * Z.shiftr B 32) in
  let hl := u64 (Z.shiftr A 32 * u32 B) in
  let lh := u64 (u32 A * Z.shiftr B 32) in
  let ll := u64 (u32 A * u32 B) in
  (Z.lxor (_wyrot hl) hh, Z.lxor (_wyrot lh) ll).
Definition _wymum_32_condom (A B : Z) : Z * Z := let '(a, b) := _wymum_32 A B in (Z.lxor A a, Z.lxor B b).

(** [WYTRNG]: mixed with the time of day, in seconds and microseconds. *)
Definition wytrand (tv_sec tv_usec seed : Z) : Z * Z :=
  let teed := Z.lor (u64 (Z.shiftl (u64 tv_sec) 32)) (u64 tv_usec) in
  let teed := _wymix (Z.lxor teed (nth 0 _wyp 0)) (Z.lxor seed (nth 1 _wyp 0)) in
  let seed := _wymix (Z.lxor teed (nth 0 _wyp 0)) (nth 2 _wyp 0) in
  (_wymix seed (Z.lxor seed (nth 3 _wyp 0)), seed).

(** ** Properties *)

Lemma three_scaled : is_scaled (double_of_Z 3) (3 * 2 ^ 20) (-20).
Proof. apply (is_scaled_shift _ 3 0 20); [by apply of_Z_scaled|lia..]. Qed.

Lemma low_bits x : 0 <= Z.land x 0x1fffff < 2 ^ 21.
Proof. change 0x1fffff with (Z.ones 21). rewrite Z.land_ones by lia. apply Z.mod_pos_bound. lia. Qed.

Lemma gaussian_sum_bound r : 0 <= gaussian_sum r <= 3 * (2 ^ 21 - 1).
Proof.
  unfold gaussian_sum. pose proof (low_bits r). pose proof (low_bits (Z.shiftr r 21)). pose proof (low_bits (Z.shiftr r 42)).
  rewrite !wrap_small by (try rewrite wrap_small; pow2_norm; lia). lia.
Qed.

Lemma gaussian_exact r : exists d, wy2gau r = Some d /\ is_scaled d (gaussian_sum r - 3 * 2 ^ 20) (-20).
Proof.
  unfold wy2gau. pose proof (gaussian_sum_bound r) as B. set (s := gaussian_sum r) in *.
  destruct (mul_pow2_scaled (double_of_Z s) s 0 (-20)) as (p & -> & Hp); [apply of_Z_scaled; pow2_norm; lia|pow2_norm; lia|lia..|].
  change (0 + -20) with (-20) in Hp. destruct (Z.eq_dec s 0) as [->|N].
  - cbn in Hp. subst p. replace (0 - 3 * 2 ^ 20) with (- (3 * 2 ^ 20)) by lia. apply zero_sub_scaled; [apply three_scaled|lia..].
  - apply sub_scaled; first [done|apply three_scaled|pow2_norm; lia].
Qed.

(** The doubles are exact: [wy2u01] is the upper 52 bits of the word over
    [2 ^ 52], a number from 0 to below 1; [wy2gau] the sum of three of its fields of
    21 bits over [2 ^ 20], less 3, a number from -3 to below 3.  [wy2u0k] is the
    integer part of the word over [2 ^ 64] times its bound, and below the bound. *)
Theorem wyhash_numbers_range r k (Hr : 0 <= r < 2 ^ 64) (Hk : 0 < k < 2 ^ 64) :
  (exists d, wy2u01 r = Some d /\ is_scaled d (r / 2 ^ 12) (-52) /\ 0 <= r / 2 ^ 12 < 2 ^ 52) /\
  (exists d, wy2gau r = Some d /\ is_scaled d (gaussian_sum r - 3 * 2 ^ 20) (-20) /\
     - (3 * 2 ^ 20) <= gaussian_sum r - 3 * 2 ^ 20 <= 3 * 2 ^ 20 - 3) /\
  wy2u0k r k = r * k / 2 ^ 64 /\ 0 <= wy2u0k r k < k.
Proof.
  split_and!.
  - unfold wy2u01. rewrite Z.shiftr_div_pow2 by lia. assert (B : 0 <= r / 2 ^ 12 < 2 ^ 52) by (pow2_norm; zdiv_lia).
    destruct (mul_pow2_scaled (double_of_Z (r / 2 ^ 12)) (r / 2 ^ 12) 0 (-52)) as (d & E & Hd);
      [apply of_Z_scaled; pow2_norm; lia|pow2_norm; lia|lia..|]. exists d. split_and!; [exact E|exact Hd|lia..].
  - destruct (gaussian_exact r) as (d & E & Hd). pose proof (gaussian_sum_bound r). exists d. split_and!; [done|done|lia|pow2_norm; lia].
  - unfold wy2u0k. by rewrite wymum_value by (unfold word; lia).
  - unfold wy2u0k. rewrite wymum_value by (unfold word; lia). cbn [snd]. apply Z.div_pos; nia.
  - unfold wy2u0k. rewrite wymum_value by (unfold word; lia). cbn [snd]. apply Z.div_lt_upper_bound; nia.
Qed.

Lemma wyhash_numbers_range_witness : exists d, wy2u01 (2 ^ 63) = Some d /\ is_scaled d (2 ^ 51) (-52).
Proof.
  destruct (wyhash_numbers_range (2 ^ 63) 5 ltac:(lia) ltac:(lia)) as [(d & E & S & _) _]. exists d. split; [exact E|exact S].
Defined.
