(* ===== verification/WyhashSecret.v ===== *)
(** * The primality test and the secrets of wyhash ([core/native/hashing/wyhash.h])

    [is_prime] is the test of Miller and Rabin with fixed bases: it always ends and
    never refuses a prime.  [make_secret] draws words until one of them passes its
    conditions; how many draws that takes depends on the seed, and the fuel bounds
    them for each of the four words. *)
From Stdlib Require Znumtheory ZmodInv Zpow_facts.
From S2P Require Import Prelude Numbers Wyhash.

(** ** Making a secret *)

(** [__builtin_popcountll], and the same by hand. *)
Definition popcount (x : Z) : Z := count (Z.testbit x) 64.

Definition popcount_portable (x : Z) : Z :=
  let x := u64 (x - Z.land (Z.shiftr x 1) 0x5555555555555555) in
  let x := u64 (Z.land x 0x3333333333333333 + Z.land (Z.shiftr x 2) 0x3333333333333333) in
  let x := Z.land (u64 (x + Z.shiftr x 4)) 0x0f0f0f0f0f0f0f0f in
  Z.shiftr (u64 (x * 0x0101010101010101)) 56.

(** The bytes with four bits set. *)
Definition secret_alphabet : list Z :=
  [15; 23; 27; 29; 30; 39; 43; 45; 46; 51; 53; 54; 57; 58; 60; 71; 75; 77; 78; 83; 85; 86; 89; 90; 92; 99; 101; 102;
   105; 106; 108; 113; 114; 116; 120; 135; 139; 141; 142; 147; 149; 150; 153; 154; 156; 163; 165; 166; 169; 170; 172;
   177; 178; 180; 184; 195; 197; 198; 201; 202; 204; 209; 210; 212; 216; 225; 226; 228; 232; 240].

(** [for (size_t j = 0; j < 64; j += 8) secret[i] |= c[wyrand(&seed) % sizeof(c)] << j;] *)
Fixpoint draw_bytes (n : nat) (j value seed : Z) : outcome (Z * Z) :=
  match n with
  | O => Done (value, seed)
  | S n =>
      let '(r, seed) := wyrand seed in
      c ← demand (secret_alphabet !! Z.to_nat (r mod Z.of_nat (length secret_alphabet)));
      draw_bytes n (j + 8) (Z.lor value (u64 (Z.shiftl c j))) seed
  end.
Definition draw_secret (seed : Z) : outcome (Z * Z) := draw_bytes 8 0 0 seed.

(** The conditions of the loop, after the words before it: odd, at the distance of 32
    bits from each of them, and prime. *)
Definition secret_ok (earlier : list Z) (value : Z) : outcome bool :=
  if value mod 2 =? 0 then Done false
  else if existsb (fun s => negb (popcount (Z.lxor s value) =? 32)) earlier then Done false
  else is_prime value.

Fixpoint pick_secret (fuel : nat) (earlier : list Z) (seed : Z) : outcome (Z * Z) :=
  match fuel with
  | O => Spins
  | S fuel =>
      '(value, seed) ← draw_secret seed;
      ok ← secret_ok earlier value;
      if (ok : bool) then Done (value, seed) else pick_secret fuel earlier seed
  end.

Fixpoint pick_secrets (n fuel : nat) (earlier : list Z) (seed : Z) : outcome (list Z) :=
  match n with
  | O => Done earlier
  | S n => '(value, seed) ← pick_secret fuel earlier seed; pick_secrets n fuel (earlier ++ [value]) seed
  end.
Definition make_secret (fuel : nat) (seed : Z) : outcome (list Z) := pick_secrets 4 fuel [] seed.

(** ** The test ends and accepts the primes *)

(** [n - 1] without its factors of two. *)
Definition splits (n : Z) (ds : Z * Z) : Prop := n = fst ds * 2 ^ snd ds /\ 0 < fst ds /\ 0 <= snd ds < 64.

Lemma splits_exponent n d s : n < 2 ^ 64 -> n = d * 2 ^ s -> 0 < d -> 0 <= s -> s < 64.
Proof.
  intros Hn -> Hd Hs. destruct (Z.lt_ge_cases s 64); [done|].
  assert (2 ^ 64 <= 2 ^ s) by (apply Z.pow_le_mono_r; lia). nia.
Qed.

Lemma splits_shift n d s w : n < 2 ^ 64 -> 0 < w < 64 -> splits n (d, s) -> Z.land d (Z.ones w) = 0 ->
  splits n (Z.shiftr d w, u8 (s + w)).
Proof.
  intros Hn Hw (E & Hd & Hs) L. cbn [fst snd] in *. rewrite Z.land_ones in L by lia.
  rewrite Z.shiftr_div_pow2 by lia. assert (0 < 2 ^ w) by (apply Z.pow_pos_nonneg; lia).
  assert (Ed : d = d / 2 ^ w * 2 ^ w) by (rewrite (Z.div_mod d (2 ^ w)) at 1; lia).
  assert (P : 0 < d / 2 ^ w) by nia.
  assert (E' : n = d / 2 ^ w * 2 ^ (s + w)) by (rewrite Z.pow_add_r by lia; nia).
  pose proof (splits_exponent n _ _ Hn E' P ltac:(lia)).
  rewrite wrap_small by (pow2_norm; lia). repeat split; cbn [fst snd]; (done || lia).
Qed.

Lemma shift_bytes_splits n fuel : forall d s, n < 2 ^ 64 -> splits n (d, s) -> d < 2 ^ (8 * Z.of_nat fuel) ->
  exists ds, shift_bytes fuel d s = Done ds /\ splits n ds.
Proof.
  induction fuel as [|fuel IH]; intros d s Hn Hs Hd.
  { destruct Hs as (_ & ? & _). cbn in *. lia. }
  cbn [shift_bytes]. destruct (Z.eqb_spec (Z.land d 0xff) 0) as [L|]; [|eauto].
  change 0xff with (Z.ones 8) in L. apply IH; [done|by apply splits_shift|].
  rewrite Z.shiftr_div_pow2 by lia. apply Z.div_lt_upper_bound; [lia|]. rewrite <- Z.pow_add_r by lia.
  eapply Z.lt_le_trans; [exact Hd|]. apply Z.pow_le_mono_r; lia.
Qed.

Lemma shift_if_splits n w ds : n < 2 ^ 64 -> 0 < w < 64 -> splits n ds -> splits n (shift_if (Z.ones w) w ds).
Proof.
  intros Hn Hw Hs. unfold shift_if. destruct ds as [d s]. cbn [fst snd].
  destruct (Z.eqb_spec (Z.land d (Z.ones w)) 0); [by apply splits_shift|done].
Qed.

Section Test.
Context (n : Z) (Hn : 2 < n < 2 ^ 64).

Lemma modular_bound x : 0 <= x mod n < n.
Proof. apply Z.mod_pos_bound. lia. Qed.

(** One base: what [sprp] computes. *)
Lemma sprp_runs a : 0 <= a < n -> exists d s, n - 1 = d * 2 ^ s /\ 0 < d /\ 0 <= s < 64 /\
  sprp n a = if (a ^ d mod n =? 1) || (a ^ d mod n =? n - 1) then Done true else sprp_loop 64 n s 1 (a ^ d mod n).
Proof.
  intros Ha. unfold sprp. rewrite (wrap_small 64 (n - 1)) by lia.
  destruct (shift_bytes_splits (n - 1) 8 (n - 1) 0) as (ds & -> & S0); [lia| |change (8 * Z.of_nat 8) with 64; lia|].
  { repeat split; cbn [fst snd]; lia. }
  rewrite bind_done. pose proof (shift_if_splits (n - 1) 4 _ ltac:(lia) ltac:(lia) S0) as S1.
  pose proof (shift_if_splits (n - 1) 2 _ ltac:(lia) ltac:(lia) S1) as S2. pose proof (shift_if_splits (n - 1) 1 _ ltac:(lia) ltac:(lia) S2) as S3.
  change (Z.ones 4) with 0xf in S3. change (Z.ones 2) with 0x3 in S3. change (Z.ones 1) with 0x1 in S3.
  destruct (shift_if 0x1 1 _) as [d s]. destruct S3 as (E & Hd & Hs). cbn [fst snd] in *.
  exists d, s. split_and!; try done; try lia.
  assert (Hw : d < 2 ^ 64) by (assert (0 < 2 ^ s) by (apply Z.pow_pos_nonneg; lia); nia).
  unfold pow_mod. rewrite pow_mod_loop_spec by (try (change (Z.of_nat 64) with 64); lia). by rewrite bind_done, Z.mul_1_l.
Qed.

Lemma mul_mod_square b : 0 <= b < n -> mul_mod b b n = Done (b * b mod n).
Proof. intros Hb. apply mul_mod_spec; unfold word; lia. Qed.

Lemma sprp_loop_ends fuel : forall s r b, 0 <= b < n -> Z.max 0 (s - r) < Z.of_nat fuel ->
  exists ok, sprp_loop fuel n s r b = Done ok.
Proof.
  induction fuel as [|fuel IH]; intros s r b Hb Hf; [lia|]. cbn [sprp_loop].
  destruct (Z.ltb_spec r s); [|eauto]. rewrite mul_mod_square, bind_done by done.
  repeat (case_match; [eauto|]). apply IH; [apply modular_bound|lia].
Qed.

Lemma sprp_ends a : 0 <= a < n -> exists ok, sprp n a = Done ok.
Proof.
  intros Ha. destruct (sprp_runs a Ha) as (d & s & _ & _ & Hs & ->). case_match; [eauto|].
  apply sprp_loop_ends; [apply modular_bound|lia].
Qed.

Lemma all_sprp_ends bases : Forall (fun a => 0 <= a < n) bases -> exists ok, all_sprp n bases = Done ok.
Proof.
  induction 1 as [|a bases Ha _ [ok IH]]; cbn [all_sprp]; [eauto|].
  destruct (sprp_ends a Ha) as [[|] ->]; rewrite bind_done; eauto.
Qed.

(** *** Primes *)

Section Prime.
Context (Hp : Znumtheory.prime n).

(** One has no other roots than itself and [n - 1]. *)
Lemma unit_roots b : 0 <= b < n -> b * b mod n = 1 -> b = 1 \/ b = n - 1.
Proof.
  intros Hb E. assert (D : (n | (b - 1) * (b + 1))).
  { replace ((b - 1) * (b + 1)) with (b * b - 1) by ring. apply Z.mod_divide; [lia|].
    rewrite Zminus_mod, E, (Z.mod_small 1) by lia. done. }
  apply Znumtheory.prime_mult in D as [D|D]; [| |done].
  - left. destruct (Z.eq_dec (b - 1) 0); [lia|]. destruct (Z.eq_dec b 0) as [->|]; [cbn in E; by rewrite Z.mod_0_l in E by lia|].
    apply Z.divide_pos_le in D; lia.
  - right. apply Z.divide_pos_le in D; lia.
Qed.

Lemma square_nonzero b : 0 < b < n -> b * b mod n <> 0.
Proof.
  intros Hb E%Z.mod_divide; [|lia]. apply Znumtheory.prime_mult in E as [E|E]; [..|done]; apply Z.divide_pos_le in E; lia.
Qed.

Lemma sprp_loop_prime fuel : forall s r b, 1 < b < n - 1 -> r <= s -> s - r < Z.of_nat fuel ->
  b ^ 2 ^ (s - r + 1) mod n = 1 -> sprp_loop fuel n s r b = Done true.
Proof.
  induction fuel as [|fuel IH]; intros s r b Hb Hr Hf E; [lia|]. cbn [sprp_loop].
  assert (Step : b ^ 2 ^ (s - r + 1) = (b * b) ^ 2 ^ (s - r)).
  { rewrite Z.pow_add_r, (Z.mul_comm (2 ^ (s - r))), Z.pow_mul_r by lia. by rewrite Z.pow_2_r. }
  destruct (Z.ltb_spec r s).
  - rewrite mul_mod_square, bind_done by lia. pose proof (modular_bound (b * b)). pose proof (square_nonzero b ltac:(lia)) as N0.
    destruct (Z.leb_spec (b * b mod n) 1).
    + destruct (unit_roots b ltac:(lia)); lia.
    + destruct (Z.eqb_spec (b * b mod n) (n - 1)); [done|]. apply IH; [lia..|].
      replace (s - (r + 1) + 1) with (s - r) by lia. rewrite <- Zpow_facts.Zpower_mod by lia. by rewrite <- Step.
  - rewrite Step in E. replace (s - r) with 0 in E by lia. change (2 ^ 0) with 1 in E. rewrite Z.pow_1_r in E.
    destruct (unit_roots b ltac:(lia) E); lia.
Qed.

Lemma sprp_prime a : 0 < a < n -> sprp n a = Done true.
Proof.
  intros Ha. destruct (sprp_runs a ltac:(lia)) as (d & s & E & Hd & Hs & ->).
  assert (Fermat : a ^ (n - 1) mod n = 1).
  { apply ZmodInv.Z.fermat_nz; [by apply Znumtheory.prime_alt|]. rewrite Z.mod_small; lia. }
  set (b := a ^ d mod n). assert (Hb : 0 <= b < n) by apply modular_bound.
  assert (Eb : b ^ 2 ^ s mod n = 1).
  { unfold b. rewrite <- Zpow_facts.Zpower_mod, <- Z.pow_mul_r by (try lia; apply Z.pow_nonneg; lia). by rewrite <- E. }
  destruct (Z.eqb_spec b 1) as [|N1]; [done|]. destruct (Z.eqb_spec b (n - 1)) as [|N2]; [done|]. cbn [orb].
  assert (Hs1 : 1 <= s).
  { destruct (Z.eq_dec s 0) as [->|]; [|lia]. change (2 ^ 0) with 1 in Eb. rewrite Z.pow_1_r, Z.mod_small in Eb by done. lia. }
  assert (b <> 0) by (intros ->; rewrite Z.pow_0_l in Eb by (apply Z.pow_pos_nonneg; lia); by rewrite Z.mod_0_l in Eb by lia).
  apply sprp_loop_prime; [lia..|]. by replace (s - 1 + 1) with s by lia.
Qed.

Lemma all_sprp_prime bases : Forall (fun a => 0 < a < n) bases -> all_sprp n bases = Done true.
Proof. induction 1 as [|a bases Ha _ IH]; cbn [all_sprp]; [done|]. by rewrite sprp_prime, bind_done by done. Qed.
End Prime.
End Test.

(** The bases are below the number when they are used. *)
Lemma is_prime_cases n : word n -> exists ok, is_prime n = Done ok /\ (Znumtheory.prime n -> n <> 2 -> ok = true).
Proof.
  intros Hn. unfold word in Hn. unfold is_prime.
  destruct (Z.ltb_spec n 2); cbn [orb].
  { eexists. split; [done|]. intros P%Znumtheory.prime_ge_2. lia. }
  destruct (Z.eqb_spec (Z.land n 1) 0) as [E|E].
  - eexists. split; [done|]. intros P N2. exfalso.
    assert (D : (2 | n)). { apply Z.mod_divide; [done|]. change 1 with (Z.ones 1) in E. by rewrite Z.land_ones in E. }
    apply (Znumtheory.prime_divisors n P) in D. lia.
  - destruct (Z.ltb_spec n 4); [eauto|].
    destruct (sprp_ends n ltac:(lia) 2 ltac:(lia)) as [ok E2]. rewrite E2, bind_done.
    destruct ok; cbn [negb].
    2: { eexists. split; [done|]. intros P _. rewrite sprp_prime in E2 by (done || lia). congruence. }
    destruct (Z.ltb_spec n 2047); [eauto|].
    destruct (all_sprp_ends n ltac:(lia) [3; 5; 7; 11; 13; 17; 19; 23; 29; 31; 37]) as [ok Ea]; [repeat constructor; lia|].
    exists ok. split; [done|]. intros P _. rewrite all_sprp_prime in Ea by (first [done|lia|repeat constructor; lia]). congruence.
Qed.

(** ** Counting bits by hand *)

(** Bits of a number that is built of bytes. *)
Lemma testbit_bytes b y i : byte_range b -> 0 <= i -> Z.testbit (b + 256 * y) i = if i <? 8 then Z.testbit b i else Z.testbit y (i - 8).
Proof.
  intros Hb Hi. unfold byte_range in Hb. replace (b + 256 * y) with (Z.lor (Z.shiftl y 8) b).
  - rewrite Z.lor_spec. destruct (Z.ltb_spec i 8).
    + by rewrite Z.shiftl_spec_low by lia.
    + rewrite Z.shiftl_spec, (testbit_above 8 b) by lia. apply orb_false_r.
  - rewrite lor_shiftl_add by lia. lia.
Qed.

Lemma land_bytes a b c m : byte_range a -> byte_range c -> Z.land (a + 256 * b) (c + 256 * m) = Z.land a c + 256 * Z.land b m.
Proof.
  intros Ha Hc. apply Z.bits_inj'. intros i Hi.
  assert (B : byte_range (Z.land a c)) by (unfold byte_range in *; apply (land_bound 8); lia).
  rewrite Z.land_spec, (testbit_bytes a), (testbit_bytes c), (testbit_bytes (Z.land a c)) by done.
  destruct (i <? 8); by rewrite Z.land_spec.
Qed.

(** The masks. *)
Definition repeated (n : nat) (c : Z) : Z := le_combine (replicate n c).

(** A mask that keeps what a shift leaves in the byte. *)
Lemma shift_mask k c bs : 0 <= k < 8 -> 0 <= c < 2 ^ (8 - k) -> Forall byte_range bs ->
  Z.land (Z.shiftr (le_combine bs) k) (repeated (length bs) c) = le_combine (map (fun b => Z.land (Z.shiftr b k) c) bs).
Proof.
  intros Hk Hc. assert (P : 0 < 2 ^ k) by (apply Z.pow_pos_nonneg; lia).
  assert (E : 256 = 2 ^ k * 2 ^ (8 - k)) by (rewrite <- Z.pow_add_r by lia; by replace (k + (8 - k)) with 8 by lia).
  induction 1 as [|b bs Hb _ IH]; unfold repeated in *; cbn [le_combine length replicate map]; [by rewrite Z.land_0_r|]. rewrite <- IH.
  set (y := le_combine bs) in *. set (m := le_combine (replicate (length bs) c)) in *.
  assert (Hs : Z.shiftr (b + 256 * y) k = Z.shiftr b k + 2 ^ (8 - k) * (y mod 2 ^ k) + 256 * Z.shiftr y k).
  { rewrite !Z.shiftr_div_pow2 by lia. rewrite E at 1.
    replace (b + 2 ^ k * 2 ^ (8 - k) * y) with (b + 2 ^ (8 - k) * y * 2 ^ k) by ring. rewrite Z.div_add by lia.
    rewrite (Z.div_mod y (2 ^ k)) at 1 by lia. rewrite E. ring. }
  pose proof (Z.mod_pos_bound y (2 ^ k) P) as By. unfold byte_range in Hb.
  assert (Bb : 0 <= Z.shiftr b k < 2 ^ (8 - k)).
  { rewrite Z.shiftr_div_pow2 by lia. split; [apply Z.div_pos; lia|apply Z.div_lt_upper_bound; lia]. }
  assert (0 < 2 ^ (8 - k)) by lia.
  rewrite Hs, land_bytes; [|unfold byte_range; nia|unfold byte_range; nia]. f_equal.
  apply Z.bits_inj'. intros i Hi. rewrite !Z.land_spec. destruct (Z.lt_ge_cases i (8 - k)) as [Hl|Hl].
  - f_equal. rewrite <- (Z.mod_pow2_bits_low _ (8 - k) i) by lia. rewrite (Z.mul_comm (2 ^ (8 - k))), Z_mod_plus_full.
    by rewrite Z.mod_pow2_bits_low by lia.
  - by rewrite (testbit_above (8 - k) c), !andb_false_r by lia.
Qed.

Lemma combine_add (f g : Z -> Z) bs : le_combine (map f bs) + le_combine (map g bs) = le_combine (map (fun b => f b + g b) bs).
Proof. induction bs as [|b bs IH]; cbn [le_combine map]; lia. Qed.

Lemma combine_sub (g : Z -> Z) bs : le_combine bs - le_combine (map g bs) = le_combine (map (fun b => b - g b) bs).
Proof. induction bs as [|b bs IH]; cbn [le_combine map]; lia. Qed.

(** The steps on one byte. *)
Definition pairs (b : Z) : Z := b - Z.land (Z.shiftr b 1) 0x55.
Definition nibbles (b : Z) : Z := Z.land b 0x33 + Z.land (Z.shiftr b 2) 0x33.
Definition byte_sum (b : Z) : Z := Z.land (b + Z.shiftr b 4) 0x0f.

Lemma bytes_computed (f : Z -> bool) : forallb f (seqZ 0 256) = true -> forall b, byte_range b -> f b = true.
Proof.
  intros F b Hb. rewrite forallb_forall in F. apply F. rewrite <- list_elem_of_In. apply elem_of_seqZ. unfold byte_range in Hb. lia.
Qed.

Lemma pairs_range b : byte_range b -> byte_range (pairs b).
Proof.
  intros Hb. pose proof (bytes_computed (fun b => (0 <=? pairs b) && (pairs b <? 256)) ltac:(vm_compute; reflexivity) b Hb) as F.
  unfold byte_range. cbn beta in F. lia.
Qed.

(** After the second step a byte holds two counts of at most four. *)
Definition two_counts (b : Z) : Prop := byte_range b /\ b mod 16 <= 4 /\ b <= 0x44.

Lemma nibbles_counts b : byte_range b -> two_counts (nibbles (pairs b)).
Proof.
  intros Hb. pose proof (bytes_computed (fun b => let n := nibbles (pairs b) in (0 <=? n) && (n <? 256) && (n mod 16 <=? 4) && (n <=? 0x44))
    ltac:(vm_compute; reflexivity) b Hb) as F.
  unfold two_counts, byte_range. cbn beta zeta in F. lia.
Qed.

Lemma bytes_counted b : byte_range b -> byte_sum (nibbles (pairs b)) = count (Z.testbit b) 8.
Proof.
  intros Hb. pose proof (bytes_computed (fun b => byte_sum (nibbles (pairs b)) =? count (Z.testbit b) 8)
    ltac:(vm_compute; reflexivity) b Hb) as F. cbn beta in F. lia.
Qed.

Lemma pairs_bytes bs : Forall byte_range bs ->
  le_combine bs - Z.land (Z.shiftr (le_combine bs) 1) (repeated (length bs) 0x55) = le_combine (map pairs bs).
Proof. intros Hb. rewrite shift_mask by (done || (pow2_norm; lia)). apply combine_sub. Qed.

Lemma nibbles_bytes bs : Forall byte_range bs ->
  Z.land (le_combine bs) (repeated (length bs) 0x33) + Z.land (Z.shiftr (le_combine bs) 2) (repeated (length bs) 0x33) =
  le_combine (map nibbles bs).
Proof.
  intros Hb. pose proof (shift_mask 0 0x33 bs ltac:(lia) ltac:(pow2_norm; lia) Hb) as E. rewrite Z.shiftr_0_r in E. rewrite E.
  rewrite shift_mask by (done || (pow2_norm; lia)). by rewrite combine_add.
Qed.

(** The counts of the nibbles do not reach the next byte. *)
Lemma byte_sums bs : Forall two_counts bs ->
  Z.land (le_combine bs + Z.shiftr (le_combine bs) 4) (repeated (length bs) 0x0f) = le_combine (map byte_sum bs).
Proof.
  induction 1 as [|b bs (Hb & Hb4 & Hb44) Hbs IH]; [done|]. unfold repeated in *. cbn [le_combine length replicate map]. rewrite <- IH.
  assert (Low : le_combine bs mod 16 <= 4).
  { destruct Hbs as [|b' bs' (_ & H4 & _) _]; cbn [le_combine]; [done|].
    replace (b' + 256 * le_combine bs') with (b' + 16 * le_combine bs' * 16) by ring. by rewrite Z_mod_plus_full. }
  set (y := le_combine bs) in *. set (m := le_combine (replicate (length bs) 0x0f)) in *. unfold byte_range in Hb.
  assert (Es : b + 256 * y + Z.shiftr (b + 256 * y) 4 = (b + Z.shiftr b 4 + 16 * (y mod 16)) + 256 * (y + Z.shiftr y 4)).
  { rewrite !Z.shiftr_div_pow2 by lia. change (2 ^ 4) with 16. zdiv_lia. }
  assert (Br : 0 <= Z.shiftr b 4 <= 4) by (rewrite Z.shiftr_div_pow2 by lia; change (2 ^ 4) with 16; zdiv_lia).
  pose proof (Z.mod_pos_bound y 16 ltac:(lia)).
  rewrite Es, land_bytes by (unfold byte_range; lia). f_equal. unfold byte_sum.
  change 0x0f with (Z.ones 4). rewrite !Z.land_ones by lia. change (2 ^ 4) with 16.
  replace (b + Z.shiftr b 4 + 16 * (y mod 16)) with (b + Z.shiftr b 4 + (y mod 16) * 16) by ring. apply Z_mod_plus_full.
Qed.

Lemma count_app f n m : count f (n + m) = count f n + count (fun i => f (Z.of_nat n + i)) m.
Proof.
  induction m as [|m IH]; [rewrite Nat.add_0_r; cbn; lia|]. rewrite Nat.add_succ_r. cbn [count]. rewrite IH, Nat2Z.inj_add. lia.
Qed.

Lemma popcount_bytes bs : Forall byte_range bs ->
  count (Z.testbit (le_combine bs)) (8 * length bs) = foldr Z.add 0 (map (fun b => count (Z.testbit b) 8) bs).
Proof.
  induction 1 as [|b bs Hb Hbs IH]; [done|]. cbn [length le_combine map foldr]. rewrite Nat.mul_succ_r, Nat.add_comm, count_app, <- IH.
  f_equal.
  - apply count_ext. intros i Hi. rewrite testbit_bytes by (done || lia). by rewrite (proj2 (Z.ltb_lt i 8)) by lia.
  - apply count_ext. intros i Hi. rewrite testbit_bytes by (done || lia). rewrite (proj2 (Z.ltb_ge _ 8)) by lia. f_equal. lia.
Qed.

(** The bytes of a product by [0x0101010101010101] are the partial sums. *)
Lemma sum_of_bytes cs : length cs = 8%nat -> Forall (fun c => 0 <= c <= 8) cs ->
  Z.shiftr (u64 (le_combine cs * 0x0101010101010101)) 56 = foldr Z.add 0 cs.
Proof.
  intros L F. destruct cs as [|c0 [|c1 [|c2 [|c3 [|c4 [|c5 [|c6 [|c7 [|]]]]]]]]]; try discriminate.
  repeat match goal with F : Forall _ (_ :: _) |- _ => inversion F; clear F; subst end. cbn [le_combine foldr].
  rewrite Z.shiftr_div_pow2 by lia. symmetry.
  set (low := c0 + 2 ^ 8 * (c0 + c1) + 2 ^ 16 * (c0 + c1 + c2) + 2 ^ 24 * (c0 + c1 + c2 + c3) + 2 ^ 32 * (c0 + c1 + c2 + c3 + c4)
    + 2 ^ 40 * (c0 + c1 + c2 + c3 + c4 + c5) + 2 ^ 48 * (c0 + c1 + c2 + c3 + c4 + c5 + c6)).
  set (top := c0 + c1 + c2 + c3 + c4 + c5 + c6 + c7).
  set (over := (c1 + c2 + c3 + c4 + c5 + c6 + c7) + 2 ^ 8 * (c2 + c3 + c4 + c5 + c6 + c7) + 2 ^ 16 * (c3 + c4 + c5 + c6 + c7)
    + 2 ^ 24 * (c4 + c5 + c6 + c7) + 2 ^ 32 * (c5 + c6 + c7) + 2 ^ 40 * (c6 + c7) + 2 ^ 48 * c7).
  apply (Z.div_unique_pos _ _ _ low); [unfold low; pow2_norm; lia|]. unfold wrap. symmetry.
  apply (Z.mod_unique_pos _ _ over); unfold low, top, over; pow2_norm; lia.
Qed.

Lemma land_wrap y m : 0 <= m < 2 ^ 64 -> Z.land (u64 y) m = Z.land y m.
Proof.
  intros Hm. apply Z.bits_inj'. intros i Hi. rewrite !Z.land_spec, testbit_wrap by lia.
  destruct (Z.ltb_spec i 64); [done|]. by rewrite (testbit_above 64 m), !andb_false_r by lia.
Qed.

Lemma combine_word bs : length bs = 8%nat -> Forall byte_range bs -> u64 (le_combine bs) = le_combine bs.
Proof. intros L F. apply wrap_small. pose proof (le_combine_bound bs F) as B. by rewrite L in B. Qed.

Lemma popcount_portable_bytes bs : length bs = 8%nat -> Forall byte_range bs -> popcount_portable (le_combine bs) = popcount (le_combine bs).
Proof.
  intros L Hb.
  assert (Hp : Forall byte_range (map pairs bs)) by (apply Forall_map; eapply Forall_impl; [exact Hb|]; apply pairs_range).
  assert (Hn : Forall two_counts (map nibbles (map pairs bs))).
  { rewrite !Forall_map. eapply Forall_impl; [exact Hb|]. apply nibbles_counts. }
  assert (Hnb : Forall byte_range (map nibbles (map pairs bs))) by (eapply Forall_impl; [exact Hn|]; by intros ? []).
  pose proof (pairs_bytes bs Hb) as E1. pose proof (nibbles_bytes _ Hp) as E2. pose proof (byte_sums _ Hn) as E3.
  rewrite !length_map in *. rewrite L in *.
  change (repeated 8 0x55) with 0x5555555555555555 in E1. change (repeated 8 0x33) with 0x3333333333333333 in E2.
  change (repeated 8 0x0f) with 0x0f0f0f0f0f0f0f0f in E3.
  unfold popcount_portable. cbv zeta. rewrite E1, combine_word by (done || by rewrite length_map).
  rewrite E2, combine_word by (done || by rewrite !length_map). rewrite land_wrap, E3 by lia.
  assert (M : map byte_sum (map nibbles (map pairs bs)) = map (fun b => count (Z.testbit b) 8) bs).
  { rewrite !map_map. apply map_ext_Forall. eapply Forall_impl; [exact Hb|]. intros b. apply bytes_counted. }
  rewrite M, sum_of_bytes; [|by rewrite length_map|].
  - unfold popcount. rewrite <- popcount_bytes by done. by rewrite L.
  - apply Forall_map, Forall_true. intros b. pose proof (count_bounds (Z.testbit b) 8). cbn in *. lia.
Qed.

Lemma popcount_portable_eq x : word x -> popcount_portable x = popcount x.
Proof.
  intros Hx. replace x with (le_combine (le_split 8 x)); [apply popcount_portable_bytes; [apply le_split_length|apply le_split_range]|].
  rewrite le_combine_split. apply Z.mod_small. exact Hx.
Qed.

(** ** The words that are drawn *)

Definition alphabet_byte (c : Z) : Prop := c ∈ secret_alphabet.

Lemma alphabet_facts c : alphabet_byte c -> byte_range c /\ count (Z.testbit c) 8 = 4.
Proof.
  intros Hc%list_elem_of_In.
  assert (F : forallb (fun c => (0 <=? c) && (c <? 256) && (count (Z.testbit c) 8 =? 4)) secret_alphabet = true) by (vm_compute; reflexivity).
  rewrite forallb_forall in F. specialize (F c Hc). unfold byte_range. lia.
Qed.

(** The stream of a seed: the state of the generator after [i] steps, the byte its
    next number chooses, and the [k]th word, of the bytes from the [8 * k]th on. *)
Definition secret_state (seed i : Z) : Z := u64 (seed + i * 0x2d358dccaa6c78a5).
Definition secret_byte (seed i : Z) : Z :=
  let s := secret_state seed (i + 1) in
  nth (Z.to_nat (_wymix s (Z.lxor s 0x8bb84b93962eacc9) mod 70)) secret_alphabet 0.
Definition secret_word (seed k : Z) : Z := le_combine (map (secret_byte seed) (seqZ (8 * k) 8)).

Lemma secret_byte_alphabet seed i : alphabet_byte (secret_byte seed i).
Proof.
  unfold alphabet_byte, secret_byte. apply list_elem_of_In, nth_In. change (length secret_alphabet) with 70%nat.
  match goal with |- context [?a mod 70] => pose proof (Z.mod_pos_bound a 70 ltac:(lia)) end. lia.
Qed.

Lemma wyrand_stream seed i : exists r, wyrand (secret_state seed i) = (r, secret_state seed (i + 1)) /\
  secret_alphabet !! Z.to_nat (r mod Z.of_nat (length secret_alphabet)) = Some (secret_byte seed i).
Proof.
  unfold wyrand. assert (E : u64 (secret_state seed i + 0x2d358dccaa6c78a5) = secret_state seed (i + 1)).
  { unfold secret_state. rewrite wrap_add_l by lia. f_equal. lia. }
  rewrite E. eexists. split; [reflexivity|]. unfold secret_byte. cbv zeta. change (Z.of_nat (length secret_alphabet)) with 70.
  match goal with |- context [?a mod 70] => pose proof (Z.mod_pos_bound a 70 ltac:(lia)) end.
  rewrite nth_lookup. match goal with |- context [secret_alphabet !! ?k] => destruct (lookup_lt_is_Some_2 secret_alphabet k) as [c ->] end; [|done].
  change (length secret_alphabet) with 70%nat. lia.
Qed.

Lemma draw_bytes_stream seed n : forall i j value, 0 <= j -> j + 8 * Z.of_nat n <= 64 -> 0 <= value < 2 ^ j ->
  draw_bytes n j value (secret_state seed i) =
    Done (value + 2 ^ j * le_combine (map (secret_byte seed) (seqZ i (Z.of_nat n))), secret_state seed (i + Z.of_nat n)).
Proof.
  induction n as [|n IH]; intros i j value Hj Hn Hv; cbn [draw_bytes].
  { change (map (secret_byte seed) (seqZ i (Z.of_nat 0))) with (@nil Z). cbn [le_combine]. do 2 f_equal; [lia|f_equal; lia]. }
  destruct (wyrand_stream seed i) as (r & -> & Ec). rewrite Ec. cbn [demand]. rewrite bind_done.
  destruct (alphabet_facts _ (secret_byte_alphabet seed i)) as [Bc _]. set (c := secret_byte seed i) in *. unfold byte_range in Bc.
  assert (P : 0 < 2 ^ j) by (apply Z.pow_pos_nonneg; lia).
  assert (P8 : 2 ^ (j + 8) = 256 * 2 ^ j) by (rewrite Z.pow_add_r by lia; lia).
  assert (P64 : 2 ^ (j + 8) <= 2 ^ 64) by (apply Z.pow_le_mono_r; lia).
  assert (Bv : 0 <= value + 2 ^ j * c < 2 ^ (j + 8)) by (rewrite P8; nia).
  assert (Es : Z.lor value (u64 (Z.shiftl c j)) = value + 2 ^ j * c).
  { rewrite (wrap_small 64) by (rewrite Z.shiftl_mul_pow2 by lia; lia). rewrite Z.lor_comm, lor_shiftl_add by lia. lia. }
  rewrite Es, IH by lia. rewrite (seqZ_cons i) by lia. cbn [map le_combine]. fold c.
  replace (Z.pred (Z.of_nat (S n))) with (Z.of_nat n) by lia. replace (Z.succ i) with (i + 1) by lia.
  f_equal. f_equal; [rewrite P8; ring|f_equal; lia].
Qed.

Lemma secret_bytes_length seed k : length (map (secret_byte seed) (seqZ (8 * k) 8)) = 8%nat.
Proof. by rewrite length_map, length_seqZ. Qed.
Lemma secret_bytes_alphabet seed k : Forall alphabet_byte (map (secret_byte seed) (seqZ (8 * k) 8)).
Proof. apply Forall_map, Forall_forall. intros i _. apply secret_byte_alphabet. Qed.

(** Drawing a word. *)
Lemma draw_secret_stream seed k :
  draw_secret (secret_state seed (8 * k)) = Done (secret_word seed k, secret_state seed (8 * (k + 1))).
Proof.
  unfold draw_secret. rewrite draw_bytes_stream by lia. unfold secret_word. change (Z.of_nat 8) with 8. f_equal. f_equal; [lia|f_equal; lia].
Qed.

Lemma secret_word_facts seed k : word (secret_word seed k) /\ popcount (secret_word seed k) = 32.
Proof.
  unfold secret_word. pose proof (secret_bytes_length seed k) as L. pose proof (secret_bytes_alphabet seed k) as F.
  set (cs := map _ _) in *.
  assert (B : Forall byte_range cs) by (eapply Forall_impl; [exact F|]; intros c Hc; apply alphabet_facts; exact Hc).
  split.
  - pose proof (le_combine_bound cs B) as W. by rewrite L in W.
  - unfold popcount. replace 64%nat with (8 * length cs)%nat by (by rewrite L). rewrite popcount_bytes by done.
    replace (map _ cs) with (replicate (length cs) 4); [by rewrite L|]. clear L B. clearbody cs. induction F as [|c cs Hc _ IH]; cbn; [done|].
    f_equal; [symmetry; by apply alphabet_facts|exact IH].
Qed.

(** A word that is accepted after others. *)
Definition good_secret (earlier : list Z) (v : Z) : Prop :=
  word v /\ Z.odd v = true /\ popcount v = 32 /\ is_prime v = Done true /\ Forall (fun s => popcount (Z.lxor s v) = 32) earlier.

Lemma distances earlier v : existsb (fun s => negb (popcount (Z.lxor s v) =? 32)) earlier = false <->
  Forall (fun s => popcount (Z.lxor s v) = 32) earlier.
Proof.
  induction earlier as [|s earlier IH]; cbn [existsb]; [by split|]. rewrite orb_false_iff, IH, Forall_cons, negb_false_iff, Z.eqb_eq. done.
Qed.

Lemma secret_ok_cases earlier v : word v -> popcount v = 32 -> exists ok, secret_ok earlier v = Done ok /\ (ok = true <-> good_secret earlier v).
Proof.
  intros Hw Hp. unfold secret_ok, good_secret. pose proof (Zmod_odd v) as O.
  destruct (Z.eqb_spec (v mod 2) 0) as [E|E].
  { eexists. split; [done|]. split; [done|]. intros (_ & Ho & _). rewrite Ho in O. lia. }
  destruct (existsb _ earlier) eqn:D.
  { eexists. split; [done|]. split; [done|]. intros (_ & _ & _ & _ & F%distances). congruence. }
  destruct (is_prime_cases v Hw) as (ok & Ep & _). exists ok. split; [done|]. rewrite Ep. apply distances in D.
  split; [intros ->|intros (_ & _ & _ & [= ->] & _)]; [|done]. split_and!; try done. destruct (Z.odd v); [done|lia].
Qed.

(** The first good word from the [from]th on is picked, if one is among those that
    are drawn. *)
Lemma pick_secret_first fuel earlier seed : forall from,
  (exists k, from <= k < from + Z.of_nat fuel /\
     pick_secret fuel earlier (secret_state seed (8 * from)) = Done (secret_word seed k, secret_state seed (8 * (k + 1))) /\
     good_secret earlier (secret_word seed k) /\ forall j, from <= j < k -> ~ good_secret earlier (secret_word seed j)) \/
  (pick_secret fuel earlier (secret_state seed (8 * from)) = Spins /\
     forall j, from <= j < from + Z.of_nat fuel -> ~ good_secret earlier (secret_word seed j)).
Proof.
  induction fuel as [|fuel IH]; intros from; cbn [pick_secret]; [right; split; [done|lia]|].
  rewrite draw_secret_stream, bind_done. destruct (secret_word_facts seed from) as [Hw Hp].
  destruct (secret_ok_cases earlier _ Hw Hp) as (ok & Eo & Ho). rewrite Eo, bind_done. destruct ok.
  - left. exists from. split_and!; [lia|lia|done|by apply Ho|lia].
  - assert (N0 : ~ good_secret earlier (secret_word seed from)) by (intros G%Ho; done).
    destruct (IH (from + 1)) as [(k & Hk & Ek & G & N)|[Ek N]]; [left; exists k; split_and!; [lia|lia|exact Ek|exact G|]|right; split; [exact Ek|]];
      intros j Hj; (destruct (Z.eq_dec j from) as [->|]; [exact N0|apply N; lia]).
Qed.

(** [first_secrets seed words from]: each of the words is the first one of the
    stream of the seed, from the place after the word before it on, that is good
    after the words before it; [from] is the place after the last. *)
Inductive first_secrets (seed : Z) : list Z -> Z -> Prop :=
  | first_none : first_secrets seed [] 0
  | first_next earlier from k : first_secrets seed earlier from ->
      from <= k -> good_secret earlier (secret_word seed k) -> (forall j, from <= j < k -> ~ good_secret earlier (secret_word seed j)) ->
      first_secrets seed (earlier ++ [secret_word seed k]) (k + 1).

Lemma pick_secrets_first n fuel seed : forall earlier from, first_secrets seed earlier from ->
  (exists secret to, pick_secrets n fuel earlier (secret_state seed (8 * from)) = Done secret /\
     length secret = (length earlier + n)%nat /\ first_secrets seed secret to) \/
  (pick_secrets n fuel earlier (secret_state seed (8 * from)) = Spins /\
   exists found to, (length found < length earlier + n)%nat /\ first_secrets seed found to /\
     forall j, to <= j < to + Z.of_nat fuel -> ~ good_secret found (secret_word seed j)).
Proof.
  induction n as [|n IH]; intros earlier from G; cbn [pick_secrets]; [left; exists earlier, from; split_and!; [done|lia|done]|].
  destruct (pick_secret_first fuel earlier seed from) as [(k & Hk & -> & Gk & N)|[-> N]].
  - rewrite bind_done. destruct (IH _ _ (first_next _ _ _ k G ltac:(lia) Gk N)) as [(secret & to & E & L & Gs)|(E & found & to & L & Gf & N2)];
      rewrite length_app in L; cbn in L; [left|right].
    + exists secret, to. split_and!; [done|lia|done].
    + split; [done|]. exists found, to. split_and!; [lia|done..].
  - right. split; [done|]. exists earlier, from. split_and!; [lia|done..].
Qed.

(** ** Properties *)

(** C26: The primality test ends on every word of 64 bits and never refuses an odd
    prime; it refuses two, the only even one. *)
Theorem wyhash_is_prime_complete n (Hn : 0 <= n < 2 ^ 64) :
  (exists ok, is_prime n = Done ok) /\
  (Znumtheory.prime n -> n <> 2 -> is_prime n = Done true) /\
  (Z.even n = true -> is_prime n = Done false).
Proof.
  destruct (is_prime_cases n Hn) as (ok & E & P). split_and!; [eauto|intros Hp H2; by rewrite E, P|].
  intros Ev. assert (L : Z.land n 1 = 0) by (pose proof (Z.land_ones n 1 ltac:(lia)) as L; change (Z.ones 1) with 1 in L; change (2 ^ 1) with 2 in L; by rewrite L, Zmod_even, Ev).
  unfold is_prime. by rewrite L, orb_true_r.
Qed.

(** C25: The words of a secret are the first good ones of the stream of the seed.  The
    stream ([secret_word]) takes eight numbers of the generator for a word, each
    choosing one of the 70 bytes with four bits set; a word is good after others when
    it is odd, accepted by the primality test and at a distance of exactly 32 bits
    from each of them ([good_secret]; 32 of its bits are set then).  Each word of the
    secret is good after those before it, and no word between it and the one before
    it (or the start of the stream) is ([first_secrets]).  A secret is missing only
    when, after a part of it that is found in this way, no good word is among the
    [fuel] words that follow.  Counting the bits by hand gives the same number as
    counting them. *)
Theorem wyhash_make_secret_good fuel seed x (Hs : 0 <= seed < 2 ^ 64) (Hx : 0 <= x < 2 ^ 64) :
  ((exists secret to, make_secret fuel seed = Done secret /\ length secret = 4%nat /\ first_secrets seed secret to) \/
   (make_secret fuel seed = Spins /\
    exists found to, (length found < 4)%nat /\ first_secrets seed found to /\
      forall j, to <= j < to + Z.of_nat fuel -> ~ good_secret found (secret_word seed j))) /\
  popcount_portable x = popcount x.
Proof.
  split; [|by apply popcount_portable_eq].
  pose proof (pick_secrets_first 4 fuel seed [] 0 (first_none seed)) as F.
  assert (E : secret_state seed (8 * 0) = seed) by (unfold secret_state; rewrite Z.add_0_r; by apply wrap_small).
  rewrite E in F. exact F.
Qed.

Lemma wyhash_is_prime_complete_witness : is_prime 10007 = Done true.
Proof.
  apply (proj1 (proj2 (wyhash_is_prime_complete 10007 ltac:(lia)))); [|done]. apply trial_check_prime. vm_compute. reflexivity.
Defined.

(** *** A secret, evaluated

    The same with the products taken at once instead of bit by bit. *)

Fixpoint quick_loop (fuel : nat) (n s r b : Z) : bool :=
  match fuel with
  | O => false
  | S fuel =>
      if r <? s then
        let b := b * b mod n in
        if b <=? 1 then false else if b =? n - 1 then true else quick_loop fuel n s (r + 1) b
      else false
  end.

Lemma quick_loop_runs fuel n : 2 < n < 2 ^ 64 -> forall s r b, 0 <= b < n -> quick_loop fuel n s r b = true ->
  sprp_loop fuel n s r b = Done true.
Proof.
  intros Hn. induction fuel as [|fuel IH]; intros s r b Hb E; cbn [quick_loop sprp_loop] in *; [done|].
  destruct (r <? s); [|done]. rewrite mul_mod_square, bind_done by (lia || exact Hb). cbv zeta in E.
  repeat (case_match; [done|]). apply IH; [by apply modular_bound|done].
Qed.

Definition quick_sprp (n a : Z) : bool :=
  match shift_bytes 8 (u64 (n - 1)) 0 with
  | Done ds =>
      let '(d, s) := shift_if 0x1 1 (shift_if 0x3 2 (shift_if 0xf 4 ds)) in
      let b := Zpow_facts.Zpow_mod a d n in
      (0 <=? d) && (d <? 2 ^ 64) && ((b =? 1) || (b =? u64 (n - 1)) || quick_loop 64 n s 1 b)
  | _ => false
  end.

Lemma quick_sprp_runs n a : 2 < n < 2 ^ 64 -> 0 <= a < n -> quick_sprp n a = true -> sprp n a = Done true.
Proof.
  intros Hn Ha. unfold quick_sprp, sprp. destruct (shift_bytes _ _ _) as [ds| | |]; [|done..]. rewrite bind_done.
  destruct (shift_if _ _ _) as [d s]. rewrite Zpow_facts.Zpow_mod_correct by lia. intros E.
  apply andb_true_iff in E as [[D1%Z.leb_le D2%Z.ltb_lt]%andb_true_iff E].
  unfold pow_mod. rewrite pow_mod_loop_spec by (try (change (Z.of_nat 64) with 64); lia). rewrite bind_done, Z.mul_1_l.
  apply orb_true_iff in E as [-> | E]; [done|]. case_match; [done|]. apply quick_loop_runs; [done|by apply modular_bound|exact E].
Qed.

Definition quick_prime (n : Z) : bool :=
  (2047 <=? n) && (n <? 2 ^ 64) && Z.odd n && forallb (quick_sprp n) [2; 3; 5; 7; 11; 13; 17; 19; 23; 29; 31; 37].

Lemma quick_prime_runs n : quick_prime n = true -> is_prime n = Done true.
Proof.
  unfold quick_prime. intros [[[N1%Z.leb_le N2%Z.ltb_lt]%andb_true_iff O]%andb_true_iff F]%andb_true_iff.
  assert (Run : forall a, 0 <= a < n -> quick_sprp n a = true -> sprp n a = Done true) by (intros; apply quick_sprp_runs; lia || done).
  cbn [forallb] in F. repeat (apply andb_true_iff in F as [?Q F]).
  unfold is_prime. pose proof (Z.land_ones n 1 ltac:(lia)) as L. change (Z.ones 1) with 1 in L. change (2 ^ 1) with 2 in L.
  rewrite L, Zmod_odd, O, (proj2 (Z.ltb_ge n 2)), (proj2 (Z.ltb_ge n 4)), (proj2 (Z.ltb_ge n 2047)) by lia. cbn [orb negb Z.eqb].
  cbn [all_sprp]. by repeat (rewrite Run by (lia || assumption); rewrite bind_done; cbn [negb]).
Qed.

(** The words that are drawn until the first that passes. *)
Fixpoint quick_pick (fuel : nat) (earlier : list Z) (seed : Z) : option (Z * Z) :=
  match fuel with
  | O => None
  | S fuel =>
      match draw_secret seed with
      | Done (v, seed) =>
          if (v mod 2 =? 0) || existsb (fun s => negb (popcount (Z.lxor s v) =? 32)) earlier then quick_pick fuel earlier seed
          else if quick_prime v then Some (v, seed) else None
      | _ => None
      end
  end.

Lemma quick_pick_runs fuel earlier : forall seed r, quick_pick fuel earlier seed = Some r -> pick_secret fuel earlier seed = Done r.
Proof.
  induction fuel as [|fuel IH]; intros seed r E; cbn [quick_pick pick_secret] in *; [done|].
  destruct (draw_secret seed) as [[v seed1]| | |]; [|done..]. rewrite bind_done. unfold secret_ok.
  destruct (v mod 2 =? 0); [rewrite bind_done; by apply IH|]. destruct (existsb _ earlier); [rewrite bind_done; by apply IH|].
  cbn [orb] in E. destruct (quick_prime v) eqn:Q; [|done]. rewrite (quick_prime_runs v Q), bind_done. congruence.
Qed.

(** The secret of the seed 43075: the words 0, 13, 39 and 87 of its stream. *)
Definition a_secret : list Z := [5419577941830590773; 11775027563732291249; 8275551750464103881; 5171108989095917863].

Lemma a_secret_made : make_secret 48 43075 = Done a_secret.
Proof.
  unfold make_secret. cbn [pick_secrets].
  do 4 (erewrite quick_pick_runs by (vm_compute; reflexivity); rewrite bind_done; cbn [app]). reflexivity.
Qed.

Lemma wyhash_make_secret_good_witness :
  (exists to, first_secrets 43075 a_secret to) /\
  (exists found to, first_secrets 43075 found to /\ forall j, to <= j < to + 10 -> ~ good_secret found (secret_word 43075 j)) /\
  popcount_portable 0x2d358dccaa6c78a5 = 32.
Proof.
  pose proof a_secret_made as E. split_and!.
  - destruct (wyhash_make_secret_good 48 43075 0 ltac:(lia) ltac:(lia)) as [[(secret & to & E' & _ & F)|(E' & _)] _]; rewrite E in E'; [|discriminate E'].
    injection E' as <-. exists to. exact F.
  - destruct (wyhash_make_secret_good 10 43075 0 ltac:(lia) ltac:(lia)) as [[(secret & to & E' & _)|(_ & found & to & _ & F & N)] _].
    + exfalso. revert E'. unfold make_secret. cbn [pick_secrets]. erewrite quick_pick_runs by (vm_compute; reflexivity). rewrite bind_done.
      vm_compute. discriminate.
    + exists found, to. split; [exact F|exact N].
  - rewrite (proj2 (wyhash_make_secret_good 0 0 0x2d358dccaa6c78a5 ltac:(lia) ltac:(lia))). vm_compute. reflexivity.
Defined.
