(* ===== verification/Xxhash.v ===== *)
(** * XXH32 and XXH64 ([core/native/hashing/xxhash.h])

    The one-shot hashes and the streaming interface (reset, update, digest).
    A pointer into a message is the list of the bytes from it on; the buffer of a
    streaming state is the list of the [memsize] bytes it holds.  XXH3 is in [Xxh3]
    and the files after it. *)
From S2P Require Import Prelude.

(** ** Lanes

    Both hashes consume stripes of four lanes of [n] bytes. *)

Record lanes := Lanes { lane1 : Z; lane2 : Z; lane3 : Z; lane4 : Z }.

Section Lanes.
Context (n : nat) (round : Z -> Z -> Z).

Definition stripe_length : nat := 4 * n.
Definition read_lane (p : list Z) (i : nat) : Z := le_combine (take n (drop (i * n) p)).
Definition stripe (v : lanes) (p : list Z) : lanes :=
  Lanes (round (lane1 v) (read_lane p 0)) (round (lane2 v) (read_lane p 1))
        (round (lane3 v) (read_lane p 2)) (round (lane4 v) (read_lane p 3)).

(** The loop on the stripes, and the bytes it leaves. *)
Fixpoint stripes_loop (fuel : nat) (v : lanes) (p : list Z) : lanes * list Z :=
  match fuel with
  | O => (v, p)
  | S fuel =>
      if (stripe_length <=? length p)%nat then stripes_loop fuel (stripe v p) (drop stripe_length p) else (v, p)
  end.
Definition stripes (v : lanes) (p : list Z) : lanes * list Z := stripes_loop (length p) v p.

Context (Hn : (0 < n)%nat).

Lemma stripes_fuel f f' v p :
  (length p <= f)%nat -> (length p <= f')%nat -> stripes_loop f v p = stripes_loop f' v p.
Proof.
  revert f' v p. induction f as [|f IH]; intros f' v p Hf Hf'.
  - destruct p; [|cbn in Hf; lia]. destruct f'; [reflexivity|]. cbn [stripes_loop length].
    rewrite (proj2 (Nat.leb_gt _ _)) by (unfold stripe_length; lia). reflexivity.
  - destruct f' as [|f'].
    + destruct p; [|cbn in Hf'; lia]. cbn [stripes_loop length].
      rewrite (proj2 (Nat.leb_gt _ _)) by (unfold stripe_length; lia). reflexivity.
    + cbn [stripes_loop]. destruct (Nat.leb_spec stripe_length (length p)); [|reflexivity].
      apply IH; rewrite length_drop; unfold stripe_length in *; lia.
Qed.

Lemma stripes_short v p : (length p < stripe_length)%nat -> stripes v p = (v, p).
Proof.
  intros H. unfold stripes. destruct (length p) eqn:E; [reflexivity|]. cbn [stripes_loop].
  rewrite (proj2 (Nat.leb_gt _ _)) by lia. reflexivity.
Qed.

Lemma stripes_step v p :
  (stripe_length <= length p)%nat -> stripes v p = stripes (stripe v p) (drop stripe_length p).
Proof.
  intros H. unfold stripes at 1. destruct (length p) eqn:E; [unfold stripe_length in *; lia|]. cbn [stripes_loop].
  rewrite E, (proj2 (Nat.leb_le _ _)) by lia. apply stripes_fuel; rewrite length_drop; unfold stripe_length in *; lia.
Qed.

Lemma stripe_prefix v p q : (stripe_length <= length p)%nat -> stripe v (p ++ q) = stripe v p.
Proof.
  intros H. unfold stripe_length in H. unfold stripe, read_lane.
  assert (G : forall i, (i < 4)%nat -> take n (drop (i * n) (p ++ q)) = take n (drop (i * n) p)).
  { intros i Hi. rewrite drop_app_le by nia. apply take_app_le. rewrite length_drop. nia. }
  rewrite !G by lia. reflexivity.
Qed.

Lemma stripes_app v p q : stripes v (p ++ q) = let '(v', rest) := stripes v p in stripes v' (rest ++ q).
Proof.
  remember (length p) as k eqn:Ek. revert v p Ek. induction k as [k IH] using lt_wf_ind; intros v p ->.
  destruct (Nat.lt_ge_cases (length p) stripe_length) as [Hs|Hs]; [rewrite (stripes_short v p Hs); reflexivity|].
  rewrite (stripes_step v p Hs), (stripes_step v (p ++ q)) by (rewrite length_app; lia).
  rewrite stripe_prefix, drop_app_le by lia. eapply IH; [|reflexivity].
  rewrite length_drop. unfold stripe_length in *. lia.
Qed.

Lemma stripes_rest v p :
  (length (snd (stripes v p)) < stripe_length)%nat
  /\ Z.of_nat (length (snd (stripes v p))) = Z.of_nat (length p) mod Z.of_nat stripe_length.
Proof.
  remember (length p) as k eqn:Ek. revert v p Ek. induction k as [k IH] using lt_wf_ind; intros v p ->.
  destruct (Nat.lt_ge_cases (length p) stripe_length) as [Hs|Hs].
  - rewrite (stripes_short v p Hs). cbn [snd]. rewrite Z.mod_small by lia. lia.
  - rewrite (stripes_step v p Hs).
    assert (Hlt : (length p - stripe_length < length p)%nat) by (unfold stripe_length in *; lia).
    destruct (IH _ Hlt (stripe v p) (drop stripe_length p)) as [H1 H2]; [rewrite length_drop; reflexivity|].
    split; [exact H1|]. rewrite H2, Nat2Z.inj_sub by exact Hs.
    replace (Z.of_nat (length p)) with (Z.of_nat (length p) - Z.of_nat stripe_length + 1 * Z.of_nat stripe_length) at 2 by lia.
    rewrite Z.mod_add by (unfold stripe_length in *; lia). reflexivity.
Qed.

End Lanes.

(** ** XXH32 *)

Definition XXH_rotl (w x r : Z) : Z := Z.lor (wrap w (Z.shiftl x r)) (Z.shiftr x (w - r)).
Definition XXH_rotl32 := XXH_rotl 32.
Definition XXH_rotl64 := XXH_rotl 64.

Definition XXH_PRIME32_1 : Z := 0x9E3779B1.
Definition XXH_PRIME32_2 : Z := 0x85EBCA77.
Definition XXH_PRIME32_3 : Z := 0xC2B2AE3D.
Definition XXH_PRIME32_4 : Z := 0x27D4EB2F.
Definition XXH_PRIME32_5 : Z := 0x165667B1.

Definition XXH32_round (acc input : Z) : Z :=
  u32 (XXH_rotl32 (u32 (acc + input * XXH_PRIME32_2)) 13 * XXH_PRIME32_1).

Definition XXH32_avalanche (hash : Z) : Z :=
  let hash := Z.lxor hash (Z.shiftr hash 15) in
  let hash := u32 (hash * XXH_PRIME32_2) in
  let hash := Z.lxor hash (Z.shiftr hash 13) in
  let hash := u32 (hash * XXH_PRIME32_3) in
  Z.lxor hash (Z.shiftr hash 16).

Definition XXH_PROCESS1 (hash byte : Z) : Z :=
  u32 (XXH_rotl32 (u32 (hash + byte * XXH_PRIME32_5)) 11 * XXH_PRIME32_1).
Definition XXH_PROCESS4 (hash word : Z) : Z :=
  u32 (XXH_rotl32 (u32 (hash + word * XXH_PRIME32_3)) 17 * XXH_PRIME32_4).

(** The loop on words of four bytes, then the one on bytes. *)
Fixpoint XXH32_tail (hash : Z) (p : list Z) : Z :=
  match p with
  | b0 :: b1 :: b2 :: b3 :: p => XXH32_tail (XXH_PROCESS4 hash (le_combine [b0; b1; b2; b3])) p
  | _ => fold_left XXH_PROCESS1 p hash
  end.
Definition XXH32_finalize (hash : Z) (p : list Z) : Z := XXH32_avalanche (XXH32_tail hash p).

Definition XXH32_init (seed : Z) : lanes :=
  Lanes (u32 (seed + XXH_PRIME32_1 + XXH_PRIME32_2)) (u32 (seed + XXH_PRIME32_2)) seed (u32 (seed - XXH_PRIME32_1)).
Definition XXH32_merge (v : lanes) : Z :=
  u32 (XXH_rotl32 (lane1 v) 1 + XXH_rotl32 (lane2 v) 7 + XXH_rotl32 (lane3 v) 12 + XXH_rotl32 (lane4 v) 18).

Definition XXH32 (input : list Z) (seed : Z) : Z :=
  let len := Z.of_nat (length input) in
  let '(h32, input) :=
    if len >=? 16 then let '(v, rest) := stripes 4 XXH32_round (XXH32_init seed) input in (XXH32_merge v, rest)
    else (u32 (seed + XXH_PRIME32_5), input) in
  XXH32_finalize (u32 (h32 + u32 len)) input.

Record XXH32_state_s := XXH32State { total_len_32 : Z; large_len : bool; v32 : lanes; mem32 : list Z }.

Definition XXH32_reset (seed : Z) : XXH32_state_s := XXH32State 0 false (XXH32_init seed) [].

Definition XXH32_update (state : XXH32_state_s) (input : list Z) : XXH32_state_s :=
  let len := Z.of_nat (length input) in
  let total := u32 (total_len_32 state + u32 len) in
  let large := large_len state || ((len >=? 16) || (total >=? 16)) in
  let memsize := length (mem32 state) in
  if Z.of_nat memsize + len <? 16 then XXH32State total large (v32 state) (mem32 state ++ input) else
  let '(v, p) :=
    if (0 <? memsize)%nat
    then (stripe 4 XXH32_round (v32 state) (mem32 state ++ take (16 - memsize) input), drop (16 - memsize) input)
    else (v32 state, input) in
  let '(v, p) := stripes 4 XXH32_round v p in
  XXH32State total large v p.

Definition XXH32_digest (state : XXH32_state_s) : Z :=
  let h32 := if large_len state then XXH32_merge (v32 state) else u32 (lane3 (v32 state) + XXH_PRIME32_5) in
  XXH32_finalize (u32 (h32 + total_len_32 state)) (mem32 state).

(** ** XXH64 *)

Definition XXH_PRIME64_1 : Z := 0x9E3779B185EBCA87.
Definition XXH_PRIME64_2 : Z := 0xC2B2AE3D27D4EB4F.
Definition XXH_PRIME64_3 : Z := 0x165667B19E3779F9.
Definition XXH_PRIME64_4 : Z := 0x85EBCA77C2B2AE63.
Definition XXH_PRIME64_5 : Z := 0x27D4EB2F165667C5.

Definition XXH64_round (acc input : Z) : Z :=
  u64 (XXH_rotl64 (u64 (acc + input * XXH_PRIME64_2)) 31 * XXH_PRIME64_1).
Definition XXH64_mergeRound (acc val : Z) : Z :=
  u64 (Z.lxor acc (XXH64_round 0 val) * XXH_PRIME64_1 + XXH_PRIME64_4).

Definition XXH64_avalanche (hash : Z) : Z :=
  let hash := Z.lxor hash (Z.shiftr hash 33) in
  let hash := u64 (hash * XXH_PRIME64_2) in
  let hash := Z.lxor hash (Z.shiftr hash 29) in
  let hash := u64 (hash * XXH_PRIME64_3) in
  Z.lxor hash (Z.shiftr hash 32).

Definition XXH64_byte (hash byte : Z) : Z :=
  u64 (XXH_rotl64 (Z.lxor hash (u64 (byte * XXH_PRIME64_5))) 11 * XXH_PRIME64_1).
Definition XXH64_words4 (hash : Z) (p : list Z) : Z :=
  match p with
  | b0 :: b1 :: b2 :: b3 :: p =>
      fold_left XXH64_byte p
        (u64 (XXH_rotl64 (Z.lxor hash (u64 (le_combine [b0; b1; b2; b3] * XXH_PRIME64_1))) 23 * XXH_PRIME64_2 + XXH_PRIME64_3))
  | _ => fold_left XXH64_byte p hash
  end.
Fixpoint XXH64_tail (hash : Z) (p : list Z) : Z :=
  match p with
  | b0 :: b1 :: b2 :: b3 :: b4 :: b5 :: b6 :: b7 :: p =>
      let k1 := XXH64_round 0 (le_combine [b0; b1; b2; b3; b4; b5; b6; b7]) in
      XXH64_tail (u64 (XXH_rotl64 (Z.lxor hash k1) 27 * XXH_PRIME64_1 + XXH_PRIME64_4)) p
  | _ => XXH64_words4 hash p
  end.

(** The length is cut to its last five bits; [p] must have that many bytes. *)
Definition XXH64_finalize (hash : Z) (p : list Z) (len : Z) : outcome Z :=
  let len := Z.land len 31 in
  if len <=? Z.of_nat (length p) then Done (XXH64_avalanche (XXH64_tail hash (take (Z.to_nat len) p))) else Faults.

Definition XXH64_init (seed : Z) : lanes :=
  Lanes (u64 (seed + XXH_PRIME64_1 + XXH_PRIME64_2)) (u64 (seed + XXH_PRIME64_2)) seed (u64 (seed - XXH_PRIME64_1)).
Definition XXH64_merge (v : lanes) : Z :=
  let h64 := u64 (XXH_rotl64 (lane1 v) 1 + XXH_rotl64 (lane2 v) 7 + XXH_rotl64 (lane3 v) 12 + XXH_rotl64 (lane4 v) 18) in
  XXH64_mergeRound (XXH64_mergeRound (XXH64_mergeRound (XXH64_mergeRound h64 (lane1 v)) (lane2 v)) (lane3 v)) (lane4 v).

Definition XXH64 (input : list Z) (seed : Z) : outcome Z :=
  let len := Z.of_nat (length input) in
  let '(h64, input) :=
    if len >=? 32 then let '(v, rest) := stripes 8 XXH64_round (XXH64_init seed) input in (XXH64_merge v, rest)
    else (u64 (seed + XXH_PRIME64_5), input) in
  XXH64_finalize (u64 (h64 + len)) input len.

Record XXH64_state_s := XXH64State { total_len : Z; v64 : lanes; mem64 : list Z }.

Definition XXH64_reset (seed : Z) : XXH64_state_s := XXH64State 0 (XXH64_init seed) [].

Definition XXH64_update (state : XXH64_state_s) (input : list Z) : XXH64_state_s :=
  let len := Z.of_nat (length input) in
  let total := u64 (total_len state + len) in
  let memsize := length (mem64 state) in
  if Z.of_nat memsize + len <? 32 then XXH64State total (v64 state) (mem64 state ++ input) else
  let '(v, p) :=
    if (0 <? memsize)%nat
    then (stripe 8 XXH64_round (v64 state) (mem64 state ++ take (32 - memsize) input), drop (32 - memsize) input)
    else (v64 state, input) in
  let '(v, p) := stripes 8 XXH64_round v p in
  XXH64State total v p.

Definition XXH64_digest (state : XXH64_state_s) : outcome Z :=
  let h64 := if total_len state >=? 32 then XXH64_merge (v64 state) else u64 (lane3 (v64 state) + XXH_PRIME64_5) in
  XXH64_finalize (u64 (h64 + total_len state)) (mem64 state) (total_len state).

(** ** Streaming *)

(** The state after the bytes of [msg]. *)
Record absorbed32 (seed : Z) (msg : list Z) (st : XXH32_state_s) : Prop := {
  a32_stripes : stripes 4 XXH32_round (XXH32_init seed) msg = (v32 st, mem32 st);
  a32_total : total_len_32 st = u32 (Z.of_nat (length msg));
  a32_large : large_len st = (Z.of_nat (length msg) >=? 16);
}.

Record absorbed64 (seed : Z) (msg : list Z) (st : XXH64_state_s) : Prop := {
  a64_stripes : stripes 8 XXH64_round (XXH64_init seed) msg = (v64 st, mem64 st);
  a64_total : total_len st = u64 (Z.of_nat (length msg));
}.

(** What a second piece does to the lanes, whichever way [update] takes. *)
Lemma update_lanes n round v rest input :
  (0 < n)%nat -> (length rest < 4 * n)%nat ->
  stripes n round v (rest ++ input) =
  if Z.of_nat (length rest) + Z.of_nat (length input) <? 4 * Z.of_nat n then (v, rest ++ input) else
  let '(v, p) :=
    if (0 <? length rest)%nat
    then (stripe n round v (rest ++ take (4 * n - length rest) input), drop (4 * n - length rest) input)
    else (v, input) in
  stripes n round v p.
Proof.
  intros Hn Hr. destruct (Z.ltb_spec (Z.of_nat (length rest) + Z.of_nat (length input)) (4 * Z.of_nat n)) as [Hs|Hs].
  - apply stripes_short; [exact Hn|]. rewrite length_app. unfold stripe_length. lia.
  - destruct (Nat.ltb_spec 0 (length rest)).
    + rewrite stripes_step by (try exact Hn; rewrite length_app; unfold stripe_length; lia).
      set (k := (4 * n - length rest)%nat).
      replace (rest ++ input) with ((rest ++ take k input) ++ drop k input) at 1
        by (rewrite <- app_assoc, take_drop; reflexivity).
      assert (Hl : length (rest ++ take k input) = stripe_length n).
      { rewrite length_app, length_take. unfold stripe_length, k. lia. }
      rewrite stripe_prefix by lia. f_equal.
      replace (rest ++ input) with ((rest ++ take k input) ++ drop k input)
        by (rewrite <- app_assoc, take_drop; reflexivity).
      rewrite <- Hl, drop_app_length. reflexivity.
    + destruct rest; [reflexivity|cbn in *; lia].
Qed.

Lemma reset32_absorbed seed : absorbed32 seed [] (XXH32_reset seed).
Proof. split; reflexivity. Qed.

Lemma reset64_absorbed seed : absorbed64 seed [] (XXH64_reset seed).
Proof. split; reflexivity. Qed.

Lemma large_after a b :
  0 <= a -> 0 <= b -> (a >=? 16) || ((b >=? 16) || (u32 (a + b) >=? 16)) = (a + b >=? 16).
Proof.
  intros Ha Hb. destruct (Z.geb_spec a 16), (Z.geb_spec b 16), (Z.geb_spec (a + b) 16); cbn [orb]; try lia; try reflexivity;
    rewrite wrap_small by (pow2_norm; lia); destruct (Z.geb_spec (a + b) 16); lia.
Qed.

Lemma update32_absorbed seed msg st input :
  absorbed32 seed msg st -> absorbed32 seed (msg ++ input) (XXH32_update st input).
Proof.
  intros [Hs Ht Hl]. pose proof (stripes_rest 4 XXH32_round ltac:(lia) (XXH32_init seed) msg) as [Hr _].
  rewrite Hs in Hr. cbn [snd] in Hr. unfold stripe_length in Hr.
  pose proof (stripes_app 4 XXH32_round ltac:(lia) (XXH32_init seed) msg input) as Ha. rewrite Hs in Ha.
  rewrite (update_lanes 4 _ (v32 st) (mem32 st)) in Ha by (try lia; exact Hr).
  unfold XXH32_update. cbv zeta.
  assert (Htot : u32 (total_len_32 st + u32 (Z.of_nat (length input))) = u32 (Z.of_nat (length (msg ++ input)))).
  { rewrite Ht, length_app, Nat2Z.inj_add, wrap_add_l, wrap_add_r by lia. reflexivity. }
  rewrite Htot, Hl.
  assert (Hlarge : (Z.of_nat (length msg) >=? 16) || ((Z.of_nat (length input) >=? 16)
      || (u32 (Z.of_nat (length (msg ++ input))) >=? 16)) = (Z.of_nat (length (msg ++ input)) >=? 16)).
  { rewrite length_app, Nat2Z.inj_add. apply large_after; lia. }
  rewrite Hlarge. change (4 * Z.of_nat 4) with 16 in Ha. change (4 * 4)%nat with 16%nat in Ha.
  destruct (Z.of_nat (length (mem32 st)) + Z.of_nat (length input) <? 16); [split; auto|].
  match goal with |- context [let '(v, p) := ?e in _] => destruct e as [v p] end.
  destruct (stripes 4 XXH32_round v p) as [v' p'] eqn:E. split; [|reflexivity..]. exact Ha.
Qed.

Lemma update64_absorbed seed msg st input :
  absorbed64 seed msg st -> absorbed64 seed (msg ++ input) (XXH64_update st input).
Proof.
  intros [Hs Ht]. pose proof (stripes_rest 8 XXH64_round ltac:(lia) (XXH64_init seed) msg) as [Hr _].
  rewrite Hs in Hr. cbn [snd] in Hr. unfold stripe_length in Hr.
  pose proof (stripes_app 8 XXH64_round ltac:(lia) (XXH64_init seed) msg input) as Ha. rewrite Hs in Ha.
  rewrite (update_lanes 8 _ (v64 st) (mem64 st)) in Ha by (try lia; exact Hr).
  unfold XXH64_update. cbv zeta.
  assert (Htot : u64 (total_len st + Z.of_nat (length input)) = u64 (Z.of_nat (length (msg ++ input)))).
  { rewrite Ht, length_app, Nat2Z.inj_add, wrap_add_l by lia. reflexivity. }
  rewrite Htot. change (4 * Z.of_nat 8) with 32 in Ha. change (4 * 8)%nat with 32%nat in Ha.
  destruct (Z.of_nat (length (mem64 st)) + Z.of_nat (length input) <? 32); [split; auto|].
  match goal with |- context [let '(v, p) := ?e in _] => destruct e as [v p] end.
  destruct (stripes 8 XXH64_round v p) as [v' p'] eqn:E. split; [|reflexivity]. exact Ha.
Qed.

Lemma digest32_absorbed seed msg st : absorbed32 seed msg st -> XXH32_digest st = XXH32 msg seed.
Proof.
  intros [Hs Ht Hl]. unfold XXH32_digest, XXH32. cbv zeta. rewrite Ht, Hl.
  destruct (Z.geb_spec (Z.of_nat (length msg)) 16) as [H|H].
  - rewrite Hs. reflexivity.
  - rewrite stripes_short in Hs by (unfold stripe_length; lia). injection Hs as <- <-. reflexivity.
Qed.

Lemma land_31 x : Z.land x 31 = x mod 32.
Proof. exact (Z.land_ones x 5 ltac:(lia)). Qed.

Lemma finalize64_done hash p len :
  Z.of_nat (length p) = len mod 32 -> XXH64_finalize hash p len = Done (XXH64_avalanche (XXH64_tail hash p)).
Proof.
  intros Hl. unfold XXH64_finalize. cbv zeta. rewrite land_31, (proj2 (Z.leb_le _ _)) by lia.
  rewrite take_ge by lia. reflexivity.
Qed.

Lemma rest64 seed msg : Z.of_nat (length (snd (stripes 8 XXH64_round (XXH64_init seed) msg))) = Z.of_nat (length msg) mod 32.
Proof. exact (proj2 (stripes_rest 8 XXH64_round ltac:(lia) (XXH64_init seed) msg)). Qed.

(** The one-shot hash as the lanes of the message, its rest and its length. *)
Lemma XXH64_value msg seed :
  exists h, XXH64 msg seed = Done h /\ forall st, Z.of_nat (length msg) < 2 ^ 64 -> absorbed64 seed msg st -> XXH64_digest st = Done h.
Proof.
  pose proof (rest64 seed msg) as Hr. unfold XXH64. cbv zeta.
  destruct (stripes 8 XXH64_round (XXH64_init seed) msg) as [v rest] eqn:E. cbn [snd] in Hr.
  assert (G : exists h64, (if Z.of_nat (length msg) >=? 32 then (XXH64_merge v, rest) else (u64 (seed + XXH_PRIME64_5), msg))
      = (h64, rest) /\ h64 = if Z.of_nat (length msg) >=? 32 then XXH64_merge v else u64 (lane3 v + XXH_PRIME64_5)).
  { destruct (Z.geb_spec (Z.of_nat (length msg)) 32); [eauto|].
    rewrite stripes_short in E by (unfold stripe_length; lia). injection E as <- <-. eauto. }
  destruct G as (h64 & -> & Eh). rewrite finalize64_done by exact Hr. eexists. split; [reflexivity|].
  intros st Hlen [Hs Ht]. rewrite E in Hs. injection Hs as Hv Hm. unfold XXH64_digest. cbv zeta.
  rewrite Ht, (wrap_small 64 (Z.of_nat (length msg))), <- Hv, <- Hm, <- Eh by lia. apply finalize64_done. exact Hr.
Qed.

Lemma fold_absorbed {S} (absorbed : list Z -> S -> Prop) (update : S -> list Z -> S) pieces :
  (forall msg st input, absorbed msg st -> absorbed (msg ++ input) (update st input)) ->
  forall msg st, absorbed msg st -> absorbed (msg ++ concat pieces) (fold_left update pieces st).
Proof.
  intros Hu. induction pieces as [|piece pieces IH]; intros msg st H; cbn [concat fold_left].
  - rewrite app_nil_r. exact H.
  - rewrite app_assoc. apply IH, Hu, H.
Qed.

(** ** The property *)

(** C17: a message fed to the streaming interface in any pieces has, at the end, the
    one-shot hash of the whole message, for both widths: the buffered bytes, the
    stripes and the counters (that of XXH32 wraps around) fit together, and the
    hash of every message is defined. *)
Theorem xxhash_streaming seed (pieces : list (list Z)) :
  let msg := concat pieces in
  XXH32_digest (fold_left XXH32_update pieces (XXH32_reset seed)) = XXH32 msg seed
  /\ (Z.of_nat (length msg) < 2 ^ 64 ->
      XXH64_digest (fold_left XXH64_update pieces (XXH64_reset seed)) = XXH64 msg seed)
  /\ exists h, XXH64 msg seed = Done h.
Proof.
  intros msg. destruct (XXH64_value msg seed) as (h & E & Hd).
  split_and!; [|intros Hlen; rewrite E; apply Hd; [exact Hlen|]|eauto].
  - apply digest32_absorbed.
    exact (fold_absorbed (absorbed32 seed) _ pieces (update32_absorbed seed) [] _ (reset32_absorbed seed)).
  - exact (fold_absorbed (absorbed64 seed) _ pieces (update64_absorbed seed) [] _ (reset64_absorbed seed)).
Qed.

(** *** The property at work *)

Lemma xxhash_streaming_witness :
  let pieces := [seqZ 0 5; seqZ 5 40; []; seqZ 45 3; seqZ 48 90] in
  XXH64_digest (fold_left XXH64_update pieces (XXH64_reset 7)) = XXH64 (concat pieces) 7
  /\ XXH32 [97; 98; 99] 0 = 0x32D153FF /\ XXH64 [97; 98; 99] 0 = Done 0x44BC2CF5AD770999.
Proof.
  split; [|split; vm_compute; reflexivity].
  destruct (xxhash_streaming 7 [seqZ 0 5; seqZ 5 40; []; seqZ 45 3; seqZ 48 90]) as (_ & G & _).
  apply G. vm_compute. reflexivity.
Defined.
