(* ===== verification/Xxh3.v ===== *)
(** * XXH3: primitives and short inputs ([core/native/hashing/xxhash.h])

    Memory access, the canonical form of hashes, the 64 by 64 bit multiplication,
    and XXH3 of at most 240 bytes, with 64 and with 128 bits of result.  Inputs that
    are longer are in [Xxh3Long], the streaming interface in [Xxh3Stream].

    A pointer is a block of bytes with an index into it; a read that leaves the
    block faults, and so does an [XXH_ASSERT] that fails: unless debugging is asked
    for it is an assumption of the compiler. *)
From S2P Require Import Prelude Xxhash.

(** ** Memory *)

Record pointer := Pointer { block : list Z; index : Z }.
Definition advance (p : pointer) (k : Z) : pointer := Pointer (block p) (index p + k).
Declare Scope pointer_scope.
Delimit Scope pointer_scope with ptr.
Notation "p +! k" := (advance p k) (at level 50, left associativity) : pointer_scope.
#[global] Open Scope pointer_scope.

(** A pointer to the start of a block. *)
Definition start (b : list Z) : pointer := Pointer b 0.

Definition XXH_ASSERT (c : bool) : outcome unit := if c then Done tt else Faults.

Definition XXH_read8 (p : pointer) : outcome Z := demand (byte_at (block p) (index p)).
Definition XXH_readLE32 (p : pointer) : outcome Z := demand (load_le 4 (block p) (index p)).
Definition XXH_readLE64 (p : pointer) : outcome Z := demand (load_le 8 (block p) (index p)).

Definition XXH_swap32 : Z -> Z := bswap 4.
Definition XXH_swap64 : Z -> Z := bswap 8.

(** The versions for compilers without [__builtin_bswap32] and [64]. *)
Definition XXH_swap32_portable (x : Z) : Z :=
  Z.lor (Z.lor (Z.lor (Z.land (u32 (Z.shiftl x 24)) 0xff000000) (Z.land (u32 (Z.shiftl x 8)) 0x00ff0000))
               (Z.land (Z.shiftr x 8) 0x0000ff00)) (Z.land (Z.shiftr x 24) 0x000000ff).
Definition XXH_swap64_portable (x : Z) : Z :=
  let l k m := Z.land (u64 (Z.shiftl x k)) m in
  let r k m := Z.land (Z.shiftr x k) m in
  Z.lor (Z.lor (Z.lor (Z.lor (Z.lor (Z.lor (Z.lor
    (l 56 0xff00000000000000) (l 40 0x00ff000000000000)) (l 24 0x0000ff0000000000)) (l 8 0x000000ff00000000))
    (r 8 0x00000000ff000000)) (r 24 0x0000000000ff0000)) (r 40 0x000000000000ff00)) (r 56 0x00000000000000ff).

Definition XXH_readBE32 (p : pointer) : outcome Z := v ← XXH_readLE32 p; Done (XXH_swap32 v).
Definition XXH_readBE64 (p : pointer) : outcome Z := v ← XXH_readLE64 p; Done (XXH_swap64 v).

(** [memcpy(dst, bs, length bs)]: the block after it. *)
Definition XXH_memcpy (dst : pointer) (bs : list Z) : outcome (list Z) :=
  let b := block dst in
  if (0 <=? index dst) && (index dst + Z.of_nat (length bs) <=? Z.of_nat (length b))
  then Done (take (Z.to_nat (index dst)) b ++ bs ++ drop (Z.to_nat (index dst) + length bs) b) else Faults.
Definition XXH_writeLE64 (dst : pointer) (v64 : Z) : outcome (list Z) := XXH_memcpy dst (le_split 8 v64).

(** The [n] bytes at [p], to be copied. *)
Definition region (n : Z) (p : pointer) : option (list Z) :=
  if (0 <=? index p) && (0 <=? n) && (index p + n <=? Z.of_nat (length (block p)))
  then Some (take (Z.to_nat n) (drop (Z.to_nat (index p)) (block p))) else None.

(** ** Canonical forms: the bytes of a hash, the most significant one first *)

Definition XXH32_canonicalFromHash (hash : Z) : list Z := le_split 4 (XXH_swap32 hash).
Definition XXH32_hashFromCanonical (src : list Z) : outcome Z := XXH_readBE32 (start src).
Definition XXH64_canonicalFromHash (hash : Z) : list Z := le_split 8 (XXH_swap64 hash).
Definition XXH64_hashFromCanonical (src : list Z) : outcome Z := XXH_readBE64 (start src).

Record XXH128_hash_t := XXH128Hash { low64 : Z; high64 : Z }.
#[export] Instance XXH128_hash_t_eq_dec : EqDecision XXH128_hash_t.
Proof. solve_decision. Defined.

Definition XXH128_canonicalFromHash (hash : XXH128_hash_t) : list Z :=
  le_split 8 (XXH_swap64 (high64 hash)) ++ le_split 8 (XXH_swap64 (low64 hash)).
Definition XXH128_hashFromCanonical (src : list Z) : outcome XXH128_hash_t :=
  high ← XXH_readBE64 (start src);
  low ← XXH_readBE64 (start src +! 8);
  Done (XXH128Hash low high).

(** [memcmp] of the two structures, which have no padding. *)
Definition XXH128_isEqual (h1 h2 : XXH128_hash_t) : Z :=
  if decide (le_split 8 (low64 h1) ++ le_split 8 (high64 h1) = le_split 8 (low64 h2) ++ le_split 8 (high64 h2)) then 1 else 0.

Definition XXH128_cmp (h1 h2 : XXH128_hash_t) : Z :=
  let gt a b := if a >? b then 1 else 0 in
  let hcmp := gt (high64 h1) (high64 h2) - gt (high64 h2) (high64 h1) in
  if negb (hcmp =? 0) then hcmp else gt (low64 h1) (low64 h2) - gt (low64 h2) (low64 h1).

(** ** Constants *)

Definition XXH3_SECRET_SIZE_MIN : Z := 136.
Definition XXH_SECRET_DEFAULT_SIZE : Z := 192.
Definition XXH3_MIDSIZE_MAX : Z := 240.
Definition XXH3_MIDSIZE_STARTOFFSET : Z := 3.
Definition XXH3_MIDSIZE_LASTOFFSET : Z := 17.

Definition XXH3_kSecret : list Z :=
  [0xb8; 0xfe; 0x6c; 0x39; 0x23; 0xa4; 0x4b; 0xbe; 0x7c; 0x01; 0x81; 0x2c; 0xf7; 0x21; 0xad; 0x1c;
   0xde; 0xd4; 0x6d; 0xe9; 0x83; 0x90; 0x97; 0xdb; 0x72; 0x40; 0xa4; 0xa4; 0xb7; 0xb3; 0x67; 0x1f;
   0xcb; 0x79; 0xe6; 0x4e; 0xcc; 0xc0; 0xe5; 0x78; 0x82; 0x5a; 0xd0; 0x7d; 0xcc; 0xff; 0x72; 0x21;
   0xb8; 0x08; 0x46; 0x74; 0xf7; 0x43; 0x24; 0x8e; 0xe0; 0x35; 0x90; 0xe6; 0x81; 0x3a; 0x26; 0x4c;
   0x3c; 0x28; 0x52; 0xbb; 0x91; 0xc3; 0x00; 0xcb; 0x88; 0xd0; 0x65; 0x8b; 0x1b; 0x53; 0x2e; 0xa3;
   0x71; 0x64; 0x48; 0x97; 0xa2; 0x0d; 0xf9; 0x4e; 0x38; 0x19; 0xef; 0x46; 0xa9; 0xde; 0xac; 0xd8;
   0xa8; 0xfa; 0x76; 0x3f; 0xe3; 0x9c; 0x34; 0x3f; 0xf9; 0xdc; 0xbb; 0xc7; 0xc7; 0x0b; 0x4f; 0x1d;
   0x8a; 0x51; 0xe0; 0x4b; 0xcd; 0xb4; 0x59; 0x31; 0xc8; 0x9f; 0x7e; 0xc9; 0xd9; 0x78; 0x73; 0x64;
   0xea; 0xc5; 0xac; 0x83; 0x34; 0xd3; 0xeb; 0xc3; 0xc5; 0x81; 0xa0; 0xff; 0xfa; 0x13; 0x63; 0xeb;
   0x17; 0x0d; 0xdd; 0x51; 0xb7; 0xf0; 0xda; 0x49; 0xd3; 0x16; 0x55; 0x26; 0x29; 0xd4; 0x68; 0x9e;
   0x2b; 0x16; 0xbe; 0x58; 0x7d; 0x47; 0xa1; 0xfc; 0x8f; 0xf8; 0xb8; 0xd1; 0x7a; 0xd0; 0x31; 0xce;
   0x45; 0xcb; 0x3a; 0x8f; 0x95; 0x16; 0x04; 0x28; 0xaf; 0xd7; 0xfb; 0xca; 0xbb; 0x4b; 0x40; 0x7e].

Definition PRIME_MX1 : Z := 0x165667919E3779F9.
Definition PRIME_MX2 : Z := 0x9FB21C651E98DF25.

(** ** Multiplication and mixing *)

Definition XXH_mult32to64 (x y : Z) : Z := u64 (u32 x * u32 y).

Definition XXH_mult64to128 (lhs rhs : Z) : XXH128_hash_t :=
  let product := u128 (lhs * rhs) in XXH128Hash (u64 product) (u64 (Z.shiftr product 64)).

(** The version for compilers without 128-bit integers. *)
Definition XXH_mult64to128_portable (lhs rhs : Z) : XXH128_hash_t :=
  let lo_lo := XXH_mult32to64 (Z.land lhs 0xFFFFFFFF) (Z.land rhs 0xFFFFFFFF) in
  let hi_lo := XXH_mult32to64 (Z.shiftr lhs 32) (Z.land rhs 0xFFFFFFFF) in
  let lo_hi := XXH_mult32to64 (Z.land lhs 0xFFFFFFFF) (Z.shiftr rhs 32) in
  let hi_hi := XXH_mult32to64 (Z.shiftr lhs 32) (Z.shiftr rhs 32) in
  let cross := u64 (Z.shiftr lo_lo 32 + Z.land hi_lo 0xFFFFFFFF + lo_hi) in
  let upper := u64 (Z.shiftr hi_lo 32 + Z.shiftr cross 32 + hi_hi) in
  let lower := Z.lor (u64 (Z.shiftl cross 32)) (Z.land lo_lo 0xFFFFFFFF) in
  XXH128Hash lower upper.

Definition XXH3_mul128_fold64 (lhs rhs : Z) : Z :=
  let product := XXH_mult64to128 lhs rhs in Z.lxor (low64 product) (high64 product).

Definition XXH_xorshift64 (v64 shift : Z) : Z := Z.lxor v64 (Z.shiftr v64 shift).

Definition XXH3_avalanche (h64 : Z) : Z :=
  let h64 := XXH_xorshift64 h64 37 in
  let h64 := u64 (h64 * PRIME_MX1) in
  XXH_xorshift64 h64 32.

Definition XXH3_rrmxmx (h64 len : Z) : Z :=
  let h64 := Z.lxor h64 (Z.lxor (XXH_rotl64 h64 49) (XXH_rotl64 h64 24)) in
  let h64 := u64 (h64 * PRIME_MX2) in
  let h64 := Z.lxor h64 (u64 (Z.shiftr h64 35 + len)) in
  let h64 := u64 (h64 * PRIME_MX2) in
  XXH_xorshift64 h64 28.

(** ** At most 16 bytes *)

Definition XXH3_len_1to3_64b (input : pointer) (len : Z) (secret : pointer) (seed : Z) : outcome Z :=
  _ ← XXH_ASSERT ((1 <=? len) && (len <=? 3));
  c1 ← XXH_read8 input;
  c2 ← XXH_read8 (input +! Z.shiftr len 1);
  c3 ← XXH_read8 (input +! (len - 1));
  let combined := Z.lor (Z.lor (Z.lor (u32 (Z.shiftl c1 16)) (u32 (Z.shiftl c2 24))) c3) (u32 (Z.shiftl (u32 len) 8)) in
  s0 ← XXH_readLE32 secret;
  s4 ← XXH_readLE32 (secret +! 4);
  let bitflip := u64 (Z.lxor s0 s4 + seed) in
  Done (XXH64_avalanche (Z.lxor combined bitflip)).

Definition XXH3_len_4to8_64b (input : pointer) (len : Z) (secret : pointer) (seed : Z) : outcome Z :=
  _ ← XXH_ASSERT ((4 <=? len) && (len <=? 8));
  let seed := Z.lxor seed (u64 (Z.shiftl (XXH_swap32 (u32 seed)) 32)) in
  input1 ← XXH_readLE32 input;
  input2 ← XXH_readLE32 (input +! (len - 4));
  s8 ← XXH_readLE64 (secret +! 8);
  s16 ← XXH_readLE64 (secret +! 16);
  let bitflip := u64 (Z.lxor s8 s16 - seed) in
  let input64 := u64 (input2 + u64 (Z.shiftl input1 32)) in
  Done (XXH3_rrmxmx (Z.lxor input64 bitflip) len).

Definition XXH3_len_9to16_64b (input : pointer) (len : Z) (secret : pointer) (seed : Z) : outcome Z :=
  _ ← XXH_ASSERT ((9 <=? len) && (len <=? 16));
  s24 ← XXH_readLE64 (secret +! 24);
  s32 ← XXH_readLE64 (secret +! 32);
  s40 ← XXH_readLE64 (secret +! 40);
  s48 ← XXH_readLE64 (secret +! 48);
  let bitflip1 := u64 (Z.lxor s24 s32 + seed) in
  let bitflip2 := u64 (Z.lxor s40 s48 - seed) in
  lo ← XXH_readLE64 input;
  hi ← XXH_readLE64 (input +! (len - 8));
  let input_lo := Z.lxor lo bitflip1 in
  let input_hi := Z.lxor hi bitflip2 in
  let acc := u64 (len + XXH_swap64 input_lo + input_hi + XXH3_mul128_fold64 input_lo input_hi) in
  Done (XXH3_avalanche acc).

Definition XXH3_len_0to16_64b (input : pointer) (len : Z) (secret : pointer) (seed : Z) : outcome Z :=
  _ ← XXH_ASSERT (len <=? 16);
  if len >? 8 then XXH3_len_9to16_64b input len secret seed else
  if len >=? 4 then XXH3_len_4to8_64b input len secret seed else
  if negb (len =? 0) then XXH3_len_1to3_64b input len secret seed else
  s56 ← XXH_readLE64 (secret +! 56);
  s64 ← XXH_readLE64 (secret +! 64);
  Done (XXH64_avalanche (Z.lxor seed (Z.lxor s56 s64))).

(** ** 17 to 240 bytes *)

Definition XXH3_mix16B (input secret : pointer) (seed64 : Z) : outcome Z :=
  input_lo ← XXH_readLE64 input;
  input_hi ← XXH_readLE64 (input +! 8);
  secret_lo ← XXH_readLE64 secret;
  secret_hi ← XXH_readLE64 (secret +! 8);
  Done (XXH3_mul128_fold64 (Z.lxor input_lo (u64 (secret_lo + seed64))) (Z.lxor input_hi (u64 (secret_hi - seed64)))).

(** [acc += XXH3_mix16B(input, secret, seed)] *)
Definition add_mix16B (input secret : pointer) (seed acc : Z) : outcome Z :=
  m ← XXH3_mix16B input secret seed; Done (u64 (acc + m)).

Definition XXH3_len_17to128_64b (input : pointer) (len : Z) (secret : pointer) (secretSize seed : Z) : outcome Z :=
  _ ← XXH_ASSERT (secretSize >=? XXH3_SECRET_SIZE_MIN);
  _ ← XXH_ASSERT ((16 <? len) && (len <=? 128));
  let acc := u64 (len * XXH_PRIME64_1) in
  acc ← (if len >? 32 then
    acc ← (if len >? 64 then
      acc ← (if len >? 96 then
        acc ← add_mix16B (input +! 48) (secret +! 96) seed acc;
        add_mix16B (input +! (len - 64)) (secret +! 112) seed acc
      else Done acc);
      acc ← add_mix16B (input +! 32) (secret +! 64) seed acc;
      add_mix16B (input +! (len - 48)) (secret +! 80) seed acc
    else Done acc);
    acc ← add_mix16B (input +! 16) (secret +! 32) seed acc;
    add_mix16B (input +! (len - 32)) (secret +! 48) seed acc
  else Done acc);
  acc ← add_mix16B (input +! 0) (secret +! 0) seed acc;
  acc ← add_mix16B (input +! (len - 16)) (secret +! 16) seed acc;
  Done (XXH3_avalanche acc).

(** The loop [do ... while (i-- != 0)] of the versions optimised for size. *)
Fixpoint down_to_zero {A} (i : nat) (body : Z -> A -> outcome A) (acc : A) : outcome A :=
  acc ← body (Z.of_nat i) acc;
  match i with O => Done acc | S i => down_to_zero i body acc end.

(** With [XXH_SIZE_OPT >= 1]. *)
Definition XXH3_len_17to128_64b_small (input : pointer) (len : Z) (secret : pointer) (secretSize seed : Z) : outcome Z :=
  _ ← XXH_ASSERT (secretSize >=? XXH3_SECRET_SIZE_MIN);
  _ ← XXH_ASSERT ((16 <? len) && (len <=? 128));
  let acc := u64 (len * XXH_PRIME64_1) in
  acc ← down_to_zero (Z.to_nat (u32 (len - 1) / 32)) (fun i acc =>
    acc ← add_mix16B (input +! 16 * i) (secret +! 32 * i) seed acc;
    add_mix16B (input +! (len - 16 * (i + 1))) (secret +! (32 * i + 16)) seed acc) acc;
  Done (XXH3_avalanche acc).

Definition XXH3_len_129to240_64b (input : pointer) (len : Z) (secret : pointer) (secretSize seed : Z) : outcome Z :=
  _ ← XXH_ASSERT (secretSize >=? XXH3_SECRET_SIZE_MIN);
  _ ← XXH_ASSERT ((128 <? len) && (len <=? XXH3_MIDSIZE_MAX));
  let nbRounds := u32 len / 16 in
  acc ← for_up 0 8 (fun i => add_mix16B (input +! 16 * i) (secret +! 16 * i) seed) (u64 (len * XXH_PRIME64_1));
  acc_end ← XXH3_mix16B (input +! (len - 16)) (secret +! (XXH3_SECRET_SIZE_MIN - XXH3_MIDSIZE_LASTOFFSET)) seed;
  _ ← XXH_ASSERT (nbRounds >=? 8);
  let acc := XXH3_avalanche acc in
  acc_end ← for_up 8 nbRounds (fun i =>
    add_mix16B (input +! 16 * i) (secret +! (16 * (i - 8) + XXH3_MIDSIZE_STARTOFFSET)) seed) acc_end;
  Done (XXH3_avalanche (u64 (acc + acc_end))).

(** ** 128 bits of result *)

Definition XXH3_len_1to3_128b (input : pointer) (len : Z) (secret : pointer) (seed : Z) : outcome XXH128_hash_t :=
  _ ← XXH_ASSERT ((1 <=? len) && (len <=? 3));
  c1 ← XXH_read8 input;
  c2 ← XXH_read8 (input +! Z.shiftr len 1);
  c3 ← XXH_read8 (input +! (len - 1));
  let combinedl := Z.lor (Z.lor (Z.lor (u32 (Z.shiftl c1 16)) (u32 (Z.shiftl c2 24))) c3) (u32 (Z.shiftl (u32 len) 8)) in
  let combinedh := XXH_rotl32 (XXH_swap32 combinedl) 13 in
  s0 ← XXH_readLE32 secret;
  s4 ← XXH_readLE32 (secret +! 4);
  s8 ← XXH_readLE32 (secret +! 8);
  s12 ← XXH_readLE32 (secret +! 12);
  let bitflipl := u64 (Z.lxor s0 s4 + seed) in
  let bitfliph := u64 (Z.lxor s8 s12 - seed) in
  Done (XXH128Hash (XXH64_avalanche (Z.lxor combinedl bitflipl)) (XXH64_avalanche (Z.lxor combinedh bitfliph))).

Definition XXH3_len_4to8_128b (input : pointer) (len : Z) (secret : pointer) (seed : Z) : outcome XXH128_hash_t :=
  _ ← XXH_ASSERT ((4 <=? len) && (len <=? 8));
  let seed := Z.lxor seed (u64 (Z.shiftl (XXH_swap32 (u32 seed)) 32)) in
  input_lo ← XXH_readLE32 input;
  input_hi ← XXH_readLE32 (input +! (len - 4));
  let input_64 := u64 (input_lo + u64 (Z.shiftl input_hi 32)) in
  s16 ← XXH_readLE64 (secret +! 16);
  s24 ← XXH_readLE64 (secret +! 24);
  let bitflip := u64 (Z.lxor s16 s24 + seed) in
  let keyed := Z.lxor input_64 bitflip in
  let m128 := XXH_mult64to128 keyed (u64 (XXH_PRIME64_1 + u64 (Z.shiftl len 2))) in
  let high := u64 (high64 m128 + u64 (Z.shiftl (low64 m128) 1)) in
  let low := Z.lxor (low64 m128) (Z.shiftr high 3) in
  let low := XXH_xorshift64 low 35 in
  let low := u64 (low * PRIME_MX2) in
  let low := XXH_xorshift64 low 28 in
  Done (XXH128Hash low (XXH3_avalanche high)).

(** What is added to the high half, on 32-bit machines and on others. *)
Definition high_addend_32bit (input_hi : Z) : Z :=
  u64 (Z.land input_hi 0xFFFFFFFF00000000 + XXH_mult32to64 (u32 input_hi) XXH_PRIME32_2).
Definition high_addend_64bit (input_hi : Z) : Z :=
  u64 (input_hi + XXH_mult32to64 (u32 input_hi) (XXH_PRIME32_2 - 1)).

Definition XXH3_len_9to16_128b (input : pointer) (len : Z) (secret : pointer) (seed : Z) : outcome XXH128_hash_t :=
  _ ← XXH_ASSERT ((9 <=? len) && (len <=? 16));
  s32 ← XXH_readLE64 (secret +! 32);
  s40 ← XXH_readLE64 (secret +! 40);
  s48 ← XXH_readLE64 (secret +! 48);
  s56 ← XXH_readLE64 (secret +! 56);
  let bitflipl := u64 (Z.lxor s32 s40 - seed) in
  let bitfliph := u64 (Z.lxor s48 s56 + seed) in
  input_lo ← XXH_readLE64 input;
  input_hi ← XXH_readLE64 (input +! (len - 8));
  let m128 := XXH_mult64to128 (Z.lxor (Z.lxor input_lo input_hi) bitflipl) XXH_PRIME64_1 in
  let low := u64 (low64 m128 + u64 (Z.shiftl (len - 1) 54)) in
  let input_hi := Z.lxor input_hi bitfliph in
  let high := u64 (high64 m128 + high_addend_64bit input_hi) in
  let low := Z.lxor low (XXH_swap64 high) in
  let h128 := XXH_mult64to128 low XXH_PRIME64_2 in
  let h128_high := u64 (high64 h128 + u64 (high * XXH_PRIME64_2)) in
  Done (XXH128Hash (XXH3_avalanche (low64 h128)) (XXH3_avalanche h128_high)).

Definition XXH3_len_0to16_128b (input : pointer) (len : Z) (secret : pointer) (seed : Z) : outcome XXH128_hash_t :=
  _ ← XXH_ASSERT (len <=? 16);
  if len >? 8 then XXH3_len_9to16_128b input len secret seed else
  if len >=? 4 then XXH3_len_4to8_128b input len secret seed else
  if negb (len =? 0) then XXH3_len_1to3_128b input len secret seed else
  s64 ← XXH_readLE64 (secret +! 64);
  s72 ← XXH_readLE64 (secret +! 72);
  s80 ← XXH_readLE64 (secret +! 80);
  s88 ← XXH_readLE64 (secret +! 88);
  Done (XXH128Hash (XXH64_avalanche (Z.lxor seed (Z.lxor s64 s72))) (XXH64_avalanche (Z.lxor seed (Z.lxor s80 s88)))).

Definition XXH128_mix32B (acc : XXH128_hash_t) (input_1 input_2 secret : pointer) (seed : Z) : outcome XXH128_hash_t :=
  low ← add_mix16B input_1 (secret +! 0) seed (low64 acc);
  i2_lo ← XXH_readLE64 input_2;
  i2_hi ← XXH_readLE64 (input_2 +! 8);
  let low := Z.lxor low (u64 (i2_lo + i2_hi)) in
  high ← add_mix16B input_2 (secret +! 16) seed (high64 acc);
  i1_lo ← XXH_readLE64 input_1;
  i1_hi ← XXH_readLE64 (input_1 +! 8);
  let high := Z.lxor high (u64 (i1_lo + i1_hi)) in
  Done (XXH128Hash low high).

(** The end of both functions for 17 to 240 bytes. *)
Definition finish_128b (acc : XXH128_hash_t) (len seed : Z) : XXH128_hash_t :=
  let low := u64 (low64 acc + high64 acc) in
  let high := u64 (u64 (low64 acc * XXH_PRIME64_1) + u64 (high64 acc * XXH_PRIME64_4)
                   + u64 (u64 (len - seed) * XXH_PRIME64_2)) in
  XXH128Hash (XXH3_avalanche low) (u64 (0 - XXH3_avalanche high)).

Definition XXH3_len_17to128_128b (input : pointer) (len : Z) (secret : pointer) (secretSize seed : Z) : outcome XXH128_hash_t :=
  _ ← XXH_ASSERT (secretSize >=? XXH3_SECRET_SIZE_MIN);
  _ ← XXH_ASSERT ((16 <? len) && (len <=? 128));
  let acc := XXH128Hash (u64 (len * XXH_PRIME64_1)) 0 in
  acc ← (if len >? 32 then
    acc ← (if len >? 64 then
      acc ← (if len >? 96 then XXH128_mix32B acc (input +! 48) (input +! (len - 64)) (secret +! 96) seed else Done acc);
      XXH128_mix32B acc (input +! 32) (input +! (len - 48)) (secret +! 64) seed
    else Done acc);
    XXH128_mix32B acc (input +! 16) (input +! (len - 32)) (secret +! 32) seed
  else Done acc);
  acc ← XXH128_mix32B acc input (input +! (len - 16)) secret seed;
  Done (finish_128b acc len seed).

(** With [XXH_SIZE_OPT >= 1]. *)
Definition XXH3_len_17to128_128b_small (input : pointer) (len : Z) (secret : pointer) (secretSize seed : Z) : outcome XXH128_hash_t :=
  _ ← XXH_ASSERT (secretSize >=? XXH3_SECRET_SIZE_MIN);
  _ ← XXH_ASSERT ((16 <? len) && (len <=? 128));
  let acc := XXH128Hash (u64 (len * XXH_PRIME64_1)) 0 in
  acc ← down_to_zero (Z.to_nat (u32 (len - 1) / 32)) (fun i acc =>
    XXH128_mix32B acc (input +! 16 * i) (input +! (len - 16 * (i + 1))) (secret +! 32 * i) seed) acc;
  Done (finish_128b acc len seed).

(** The loops count [i] from 32 in steps of 32; here [k] is the number of the step. *)
Definition XXH3_len_129to240_128b (input : pointer) (len : Z) (secret : pointer) (secretSize seed : Z) : outcome XXH128_hash_t :=
  _ ← XXH_ASSERT (secretSize >=? XXH3_SECRET_SIZE_MIN);
  _ ← XXH_ASSERT ((128 <? len) && (len <=? XXH3_MIDSIZE_MAX));
  acc ← for_up 1 5 (fun k acc => let i := 32 * k in
    XXH128_mix32B acc (input +! (i - 32)) (input +! (i - 16)) (secret +! (i - 32)) seed)
    (XXH128Hash (u64 (len * XXH_PRIME64_1)) 0);
  let acc := XXH128Hash (XXH3_avalanche (low64 acc)) (XXH3_avalanche (high64 acc)) in
  acc ← for_up 5 (len / 32 + 1) (fun k acc => let i := 32 * k in
    XXH128_mix32B acc (input +! (i - 32)) (input +! (i - 16))
      (secret +! (XXH3_MIDSIZE_STARTOFFSET + i - 160)) seed) acc;
  acc ← XXH128_mix32B acc (input +! (len - 16)) (input +! (len - 32))
    (secret +! (XXH3_SECRET_SIZE_MIN - XXH3_MIDSIZE_LASTOFFSET - 16)) (u64 (0 - seed));
  Done (finish_128b acc len seed).
