(* ===== verification/Xxh3Theorems.v ===== *)
(** * XXH3: primitives and short inputs, theorems

    What the functions of [Xxh3] read ([holds] and [determined]), the round trip of
    canonical forms, the portable multiplication and byte swaps, and the two ways
    to hash 17 to 128 bytes. *)
From S2P Require Import Prelude Xxhash Xxh3.

Definition lane64 (x : Z) : Prop := 0 <= x < 2 ^ 64.
#[export] Instance lane64_dec x : Decision (lane64 x).
Proof. unfold lane64. apply _. Defined.

Lemma u64_lane x : lane64 (u64 x).
Proof. apply wrap_bound. lia. Qed.

Lemma lxor_lane x y : lane64 x -> lane64 y -> lane64 (Z.lxor x y).
Proof. apply lxor_bound. lia. Qed.

Lemma shiftr_lane x k : lane64 x -> 0 <= k -> lane64 (Z.shiftr x k).
Proof.
  intros [H0 H1] Hk. split; [apply Z.shiftr_nonneg; lia|].
  rewrite Z.shiftr_div_pow2 by lia. pose proof (pow2_pos k Hk).
  eapply Z.le_lt_trans; [apply Z.div_le_upper_bound with (q := x)|exact H1]; nia.
Qed.

Lemma xorshift_lane x k : lane64 x -> 0 <= k -> lane64 (XXH_xorshift64 x k).
Proof. intros. apply lxor_lane; auto using shiftr_lane. Qed.

Lemma avalanche_lane x : lane64 (XXH3_avalanche x).
Proof. apply xorshift_lane; [apply u64_lane|lia]. Qed.

Lemma rrmxmx_lane x len : lane64 (XXH3_rrmxmx x len).
Proof. apply xorshift_lane; [apply u64_lane|lia]. Qed.

Lemma XXH64_avalanche_lane x : lane64 (XXH64_avalanche x).
Proof. apply (xorshift_lane _ 32); [apply u64_lane|lia]. Qed.

Lemma mul128_fold64_lane x y : lane64 (XXH3_mul128_fold64 x y).
Proof. apply lxor_lane; apply u64_lane. Qed.

Definition hash128 (h : XXH128_hash_t) : Prop := lane64 (low64 h) /\ lane64 (high64 h).

Create HintDb xxh.
#[export] Hint Resolve u64_lane lxor_lane avalanche_lane rrmxmx_lane XXH64_avalanche_lane mul128_fold64_lane : xxh.
#[export] Hint Extern 1 (hash128 _) => split; cbn [low64 high64] : xxh.
#[export] Hint Extern 1 (lane64 (Z.shiftr _ _)) => apply shiftr_lane; [|lia] : xxh.
#[export] Hint Extern 1 (lane64 (XXH_xorshift64 _ _)) => apply xorshift_lane; [|lia] : xxh.

(** ** What is at a pointer

    [holds p bs]: [p] is into its block, or at its end, and the bytes from [p] on are
    [bs], and perhaps more. *)

Definition holds (p : pointer) (bs : list Z) : Prop :=
  0 <= index p <= Z.of_nat (length (block p)) /\ exists post, drop (Z.to_nat (index p)) (block p) = bs ++ post.

Lemma holds_start bs : holds (start bs) bs.
Proof. split; [cbn; lia|]. exists []. by rewrite app_nil_r. Qed.

Lemma holds_app_l p bs cs : holds p (bs ++ cs) -> holds p bs.
Proof. intros (Hi & post & E). split; [done|]. exists (cs ++ post). by rewrite app_assoc. Qed.

Lemma holds_take p n bs : holds p bs -> holds p (take n bs).
Proof. intros H. rewrite <- (take_drop n bs) in H. by apply holds_app_l in H. Qed.

Lemma holds_length p bs : holds p bs -> index p + Z.of_nat (length bs) <= Z.of_nat (length (block p)).
Proof.
  intros (Hi & post & E). apply (f_equal length) in E. rewrite length_drop, length_app in E. lia.
Qed.

Lemma holds_drop p k bs : 0 <= k <= Z.of_nat (length bs) -> holds p bs -> holds (p +! k) (drop (Z.to_nat k) bs).
Proof.
  intros Hk H. pose proof (holds_length _ _ H). destruct H as (Hi & post & E). split; [cbn; lia|]. exists post. cbn.
  rewrite Z2Nat.inj_add by lia. rewrite <- drop_drop, E, drop_app_le by lia. done.
Qed.

Lemma advance_0 p : p +! 0 = p.
Proof. destruct p. unfold advance. cbn. by rewrite Z.add_0_r. Qed.

Lemma advance_advance p j k : p +! j +! k = p +! (j + k).
Proof. unfold advance. cbn. f_equal. lia. Qed.

Lemma load_holds n p bs k :
  holds p bs -> (0 < n)%nat -> 0 <= k -> k + Z.of_nat n <= Z.of_nat (length bs) ->
  load_le n (block (p +! k)) (index (p +! k)) = Some (bytes_at n bs k).
Proof.
  intros H Hn Hk Hl. pose proof (holds_length _ _ H). destruct H as (Hi & post & E). cbn [advance block index].
  rewrite load_le_some by lia. f_equal. unfold bytes_at. f_equal.
  rewrite Z2Nat.inj_add, <- drop_drop, E, drop_app_le, take_app_le by (try rewrite length_drop; lia). done.
Qed.

Lemma read64_holds p bs k :
  holds p bs -> 0 <= k -> k + 8 <= Z.of_nat (length bs) -> XXH_readLE64 (p +! k) = Done (bytes_at 8 bs k).
Proof. intros. unfold XXH_readLE64. by rewrite (load_holds 8 p bs) by (auto; lia). Qed.

Lemma read32_holds p bs k :
  holds p bs -> 0 <= k -> k + 4 <= Z.of_nat (length bs) -> XXH_readLE32 (p +! k) = Done (bytes_at 4 bs k).
Proof. intros. unfold XXH_readLE32. by rewrite (load_holds 4 p bs) by (auto; lia). Qed.

Lemma read8_holds p bs k :
  holds p bs -> 0 <= k < Z.of_nat (length bs) -> XXH_read8 (p +! k) = Done (bytes_at 1 bs k).
Proof.
  intros H Hk. unfold XXH_read8. pose proof (holds_length _ _ H).
  rewrite byte_at_bytes by (destruct H; cbn; lia).
  pose proof (load_holds 1 p bs k H ltac:(lia) ltac:(lia) ltac:(lia)) as L.
  rewrite load_le_some in L by (destruct H; cbn; lia). by injection L as <-.
Qed.

(** ** Functions of what is at their pointers

    [determined Q f]: the result of [f] is defined, has [Q], and is the same
    wherever the bytes [bs] of the input and [ks] of the secret are. *)

Section Determined.
Context (bs ks : list Z).

Definition determined {A} (Q : A -> Prop) (f : pointer -> pointer -> outcome A) : Prop :=
  exists a, Q a /\ forall input secret, holds input bs -> holds secret ks -> f input secret = Done a.

Lemma det_ret {A} (Q : A -> Prop) a : Q a -> determined Q (fun _ _ => Done a).
Proof. intros H. exists a. auto. Qed.

Lemma det_bind {A B} (P : A -> Prop) (Q : B -> Prop) f (g : pointer -> pointer -> A -> outcome B) :
  determined P f -> (forall a, P a -> determined Q (fun i s => g i s a)) ->
  determined Q (fun i s => f i s ≫= g i s).
Proof.
  intros (a & Ha & Ef) Hg. destruct (Hg a Ha) as (b & Hb & Eg). exists b. split; [done|].
  intros i s Hi Hs. rewrite (Ef i s Hi Hs). by apply Eg.
Qed.

Lemma det_weaken {A} (P Q : A -> Prop) f : (forall a, P a -> Q a) -> determined P f -> determined Q f.
Proof. intros H (a & Ha & E). exists a. auto. Qed.

Lemma det_assert {B} (Q : B -> Prop) c (g : pointer -> pointer -> unit -> outcome B) :
  c = true -> determined Q (fun i s => g i s tt) -> determined Q (fun i s => XXH_ASSERT c ≫= g i s).
Proof. intros -> H. exact H. Qed.

Lemma det_loop {A} (Q : A -> Prop) a b (body : pointer -> pointer -> Z -> A -> outcome A) x :
  Q x -> (forall j y, a <= j < b -> Q y -> determined Q (fun i s => body i s j y)) ->
  determined Q (fun i s => for_up a b (body i s) x).
Proof.
  unfold for_up. intros Hx Hb.
  assert (G : forall n i y, a <= i -> i + Z.of_nat n <= Z.max a b -> Q y ->
    determined Q (fun input s => for_loop n i (body input s) y)).
  { induction n as [|n IH]; intros i y Hi Hn Hy; [by apply det_ret|]. cbn [for_loop].
    apply (det_bind Q); [apply Hb; [lia|done]|]. intros y' Hy'. apply IH; [lia..|done]. }
  apply G; [lia|lia|done].
Qed.

Context (Hb : Forall byte_range bs) (Hk : Forall byte_range ks).

Lemma bytes_at_lane l k : Forall byte_range l -> lane64 (bytes_at 8 l k).
Proof. intros H. exact (bytes_at_bound 8 l k H). Qed.

Lemma bytes_at_lane32 l k : Forall byte_range l -> lane64 (bytes_at 4 l k).
Proof. intros H. pose proof (bytes_at_bound 4 l k H). unfold lane64. lia. Qed.

Lemma bytes_at_lane8 l k : Forall byte_range l -> lane64 (bytes_at 1 l k).
Proof. intros H. pose proof (bytes_at_bound 1 l k H). unfold lane64. lia. Qed.

Lemma det_input64 k : 0 <= k -> k + 8 <= Z.of_nat (length bs) -> determined lane64 (fun i _ => XXH_readLE64 (i +! k)).
Proof. exists (bytes_at 8 bs k). split; [by apply bytes_at_lane|]. intros; by apply read64_holds. Qed.

Lemma det_secret64 k : 0 <= k -> k + 8 <= Z.of_nat (length ks) -> determined lane64 (fun _ s => XXH_readLE64 (s +! k)).
Proof. exists (bytes_at 8 ks k). split; [by apply bytes_at_lane|]. intros; by apply read64_holds. Qed.

Lemma det_input32 k : 0 <= k -> k + 4 <= Z.of_nat (length bs) -> determined lane64 (fun i _ => XXH_readLE32 (i +! k)).
Proof. exists (bytes_at 4 bs k). split; [by apply bytes_at_lane32|]. intros; by apply read32_holds. Qed.

Lemma det_secret32 k : 0 <= k -> k + 4 <= Z.of_nat (length ks) -> determined lane64 (fun _ s => XXH_readLE32 (s +! k)).
Proof. exists (bytes_at 4 ks k). split; [by apply bytes_at_lane32|]. intros; by apply read32_holds. Qed.

Lemma det_input8 k : 0 <= k -> k + 1 <= Z.of_nat (length bs) -> determined lane64 (fun i _ => XXH_read8 (i +! k)).
Proof. exists (bytes_at 1 bs k). split; [by apply bytes_at_lane8|]. intros; apply read8_holds; [done|lia]. Qed.

(** Reads at the pointer itself. *)
Lemma det_input_0 {A} (Q : A -> Prop) (f : pointer -> outcome A) :
  determined Q (fun i _ => f (i +! 0)) -> determined Q (fun i _ => f i).
Proof. intros (a & Ha & E). exists a. split; [done|]. intros i s Hi Hs. rewrite <- (E i s Hi Hs). by rewrite advance_0. Qed.

Lemma det_secret_0 {A} (Q : A -> Prop) (f : pointer -> outcome A) :
  determined Q (fun _ s => f (s +! 0)) -> determined Q (fun _ s => f s).
Proof. intros (a & Ha & E). exists a. split; [done|]. intros i s Hi Hs. rewrite <- (E i s Hi Hs). by rewrite advance_0. Qed.

End Determined.

Lemma det_at {A} bs ks j k (Q : A -> Prop) f :
  0 <= j <= Z.of_nat (length bs) -> 0 <= k <= Z.of_nat (length ks) ->
  determined (drop (Z.to_nat j) bs) (drop (Z.to_nat k) ks) Q f ->
  determined bs ks Q (fun i s => f (i +! j) (s +! k)).
Proof.
  intros Hj Hk (a & Ha & E). exists a. split; [done|].
  intros i s Hi Hs. apply E; by apply holds_drop.
Qed.

(** One step of a function: a read, an assertion, a test or the result. *)
Ltac det_read :=
  first [apply det_input64 | apply det_secret64 | apply det_input32 | apply det_secret32 | apply det_input8
        |apply (det_input_0 _ _ _ XXH_readLE64), det_input64 | apply (det_secret_0 _ _ _ XXH_readLE64), det_secret64
        |apply (det_input_0 _ _ _ XXH_readLE32), det_input32 | apply (det_secret_0 _ _ _ XXH_readLE32), det_secret32
        |apply (det_input_0 _ _ _ XXH_read8), det_input8]; [assumption..|lia|try lia].
Ltac det_step :=
  lazymatch goal with
  | |- determined _ _ _ (fun i s => XXH_ASSERT _ ≫= _) =>
      apply det_assert; [repeat (apply andb_true_intro; split); lia|]
  | |- determined _ _ _ (fun i s => _ ≫= _) => eapply det_bind; [det_read|intros ? ?]
  | |- determined _ _ _ (fun i s => Done _) => apply det_ret; eauto 12 with xxh
  end.

Section Short.
Context (bs ks : list Z) (Hb : Forall byte_range bs) (Hk : Forall byte_range ks).
Context (seed : Z) (Hseed : lane64 seed).
Let len := Z.of_nat (length bs).
Let secretSize := Z.of_nat (length ks).
Context (Hsize : 136 <= secretSize).

Lemma len_1to3_64b_det :
  1 <= len <= 3 -> determined bs ks lane64 (fun i s => XXH3_len_1to3_64b i len s seed).
Proof.
  intros Hl. subst len secretSize. assert (Z.shiftr (Z.of_nat (length bs)) 1 < Z.of_nat (length bs)).
  { rewrite Z.shiftr_div_pow2 by lia. pow2_norm. zdiv_lia. }
  pose proof (proj2 (Z.shiftr_nonneg (Z.of_nat (length bs)) 1) ltac:(lia)).
  unfold XXH3_len_1to3_64b. repeat det_step.
Qed.

Lemma len_4to8_64b_det :
  4 <= len <= 8 -> determined bs ks lane64 (fun i s => XXH3_len_4to8_64b i len s seed).
Proof. intros Hl. subst len secretSize. unfold XXH3_len_4to8_64b. repeat det_step. Qed.

Lemma len_9to16_64b_det :
  9 <= len <= 16 -> determined bs ks lane64 (fun i s => XXH3_len_9to16_64b i len s seed).
Proof. intros Hl. subst len secretSize. unfold XXH3_len_9to16_64b. repeat det_step. Qed.

Lemma len_0to16_64b_det :
  len <= 16 -> determined bs ks lane64 (fun i s => XXH3_len_0to16_64b i len s seed).
Proof.
  intros Hl. unfold XXH3_len_0to16_64b. det_step.
  destruct (Z.gtb_spec len 8); [apply len_9to16_64b_det; lia|].
  destruct (Z.geb_spec len 4); [apply len_4to8_64b_det; lia|].
  destruct (Z.eqb_spec len 0); cbn [negb]; [|apply len_1to3_64b_det; subst len; lia].
  subst secretSize. repeat det_step.
Qed.

Lemma mix16B_det j k sd :
  0 <= j -> j + 16 <= len -> 0 <= k -> k + 16 <= secretSize ->
  determined bs ks lane64 (fun i s => XXH3_mix16B (i +! j) (s +! k) sd).
Proof.
  intros. subst len secretSize.
  apply (det_at _ _ j k _ (fun i s => XXH3_mix16B i s sd)); [lia..|]. unfold XXH3_mix16B.
  assert (Forall byte_range (drop (Z.to_nat j) bs)) by by apply Forall_drop.
  assert (Forall byte_range (drop (Z.to_nat k) ks)) by by apply Forall_drop.
  pose proof (length_drop bs (Z.to_nat j)). pose proof (length_drop ks (Z.to_nat k)).
  repeat det_step.
Qed.

Lemma add_mix16B_det j k sd acc :
  0 <= j -> j + 16 <= len -> 0 <= k -> k + 16 <= secretSize ->
  determined bs ks lane64 (fun i s => add_mix16B (i +! j) (s +! k) sd acc).
Proof.
  intros. unfold add_mix16B. eapply det_bind; [by apply mix16B_det|].
  intros m Hm. det_step.
Qed.

(** A sequence of mixings, none of which leaves the input or the secret. *)
Ltac mix_step :=
  lazymatch goal with
  | |- determined _ _ _ (fun i s => Done _) => apply det_ret; eauto 12 with xxh
  | |- determined _ _ _ (fun i s => XXH_ASSERT _ ≫= _) => det_step
  | |- determined _ _ _ (fun i s => (if ?c then _ else _) ≫= _) =>
      eapply (det_bind _ _ lane64); [destruct c eqn:?|intros ? ?]
  | |- determined _ _ _ (fun i s => add_mix16B _ _ _ _ ≫= _) =>
      eapply det_bind; [apply add_mix16B_det; lia|intros ? ?]
  | |- determined _ _ _ (fun i s => add_mix16B _ _ _ _) => apply add_mix16B_det; lia
  end.

Lemma len_17to128_64b_det :
  16 < len <= 128 -> determined bs ks lane64 (fun i s => XXH3_len_17to128_64b i len s secretSize seed).
Proof. intros Hl. unfold XXH3_len_17to128_64b, XXH3_SECRET_SIZE_MIN. repeat mix_step. Qed.

Lemma len_129to240_64b_det :
  128 < len <= 240 -> determined bs ks lane64 (fun i s => XXH3_len_129to240_64b i len s secretSize seed).
Proof.
  intros Hl. unfold XXH3_len_129to240_64b, XXH3_SECRET_SIZE_MIN, XXH3_MIDSIZE_MAX, XXH3_MIDSIZE_LASTOFFSET, XXH3_MIDSIZE_STARTOFFSET.
  rewrite wrap_small by (pow2_norm; lia). repeat mix_step. cbv zeta.
  assert (8 <= len / 16 /\ len / 16 * 16 <= len) by zdiv_lia.
  eapply det_bind; [apply (det_loop _ _ lane64); [apply u64_lane|intros; apply add_mix16B_det; lia]|intros acc Hacc].
  eapply det_bind; [apply mix16B_det; lia|intros acc_end Hend]. mix_step.
  eapply det_bind; [apply (det_loop _ _ lane64); [done|intros; apply add_mix16B_det; lia]|intros ? ?]. mix_step.
Qed.

(** *** 128 bits *)

Lemma len_1to3_128b_det :
  1 <= len <= 3 -> determined bs ks hash128 (fun i s => XXH3_len_1to3_128b i len s seed).
Proof.
  intros Hl. subst len secretSize. assert (Z.shiftr (Z.of_nat (length bs)) 1 < Z.of_nat (length bs)).
  { rewrite Z.shiftr_div_pow2 by lia. pow2_norm. zdiv_lia. }
  pose proof (proj2 (Z.shiftr_nonneg (Z.of_nat (length bs)) 1) ltac:(lia)).
  unfold XXH3_len_1to3_128b. repeat det_step.
Qed.

Lemma len_4to8_128b_det :
  4 <= len <= 8 -> determined bs ks hash128 (fun i s => XXH3_len_4to8_128b i len s seed).
Proof. intros Hl. subst len secretSize. unfold XXH3_len_4to8_128b. repeat det_step. Qed.

Lemma len_9to16_128b_det :
  9 <= len <= 16 -> determined bs ks hash128 (fun i s => XXH3_len_9to16_128b i len s seed).
Proof. intros Hl. subst len secretSize. unfold XXH3_len_9to16_128b. repeat det_step. Qed.

Lemma len_0to16_128b_det :
  len <= 16 -> determined bs ks hash128 (fun i s => XXH3_len_0to16_128b i len s seed).
Proof.
  intros Hl. unfold XXH3_len_0to16_128b. det_step.
  destruct (Z.gtb_spec len 8); [apply len_9to16_128b_det; lia|].
  destruct (Z.geb_spec len 4); [apply len_4to8_128b_det; lia|].
  destruct (Z.eqb_spec len 0); cbn [negb]; [|apply len_1to3_128b_det; subst len; lia].
  subst secretSize. repeat det_step.
Qed.

Lemma mix32B_det acc j1 j2 k sd :
  hash128 acc -> 0 <= j1 -> j1 + 16 <= len -> 0 <= j2 -> j2 + 16 <= len -> 0 <= k -> k + 32 <= secretSize ->
  determined bs ks hash128 (fun i s => XXH128_mix32B acc (i +! j1) (i +! j2) (s +! k) sd).
Proof.
  intros (Hlow & Hhigh) H1 H1' H2 H2' H3 H3'. unfold XXH128_mix32B.
  assert (D : forall j, 0 <= j -> j + 8 <= len -> determined bs ks lane64 (fun i _ => XXH_readLE64 (i +! j))).
  { intros. apply det_input64; [done|lia..]. }
  assert (D8 : forall j, 0 <= j -> j + 16 <= len -> determined bs ks lane64 (fun i _ => XXH_readLE64 (i +! j +! 8))).
  { intros j Hj Hl. destruct (D (j + 8)) as (a & Ha & E); [lia..|]. exists a. split; [done|].
    intros. rewrite advance_advance. eauto. }
  assert (M : forall j d y, 0 <= j -> j + 16 <= len -> 0 <= d <= 16 ->
      determined bs ks lane64 (fun i s => add_mix16B (i +! j) (s +! k +! d) sd y)).
  { intros j d y Hj Hl Hd. destruct (add_mix16B_det j (k + d) sd y) as (a & Ha & E); [lia..|]. exists a.
    split; [done|]. intros. rewrite advance_advance. eauto. }
  eapply det_bind; [apply M; lia|intros low ?].
  eapply det_bind; [apply D; lia|intros ? ?]. eapply det_bind; [apply D8; lia|intros ? ?]. cbv zeta.
  eapply det_bind; [apply M; lia|intros high ?].
  eapply det_bind; [apply D; lia|intros ? ?]. eapply det_bind; [apply D8; lia|intros ? ?]. det_step.
Qed.

Lemma finish_hash128 acc n sd : hash128 (finish_128b acc n sd).
Proof. unfold finish_128b. eauto with xxh. Qed.

(** The pointer itself is its advance by nothing. *)
Ltac mix32_step :=
  lazymatch goal with
  | |- determined _ _ _ (fun i s => Done _) =>
      first [apply det_ret; first [apply finish_hash128 | assumption]|det_step]
  | |- determined _ _ _ (fun i s => XXH_ASSERT _ ≫= _) => det_step
  | |- determined _ _ _ (fun i s => (if ?c then _ else _) ≫= _) =>
      eapply (det_bind _ _ hash128); [destruct c eqn:?|intros ? ?]
  | |- determined _ _ _ (fun i s => XXH128_mix32B _ _ _ _ _ ≫= _) =>
      eapply det_bind; [apply mix32B_det; first [assumption|lia]|intros ? ?]
  | |- determined _ _ _ (fun i s => XXH128_mix32B _ _ _ _ _) => apply mix32B_det; first [assumption|lia]
  end.

Lemma len_17to128_128b_det :
  16 < len <= 128 -> determined bs ks hash128 (fun i s => XXH3_len_17to128_128b i len s secretSize seed).
Proof.
  intros Hl. unfold XXH3_len_17to128_128b, XXH3_SECRET_SIZE_MIN.
  assert (H0 : hash128 (XXH128Hash (u64 (len * XXH_PRIME64_1)) 0)).
  { split; [apply u64_lane|]. unfold lane64. cbn. lia. }
  mix32_step. mix32_step. cbv zeta. mix32_step; [repeat mix32_step..|].
  eapply det_bind; [|intros; mix32_step].
  destruct (mix32B_det a 0 (len - 16) 0 seed) as (r & Hr & E); [assumption|lia..|]. exists r. split; [done|].
  intros i s Hi Hs. rewrite <- (E i s Hi Hs). by rewrite !advance_0.
Qed.

Lemma len_129to240_128b_det :
  128 < len <= 240 -> determined bs ks hash128 (fun i s => XXH3_len_129to240_128b i len s secretSize seed).
Proof.
  intros Hl.
  unfold XXH3_len_129to240_128b, XXH3_SECRET_SIZE_MIN, XXH3_MIDSIZE_MAX, XXH3_MIDSIZE_LASTOFFSET, XXH3_MIDSIZE_STARTOFFSET.
  mix32_step. mix32_step. cbv zeta. assert (4 <= len / 32 /\ len / 32 * 32 <= len) by zdiv_lia.
  eapply det_bind; [apply (det_loop _ _ hash128)|intros acc [Hlow Hhigh]].
  { split; [apply u64_lane|]. unfold lane64. cbn. lia. }
  { intros k acc Hk' Hacc. mix32_step. }
  eapply det_bind; [apply (det_loop _ _ hash128)|intros acc' Hacc].
  { eauto with xxh. }
  { intros k acc' Hk' Hacc. mix32_step. }
  repeat mix32_step.
Qed.

End Short.

(** ** The optimised functions and the plain ones *)

Lemma bind_assoc {A B C} (m : outcome A) (f : A -> outcome B) (g : B -> outcome C) :
  (m ≫= f) ≫= g = m ≫= (fun a => f a ≫= g).
Proof. by destruct m. Qed.

(** The number of rounds of the loops, by the length. *)
Lemma rounds_17to128 len :
  16 < len <= 128 ->
  Z.to_nat (u32 (len - 1) / 32) = if len >? 96 then 3%nat else if len >? 64 then 2%nat else if len >? 32 then 1%nat else 0%nat.
Proof.
  intros Hl. rewrite wrap_small by (pow2_norm; lia).
  destruct (Z.gtb_spec len 96); [replace ((len - 1) / 32) with 3 by zdiv_lia; done|].
  destruct (Z.gtb_spec len 64); [replace ((len - 1) / 32) with 2 by zdiv_lia; done|].
  destruct (Z.gtb_spec len 32); [replace ((len - 1) / 32) with 1 by zdiv_lia; done|].
  replace ((len - 1) / 32) with 0 by zdiv_lia. done.
Qed.

(** Two functions with the same steps, however their binds are nested. *)
Ltac same_steps :=
  repeat (repeat first [rewrite bind_assoc|rewrite bind_done]; lazymatch goal with
    | |- ?m ≫= _ = ?m' ≫= _ =>
        replace m' with m by first [reflexivity|cbn [Z.of_nat Z.mul]; rewrite !advance_0; reflexivity];
        destruct m; [rewrite !bind_done|reflexivity..]
    end); reflexivity.

Lemma len_17to128_64b_small_eq input len secret secretSize seed :
  XXH3_len_17to128_64b_small input len secret secretSize seed = XXH3_len_17to128_64b input len secret secretSize seed.
Proof.
  unfold XXH3_len_17to128_64b_small, XXH3_len_17to128_64b.
  destruct (secretSize >=? XXH3_SECRET_SIZE_MIN); [|done]. destruct ((16 <? len) && (len <=? 128)) eqn:E; [|done].
  apply andb_prop in E as [E1 E2]. rewrite rounds_17to128 by lia. cbn [XXH_ASSERT]. rewrite !bind_done. cbv zeta.
  destruct (Z.gtb_spec len 96), (Z.gtb_spec len 64), (Z.gtb_spec len 32); try lia; cbn [down_to_zero]; same_steps.
Qed.

Lemma len_17to128_128b_small_eq input len secret secretSize seed :
  XXH3_len_17to128_128b_small input len secret secretSize seed = XXH3_len_17to128_128b input len secret secretSize seed.
Proof.
  unfold XXH3_len_17to128_128b_small, XXH3_len_17to128_128b.
  destruct (secretSize >=? XXH3_SECRET_SIZE_MIN); [|done]. destruct ((16 <? len) && (len <=? 128)) eqn:E; [|done].
  apply andb_prop in E as [E1 E2]. rewrite rounds_17to128 by lia. cbn [XXH_ASSERT]. rewrite !bind_done. cbv zeta.
  destruct (Z.gtb_spec len 96), (Z.gtb_spec len 64), (Z.gtb_spec len 32); try lia; cbn [down_to_zero]; same_steps.
Qed.

(** *** Multiplication *)

Lemma low_half x : Z.land x 0xFFFFFFFF = x mod 2 ^ 32.
Proof. exact (Z.land_ones x 32 ltac:(lia)). Qed.

Lemma high_half x : Z.shiftr x 32 = x / 2 ^ 32.
Proof. apply Z.shiftr_div_pow2. lia. Qed.

Lemma mult32to64_small x y : 0 <= x < 2 ^ 32 -> 0 <= y < 2 ^ 32 -> XXH_mult32to64 x y = x * y.
Proof. intros. unfold XXH_mult32to64. rewrite !(wrap_small 32) by lia. apply wrap_small. pow2_norm. nia. Qed.

(** The sums of the grade-school multiplication, none of which overflows. *)
Lemma grade_school a1 a0 b1 b0 :
  0 <= a1 < 2 ^ 32 -> 0 <= a0 < 2 ^ 32 -> 0 <= b1 < 2 ^ 32 -> 0 <= b0 < 2 ^ 32 ->
  let cross := (a0 * b0) / 2 ^ 32 + (a1 * b0) mod 2 ^ 32 + a0 * b1 in
  let upper := (a1 * b0) / 2 ^ 32 + cross / 2 ^ 32 + a1 * b1 in
  0 <= cross < 2 ^ 64 /\ 0 <= upper < 2 ^ 64
  /\ (a1 * 2 ^ 32 + a0) * (b1 * 2 ^ 32 + b0)
     = upper * 2 ^ 64 + (cross mod 2 ^ 32) * 2 ^ 32 + (a0 * b0) mod 2 ^ 32.
Proof.
  intros Ha1 Ha0 Hb1 Hb0 cross upper. change (2 ^ 64) with (2 ^ 32 * 2 ^ 32). set (M := 2 ^ 32) in *.
  assert (HM : M = 4294967296) by reflexivity.
  pose proof (Z.div_mod (a0 * b0) M ltac:(lia)) as E1. pose proof (Z.mod_pos_bound (a0 * b0) M ltac:(lia)).
  pose proof (Z.div_mod (a1 * b0) M ltac:(lia)) as E2. pose proof (Z.mod_pos_bound (a1 * b0) M ltac:(lia)).
  pose proof (Z.div_mod cross M ltac:(lia)) as E3. pose proof (Z.mod_pos_bound cross M ltac:(lia)).
  assert (0 <= a0 * b0 <= (M - 1) * (M - 1)) by nia. assert (0 <= a1 * b0 <= (M - 1) * (M - 1)) by nia.
  assert (0 <= a0 * b1 <= (M - 1) * (M - 1)) by nia. assert (0 <= a1 * b1 <= (M - 1) * (M - 1)) by nia.
  assert (0 <= a0 * b0 / M <= M - 2) by (split; [apply Z.div_pos; lia|]; apply Z.lt_succ_r, Z.div_lt_upper_bound; nia).
  assert (0 <= a1 * b0 / M <= M - 2) by (split; [apply Z.div_pos; lia|]; apply Z.lt_succ_r, Z.div_lt_upper_bound; nia).
  assert (Hc : 0 <= cross < M * M) by (subst cross; nia).
  assert (0 <= cross / M <= M - 1) by (split; [apply Z.div_pos; lia|]; apply Z.lt_succ_r, Z.div_lt_upper_bound; nia).
  assert (Hu : (a1 * M + a0) * (b1 * M + b0) = upper * (M * M) + (cross mod M) * M + (a0 * b0) mod M).
  { subst upper. clearbody M. assert (Ecross : cross = a0 * b0 / M + (a1 * b0) mod M + a0 * b1) by reflexivity.
    clearbody cross. remember (a0 * b0 / M) as q1. remember ((a0 * b0) mod M) as r1. remember (a1 * b0 / M) as q2.
    remember ((a1 * b0) mod M) as r2. remember (cross / M) as q3. remember (cross mod M) as r3. nia. }
  split_and!; [lia..|subst upper; nia| |exact Hu].
  assert ((a1 * M + a0) * (b1 * M + b0) < M * M * (M * M)) by nia. nia.
Qed.

Lemma mult64to128_portable_eq lhs rhs :
  lane64 lhs -> lane64 rhs -> XXH_mult64to128_portable lhs rhs = XXH_mult64to128 lhs rhs.
Proof.
  unfold lane64. intros Hl Hr. unfold XXH_mult64to128_portable, XXH_mult64to128. cbv zeta.
  rewrite !low_half, !high_half.
  assert (B : forall x, 0 <= x < 2 ^ 64 -> 0 <= x / 2 ^ 32 < 2 ^ 32 /\ 0 <= x mod 2 ^ 32 < 2 ^ 32 /\ x = x / 2 ^ 32 * 2 ^ 32 + x mod 2 ^ 32).
  { intros x Hx. pow2_norm. zdiv_lia. }
  destruct (B lhs Hl) as (Ha1 & Ha0 & El), (B rhs Hr) as (Hb1 & Hb0 & Er).
  remember (lhs / 2 ^ 32) as a1. remember (lhs mod 2 ^ 32) as a0.
  remember (rhs / 2 ^ 32) as b1. remember (rhs mod 2 ^ 32) as b0.
  rewrite !mult32to64_small by lia. destruct (grade_school a1 a0 b1 b0) as (Hc & Hu & E); [lia..|].
  rewrite El, Er, E. clear Heqa1 Heqa0 Heqb1 Heqb0 El Er E.
  set (cross := a0 * b0 / 2 ^ 32 + (a1 * b0) mod 2 ^ 32 + a0 * b1) in *.
  rewrite (wrap_small 64 cross) by lia. set (upper := a1 * b0 / 2 ^ 32 + cross / 2 ^ 32 + a1 * b1) in *.
  rewrite (wrap_small 64 upper) by lia.
  pose proof (Z.mod_pos_bound (a0 * b0) (2 ^ 32) ltac:(pow2_norm; lia)). pose proof (Z.mod_pos_bound cross (2 ^ 32) ltac:(pow2_norm; lia)).
  rewrite (wrap_small 128) by (pow2_norm; nia). rewrite Z.shiftr_div_pow2 by lia.
  assert (Elow : Z.lor (u64 (Z.shiftl cross 32)) ((a0 * b0) mod 2 ^ 32) = (cross mod 2 ^ 32) * 2 ^ 32 + (a0 * b0) mod 2 ^ 32).
  { replace (u64 (Z.shiftl cross 32)) with (Z.shiftl (cross mod 2 ^ 32) 32); [apply lor_shiftl_add; lia|].
    unfold wrap. rewrite !Z.shiftl_mul_pow2 by lia. change (2 ^ 64) with (2 ^ 32 * 2 ^ 32).
    rewrite Z.mul_mod_distr_r by (pow2_norm; lia). reflexivity. }
  rewrite Elow. set (lower := cross mod 2 ^ 32 * 2 ^ 32 + (a0 * b0) mod 2 ^ 32).
  assert (Hlow : 0 <= lower < 2 ^ 64) by (subst lower; pow2_norm; lia).
  replace (upper * 2 ^ 64 + cross mod 2 ^ 32 * 2 ^ 32 + (a0 * b0) mod 2 ^ 32) with (lower + upper * 2 ^ 64) by (subst lower; lia).
  f_equal.
  - unfold wrap. rewrite Z.mod_add by (pow2_norm; lia). symmetry. apply Z.mod_small. lia.
  - rewrite Z.div_add, Z.div_small by (pow2_norm; lia). symmetry. apply wrap_small. lia.
Qed.

Lemma high_bits x : lane64 x -> Z.land x 0xFFFFFFFF00000000 = x - u32 x.
Proof.
  intros H. change 0xFFFFFFFF00000000 with (Z.shiftl (Z.ones 32) 32).
  replace (x - u32 x) with (Z.shiftl (Z.shiftr x 32) 32).
  - apply Z.bits_inj'. intros i Hi. rewrite Z.land_spec. destruct (Z.lt_ge_cases i 32).
    + rewrite !Z.shiftl_spec_low by lia. apply andb_false_r.
    + rewrite !Z.shiftl_spec_high, Z.shiftr_spec by lia. replace (i - 32 + 32) with i by lia.
      destruct (Z.lt_ge_cases i 64).
      * rewrite Z.ones_spec_low by lia. apply andb_true_r.
      * rewrite (testbit_above 64 x) by (exact H || lia). done.
  - rewrite Z.shiftl_mul_pow2, Z.shiftr_div_pow2 by lia. unfold wrap, lane64 in *. pow2_norm. zdiv_lia.
Qed.

(** The two ways to add the high half of the input are one. *)
Lemma high_addend_eq input_hi : lane64 input_hi -> high_addend_32bit input_hi = high_addend_64bit input_hi.
Proof.
  intros H. unfold high_addend_32bit, high_addend_64bit. rewrite high_bits by done.
  pose proof (wrap_bound 32 input_hi ltac:(lia)).
  rewrite !mult32to64_small; [|lia|vm_compute; split; congruence|lia|vm_compute; split; congruence].
  f_equal. unfold XXH_PRIME32_2. lia.
Qed.

(** *** Byte swaps *)

Lemma masked_byte y k : 0 <= k -> Z.land y (Z.shiftl 255 k) = Z.shiftl ((y / 2 ^ k) mod 256) k.
Proof.
  intros Hk. change 256 with (2 ^ 8). change 255 with (Z.ones 8). rewrite <- Z.land_ones by lia.
  rewrite <- Z.shiftr_div_pow2 by lia. apply Z.bits_inj'. intros i Hi. rewrite Z.land_spec.
  destruct (Z.lt_ge_cases i k).
  - rewrite !Z.shiftl_spec_low by lia. apply andb_false_r.
  - rewrite !Z.shiftl_spec_high, Z.land_spec, Z.shiftr_spec by lia. do 2 f_equal. lia.
Qed.

Lemma masked_left w x k m :
  0 <= m -> m + 8 <= w -> 0 <= k <= m ->
  Z.land (wrap w (Z.shiftl x k)) (Z.shiftl 255 m) = Z.shiftl ((x / 2 ^ (m - k)) mod 256) m.
Proof.
  intros Hm Hw Hk. rewrite masked_byte by lia. f_equal. change 256 with (2 ^ 8). unfold wrap.
  rewrite <- !Z.land_ones, <- !Z.shiftr_div_pow2 by lia. apply Z.bits_inj'. intros i Hi. rewrite !Z.land_spec.
  destruct (Z.lt_ge_cases i 8); [|by rewrite Z.ones_spec_high, !andb_false_r by lia].
  rewrite !Z.shiftr_spec, Z.land_spec by lia. rewrite (Z.ones_spec_low w) by lia.
  rewrite Z.shiftl_spec, andb_true_r by lia. do 2 f_equal. lia.
Qed.

Lemma masked_right x k m : 0 <= m -> 0 <= k -> Z.land (Z.shiftr x k) (Z.shiftl 255 m) = Z.shiftl ((x / 2 ^ (m + k)) mod 256) m.
Proof.
  intros Hm Hk. rewrite masked_byte, Z.shiftr_div_pow2, Z.div_div, <- Z.pow_add_r by (try apply Z.pow_nonzero; try apply pow2_pos; lia).
  do 4 f_equal. lia.
Qed.

Lemma byte_mod x : 0 <= x mod 256 < 256.
Proof. apply Z.mod_pos_bound. lia. Qed.

(** The bytes of a number, the most significant one first. *)
Lemma lor_byte k a l : 0 <= k -> 0 <= l < 2 ^ k -> Z.lor (Z.shiftl (a mod 256) k) l = a mod 256 * 2 ^ k + l.
Proof. apply lor_shiftl_add. Qed.

(** Both sides as sums of the same bytes. *)
Ltac swap_bytes :=
  rewrite !masked_left, !masked_right by lia; rewrite <- !Z.lor_assoc, Z.shiftl_0_r, !Z.div_div by lia;
  repeat match goal with |- context [?x / ?d] =>
    let c := eval vm_compute in d in progress change d with c end; rewrite ?Z.div_1_r;
  repeat match goal with |- context [?a mod 256] =>
    let b := fresh "b" in pose proof (byte_mod a); set (b := a mod 256) in *; clearbody b end;
  repeat match goal with |- context [Z.lor (Z.shiftl ?b ?k) ?l] =>
    lazymatch l with context [Z.lor] => fail | _ => rewrite (lor_shiftl_add k b l) by (pow2_norm; lia) end end;
  pow2_norm; lia.

Lemma swap32_portable_eq x : XXH_swap32_portable x = XXH_swap32 x.
Proof.
  unfold XXH_swap32_portable, XXH_swap32, bswap. cbn [le_split rev app le_combine].
  change 0xff000000 with (Z.shiftl 255 24). change 0x00ff0000 with (Z.shiftl 255 16).
  change 0x0000ff00 with (Z.shiftl 255 8). change 0x000000ff with (Z.shiftl 255 0). swap_bytes.
Qed.

Lemma swap64_portable_eq x : XXH_swap64_portable x = XXH_swap64 x.
Proof.
  unfold XXH_swap64_portable, XXH_swap64, bswap. cbn [le_split rev app le_combine]. cbv zeta.
  change 0xff00000000000000 with (Z.shiftl 255 56). change 0x00ff000000000000 with (Z.shiftl 255 48).
  change 0x0000ff0000000000 with (Z.shiftl 255 40). change 0x000000ff00000000 with (Z.shiftl 255 32).
  change 0x00000000ff000000 with (Z.shiftl 255 24). change 0x0000000000ff0000 with (Z.shiftl 255 16).
  change 0x000000000000ff00 with (Z.shiftl 255 8). change 0x00000000000000ff with (Z.shiftl 255 0). swap_bytes.
Qed.

(** *** Canonical forms *)

Lemma split_swap n x : le_split n (bswap n x) = rev (le_split n x).
Proof.
  unfold bswap. rewrite <- (le_split_length n x) at 1. rewrite <- length_rev.
  apply le_split_combine, Forall_rev, le_split_range.
Qed.

Lemma read_canonical n bs post :
  length bs = n -> load_le n (bs ++ post) 0 = Some (le_combine bs).
Proof. intros L. exact (load_le_at n [] bs post L). Qed.

Lemma canonical32_roundtrip hash : XXH32_hashFromCanonical (XXH32_canonicalFromHash hash) = Done (u32 hash).
Proof.
  unfold XXH32_hashFromCanonical, XXH32_canonicalFromHash, XXH_readBE32, XXH_readLE32. cbn [start block index].
  rewrite <- (app_nil_r (le_split 4 _)), read_canonical by apply le_split_length. cbn [demand]. rewrite bind_done.
  rewrite le_combine_split. unfold XXH_swap32. rewrite Z.mod_small by apply (bswap_bound 4). f_equal. apply (bswap_bswap 4).
Qed.

Lemma canonical64_read p hash : holds p (XXH64_canonicalFromHash hash) -> XXH_readBE64 p = Done (u64 hash).
Proof.
  intros H. assert (L : length (XXH64_canonicalFromHash hash) = 8%nat) by apply le_split_length.
  unfold XXH_readBE64. rewrite <- (advance_0 p), (read64_holds p _ 0 H) by lia.
  rewrite bind_done. f_equal. unfold bytes_at. rewrite drop_0, take_ge by lia.
  unfold XXH_swap64, XXH64_canonicalFromHash. rewrite le_combine_split. unfold XXH_swap64. rewrite Z.mod_small by apply (bswap_bound 8). apply (bswap_bswap 8).
Qed.

Lemma canonical128_roundtrip hash :
  hash128 hash -> XXH128_hashFromCanonical (XXH128_canonicalFromHash hash) = Done hash.
Proof.
  intros [Hl Hh]. pose proof (holds_start (XXH128_canonicalFromHash hash)) as H.
  unfold XXH128_hashFromCanonical. unfold XXH128_canonicalFromHash at 2 in H.
  rewrite (canonical64_read (start _) (high64 hash)) by (eapply holds_app_l; exact H). rewrite bind_done.
  rewrite (canonical64_read (start _ +! 8) (low64 hash)).
  - rewrite bind_done, !wrap_small by done. by destruct hash.
  - apply (holds_drop _ 8) in H; [|rewrite length_app, !le_split_length; lia].
    rewrite drop_app_length' in H by by rewrite le_split_length. exact H.
Qed.

(** ** The properties *)

(** A hash of any of the three widths is read back from its canonical form, which
    has its bytes with the most significant one first; equality of two 128-bit
    hashes is equality, and their comparison that of the numbers they stand for. *)
Theorem xxh_canonical_roundtrip h (H : hash128 h) h' (H' : hash128 h') :
  XXH32_hashFromCanonical (XXH32_canonicalFromHash (low64 h)) = Done (u32 (low64 h))
  /\ XXH64_hashFromCanonical (XXH64_canonicalFromHash (low64 h)) = Done (low64 h)
  /\ XXH128_hashFromCanonical (XXH128_canonicalFromHash h) = Done h
  /\ XXH128_canonicalFromHash h = rev (le_split 8 (low64 h) ++ le_split 8 (high64 h))
  /\ (XXH128_isEqual h h' = 1 <-> h = h')
  /\ XXH128_cmp h h' = match high64 h * 2 ^ 64 + low64 h ?= high64 h' * 2 ^ 64 + low64 h' with Lt => -1 | Eq => 0 | Gt => 1 end.
Proof.
  split_and!.
  - apply canonical32_roundtrip.
  - unfold XXH64_hashFromCanonical. rewrite (canonical64_read _ (low64 h)) by apply holds_start.
    by rewrite wrap_small by apply H.
  - by apply canonical128_roundtrip.
  - unfold XXH128_canonicalFromHash, XXH_swap64. by rewrite !split_swap, rev_app_distr.
  - unfold XXH128_isEqual. case_decide as E; [|split; [lia|by intros <-]]. split; [intros _|done].
    apply app_inj_1 in E as [E1 E2]; [|by rewrite !le_split_length].
    apply (f_equal le_combine) in E1, E2. rewrite !le_combine_split in E1, E2.
    destruct H as [H1 H2], H' as [H3 H4]. rewrite !Z.mod_small in E1, E2 by assumption.
    destruct h, h'. cbn in *. by subst.
  - destruct H as [H1 H2], H' as [H3 H4]. unfold XXH128_cmp, lane64 in *. pow2_norm.
    destruct (Z.compare_spec (high64 h * 18446744073709551616 + low64 h) (high64 h' * 18446744073709551616 + low64 h'));
    destruct (Z.gtb_spec (high64 h) (high64 h')), (Z.gtb_spec (high64 h') (high64 h));
    try lia; destruct (Z.gtb_spec (low64 h) (low64 h')), (Z.gtb_spec (low64 h') (low64 h));
    first [reflexivity|lia].
Qed.

Lemma xxh_canonical_roundtrip_witness :
  XXH128_canonicalFromHash (XXH128Hash 0x0807060504030201 0x1817161514131211) = [24; 23; 22; 21; 20; 19; 18; 17; 8; 7; 6; 5; 4; 3; 2; 1]
  /\ XXH128_cmp (XXH128Hash 5 7) (XXH128Hash 6 7) = -1
  /\ XXH128_hashFromCanonical (XXH128_canonicalFromHash (XXH128Hash 5 7)) = Done (XXH128Hash 5 7).
Proof.
  split; [by vm_compute|]. split; [by vm_compute|].
  destruct (xxh_canonical_roundtrip (XXH128Hash 5 7) ltac:(split; vm_compute; split; congruence)
    (XXH128Hash 6 7) ltac:(split; vm_compute; split; congruence)) as (_ & _ & G & _). exact G.
Defined.

(** The versions of the primitives that are chosen by the compiler and the machine
    agree: the multiplication of 64-bit numbers by four of 32 bits, with sums that
    never overflow, and with 128-bit integers; the byte swaps by masks and built in;
    the two ways to add the high half for 9 to 16 bytes; and the loops for 17 to
    128 bytes and their unrolled forms, wherever they read. *)
Theorem xxh3_portable_equal lhs rhs (Hl : lane64 lhs) (Hr : lane64 rhs) :
  XXH_mult64to128_portable lhs rhs = XXH_mult64to128 lhs rhs
  /\ high64 (XXH_mult64to128 lhs rhs) * 2 ^ 64 + low64 (XXH_mult64to128 lhs rhs) = lhs * rhs
  /\ XXH_swap32_portable lhs = XXH_swap32 lhs /\ XXH_swap64_portable lhs = XXH_swap64 lhs
  /\ high_addend_32bit lhs = high_addend_64bit lhs
  /\ forall input len secret secretSize seed,
       XXH3_len_17to128_64b_small input len secret secretSize seed = XXH3_len_17to128_64b input len secret secretSize seed
       /\ XXH3_len_17to128_128b_small input len secret secretSize seed = XXH3_len_17to128_128b input len secret secretSize seed.
Proof.
  split_and!; auto using mult64to128_portable_eq, swap32_portable_eq, swap64_portable_eq, high_addend_eq.
  - unfold XXH_mult64to128, lane64 in *. cbn [high64 low64]. pow2_norm. rewrite (wrap_small 128) by (pow2_norm; nia).
    rewrite Z.shiftr_div_pow2 by lia. rewrite (wrap_small 64 (_ / _)).
    + unfold wrap. pow2_norm. rewrite (Z.div_mod (lhs * rhs) 18446744073709551616) at 3 by lia. lia.
    + pow2_norm. split; [apply Z.div_pos; nia|apply Z.div_lt_upper_bound; nia].
  - intros. split; [apply len_17to128_64b_small_eq|apply len_17to128_128b_small_eq].
Qed.

Lemma xxh3_portable_equal_witness :
  XXH_mult64to128_portable 0xFFFFFFFFFFFFFFFF 0xFFFFFFFFFFFFFFFF = XXH128Hash 1 0xFFFFFFFFFFFFFFFE
  /\ XXH_mult64to128_portable 0xFFFFFFFFFFFFFFFF 0xFFFFFFFFFFFFFFFF = XXH_mult64to128 0xFFFFFFFFFFFFFFFF 0xFFFFFFFFFFFFFFFF.
Proof.
  split; [by vm_compute|].
  destruct (xxh3_portable_equal 0xFFFFFFFFFFFFFFFF 0xFFFFFFFFFFFFFFFF ltac:(vm_compute; split; congruence)
    ltac:(vm_compute; split; congruence)) as (G & _). exact G.
Defined.
