(* ===== verification/Portable.v ===== *)
(** * The branches of the hashes for other machines and compilers

    ([core/native/hashing/xxhash.h], [wyhash.h], [polymur.h], [murmur32.c])

    The hashes are modelled for a 64-bit little-endian machine with the builtins of
    GCC.  Here are the versions the preprocessor takes elsewhere: loads on a
    big-endian machine and loads byte by byte, 128-bit numbers in two words, and the
    unrolled end of XXH32.  A flag says which end of a number the machine stores
    first. *)
From S2P Require Import Prelude Polymur Murmur Wyhash Xxhash Xxh3 Xxh3Theorems.

(** ** Loads *)

(** [memcpy(&v, p, n)] and the bytes of a number in memory. *)
Definition native_load (big : bool) (n : nat) (buf : list Z) (p : Z) : outcome Z :=
  v ← demand (load_le n buf p); Done (if big then bswap n v else v).
Definition native_bytes (big : bool) (n : nat) (v : Z) : list Z :=
  if big then rev (le_split n v) else le_split n v.

(** The first byte of the number one. *)
Definition polymur_is_little_endian (big : bool) : bool :=
  match native_bytes big 4 1 with b :: _ => negb (b =? 0) | [] => false end.
Definition XXH_isLittleEndian (big : bool) : bool :=
  match native_bytes big 4 1 with b :: _ => negb (b =? 0) | [] => false end.

Definition polymur_bswap32 (v : Z) : Z :=
  Z.lor (Z.lor (Z.lor (Z.land (Z.shiftr v 24) 0x000000ff) (Z.land (Z.shiftr v 8) 0x0000ff00))
               (Z.land (u32 (Z.shiftl v 8)) 0x00ff0000)) (Z.land (u32 (Z.shiftl v 24)) 0xff000000).
Definition polymur_bswap64 (v : Z) : Z :=
  Z.lor (u64 (Z.shiftl (polymur_bswap32 (u32 v)) 32)) (polymur_bswap32 (u32 (Z.shiftr v 32))).

Definition polymur_load_le_u32_on (big : bool) (buf : list Z) (p : Z) : outcome Z :=
  v ← native_load big 4 buf p; Done (if polymur_is_little_endian big then v else polymur_bswap32 v).
Definition polymur_load_le_u64_on (big : bool) (buf : list Z) (p : Z) : outcome Z :=
  v ← native_load big 8 buf p; Done (if polymur_is_little_endian big then v else polymur_bswap64 v).

Definition XXH_read32 (big : bool) (p : pointer) : outcome Z := native_load big 4 (block p) (index p).
Definition XXH_read64 (big : bool) (p : pointer) : outcome Z := native_load big 8 (block p) (index p).
Definition XXH_readLE32_on (big : bool) (p : pointer) : outcome Z :=
  v ← XXH_read32 big p; Done (if XXH_isLittleEndian big then v else XXH_swap32 v).
Definition XXH_readBE32_on (big : bool) (p : pointer) : outcome Z :=
  v ← XXH_read32 big p; Done (if XXH_isLittleEndian big then XXH_swap32 v else v).
Definition XXH_readLE64_on (big : bool) (p : pointer) : outcome Z :=
  v ← XXH_read64 big p; Done (if XXH_isLittleEndian big then v else XXH_swap64 v).
Definition XXH_readBE64_on (big : bool) (p : pointer) : outcome Z :=
  v ← XXH_read64 big p; Done (if XXH_isLittleEndian big then XXH_swap64 v else v).

(** A word read through a pointer to a word: undefined unless its address, where the
    block starts plus the index, is a multiple of its size. *)
Inductive XXH_alignment := XXH_aligned | XXH_unaligned.
Definition aligned_load (big : bool) (n : nat) (base : Z) (p : pointer) : outcome Z :=
  if (base + index p) mod Z.of_nat n =? 0 then native_load big n (block p) (index p) else Faults.
Definition XXH_readLE32_align (big : bool) (base : Z) (p : pointer) (align : XXH_alignment) : outcome Z :=
  match align with
  | XXH_unaligned => XXH_readLE32_on big p
  | XXH_aligned => v ← aligned_load big 4 base p; Done (if XXH_isLittleEndian big then v else XXH_swap32 v)
  end.
Definition XXH_readLE64_align (big : bool) (base : Z) (p : pointer) (align : XXH_alignment) : outcome Z :=
  match align with
  | XXH_unaligned => XXH_readLE64_on big p
  | XXH_aligned => v ← aligned_load big 8 base p; Done (if XXH_isLittleEndian big then v else XXH_swap64 v)
  end.

(** Byte by byte, [XXH_FORCE_MEMORY_ACCESS == 3]: the shifts of the bytes at
    [p], [p + 1], ... *)
Fixpoint shifted_bytes (w : Z) (shifts : list Z) (p : pointer) : outcome Z :=
  match shifts with
  | [] => Done 0
  | s :: shifts => b ← XXH_read8 p; rest ← shifted_bytes w shifts (p +! 1); Done (Z.lor (wrap w (Z.shiftl b s)) rest)
  end.
Definition XXH_readLE32_bytes : pointer -> outcome Z := shifted_bytes 32 [0; 8; 16; 24].
Definition XXH_readBE32_bytes : pointer -> outcome Z := shifted_bytes 32 [24; 16; 8; 0].
Definition XXH_readLE64_bytes : pointer -> outcome Z := shifted_bytes 64 [0; 8; 16; 24; 32; 40; 48; 56].
Definition XXH_readBE64_bytes : pointer -> outcome Z := shifted_bytes 64 [56; 48; 40; 32; 24; 16; 8; 0].

(** The readers of wyhash on a big-endian machine, with the builtin and by hand. *)
Definition _wyr8_swapped (buf : list Z) (p : Z) : outcome Z := v ← native_load true 8 buf p; Done (bswap 8 v).
Definition _wyr4_swapped (buf : list Z) (p : Z) : outcome Z := v ← native_load true 4 buf p; Done (bswap 4 v).
Definition _wyr8_by_hand (buf : list Z) (p : Z) : outcome Z :=
  v ← native_load true 8 buf p;
  let r k m := Z.land (Z.shiftr v k) m in
  let l k m := Z.land (u64 (Z.shiftl v k)) m in
  Done (Z.lor (Z.lor (Z.lor (Z.lor (Z.lor (Z.lor (Z.lor
    (r 56 0xff) (r 40 0xff00)) (r 24 0xff0000)) (r 8 0xff000000))
    (l 8 0xff00000000)) (l 24 0xff0000000000)) (l 40 0xff000000000000)) (l 56 0xff00000000000000)).
Definition _wyr4_by_hand (buf : list Z) (p : Z) : outcome Z :=
  v ← native_load true 4 buf p;
  Done (Z.lor (Z.lor (Z.lor (Z.land (Z.shiftr v 24) 0xff) (Z.land (Z.shiftr v 8) 0xff00))
               (Z.land (u32 (Z.shiftl v 8)) 0xff0000)) (Z.land (u32 (Z.shiftl v 24)) 0xff000000)).

(** [ptr[0]|ptr[1]<<8|ptr[2]<<16|ptr[3]<<24] of a murmur hash: the bytes are promoted
    to [int], in which the last shift overflows for a byte of 128 and more. *)
Definition READ_UINT32_bytes (b0 b1 b2 b3 : Z) : outcome Z :=
  if Z.shiftl b3 24 <? 2 ^ 31
  then Done (u32 (Z.lor (Z.lor (Z.lor b0 (Z.shiftl b1 8)) (Z.shiftl b2 16)) (Z.shiftl b3 24))) else Faults.

(** ** 128-bit numbers in two words *)

Record polymur_u128_t := U128 { lo : Z; hi : Z }.
Definition u128_value (x : polymur_u128_t) : Z := hi x * 2 ^ 64 + lo x.

Definition polymur_add128_words (a b : polymur_u128_t) : polymur_u128_t :=
  let lo' := u64 (lo a + lo b) in
  U128 lo' (u64 (hi a + (hi b + (if lo' <? lo b then 1 else 0)))).

Definition polymur_mul128_words (a b : Z) : polymur_u128_t :=
  let lo_lo := u64 (Z.land a 0xffffffff * Z.land b 0xffffffff) in
  let hi_lo := u64 (Z.shiftr a 32 * Z.land b 0xffffffff) in
  let lo_hi := u64 (Z.land a 0xffffffff * Z.shiftr b 32) in
  let hi_hi := u64 (Z.shiftr a 32 * Z.shiftr b 32) in
  let cross := u64 (Z.shiftr lo_lo 32 + Z.land hi_lo 0xffffffff + lo_hi) in
  U128 (Z.lor (u64 (Z.shiftl cross 32)) (Z.land lo_lo 0xffffffff)) (u64 (Z.shiftr hi_lo 32 + Z.shiftr cross 32 + hi_hi)).

Definition polymur_red611_words (x : polymur_u128_t) : Z :=
  u64 (Z.land (lo x) POLYMUR_P611 + Z.lor (Z.shiftr (lo x) 61) (u64 (Z.shiftl (hi x) 3))).

(** ** The end of XXH32, unrolled

    The labels of the [switch] and what is done from each on, in the order of the
    source; a case without a return falls through to the next. *)
Inductive finalize_step := PROCESS4 | PROCESS1 | AVALANCHE.

Definition XXH32_endjmp : list (Z * list finalize_step) :=
  [(12, [PROCESS4]); (8, [PROCESS4]); (4, [PROCESS4; AVALANCHE]);
   (13, [PROCESS4]); (9, [PROCESS4]); (5, [PROCESS4; PROCESS1; AVALANCHE]);
   (14, [PROCESS4]); (10, [PROCESS4]); (6, [PROCESS4; PROCESS1; PROCESS1; AVALANCHE]);
   (15, [PROCESS4]); (11, [PROCESS4]); (7, [PROCESS4]);
   (3, [PROCESS1]); (2, [PROCESS1]); (1, [PROCESS1]); (0, [AVALANCHE])].

Fixpoint from_label (n : Z) (code : list (Z * list finalize_step)) : list finalize_step :=
  match code with
  | [] => []
  | (label, _) :: rest => if label =? n then concat (map snd code) else from_label n rest
  end.

Fixpoint run_steps (steps : list finalize_step) (hash : Z) (p : list Z) : outcome Z :=
  match steps, p with
  | AVALANCHE :: _, _ => Done (XXH32_avalanche hash)
  | PROCESS1 :: steps, b :: p => run_steps steps (XXH_PROCESS1 hash b) p
  | PROCESS4 :: steps, b0 :: b1 :: b2 :: b3 :: p => run_steps steps (XXH_PROCESS4 hash (le_combine [b0; b1; b2; b3])) p
  | _, _ => Faults
  end.
Definition XXH32_finalize_endjmp (hash : Z) (p : list Z) (len : Z) : outcome Z :=
  run_steps (from_label (Z.land len 15) XXH32_endjmp) hash p.

(** ** Numbers in memory *)

Lemma load_swapped n buf p : Forall byte_range buf -> (v ← native_load true n buf p; Done (bswap n v)) = demand (load_le n buf p).
Proof.
  intros Hb. unfold native_load. destruct (load_le n buf p) as [v|] eqn:E; cbn [demand]; [|done]. rewrite !bind_done.
  f_equal. rewrite bswap_bswap. apply Z.mod_small. by apply (load_le_bound n buf p).
Qed.

Lemma native_same n buf p (swap : Z -> Z) big : Forall byte_range buf -> (forall v, 0 <= v < 256 ^ Z.of_nat n -> swap v = bswap n v) ->
  (v ← native_load big n buf p; Done (if negb big then v else swap v)) = demand (load_le n buf p).
Proof.
  intros Hb Hs. destruct big; cbn [negb].
  - rewrite <- (load_swapped n buf p Hb). unfold native_load. destruct (load_le n buf p) as [v|] eqn:E; cbn [demand]; [|done].
    rewrite !bind_done, Hs; [done|apply bswap_bound].
  - unfold native_load. destruct (load_le n buf p); cbn [demand]; [|done]. by rewrite !bind_done.
Qed.

Lemma native_swapped n buf p big : Forall byte_range buf ->
  (v ← native_load big n buf p; Done (if negb big then bswap n v else v)) = (v ← demand (load_le n buf p); Done (bswap n v)).
Proof.
  intros Hb. unfold native_load. destruct (load_le n buf p); cbn [demand]; [|by destruct big]. rewrite !bind_done. by destruct big.
Qed.

Lemma endianness big : polymur_is_little_endian big = negb big /\ XXH_isLittleEndian big = negb big.
Proof. by destruct big. Qed.

(** *** Swaps by hand *)

Lemma lor_reverse4 a b c d : Z.lor (Z.lor (Z.lor a b) c) d = Z.lor (Z.lor (Z.lor d c) b) a.
Proof. apply Z.bits_inj'. intros i _. rewrite !Z.lor_spec. by destruct (Z.testbit a i), (Z.testbit b i), (Z.testbit c i), (Z.testbit d i). Qed.

Lemma lor_reverse8 a b c d e f g h :
  Z.lor (Z.lor (Z.lor (Z.lor (Z.lor (Z.lor (Z.lor a b) c) d) e) f) g) h =
  Z.lor (Z.lor (Z.lor (Z.lor (Z.lor (Z.lor (Z.lor h g) f) e) d) c) b) a.
Proof.
  replace (Z.lor (Z.lor (Z.lor (Z.lor (Z.lor (Z.lor (Z.lor a b) c) d) e) f) g) h) with (Z.lor (Z.lor (Z.lor (Z.lor a b) c) d) (Z.lor (Z.lor (Z.lor e f) g) h)) by (by rewrite !Z.lor_assoc).
  rewrite (lor_reverse4 a b c d), (lor_reverse4 e f g h), Z.lor_comm. by rewrite !Z.lor_assoc.
Qed.

Lemma polymur_bswap32_eq v : polymur_bswap32 v = bswap 4 v.
Proof. unfold polymur_bswap32. rewrite lor_reverse4. exact (swap32_portable_eq v). Qed.

Lemma swap_of n bs : Forall byte_range bs -> length bs = n -> bswap n (le_combine bs) = le_combine (rev bs).
Proof. intros R <-. by apply bswap_combine. Qed.

Lemma bswap_halves v : 0 <= v < 2 ^ 64 -> bswap 8 v = bswap 4 (u32 v) * 2 ^ 32 + bswap 4 (Z.shiftr v 32).
Proof.
  intros Hv. assert (E : v = le_combine (le_split 8 v)) by (rewrite le_combine_split; symmetry; apply Z.mod_small; exact Hv).
  pose proof (le_split_length 8 v) as L. pose proof (le_split_range 8 v) as R. set (bs := le_split 8 v) in *. clearbody bs.
  assert (E1 : u32 v = le_combine (take 4 bs)) by (rewrite E, le_combine_take by done; done).
  assert (E2 : Z.shiftr v 32 = le_combine (drop 4 bs)) by (rewrite E, le_combine_drop, Z.shiftr_div_pow2 by (done || lia); done).
  assert (H1 : length (take 4 bs) = 4%nat) by (rewrite length_take; lia). assert (H2 : length (drop 4 bs) = 4%nat) by (rewrite length_drop; lia).
  rewrite E1, E2, E, (swap_of 8 bs), (swap_of 4 (take 4 bs)), (swap_of 4 (drop 4 bs)) by (first [done|by apply Forall_take|by apply Forall_drop]).
  rewrite <- (take_drop 4 bs) at 1. rewrite rev_app_distr, le_combine_app, length_rev, H2. change (256 ^ Z.of_nat 4) with (2 ^ 32). lia.
Qed.

Lemma polymur_bswap64_eq v : 0 <= v < 2 ^ 64 -> polymur_bswap64 v = bswap 8 v.
Proof.
  intros Hv. unfold polymur_bswap64. rewrite !polymur_bswap32_eq, bswap_halves by done.
  pose proof (bswap_bound 4 (u32 v)) as B1. pose proof (bswap_bound 4 (u32 (Z.shiftr v 32))) as B2. change (256 ^ Z.of_nat 4) with (2 ^ 32) in *.
  rewrite (wrap_small 64) by (rewrite Z.shiftl_mul_pow2 by lia; pow2_norm; lia). rewrite lor_shiftl_add by lia. f_equal. f_equal.
  apply wrap_small. rewrite Z.shiftr_div_pow2 by lia. pow2_norm. zdiv_lia.
Qed.

(** *** Byte by byte *)

Definition load_bytes (n : nat) (p : pointer) : option (list Z) :=
  if (0 <=? index p) && (index p + Z.of_nat n <=? Z.of_nat (length (block p)))
  then Some (take n (drop (Z.to_nat (index p)) (block p))) else None.

Lemma load_le_bytes n p : load_le n (block p) (index p) = le_combine <$> load_bytes n p.
Proof. unfold load_le, load_bytes. by case_match. Qed.

Lemma load_bytes_S n p : load_bytes (S n) p = (b ← byte_at (block p) (index p); rest ← load_bytes n (p +! 1); Some (b :: rest)).
Proof.
  unfold load_bytes, byte_at. cbn [advance block index]. destruct (Z.leb_spec 0 (index p)); cbn [andb]; [|done].
  rewrite (proj2 (Z.leb_le 0 (index p + 1))) by lia. cbn [andb].
  destruct (block p !! Z.to_nat (index p)) as [b|] eqn:E.
  - cbn [mbind option_bind]. replace (Z.to_nat (index p + 1)) with (S (Z.to_nat (index p))) by lia.
    replace (index p + Z.of_nat (S n)) with (index p + 1 + Z.of_nat n) by lia. destruct (_ <=? _); [|done].
    cbn [mbind option_bind]. by rewrite (drop_S _ b) by done.
  - apply lookup_ge_None_1 in E. by rewrite (proj2 (Z.leb_gt _ _)) by lia.
Qed.

(** What the shifts make of the bytes. *)
Fixpoint shifted (w : Z) (shifts bs : list Z) : Z :=
  match shifts, bs with s :: shifts, b :: bs => Z.lor (wrap w (Z.shiftl b s)) (shifted w shifts bs) | _, _ => 0 end.

Lemma shifted_bytes_done w shifts : forall p, shifts <> [] ->
  shifted_bytes w shifts p = (bs ← demand (load_bytes (length shifts) p); Done (shifted w shifts bs)).
Proof.
  induction shifts as [|s shifts IH]; intros p N; [done|]. cbn [shifted_bytes length]. rewrite load_bytes_S. unfold XXH_read8.
  destruct (byte_at (block p) (index p)) as [b|] eqn:E; cbn [demand mbind option_bind]; [|done]. rewrite bind_done.
  destruct shifts as [|s' shifts].
  - cbn [shifted_bytes length]. rewrite bind_done. unfold load_bytes, byte_at in *. cbn [advance block index].
    destruct (Z.leb_spec 0 (index p)); [|done]. apply lookup_lt_Some in E.
    rewrite (proj2 (Z.leb_le 0 _)), (proj2 (Z.leb_le _ _)) by lia. cbn [andb mbind option_bind demand take]. by rewrite bind_done.
  - rewrite IH by done. destruct (load_bytes (length (s' :: shifts)) (p +! 1)) as [bs|]; cbn [demand mbind option_bind]; [|done]. by rewrite !bind_done.
Qed.

Lemma shifted_little w bs : forall k, Forall byte_range bs -> 0 <= k -> k + 8 * Z.of_nat (length bs) <= w ->
  shifted w (map (fun i => k + 8 * Z.of_nat i) (seq 0 (length bs))) bs = le_combine bs * 2 ^ k.
Proof.
  induction bs as [|b bs IH]; intros k F Hk Hw; [done|]. apply Forall_cons_1 in F as [Hb F]. unfold byte_range in Hb.
  cbn [length seq map shifted le_combine] in *. rewrite <- seq_shift, map_map.
  replace (map (fun x => k + 8 * Z.of_nat (S x)) (seq 0 (length bs))) with (map (fun i => (k + 8) + 8 * Z.of_nat i) (seq 0 (length bs))).
  - rewrite IH by (done || lia). change (8 * Z.of_nat 0) with 0. rewrite Z.add_0_r. assert (P : 0 < 2 ^ k) by (apply Z.pow_pos_nonneg; lia).
    assert (P8 : 2 ^ (k + 8) = 256 * 2 ^ k) by (rewrite Z.pow_add_r by lia; lia).
    assert (Pw : 2 ^ (k + 8) <= 2 ^ w) by (apply Z.pow_le_mono_r; lia).
    rewrite Z.shiftl_mul_pow2, wrap_small by nia. rewrite Z.lor_comm, <- (Z.shiftl_mul_pow2 _ (k + 8)), lor_shiftl_add by nia. nia.
  - apply map_ext. intros i. lia.
Qed.

Lemma shifted_big w bs : Forall byte_range bs -> 8 * Z.of_nat (length bs) <= w ->
  shifted w (map (fun i => 8 * Z.of_nat i) (rev (seq 0 (length bs)))) bs = le_combine (rev bs).
Proof.
  induction bs as [|b bs IH]; intros F Hw; [done|]. apply Forall_cons_1 in F as [Hb F]. unfold byte_range in Hb.
  cbn [length] in *. rewrite seq_S, rev_app_distr, map_app. cbn [rev map app shifted]. rewrite IH by (done || lia). rewrite Nat.add_0_l.
  set (m := Z.of_nat (length bs)) in *. assert (P : 0 < 2 ^ (8 * m)) by (apply Z.pow_pos_nonneg; lia).
  assert (E256 : 256 ^ m = 2 ^ (8 * m)) by (rewrite Z.pow_mul_r by lia; done).
  assert (P8 : 2 ^ (8 * m + 8) = 256 * 2 ^ (8 * m)) by (rewrite Z.pow_add_r by lia; lia).
  assert (Pw : 2 ^ (8 * m + 8) <= 2 ^ w) by (apply Z.pow_le_mono_r; lia).
  pose proof (le_combine_bound (rev bs) (Forall_rev F)) as B. rewrite length_rev in B. fold m in B. rewrite E256 in B.
  rewrite wrap_small by (rewrite Z.shiftl_mul_pow2 by lia; nia). rewrite lor_shiftl_add by lia.
  rewrite le_combine_app, length_rev. fold m. rewrite E256. cbn [le_combine]. lia.
Qed.

(** *** 128-bit numbers *)

Definition two_words (x : polymur_u128_t) : Prop := 0 <= lo x < 2 ^ 64 /\ 0 <= hi x < 2 ^ 64.

Lemma add128_words_eq a b : two_words a -> two_words b ->
  two_words (polymur_add128_words a b) /\ u128_value (polymur_add128_words a b) = polymur_add128 (u128_value a) (u128_value b).
Proof.
  intros [La Ha] [Lb Hb]. unfold polymur_add128_words, u128_value, two_words, polymur_add128. cbn [lo hi].
  split; [split; apply wrap_bound; lia|].
  pose proof (carry (lo b) (lo a) Lb La) as C. rewrite (Z.add_comm (lo b)) in C.
  set (l := u64 (lo a + lo b)) in *. assert (Hl : 0 <= l < 2 ^ 64) by (apply wrap_bound; lia). clearbody l.
  set (c := if l <? lo b then 1 else 0) in *. assert (0 <= c <= 1) by (unfold c; case_match; lia). clearbody c.
  replace (hi a * 2 ^ 64 + lo a + (hi b * 2 ^ 64 + lo b)) with ((hi a + (hi b + c)) * 2 ^ 64 + l) by lia.
  unfold wrap. pow2_norm. zdiv_lia.
Qed.

Lemma mul128_words_eq a b : 0 <= a < 2 ^ 64 -> 0 <= b < 2 ^ 64 ->
  two_words (polymur_mul128_words a b) /\ u128_value (polymur_mul128_words a b) = polymur_mul128 a b.
Proof.
  intros Ha Hb.
  assert (E : polymur_mul128_words a b = U128 (low64 (XXH_mult64to128_portable a b)) (high64 (XXH_mult64to128_portable a b))).
  { unfold polymur_mul128_words, XXH_mult64to128_portable, XXH_mult32to64. cbn [low64 high64]. change 0xffffffff with (Z.ones 32).
    rewrite !Z.land_ones by lia.
    assert (H1 : forall x, u32 (x mod 2 ^ 32) = x mod 2 ^ 32) by (intros; apply Z.mod_mod; lia).
    assert (H2 : forall x, 0 <= x < 2 ^ 64 -> u32 (Z.shiftr x 32) = Z.shiftr x 32).
    { intros x Hx. apply wrap_small. rewrite Z.shiftr_div_pow2 by lia. pow2_norm. zdiv_lia. }
    rewrite !H1, !H2 by done. done. }
  rewrite E, mult64to128_portable_eq by done. unfold u128_value, two_words, polymur_mul128, XXH_mult64to128. cbn [lo hi low64 high64].
  split; [split; apply wrap_bound; lia|]. rewrite Z.shiftr_div_pow2 by lia.
  assert (0 <= u128 (a * b) < 2 ^ 128) by (apply wrap_bound; lia). generalize dependent (u128 (a * b)). intros x Hx.
  rewrite (wrap_small 64 (x / _)) by (pow2_norm; zdiv_lia). unfold wrap. pow2_norm. zdiv_lia.
Qed.

Lemma red611_words_eq x : two_words x -> polymur_red611_words x = polymur_red611 (u128_value x).
Proof.
  intros [Hl Hh]. unfold polymur_red611_words, polymur_red611, u128_value. f_equal. f_equal.
  - f_equal. unfold wrap. rewrite Z.add_comm, Z_mod_plus_full. symmetry. by apply Z.mod_small.
  - rewrite Z.lor_comm, !Z.shiftr_div_pow2, Z.shiftl_mul_pow2 by lia.
    replace (u64 (hi x * 2 ^ 3)) with (Z.shiftl (hi x mod 2 ^ 61) 3).
    + rewrite lor_shiftl_add by (pow2_norm; zdiv_lia). unfold wrap. pow2_norm. zdiv_lia.
    + rewrite Z.shiftl_mul_pow2 by lia. unfold wrap. pow2_norm. zdiv_lia.
Qed.

(** *** The unrolled end *)

Lemma endjmp_eq hash p len : Z.land len 15 <= Z.of_nat (length p) -> 0 <= len ->
  XXH32_finalize_endjmp hash p len = Done (XXH32_finalize hash (take (Z.to_nat (Z.land len 15)) p)).
Proof.
  intros Hp Hl. unfold XXH32_finalize_endjmp. change 15 with (Z.ones 4) in *. rewrite Z.land_ones in * by lia.
  pose proof (Z.mod_pos_bound len (2 ^ 4) ltac:(lia)) as B. set (n := len mod 2 ^ 4) in *. clearbody n. change (2 ^ 4) with 16 in B.
  assert (En : n = Z.of_nat (Z.to_nat n)) by lia. set (k := Z.to_nat n) in *. clearbody k. subst n.
  assert (Hk : (k < 16)%nat) by lia. clear B.
  unfold XXH32_finalize.
  do 16 (destruct k as [|k];
    [match goal with |- context [from_label ?n ?c] => let code := eval vm_compute in (from_label n c) in change (from_label n c) with code end;
     repeat (destruct p as [|? p]; [cbn in Hp; lia|]; cbn [run_steps]; cbn [length] in Hp); rewrite ?firstn_cons, take_0; cbn [run_steps XXH32_tail fold_left]; reflexivity|]). lia.
Qed.

(** ** Properties *)

Lemma little_bytes w shifts p : Forall byte_range (block p) -> shifts = map (fun i => 8 * Z.of_nat i) (seq 0 (length shifts)) ->
  shifts <> [] -> 8 * Z.of_nat (length shifts) <= w ->
  shifted_bytes w shifts p = demand (load_le (length shifts) (block p) (index p)).
Proof.
  intros Hb Es N Hw. rewrite shifted_bytes_done, load_le_bytes by done. unfold load_bytes. destruct (_ && _) eqn:R; [|done].
  cbn [fmap option_fmap option_map demand]. rewrite bind_done. set (bs := take _ _). f_equal.
  assert (L : length bs = length shifts) by (unfold bs; rewrite length_take, length_drop; lia).
  assert (F : Forall byte_range bs) by (by apply Forall_take, Forall_drop).
  pose proof (shifted_little w bs 0 F ltac:(lia) ltac:(lia)) as E. rewrite L in E. change (2 ^ 0) with 1 in E. rewrite Z.mul_1_r in E.
  rewrite <- E. f_equal. rewrite Es at 1. apply map_ext. intros i. lia.
Qed.

Lemma big_bytes w shifts p : Forall byte_range (block p) -> shifts = map (fun i => 8 * Z.of_nat i) (rev (seq 0 (length shifts))) ->
  shifts <> [] -> 8 * Z.of_nat (length shifts) <= w ->
  shifted_bytes w shifts p = (v ← demand (load_le (length shifts) (block p) (index p)); Done (bswap (length shifts) v)).
Proof.
  intros Hb Es N Hw. rewrite shifted_bytes_done, load_le_bytes by done. unfold load_bytes. destruct (_ && _) eqn:R; [|done].
  cbn [fmap option_fmap option_map demand]. rewrite !bind_done. set (bs := take _ _). f_equal.
  assert (L : length bs = length shifts) by (unfold bs; rewrite length_take, length_drop; lia).
  assert (F : Forall byte_range bs) by (by apply Forall_take, Forall_drop).
  pose proof (shifted_big w bs F ltac:(lia)) as E. rewrite L in E. rewrite swap_of by done. rewrite <- E. f_equal. exact Es.
Qed.

Lemma read_bytes_eq p : Forall byte_range (block p) ->
  XXH_readLE32_bytes p = XXH_readLE32 p /\ XXH_readBE32_bytes p = XXH_readBE32 p /\
  XXH_readLE64_bytes p = XXH_readLE64 p /\ XXH_readBE64_bytes p = XXH_readBE64 p.
Proof.
  intros Hb. split_and!.
  - by apply (little_bytes 32 [0; 8; 16; 24]).
  - by apply (big_bytes 32 [24; 16; 8; 0]).
  - by apply (little_bytes 64 [0; 8; 16; 24; 32; 40; 48; 56]).
  - by apply (big_bytes 64 [56; 48; 40; 32; 24; 16; 8; 0]).
Qed.

Lemma by_hand8_eq buf p : Forall byte_range buf -> _wyr8_by_hand buf p = _wyr8 buf p.
Proof.
  intros Hb. unfold _wyr8. rewrite <- (load_swapped 8) by done. unfold _wyr8_by_hand, native_load.
  destruct (load_le 8 _ _) as [v|]; cbn [demand]; [|done]. rewrite !bind_done. f_equal. cbv zeta. rewrite lor_reverse8.
  generalize (bswap 8 v). intros w. change (bswap 8 w) with (XXH_swap64 w). by rewrite <- (swap64_portable_eq w).
Qed.

Lemma by_hand4_eq buf p : Forall byte_range buf -> _wyr4_by_hand buf p = _wyr4 buf p.
Proof.
  intros Hb. unfold _wyr4. rewrite <- (load_swapped 4) by done. unfold _wyr4_by_hand, native_load.
  destruct (load_le 4 _ _) as [v|]; cbn [demand]; [|done]. rewrite !bind_done. f_equal. rewrite lor_reverse4.
  generalize (bswap 4 v). intros w. change (bswap 4 w) with (XXH_swap32 w). by rewrite <- (swap32_portable_eq w).
Qed.

(** C27: The loads of the hashes do not depend on the machine: on a big-endian machine
    they swap what they copied, byte by byte they shift it into place, through an
    aligned pointer they read the same word; each gives the number whose least
    significant byte is stored first (and the [BE] readers the number whose most
    significant byte is), or faults where the word is not inside of the buffer. *)
Theorem hash_loads_portable big base p (Hb : Forall byte_range (block p)) :
  polymur_load_le_u32_on big (block p) (index p) = polymur_load_le_u32 (block p) (index p) /\
  polymur_load_le_u64_on big (block p) (index p) = polymur_load_le_u64 (block p) (index p) /\
  Forall (fun read => read p = XXH_readLE32 p) [XXH_readLE32_on big; XXH_readLE32_bytes] /\
  Forall (fun read => read p = XXH_readBE32 p) [XXH_readBE32_on big; XXH_readBE32_bytes] /\
  Forall (fun read => read p = XXH_readLE64 p) [XXH_readLE64_on big; XXH_readLE64_bytes] /\
  Forall (fun read => read p = XXH_readBE64 p) [XXH_readBE64_on big; XXH_readBE64_bytes] /\
  (forall align, (base + index p) mod 4 = 0 -> XXH_readLE32_align big base p align = XXH_readLE32 p) /\
  (forall align, (base + index p) mod 8 = 0 -> XXH_readLE64_align big base p align = XXH_readLE64 p) /\
  Forall (fun wyr8 => wyr8 (block p) (index p) = _wyr8 (block p) (index p)) [_wyr8_swapped; _wyr8_by_hand] /\
  Forall (fun wyr4 => wyr4 (block p) (index p) = _wyr4 (block p) (index p)) [_wyr4_swapped; _wyr4_by_hand].
Proof.
  destruct (endianness big) as [E1 E2]. pose proof (read_bytes_eq p Hb) as R. unfold polymur_load_le_u32_on, polymur_load_le_u64_on. rewrite !E1.
  assert (LE32 : XXH_readLE32_on big p = XXH_readLE32 p) by (unfold XXH_readLE32_on; rewrite E2; by apply (native_same 4)).
  assert (LE64 : XXH_readLE64_on big p = XXH_readLE64 p) by (unfold XXH_readLE64_on; rewrite E2; by apply (native_same 8)).
  split_and!.
  - apply (native_same 4); [done|]. intros v _. apply polymur_bswap32_eq.
  - apply (native_same 8); [done|]. intros v Hv. by apply polymur_bswap64_eq.
  - repeat constructor; [done|apply R].
  - repeat constructor; [|apply R]. unfold XXH_readBE32_on. rewrite E2. by apply (native_swapped 4).
  - repeat constructor; [done|apply R].
  - repeat constructor; [|apply R]. unfold XXH_readBE64_on. rewrite E2. by apply (native_swapped 8).
  - intros [] Ha; [|done]. unfold XXH_readLE32_align, aligned_load. change (Z.of_nat 4) with 4. by rewrite Ha.
  - intros [] Ha; [|done]. unfold XXH_readLE64_align, aligned_load. change (Z.of_nat 8) with 8. by rewrite Ha.
  - repeat constructor; [by apply load_swapped|by apply by_hand8_eq].
  - repeat constructor; [by apply load_swapped|by apply by_hand4_eq].
Qed.

(** Without 128-bit integers the sums, products and reductions of PolymurHash are
    the same; the unrolled end of XXH32 computes what its loops compute, for every
    length; and the word a murmur hash puts together of bytes is the word it loads,
    except that for a last byte of 128 and more the shift overflows an [int]. *)
Theorem hash_arithmetic_portable a b x y hash rest len (Ha : 0 <= a < 2 ^ 64) (Hb : 0 <= b < 2 ^ 64)
    (Hx : two_words x) (Hy : two_words y) (Hl : 0 <= len) (Hr : Z.land len 15 <= Z.of_nat (length rest)) :
  u128_value (polymur_mul128_words a b) = polymur_mul128 a b /\
  u128_value (polymur_add128_words x y) = polymur_add128 (u128_value x) (u128_value y) /\
  polymur_red611_words x = polymur_red611 (u128_value x) /\
  XXH32_finalize_endjmp hash rest len = Done (XXH32_finalize hash (take (Z.to_nat (Z.land len 15)) rest)) /\
  (forall b0 b1 b2 b3, Forall byte_range [b0; b1; b2; b3] ->
     READ_UINT32_bytes b0 b1 b2 b3 = if b3 <? 128 then Done (READ_UINT32 b0 b1 b2 b3) else Faults).
Proof.
  split_and!; [by apply mul128_words_eq|by apply add128_words_eq|by apply red611_words_eq|by apply endjmp_eq|].
  intros b0 b1 b2 b3 F. unfold READ_UINT32_bytes, READ_UINT32.
  assert (E : (Z.shiftl b3 24 <? 2 ^ 31) = (b3 <? 128)).
  { rewrite Z.shiftl_mul_pow2 by lia. destruct (Z.ltb_spec b3 128); [apply Z.ltb_lt|apply Z.ltb_ge]; pow2_norm; lia. }
  rewrite E. destruct (b3 <? 128); [|done]. f_equal.
  repeat match goal with F : Forall _ (_ :: _) |- _ => apply Forall_cons_1 in F as [? F] end. unfold byte_range in *.
  rewrite lor_reverse4, <- !Z.lor_assoc. rewrite (lor_shiftl_add 8 b1 b0) by (pow2_norm; lia).
  rewrite (lor_shiftl_add 16 b2), (lor_shiftl_add 24 b3) by (pow2_norm; lia). rewrite wrap_small by (pow2_norm; lia). cbn [le_combine]. pow2_norm. lia.
Qed.

Lemma hash_loads_portable_witness :
  polymur_load_le_u32_on true [1; 2; 3; 4; 5; 6; 7; 8] 4 = Done 0x08070605.
Proof. exact (proj1 (hash_loads_portable true 0 (Pointer [1; 2; 3; 4; 5; 6; 7; 8] 4) ltac:(repeat constructor; unfold byte_range; lia))). Defined.

Lemma hash_arithmetic_portable_witness :
  u128_value (polymur_mul128_words (2 ^ 64 - 1) (2 ^ 64 - 1)) = (2 ^ 64 - 1) * (2 ^ 64 - 1).
Proof.
  exact (proj1 (hash_arithmetic_portable (2 ^ 64 - 1) (2 ^ 64 - 1) (U128 0 0) (U128 0 0) 0 [] 0 ltac:(lia) ltac:(lia)
    ltac:(split; cbn; lia) ltac:(split; cbn; lia) ltac:(lia) ltac:(vm_compute; discriminate))).
Defined.
