(* ===== verification/Xxh3Long.v ===== *)
(** * XXH3: long inputs and the one-shot interface ([core/native/hashing/xxhash.h])

    The accumulators are a list of eight lanes of 64 bits.  The functions on them
    that the header has once for each vector unit are the class [Kernel]; the scalar
    ones are here and the vectorised ones in [Xxh3Vector].  [scalar_kernel] is a
    [Kernel], and [Kernel_laws] says what all of them have to compute: the functions
    on whole lists [accumulated] and [scrambled], which read no memory. *)
From S2P Require Import Prelude Xxhash Xxh3.

Definition XXH_STRIPE_LEN : Z := 64.
Definition XXH_SECRET_CONSUME_RATE : Z := 8.
Definition XXH_ACC_NB : Z := XXH_STRIPE_LEN / 8.
Definition XXH_SECRET_LASTACC_START : Z := 7.
Definition XXH_SECRET_MERGEACCS_START : Z := 11.

(** ** The scalar functions *)

Definition XXH_mult32to64_add64 (lhs rhs acc : Z) : Z := u64 (XXH_mult32to64 (u32 lhs) (u32 rhs) + acc).

Definition read_acc (acc : list Z) (lane : Z) : outcome Z := demand (byte_at acc lane).

Definition XXH3_scalarRound (acc : list Z) (input secret : pointer) (lane : Z) : outcome (list Z) :=
  _ ← XXH_ASSERT (lane <? XXH_ACC_NB);
  data_val ← XXH_readLE64 (input +! lane * 8);
  key ← XXH_readLE64 (secret +! lane * 8);
  let data_key := Z.lxor data_val key in
  swapped ← read_acc acc (Z.lxor lane 1);
  let acc := <[Z.to_nat (Z.lxor lane 1) := u64 (swapped + data_val)]> acc in
  own ← read_acc acc lane;
  Done (<[Z.to_nat lane := XXH_mult32to64_add64 data_key (Z.shiftr data_key 32) own]> acc).

Definition XXH3_accumulate_512_scalar (acc : list Z) (input secret : pointer) : outcome (list Z) :=
  for_up 0 XXH_ACC_NB (fun i acc => XXH3_scalarRound acc input secret i) acc.

Definition XXH3_scalarScrambleRound (acc : list Z) (secret : pointer) (lane : Z) : outcome (list Z) :=
  _ ← XXH_ASSERT (lane <? XXH_ACC_NB);
  key64 ← XXH_readLE64 (secret +! lane * 8);
  acc64 ← read_acc acc lane;
  let acc64 := XXH_xorshift64 acc64 47 in
  let acc64 := Z.lxor acc64 key64 in
  let acc64 := u64 (acc64 * XXH_PRIME32_1) in
  Done (<[Z.to_nat lane := acc64]> acc).

Definition XXH3_scrambleAcc_scalar (acc : list Z) (secret : pointer) : outcome (list Z) :=
  for_up 0 XXH_ACC_NB (fun i acc => XXH3_scalarScrambleRound acc secret i) acc.

(** [customSecret] is the buffer the secret is written to. *)
Definition XXH3_initCustomSecret_scalar (customSecret : list Z) (seed64 : Z) : outcome (list Z) :=
  let nbRounds := XXH_SECRET_DEFAULT_SIZE / 16 in
  for_up 0 nbRounds (fun i customSecret =>
    l ← XXH_readLE64 (start XXH3_kSecret +! 16 * i);
    h ← XXH_readLE64 (start XXH3_kSecret +! (16 * i + 8));
    let lo := u64 (l + seed64) in
    let hi := u64 (h - seed64) in
    customSecret ← XXH_writeLE64 (start customSecret +! 16 * i) lo;
    XXH_writeLE64 (start customSecret +! (16 * i + 8)) hi) customSecret.

(** ** Kernels *)

Abbreviation f_accumulate := (list Z -> pointer -> pointer -> Z -> outcome (list Z)).
Abbreviation f_scrambleAcc := (list Z -> pointer -> outcome (list Z)).
Abbreviation f_initCustomSecret := (list Z -> Z -> outcome (list Z)).

(** [XXH3_ACCUMULATE_TEMPLATE] *)
Definition XXH3_accumulate_of (accumulate_512 : list Z -> pointer -> pointer -> outcome (list Z)) : f_accumulate :=
  fun acc input secret nbStripes =>
    for_up 0 nbStripes (fun n acc =>
      accumulate_512 acc (input +! n * XXH_STRIPE_LEN) (secret +! n * XXH_SECRET_CONSUME_RATE)) acc.

(** What [XXH_VECTOR] selects. *)
Class Kernel := {
  XXH3_accumulate_512 : list Z -> pointer -> pointer -> outcome (list Z);
  XXH3_accumulate : f_accumulate;
  XXH3_scrambleAcc : f_scrambleAcc;
  XXH3_initCustomSecret : f_initCustomSecret;
}.

Definition XXH3_accumulate_scalar : f_accumulate := XXH3_accumulate_of XXH3_accumulate_512_scalar.
Definition scalar_kernel : Kernel := {|
  XXH3_accumulate_512 := XXH3_accumulate_512_scalar;
  XXH3_accumulate := XXH3_accumulate_scalar;
  XXH3_scrambleAcc := XXH3_scrambleAcc_scalar;
  XXH3_initCustomSecret := XXH3_initCustomSecret_scalar;
|}.

(** ** Long inputs *)

Definition XXH3_INIT_ACC : list Z :=
  [XXH_PRIME32_3; XXH_PRIME64_1; XXH_PRIME64_2; XXH_PRIME64_3;
   XXH_PRIME64_4; XXH_PRIME32_2; XXH_PRIME64_5; XXH_PRIME32_1].

Definition XXH3_mix2Accs (acc : list Z) (i : Z) (secret : pointer) : outcome Z :=
  a0 ← read_acc acc i;
  a1 ← read_acc acc (i + 1);
  s0 ← XXH_readLE64 secret;
  s8 ← XXH_readLE64 (secret +! 8);
  Done (XXH3_mul128_fold64 (Z.lxor a0 s0) (Z.lxor a1 s8)).

Definition XXH3_mergeAccs (acc : list Z) (secret : pointer) (start : Z) : outcome Z :=
  result64 ← for_up 0 4 (fun i result64 =>
    m ← XXH3_mix2Accs acc (2 * i) (secret +! 16 * i); Done (u64 (result64 + m))) start;
  Done (XXH3_avalanche result64).

Section Long.
Context `{K : Kernel}.

(** A division by zero is undefined. *)
Definition divisible_by (d : Z) : outcome unit := if d =? 0 then Faults else Done tt.

(** Subtractions of sizes wrap around, before the assertion on [secretSize] is made. *)
Definition XXH3_hashLong_internal_loop (acc : list Z) (input : pointer) (len : Z) (secret : pointer) (secretSize : Z)
    (f_acc : f_accumulate) (f_scramble : f_scrambleAcc) : outcome (list Z) :=
  let nbStripesPerBlock := u64 (secretSize - XXH_STRIPE_LEN) / XXH_SECRET_CONSUME_RATE in
  let block_len := u64 (XXH_STRIPE_LEN * nbStripesPerBlock) in
  _ ← divisible_by block_len;
  let nb_blocks := u64 (len - 1) / block_len in
  _ ← XXH_ASSERT (secretSize >=? XXH3_SECRET_SIZE_MIN);
  acc ← for_up 0 nb_blocks (fun n acc =>
    acc ← f_acc acc (input +! n * block_len) secret nbStripesPerBlock;
    f_scramble acc (secret +! (secretSize - XXH_STRIPE_LEN))) acc;
  _ ← XXH_ASSERT (len >? XXH_STRIPE_LEN);
  let nbStripes := ((len - 1) - block_len * nb_blocks) / XXH_STRIPE_LEN in
  _ ← XXH_ASSERT (nbStripes <=? secretSize / XXH_SECRET_CONSUME_RATE);
  acc ← f_acc acc (input +! nb_blocks * block_len) secret nbStripes;
  let p := input +! (len - XXH_STRIPE_LEN) in
  XXH3_accumulate_512 acc p (secret +! (secretSize - XXH_STRIPE_LEN - XXH_SECRET_LASTACC_START)).

Definition XXH3_hashLong_64b_internal (input : pointer) (len : Z) (secret : pointer) (secretSize : Z)
    (f_acc : f_accumulate) (f_scramble : f_scrambleAcc) : outcome Z :=
  acc ← XXH3_hashLong_internal_loop XXH3_INIT_ACC input len secret secretSize f_acc f_scramble;
  _ ← XXH_ASSERT (secretSize >=? 64 + XXH_SECRET_MERGEACCS_START);
  XXH3_mergeAccs acc (secret +! XXH_SECRET_MERGEACCS_START) (u64 (len * XXH_PRIME64_1)).

Definition XXH3_hashLong_64b_withSecret (input : pointer) (len seed64 : Z) (secret : pointer) (secretLen : Z) : outcome Z :=
  XXH3_hashLong_64b_internal input len secret secretLen XXH3_accumulate XXH3_scrambleAcc.
Definition XXH3_hashLong_64b_default (input : pointer) (len seed64 : Z) (secret : pointer) (secretLen : Z) : outcome Z :=
  XXH3_hashLong_64b_internal input len (start XXH3_kSecret) XXH_SECRET_DEFAULT_SIZE XXH3_accumulate XXH3_scrambleAcc.

(** The array on the stack that the secret is made in; all of it is written. *)
Definition fresh_secret : list Z := replicate (Z.to_nat XXH_SECRET_DEFAULT_SIZE) 0.

Definition XXH3_hashLong_64b_withSeed_internal (input : pointer) (len seed : Z)
    (f_acc : f_accumulate) (f_scramble : f_scrambleAcc) (f_initSec : f_initCustomSecret) : outcome Z :=
  if seed =? 0 then XXH3_hashLong_64b_internal input len (start XXH3_kSecret) XXH_SECRET_DEFAULT_SIZE f_acc f_scramble else
  secret ← f_initSec fresh_secret seed;
  XXH3_hashLong_64b_internal input len (start secret) XXH_SECRET_DEFAULT_SIZE f_acc f_scramble.
Definition XXH3_hashLong_64b_withSeed (input : pointer) (len seed : Z) (secret : pointer) (secretLen : Z) : outcome Z :=
  XXH3_hashLong_64b_withSeed_internal input len seed XXH3_accumulate XXH3_scrambleAcc XXH3_initCustomSecret.

Definition XXH3_64bits_internal (input : pointer) (len seed64 : Z) (secret : pointer) (secretLen : Z)
    (f_hashLong : pointer -> Z -> Z -> pointer -> Z -> outcome Z) : outcome Z :=
  _ ← XXH_ASSERT (secretLen >=? XXH3_SECRET_SIZE_MIN);
  if len <=? 16 then XXH3_len_0to16_64b input len secret seed64 else
  if len <=? 128 then XXH3_len_17to128_64b input len secret secretLen seed64 else
  if len <=? XXH3_MIDSIZE_MAX then XXH3_len_129to240_64b input len secret secretLen seed64 else
  f_hashLong input len seed64 secret secretLen.

Definition XXH3_64bits (input : pointer) (length : Z) : outcome Z :=
  XXH3_64bits_internal input length 0 (start XXH3_kSecret) XXH_SECRET_DEFAULT_SIZE XXH3_hashLong_64b_default.
Definition XXH3_64bits_withSecret (input : pointer) (length : Z) (secret : pointer) (secretSize : Z) : outcome Z :=
  XXH3_64bits_internal input length 0 secret secretSize XXH3_hashLong_64b_withSecret.
Definition XXH3_64bits_withSeed (input : pointer) (length seed : Z) : outcome Z :=
  XXH3_64bits_internal input length seed (start XXH3_kSecret) XXH_SECRET_DEFAULT_SIZE XXH3_hashLong_64b_withSeed.
(** The function passed for long inputs is null. *)
Definition XXH3_64bits_withSecretandSeed (input : pointer) (length : Z) (secret : pointer) (secretSize seed : Z) : outcome Z :=
  if length <=? XXH3_MIDSIZE_MAX
  then XXH3_64bits_internal input length seed (start XXH3_kSecret) XXH_SECRET_DEFAULT_SIZE (fun _ _ _ _ _ => Faults)
  else XXH3_hashLong_64b_withSecret input length seed secret secretSize.

(** *** 128 bits *)

Definition XXH3_hashLong_128b_internal (input : pointer) (len : Z) (secret : pointer) (secretSize : Z)
    (f_acc : f_accumulate) (f_scramble : f_scrambleAcc) : outcome XXH128_hash_t :=
  acc ← XXH3_hashLong_internal_loop XXH3_INIT_ACC input len secret secretSize f_acc f_scramble;
  _ ← XXH_ASSERT (secretSize >=? 64 + XXH_SECRET_MERGEACCS_START);
  low ← XXH3_mergeAccs acc (secret +! XXH_SECRET_MERGEACCS_START) (u64 (len * XXH_PRIME64_1));
  high ← XXH3_mergeAccs acc (secret +! (secretSize - 64 - XXH_SECRET_MERGEACCS_START))
           (u64 (Z.lnot (u64 (len * XXH_PRIME64_2))));
  Done (XXH128Hash low high).

Definition XXH3_hashLong_128b_default (input : pointer) (len seed64 : Z) (secret : pointer) (secretLen : Z) : outcome XXH128_hash_t :=
  XXH3_hashLong_128b_internal input len (start XXH3_kSecret) XXH_SECRET_DEFAULT_SIZE XXH3_accumulate XXH3_scrambleAcc.
Definition XXH3_hashLong_128b_withSecret (input : pointer) (len seed64 : Z) (secret : pointer) (secretLen : Z) : outcome XXH128_hash_t :=
  XXH3_hashLong_128b_internal input len secret secretLen XXH3_accumulate XXH3_scrambleAcc.

Definition XXH3_hashLong_128b_withSeed_internal (input : pointer) (len seed64 : Z)
    (f_acc : f_accumulate) (f_scramble : f_scrambleAcc) (f_initSec : f_initCustomSecret) : outcome XXH128_hash_t :=
  if seed64 =? 0 then XXH3_hashLong_128b_internal input len (start XXH3_kSecret) XXH_SECRET_DEFAULT_SIZE f_acc f_scramble else
  secret ← f_initSec fresh_secret seed64;
  XXH3_hashLong_128b_internal input len (start secret) XXH_SECRET_DEFAULT_SIZE f_acc f_scramble.
Definition XXH3_hashLong_128b_withSeed (input : pointer) (len seed64 : Z) (secret : pointer) (secretLen : Z) : outcome XXH128_hash_t :=
  XXH3_hashLong_128b_withSeed_internal input len seed64 XXH3_accumulate XXH3_scrambleAcc XXH3_initCustomSecret.

Definition XXH3_128bits_internal (input : pointer) (len seed64 : Z) (secret : pointer) (secretLen : Z)
    (f_hl128 : pointer -> Z -> Z -> pointer -> Z -> outcome XXH128_hash_t) : outcome XXH128_hash_t :=
  _ ← XXH_ASSERT (secretLen >=? XXH3_SECRET_SIZE_MIN);
  if len <=? 16 then XXH3_len_0to16_128b input len secret seed64 else
  if len <=? 128 then XXH3_len_17to128_128b input len secret secretLen seed64 else
  if len <=? XXH3_MIDSIZE_MAX then XXH3_len_129to240_128b input len secret secretLen seed64 else
  f_hl128 input len seed64 secret secretLen.

Definition XXH3_128bits (input : pointer) (len : Z) : outcome XXH128_hash_t :=
  XXH3_128bits_internal input len 0 (start XXH3_kSecret) XXH_SECRET_DEFAULT_SIZE XXH3_hashLong_128b_default.
Definition XXH3_128bits_withSecret (input : pointer) (len : Z) (secret : pointer) (secretSize : Z) : outcome XXH128_hash_t :=
  XXH3_128bits_internal input len 0 secret secretSize XXH3_hashLong_128b_withSecret.
Definition XXH3_128bits_withSeed (input : pointer) (len seed : Z) : outcome XXH128_hash_t :=
  XXH3_128bits_internal input len seed (start XXH3_kSecret) XXH_SECRET_DEFAULT_SIZE XXH3_hashLong_128b_withSeed.
Definition XXH3_128bits_withSecretandSeed (input : pointer) (len : Z) (secret : pointer) (secretSize seed : Z) : outcome XXH128_hash_t :=
  if len <=? XXH3_MIDSIZE_MAX
  then XXH3_128bits_internal input len seed (start XXH3_kSecret) XXH_SECRET_DEFAULT_SIZE (fun _ _ _ _ _ => Faults)
  else XXH3_hashLong_128b_withSecret input len seed secret secretSize.
Definition XXH128 (input : pointer) (len seed : Z) : outcome XXH128_hash_t := XXH3_128bits_withSeed input len seed.

End Long.
