(* ===== verification/Xxh3LongTheorems.v ===== *)
(** * XXH3: long inputs, theorems

    What a [Kernel] has to compute ([Kernel_laws]), that the scalar one does, the
    hash of a long input as a fold over its stripes ([long_acc]), and the memory
    safety and totality of the one-shot interface. *)
From S2P Require Import Prelude Xxhash Xxh3 Xxh3Theorems Xxh3Long.

(** ** The accumulators as values *)

Definition lanes_of (bs : list Z) : list Z := map (fun i => bytes_at 8 bs (8 * i)) [0; 1; 2; 3; 4; 5; 6; 7].

Fixpoint swap_pairs (l : list Z) : list Z :=
  match l with x :: y :: l => y :: x :: swap_pairs l | _ => l end.

Definition product (d k : Z) : Z := let dk := Z.lxor d k in u32 dk * Z.shiftr dk 32.
Definition accumulated (acc data key : list Z) : list Z :=
  zip_with (fun a x => u64 (a + x)) acc (zip_with Z.add (swap_pairs data) (zip_with product data key)).
Definition scrambled (acc key : list Z) : list Z :=
  zip_with (fun a k => u64 (Z.lxor (XXH_xorshift64 a 47) k * XXH_PRIME32_1)) acc key.

(** The secret of a seed. *)
Definition secret_pair (seed i : Z) : list Z :=
  le_split 8 (u64 (bytes_at 8 XXH3_kSecret (16 * i) + seed)) ++ le_split 8 (u64 (bytes_at 8 XXH3_kSecret (16 * i + 8) - seed)).
Definition custom_secret (seed : Z) : list Z := concat (map (secret_pair seed) (seqZ 0 12)).

Record accumulators (acc : list Z) : Prop := { acc_lanes : length acc = 8%nat; acc_range : Forall lane64 acc }.

Class Kernel_laws (K : Kernel) : Prop := {
  accumulate_512_law acc p s bs ks :
    accumulators acc -> Forall byte_range bs -> Forall byte_range ks -> (64 <= length bs)%nat -> (64 <= length ks)%nat ->
    holds p bs -> holds s ks -> XXH3_accumulate_512 acc p s = Done (accumulated acc (lanes_of bs) (lanes_of ks));
  accumulate_law acc p s n bs ks :
    accumulators acc -> Forall byte_range bs -> Forall byte_range ks ->
    0 <= n -> n * 64 <= Z.of_nat (length bs) -> n * 8 + 56 <= Z.of_nat (length ks) ->
    holds p bs -> holds s ks -> XXH3_accumulate acc p s n = XXH3_accumulate_of XXH3_accumulate_512 acc p s n;
  scrambleAcc_law acc s ks :
    accumulators acc -> Forall byte_range ks -> (64 <= length ks)%nat -> holds s ks ->
    XXH3_scrambleAcc acc s = Done (scrambled acc (lanes_of ks));
  initCustomSecret_law buf seed :
    length buf = Z.to_nat XXH_SECRET_DEFAULT_SIZE -> lane64 seed -> XXH3_initCustomSecret buf seed = Done (custom_secret seed);
}.

Lemma accumulators_8 acc :
  accumulators acc -> exists a0 a1 a2 a3 a4 a5 a6 a7, acc = [a0; a1; a2; a3; a4; a5; a6; a7].
Proof.
  intros [L _]. do 8 (destruct acc as [|? acc]; [discriminate L|]). destruct acc; [|discriminate L]. eauto 10.
Qed.

Lemma init_accumulators : accumulators XXH3_INIT_ACC.
Proof. split; [done|]. repeat constructor; vm_compute; congruence. Qed.

Lemma length_lanes_of bs : length (lanes_of bs) = 8%nat.
Proof. done. Qed.

Lemma accumulators_zip {A} f acc (l : list A) :
  accumulators acc -> length l = 8%nat -> (forall a b, lane64 (f a b)) -> accumulators (zip_with f acc l).
Proof.
  intros [L _] L' Hf. split; [rewrite length_zip_with; lia|].
  apply Forall_zip_with_snd with (P := fun _ => True); apply Forall_true; auto.
Qed.

Lemma length_swap_pairs l : length (swap_pairs l) = length l.
Proof.
  remember (length l) as n eqn:E. revert l E. induction n as [n IH] using lt_wf_ind. intros l ->.
  destruct l as [|x [|y l]]; cbn [swap_pairs length]; [done..|]. do 2 f_equal. eapply IH; [|done]. cbn. lia.
Qed.

Lemma accumulated_ok acc bs ks : accumulators acc -> accumulators (accumulated acc (lanes_of bs) (lanes_of ks)).
Proof. intros H. apply accumulators_zip; [done| |intros; apply u64_lane]. by rewrite !length_zip_with, length_swap_pairs. Qed.

Lemma scrambled_ok acc ks : accumulators acc -> accumulators (scrambled acc (lanes_of ks)).
Proof. intros H. apply accumulators_zip; [done|done|intros; apply u64_lane]. Qed.

(** ** The scalar kernel *)

Lemma add_product a d k x :
  lane64 d -> lane64 k ->
  XXH_mult32to64_add64 (Z.lxor d k) (Z.shiftr (Z.lxor d k) 32) (u64 (a + x)) = u64 (a + (x + product d k)).
Proof.
  intros Hd Hk. pose proof (lxor_lane _ _ Hd Hk) as [H0 H1]. unfold XXH_mult32to64_add64, product.
  set (dk := Z.lxor d k) in *. rewrite high_half. rewrite (wrap_small 32 (dk / 2 ^ 32)) by (pow2_norm; zdiv_lia).
  rewrite mult32to64_small by (first [apply wrap_bound; lia|pow2_norm; zdiv_lia]).
  rewrite wrap_add_r by lia. f_equal. lia.
Qed.

Lemma product_add a d k x :
  lane64 d -> lane64 k ->
  u64 (XXH_mult32to64_add64 (Z.lxor d k) (Z.shiftr (Z.lxor d k) 32) a + x) = u64 (a + (x + product d k)).
Proof.
  intros Hd Hk. pose proof (lxor_lane _ _ Hd Hk) as [H0 H1]. unfold XXH_mult32to64_add64, product.
  set (dk := Z.lxor d k) in *. rewrite high_half. rewrite (wrap_small 32 (dk / 2 ^ 32)) by (pow2_norm; zdiv_lia).
  rewrite mult32to64_small by (first [apply wrap_bound; lia|pow2_norm; zdiv_lia]).
  rewrite wrap_add_l by lia. f_equal. lia.
Qed.

(** A pair of lanes: the even one first. *)
Lemma scalar_pair acc p s bs ks i a0 a1 :
  Forall byte_range bs -> Forall byte_range ks -> (64 <= length bs)%nat -> (64 <= length ks)%nat ->
  holds p bs -> holds s ks -> length acc = 8%nat -> 0 <= i < 4 ->
  acc !! Z.to_nat (2 * i) = Some a0 -> acc !! Z.to_nat (2 * i + 1) = Some a1 ->
  let d j := bytes_at 8 bs (8 * j) in
  let k j := bytes_at 8 ks (8 * j) in
  for_loop 2 (2 * i) (fun j acc => XXH3_scalarRound acc p s j) acc
  = Done (<[Z.to_nat (2 * i + 1) := u64 (a1 + (d (2 * i) + product (d (2 * i + 1)) (k (2 * i + 1))))]>
         (<[Z.to_nat (2 * i) := u64 (a0 + (d (2 * i + 1) + product (d (2 * i)) (k (2 * i))))]> acc)).
Proof.
  intros Hb Hk Lb Lk Hp Hs La Hi E0 E1 d k.
  assert (X : Z.lxor (2 * i) 1 = 2 * i + 1 /\ Z.lxor (2 * i + 1) 1 = 2 * i).
  { assert (C : i = 0 \/ i = 1 \/ i = 2 \/ i = 3) by lia. by destruct C as [->|[->|[->| ->]]]. }
  destruct X as [X0 X1]. cbn [for_loop]. unfold XXH3_scalarRound, read_acc, byte_at, XXH_ACC_NB, XXH_STRIPE_LEN.
  rewrite X0, X1. rewrite !(proj2 (Z.ltb_lt _ _)) by (change (64 / 8) with 8; lia).
  rewrite !(proj2 (Z.leb_le _ _)) by lia. cbn [XXH_ASSERT]. rewrite !bind_done.
  rewrite (read64_holds p bs (2 * i * 8)), (read64_holds s ks (2 * i * 8)) by (auto; lia). rewrite !bind_done.
  rewrite E1. cbn [demand]. rewrite bind_done.
  rewrite list_lookup_insert_ne, E0 by lia. cbn [demand]. rewrite !bind_done.
  rewrite (read64_holds p bs), (read64_holds s ks) by (auto; lia). rewrite !bind_done.
  rewrite list_lookup_insert_eq by (rewrite length_insert; lia). cbn [demand]. rewrite bind_done.
  rewrite list_lookup_insert_ne, list_lookup_insert_ne, list_lookup_insert_eq by lia. cbn [demand]. rewrite bind_done.
  replace (2 * i * 8) with (8 * (2 * i)) by lia. replace ((2 * i + 1) * 8) with (8 * (2 * i + 1)) by lia.
  f_equal. rewrite product_add, add_product by by apply bytes_at_lane.
  rewrite list_insert_insert_eq.
  rewrite (list_insert_insert_ne _ (Z.to_nat (2 * i)) (Z.to_nat (2 * i + 1))) by lia. by rewrite list_insert_insert_eq.
Qed.

Lemma accumulate_512_scalar_value acc p s bs ks :
  accumulators acc -> Forall byte_range bs -> Forall byte_range ks -> (64 <= length bs)%nat -> (64 <= length ks)%nat ->
  holds p bs -> holds s ks ->
  XXH3_accumulate_512_scalar acc p s = Done (accumulated acc (lanes_of bs) (lanes_of ks)).
Proof.
  intros Ha Hb Hk Lb Lk Hp Hs. destruct (accumulators_8 acc Ha) as (a0 & a1 & a2 & a3 & a4 & a5 & a6 & a7 & ->).
  unfold XXH3_accumulate_512_scalar, for_up. change (Z.to_nat (XXH_ACC_NB - 0)) with (2 + (2 + (2 + 2)))%nat.
  rewrite for_loop_app, (scalar_pair _ p s bs ks 0 a0 a1), bind_done by (try assumption; reflexivity || lia).
  change (0 + Z.of_nat 2) with (2 * 1).
  rewrite for_loop_app, (scalar_pair _ p s bs ks 1 a2 a3), bind_done by (try assumption; reflexivity || lia).
  change (2 * 1 + Z.of_nat 2) with (2 * 2).
  rewrite for_loop_app, (scalar_pair _ p s bs ks 2 a4 a5), bind_done by (try assumption; reflexivity || lia).
  change (2 * 2 + Z.of_nat 2) with (2 * 3).
  rewrite (scalar_pair _ p s bs ks 3 a6 a7) by (try assumption; reflexivity || lia). reflexivity.
Qed.

Lemma scalarScrambleRound_value acc s ks i a :
  length acc = 8%nat -> (64 <= length ks)%nat -> holds s ks -> 0 <= i < 8 -> acc !! Z.to_nat i = Some a ->
  XXH3_scalarScrambleRound acc s i
  = Done (<[Z.to_nat i := u64 (Z.lxor (XXH_xorshift64 a 47) (bytes_at 8 ks (8 * i)) * XXH_PRIME32_1)]> acc).
Proof.
  intros L Lk Hs Hi E. unfold XXH3_scalarScrambleRound, read_acc, byte_at.
  rewrite (proj2 (Z.ltb_lt _ _)) by (change XXH_ACC_NB with 8; lia).
  rewrite (proj2 (Z.leb_le _ _)) by lia. cbn [XXH_ASSERT]. rewrite bind_done.
  rewrite (read64_holds s ks) by (auto; lia). rewrite bind_done, E. cbn [demand].
  by rewrite bind_done, (Z.mul_comm i 8).
Qed.

Lemma scrambleAcc_scalar_value acc s ks :
  accumulators acc -> Forall byte_range ks -> (64 <= length ks)%nat -> holds s ks ->
  XXH3_scrambleAcc_scalar acc s = Done (scrambled acc (lanes_of ks)).
Proof.
  intros Ha Hk Lk Hs. unfold XXH3_scrambleAcc_scalar. change XXH_ACC_NB with (Z.of_nat 8).
  destruct (accumulators_8 acc Ha) as (a0 & a1 & a2 & a3 & a4 & a5 & a6 & a7 & ->).
  unfold for_up. change (Z.to_nat (Z.of_nat 8 - 0)) with 8%nat. cbn [for_loop].
  by repeat (erewrite (scalarScrambleRound_value _ s ks) by (done || lia); rewrite bind_done).
Qed.

(** ** The secret of a seed *)

Lemma memcpy_at p bs :
  0 <= index p -> index p + Z.of_nat (length bs) <= Z.of_nat (length (block p)) ->
  XXH_memcpy p bs = Done (take (Z.to_nat (index p)) (block p) ++ bs ++ drop (Z.to_nat (index p) + length bs) (block p)).
Proof. intros H1 H2. unfold XXH_memcpy. by rewrite !(proj2 (Z.leb_le _ _)) by lia. Qed.

(** Writing in order what follows on what was written before. *)
Lemma memcpy_next b done bs :
  take (length done) b = done -> (length done + length bs <= length b)%nat ->
  exists b', XXH_memcpy (Pointer b (Z.of_nat (length done))) bs = Done b'
    /\ length b' = length b /\ take (length (done ++ bs)) b' = done ++ bs.
Proof.
  intros T L. rewrite memcpy_at by (cbn; lia). cbn [block index]. rewrite Nat2Z.id, T. eexists. split; [done|]. split.
  - rewrite !length_app, length_drop. lia.
  - rewrite app_assoc. apply take_app_length'. done.
Qed.

Lemma memcpy_pair b done lo hi n :
  n = Z.of_nat (length done) -> length lo = 8%nat -> take (length done) b = done -> (length done + 8 + length hi <= length b)%nat ->
  exists b', (b1 ← XXH_memcpy (start b +! n) lo; XXH_memcpy (start b1 +! (n + 8)) hi) = Done b'
    /\ length b' = length b /\ take (length (done ++ lo ++ hi)) b' = done ++ lo ++ hi.
Proof.
  intros -> Ll T L. unfold advance, start. cbn [block index]. rewrite !Z.add_0_l.
  destruct (memcpy_next b done lo) as (b1 & -> & L1 & T1); [done|lia|]. rewrite bind_done.
  destruct (memcpy_next b1 (done ++ lo) hi) as (b2 & E & L2 & T2); [done|rewrite length_app; lia|].
  exists b2. rewrite length_app, Nat2Z.inj_add, Ll in E. split; [exact E|]. split; [lia|]. by rewrite app_assoc.
Qed.

Lemma length_secret_pair seed i : length (secret_pair seed i) = 16%nat.
Proof. unfold secret_pair. by rewrite length_app, !le_split_length. Qed.

Lemma length_secret_pairs seed l : length (concat (map (secret_pair seed) l)) = (16 * length l)%nat.
Proof. induction l as [|i l IH]; cbn [map concat length]; [done|]. rewrite length_app, length_secret_pair, IH. lia. Qed.

Lemma length_custom_secret seed : length (custom_secret seed) = 192%nat.
Proof. apply length_secret_pairs. Qed.

Lemma custom_secret_range seed : Forall byte_range (custom_secret seed).
Proof.
  unfold custom_secret. generalize (seqZ 0 12). intros l. induction l as [|i l IH]; cbn [map concat]; [done|].
  apply Forall_app. split; [|done]. apply Forall_app. split; apply le_split_range.
Qed.

Lemma kSecret_range : Forall byte_range XXH3_kSecret.
Proof. apply (bool_decide_unpack _). by vm_compute. Qed.

Lemma initCustomSecret_scalar_value buf seed :
  length buf = Z.to_nat XXH_SECRET_DEFAULT_SIZE -> XXH3_initCustomSecret_scalar buf seed = Done (custom_secret seed).
Proof.
  intros L. unfold XXH3_initCustomSecret_scalar, for_up. cbv zeta.
  lazymatch goal with |- for_loop ?rounds ?first ?body ?dst = _ =>
    destruct (for_loop_inv (fun i b => length b = 192%nat
      /\ let done := concat (map (secret_pair seed) (seqZ 0 i)) in take (length done) b = done) rounds first body dst) as (b' & E & Lb & T)
  end.
  - split; [exact L|]. cbn. done.
  - intros i b Hi [Lb T]. change (Z.of_nat (Z.to_nat (XXH_SECRET_DEFAULT_SIZE / 16 - 0))) with 12 in Hi. cbv zeta in *.
    pose proof (holds_start XXH3_kSecret) as Hs. assert (Lk : length XXH3_kSecret = 192%nat) by done.
    rewrite (read64_holds _ _ (16 * i) Hs), (read64_holds _ _ (16 * i + 8) Hs), !bind_done by lia. clear Hs.
    set (done := concat (map (secret_pair seed) (seqZ 0 i))) in *.
    assert (Ld : length done = Z.to_nat (16 * i)) by (subst done; rewrite length_secret_pairs, length_seqZ; lia).
    destruct (memcpy_pair b done (le_split 8 (u64 (bytes_at 8 XXH3_kSecret (16 * i) + seed)))
      (le_split 8 (u64 (bytes_at 8 XXH3_kSecret (16 * i + 8) - seed))) (16 * i)) as (b' & E & L' & T');
      [lia|apply le_split_length|done|rewrite le_split_length; lia|].
    exists b'. split; [exact E|]. split; [lia|].
    replace (concat (map (secret_pair seed) (seqZ 0 (i + 1)))) with (done ++ secret_pair seed i); [exact T'|].
    rewrite seqZ_app, map_app, concat_app by lia. replace (seqZ (0 + i) 1) with [i] by (unfold seqZ; cbn; f_equal; lia).
    cbn [map concat]. by rewrite app_nil_r.
  - rewrite E. f_equal. cbv zeta in T. rewrite take_ge in T; [exact T|].
    rewrite length_secret_pairs, length_seqZ, Lb. change (Z.to_nat (XXH_SECRET_DEFAULT_SIZE / 16 - 0)) with 12%nat. lia.
Qed.

#[export] Instance scalar_kernel_laws : Kernel_laws scalar_kernel.
Proof.
  split.
  - exact accumulate_512_scalar_value.
  - reflexivity.
  - exact scrambleAcc_scalar_value.
  - intros. by apply initCustomSecret_scalar_value.
Qed.

(** ** Stripes *)

Lemma bytes_at_app bs cs k : 0 <= k -> k + 8 <= Z.of_nat (length bs) -> bytes_at 8 (bs ++ cs) k = bytes_at 8 bs k.
Proof.
  intros H1 H2. unfold bytes_at. rewrite drop_app_le, take_app_le by (try rewrite length_drop; lia). done.
Qed.

Lemma lanes_of_app bs cs : (64 <= length bs)%nat -> lanes_of (bs ++ cs) = lanes_of bs.
Proof.
  intros L. unfold lanes_of. apply map_ext_in. intros i Hi. apply bytes_at_app; cbn in Hi; lia.
Qed.

Lemma lanes_of_take n bs : (64 <= n)%nat -> (n <= length bs)%nat -> lanes_of (take n bs) = lanes_of bs.
Proof. intros Hn L. rewrite <- (take_drop n bs) at 2. rewrite lanes_of_app; [done|]. rewrite length_take. lia. Qed.

Lemma Forall_drop_bytes n bs : Forall byte_range bs -> Forall byte_range (drop n bs).
Proof. apply Forall_drop. Qed.

Section Stripes.
Context (ks : list Z).
Let size := Z.of_nat (length ks).

Definition key_at (i : Z) : list Z := lanes_of (drop (Z.to_nat (8 * i)) ks).
Definition last_key : list Z := lanes_of (drop (Z.to_nat (size - 64)) ks).
(** Stripes in a block. *)
Definition per_block : Z := (size - 64) / 8.

(** Stripes within a block: [n] of them from the [i]-th key on. *)
Fixpoint run (n : nat) (acc : list Z) (i : Z) (bs : list Z) : list Z :=
  match n with O => acc | S n => run n (accumulated acc (lanes_of bs) (key_at i)) (i + 1) (drop 64 bs) end.

(** One stripe at a time: the accumulators and the number of stripes since the last
    scramble, which comes at the end of a block. *)
Definition absorb1 (st : list Z * Z) (bs : list Z) : list Z * Z :=
  let '(acc, i) := st in
  let acc := accumulated acc (lanes_of bs) (key_at i) in
  if i + 1 =? per_block then (scrambled acc last_key, 0) else (acc, i + 1).
Fixpoint absorb (n : nat) (st : list Z * Z) (bs : list Z) : list Z * Z :=
  match n with O => st | S n => absorb n (absorb1 st bs) (drop 64 bs) end.

(** The accumulators after all of a message: the last stripe is the last 64 bytes,
    with a key of its own. *)
Definition long_acc (bs : list Z) : list Z :=
  let len := Z.of_nat (length bs) in
  accumulated (fst (absorb (Z.to_nat ((len - 1) / 64)) (XXH3_INIT_ACC, 0) bs))
    (lanes_of (drop (Z.to_nat (len - 64)) bs)) (lanes_of (drop (Z.to_nat (size - 64 - 7)) ks)).

Lemma absorb_add n m st bs : absorb (n + m) st bs = absorb m (absorb n st bs) (drop (64 * n) bs).
Proof.
  revert st bs. induction n as [|n IH]; intros st bs; cbn [Nat.add absorb]; [by rewrite Nat.mul_0_r, drop_0|].
  rewrite IH, drop_drop. do 2 f_equal. lia.
Qed.

Lemma absorb_app n st bs cs : (64 * n <= length bs)%nat -> absorb n st (bs ++ cs) = absorb n st bs.
Proof.
  revert st bs. induction n as [|n IH]; intros st bs L; [done|]. cbn [absorb]. rewrite drop_app_le by lia.
  rewrite IH by (rewrite length_drop; lia). unfold absorb1. destruct st. by rewrite lanes_of_app by lia.
Qed.

Lemma absorb_run n acc i bs : 0 <= i -> i + Z.of_nat n < per_block -> absorb n (acc, i) bs = (run n acc i bs, i + Z.of_nat n).
Proof.
  revert acc i bs. induction n as [|n IH]; intros acc i bs Hi Hn; cbn [absorb run absorb1].
  - f_equal. lia.
  - rewrite (proj2 (Z.eqb_neq _ _)) by lia. rewrite IH by lia. f_equal. lia.
Qed.

Lemma run_snoc n acc i bs :
  run (S n) acc i bs = accumulated (run n acc i bs) (lanes_of (drop (64 * n) bs)) (key_at (i + Z.of_nat n)).
Proof.
  revert acc i bs. induction n as [|n IH]; intros acc i bs.
  - cbn [run]. rewrite Nat.mul_0_r, drop_0. do 2 f_equal. lia.
  - change (run (S (S n)) acc i bs) with (run (S n) (accumulated acc (lanes_of bs) (key_at i)) (i + 1) (drop 64 bs)).
    rewrite IH, drop_drop. cbn [run]. f_equal; f_equal; [f_equal; lia|lia].
Qed.

Lemma absorb_block n acc i bs :
  0 <= i -> i + Z.of_nat n = per_block -> (0 < n)%nat -> absorb n (acc, i) bs = (scrambled (run n acc i bs) last_key, 0).
Proof.
  intros Hi Hn Hpos. destruct n as [|n]; [lia|]. rewrite <- Nat.add_1_r, absorb_add, absorb_run by lia.
  cbn [absorb absorb1]. rewrite (proj2 (Z.eqb_eq _ _)) by lia. by rewrite Nat.add_1_r, run_snoc.
Qed.

Lemma run_ok n acc i bs : accumulators acc -> accumulators (run n acc i bs).
Proof.
  revert acc i bs. induction n as [|n IH]; intros acc i bs Ha; [done|]. cbn [run].
  apply IH. unfold key_at. by apply accumulated_ok.
Qed.

Lemma absorb_ok n st bs : accumulators (fst st) -> accumulators (fst (absorb n st bs)).
Proof.
  revert st bs. induction n as [|n IH]; intros [acc i] bs Ha; [done|]. cbn [absorb]. apply IH.
  unfold absorb1, key_at, last_key. destruct (_ =? _); cbn [fst] in *; by repeat first [apply scrambled_ok|apply accumulated_ok].
Qed.

Lemma absorb_bound n st bs : 0 < per_block -> 0 <= snd st < per_block -> 0 <= snd (absorb n st bs) < per_block.
Proof.
  intros Hp. revert st bs. induction n as [|n IH]; intros [acc i] bs Hi; [done|]. cbn [absorb]. apply IH.
  unfold absorb1. cbn [snd] in Hi. destruct (Z.eqb_spec (i + 1) per_block); cbn [snd]; lia.
Qed.

End Stripes.

(** ** Long inputs, with any kernel *)

(** An assertion that holds. *)
Ltac passes :=
  lazymatch goal with |- XXH_ASSERT ?c ≫= _ = _ =>
    replace c with true by
      (unfold XXH_STRIPE_LEN, XXH3_SECRET_SIZE_MIN, XXH_SECRET_CONSUME_RATE, XXH_SECRET_MERGEACCS_START in *; symmetry;
       repeat (apply andb_true_intro; split); lia);
    cbn [XXH_ASSERT]; rewrite bind_done
  end.

(** [accumulate_512] adds a stripe. *)
Definition adds_stripe (accumulate_512 : list Z -> pointer -> pointer -> outcome (list Z)) : Prop :=
  forall acc p s bs ks,
    accumulators acc -> Forall byte_range bs -> Forall byte_range ks -> (64 <= length bs)%nat -> (64 <= length ks)%nat ->
    holds p bs -> holds s ks -> accumulate_512 acc p s = Done (accumulated acc (lanes_of bs) (lanes_of ks)).

Lemma accumulate_of_value accumulate_512 ks acc p s i n bs :
  adds_stripe accumulate_512 -> Forall byte_range ks ->
  accumulators acc -> Forall byte_range bs -> holds p bs -> holds s ks ->
  0 <= i -> (i + Z.of_nat n) * 8 + 56 <= Z.of_nat (length ks) -> (64 * n <= length bs)%nat ->
  XXH3_accumulate_of accumulate_512 acc p (s +! i * 8) (Z.of_nat n) = Done (run ks n acc i bs).
Proof.
  intros Hacc Hk Ha Hb Hp Hs Hi Hn Lb. unfold XXH3_accumulate_of, for_up. rewrite Z.sub_0_r, Nat2Z.id.
  destruct (for_loop_inv (fun j acc' => acc' = run ks (Z.to_nat j) acc i bs) n 0
    (fun n acc => accumulate_512 acc (p +! n * XXH_STRIPE_LEN) (s +! i * 8 +! n * XXH_SECRET_CONSUME_RATE)) acc)
    as (acc' & -> & ->); [done| |by rewrite Z.add_0_l, Nat2Z.id].
  intros j acc' Hj ->. unfold XXH_STRIPE_LEN, XXH_SECRET_CONSUME_RATE. rewrite advance_advance.
  rewrite (Hacc _ _ _ (drop (Z.to_nat (j * 64)) bs) (drop (Z.to_nat (8 * (i + j))) ks)).
  - eexists. split; [done|]. rewrite Z2Nat.inj_add, Nat.add_1_r, run_snoc by lia.
    rewrite Z2Nat.id by lia. do 3 f_equal. lia.
  - by apply run_ok.
  - by apply Forall_drop.
  - by apply Forall_drop.
  - rewrite length_drop. lia.
  - rewrite length_drop. lia.
  - apply holds_drop; [lia|done].
  - replace (i * 8 + j * 8) with (8 * (i + j)) by lia. apply holds_drop; [lia|done].
Qed.

Section Kernels.
Context {K : Kernel} {L : Kernel_laws K}.
Context (ks : list Z) (Hk : Forall byte_range ks).
Let size := Z.of_nat (length ks).
Context (Hsize : 136 <= size < 2 ^ 60).

Lemma key_range i : Forall byte_range (drop (Z.to_nat (8 * i)) ks).
Proof. by apply Forall_drop. Qed.

Lemma per_block_bounds : 9 <= per_block ks /\ per_block ks * 8 + 64 <= size.
Proof. unfold per_block. fold size. zdiv_lia. Qed.

Lemma accumulate_value acc p s i n bs :
  accumulators acc -> Forall byte_range bs -> holds p bs -> holds s ks ->
  0 <= i -> (i + Z.of_nat n) * 8 + 56 <= size -> (64 * n <= length bs)%nat ->
  XXH3_accumulate acc p (s +! i * 8) (Z.of_nat n) = Done (run ks n acc i bs).
Proof.
  intros Ha Hb Hp Hs Hi Hn Lb.
  assert (Hs' : holds (s +! i * 8) (drop (Z.to_nat (i * 8)) ks)) by (apply holds_drop; [lia|done]).
  rewrite (accumulate_law _ _ _ _ bs (drop (Z.to_nat (i * 8)) ks)) by
    (first [assumption|by apply Forall_drop|rewrite length_drop; lia|lia]).
  apply accumulate_of_value; auto. intros ?. apply accumulate_512_law.
Qed.

Lemma scramble_value acc s :
  accumulators acc -> holds s ks -> XXH3_scrambleAcc acc (s +! (size - 64)) = Done (scrambled acc (last_key ks)).
Proof.
  intros Ha Hs. unfold last_key. apply scrambleAcc_law; [done|by apply Forall_drop|rewrite length_drop; lia|].
  apply holds_drop; [lia|done].
Qed.

Lemma last_stripe_value acc p s k bs :
  accumulators acc -> Forall byte_range bs -> holds p (drop (Z.to_nat k) bs) -> holds s ks ->
  0 <= k -> k + 64 <= Z.of_nat (length bs) ->
  XXH3_accumulate_512 acc p (s +! (size - 64 - 7))
  = Done (accumulated acc (lanes_of (drop (Z.to_nat k) bs)) (lanes_of (drop (Z.to_nat (size - 64 - 7)) ks))).
Proof.
  intros Ha Hb Hp Hs Hk0 Hkl.
  apply accumulate_512_law; [done|by apply Forall_drop|by apply Forall_drop|rewrite length_drop; lia|rewrite length_drop; lia|done|].
  apply holds_drop; [lia|done].
Qed.

(** [nb] whole blocks. *)
Lemma blocks_value (nb : nat) p s bs :
  Forall byte_range bs -> holds p bs -> holds s ks -> Z.of_nat nb * (64 * per_block ks) <= Z.of_nat (length bs) ->
  exists acc, for_up 0 (Z.of_nat nb) (fun n acc =>
      acc ← XXH3_accumulate acc (p +! n * (64 * per_block ks)) s (per_block ks);
      XXH3_scrambleAcc acc (s +! (size - XXH_STRIPE_LEN))) XXH3_INIT_ACC = Done acc
    /\ accumulators acc
    /\ absorb ks (nb * Z.to_nat (per_block ks)) (XXH3_INIT_ACC, 0) bs = (acc, 0).
Proof.
  intros Hb Hp Hs Lb. pose proof per_block_bounds as [B1 B2]. unfold for_up. rewrite Z.sub_0_r, Nat2Z.id.
  destruct (for_loop_inv (fun n acc => accumulators acc
      /\ absorb ks (Z.to_nat n * Z.to_nat (per_block ks)) (XXH3_INIT_ACC, 0) bs = (acc, 0)) nb 0
    (fun n acc => acc ← XXH3_accumulate acc (p +! n * (64 * per_block ks)) s (per_block ks);
      XXH3_scrambleAcc acc (s +! (size - XXH_STRIPE_LEN))) XXH3_INIT_ACC) as (acc & E & Ha & Eabs).
  - split; [apply init_accumulators|done].
  - intros n acc Hn [Ha E].
    pose proof (accumulate_value acc (p +! n * (64 * per_block ks)) s 0 (Z.to_nat (per_block ks))
      (drop (Z.to_nat (n * (64 * per_block ks))) bs) Ha ltac:(by apply Forall_drop)) as V.
    rewrite Z2Nat.id, Z.mul_0_l, advance_0 in V by lia.
    rewrite V, bind_done by (first [done|apply holds_drop; [nia|done]|rewrite length_drop; nia|lia]).
    unfold XXH_STRIPE_LEN. rewrite scramble_value by (try done; by apply run_ok). eexists. split; [done|]. split.
    + unfold last_key. by apply scrambled_ok, run_ok.
    + rewrite Z2Nat.inj_add, Nat.mul_add_distr_r, Nat.mul_1_l, absorb_add, E by lia.
      rewrite absorb_block by lia. do 3 f_equal. f_equal. lia.
  - exists acc. rewrite Z.add_0_l, Nat2Z.id in Eabs. auto.
Qed.

Lemma hashLong_loop_value p s bs :
  Forall byte_range bs -> holds p bs -> holds s ks -> 64 < Z.of_nat (length bs) < 2 ^ 64 ->
  XXH3_hashLong_internal_loop XXH3_INIT_ACC p (Z.of_nat (length bs)) s size XXH3_accumulate XXH3_scrambleAcc
  = Done (long_acc ks bs).
Proof.
  intros Hb Hp Hs Lb. set (len := Z.of_nat (length bs)) in *. pose proof per_block_bounds as [B1 B2].
  unfold XXH3_hashLong_internal_loop. cbv zeta.
  assert (Enb : u64 (size - XXH_STRIPE_LEN) / XXH_SECRET_CONSUME_RATE = per_block ks).
  { rewrite wrap_small; [done|]. unfold XXH_STRIPE_LEN. pow2_norm. lia. }
  rewrite Enb. assert (Ebl : u64 (XXH_STRIPE_LEN * per_block ks) = 64 * per_block ks).
  { apply wrap_small. unfold XXH_STRIPE_LEN. pow2_norm. lia. }
  rewrite Ebl. rewrite (wrap_small 64 (len - 1)) by (pow2_norm; lia).
  unfold divisible_by. rewrite (proj2 (Z.eqb_neq _ _)) by lia. rewrite bind_done.
  passes.
  pose proof (Z.div_mod (len - 1) (64 * per_block ks) ltac:(lia)) as Dm.
  pose proof (Z.mod_pos_bound (len - 1) (64 * per_block ks) ltac:(lia)) as Dr.
  set (nb := (len - 1) / (64 * per_block ks)) in *. assert (Hnb : 0 <= nb) by (apply Z.div_pos; lia).
  destruct (blocks_value (Z.to_nat nb) p s bs) as (acc & E & Ha & Eabs); [done..|fold len; nia|].
  rewrite Z2Nat.id in E by lia. rewrite E, bind_done. passes. unfold XXH_STRIPE_LEN.
  replace (len - 1 - 64 * per_block ks * nb) with ((len - 1) mod (64 * per_block ks)) by lia.
  set (r := (len - 1) mod (64 * per_block ks)) in *.
  pose proof (Z.div_mod r 64 ltac:(lia)) as Rm. pose proof (Z.mod_pos_bound r 64 ltac:(lia)) as Rr.
  set (rest := r / 64) in *. assert (Hrest : 0 <= rest < per_block ks) by (split; [apply Z.div_pos; lia|nia]).
  assert (per_block ks <= size / XXH_SECRET_CONSUME_RATE) by (apply Z.div_le_mono; unfold XXH_SECRET_CONSUME_RATE; lia).
  passes.
  pose proof (accumulate_value acc (p +! nb * (64 * per_block ks)) s 0 (Z.to_nat rest)
    (drop (Z.to_nat (nb * (64 * per_block ks))) bs) Ha ltac:(by apply Forall_drop)) as V.
  rewrite Z2Nat.id, Z.mul_0_l, advance_0 in V by lia.
  rewrite V, bind_done by (first [done|apply holds_drop; [nia|done]|rewrite length_drop; nia|lia]). clear V.
  rewrite (last_stripe_value _ _ _ (len - 64) bs) by
    (first [done|by apply run_ok|apply holds_drop; [lia|done]|lia]).
  assert (Etot : (len - 1) / 64 = nb * per_block ks + rest).
  { symmetry. apply (Z.div_unique (len - 1) 64 _ (r mod 64)); [lia|]. nia. }
  assert (Eall : absorb ks (Z.to_nat ((len - 1) / 64)) (XXH3_INIT_ACC, 0) bs
      = (run ks (Z.to_nat rest) acc 0 (drop (Z.to_nat (nb * (64 * per_block ks))) bs), rest)).
  { rewrite Etot, Z2Nat.inj_add, Z2Nat.inj_mul, absorb_add, Eabs, absorb_run by lia. f_equal; [|lia].
    do 2 f_equal. lia. }
  unfold long_acc. fold len size. by rewrite Eall.
Qed.

End Kernels.

(** ** The one-shot interface *)

Lemma read_acc_some acc i : accumulators acc -> 0 <= i < 8 -> exists a, lane64 a /\ read_acc acc i = Done a.
Proof.
  intros [L R] Hi. unfold read_acc, byte_at. rewrite (proj2 (Z.leb_le _ _)) by lia.
  destruct (acc !! Z.to_nat i) as [a|] eqn:E; [|apply lookup_ge_None in E; lia].
  exists a. split; [|done]. by eapply Forall_lookup_1 in E.
Qed.

Lemma mergeAccs_det bs ks acc k st :
  Forall byte_range ks -> accumulators acc -> 0 <= k -> k + 64 <= Z.of_nat (length ks) -> lane64 st ->
  determined bs ks lane64 (fun _ s => XXH3_mergeAccs acc (s +! k) st).
Proof.
  intros Hk Ha Hk0 Hkl Hst. unfold XXH3_mergeAccs.
  eapply det_bind; [apply (det_loop _ _ lane64); [done|]|intros ? ?; apply det_ret; apply avalanche_lane].
  intros i m Hi Hm. eapply det_bind; [|intros ? ?; apply det_ret; apply u64_lane]. unfold XXH3_mix2Accs.
  destruct (read_acc_some acc (2 * i) Ha ltac:(lia)) as (a0 & H0 & E0).
  destruct (read_acc_some acc (2 * i + 1) Ha ltac:(lia)) as (a1 & H1 & E1).
  apply (det_bind _ _ lane64); [by exists a0|intros ? ?]. apply (det_bind _ _ lane64); [by exists a1|intros ? ?].
  assert (D : forall j, 0 <= j -> j + 8 <= Z.of_nat (length ks) -> determined bs ks lane64 (fun _ s => XXH_readLE64 (s +! j))).
  { intros. by apply det_secret64. }
  eapply det_bind; [destruct (D (k + 16 * i)) as (x & Hx & E); [lia..|]; exists x; split; [exact Hx|];
    intros; rewrite advance_advance; eauto|intros ? ?].
  eapply det_bind; [destruct (D (k + 16 * i + 8)) as (y & Hy & E); [lia..|]; exists y; split; [exact Hy|];
    intros; rewrite !advance_advance, Z.add_assoc; eauto|intros ? ?].
  apply det_ret, mul128_fold64_lane.
Qed.

(** The same defined result with every kernel, wherever the bytes are. *)
Definition everywhere {A} (bs ks : list Z) (Q : A -> Prop) (f : Kernel -> pointer -> pointer -> outcome A) : Prop :=
  exists a, Q a /\ forall K, Kernel_laws K -> forall p s, holds p bs -> holds s ks -> f K p s = Done a.

Lemma everywhere_det {A} bs ks (Q : A -> Prop) f :
  determined bs ks Q f -> everywhere bs ks Q (fun _ p s => f p s).
Proof. intros (a & Ha & E). exists a. auto. Qed.

(** With a secret the function has of its own. *)
Lemma everywhere_own {A} bs ks ks' (Q : A -> Prop) (f : Kernel -> pointer -> pointer -> outcome A) :
  everywhere bs ks Q f -> everywhere bs ks' Q (fun K p _ => f K p (start ks)).
Proof. intros (a & Ha & E). exists a. split; [done|]. intros. apply E; auto using holds_start. Qed.

Section Oneshot.
Context (bs ks : list Z) (Hb : Forall byte_range bs) (Hk : Forall byte_range ks).
Let len := Z.of_nat (length bs).
Let size := Z.of_nat (length ks).
Context (Hlen : len < 2 ^ 64) (Hsize : 136 <= size < 2 ^ 60).

Lemma long_acc_ok : accumulators (long_acc ks bs).
Proof. unfold long_acc. apply accumulated_ok, absorb_ok, init_accumulators. Qed.

Lemma hashLong_64b_everywhere :
  64 < len -> everywhere bs ks lane64 (fun K p s => XXH3_hashLong_64b_internal p len s size XXH3_accumulate XXH3_scrambleAcc).
Proof.
  intros Hl. destruct (mergeAccs_det bs ks (long_acc ks bs) XXH_SECRET_MERGEACCS_START (u64 (len * XXH_PRIME64_1)))
    as (h & Hh & E); [done|apply long_acc_ok|done|unfold XXH_SECRET_MERGEACCS_START; lia|apply u64_lane|].
  exists h. split; [done|]. intros K L p s Hp Hs. unfold XXH3_hashLong_64b_internal.
  rewrite (hashLong_loop_value ks Hk Hsize p s bs), bind_done by done. passes. by eapply E.
Qed.

Lemma hashLong_128b_everywhere :
  64 < len -> everywhere bs ks hash128 (fun K p s => XXH3_hashLong_128b_internal p len s size XXH3_accumulate XXH3_scrambleAcc).
Proof.
  intros Hl. pose proof long_acc_ok as Ha.
  destruct (mergeAccs_det bs ks (long_acc ks bs) XXH_SECRET_MERGEACCS_START (u64 (len * XXH_PRIME64_1)))
    as (l & Hlo & El); [done..|unfold XXH_SECRET_MERGEACCS_START; lia|apply u64_lane|].
  destruct (mergeAccs_det bs ks (long_acc ks bs) (size - 64 - XXH_SECRET_MERGEACCS_START) (u64 (Z.lnot (u64 (len * XXH_PRIME64_2)))))
    as (h & Hhi & Eh); [done..|unfold XXH_SECRET_MERGEACCS_START; lia|unfold XXH_SECRET_MERGEACCS_START; lia|apply u64_lane|].
  exists (XXH128Hash l h). split; [done|]. intros K L p s Hp Hs. unfold XXH3_hashLong_128b_internal.
  rewrite (hashLong_loop_value ks Hk Hsize p s bs), bind_done by done. passes.
  rewrite (El p s Hp Hs), bind_done, (Eh p s Hp Hs), bind_done. done.
Qed.

Context (seed : Z) (Hseed : lane64 seed).

(** The dispatch on the length. *)
Lemma everywhere_if {A} (Q : A -> Prop) (c : bool) f g :
  (c = true -> everywhere bs ks Q f) -> (c = false -> everywhere bs ks Q g) ->
  everywhere bs ks Q (fun K p s => if c then f K p s else g K p s).
Proof. destruct c; auto. Qed.

Lemma everywhere_assert {A} (Q : A -> Prop) (c : bool) f :
  c = true -> everywhere bs ks Q f -> everywhere bs ks Q (fun K p s => XXH_ASSERT c ≫= fun _ => f K p s).
Proof. by intros ->. Qed.

Lemma hash64_everywhere (f : Kernel -> pointer -> Z -> Z -> pointer -> Z -> outcome Z) :
  (240 < len -> everywhere bs ks lane64 (fun K p s => f K p len seed s size)) ->
  everywhere bs ks lane64 (fun K p s => XXH3_64bits_internal p len seed s size (f K)).
Proof.
  intros Hf. unfold XXH3_64bits_internal, XXH3_SECRET_SIZE_MIN, XXH3_MIDSIZE_MAX. apply everywhere_assert; [lia|].
  repeat (apply everywhere_if; intros ?); first [apply Hf; lia|apply everywhere_det].
  - by apply len_0to16_64b_det; auto; lia.
  - by apply len_17to128_64b_det; auto; lia.
  - by apply len_129to240_64b_det; auto; lia.
Qed.

Lemma hash128_everywhere (f : Kernel -> pointer -> Z -> Z -> pointer -> Z -> outcome XXH128_hash_t) :
  (240 < len -> everywhere bs ks hash128 (fun K p s => f K p len seed s size)) ->
  everywhere bs ks hash128 (fun K p s => XXH3_128bits_internal p len seed s size (f K)).
Proof.
  intros Hf. unfold XXH3_128bits_internal, XXH3_SECRET_SIZE_MIN, XXH3_MIDSIZE_MAX. apply everywhere_assert; [lia|].
  repeat (apply everywhere_if; intros ?); first [apply Hf; lia|apply everywhere_det].
  - by apply len_0to16_128b_det; auto; lia.
  - by apply len_17to128_128b_det; auto; lia.
  - by apply len_129to240_128b_det; auto; lia.
Qed.

End Oneshot.

Lemma kSecret_size : Z.of_nat (length XXH3_kSecret) = XXH_SECRET_DEFAULT_SIZE.
Proof. done. Qed.

Lemma zero_lane : lane64 0.
Proof. unfold lane64. by vm_compute. Qed.

Lemma size_default seed : 136 <= Z.of_nat (length XXH3_kSecret) < 2 ^ 60 /\ 136 <= Z.of_nat (length (custom_secret seed)) < 2 ^ 60.
Proof. rewrite length_custom_secret, kSecret_size. unfold XXH_SECRET_DEFAULT_SIZE. pow2_norm. lia. Qed.

(** The four ways to choose the secret. *)
Section Interface.
Context (bs ks : list Z) (Hb : Forall byte_range bs) (Hk : Forall byte_range ks).
Let len := Z.of_nat (length bs).
Let size := Z.of_nat (length ks).
Context (Hlen : len < 2 ^ 64) (Hsize : 136 <= size < 2 ^ 60) (seed : Z) (Hseed : lane64 seed).

(** The secret made of a seed is used in the same way as one that is given. *)
Lemma everywhere_seeded {A} (Q : A -> Prop) (f : Kernel -> pointer -> pointer -> outcome A) :
  everywhere bs (custom_secret seed) Q f ->
  everywhere bs ks Q (fun K p _ => secret ← XXH3_initCustomSecret fresh_secret seed; f K p (start secret)).
Proof.
  intros (a & Ha & E). exists a. split; [done|]. intros K L p s Hp _.
  rewrite initCustomSecret_law, bind_done by done. apply E; auto using holds_start.
Qed.

Lemma withSeed_long_64 : 64 < len -> everywhere bs ks lane64 (fun K p s => XXH3_hashLong_64b_withSeed p len seed s size).
Proof.
  intros Hl. destruct (size_default seed) as [H1 H2]. pose proof (length_custom_secret seed) as Lc.
  unfold XXH3_hashLong_64b_withSeed, XXH3_hashLong_64b_withSeed_internal. apply everywhere_if; intros _.
  - apply (everywhere_own bs XXH3_kSecret ks lane64 (fun K p s => XXH3_hashLong_64b_internal p len s XXH_SECRET_DEFAULT_SIZE _ _)).
    rewrite <- kSecret_size. apply hashLong_64b_everywhere; auto using kSecret_range.
  - apply (everywhere_seeded lane64 (fun K p s => XXH3_hashLong_64b_internal p len s XXH_SECRET_DEFAULT_SIZE _ _)).
    change XXH_SECRET_DEFAULT_SIZE with (Z.of_nat 192). rewrite <- Lc.
    apply hashLong_64b_everywhere; auto using custom_secret_range.
Qed.

Lemma withSeed_long_128 : 64 < len -> everywhere bs ks hash128 (fun K p s => XXH3_hashLong_128b_withSeed p len seed s size).
Proof.
  intros Hl. destruct (size_default seed) as [H1 H2]. pose proof (length_custom_secret seed) as Lc.
  unfold XXH3_hashLong_128b_withSeed, XXH3_hashLong_128b_withSeed_internal. apply everywhere_if; intros _.
  - apply (everywhere_own bs XXH3_kSecret ks hash128 (fun K p s => XXH3_hashLong_128b_internal p len s XXH_SECRET_DEFAULT_SIZE _ _)).
    rewrite <- kSecret_size. apply hashLong_128b_everywhere; auto using kSecret_range.
  - apply (everywhere_seeded hash128 (fun K p s => XXH3_hashLong_128b_internal p len s XXH_SECRET_DEFAULT_SIZE _ _)).
    change XXH_SECRET_DEFAULT_SIZE with (Z.of_nat 192). rewrite <- Lc.
    apply hashLong_128b_everywhere; auto using custom_secret_range.
Qed.

End Interface.

(** What [XXH3_64bits] and the others pass on. *)
Section Public.
Context (bs ks : list Z) (Hb : Forall byte_range bs) (Hk : Forall byte_range ks).
Let len := Z.of_nat (length bs).
Let size := Z.of_nat (length ks).
Context (Hlen : len < 2 ^ 64) (Hsize : 136 <= size < 2 ^ 60) (seed : Z) (Hseed : lane64 seed).

Lemma default_64 sd (Hsd : lane64 sd) f :
  (240 < len -> everywhere bs XXH3_kSecret lane64 (fun K p s => f K p len sd s XXH_SECRET_DEFAULT_SIZE)) ->
  everywhere bs ks lane64 (fun K p _ => XXH3_64bits_internal p len sd (start XXH3_kSecret) XXH_SECRET_DEFAULT_SIZE (f K)).
Proof.
  intros Hf. destruct (size_default seed) as [H1 _].
  apply (everywhere_own bs XXH3_kSecret ks lane64 (fun K p s => XXH3_64bits_internal p len sd s XXH_SECRET_DEFAULT_SIZE (f K))).
  rewrite <- kSecret_size in *. apply hash64_everywhere; auto using kSecret_range.
Qed.

Lemma default_128 sd (Hsd : lane64 sd) f :
  (240 < len -> everywhere bs XXH3_kSecret hash128 (fun K p s => f K p len sd s XXH_SECRET_DEFAULT_SIZE)) ->
  everywhere bs ks hash128 (fun K p _ => XXH3_128bits_internal p len sd (start XXH3_kSecret) XXH_SECRET_DEFAULT_SIZE (f K)).
Proof.
  intros Hf. destruct (size_default seed) as [H1 _].
  apply (everywhere_own bs XXH3_kSecret ks hash128 (fun K p s => XXH3_128bits_internal p len sd s XXH_SECRET_DEFAULT_SIZE (f K))).
  rewrite <- kSecret_size in *. apply hash128_everywhere; auto using kSecret_range.
Qed.

Lemma default_long_64 : 240 < len -> everywhere bs XXH3_kSecret lane64 (fun K p s => XXH3_hashLong_64b_default p len 0 s XXH_SECRET_DEFAULT_SIZE).
Proof.
  intros ?. destruct (size_default seed) as [H1 _].
  apply (everywhere_own bs XXH3_kSecret _ _ (fun K p s => XXH3_hashLong_64b_internal p len s (Z.of_nat (length XXH3_kSecret)) _ _)).
  apply hashLong_64b_everywhere; auto using kSecret_range; lia.
Qed.

Lemma default_long_128 : 240 < len -> everywhere bs XXH3_kSecret hash128 (fun K p s => XXH3_hashLong_128b_default p len 0 s XXH_SECRET_DEFAULT_SIZE).
Proof.
  intros ?. destruct (size_default seed) as [H1 _].
  apply (everywhere_own bs XXH3_kSecret _ _ (fun K p s => XXH3_hashLong_128b_internal p len s (Z.of_nat (length XXH3_kSecret)) _ _)).
  apply hashLong_128b_everywhere; auto using kSecret_range; lia.
Qed.

Lemma bits64_total : everywhere bs ks lane64 (fun K p s => XXH3_64bits p len).
Proof. apply default_64; [apply zero_lane|apply default_long_64]. Qed.

Lemma bits128_total : everywhere bs ks hash128 (fun K p s => XXH3_128bits p len).
Proof. apply default_128; [apply zero_lane|apply default_long_128]. Qed.

Lemma bits64_withSecret_total : everywhere bs ks lane64 (fun K p s => XXH3_64bits_withSecret p len s size).
Proof. apply hash64_everywhere; auto. intros ?. apply hashLong_64b_everywhere; auto; lia. Qed.

Lemma bits128_withSecret_total : everywhere bs ks hash128 (fun K p s => XXH3_128bits_withSecret p len s size).
Proof. apply hash128_everywhere; auto. intros ?. apply hashLong_128b_everywhere; auto; lia. Qed.

Lemma bits64_withSeed_total : everywhere bs ks lane64 (fun K p s => XXH3_64bits_withSeed p len seed).
Proof. apply default_64; [done|]. intros ?. by apply (withSeed_long_64 bs XXH3_kSecret); auto; lia. Qed.

Lemma bits128_withSeed_total : everywhere bs ks hash128 (fun K p s => XXH3_128bits_withSeed p len seed).
Proof. apply default_128; [done|]. intros ?. by apply (withSeed_long_128 bs XXH3_kSecret); auto; lia. Qed.

Lemma bits64_withSecretandSeed_total : everywhere bs ks lane64 (fun K p s => XXH3_64bits_withSecretandSeed p len s size seed).
Proof.
  unfold XXH3_64bits_withSecretandSeed, XXH3_MIDSIZE_MAX. apply everywhere_if; intros ?.
  - apply (default_64 seed Hseed (fun _ _ _ _ _ _ => Faults)). lia.
  - apply hashLong_64b_everywhere; auto; lia.
Qed.

Lemma bits128_withSecretandSeed_total : everywhere bs ks hash128 (fun K p s => XXH3_128bits_withSecretandSeed p len s size seed).
Proof.
  unfold XXH3_128bits_withSecretandSeed, XXH3_MIDSIZE_MAX. apply everywhere_if; intros ?.
  - apply (default_128 seed Hseed (fun _ _ _ _ _ _ => Faults)). lia.
  - apply hashLong_128b_everywhere; auto; lia.
Qed.

(** C16: The one-shot hashes of XXH3, of 64 and of 128 bits, are defined for every
    message of fewer than [2 ^ 64] bytes and every secret of at least 136 bytes: no
    read leaves the message or the secret and no assertion fails, on any of the
    branches for 0, 1 to 3, 4 to 8, 9 to 16, 17 to 128, 129 to 240 and more bytes.
    The hash is of its width and is the same with every kernel that keeps the laws
    and wherever in memory the message and the secret are. *)
Theorem xxh3_oneshot_total :
  everywhere bs ks lane64 (fun K p s => XXH3_64bits p len)
  /\ everywhere bs ks lane64 (fun K p s => XXH3_64bits_withSecret p len s size)
  /\ everywhere bs ks lane64 (fun K p s => XXH3_64bits_withSeed p len seed)
  /\ everywhere bs ks lane64 (fun K p s => XXH3_64bits_withSecretandSeed p len s size seed)
  /\ everywhere bs ks hash128 (fun K p s => XXH3_128bits p len)
  /\ everywhere bs ks hash128 (fun K p s => XXH3_128bits_withSecret p len s size)
  /\ everywhere bs ks hash128 (fun K p s => XXH3_128bits_withSeed p len seed)
  /\ everywhere bs ks hash128 (fun K p s => XXH3_128bits_withSecretandSeed p len s size seed).
Proof.
  split_and!; auto using bits64_total, bits64_withSecret_total, bits64_withSeed_total, bits64_withSecretandSeed_total,
    bits128_total, bits128_withSecret_total, bits128_withSeed_total, bits128_withSecretandSeed_total.
Qed.

End Public.

Lemma xxh3_oneshot_total_witness :
  let msg := map u8 (seqZ 7 250) in
  (exists h, @XXH3_64bits_withSeed scalar_kernel (start msg) (Z.of_nat (length msg)) 5 = Done h)
  /\ @XXH3_64bits scalar_kernel (start []) 0 = Done 0x2D06800538D394C2.
Proof.
  assert (B : Forall byte_range (map u8 (seqZ 7 250))) by (apply (bool_decide_unpack _); by vm_compute).
  split; [|by vm_compute].
  destruct (xxh3_oneshot_total (map u8 (seqZ 7 250)) XXH3_kSecret B kSecret_range ltac:(by vm_compute)
    ltac:(split; vm_compute; congruence) 5 ltac:(split; vm_compute; congruence)) as (_ & _ & (h & _ & E) & _).
  exists h. apply (E scalar_kernel scalar_kernel_laws (start _) (start XXH3_kSecret)); apply holds_start.
Defined.
