(* ===== verification/Xxh3Vector.v ===== *)
(** * XXH3: the vectorised kernels ([core/native/hashing/xxhash.h])

    The functions on the accumulators as the header writes them for SSE2, AVX2,
    AVX-512, NEON, VSX and SVE, and the choice that [XXH_VECTOR] makes
    ([vector_kernel]).  A vector is the list of its lanes of 64 bits in the order of
    memory; a NEON vector of words is the list of its words.  The intrinsics of a
    processor are the fields of a class ([x86_unit], [neon_unit], [vsx_unit],
    [sve_unit]); what they are documented to compute is in the class of laws beside
    it, and [*_reference] are units that compute exactly that.  Loads and stores are
    the program's own accesses to memory.  Vectors are little endian, as the other
    reads of this model; the alignment of the accumulators and of [XXH3_kSecret],
    which their declarations fix, is not represented. *)
From S2P Require Import Prelude Xxhash Xxh3 Xxh3Long.

(** ** Memory *)

(** [n] lanes of 64 bits. *)
Fixpoint read_lanes (n : nat) (p : pointer) : outcome (list Z) :=
  match n with
  | O => Done []
  | S n => x ← XXH_readLE64 p; l ← read_lanes n (p +! 8); Done (x :: l)
  end.

(** [xacc[i]] for vectors of [w] lanes. *)
Definition xacc_load (w : nat) (acc : list Z) (i : Z) : outcome (list Z) :=
  if (0 <=? i) && ((i + 1) * Z.of_nat w <=? Z.of_nat (length acc))
  then Done (take w (drop (Z.to_nat i * w) acc)) else Faults.
Definition xacc_store (w : nat) (acc : list Z) (i : Z) (v : list Z) : outcome (list Z) :=
  if (0 <=? i) && ((i + 1) * Z.of_nat w <=? Z.of_nat (length acc))
  then Done (take (Z.to_nat i * w) acc ++ v ++ drop (Z.to_nat i * w + w) acc) else Faults.

(** [dest[i] = v] *)
Definition write_vector (w : nat) (dest : list Z) (i : Z) (v : list Z) : outcome (list Z) :=
  XXH_memcpy (start dest +! 8 * Z.of_nat w * i) (concat (map (le_split 8) v)).

(** A value for every lane of the vector, which has [w] lanes in range. *)
Definition vector (w : nat) (v : list Z) : Prop := length v = w /\ Forall (fun x => 0 <= x < 2 ^ 64) v.

(** ** x86: [_mm_*], [_mm256_*] and [_mm512_*] are two, four and eight lanes *)

Class x86_unit (w : nat) := {
  mm_xor_si : list Z -> list Z -> list Z;
  mm_add_epi64 : list Z -> list Z -> list Z;
  mm_mul_epu32 : list Z -> list Z -> list Z;
  mm_srli_epi64 : list Z -> Z -> list Z;
  mm_slli_epi64 : list Z -> Z -> list Z;
  mm_shuffle_epi32 : list Z -> Z -> list Z;
  mm_set1_epi8 : Z -> list Z;
  mm_set1_epi32 : Z -> list Z;
  mm_set1_epi64 : Z -> list Z;
  mm_set_epi64x : list Z -> list Z;
  mm_ternarylogic_epi32 : list Z -> list Z -> list Z -> Z -> list Z;
  mm_mask_sub_epi64 : list Z -> Z -> list Z -> list Z -> list Z;
}.

(** [_MM_SHUFFLE], and the shuffle of the four words of each 128 bits it controls. *)
Definition MM_SHUFFLE (z y x w : Z) : Z :=
  Z.lor (Z.lor (Z.shiftl z 6) (Z.shiftl y 4)) (Z.lor (Z.shiftl x 2) w).
Definition words_of (x : Z) : list Z := [u32 x; Z.shiftr x 32].
Definition lane_of (lo hi : Z) : Z := lo + 2 ^ 32 * hi.
Fixpoint shuffle_words (control : Z) (v : list Z) : list Z :=
  match v with
  | x :: y :: v =>
      let word k := nth (Z.to_nat (Z.land (Z.shiftr control (2 * k)) 3)) (words_of x ++ words_of y) 0 in
      lane_of (word 0) (word 1) :: lane_of (word 2) (word 3) :: shuffle_words control v
  | _ => []
  end.
(** Each bit is the bit of the control that the three bits of the operands number. *)
Definition ternary (control x y z : Z) : Z :=
  let term k := if Z.testbit control k
    then Z.land (if Z.testbit k 2 then x else Z.lnot x)
           (Z.land (if Z.testbit k 1 then y else Z.lnot y) (if Z.testbit k 0 then z else Z.lnot z))
    else 0 in
  u64 (foldr (fun k => Z.lor (term k)) 0 [0; 1; 2; 3; 4; 5; 6; 7]).
Fixpoint zip_with3 (f : Z -> Z -> Z -> Z) (a b c : list Z) : list Z :=
  match a, b, c with x :: a, y :: b, z :: c => f x y z :: zip_with3 f a b c | _, _, _ => [] end.

Class x86_laws {w} (U : x86_unit w) : Prop := {
  mm_xor_si_law a b : vector w a -> vector w b -> mm_xor_si a b = zip_with Z.lxor a b;
  mm_add_epi64_law a b : vector w a -> vector w b -> mm_add_epi64 a b = zip_with (fun x y => u64 (x + y)) a b;
  mm_mul_epu32_law a b : vector w a -> vector w b -> mm_mul_epu32 a b = zip_with (fun x y => u32 x * u32 y) a b;
  mm_srli_epi64_law a n : vector w a -> 0 <= n < 64 -> mm_srli_epi64 a n = map (fun x => Z.shiftr x n) a;
  mm_slli_epi64_law a n : vector w a -> 0 <= n < 64 -> mm_slli_epi64 a n = map (fun x => u64 (Z.shiftl x n)) a;
  mm_shuffle_epi32_law a control : vector w a -> 0 <= control < 256 -> mm_shuffle_epi32 a control = shuffle_words control a;
  mm_set1_epi8_law x : mm_set1_epi8 x = replicate w (u8 x * 0x0101010101010101);
  mm_set1_epi32_law x : mm_set1_epi32 x = replicate w (lane_of (u32 x) (u32 x));
  mm_set1_epi64_law x : mm_set1_epi64 x = replicate w (u64 x);
  mm_set_epi64x_law l : length l = w -> mm_set_epi64x l = reverse (map u64 l);
  mm_ternarylogic_epi32_law a b c control :
    vector w a -> vector w b -> vector w c -> 0 <= control < 256 ->
    mm_ternarylogic_epi32 a b c control = zip_with3 (ternary control) a b c;
  mm_mask_sub_epi64_law src k a b :
    vector w src -> vector w a -> vector w b -> 0 <= k ->
    mm_mask_sub_epi64 src k a b
    = zip_with (fun i '(s, x, y) => if Z.testbit k i then u64 (x - y) else s) (seqZ 0 (Z.of_nat w)) (zip (zip src a) b);
}.

Definition x86_reference (w : nat) : x86_unit w := {|
  mm_xor_si := zip_with Z.lxor;
  mm_add_epi64 := zip_with (fun x y => u64 (x + y));
  mm_mul_epu32 := zip_with (fun x y => u32 x * u32 y);
  mm_srli_epi64 a n := map (fun x => Z.shiftr x n) a;
  mm_slli_epi64 a n := map (fun x => u64 (Z.shiftl x n)) a;
  mm_shuffle_epi32 a control := shuffle_words control a;
  mm_set1_epi8 x := replicate w (u8 x * 0x0101010101010101);
  mm_set1_epi32 x := replicate w (lane_of (u32 x) (u32 x));
  mm_set1_epi64 x := replicate w (u64 x);
  mm_set_epi64x l := reverse (map u64 l);
  mm_ternarylogic_epi32 a b c control := zip_with3 (ternary control) a b c;
  mm_mask_sub_epi64 src k a b :=
    zip_with (fun i '(s, x, y) => if Z.testbit k i then u64 (x - y) else s) (seqZ 0 (Z.of_nat w)) (zip (zip src a) b);
|}.

#[export] Instance x86_reference_laws w : x86_laws (x86_reference w).
Proof. by split. Qed.

(** A vector of each of [sizeof __m128i], [__m256i] and [__m512i] bytes. *)
Definition m128i : nat := 2.
Definition m256i : nat := 4.
Definition m512i : nat := 8.
Definition sizeof_vector (w : nat) : Z := 8 * Z.of_nat w.

Section AVX512.
Context {U : x86_unit m512i}.

Definition XXH3_accumulate_512_avx512 (acc : list Z) (input secret : pointer) : outcome (list Z) :=
  data_vec ← read_lanes m512i input;
  key_vec ← read_lanes m512i secret;
  let data_key := mm_xor_si data_vec key_vec in
  let data_key_lo := mm_srli_epi64 data_key 32 in
  let product := mm_mul_epu32 data_key data_key_lo in
  let data_swap := mm_shuffle_epi32 data_vec (MM_SHUFFLE 1 0 3 2) in
  xacc ← xacc_load m512i acc 0;
  let sum := mm_add_epi64 xacc data_swap in
  xacc_store m512i acc 0 (mm_add_epi64 product sum).

Definition XXH3_accumulate_avx512 : f_accumulate := XXH3_accumulate_of XXH3_accumulate_512_avx512.

Definition XXH3_scrambleAcc_avx512 (acc : list Z) (secret : pointer) : outcome (list Z) :=
  let prime32 := mm_set1_epi32 (i32 XXH_PRIME32_1) in
  acc_vec ← xacc_load m512i acc 0;
  let shifted := mm_srli_epi64 acc_vec 47 in
  key_vec ← read_lanes m512i secret;
  let data_key := mm_ternarylogic_epi32 key_vec acc_vec shifted 0x96 in
  let data_key_hi := mm_srli_epi64 data_key 32 in
  let prod_lo := mm_mul_epu32 data_key prime32 in
  let prod_hi := mm_mul_epu32 data_key_hi prime32 in
  xacc_store m512i acc 0 (mm_add_epi64 prod_lo (mm_slli_epi64 prod_hi 32)).

Definition XXH3_initCustomSecret_avx512 (customSecret : list Z) (seed64 : Z) : outcome (list Z) :=
  let nbRounds := XXH_SECRET_DEFAULT_SIZE / sizeof_vector m512i in
  let seed_pos := mm_set1_epi64 (i64 seed64) in
  let seed := mm_mask_sub_epi64 seed_pos 0xAA (mm_set1_epi8 0) seed_pos in
  for_up 0 nbRounds (fun i dest =>
    src ← read_lanes m512i (start XXH3_kSecret +! sizeof_vector m512i * i);
    write_vector m512i dest i (mm_add_epi64 src seed)) customSecret.

End AVX512.

Section AVX2.
Context {U : x86_unit m256i}.

Definition XXH3_accumulate_512_avx2 (acc : list Z) (input secret : pointer) : outcome (list Z) :=
  for_up 0 (XXH_STRIPE_LEN / sizeof_vector m256i) (fun i acc =>
    data_vec ← read_lanes m256i (input +! sizeof_vector m256i * i);
    key_vec ← read_lanes m256i (secret +! sizeof_vector m256i * i);
    let data_key := mm_xor_si data_vec key_vec in
    let data_key_lo := mm_srli_epi64 data_key 32 in
    let product := mm_mul_epu32 data_key data_key_lo in
    let data_swap := mm_shuffle_epi32 data_vec (MM_SHUFFLE 1 0 3 2) in
    xacc ← xacc_load m256i acc i;
    let sum := mm_add_epi64 xacc data_swap in
    xacc_store m256i acc i (mm_add_epi64 product sum)) acc.

Definition XXH3_accumulate_avx2 : f_accumulate := XXH3_accumulate_of XXH3_accumulate_512_avx2.

Definition XXH3_scrambleAcc_avx2 (acc : list Z) (secret : pointer) : outcome (list Z) :=
  let prime32 := mm_set1_epi32 (i32 XXH_PRIME32_1) in
  for_up 0 (XXH_STRIPE_LEN / sizeof_vector m256i) (fun i acc =>
    acc_vec ← xacc_load m256i acc i;
    let shifted := mm_srli_epi64 acc_vec 47 in
    let data_vec := mm_xor_si acc_vec shifted in
    key_vec ← read_lanes m256i (secret +! sizeof_vector m256i * i);
    let data_key := mm_xor_si data_vec key_vec in
    let data_key_hi := mm_srli_epi64 data_key 32 in
    let prod_lo := mm_mul_epu32 data_key prime32 in
    let prod_hi := mm_mul_epu32 data_key_hi prime32 in
    xacc_store m256i acc i (mm_add_epi64 prod_lo (mm_slli_epi64 prod_hi 32))) acc.

Definition XXH3_initCustomSecret_avx2 (customSecret : list Z) (seed64 : Z) : outcome (list Z) :=
  let seed := mm_set_epi64x [i64 (u64 (0 - seed64)); i64 seed64; i64 (u64 (0 - seed64)); i64 seed64] in
  let step i dest :=
    src ← read_lanes m256i (start XXH3_kSecret +! sizeof_vector m256i * i);
    write_vector m256i dest i (mm_add_epi64 src seed) in
  dest ← step 0 customSecret;
  dest ← step 1 dest;
  dest ← step 2 dest;
  dest ← step 3 dest;
  dest ← step 4 dest;
  step 5 dest.

End AVX2.

Section SSE2.
Context {U : x86_unit m128i}.

Definition XXH3_accumulate_512_sse2 (acc : list Z) (input secret : pointer) : outcome (list Z) :=
  for_up 0 (XXH_STRIPE_LEN / sizeof_vector m128i) (fun i acc =>
    data_vec ← read_lanes m128i (input +! sizeof_vector m128i * i);
    key_vec ← read_lanes m128i (secret +! sizeof_vector m128i * i);
    let data_key := mm_xor_si data_vec key_vec in
    let data_key_lo := mm_shuffle_epi32 data_key (MM_SHUFFLE 0 3 0 1) in
    let product := mm_mul_epu32 data_key data_key_lo in
    let data_swap := mm_shuffle_epi32 data_vec (MM_SHUFFLE 1 0 3 2) in
    xacc ← xacc_load m128i acc i;
    let sum := mm_add_epi64 xacc data_swap in
    xacc_store m128i acc i (mm_add_epi64 product sum)) acc.

Definition XXH3_accumulate_sse2 : f_accumulate := XXH3_accumulate_of XXH3_accumulate_512_sse2.

Definition XXH3_scrambleAcc_sse2 (acc : list Z) (secret : pointer) : outcome (list Z) :=
  let prime32 := mm_set1_epi32 (i32 XXH_PRIME32_1) in
  for_up 0 (XXH_STRIPE_LEN / sizeof_vector m128i) (fun i acc =>
    acc_vec ← xacc_load m128i acc i;
    let shifted := mm_srli_epi64 acc_vec 47 in
    let data_vec := mm_xor_si acc_vec shifted in
    key_vec ← read_lanes m128i (secret +! sizeof_vector m128i * i);
    let data_key := mm_xor_si data_vec key_vec in
    let data_key_hi := mm_shuffle_epi32 data_key (MM_SHUFFLE 0 3 0 1) in
    let prod_lo := mm_mul_epu32 data_key prime32 in
    let prod_hi := mm_mul_epu32 data_key_hi prime32 in
    xacc_store m128i acc i (mm_add_epi64 prod_lo (mm_slli_epi64 prod_hi 32))) acc.

Definition XXH3_initCustomSecret_sse2 (customSecret : list Z) (seed64 : Z) : outcome (list Z) :=
  let nbRounds := XXH_SECRET_DEFAULT_SIZE / sizeof_vector m128i in
  let seed := mm_set_epi64x [i64 (u64 (0 - seed64)); i64 seed64] in
  for_up 0 nbRounds (fun i dst16 =>
    src16 ← read_lanes m128i (start XXH3_kSecret +! sizeof_vector m128i * i);
    write_vector m128i dst16 i (mm_add_epi64 src16 seed)) customSecret.

End SSE2.

(** ** NEON: [uint64x2_t] is two lanes, [uint32x4_t] and [uint32x2_t] four and two words *)

Definition words (n : nat) (v : list Z) : Prop := length v = n /\ Forall (fun x => 0 <= x < 2 ^ 32) v.

Class neon_unit := {
  vextq_u64 : list Z -> list Z -> Z -> list Z;
  veorq_u64 : list Z -> list Z -> list Z;
  vaddq_u64 : list Z -> list Z -> list Z;
  vshrq_n_u64 : list Z -> Z -> list Z;
  vshrn_n_u64 : list Z -> Z -> list Z;
  vmovn_u64 : list Z -> list Z;
  vuzpq_u32 : list Z -> list Z -> list Z * list Z;
  vget_low_u32 : list Z -> list Z;
  vget_high_u32 : list Z -> list Z;
  vmlal_u32 : list Z -> list Z -> list Z -> list Z;
  vmulq_u32 : list Z -> list Z -> list Z;
  vdup_n_u32 : Z -> list Z;
  vdupq_n_u64 : Z -> list Z;
  vreinterpretq_u32_u64 : list Z -> list Z;
  vreinterpretq_u64_u32 : list Z -> list Z;
}.

Fixpoint lanes_of_words (v : list Z) : list Z :=
  match v with lo :: hi :: v => lane_of lo hi :: lanes_of_words v | _ => [] end.
Fixpoint even_words (v : list Z) : list Z := match v with x :: _ :: v => x :: even_words v | _ => [] end.
Fixpoint odd_words (v : list Z) : list Z := match v with _ :: y :: v => y :: odd_words v | _ => [] end.

Class neon_laws (U : neon_unit) : Prop := {
  vextq_u64_law a b n : vector 2 a -> vector 2 b -> 0 <= n < 2 -> vextq_u64 a b n = take 2 (drop (Z.to_nat n) (a ++ b));
  veorq_u64_law a b : vector 2 a -> vector 2 b -> veorq_u64 a b = zip_with Z.lxor a b;
  vaddq_u64_law a b : vector 2 a -> vector 2 b -> vaddq_u64 a b = zip_with (fun x y => u64 (x + y)) a b;
  vshrq_n_u64_law a n : vector 2 a -> 1 <= n <= 64 -> vshrq_n_u64 a n = map (fun x => Z.shiftr x n) a;
  vshrn_n_u64_law a n : vector 2 a -> 1 <= n <= 32 -> vshrn_n_u64 a n = map (fun x => u32 (Z.shiftr x n)) a;
  vmovn_u64_law a : vector 2 a -> vmovn_u64 a = map (fun x => u32 x) a;
  vuzpq_u32_law a b : words 4 a -> words 4 b -> vuzpq_u32 a b = (even_words (a ++ b), odd_words (a ++ b));
  vget_low_u32_law a : words 4 a -> vget_low_u32 a = take 2 a;
  vget_high_u32_law a : words 4 a -> vget_high_u32 a = drop 2 a;
  vmlal_u32_law acc a b : vector 2 acc -> words 2 a -> words 2 b ->
    vmlal_u32 acc a b = zip_with (fun x y => u64 (x + y)) acc (zip_with Z.mul a b);
  vmulq_u32_law a b : words 4 a -> words 4 b -> vmulq_u32 a b = zip_with (fun x y => u32 (x * y)) a b;
  vdup_n_u32_law x : 0 <= x < 2 ^ 32 -> vdup_n_u32 x = replicate 2 x;
  vdupq_n_u64_law x : 0 <= x < 2 ^ 64 -> vdupq_n_u64 x = replicate 2 x;
  vreinterpretq_u32_u64_law a : vector 2 a -> vreinterpretq_u32_u64 a = concat (map words_of a);
  vreinterpretq_u64_u32_law a : words 4 a -> vreinterpretq_u64_u32 a = lanes_of_words a;
}.

Definition neon_reference : neon_unit := {|
  vextq_u64 a b n := take 2 (drop (Z.to_nat n) (a ++ b));
  veorq_u64 := zip_with Z.lxor;
  vaddq_u64 := zip_with (fun x y => u64 (x + y));
  vshrq_n_u64 a n := map (fun x => Z.shiftr x n) a;
  vshrn_n_u64 a n := map (fun x => u32 (Z.shiftr x n)) a;
  vmovn_u64 a := map (fun x => u32 x) a;
  vuzpq_u32 a b := (even_words (a ++ b), odd_words (a ++ b));
  vget_low_u32 := take 2;
  vget_high_u32 := drop 2;
  vmlal_u32 acc a b := zip_with (fun x y => u64 (x + y)) acc (zip_with Z.mul a b);
  vmulq_u32 := zip_with (fun x y => u32 (x * y));
  vdup_n_u32 := replicate 2;
  vdupq_n_u64 := replicate 2;
  vreinterpretq_u32_u64 a := concat (map words_of a);
  vreinterpretq_u64_u32 := lanes_of_words;
|}.

#[export] Instance neon_reference_laws : neon_laws neon_reference.
Proof. by split. Qed.

Section NEON.
Context {U : neon_unit}.
(** [XXH3_NEON_LANES]: the lanes that are not left to the scalar rounds, 2, 4, 6 or 8. *)
Context (XXH3_NEON_LANES : Z).

Definition XXH_vld1q_u64 (p : pointer) : outcome (list Z) := read_lanes 2 p.
Definition XXH_vmlal_low_u32 (acc lhs rhs : list Z) : list Z := vmlal_u32 acc (vget_low_u32 lhs) (vget_low_u32 rhs).
Definition XXH_vmlal_high_u32 (acc lhs rhs : list Z) : list Z := vmlal_u32 acc (vget_high_u32 lhs) (vget_high_u32 rhs).

(** The loop on four lanes runs while [i + 1 < XXH3_NEON_LANES / 2], in steps of two. *)
Definition neon_four_lanes (input secret : pointer) (i : Z) (acc : list Z) : outcome (list Z) :=
  data_vec_1 ← XXH_vld1q_u64 (input +! i * 16);
  data_vec_2 ← XXH_vld1q_u64 (input +! (i + 1) * 16);
  key_vec_1 ← XXH_vld1q_u64 (secret +! i * 16);
  key_vec_2 ← XXH_vld1q_u64 (secret +! (i + 1) * 16);
  let data_swap_1 := vextq_u64 data_vec_1 data_vec_1 1 in
  let data_swap_2 := vextq_u64 data_vec_2 data_vec_2 1 in
  let data_key_1 := veorq_u64 data_vec_1 key_vec_1 in
  let data_key_2 := veorq_u64 data_vec_2 key_vec_2 in
  let '(data_key_lo, data_key_hi) := vuzpq_u32 (vreinterpretq_u32_u64 data_key_1) (vreinterpretq_u32_u64 data_key_2) in
  let sum_1 := XXH_vmlal_low_u32 data_swap_1 data_key_lo data_key_hi in
  let sum_2 := XXH_vmlal_high_u32 data_swap_2 data_key_lo data_key_hi in
  xacc ← xacc_load 2 acc i;
  acc ← xacc_store 2 acc i (vaddq_u64 xacc sum_1);
  xacc ← xacc_load 2 acc (i + 1);
  xacc_store 2 acc (i + 1) (vaddq_u64 xacc sum_2).

Definition neon_two_lanes (input secret : pointer) (i : Z) (acc : list Z) : outcome (list Z) :=
  data_vec ← XXH_vld1q_u64 (input +! i * 16);
  key_vec ← XXH_vld1q_u64 (secret +! i * 16);
  let data_swap := vextq_u64 data_vec data_vec 1 in
  let data_key := veorq_u64 data_vec key_vec in
  let data_key_lo := vmovn_u64 data_key in
  let data_key_hi := vshrn_n_u64 data_key 32 in
  let sum := vmlal_u32 data_swap data_key_lo data_key_hi in
  xacc ← xacc_load 2 acc i;
  xacc_store 2 acc i (vaddq_u64 xacc sum).

Definition XXH3_accumulate_512_neon (acc : list Z) (input secret : pointer) : outcome (list Z) :=
  acc ← for_up XXH3_NEON_LANES XXH_ACC_NB (fun i acc => XXH3_scalarRound acc input secret i) acc;
  let fours := XXH3_NEON_LANES / 2 / 2 in
  acc ← for_up 0 fours (fun k acc => neon_four_lanes input secret (2 * k) acc) acc;
  for_up (2 * fours) (XXH3_NEON_LANES / 2) (fun i acc => neon_two_lanes input secret i acc) acc.

Definition XXH3_accumulate_neon : f_accumulate := XXH3_accumulate_of XXH3_accumulate_512_neon.

(** [wasm]: [__wasm_simd128__], where the lanes are multiplied by an operator of the
    language. *)
Definition XXH3_scrambleAcc_neon (wasm : bool) (acc : list Z) (secret : pointer) : outcome (list Z) :=
  let kPrimeLo := vdup_n_u32 XXH_PRIME32_1 in
  let kPrimeHi := vreinterpretq_u32_u64 (vdupq_n_u64 (u64 (Z.shiftl XXH_PRIME32_1 32))) in
  acc ← for_up XXH3_NEON_LANES XXH_ACC_NB (fun i acc => XXH3_scalarScrambleRound acc secret i) acc;
  for_up 0 (XXH3_NEON_LANES / 2) (fun i acc =>
    acc_vec ← xacc_load 2 acc i;
    let shifted := vshrq_n_u64 acc_vec 47 in
    let data_vec := veorq_u64 acc_vec shifted in
    key_vec ← XXH_vld1q_u64 (secret +! i * 16);
    let data_key := veorq_u64 data_vec key_vec in
    if wasm then xacc_store 2 acc i (map (fun x => u64 (x * XXH_PRIME32_1)) data_key) else
    let prod_hi := vmulq_u32 (vreinterpretq_u32_u64 data_key) kPrimeHi in
    let data_key_lo := vmovn_u64 data_key in
    xacc_store 2 acc i (vmlal_u32 (vreinterpretq_u64_u32 prod_hi) data_key_lo kPrimeLo)) acc.

End NEON.

(** ** VSX: [xxh_u64x2] is two lanes; the words multiplied are the halves of a lane *)

Class vsx_unit := {
  vec_rl : list Z -> list Z -> list Z;
  XXH_vec_mulo : list Z -> list Z -> list Z;
  XXH_vec_mule : list Z -> list Z -> list Z;
  vec_xxpermdi : list Z -> list Z -> Z -> list Z;
}.

Class vsx_laws (U : vsx_unit) : Prop := {
  vec_rl_law a n : vector 2 a -> vector 2 n ->
    vec_rl a n = zip_with (fun x n => Z.lor (u64 (Z.shiftl x (n mod 64))) (Z.shiftr x (64 - n mod 64))) a n;
  XXH_vec_mulo_law a b : vector 2 a -> vector 2 b -> XXH_vec_mulo a b = zip_with (fun x y => u32 x * u32 y) a b;
  XXH_vec_mule_law a b : vector 2 a -> vector 2 b ->
    XXH_vec_mule a b = zip_with (fun x y => Z.shiftr x 32 * Z.shiftr y 32) a b;
  vec_xxpermdi_law a b n : vector 2 a -> vector 2 b -> 0 <= n < 4 ->
    vec_xxpermdi a b n = [nth (Z.to_nat (Z.shiftr n 1)) a 0; nth (Z.to_nat (Z.land n 1)) b 0];
}.

Definition vsx_reference : vsx_unit := {|
  vec_rl := zip_with (fun x n => Z.lor (u64 (Z.shiftl x (n mod 64))) (Z.shiftr x (64 - n mod 64)));
  XXH_vec_mulo := zip_with (fun x y => u32 x * u32 y);
  XXH_vec_mule := zip_with (fun x y => Z.shiftr x 32 * Z.shiftr y 32);
  vec_xxpermdi a b n := [nth (Z.to_nat (Z.shiftr n 1)) a 0; nth (Z.to_nat (Z.land n 1)) b 0];
|}.

#[export] Instance vsx_reference_laws : vsx_laws vsx_reference.
Proof. by split. Qed.

Section VSX.
Context {U : vsx_unit}.

Definition XXH_vec_loadu (ptr : pointer) : outcome (list Z) := read_lanes 2 ptr.

(** [+], [^], [>>] and [<<] on vectors are operators of the language. *)
Definition vec_add (a b : list Z) : list Z := zip_with (fun x y => u64 (x + y)) a b.
Definition vec_xor (a b : list Z) : list Z := zip_with Z.lxor a b.
Definition vec_shr (a n : list Z) : list Z := zip_with Z.shiftr a n.
Definition vec_shl (a n : list Z) : list Z := zip_with (fun x n => u64 (Z.shiftl x n)) a n.

Definition XXH3_accumulate_512_vsx (acc : list Z) (input secret : pointer) : outcome (list Z) :=
  let v32 := [32; 32] in
  for_up 0 (XXH_STRIPE_LEN / 16) (fun i acc =>
    data_vec ← XXH_vec_loadu (input +! 16 * i);
    key_vec ← XXH_vec_loadu (secret +! 16 * i);
    let data_key := vec_xor data_vec key_vec in
    let shuffled := vec_rl data_key v32 in
    let product := XXH_vec_mulo data_key shuffled in
    acc_vec ← xacc_load 2 acc i;
    let acc_vec := vec_add acc_vec product in
    let acc_vec := vec_add acc_vec (vec_xxpermdi data_vec data_vec 2) in
    xacc_store 2 acc i acc_vec) acc.

Definition XXH3_accumulate_vsx : f_accumulate := XXH3_accumulate_of XXH3_accumulate_512_vsx.

Definition XXH3_scrambleAcc_vsx (acc : list Z) (secret : pointer) : outcome (list Z) :=
  let v32 := [32; 32] in
  let v47 := [47; 47] in
  let prime := [lane_of XXH_PRIME32_1 XXH_PRIME32_1; lane_of XXH_PRIME32_1 XXH_PRIME32_1] in
  for_up 0 (XXH_STRIPE_LEN / 16) (fun i acc =>
    acc_vec ← xacc_load 2 acc i;
    let data_vec := vec_xor acc_vec (vec_shr acc_vec v47) in
    key_vec ← XXH_vec_loadu (secret +! 16 * i);
    let data_key := vec_xor data_vec key_vec in
    let prod_even := XXH_vec_mule data_key prime in
    let prod_odd := XXH_vec_mulo data_key prime in
    xacc_store 2 acc i (vec_add prod_odd (vec_shl prod_even v32))) acc.

End VSX.

(** ** SVE: vectors of [svcntd] lanes, of which a predicate makes the first ones active *)

Class sve_unit := {
  svcntd : Z;
  svindex_u64 : Z -> Z -> list Z;
  sveor_n_u64_z : nat -> list Z -> Z -> list Z;
  sveor_u64_x : nat -> list Z -> list Z -> list Z;
  svtbl_u64 : list Z -> list Z -> list Z;
  svextw_u64_x : nat -> list Z -> list Z;
  svlsr_n_u64_x : nat -> list Z -> Z -> list Z;
  svmad_u64_x : nat -> list Z -> list Z -> list Z -> list Z;
  svadd_u64_x : nat -> list Z -> list Z -> list Z;
}.

(** All lanes, or the first [k] if the vector has as many and none otherwise. *)
Definition svptrue_b64 {U : sve_unit} : nat := Z.to_nat svcntd.
Definition svptrue_pat_b64 {U : sve_unit} (k : nat) : nat := if Z.of_nat k <=? svcntd then k else O.

(** [result] has the lanes [active] where the predicate [m] has them; the others are
    not specified. *)
Definition merged (n : Z) (m : nat) (result active : list Z) : Prop := vector (Z.to_nat n) result /\ take m result = active.

(** The inactive lanes of a load are zero, and those of a store are not written. *)
Definition inactive {U : sve_unit} (m : nat) : list Z := replicate (Z.to_nat svcntd - m) 0.
Definition svld1_u64 {U : sve_unit} (m : nat) (p : pointer) : outcome (list Z) :=
  l ← read_lanes m p; Done (l ++ inactive m).
Definition svld1_acc {U : sve_unit} (m : nat) (acc : list Z) (k : nat) : outcome (list Z) :=
  if (k + m <=? length acc)%nat then Done (take m (drop k acc) ++ inactive m) else Faults.
Definition svst1_acc (m : nat) (acc : list Z) (k : nat) (v : list Z) : outcome (list Z) :=
  if (k + m <=? length acc)%nat then Done (take k acc ++ take m v ++ drop (k + m) acc) else Faults.

Class sve_laws (U : sve_unit) : Prop := {
  svcntd_law : exists h, 1 <= h <= 16 /\ svcntd = 2 * h;
  svindex_u64_law base step : svindex_u64 base step = map (fun i => u64 (base + i * step)) (seqZ 0 svcntd);
  sveor_n_u64_z_law a x : vector (Z.to_nat svcntd) a -> sveor_n_u64_z svptrue_b64 a x = map (fun y => u64 (Z.lxor y x)) a;
  sveor_u64_x_law m a b : vector (Z.to_nat svcntd) a -> vector (Z.to_nat svcntd) b -> Z.of_nat m <= svcntd ->
    merged svcntd m (sveor_u64_x m a b) (zip_with Z.lxor (take m a) (take m b));
  svtbl_u64_law a idx : vector (Z.to_nat svcntd) a -> vector (Z.to_nat svcntd) idx ->
    svtbl_u64 a idx = map (fun i => nth (Z.to_nat i) a 0) idx;
  svextw_u64_x_law m a : vector (Z.to_nat svcntd) a -> Z.of_nat m <= svcntd ->
    merged svcntd m (svextw_u64_x m a) (map (fun x => u32 x) (take m a));
  svlsr_n_u64_x_law m a n : vector (Z.to_nat svcntd) a -> Z.of_nat m <= svcntd -> 0 <= n < 64 ->
    merged svcntd m (svlsr_n_u64_x m a n) (map (fun x => Z.shiftr x n) (take m a));
  svmad_u64_x_law m a b c :
    vector (Z.to_nat svcntd) a -> vector (Z.to_nat svcntd) b -> vector (Z.to_nat svcntd) c -> Z.of_nat m <= svcntd ->
    merged svcntd m (svmad_u64_x m a b c)
      (zip_with (fun x y => u64 (x + y)) (zip_with Z.mul (take m a) (take m b)) (take m c));
  svadd_u64_x_law m a b : vector (Z.to_nat svcntd) a -> vector (Z.to_nat svcntd) b -> Z.of_nat m <= svcntd ->
    merged svcntd m (svadd_u64_x m a b) (zip_with (fun x y => u64 (x + y)) (take m a) (take m b));
}.

(** A unit of [n] lanes that computes the inactive ones as well. *)
Definition sve_reference (n : Z) : sve_unit := {|
  svcntd := n;
  svindex_u64 base step := map (fun i => u64 (base + i * step)) (seqZ 0 n);
  sveor_n_u64_z m a x := map (fun y => u64 (Z.lxor y x)) a;
  sveor_u64_x m := zip_with Z.lxor;
  svtbl_u64 a idx := map (fun i => nth (Z.to_nat i) a 0) idx;
  svextw_u64_x m := map (fun x => u32 x);
  svlsr_n_u64_x m a n := map (fun x => Z.shiftr x n) a;
  svmad_u64_x m a b := zip_with (fun x y => u64 (x + y)) (zip_with Z.mul a b);
  svadd_u64_x m := zip_with (fun x y => u64 (x + y));
|}.

Section SVE.
Context {U : sve_unit}.

(** The macro [ACCRND]: [xinput + offset] and [xsecret + offset] count lanes. *)
Definition ACCRND (mask : nat) (kSwap : list Z) (xinput xsecret : pointer) (acc : list Z) (offset : nat) : outcome (list Z) :=
  input_vec ← svld1_u64 mask (xinput +! 8 * Z.of_nat offset);
  secret_vec ← svld1_u64 mask (xsecret +! 8 * Z.of_nat offset);
  let mixed := sveor_u64_x mask secret_vec input_vec in
  let swapped := svtbl_u64 input_vec kSwap in
  let mixed_lo := svextw_u64_x mask mixed in
  let mixed_hi := svlsr_n_u64_x mask mixed 32 in
  let mul := svmad_u64_x mask mixed_lo mixed_hi swapped in
  Done (svadd_u64_x mask acc mul).

Definition sve_kSwap : list Z := sveor_n_u64_z svptrue_b64 (svindex_u64 0 1) 1.

Definition XXH3_accumulate_512_sve (acc : list Z) (input secret : pointer) : outcome (list Z) :=
  let kSwap := sve_kSwap in
  let element_count := svcntd in
  if element_count >=? 8 then
    let mask := svptrue_pat_b64 8 in
    vacc ← svld1_acc mask acc 0;
    vacc ← ACCRND mask kSwap input secret vacc 0;
    svst1_acc mask acc 0 vacc
  else if element_count =? 2 then
    let mask := svptrue_pat_b64 2 in
    acc0 ← svld1_acc mask acc 0;
    acc1 ← svld1_acc mask acc 2;
    acc2 ← svld1_acc mask acc 4;
    acc3 ← svld1_acc mask acc 6;
    acc0 ← ACCRND mask kSwap input secret acc0 0;
    acc1 ← ACCRND mask kSwap input secret acc1 2;
    acc2 ← ACCRND mask kSwap input secret acc2 4;
    acc3 ← ACCRND mask kSwap input secret acc3 6;
    acc ← svst1_acc mask acc 0 acc0;
    acc ← svst1_acc mask acc 2 acc1;
    acc ← svst1_acc mask acc 4 acc2;
    svst1_acc mask acc 6 acc3
  else
    let mask := svptrue_pat_b64 4 in
    acc0 ← svld1_acc mask acc 0;
    acc1 ← svld1_acc mask acc 4;
    acc0 ← ACCRND mask kSwap input secret acc0 0;
    acc1 ← ACCRND mask kSwap input secret acc1 4;
    acc ← svst1_acc mask acc 0 acc0;
    svst1_acc mask acc 4 acc1.

(** The loops of [XXH3_accumulate_sve], which keep the accumulators in registers:
    [do ... while (nbStripes != 0)], entered with [nbStripes != 0]. *)
Fixpoint sve_stripes {A} (nbStripes : nat) (body : pointer -> pointer -> A -> outcome A) (xinput xsecret : pointer) (accs : A) : outcome A :=
  match nbStripes with
  | O => Done accs
  | S nbStripes =>
      accs ← body xinput xsecret accs;
      sve_stripes nbStripes body (xinput +! 8 * 8) (xsecret +! 8 * 1) accs
  end.

Definition XXH3_accumulate_sve : f_accumulate := fun acc input secret nbStripes =>
  if nbStripes =? 0 then Done acc else
  let kSwap := sve_kSwap in
  let element_count := svcntd in
  if element_count >=? 8 then
    let mask := svptrue_pat_b64 8 in
    vacc ← svld1_acc mask acc 0;
    vacc ← sve_stripes (Z.to_nat nbStripes) (fun xinput xsecret vacc => ACCRND mask kSwap xinput xsecret vacc 0) input secret vacc;
    svst1_acc mask acc 0 vacc
  else if element_count =? 2 then
    let mask := svptrue_pat_b64 2 in
    acc0 ← svld1_acc mask acc 0;
    acc1 ← svld1_acc mask acc 2;
    acc2 ← svld1_acc mask acc 4;
    acc3 ← svld1_acc mask acc 6;
    accs ← sve_stripes (Z.to_nat nbStripes) (fun xinput xsecret '(acc0, acc1, acc2, acc3) =>
      acc0 ← ACCRND mask kSwap xinput xsecret acc0 0;
      acc1 ← ACCRND mask kSwap xinput xsecret acc1 2;
      acc2 ← ACCRND mask kSwap xinput xsecret acc2 4;
      acc3 ← ACCRND mask kSwap xinput xsecret acc3 6;
      Done (acc0, acc1, acc2, acc3)) input secret (acc0, acc1, acc2, acc3);
    let '(acc0, acc1, acc2, acc3) := accs in
    acc ← svst1_acc mask acc 0 acc0;
    acc ← svst1_acc mask acc 2 acc1;
    acc ← svst1_acc mask acc 4 acc2;
    svst1_acc mask acc 6 acc3
  else
    let mask := svptrue_pat_b64 4 in
    acc0 ← svld1_acc mask acc 0;
    acc1 ← svld1_acc mask acc 4;
    accs ← sve_stripes (Z.to_nat nbStripes) (fun xinput xsecret '(acc0, acc1) =>
      acc0 ← ACCRND mask kSwap xinput xsecret acc0 0;
      acc1 ← ACCRND mask kSwap xinput xsecret acc1 4;
      Done (acc0, acc1)) input secret (acc0, acc1);
    let '(acc0, acc1) := accs in
    acc ← svst1_acc mask acc 0 acc0;
    svst1_acc mask acc 4 acc1.

End SVE.

(** ** The choice of a kernel *)

Inductive XXH_VECTOR_TYPE := XXH_SCALAR | XXH_SSE2 | XXH_AVX2 | XXH_AVX512 | XXH_NEON | XXH_VSX | XXH_SVE.

(** The processors, and the settings of a build for NEON. *)
Record units := {
  sse2 : x86_unit m128i;
  avx2 : x86_unit m256i;
  avx512 : x86_unit m512i;
  neon : neon_unit;
  neon_lanes : Z;
  wasm_simd128 : bool;
  vsx : vsx_unit;
  sve : sve_unit;
}.

Definition XXH3_kernel (u : units) (XXH_VECTOR : XXH_VECTOR_TYPE) : Kernel :=
  match XXH_VECTOR with
  | XXH_AVX512 => {|
      XXH3_accumulate_512 := @XXH3_accumulate_512_avx512 (avx512 u);
      XXH3_accumulate := @XXH3_accumulate_avx512 (avx512 u);
      XXH3_scrambleAcc := @XXH3_scrambleAcc_avx512 (avx512 u);
      XXH3_initCustomSecret := @XXH3_initCustomSecret_avx512 (avx512 u) |}
  | XXH_AVX2 => {|
      XXH3_accumulate_512 := @XXH3_accumulate_512_avx2 (avx2 u);
      XXH3_accumulate := @XXH3_accumulate_avx2 (avx2 u);
      XXH3_scrambleAcc := @XXH3_scrambleAcc_avx2 (avx2 u);
      XXH3_initCustomSecret := @XXH3_initCustomSecret_avx2 (avx2 u) |}
  | XXH_SSE2 => {|
      XXH3_accumulate_512 := @XXH3_accumulate_512_sse2 (sse2 u);
      XXH3_accumulate := @XXH3_accumulate_sse2 (sse2 u);
      XXH3_scrambleAcc := @XXH3_scrambleAcc_sse2 (sse2 u);
      XXH3_initCustomSecret := @XXH3_initCustomSecret_sse2 (sse2 u) |}
  | XXH_NEON => {|
      XXH3_accumulate_512 := @XXH3_accumulate_512_neon (neon u) (neon_lanes u);
      XXH3_accumulate := @XXH3_accumulate_neon (neon u) (neon_lanes u);
      XXH3_scrambleAcc := @XXH3_scrambleAcc_neon (neon u) (neon_lanes u) (wasm_simd128 u);
      XXH3_initCustomSecret := XXH3_initCustomSecret_scalar |}
  | XXH_VSX => {|
      XXH3_accumulate_512 := @XXH3_accumulate_512_vsx (vsx u);
      XXH3_accumulate := @XXH3_accumulate_vsx (vsx u);
      XXH3_scrambleAcc := @XXH3_scrambleAcc_vsx (vsx u);
      XXH3_initCustomSecret := XXH3_initCustomSecret_scalar |}
  | XXH_SVE => {|
      XXH3_accumulate_512 := @XXH3_accumulate_512_sve (sve u);
      XXH3_accumulate := @XXH3_accumulate_sve (sve u);
      XXH3_scrambleAcc := XXH3_scrambleAcc_scalar;
      XXH3_initCustomSecret := XXH3_initCustomSecret_scalar |}
  | XXH_SCALAR => scalar_kernel
  end.

(** [XXH_SIZE_OPT >= 1]: no vectors for the secret of a seed. *)
Definition XXH3_small_kernel (K : Kernel) : Kernel := {|
  XXH3_accumulate_512 := XXH3_accumulate_512;
  XXH3_accumulate := XXH3_accumulate;
  XXH3_scrambleAcc := XXH3_scrambleAcc;
  XXH3_initCustomSecret := XXH3_initCustomSecret_scalar;
|}.
