(* ===== verification/Xxh3VectorTheorems.v ===== *)
(** * XXH3: the vectorised kernels, theorems

    On vectors of any even number of lanes the operations of a stripe are
    [accumulated] and [scrambled] of those lanes; loops over the vectors of the
    accumulators, or over those of a secret, put the pieces together
    ([vector_loop], [secret_loop]).  Every kernel is shown to keep [Kernel_laws]. *)
From S2P Require Import Prelude Xxhash Xxh3 Xxh3Theorems Xxh3Long Xxh3LongTheorems Xxh3Vector.

(** ** Vectors *)

Lemma vector_zip w f a b :
  vector w a -> vector w b -> (forall x y, lane64 x -> lane64 y -> lane64 (f x y)) -> vector w (zip_with f a b).
Proof.
  intros [La Ha] [Lb Hb] Hf. split; [rewrite length_zip_with; lia|].
  eapply Forall_zip_with_fst; [exact Ha|]. eapply Forall_impl; [exact Hb|]. intros y Hy x Hx. by apply Hf.
Qed.

Lemma vector_map w f a : vector w a -> (forall x, lane64 x -> lane64 (f x)) -> vector w (map f a).
Proof. intros [La Ha] Hf. split; [by rewrite length_map|]. apply Forall_fmap. eapply Forall_impl; [exact Ha|exact Hf]. Qed.

Lemma vector_replicate w x : lane64 x -> vector w (replicate w x).
Proof. split; [apply length_replicate|]. by apply Forall_replicate. Qed.

Lemma lane_of_lane lo hi : 0 <= lo < 2 ^ 32 -> 0 <= hi < 2 ^ 32 -> lane64 (lane_of lo hi).
Proof. unfold lane_of, lane64. pow2_norm. lia. Qed.

Lemma word_bound x : 0 <= u32 x < 2 ^ 32.
Proof. apply wrap_bound. lia. Qed.

Lemma high_word x : lane64 x -> 0 <= Z.shiftr x 32 < 2 ^ 32.
Proof. intros H. unfold lane64 in H. rewrite high_half. pow2_norm. zdiv_lia. Qed.

Lemma u32_high x : lane64 x -> u32 (Z.shiftr x 32) = Z.shiftr x 32.
Proof. intros H. apply wrap_small. by apply high_word. Qed.

Lemma words_lane x y : 0 <= x < 2 ^ 32 -> 0 <= y < 2 ^ 32 -> lane64 (x * y).
Proof. intros. unfold lane64. change (2 ^ 64) with (2 ^ 32 * 2 ^ 32). nia. Qed.

Lemma low_lane_of lo hi : 0 <= lo < 2 ^ 32 -> u32 (lane_of lo hi) = lo.
Proof. intros H. unfold lane_of, wrap. rewrite Z.mul_comm, Z.mod_add by lia. by apply Z.mod_small. Qed.

Lemma high_lane_of lo hi : 0 <= lo < 2 ^ 32 -> Z.shiftr (lane_of lo hi) 32 = hi.
Proof. intros H. rewrite high_half. unfold lane_of. rewrite Z.mul_comm, Z.div_add by lia. rewrite Z.div_small by lia. lia. Qed.

Lemma lane_of_words x : lane64 x -> lane_of (u32 x) (Z.shiftr x 32) = x.
Proof. intros H. rewrite high_half. unfold lane_of, wrap. pose proof (Z.div_mod x (2 ^ 32) ltac:(lia)). lia. Qed.

#[export] Hint Resolve vector_zip vector_map vector_replicate lane_of_lane words_lane word_bound high_word u64_lane lxor_lane : vec.
#[export] Hint Extern 1 (lane64 (Z.shiftr _ _)) => apply shiftr_lane; [|lia] : vec.
#[export] Hint Extern 2 (lane64 _) => progress cbv beta : vec.
Ltac vec := eauto 10 with vec.

(** ** The words of a lane *)

(** The multiplication that keeps 64 bits of 64 times 32. *)
Lemma mul_by_halves x p :
  lane64 x -> 0 <= p < 2 ^ 32 -> u64 (u32 x * p + u64 (Z.shiftl (Z.shiftr x 32 * p) 32)) = u64 (x * p).
Proof.
  intros Hx Hp. rewrite wrap_add_r, Z.shiftl_mul_pow2 by lia. f_equal.
  rewrite <- (lane_of_words x Hx) at 3. unfold lane_of. lia.
Qed.

Lemma pairs_ind {A} (P : list A -> Prop) :
  P [] -> (forall x, P [x]) -> (forall x y l, P l -> P (x :: y :: l)) -> forall l, P l.
Proof.
  intros H0 H1 H2 l. assert (P l /\ forall x, P (x :: l)) as [? _]; [|done].
  induction l as [|y l [IH1 IH2]]; split; auto.
Qed.

Lemma even_pairs {A} (P : list A -> Prop) :
  P [] -> (forall x y l, P l -> P (x :: y :: l)) -> forall l, Nat.even (length l) = true -> P l.
Proof.
  intros H0 H2 l. induction l as [|x|x y l IH] using pairs_ind; cbn [length Nat.even]; [done|discriminate|auto].
Qed.

Lemma shuffle_swap v : Nat.even (length v) = true -> Forall lane64 v -> shuffle_words (MM_SHUFFLE 1 0 3 2) v = swap_pairs v.
Proof.
  revert v. apply (even_pairs (fun v => Forall lane64 v -> _)); [done|]. intros x y v IH H.
  inversion_clear H as [|? ? Hx H']. inversion_clear H' as [|? ? Hy Hv].
  cbn [shuffle_words swap_pairs]. rewrite (IH Hv).
  change (lane_of (u32 y) (Z.shiftr y 32) :: lane_of (u32 x) (Z.shiftr x 32) :: swap_pairs v = y :: x :: swap_pairs v).
  by rewrite !lane_of_words.
Qed.

(** The upper words brought down. *)
Lemma shuffle_high v :
  Nat.even (length v) = true -> Forall lane64 v ->
  map (fun x => u32 x) (shuffle_words (MM_SHUFFLE 0 3 0 1) v) = map (fun x => Z.shiftr x 32) v
  /\ Forall lane64 (shuffle_words (MM_SHUFFLE 0 3 0 1) v).
Proof.
  revert v. apply (even_pairs (fun v => Forall lane64 v -> _)); [done|]. intros x y v IH H.
  inversion_clear H as [|? ? Hx H']. inversion_clear H' as [|? ? Hy Hv]. destruct (IH Hv) as [E R].
  change (shuffle_words (MM_SHUFFLE 0 3 0 1) (x :: y :: v)) with (lane_of (Z.shiftr x 32) (u32 x) :: lane_of (Z.shiftr y 32) (u32 x)
    :: shuffle_words (MM_SHUFFLE 0 3 0 1) v).
  cbn [map]. rewrite E, !low_lane_of by by apply high_word. split; [done|].
  rewrite !Forall_cons. split_and!; [vec..|exact R].
Qed.

Lemma srli_high v : Forall lane64 v -> map (fun x => u32 x) (map (fun x => Z.shiftr x 32) v) = map (fun x => Z.shiftr x 32) v.
Proof. intros H. induction H as [|x v Hx H IH]; cbn [map]; [done|]. by rewrite IH, u32_high. Qed.

(** ** One vector *)

(** The sum of a stripe, for the vectors whose lanes are the data, the key and the
    accumulators; [hi] has the upper words of [data ^ key] in its lower words. *)
Lemma accumulated_lanes w acc data key hi :
  vector w acc -> vector w data -> vector w key ->
  map (fun x => u32 x) hi = map (fun x => Z.shiftr x 32) (zip_with Z.lxor data key) ->
  zip_with (fun x y => u64 (x + y)) (zip_with (fun x y => u32 x * u32 y) (zip_with Z.lxor data key) hi)
    (zip_with (fun x y => u64 (x + y)) acc (swap_pairs data))
  = accumulated acc data key.
Proof.
  intros [La _] [Ld _] [Lk _] E. unfold accumulated.
  assert (Ls : length (swap_pairs data) = w) by (by rewrite length_swap_pairs).
  generalize dependent (swap_pairs data). revert acc data key hi La Ld Lk E. induction w as [|w IH].
  - by intros [|] [|] [|] [|] ? ? ? ? [|] ?.
  - intros [|a acc] [|d data] [|k key] [|h hi] La Ld Lk E [|s sw] Ls; try discriminate. cbn [zip_with map] in *.
    injection E as Eh E. injection La as La. injection Ld as Ld. injection Lk as Lk. injection Ls as Ls.
    rewrite (IH acc data key hi La Ld Lk E sw Ls). f_equal. unfold product. rewrite Eh, wrap_add_r by lia. f_equal. lia.
Qed.

Lemma scrambled_lanes w acc key hi :
  vector w acc -> vector w key ->
  let dk := zip_with Z.lxor (map (fun x => XXH_xorshift64 x 47) acc) key in
  map (fun x => u32 x) hi = map (fun x => Z.shiftr x 32) dk ->
  zip_with (fun x y => u64 (x + y)) (zip_with (fun x y => u32 x * u32 y) dk (replicate w (lane_of XXH_PRIME32_1 XXH_PRIME32_1)))
    (map (fun x => u64 (Z.shiftl x 32)) (zip_with (fun x y => u32 x * u32 y) hi (replicate w (lane_of XXH_PRIME32_1 XXH_PRIME32_1))))
  = scrambled acc key.
Proof.
  intros [La Ha] [Lk Hk] dk E. unfold scrambled. subst dk. revert acc key hi La Ha Lk Hk E. induction w as [|w IH].
  - by intros [|] [|] [|] ? ? ? ? ?.
  - intros [|a acc] [|k key] [|h hi] La Ha Lk Hk E; try discriminate. cbn [zip_with map replicate] in *.
    injection E as Eh E. injection La as La. injection Lk as Lk. inversion_clear Ha as [|? ? Ha1 Ha2]. inversion_clear Hk as [|? ? Hk1 Hk2].
    rewrite (IH acc key hi La Ha2 Lk Hk2 E). f_equal. rewrite low_lane_of by (split; vm_compute; congruence).
    rewrite Eh, mul_by_halves; [done| |split; vm_compute; congruence]. apply lxor_lane; [|done]. by apply xorshift_lane.
Qed.

(** ** Loops over vectors *)

(** The [i]-th vector of [w] lanes. *)
Definition chunk (w : nat) (i : Z) (l : list Z) : list Z := take w (drop (Z.to_nat i * w) l).
(** The [w] lanes at [k]. *)
Definition lane_block (w : nat) (bs : list Z) (k : Z) : list Z := map (fun i => bytes_at 8 bs (k + 8 * i)) (seqZ 0 (Z.of_nat w)).

Lemma vector_lane_block w bs k : Forall byte_range bs -> vector w (lane_block w bs k).
Proof.
  intros H. split; [unfold lane_block; by rewrite length_map, length_seqZ, Nat2Z.id|].
  apply Forall_fmap, Forall_true. intros i. by apply bytes_at_lane.
Qed.
#[export] Hint Resolve vector_lane_block : vec.

Lemma seqZ_S (m : Z) n : seqZ m (Z.of_nat (S n)) = m :: seqZ (m + 1) (Z.of_nat n).
Proof. rewrite seqZ_cons by lia. f_equal. f_equal; lia. Qed.

Lemma map_seqZ_shift {A} (f : Z -> A) m n : map f (seqZ (m + 1) n) = map (fun i => f (i + 1)) (seqZ m n).
Proof.
  change (f <$> seqZ (m + 1) n = (fun i => f (i + 1)) <$> seqZ m n). unfold seqZ. rewrite <- !list_fmap_compose.
  apply list_fmap_ext. intros. cbn. f_equal. lia.
Qed.

Lemma read_lanes_value w p bs k :
  holds p bs -> 0 <= k -> k + 8 * Z.of_nat w <= Z.of_nat (length bs) -> read_lanes w (p +! k) = Done (lane_block w bs k).
Proof.
  intros Hp. revert k. induction w as [|w IH]; intros k Hk Hl; [done|]. cbn [read_lanes].
  rewrite (read64_holds p bs), bind_done, advance_advance by (auto; lia). rewrite IH, bind_done by lia.
  unfold lane_block. rewrite seqZ_S. cbn [map]. do 2 f_equal; [f_equal; lia|].
  rewrite map_seqZ_shift. apply map_ext. intros. f_equal. lia.
Qed.

Lemma chunk_length w i l : (Z.to_nat i * w + w <= length l)%nat -> length (chunk w i l) = w.
Proof. intros H. unfold chunk. rewrite length_take, length_drop. lia. Qed.

Lemma xacc_load_chunk w acc i :
  0 <= i -> (Z.to_nat i * w + w <= length acc)%nat -> xacc_load w acc i = Done (chunk w i acc).
Proof. intros H0 H. unfold xacc_load. rewrite !(proj2 (Z.leb_le _ _)) by lia. done. Qed.

(** A loop that replaces the vectors from [a] to [b] one by one. *)
Lemma vector_loop w (f : Z -> list Z) (a b : Z) body acc :
  0 <= a <= b -> (Z.to_nat b * w <= length acc)%nat ->
  (forall i acc', a <= i < b -> length acc' = length acc -> chunk w i acc' = chunk w i acc ->
     length (f i) = w /\ body i acc' = xacc_store w acc' i (f i)) ->
  for_up a b body acc
  = Done (take (Z.to_nat a * w) acc ++ concat (map f (seqZ a (b - a))) ++ drop (Z.to_nat b * w) acc).
Proof.
  intros Hab Lb Hbody. unfold for_up.
  destruct (for_loop_inv (fun i acc' => acc' = take (Z.to_nat a * w) acc ++ concat (map f (seqZ a (i - a))) ++ drop (Z.to_nat i * w) acc
      /\ length (concat (map f (seqZ a (i - a)))) = (Z.to_nat (i - a) * w)%nat)
    (Z.to_nat (b - a)) a body acc) as (acc' & -> & -> & _).
  - rewrite Z.sub_diag. change (seqZ a 0) with (@nil Z). cbn [map concat app length]. split; [by rewrite take_drop|done].
  - intros i acc' Hi [-> L]. set (done := concat (map f (seqZ a (i - a)))) in *.
    set (cur := take (Z.to_nat a * w) acc ++ done ++ drop (Z.to_nat i * w) acc).
    assert (Hi' : (Z.to_nat i * w + w <= length acc)%nat) by nia.
    assert (Lp : length (take (Z.to_nat a * w) acc ++ done) = (Z.to_nat i * w)%nat) by (rewrite length_app, length_take; nia).
    assert (Lc : length cur = length acc) by (unfold cur; rewrite app_assoc, length_app, Lp, length_drop; lia).
    assert (D : drop (Z.to_nat i * w) cur = drop (Z.to_nat i * w) acc).
    { unfold cur. rewrite app_assoc, drop_app_length'; [done|lia]. }
    destruct (Hbody i cur) as [Lf ->]; [lia|done|unfold chunk; by rewrite D|].
    unfold xacc_store. rewrite Lc, (proj2 (Z.leb_le 0 i)), (proj2 (Z.leb_le ((i + 1) * _) _)) by nia. cbn [andb]. eexists. split; [done|].
    replace (i + 1 - a) with (i - a + 1) by lia. rewrite seqZ_app, map_app, concat_app by lia.
    replace (a + (i - a)) with i by lia. change (seqZ i 1) with [i]. cbn [map concat]. rewrite app_nil_r.
    fold done. split; [|rewrite length_app; nia].
    unfold cur at 1. rewrite (app_assoc _ done), take_app_length' by lia.
    rewrite <- (drop_drop cur), D, drop_drop. rewrite <- !app_assoc. do 4 f_equal. nia.
  - do 2 f_equal. replace (a + Z.of_nat (Z.to_nat (b - a))) with b by lia. done.
Qed.

Lemma chunk_prefix w i n l l' :
  (Z.to_nat i * w + w <= n)%nat -> (n <= length l)%nat -> chunk w i (take n l ++ l') = chunk w i l.
Proof.
  intros Hi Hn. unfold chunk. rewrite drop_app_le, take_app_le by (try rewrite length_drop; rewrite length_take; lia).
  rewrite <- (take_drop n l) at 2. rewrite drop_app_le, take_app_le by (try rewrite length_drop; rewrite length_take; lia). done.
Qed.

(** All of the eight accumulators, in [8 / w] vectors. *)
Lemma widths w : In w [2; 4; 8]%nat -> 8 / Z.of_nat w * Z.of_nat w = 8 /\ Nat.even w = true.
Proof. by intros [<-|[<-|[<-|[]]]]. Qed.

Lemma all_vectors w f body acc :
  In w [2; 4; 8]%nat -> length acc = 8%nat ->
  (forall i acc', 0 <= i < 8 / Z.of_nat w -> length acc' = 8%nat -> chunk w i acc' = chunk w i acc ->
     length (chunk w i acc) = w -> length (f i) = w /\ body i acc' = xacc_store w acc' i (f i)) ->
  for_up 0 (8 / Z.of_nat w) body acc = Done (concat (map f (seqZ 0 (8 / Z.of_nat w)))).
Proof.
  intros Hw La Hb. destruct (widths w Hw) as [E _].
  rewrite (vector_loop w f).
  - rewrite Z.sub_0_r, drop_ge by nia. by rewrite app_nil_r.
  - nia.
  - nia.
  - intros i acc' Hi L C. apply Hb; [done|congruence|done|]. apply chunk_length. nia.
Qed.

Lemma length_accumulated w acc data key :
  length acc = w -> length data = w -> length key = w -> length (accumulated acc data key) = w.
Proof. intros. unfold accumulated. rewrite !length_zip_with, length_swap_pairs. lia. Qed.

Lemma length_lane_block w bs k : length (lane_block w bs k) = w.
Proof. unfold lane_block. rewrite length_map, length_seqZ. lia. Qed.

Lemma vector_chunk w i acc : Forall lane64 acc -> length (chunk w i acc) = w -> vector w (chunk w i acc).
Proof. intros H L. split; [done|]. by apply Forall_take, Forall_drop. Qed.

Section Loops.
Context (w : nat) (Hw : In w [2; 4; 8]%nat) (acc : list Z) (Ha : accumulators acc).

Lemma accumulated_loop body bs ks :
  (forall i acc', 0 <= i < 8 / Z.of_nat w -> length acc' = 8%nat -> chunk w i acc' = chunk w i acc -> vector w (chunk w i acc) ->
     body i acc' = xacc_store w acc' i (accumulated (chunk w i acc) (lane_block w bs (8 * Z.of_nat w * i)) (lane_block w ks (8 * Z.of_nat w * i)))) ->
  for_up 0 (8 / Z.of_nat w) body acc = Done (accumulated acc (lanes_of bs) (lanes_of ks)).
Proof.
  intros Hb. destruct (accumulators_8 acc Ha) as (a0 & a1 & a2 & a3 & a4 & a5 & a6 & a7 & E).
  rewrite (all_vectors w (fun i => accumulated (chunk w i acc) (lane_block w bs (8 * Z.of_nat w * i)) (lane_block w ks (8 * Z.of_nat w * i)))).
  - rewrite E. by destruct Hw as [<-|[<-|[<-|[]]]].
  - done.
  - by rewrite E.
  - intros i acc' Hi L C Lc. split; [apply length_accumulated; auto using length_lane_block|].
    apply Hb; auto. apply vector_chunk; [apply Ha|done].
Qed.

Lemma scrambled_loop body ks :
  (forall i acc', 0 <= i < 8 / Z.of_nat w -> length acc' = 8%nat -> chunk w i acc' = chunk w i acc -> vector w (chunk w i acc) ->
     body i acc' = xacc_store w acc' i (scrambled (chunk w i acc) (lane_block w ks (8 * Z.of_nat w * i)))) ->
  for_up 0 (8 / Z.of_nat w) body acc = Done (scrambled acc (lanes_of ks)).
Proof.
  intros Hb. destruct (accumulators_8 acc Ha) as (a0 & a1 & a2 & a3 & a4 & a5 & a6 & a7 & E).
  rewrite (all_vectors w (fun i => scrambled (chunk w i acc) (lane_block w ks (8 * Z.of_nat w * i)))).
  - rewrite E. by destruct Hw as [<-|[<-|[<-|[]]]].
  - done.
  - by rewrite E.
  - intros i acc' Hi L C Lc. split; [unfold scrambled; rewrite length_zip_with, length_lane_block; lia|].
    apply Hb; auto. apply vector_chunk; [apply Ha|done].
Qed.

(** The vector of the accumulators that a round of a loop loads. *)
Lemma load_chunk i acc' :
  0 <= i < 8 / Z.of_nat w -> length acc' = 8%nat -> chunk w i acc' = chunk w i acc -> xacc_load w acc' i = Done (chunk w i acc).
Proof. intros Hi L <-. destruct (widths w Hw). apply xacc_load_chunk; nia. Qed.

Lemma load_lanes p bs i :
  holds p bs -> (64 <= length bs)%nat -> 0 <= i < 8 / Z.of_nat w ->
  read_lanes w (p +! sizeof_vector w * i) = Done (lane_block w bs (8 * Z.of_nat w * i)).
Proof. intros Hp Lb Hi. destruct (widths w Hw). unfold sizeof_vector. apply read_lanes_value; [done|nia|nia]. Qed.

End Loops.

(** ** x86 *)

Section X86.
Context {w : nat} {U : x86_unit w} {L : x86_laws U} (Hw : In w [2; 4; 8]%nat).

Lemma x86_stripe acc data key hi :
  vector w acc -> vector w data -> vector w key -> vector w hi ->
  map (fun x => u32 x) hi = map (fun x => Z.shiftr x 32) (zip_with Z.lxor data key) ->
  mm_add_epi64 (mm_mul_epu32 (mm_xor_si data key) hi) (mm_add_epi64 acc (mm_shuffle_epi32 data (MM_SHUFFLE 1 0 3 2)))
  = accumulated acc data key.
Proof.
  intros Ha Hd Hk Hh E. destruct (widths w Hw) as [_ Ew].
  rewrite mm_shuffle_epi32_law, shuffle_swap by (try done; destruct Hd; by subst).
  assert (vector w (swap_pairs data)).
  { destruct Hd as [Ld Hd]. split; [by rewrite length_swap_pairs|]. clear -Hd.
    induction data as [|x|x y l IH] using pairs_ind; cbn [swap_pairs]; [done..|]. rewrite !Forall_cons in *. naive_solver. }
  rewrite mm_xor_si_law, mm_mul_epu32_law, (mm_add_epi64_law acc), mm_add_epi64_law by vec.
  by apply (accumulated_lanes w).
Qed.

Lemma x86_scramble acc key dk hi :
  vector w acc -> vector w key -> vector w hi ->
  dk = zip_with Z.lxor (map (fun x => XXH_xorshift64 x 47) acc) key ->
  map (fun x => u32 x) hi = map (fun x => Z.shiftr x 32) dk ->
  mm_add_epi64 (mm_mul_epu32 dk (mm_set1_epi32 (i32 XXH_PRIME32_1)))
    (mm_slli_epi64 (mm_mul_epu32 hi (mm_set1_epi32 (i32 XXH_PRIME32_1))) 32)
  = scrambled acc key.
Proof.
  intros Ha Hk Hh -> E. rewrite mm_set1_epi32_law. change (u32 (i32 XXH_PRIME32_1)) with XXH_PRIME32_1.
  assert (Hp : lane64 (lane_of XXH_PRIME32_1 XXH_PRIME32_1)) by (split; vm_compute; congruence).
  assert (Hx : vector w (map (fun x => XXH_xorshift64 x 47) acc)) by (apply vector_map; [done|]; intros; by apply xorshift_lane).
  rewrite !mm_mul_epu32_law, mm_slli_epi64_law, mm_add_epi64_law by vec.
  by apply (scrambled_lanes w).
Qed.

(** The two ways to bring the upper words down. *)
Lemma x86_high_srli dk : vector w dk ->
  vector w (mm_srli_epi64 dk 32) /\ map (fun x => u32 x) (mm_srli_epi64 dk 32) = map (fun x => Z.shiftr x 32) dk.
Proof. intros H. rewrite mm_srli_epi64_law by (auto; lia). split; [vec|]. apply srli_high. apply H. Qed.

Lemma x86_high_shuffle dk : vector w dk ->
  vector w (mm_shuffle_epi32 dk (MM_SHUFFLE 0 3 0 1))
  /\ map (fun x => u32 x) (mm_shuffle_epi32 dk (MM_SHUFFLE 0 3 0 1)) = map (fun x => Z.shiftr x 32) dk.
Proof.
  intros H. destruct (widths w Hw) as [_ Ew]. rewrite mm_shuffle_epi32_law by done.
  destruct H as [Ld H]. destruct (shuffle_high dk) as [E R]; [by subst|done|]. split; [|done]. split; [|done].
  apply (f_equal length) in E. rewrite !length_map in E. lia.
Qed.

Lemma x86_xorshift acc : vector w acc ->
  mm_xor_si acc (mm_srli_epi64 acc 47) = map (fun x => XXH_xorshift64 x 47) acc.
Proof.
  intros H. rewrite mm_srli_epi64_law by (auto; lia). rewrite mm_xor_si_law by vec.
  clear H. unfold XXH_xorshift64. induction acc as [|x acc IH]; cbn [map zip_with]; [done|]. by rewrite IH.
Qed.

Lemma vector_xorshift acc : vector w acc -> vector w (map (fun x => XXH_xorshift64 x 47) acc).
Proof. intros H. apply vector_map; [done|]. intros. by apply xorshift_lane. Qed.

End X86.

(** ** Secrets *)

(** A loop that writes [h] pairs of lanes at a time. *)
Lemma secret_loop h n seed body buf :
  0 < h -> h * n = 12 -> length buf = Z.to_nat XXH_SECRET_DEFAULT_SIZE ->
  (forall i dest, 0 <= i < n -> length dest = 192%nat ->
     body i dest = XXH_memcpy (start dest +! 16 * h * i) (concat (map (secret_pair seed) (seqZ (h * i) h)))) ->
  for_up 0 n body buf = Done (custom_secret seed).
Proof.
  intros Hh Hn L Hb. unfold for_up.
  destruct (for_loop_inv (fun i b => length b = 192%nat
      /\ let done := concat (map (secret_pair seed) (seqZ 0 (h * i))) in take (length done) b = done)
    (Z.to_nat (n - 0)) 0 body buf) as (b' & E & Lb & T).
  - split; [exact L|]. rewrite Z.mul_0_r. done.
  - intros i b Hi [Lb T]. cbv zeta in *. rewrite (Hb i b) by lia.
    set (done := concat (map (secret_pair seed) (seqZ 0 (h * i)))) in *.
    assert (Ld : length done = Z.to_nat (16 * (h * i))) by (subst done; rewrite length_secret_pairs, length_seqZ; lia).
    destruct (memcpy_next b done (concat (map (secret_pair seed) (seqZ (h * i) h)))) as (b' & E & L' & T');
      [done|rewrite length_secret_pairs, length_seqZ; nia|].
    exists b'. split.
    + unfold start, advance. cbn [block index]. rewrite <- E. do 2 f_equal. nia.
    + split; [lia|]. replace (h * (i + 1)) with (h * i + h) by lia. rewrite seqZ_app, map_app, concat_app by nia. exact T'.
  - rewrite E. f_equal. cbv zeta in T. rewrite take_ge in T.
    + rewrite T. unfold custom_secret. do 3 f_equal. lia.
    + rewrite length_secret_pairs, length_seqZ. lia.
Qed.

(** Adding and subtracting the seed, a pair of lanes at a time. *)
Definition seed_pairs (h : Z) (seed : Z) : list Z := concat (replicate (Z.to_nat h) [u64 seed; u64 (0 - seed)]).

Lemma vector_seed_pairs h seed : 0 <= h -> vector (Z.to_nat (2 * h)) (seed_pairs h seed).
Proof.
  intros Hh. unfold seed_pairs. replace (Z.to_nat (2 * h)) with (2 * Z.to_nat h)%nat by lia.
  generalize (Z.to_nat h). intros n. induction n as [|n [IH1 IH2]]; [done|]. cbn [replicate concat]. split.
  - rewrite length_app, IH1. cbn. lia.
  - apply Forall_app. split; [|done].
    constructor; [apply u64_lane|]. constructor; [apply u64_lane|constructor].
Qed.

Lemma seeded_bytes h seed k :
  0 <= h -> concat (map (le_split 8) (zip_with (fun x y => u64 (x + y)) (lane_block (Z.to_nat (2 * h)) XXH3_kSecret (16 * k)) (seed_pairs h seed)))
  = concat (map (secret_pair seed) (seqZ k h)).
Proof.
  intros Hh. unfold seed_pairs. replace (Z.to_nat (2 * h)) with (Z.to_nat h + Z.to_nat h)%nat by lia.
  rewrite <- (Z2Nat.id h) at 4 by done. generalize (Z.to_nat h). clear. intros n. revert k. induction n as [|n IH]; intros k; [done|].
  rewrite seqZ_S. cbn [map concat]. rewrite <- IH, Nat.add_succ_r. unfold lane_block. cbn [Nat.add]. rewrite !seqZ_S.
  cbn [map replicate concat app zip_with]. rewrite !map_seqZ_shift. unfold secret_pair. rewrite <- app_assoc.
  f_equal; [|f_equal].
  - by rewrite wrap_add_r, Z.mul_0_r, Z.add_0_r by lia.
  - by rewrite wrap_add_r by lia.
  - do 3 f_equal. apply map_ext. intros. f_equal. lia.
Qed.

Lemma x86_secret_step {w} {U : x86_unit w} {L : x86_laws U} h seed v i dest :
  Z.of_nat w = 2 * h -> 0 < h -> 0 <= i -> h * i + h <= 12 -> v = seed_pairs h seed ->
  (src ← read_lanes w (start XXH3_kSecret +! sizeof_vector w * i); write_vector w dest i (mm_add_epi64 src v))
  = XXH_memcpy (start dest +! 16 * h * i) (concat (map (secret_pair seed) (seqZ (h * i) h))).
Proof.
  intros Ew Hh Hi Hl ->. assert (Ew' : w = Z.to_nat (2 * h)) by lia.
  assert (Lk : length XXH3_kSecret = 192%nat) by done.
  rewrite (read_lanes_value w _ XXH3_kSecret) by (first [apply holds_start|unfold sizeof_vector; lia]). rewrite bind_done.
  unfold write_vector. rewrite mm_add_epi64_law by (try apply vector_lane_block, kSecret_range; subst w; apply vector_seed_pairs; lia).
  rewrite <- seeded_bytes by lia. f_equal; [f_equal; nia|]. do 3 f_equal. rewrite Ew'. f_equal. unfold sizeof_vector. nia.
Qed.

Section X86_rounds.
Context {w : nat} {U : x86_unit w} {L : x86_laws U} (Hw : In w [2; 4; 8]%nat).

(** [x86_round high]: [high] brings the upper words down, by a shift or a shuffle. *)
Definition brings_high (high : list Z -> list Z) : Prop :=
  forall dk, vector w dk -> vector w (high dk) /\ map (fun x => u32 x) (high dk) = map (fun x => Z.shiftr x 32) dk.

Lemma x86_accumulate_round high acc data key :
  brings_high high -> vector w acc -> vector w data -> vector w key ->
  mm_add_epi64 (mm_mul_epu32 (mm_xor_si data key) (high (mm_xor_si data key)))
    (mm_add_epi64 acc (mm_shuffle_epi32 data (MM_SHUFFLE 1 0 3 2)))
  = accumulated acc data key.
Proof.
  intros Hh Ha Hd Hk. destruct (Hh (mm_xor_si data key)) as [Hv E]; [rewrite mm_xor_si_law by done; vec|].
  apply (x86_stripe Hw); try done. by rewrite E, mm_xor_si_law.
Qed.

Lemma x86_scramble_round high acc key :
  brings_high high -> vector w acc -> vector w key ->
  let data_key := mm_xor_si (mm_xor_si acc (mm_srli_epi64 acc 47)) key in
  mm_add_epi64 (mm_mul_epu32 data_key (mm_set1_epi32 (i32 XXH_PRIME32_1)))
    (mm_slli_epi64 (mm_mul_epu32 (high data_key) (mm_set1_epi32 (i32 XXH_PRIME32_1))) 32)
  = scrambled acc key.
Proof.
  intros Hh Ha Hk data_key. assert (Ed : data_key = zip_with Z.lxor (map (fun x => XXH_xorshift64 x 47) acc) key).
  { subst data_key. rewrite x86_xorshift by done. by rewrite mm_xor_si_law by (try done; by apply vector_xorshift). }
  assert (Hd : vector w data_key) by (rewrite Ed; apply vector_zip; [by apply vector_xorshift|done|apply lxor_lane]).
  destruct (Hh data_key Hd) as [Hv E]. by apply x86_scramble.
Qed.

Lemma xacc_round body acc bs ks p s i acc' :
  0 <= i < 8 / Z.of_nat w -> length acc' = 8%nat -> chunk w i acc' = chunk w i acc ->
  holds p bs -> holds s ks -> (64 <= length bs)%nat -> (64 <= length ks)%nat ->
  (data_vec ← read_lanes w (p +! sizeof_vector w * i);
   key_vec ← read_lanes w (s +! sizeof_vector w * i);
   xacc ← xacc_load w acc' i;
   body data_vec key_vec xacc : outcome (list Z))
  = body (lane_block w bs (8 * Z.of_nat w * i)) (lane_block w ks (8 * Z.of_nat w * i)) (chunk w i acc).
Proof.
  intros Hi L' C Hp Hs Lb Lk. rewrite (load_lanes w Hw p bs), bind_done, (load_lanes w Hw s ks), bind_done by done.
  by rewrite (load_chunk w Hw acc i acc'), bind_done by done.
Qed.

(** The loop of a stripe and that of a scramble. *)
Lemma x86_accumulate_loop high acc p s bs ks :
  brings_high high ->
  accumulators acc -> Forall byte_range bs -> Forall byte_range ks -> (64 <= length bs)%nat -> (64 <= length ks)%nat ->
  holds p bs -> holds s ks ->
  for_up 0 (8 / Z.of_nat w) (fun i acc =>
    data_vec ← read_lanes w (p +! sizeof_vector w * i);
    key_vec ← read_lanes w (s +! sizeof_vector w * i);
    xacc ← xacc_load w acc i;
    xacc_store w acc i (mm_add_epi64 (mm_mul_epu32 (mm_xor_si data_vec key_vec) (high (mm_xor_si data_vec key_vec)))
      (mm_add_epi64 xacc (mm_shuffle_epi32 data_vec (MM_SHUFFLE 1 0 3 2))))) acc
  = Done (accumulated acc (lanes_of bs) (lanes_of ks)).
Proof.
  intros Hh Ha Hb Hk Lb Lk Hp Hs. apply (accumulated_loop w Hw); [done|]. intros i acc' Hi L' C V.
  rewrite (xacc_round _ acc bs ks) by done. by rewrite x86_accumulate_round by (try done; by apply vector_lane_block).
Qed.

Lemma x86_scramble_loop high acc s ks :
  brings_high high ->
  accumulators acc -> Forall byte_range ks -> (64 <= length ks)%nat -> holds s ks ->
  for_up 0 (8 / Z.of_nat w) (fun i acc =>
    acc_vec ← xacc_load w acc i;
    key_vec ← read_lanes w (s +! sizeof_vector w * i);
    let data_key := mm_xor_si (mm_xor_si acc_vec (mm_srli_epi64 acc_vec 47)) key_vec in
    xacc_store w acc i (mm_add_epi64 (mm_mul_epu32 data_key (mm_set1_epi32 (i32 XXH_PRIME32_1)))
      (mm_slli_epi64 (mm_mul_epu32 (high data_key) (mm_set1_epi32 (i32 XXH_PRIME32_1))) 32))) acc
  = Done (scrambled acc (lanes_of ks)).
Proof.
  intros Hh Ha Hk Lk Hs. apply (scrambled_loop w Hw); [done|]. intros i acc' Hi L' C V.
  rewrite (load_chunk w Hw acc i acc'), bind_done, (load_lanes w Hw s ks), bind_done by done.
  cbv zeta. by rewrite x86_scramble_round by (try done; by apply vector_lane_block).
Qed.

End X86_rounds.

Lemma in_widths_2 : In 2%nat [2; 4; 8]%nat.
Proof. by left. Qed.
Lemma in_widths_4 : In 4%nat [2; 4; 8]%nat.
Proof. by right; left. Qed.
Lemma in_widths_8 : In 8%nat [2; 4; 8]%nat.
Proof. by do 2 right; left. Qed.

Lemma u64_i64 x : u64 (i64 x) = u64 x.
Proof. unfold swrap, wrap. rewrite Zminus_mod_idemp_l. f_equal. lia. Qed.

Ltac kernel_functions :=
  cbn [XXH3_kernel XXH3_accumulate_512 XXH3_accumulate XXH3_scrambleAcc XXH3_initCustomSecret].

#[export] Instance sse2_laws u (L : x86_laws (sse2 u)) : Kernel_laws (XXH3_kernel u XXH_SSE2).
Proof.
  split; kernel_functions; intros.
  - by apply (x86_accumulate_loop in_widths_2 (fun dk => mm_shuffle_epi32 dk (MM_SHUFFLE 0 3 0 1)));
      [intros ? ?; apply (x86_high_shuffle in_widths_2)|..].
  - done.
  - by apply (x86_scramble_loop in_widths_2 (fun dk => mm_shuffle_epi32 dk (MM_SHUFFLE 0 3 0 1)));
      [intros ? ?; apply (x86_high_shuffle in_widths_2)|..].
  - unfold XXH3_initCustomSecret_sse2. change (XXH_SECRET_DEFAULT_SIZE / sizeof_vector m128i) with 12.
    apply (secret_loop 1); [done..|]. intros i dest Hi Ld. apply x86_secret_step; [done|lia..|].
    rewrite mm_set_epi64x_law by done. unfold seed_pairs. cbn -[wrap swrap].
    by rewrite !u64_i64, wrap_idemp.
Qed.

(** A loop unrolled. *)
Lemma six_steps {A} (step : Z -> A -> outcome A) x :
  (x ← step 0 x; x ← step 1 x; x ← step 2 x; x ← step 3 x; x ← step 4 x; step 5 x) = for_up 0 6 step x.
Proof.
  change (for_up 0 6 step x) with (x ← step 0 x; x ← step 1 x; x ← step 2 x; x ← step 3 x; x ← step 4 x; x ← step 5 x; Done x).
  do 5 (lazymatch goal with |- (?m ≫= _) = _ => destruct m; [rewrite !bind_done|reflexivity..] end).
  by destruct (step 5 _).
Qed.

#[export] Instance avx2_laws u (L : x86_laws (avx2 u)) : Kernel_laws (XXH3_kernel u XXH_AVX2).
Proof.
  split; kernel_functions; intros.
  - by apply (x86_accumulate_loop in_widths_4 (fun dk => mm_srli_epi64 dk 32)); [intros ? ?; apply (x86_high_srli)|..].
  - done.
  - by apply (x86_scramble_loop in_widths_4 (fun dk => mm_srli_epi64 dk 32)); [intros ? ?; apply (x86_high_srli)|..].
  - unfold XXH3_initCustomSecret_avx2. cbv zeta. etransitivity; [refine (six_steps (fun i dest => src ← read_lanes m256i (start XXH3_kSecret +! sizeof_vector m256i * i);
      write_vector m256i dest i (@mm_add_epi64 _ (avx2 u) src _)) buf)|].
    apply (secret_loop 2); [done..|]. intros i dest Hi Ld. apply x86_secret_step; [done|lia..|].
    rewrite mm_set_epi64x_law by done. unfold seed_pairs. cbn -[wrap swrap].
    by rewrite !u64_i64, wrap_idemp.
Qed.

(** *** AVX-512: all of the accumulators are one vector *)

Lemma eight_lanes bs : lane_block 8 bs 0 = lanes_of bs.
Proof. reflexivity. Qed.

Lemma read_eight p bs : holds p bs -> (64 <= length bs)%nat -> read_lanes 8 p = Done (lanes_of bs).
Proof. intros H L. rewrite <- (advance_0 p), (read_lanes_value 8 p bs) by (auto; lia). by rewrite eight_lanes. Qed.

Lemma vector_accumulators acc : accumulators acc -> vector 8 acc.
Proof. by intros [L R]. Qed.

Lemma vector_lanes_of bs : Forall byte_range bs -> vector 8 (lanes_of bs).
Proof. rewrite <- eight_lanes. apply vector_lane_block. Qed.

Lemma xacc_load_8 acc : accumulators acc -> xacc_load 8 acc 0 = Done acc.
Proof. intros H. destruct (accumulators_8 acc H) as (? & ? & ? & ? & ? & ? & ? & ? & ->). reflexivity. Qed.

Lemma xacc_store_8 acc v : accumulators acc -> xacc_store 8 acc 0 v = Done v.
Proof.
  intros H. destruct (accumulators_8 acc H) as (? & ? & ? & ? & ? & ? & ? & ? & ->). unfold xacc_store. cbn. by rewrite app_nil_r.
Qed.

(** [key ^ acc ^ shifted] *)
Lemma ternary_xor x y z : lane64 x -> lane64 y -> lane64 z -> ternary 0x96 x y z = Z.lxor (Z.lxor y z) x.
Proof.
  intros Hx Hy Hz. unfold ternary. cbn [foldr]. rewrite <- (wrap_small 64 (Z.lxor (Z.lxor y z) x)) by by repeat apply lxor_lane.
  f_equal. apply Z.bits_inj'. intros n Hn. cbn -[Z.lor Z.land Z.lnot Z.lxor].
  rewrite !Z.lor_spec, !Z.land_spec, !Z.lnot_spec, !Z.lxor_spec, Z.bits_0 by done.
  by destruct (Z.testbit x n), (Z.testbit y n), (Z.testbit z n).
Qed.

Lemma ternary_vectors w a b c :
  vector w a -> vector w b -> vector w c -> zip_with3 (ternary 0x96) a b c = zip_with Z.lxor (zip_with Z.lxor b c) a.
Proof.
  intros [La Ha] [Lb Hb] [Lc Hc]. revert a b c La Ha Lb Hb Lc Hc. induction w as [|w IH].
  - by intros [|] [|] [|] ? ? ? ? ? ?.
  - intros [|x a] [|y b] [|z c] La Ha Lb Hb Lc Hc; try discriminate. cbn [zip_with zip_with3].
    inversion_clear Ha. inversion_clear Hb. inversion_clear Hc. rewrite ternary_xor by done. f_equal. apply IH; auto.
Qed.

Lemma x86_ternary {w} {U : x86_unit w} {L : x86_laws U} acc key : vector w acc -> vector w key ->
  mm_ternarylogic_epi32 key acc (mm_srli_epi64 acc 47) 0x96 = mm_xor_si (mm_xor_si acc (mm_srli_epi64 acc 47)) key.
Proof.
  intros Ha Hk. rewrite mm_srli_epi64_law by (auto; lia).
  rewrite mm_ternarylogic_epi32_law by (first [lia|vec]). rewrite (ternary_vectors w) by vec.
  rewrite (mm_xor_si_law acc) by vec. by rewrite mm_xor_si_law by vec.
Qed.

#[export] Instance avx512_laws u (L : x86_laws (avx512 u)) : Kernel_laws (XXH3_kernel u XXH_AVX512).
Proof.
  split; kernel_functions; intros.
  - unfold XXH3_accumulate_512_avx512, m512i. rewrite (read_eight p bs), bind_done, (read_eight s ks), bind_done by done.
    cbv zeta. rewrite xacc_load_8, bind_done, xacc_store_8 by done. f_equal.
    apply (x86_accumulate_round in_widths_8 (fun dk => mm_srli_epi64 dk 32));
      auto using vector_accumulators, vector_lanes_of, x86_high_srli. intros ? ?. by apply x86_high_srli.
  - done.
  - unfold XXH3_scrambleAcc_avx512, m512i. cbv zeta. rewrite xacc_load_8, bind_done, (read_eight s ks), bind_done, xacc_store_8 by done.
    f_equal. pose proof (vector_accumulators acc H) as Va.
    pose proof (vector_lanes_of ks H0) as Vk.
    rewrite <- (x86_scramble_round (U := avx512 u) (fun dk => @mm_srli_epi64 _ (avx512 u) dk 32) acc (lanes_of ks)) by
      (try done; intros ? ?; by apply x86_high_srli).
    cbv zeta. by rewrite (x86_ternary acc).
  - unfold XXH3_initCustomSecret_avx512. change (XXH_SECRET_DEFAULT_SIZE / sizeof_vector m512i) with 3.
    apply (secret_loop 4); [done..|]. intros i dest Hi Ld. apply x86_secret_step; [done|lia..|].
    rewrite mm_set1_epi64_law, mm_set1_epi8_law, u64_i64.
    rewrite mm_mask_sub_epi64_law by (first [lia|apply vector_replicate; first [apply u64_lane|by vm_compute]]).
    unfold seed_pairs. cbn -[wrap swrap]. change (u8 0 * 72340172838076673) with 0.
    assert (E : u64 (0 - u64 seed) = u64 (0 - seed)) by (unfold wrap; by rewrite Zminus_mod_idemp_r).
    rewrite <- E. reflexivity.
Qed.

(** ** Vectors of two lanes *)

Lemma vector_2 v : vector 2 v -> exists x y, v = [x; y] /\ lane64 x /\ lane64 y.
Proof.
  intros [L R]. destruct v as [|x [|y [|]]]; try discriminate. inversion_clear R as [|? ? Hx R']. inversion_clear R'. eauto.
Qed.

Lemma two_lanes x y : lane64 x -> lane64 y -> vector 2 [x; y].
Proof. intros. split; [done|]. constructor; [done|]. by constructor. Qed.

Lemma lane_block_2 bs k : lane_block 2 bs k = [bytes_at 8 bs k; bytes_at 8 bs (k + 8)].
Proof.
  change (lane_block 2 bs k) with [bytes_at 8 bs (k + 8 * 0); bytes_at 8 bs (k + 8 * 1)].
  by rewrite Z.mul_0_r, Z.add_0_r.
Qed.

#[export] Hint Resolve two_lanes xorshift_lane : vec.

(** *** VSX *)

Lemma rotated_half x : lane64 x -> u32 (Z.lor (u64 (Z.shiftl x (32 mod 64))) (Z.shiftr x (64 - 32 mod 64))) = Z.shiftr x 32.
Proof.
  intros H. change (32 mod 64) with 32. change (64 - 32) with 32. unfold wrap.
  rewrite <- !Z.land_ones by lia. apply Z.bits_inj'. intros n Hn.
  rewrite Z.land_spec, Z.lor_spec, Z.land_spec, Z.shiftl_spec, Z.shiftr_spec, !Z.testbit_ones_nonneg by lia.
  destruct (Z.ltb_spec n 32).
  - rewrite (Z.testbit_neg_r x (n - 32)) by lia. by rewrite andb_true_r.
  - rewrite andb_false_r. symmetry. apply (testbit_above 64); [apply H|lia].
Qed.

Lemma vec_rl_lane x : lane64 x -> lane64 (Z.lor (u64 (Z.shiftl x (32 mod 64))) (Z.shiftr x (64 - 32 mod 64))).
Proof.
  intros H. change (32 mod 64) with 32. change (64 - 32) with 32.
  apply lor_bound; [lia|apply u64_lane|apply shiftr_lane; [done|lia]].
Qed.

(** In the order of the additions of each unit. *)
Lemma vsx_lane a d k s :
  lane64 d -> lane64 k -> let dk := Z.lxor d k in
  u64 (u64 (a + u32 dk * u32 (Z.lor (u64 (Z.shiftl dk (32 mod 64))) (Z.shiftr dk (64 - 32 mod 64)))) + s) = u64 (a + (s + product d k)).
Proof.
  intros Hd Hk dk. rewrite rotated_half by by apply lxor_lane. rewrite wrap_add_l by lia. unfold product. fold dk. f_equal. lia.
Qed.

Lemma vsx_scramble_lane a k :
  lane64 a -> lane64 k -> let dk := Z.lxor (XXH_xorshift64 a 47) k in let prime := lane_of XXH_PRIME32_1 XXH_PRIME32_1 in
  u64 (u32 dk * u32 prime + u64 (Z.shiftl (Z.shiftr dk 32 * Z.shiftr prime 32) 32)) = u64 (dk * XXH_PRIME32_1).
Proof.
  intros Ha Hk dk prime. subst prime. rewrite low_lane_of, high_lane_of by (split; vm_compute; congruence).
  apply mul_by_halves; [|split; vm_compute; congruence]. apply lxor_lane; [|done]. by apply xorshift_lane.
Qed.

Section VSX.
Context {U : vsx_unit} {L : vsx_laws U}.

Lemma vsx_stripe acc data key :
  vector 2 acc -> vector 2 data -> vector 2 key ->
  vec_add (vec_add acc (XXH_vec_mulo (vec_xor data key) (vec_rl (vec_xor data key) [32; 32]))) (vec_xxpermdi data data 2)
  = accumulated acc data key.
Proof.
  intros Ha Hd Hk. assert (Hdk : vector 2 (vec_xor data key)) by (apply vector_zip; auto using lxor_lane).
  assert (H32 : vector 2 [32; 32]) by by apply two_lanes.
  rewrite vec_rl_law, vec_xxpermdi_law by (auto; lia). rewrite XXH_vec_mulo_law by
    (auto; destruct (vector_2 _ Hdk) as (x & y & -> & Hx & Hy); apply two_lanes; by apply vec_rl_lane).
  destruct (vector_2 _ Ha) as (a0 & a1 & -> & Ha0 & Ha1), (vector_2 _ Hd) as (d0 & d1 & -> & Hd0 & Hd1),
    (vector_2 _ Hk) as (k0 & k1 & -> & Hk0 & Hk1).
  unfold vec_add, vec_xor. cbn [zip_with]. rewrite !vsx_lane by done. reflexivity.
Qed.

Lemma vsx_scramble acc key :
  vector 2 acc -> vector 2 key ->
  let data_key := vec_xor (vec_xor acc (vec_shr acc [47; 47])) key in
  let prime := [lane_of XXH_PRIME32_1 XXH_PRIME32_1; lane_of XXH_PRIME32_1 XXH_PRIME32_1] in
  vec_add (XXH_vec_mulo data_key prime) (vec_shl (XXH_vec_mule data_key prime) [32; 32]) = scrambled acc key.
Proof.
  intros Ha Hk data_key prime. subst data_key prime.
  destruct (vector_2 _ Ha) as (a0 & a1 & -> & Ha0 & Ha1), (vector_2 _ Hk) as (k0 & k1 & -> & Hk0 & Hk1).
  unfold vec_xor, vec_shr. cbn [zip_with].
  assert (Hp : lane64 (lane_of XXH_PRIME32_1 XXH_PRIME32_1)) by (split; vm_compute; congruence).
  rewrite XXH_vec_mulo_law, XXH_vec_mule_law by (apply two_lanes; try done; apply lxor_lane; try done; by apply (xorshift_lane _ 47)).
  unfold vec_add, vec_shl. cbn [zip_with]. change (Z.lxor ?x (Z.shiftr ?x 47)) with (XXH_xorshift64 x 47).
  by rewrite (vsx_scramble_lane a0), (vsx_scramble_lane a1).
Qed.

End VSX.

#[export] Instance vsx_kernel_laws u (L : vsx_laws (vsx u)) : Kernel_laws (XXH3_kernel u XXH_VSX).
Proof.
  split; kernel_functions; intros.
  - change (XXH_STRIPE_LEN / 16) with (8 / Z.of_nat 2). unfold XXH3_accumulate_512_vsx. apply (accumulated_loop 2 in_widths_2); [done|].
    intros i acc' Hi L' C V. unfold XXH_vec_loadu. change 16 with (sizeof_vector 2).
    rewrite (xacc_round in_widths_2 _ acc bs ks) by done. by rewrite vsx_stripe by (try done; by apply vector_lane_block).
  - done.
  - apply (scrambled_loop 2 in_widths_2); [done|]. intros i acc' Hi L' C V.
    rewrite (load_chunk 2 in_widths_2 acc i acc'), bind_done by done. unfold XXH_vec_loadu. change 16 with (sizeof_vector 2).
    rewrite (load_lanes 2 in_widths_2 s ks), bind_done by done. by rewrite vsx_scramble by (try done; by apply vector_lane_block).
  - by apply initCustomSecret_scalar_value.
Qed.

(** *** NEON *)

Lemma neon_lane a d k s :
  lane64 d -> lane64 k -> let dk := Z.lxor d k in
  u64 (a + u64 (s + u32 dk * Z.shiftr dk 32)) = u64 (a + (s + product d k)).
Proof. intros Hd Hk dk. rewrite wrap_add_r by lia. done. Qed.

(** Multiplying the words by 0 and the prime moves the upper product into place. *)
Lemma neon_scramble_lane x :
  lane64 x -> u64 (lane_of (u32 (u32 x * 0)) (u32 (Z.shiftr x 32 * XXH_PRIME32_1)) + u32 x * XXH_PRIME32_1) = u64 (x * XXH_PRIME32_1).
Proof.
  intros Hx. rewrite Z.mul_0_r. change (u32 0) with 0. rewrite <- (mul_by_halves x) by (try done; split; vm_compute; congruence).
  unfold lane_of. rewrite Z.add_0_l, Z.add_comm. rewrite <- (wrap_add_r 64 _ (2 ^ 32 * _)) by lia. do 2 f_equal.
  rewrite Z.shiftl_mul_pow2 by lia. generalize (Z.shiftr x 32 * XXH_PRIME32_1). clear. intros y.
  unfold wrap. change (2 ^ 64) with (2 ^ 32 * 2 ^ 32). rewrite (Z.mul_comm y), !Z.mul_mod_distr_l, Z.mod_mod by lia. done.
Qed.

Section NEON_rounds.
Context {U : neon_unit} {L : neon_laws U}.

Lemma two_words x y : 0 <= x < 2 ^ 32 -> 0 <= y < 2 ^ 32 -> words 2 [x; y].
Proof. intros. split; [done|]. constructor; [done|]. by constructor. Qed.

Lemma four_words x y z t :
  0 <= x < 2 ^ 32 -> 0 <= y < 2 ^ 32 -> 0 <= z < 2 ^ 32 -> 0 <= t < 2 ^ 32 -> words 4 [x; y; z; t].
Proof. intros. split; [done|]. repeat (constructor; [done|]). constructor. Qed.
#[local] Hint Resolve two_words four_words : vec.

Lemma halves_swapped (x y : Z) : take 2 (drop (Z.to_nat 1) ([x; y] ++ [x; y])) = [y; x].
Proof. reflexivity. Qed.

(** What each of the two loops adds to a vector. *)
Lemma neon_two_stripe acc data key :
  vector 2 acc -> vector 2 data -> vector 2 key ->
  let data_key := veorq_u64 data key in
  vaddq_u64 acc (vmlal_u32 (vextq_u64 data data 1) (vmovn_u64 data_key) (vshrn_n_u64 data_key 32)) = accumulated acc data key.
Proof.
  intros Ha Hd Hk data_key. subst data_key. rewrite veorq_u64_law by done.
  destruct (vector_2 _ Ha) as (a0 & a1 & -> & Ha0 & Ha1), (vector_2 _ Hd) as (d0 & d1 & -> & Hd0 & Hd1),
    (vector_2 _ Hk) as (k0 & k1 & -> & Hk0 & Hk1). cbn [zip_with].
  rewrite vextq_u64_law, vmovn_u64_law, vshrn_n_u64_law by (first [lia|vec]). cbn [map].
  rewrite !u32_high, halves_swapped by by apply lxor_lane.
  rewrite vmlal_u32_law by vec. cbn [zip_with]. rewrite vaddq_u64_law by vec. cbn [zip_with]. by rewrite !neon_lane.
Qed.

Lemma neon_four_stripe acc1 acc2 data1 data2 key1 key2 :
  vector 2 acc1 -> vector 2 acc2 -> vector 2 data1 -> vector 2 data2 -> vector 2 key1 -> vector 2 key2 ->
  let '(lo, hi) := vuzpq_u32 (vreinterpretq_u32_u64 (veorq_u64 data1 key1)) (vreinterpretq_u32_u64 (veorq_u64 data2 key2)) in
  vaddq_u64 acc1 (XXH_vmlal_low_u32 (vextq_u64 data1 data1 1) lo hi) = accumulated acc1 data1 key1
  /\ vaddq_u64 acc2 (XXH_vmlal_high_u32 (vextq_u64 data2 data2 1) lo hi) = accumulated acc2 data2 key2.
Proof.
  intros Ha Ha' Hd Hd' Hk Hk'. rewrite !veorq_u64_law by done.
  destruct (vector_2 _ Ha) as (a0 & a1 & -> & Ha0 & Ha1), (vector_2 _ Hd) as (d0 & d1 & -> & Hd0 & Hd1),
    (vector_2 _ Hk) as (k0 & k1 & -> & Hk0 & Hk1), (vector_2 _ Ha') as (a2 & a3 & -> & Ha2 & Ha3),
    (vector_2 _ Hd') as (d2 & d3 & -> & Hd2 & Hd3), (vector_2 _ Hk') as (k2 & k3 & -> & Hk2 & Hk3). cbn [zip_with].
  rewrite !vreinterpretq_u32_u64_law by vec. unfold words_of. cbn [map concat app].
  rewrite vuzpq_u32_law by vec. cbn [app even_words odd_words]. unfold XXH_vmlal_low_u32, XXH_vmlal_high_u32.
  rewrite !vget_low_u32_law, !vget_high_u32_law by vec. cbn [take drop].
  rewrite !vextq_u64_law, !halves_swapped by (first [lia|vec]).
  rewrite !vmlal_u32_law by vec. cbn [zip_with]. rewrite !vaddq_u64_law by vec. cbn [zip_with]. by rewrite !neon_lane.
Qed.

Lemma neon_scramble acc key :
  vector 2 acc -> vector 2 key ->
  let data_key := veorq_u64 (veorq_u64 acc (vshrq_n_u64 acc 47)) key in
  map (fun x => u64 (x * XXH_PRIME32_1)) data_key = scrambled acc key
  /\ vmlal_u32 (vreinterpretq_u64_u32 (vmulq_u32 (vreinterpretq_u32_u64 data_key)
         (vreinterpretq_u32_u64 (vdupq_n_u64 (u64 (Z.shiftl XXH_PRIME32_1 32))))))
       (vmovn_u64 data_key) (vdup_n_u32 XXH_PRIME32_1) = scrambled acc key.
Proof.
  intros Ha Hk data_key. subst data_key. assert (Hp : 0 <= XXH_PRIME32_1 < 2 ^ 32) by (split; vm_compute; congruence).
  assert (H0 : 0 <= 0 < 2 ^ 32) by lia.
  rewrite vdupq_n_u64_law by apply u64_lane. rewrite vdup_n_u32_law, vshrq_n_u64_law by (auto; lia).
  destruct (vector_2 _ Ha) as (a0 & a1 & -> & Ha0 & Ha1), (vector_2 _ Hk) as (k0 & k1 & -> & Hk0 & Hk1). cbn [map replicate].
  rewrite (veorq_u64_law [a0; a1]) by vec. cbn [zip_with]. change (Z.lxor ?x (Z.shiftr ?x 47)) with (XXH_xorshift64 x 47).
  assert (Hx0 : lane64 (XXH_xorshift64 a0 47)) by by apply xorshift_lane.
  assert (Hx1 : lane64 (XXH_xorshift64 a1 47)) by by apply xorshift_lane.
  rewrite veorq_u64_law by vec. cbn [zip_with map]. split; [reflexivity|].
  rewrite !vreinterpretq_u32_u64_law, vmovn_u64_law by vec. unfold words_of. cbn [map concat app].
  change (u32 (u64 (Z.shiftl XXH_PRIME32_1 32))) with 0.
  change (Z.shiftr (u64 (Z.shiftl XXH_PRIME32_1 32)) 32) with XXH_PRIME32_1.
  assert (Hd0 : lane64 (Z.lxor (XXH_xorshift64 a0 47) k0)) by by apply lxor_lane.
  assert (Hd1 : lane64 (Z.lxor (XXH_xorshift64 a1 47) k1)) by by apply lxor_lane.
  rewrite vmulq_u32_law by auto using four_words, word_bound, high_word. cbn [zip_with].
  rewrite vreinterpretq_u64_u32_law by auto using four_words, word_bound. cbn [lanes_of_words].
  rewrite vmlal_u32_law by vec. cbn [zip_with]. by rewrite !neon_scramble_lane.
Qed.

End NEON_rounds.

Section NEON_kernel.
Context {U : neon_unit} {L : neon_laws U}.
Context (s : pointer) (ks : list Z) (Hk : Forall byte_range ks) (Lk : (64 <= length ks)%nat) (Hs : holds s ks).

Section Stripe.
Context (p : pointer) (bs : list Z) (Hb : Forall byte_range bs) (Lb : (64 <= length bs)%nat) (Hp : holds p bs).

(** The new value of the [i]-th vector. *)
Let stripe i c := accumulated c (lane_block 2 bs (i * 16)) (lane_block 2 ks (i * 16)).

Lemma neon_two_value acc i c :
  0 <= i < 4 -> xacc_load 2 acc i = Done c -> vector 2 c -> neon_two_lanes p s i acc = xacc_store 2 acc i (stripe i c).
Proof.
  intros Hi E V. unfold neon_two_lanes, XXH_vld1q_u64.
  rewrite (read_lanes_value 2 p bs), bind_done, (read_lanes_value 2 s ks), bind_done, E, bind_done by (auto; lia).
  by rewrite neon_two_stripe by (try done; by apply vector_lane_block).
Qed.

Lemma neon_four_value acc acc' acc'' i c c' :
  0 <= i < 3 -> xacc_load 2 acc i = Done c -> vector 2 c -> xacc_store 2 acc i (stripe i c) = Done acc' ->
  xacc_load 2 acc' (i + 1) = Done c' -> vector 2 c' -> xacc_store 2 acc' (i + 1) (stripe (i + 1) c') = Done acc'' ->
  neon_four_lanes p s i acc = Done acc''.
Proof.
  intros Hi E V E' Ec V' <-. unfold neon_four_lanes, XXH_vld1q_u64.
  rewrite !(read_lanes_value 2 p bs), !(read_lanes_value 2 s ks), !bind_done by (auto; lia). cbv zeta.
  pose proof (neon_four_stripe c c' (lane_block 2 bs (i * 16)) (lane_block 2 bs ((i + 1) * 16)) (lane_block 2 ks (i * 16))
    (lane_block 2 ks ((i + 1) * 16)) V V') as F.
  destruct (vuzpq_u32 _ _) as [lo hi]. destruct F as [F1 F2]; [by apply vector_lane_block..|].
  rewrite E, bind_done, F1. fold (stripe i c). by rewrite E', bind_done, Ec, bind_done, F2.
Qed.

Lemma scalar_pair_loop n acc i a0 a1 :
  length acc = 8%nat -> 0 <= i < 4 -> acc !! Z.to_nat (2 * i) = Some a0 -> acc !! Z.to_nat (2 * i + 1) = Some a1 ->
  let d j := bytes_at 8 bs (8 * j) in
  let k j := bytes_at 8 ks (8 * j) in
  for_loop (2 + n) (2 * i) (fun j acc => XXH3_scalarRound acc p s j) acc
  = for_loop n (2 * (i + 1)) (fun j acc => XXH3_scalarRound acc p s j)
     (<[Z.to_nat (2 * i + 1) := u64 (a1 + (d (2 * i) + product (d (2 * i + 1)) (k (2 * i + 1))))]>
       (<[Z.to_nat (2 * i) := u64 (a0 + (d (2 * i + 1) + product (d (2 * i)) (k (2 * i))))]> acc)).
Proof.
  intros La Hi E0 E1 d k. rewrite for_loop_app, (scalar_pair acc p s bs ks i a0 a1), bind_done by done. f_equal. lia.
Qed.

(** The lanes that are left to the scalar rounds. *)
Lemma neon_scalar_lanes lanes acc :
  In lanes [2; 4; 6; 8] -> accumulators acc ->
  for_up lanes XXH_ACC_NB (fun i acc => XXH3_scalarRound acc p s i) acc
  = Done (take (Z.to_nat lanes) acc ++ drop (Z.to_nat lanes) (accumulated acc (lanes_of bs) (lanes_of ks))).
Proof.
  intros Hl Ha. destruct (accumulators_8 acc Ha) as (a0 & a1 & a2 & a3 & a4 & a5 & a6 & a7 & ->). unfold for_up.
  destruct Hl as [<-|[<-|[<-|[<-|[]]]]].
  - change (for_loop (Z.to_nat (XXH_ACC_NB - 2)) 2) with (for_loop (St := list Z) (2 + (2 + (2 + 0))) (2 * 1)).
    by do 3 erewrite scalar_pair_loop by (done || lia).
  - change (for_loop (Z.to_nat (XXH_ACC_NB - 4)) 4) with (for_loop (St := list Z) (2 + (2 + 0)) (2 * 2)).
    by do 2 erewrite scalar_pair_loop by (done || lia).
  - change (for_loop (Z.to_nat (XXH_ACC_NB - 6)) 6) with (for_loop (St := list Z) (2 + 0) (2 * 3)).
    by erewrite scalar_pair_loop by (done || lia).
  - reflexivity.
Qed.

Lemma accumulate_512_neon_value lanes acc :
  In lanes [2; 4; 6; 8] -> accumulators acc -> XXH3_accumulate_512_neon lanes acc p s = Done (accumulated acc (lanes_of bs) (lanes_of ks)).
Proof.
  intros Hl Ha. unfold XXH3_accumulate_512_neon. rewrite (neon_scalar_lanes lanes acc Hl Ha), bind_done.
  destruct (accumulators_8 acc Ha) as (a0 & a1 & a2 & a3 & a4 & a5 & a6 & a7 & ->). destruct Ha as [_ R].
  assert (P : vector 2 [a0; a1] /\ vector 2 [a2; a3] /\ vector 2 [a4; a5] /\ vector 2 [a6; a7]).
  { rewrite !Forall_cons in R. destruct R as (? & ? & ? & ? & ? & ? & ? & ? & _). auto using two_lanes. }
  destruct P as (V0 & V1 & V2 & V3). clear R. unfold for_up. cbv zeta.
  destruct Hl as [<-|[<-|[<-|[<-|[]]]]].
  - change (Z.to_nat (2 / 2 / 2 - 0)) with 0%nat. change (Z.to_nat (2 / 2 - 2 * (2 / 2 / 2))) with 1%nat.
    cbn [for_loop]. rewrite bind_done. by rewrite (neon_two_value _ _ [a0; a1]) by (done || lia).
  - change (Z.to_nat (4 / 2 / 2 - 0)) with 1%nat. change (Z.to_nat (4 / 2 - 2 * (4 / 2 / 2))) with 0%nat.
    cbn [for_loop]. by erewrite (neon_four_value _ _ _ _ [a0; a1] [a2; a3]) by (done || lia).
  - change (Z.to_nat (6 / 2 / 2 - 0)) with 1%nat. change (Z.to_nat (6 / 2 - 2 * (6 / 2 / 2))) with 1%nat.
    cbn [for_loop]. erewrite (neon_four_value _ _ _ _ [a0; a1] [a2; a3]) by (done || lia).
    rewrite !bind_done. by erewrite (neon_two_value _ _ [a4; a5]) by (done || lia).
  - change (Z.to_nat (8 / 2 / 2 - 0)) with 2%nat. change (Z.to_nat (8 / 2 - 2 * (8 / 2 / 2))) with 0%nat.
    cbn [for_loop]. erewrite (neon_four_value _ _ _ _ [a0; a1] [a2; a3]) by (done || lia).
    rewrite !bind_done. by erewrite (neon_four_value _ _ _ _ [a4; a5] [a6; a7]) by (done || lia).
Qed.

End Stripe.

Lemma neon_scalar_scrambles lanes acc :
  In lanes [2; 4; 6; 8] -> accumulators acc ->
  for_up lanes XXH_ACC_NB (fun i acc => XXH3_scalarScrambleRound acc s i) acc
  = Done (take (Z.to_nat lanes) acc ++ drop (Z.to_nat lanes) (scrambled acc (lanes_of ks))).
Proof.
  intros Hl Ha. destruct (accumulators_8 acc Ha) as (a0 & a1 & a2 & a3 & a4 & a5 & a6 & a7 & ->). unfold for_up.
  destruct Hl as [<-|[<-|[<-|[<-|[]]]]];
    lazymatch goal with |- for_loop ?n _ _ _ = _ => let n' := eval vm_compute in n in change n with n' end; cbn [for_loop];
    by repeat (erewrite (scalarScrambleRound_value _ s ks) by (done || lia); rewrite bind_done).
Qed.

Lemma scrambleAcc_neon_value lanes wasm acc :
  In lanes [2; 4; 6; 8] -> accumulators acc -> XXH3_scrambleAcc_neon lanes wasm acc s = Done (scrambled acc (lanes_of ks)).
Proof.
  intros Hl Ha. unfold XXH3_scrambleAcc_neon. cbv zeta. rewrite (neon_scalar_scrambles lanes acc Hl Ha), bind_done.
  assert (Hn : exists n, lanes = 2 * n /\ lanes / 2 = n /\ 1 <= n <= 4).
  { destruct Hl as [<-|[<-|[<-|[<-|[]]]]]; [exists 1|exists 2|exists 3|exists 4]; done. }
  destruct Hn as (n & -> & -> & Hn). destruct Ha as [La Ra] eqn:EHa. destruct (scrambled_ok acc ks Ha) as [Ls _].
  rewrite (vector_loop 2 (fun i => scrambled (chunk 2 i acc) (lane_block 2 ks (i * 16)))).
  - destruct (accumulators_8 acc Ha) as (a0 & a1 & a2 & a3 & a4 & a5 & a6 & a7 & ->).
    assert (C : n = 1 \/ n = 2 \/ n = 3 \/ n = 4) by lia. by destruct C as [->|[->|[->| ->]]].
  - lia.
  - rewrite length_app, length_take, length_drop. lia.
  - intros i acc' Hi L' C. rewrite chunk_prefix in C by lia.
    rewrite length_app, length_take, length_drop in L'.
    assert (Lc : length (chunk 2 i acc) = 2%nat) by (apply chunk_length; lia).
    split; [unfold scrambled; rewrite length_zip_with, length_lane_block; lia|].
    rewrite xacc_load_chunk, C, bind_done by lia. unfold XXH_vld1q_u64.
    rewrite (read_lanes_value 2 s ks), bind_done by (auto; lia).
    destruct (neon_scramble (chunk 2 i acc) (lane_block 2 ks (i * 16))) as [E1 E2]; [by apply vector_chunk|by apply vector_lane_block|].
    cbv zeta in *. destruct wasm; [by rewrite E1|by rewrite E2].
Qed.

End NEON_kernel.

#[export] Instance neon_kernel_laws u (L : neon_laws (neon u)) (Hl : In (neon_lanes u) [2; 4; 6; 8]) :
  Kernel_laws (XXH3_kernel u XXH_NEON).
Proof.
  split; kernel_functions; intros.
  - by apply accumulate_512_neon_value.
  - done.
  - by apply scrambleAcc_neon_value.
  - by apply initCustomSecret_scalar_value.
Qed.

(** *** SVE *)

(** The additions of a round in the order of SVE. *)
Lemma sve_lanes w acc data key :
  length acc = w -> length data = w -> length key = w ->
  let dk := zip_with Z.lxor key data in
  zip_with (fun x y => u64 (x + y)) acc
    (zip_with (fun x y => u64 (x + y)) (zip_with Z.mul (map (fun x => u32 x) dk) (map (fun x => Z.shiftr x 32) dk)) (swap_pairs data))
  = accumulated acc data key.
Proof.
  cbv zeta. intros La Ld Lk. unfold accumulated.
  assert (Ls : length (swap_pairs data) = w) by (by rewrite length_swap_pairs).
  generalize dependent (swap_pairs data). revert acc data key La Ld Lk. induction w as [|w IH].
  - by intros [|] [|] [|] ? ? ? [|] ?.
  - intros [|a acc] [|d data] [|k key] La Ld Lk [|s sw] Ls; try discriminate. cbn [zip_with map] in *.
    injection La as La. injection Ld as Ld. injection Lk as Lk. injection Ls as Ls.
    rewrite (IH acc data key La Ld Lk sw Ls). f_equal. unfold product. rewrite wrap_add_r, (Z.lxor_comm k) by lia. f_equal. lia.
Qed.

Section SVE_rounds.
Context {U : sve_unit} {L : sve_laws U}.
Notation N := (Z.to_nat svcntd).

Lemma vector_inactive m l : (m <= N)%nat -> vector m l -> vector N (l ++ inactive m).
Proof.
  intros Hm [Ll Hl]. unfold inactive. split; [rewrite length_app, length_replicate; lia|].
  apply Forall_app. split; [done|]. by apply Forall_replicate.
Qed.

Lemma take_inactive m (l : list Z) : length l = m -> take m (l ++ inactive m) = l.
Proof. intros <-. by rewrite take_app_length. Qed.

Lemma svcntd_range : 2 <= svcntd <= 32 /\ Z.even svcntd = true.
Proof. destruct svcntd_law as (h & Hh & ->). split; [lia|]. by rewrite Z.even_mul. Qed.

Lemma vector_kSwap : vector N sve_kSwap.
Proof.
  pose proof svcntd_range as [? _]. unfold sve_kSwap. rewrite svindex_u64_law, sveor_n_u64_z_law.
  - split; [by rewrite !length_map, length_seqZ|]. apply Forall_fmap, Forall_true. intros. apply u64_lane.
  - split; [by rewrite length_map, length_seqZ|]. apply Forall_fmap, Forall_true. intros. apply u64_lane.
Qed.

(** Looking lanes up at [kSwap] swaps the pairs of those that were loaded. *)
Lemma svtbl_swap m l : In m [2; 4; 8]%nat -> (m <= N)%nat -> vector m l ->
  vector N (svtbl_u64 (l ++ inactive m) sve_kSwap) /\ take m (svtbl_u64 (l ++ inactive m) sve_kSwap) = swap_pairs l.
Proof.
  intros Hm Hn Hl. rewrite svtbl_u64_law by auto using vector_inactive, vector_kSwap. destruct vector_kSwap as [Lk _]. split.
  - split; [by rewrite length_map|]. apply Forall_fmap, Forall_true. intros i. cbn.
    destruct (nth_in_or_default (Z.to_nat i) (l ++ inactive m) 0) as [H| ->]; [|done].
    destruct (vector_inactive m l Hn Hl) as [_ R]. rewrite Forall_forall in R. by apply R, list_elem_of_In.
  - pose proof svcntd_range as [? _]. unfold sve_kSwap in *. rewrite svindex_u64_law in *.
    rewrite sveor_n_u64_z_law by (split; [by rewrite length_map, length_seqZ|]; apply Forall_fmap, Forall_true; intros; apply u64_lane).
    replace svcntd with (Z.of_nat m + (svcntd - Z.of_nat m)) by lia. rewrite seqZ_app, !map_app by lia.
    rewrite take_app_length' by (rewrite !length_map, length_seqZ; lia). destruct Hl as [Ll _].
    destruct Hm as [<-|[<-|[<-|[]]]]; repeat (destruct l as [|? l]; [discriminate Ll|]); destruct l; try discriminate Ll; reflexivity.
Qed.

Lemma ACCRND_value m p s bs ks v off :
  In m [2; 4; 8]%nat -> (m <= N)%nat -> vector N v -> Forall byte_range bs -> Forall byte_range ks ->
  holds p bs -> holds s ks -> (8 * (off + m) <= length bs)%nat -> (8 * (off + m) <= length ks)%nat ->
  exists v', ACCRND m sve_kSwap p s v off = Done v' /\ vector N v'
    /\ take m v' = accumulated (take m v) (lane_block m bs (8 * Z.of_nat off)) (lane_block m ks (8 * Z.of_nat off)).
Proof.
  intros Hm Hn Hv Hb Hk Hp Hs Lb Lk. unfold ACCRND, svld1_u64.
  rewrite (read_lanes_value m p bs), bind_done, (read_lanes_value m s ks), bind_done by (auto; lia). cbn [mbind outcome_bind].
  set (data := lane_block m bs (8 * Z.of_nat off)). set (key := lane_block m ks (8 * Z.of_nat off)).
  assert (Vd : vector m data) by by apply vector_lane_block. assert (Vk : vector m key) by by apply vector_lane_block.
  assert (Hm' : Z.of_nat m <= svcntd) by (pose proof svcntd_range; lia).
  destruct (svtbl_swap m data Hm Hn Vd) as [Vs Es].
  pose proof (vector_inactive m data Hn Vd) as Vd'. pose proof (vector_inactive m key Hn Vk) as Vk'.
  destruct (sveor_u64_x_law m _ _ Vk' Vd' Hm') as [Vx Ex]. rewrite !take_inactive in Ex by (apply Vd || apply Vk).
  destruct (svextw_u64_x_law m _ Vx Hm') as [Vl El]. destruct (svlsr_n_u64_x_law m _ 32 Vx Hm' ltac:(lia)) as [Vh Eh].
  destruct (svmad_u64_x_law m _ _ _ Vl Vh Vs Hm') as [Vm Em]. destruct (svadd_u64_x_law m _ _ Hv Vm Hm') as [Va Ea].
  eexists. split; [done|]. split; [exact Va|]. rewrite Ea, Em, El, Eh, Ex, Es. apply (sve_lanes m); [|apply Vd|apply Vk].
  rewrite length_take. destruct Hv. lia.
Qed.

(** The accumulators in registers: [rep] relates them to the accumulators in memory,
    and [body] adds a stripe. *)
Lemma stripes_value {A} (rep : A -> list Z -> Prop) body ks acc i accs p s bs n :
  (forall accs acc p s bs ks, rep accs acc -> accumulators acc -> Forall byte_range bs -> Forall byte_range ks ->
     (64 <= length bs)%nat -> (64 <= length ks)%nat -> holds p bs -> holds s ks ->
     exists accs', body p s accs = Done accs' /\ rep accs' (accumulated acc (lanes_of bs) (lanes_of ks))) ->
  rep accs acc -> accumulators acc -> Forall byte_range bs -> Forall byte_range ks -> holds p bs -> holds s (drop (Z.to_nat (8 * i)) ks) ->
  0 <= i -> (i + Z.of_nat n) * 8 + 56 <= Z.of_nat (length ks) -> (64 * n <= length bs)%nat ->
  exists accs', sve_stripes n body p s accs = Done accs' /\ rep accs' (run ks n acc i bs).
Proof.
  intros Hbody. revert acc accs i p s bs. induction n as [|n IH]; intros acc accs i p s bs Hr Ha Hb Hk Hp Hs Hi Lk Lb; [by exists accs|].
  cbn [sve_stripes run]. unfold key_at.
  destruct (Hbody accs acc p s bs (drop (Z.to_nat (8 * i)) ks)) as (accs1 & -> & Hr1);
    [done|done|done|by apply Forall_drop|lia|rewrite length_drop; lia|done|done|]. rewrite bind_done.
  apply IH; [done|by apply accumulated_ok|by apply Forall_drop|done|apply (holds_drop p 64); [lia|done]| |lia|lia|rewrite length_drop; lia].
  replace (Z.to_nat (8 * (i + 1))) with (Z.to_nat (8 * i) + Z.to_nat (8 * 1))%nat by lia. rewrite <- drop_drop.
  apply holds_drop; [rewrite length_drop; lia|done].
Qed.

Lemma lanes_in_8 acc : accumulators acc -> exists a0 a1 a2 a3 a4 a5 a6 a7,
  acc = [a0; a1; a2; a3; a4; a5; a6; a7] /\ Forall lane64 acc.
Proof. intros H. destruct (accumulators_8 acc H) as (? & ? & ? & ? & ? & ? & ? & ? & E). destruct H. eauto 10. Qed.

Lemma svld1_acc_value m acc k :
  (m <= N)%nat -> accumulators acc -> (k + m <= 8)%nat ->
  exists v, svld1_acc m acc k = Done v /\ vector N v /\ take m v = take m (drop k acc).
Proof.
  intros Hm [La Ra] Hk. unfold svld1_acc. rewrite (proj2 (Nat.leb_le _ _)) by lia. eexists. split; [done|].
  assert (Lt : length (take m (drop k acc)) = m) by (rewrite length_take, length_drop; lia). split.
  - apply vector_inactive; [done|]. split; [done|]. by apply Forall_take, Forall_drop.
  - by apply take_inactive.
Qed.

Lemma svst1_acc_value m acc k v : length acc = 8%nat -> (k + m <= 8)%nat ->
  svst1_acc m acc k v = Done (take k acc ++ take m v ++ drop (k + m) acc).
Proof. intros La Hk. unfold svst1_acc. by rewrite (proj2 (Nat.leb_le _ _)) by lia. Qed.

(** *** Eight lanes *)
Definition rep8 (v acc : list Z) : Prop := vector N v /\ take 8 v = acc.
Definition round8 (p s : pointer) (v : list Z) : outcome (list Z) := ACCRND 8 sve_kSwap p s v 0.

Lemma round8_value v acc p s bs ks :
  (8 <= N)%nat -> rep8 v acc -> accumulators acc -> Forall byte_range bs -> Forall byte_range ks ->
  (64 <= length bs)%nat -> (64 <= length ks)%nat -> holds p bs -> holds s ks ->
  exists v', round8 p s v = Done v' /\ rep8 v' (accumulated acc (lanes_of bs) (lanes_of ks)).
Proof.
  intros Hn [Hv <-] Ha Hb Hk Lb Lk Hp Hs.
  destruct (ACCRND_value 8 p s bs ks v 0) as (v' & E & Hv' & T); auto using in_widths_8. by exists v'.
Qed.

(** *** Two vectors of four lanes *)
Definition rep4 (accs : list Z * list Z) (acc : list Z) : Prop :=
  let '(v0, v1) := accs in vector N v0 /\ vector N v1 /\ take 4 v0 ++ take 4 v1 = acc.
Definition round4 (p s : pointer) (accs : list Z * list Z) : outcome (list Z * list Z) :=
  let '(acc0, acc1) := accs in
  acc0 ← ACCRND 4 sve_kSwap p s acc0 0;
  acc1 ← ACCRND 4 sve_kSwap p s acc1 4;
  Done (acc0, acc1).

Lemma round4_value accs acc p s bs ks :
  (4 <= N)%nat -> rep4 accs acc -> accumulators acc -> Forall byte_range bs -> Forall byte_range ks ->
  (64 <= length bs)%nat -> (64 <= length ks)%nat -> holds p bs -> holds s ks ->
  exists accs', round4 p s accs = Done accs' /\ rep4 accs' (accumulated acc (lanes_of bs) (lanes_of ks)).
Proof.
  destruct accs as [v0 v1]. intros Hn (H0 & H1 & E) Ha Hb Hk Lb Lk Hp Hs. unfold round4.
  destruct (ACCRND_value 4 p s bs ks v0 0) as (w0 & -> & Hw0 & T0); auto using in_widths_4; [lia..|].
  destruct (ACCRND_value 4 p s bs ks v1 4) as (w1 & E1 & Hw1 & T1); auto using in_widths_4; [lia..|].
  rewrite bind_done, E1, bind_done. eexists. split; [done|]. split; [exact Hw0|]. split; [exact Hw1|]. rewrite T0, T1.
  destruct (accumulators_8 acc Ha) as (a0 & a1 & a2 & a3 & a4 & a5 & a6 & a7 & Ea). rewrite Ea in *.
  assert (L0 : length (take 4 v0) = 4%nat) by (rewrite length_take; destruct H0; lia).
  apply (app_inj_1 _ [a0; a1; a2; a3] _ [a4; a5; a6; a7]) in E as [-> ->]; [reflexivity|exact L0].
Qed.

(** *** Four vectors of two lanes *)
Definition rep2 (accs : list Z * list Z * list Z * list Z) (acc : list Z) : Prop :=
  let '(v0, v1, v2, v3) := accs in
  vector N v0 /\ vector N v1 /\ vector N v2 /\ vector N v3 /\ take 2 v0 ++ take 2 v1 ++ take 2 v2 ++ take 2 v3 = acc.
Definition round2 (p s : pointer) (accs : list Z * list Z * list Z * list Z) : outcome (list Z * list Z * list Z * list Z) :=
  let '(acc0, acc1, acc2, acc3) := accs in
  acc0 ← ACCRND 2 sve_kSwap p s acc0 0;
  acc1 ← ACCRND 2 sve_kSwap p s acc1 2;
  acc2 ← ACCRND 2 sve_kSwap p s acc2 4;
  acc3 ← ACCRND 2 sve_kSwap p s acc3 6;
  Done (acc0, acc1, acc2, acc3).

Lemma round2_value accs acc p s bs ks :
  (2 <= N)%nat -> rep2 accs acc -> accumulators acc -> Forall byte_range bs -> Forall byte_range ks ->
  (64 <= length bs)%nat -> (64 <= length ks)%nat -> holds p bs -> holds s ks ->
  exists accs', round2 p s accs = Done accs' /\ rep2 accs' (accumulated acc (lanes_of bs) (lanes_of ks)).
Proof.
  destruct accs as [[[v0 v1] v2] v3]. intros Hn (H0 & H1 & H2 & H3 & E) Ha Hb Hk Lb Lk Hp Hs. unfold round2.
  destruct (ACCRND_value 2 p s bs ks v0 0) as (w0 & -> & Hw0 & T0); auto using in_widths_2; [lia..|].
  destruct (ACCRND_value 2 p s bs ks v1 2) as (w1 & E1 & Hw1 & T1); auto using in_widths_2; [lia..|].
  destruct (ACCRND_value 2 p s bs ks v2 4) as (w2 & E2 & Hw2 & T2); auto using in_widths_2; [lia..|].
  destruct (ACCRND_value 2 p s bs ks v3 6) as (w3 & E3 & Hw3 & T3); auto using in_widths_2; [lia..|].
  rewrite bind_done, E1, bind_done, E2, bind_done, E3, bind_done. eexists. split; [done|].
  split; [exact Hw0|]. split; [exact Hw1|]. split; [exact Hw2|]. split; [exact Hw3|]. rewrite T0, T1, T2, T3.
  destruct (accumulators_8 acc Ha) as (a0 & a1 & a2 & a3 & a4 & a5 & a6 & a7 & Ea). rewrite Ea in *.
  assert (L2 : forall v, vector N v -> length (take 2 v) = 2%nat) by (intros v [Lv _]; rewrite length_take; lia).
  apply (app_inj_1 _ [a0; a1] _ [a2; a3; a4; a5; a6; a7]) in E as [-> E]; [|by apply L2].
  apply (app_inj_1 _ [a2; a3] _ [a4; a5; a6; a7]) in E as [-> E]; [|by apply L2].
  apply (app_inj_1 _ [a4; a5] _ [a6; a7]) in E as [-> ->]; [reflexivity|by apply L2].
Qed.

Lemma svptrue_pat m : Z.of_nat m <= svcntd -> svptrue_pat_b64 m = m.
Proof. intros H. unfold svptrue_pat_b64. by rewrite (proj2 (Z.leb_le _ _)). Qed.

(** The loads, what is done with the registers, and the stores. *)
Lemma registers8 acc (f : list Z -> outcome (list Z)) r :
  8 <= svcntd -> accumulators acc -> length r = 8%nat ->
  (forall v, rep8 v acc -> exists v', f v = Done v' /\ rep8 v' r) ->
  (v ← svld1_acc 8 acc 0; v ← f v; svst1_acc 8 acc 0 v) = Done r.
Proof.
  intros Hn Ha Lr Hf. destruct (svld1_acc_value 8 acc 0) as (v & -> & Hv & T); [lia|done|lia|]. rewrite bind_done.
  destruct (Hf v) as (v' & -> & Hv' & <-).
  - split; [done|]. rewrite T, drop_0. destruct Ha as [La _]. apply take_ge. lia.
  - destruct Ha as [La _]. rewrite bind_done, svst1_acc_value by lia. cbn [Nat.add].
    rewrite (drop_ge acc) by lia. cbn [take app]. by rewrite app_nil_r.
Qed.

Lemma registers4 acc (f : list Z * list Z -> outcome (list Z * list Z)) r :
  4 <= svcntd -> accumulators acc -> length r = 8%nat ->
  (forall v, rep4 v acc -> exists v', f v = Done v' /\ rep4 v' r) ->
  (v0 ← svld1_acc 4 acc 0; v1 ← svld1_acc 4 acc 4; accs ← f (v0, v1);
   let '(v0, v1) := accs in acc ← svst1_acc 4 acc 0 v0; svst1_acc 4 acc 4 v1) = Done r.
Proof.
  intros Hn Ha Lr Hf. destruct (svld1_acc_value 4 acc 0) as (v0 & -> & Hv0 & T0); [lia|done|lia|]. rewrite bind_done.
  destruct (svld1_acc_value 4 acc 4) as (v1 & -> & Hv1 & T1); [lia|done|lia|]. rewrite bind_done.
  destruct (Hf (v0, v1)) as ([w0 w1] & -> & Hw0 & Hw1 & <-).
  - split; [done|]. split; [done|]. rewrite T0, T1.
    by destruct (accumulators_8 acc Ha) as (a0 & a1 & a2 & a3 & a4 & a5 & a6 & a7 & ->).
  - destruct (accumulators_8 acc Ha) as (a0 & a1 & a2 & a3 & a4 & a5 & a6 & a7 & ->). rewrite bind_done, svst1_acc_value, bind_done by (done || lia).
    assert (L0 : length (take 4 w0) = 4%nat) by (rewrite length_take; destruct Hw0; lia).
    rewrite svst1_acc_value by (cbn [take drop app Nat.add]; rewrite ?length_app; cbn [length] in *; lia).
    cbn [take app Nat.add drop]. rewrite take_app_length', drop_ge by (rewrite ?length_app; cbn [length]; lia). by rewrite app_nil_r.
Qed.

Lemma registers2 acc (f : list Z * list Z * list Z * list Z -> outcome (list Z * list Z * list Z * list Z)) r :
  2 <= svcntd -> accumulators acc -> length r = 8%nat ->
  (forall v, rep2 v acc -> exists v', f v = Done v' /\ rep2 v' r) ->
  (v0 ← svld1_acc 2 acc 0; v1 ← svld1_acc 2 acc 2; v2 ← svld1_acc 2 acc 4; v3 ← svld1_acc 2 acc 6;
   accs ← f (v0, v1, v2, v3);
   let '(v0, v1, v2, v3) := accs in
   acc ← svst1_acc 2 acc 0 v0; acc ← svst1_acc 2 acc 2 v1; acc ← svst1_acc 2 acc 4 v2; svst1_acc 2 acc 6 v3) = Done r.
Proof.
  intros Hn Ha Lr Hf. destruct (svld1_acc_value 2 acc 0) as (v0 & -> & Hv0 & T0); [lia|done|lia|]. rewrite bind_done.
  destruct (svld1_acc_value 2 acc 2) as (v1 & -> & Hv1 & T1); [lia|done|lia|]. rewrite bind_done.
  destruct (svld1_acc_value 2 acc 4) as (v2 & -> & Hv2 & T2); [lia|done|lia|]. rewrite bind_done.
  destruct (svld1_acc_value 2 acc 6) as (v3 & -> & Hv3 & T3); [lia|done|lia|]. rewrite bind_done.
  destruct (accumulators_8 acc Ha) as (a0 & a1 & a2 & a3 & a4 & a5 & a6 & a7 & ->).
  destruct (Hf (v0, v1, v2, v3)) as ([[[w0 w1] w2] w3] & -> & Hw0 & Hw1 & Hw2 & Hw3 & <-).
  - do 4 (split; [done|]). by rewrite T0, T1, T2, T3.
  - assert (L2 : forall v, vector N v -> exists x y, take 2 v = [x; y]).
    { intros [|x [|y v]] [Lv _]; cbn [length] in Lv; [lia..|]. by exists x, y. }
    destruct (L2 w0 Hw0) as (x0 & y0 & E0), (L2 w1 Hw1) as (x1 & y1 & E1), (L2 w2 Hw2) as (x2 & y2 & E2), (L2 w3 Hw3) as (x3 & y3 & E3).
    rewrite bind_done. unfold svst1_acc. cbn [length Nat.add Nat.leb]. rewrite E0, E1, E2, E3. reflexivity.
Qed.

(** Two programs that begin with the same step. *)
Ltac same_steps := repeat lazymatch goal with |- ?m ≫= _ = _ => destruct m; [rewrite !bind_done|reflexivity..] end.

Lemma accumulate_512_sve_value : adds_stripe XXH3_accumulate_512_sve.
Proof.
  intros acc p s bs ks Ha Hb Hk Lb Lk Hp Hs. pose proof svcntd_range as [Hn Hev].
  pose proof (accumulated_ok acc bs ks Ha) as [Lr _]. unfold XXH3_accumulate_512_sve. cbv zeta.
  destruct (svcntd >=? 8) eqn:E8; [|destruct (svcntd =? 2) eqn:E2].
  - rewrite svptrue_pat by lia. apply (registers8 acc (round8 p s)); [lia|done|done|].
    intros v Hv. apply (round8_value v acc); auto; lia.
  - rewrite svptrue_pat by lia. rewrite <- (registers2 acc (round2 p s) _ ltac:(lia) Ha Lr).
    + unfold round2. by same_steps.
    + intros v Hv. apply (round2_value v acc); auto; lia.
  - assert (4 <= svcntd). { rewrite Z.even_spec in Hev. destruct Hev as [h Hh]. lia. }
    rewrite svptrue_pat by lia. rewrite <- (registers4 acc (round4 p s) _ ltac:(lia) Ha Lr).
    + unfold round4. by same_steps.
    + intros v Hv. apply (round4_value v acc); auto; lia.
Qed.

(** Keeping the accumulators in registers from stripe to stripe changes nothing. *)
Lemma accumulate_sve_value acc p s n bs ks :
  accumulators acc -> Forall byte_range bs -> Forall byte_range ks ->
  0 <= n -> n * 64 <= Z.of_nat (length bs) -> n * 8 + 56 <= Z.of_nat (length ks) -> holds p bs -> holds s ks ->
  XXH3_accumulate_sve acc p s n = XXH3_accumulate_of XXH3_accumulate_512_sve acc p s n.
Proof.
  intros Ha Hb Hk Hn Lb Lk Hp Hs. pose proof svcntd_range as [Hc Hev].
  pose proof (accumulate_of_value _ ks acc p s 0 (Z.to_nat n) bs accumulate_512_sve_value Hk Ha Hb Hp Hs) as V.
  rewrite Z2Nat.id, Z.mul_0_l, advance_0 in V by lia. rewrite V by lia. clear V.
  destruct (run_ok ks (Z.to_nat n) acc 0 bs Ha) as [Lr _].
  unfold XXH3_accumulate_sve. destruct (Z.eqb_spec n 0) as [->|Hn0]; [done|]. cbv zeta.
  assert (Hs' : holds s (drop (Z.to_nat (8 * 0)) ks)) by done.
  destruct (svcntd >=? 8) eqn:E8; [|destruct (svcntd =? 2) eqn:E2].
  - rewrite svptrue_pat by lia. apply (registers8 acc (sve_stripes _ (round8) p s)); [lia|done|done|].
    intros v Hv. apply (stripes_value rep8 _ ks acc 0); auto; try lia. intros. apply (round8_value accs acc0); auto; lia.
  - rewrite svptrue_pat by lia. apply (registers2 acc (sve_stripes _ (round2) p s)); [lia|done|done|].
    intros v Hv. apply (stripes_value rep2 _ ks acc 0); auto; try lia. intros. apply (round2_value accs acc0); auto; lia.
  - assert (4 <= svcntd). { rewrite Z.even_spec in Hev. destruct Hev as [h Hh]. lia. }
    rewrite svptrue_pat by lia. apply (registers4 acc (sve_stripes _ (round4) p s)); [lia|done|done|].
    intros v Hv. apply (stripes_value rep4 _ ks acc 0); auto; try lia. intros. apply (round4_value accs acc0); auto; lia.
Qed.

End SVE_rounds.

#[export] Instance sve_kernel_laws u (L : sve_laws (sve u)) : Kernel_laws (XXH3_kernel u XXH_SVE).
Proof.
  split; kernel_functions; intros.
  - by apply accumulate_512_sve_value.
  - by apply (accumulate_sve_value acc p s n bs ks).
  - by apply scrambleAcc_scalar_value.
  - by apply initCustomSecret_scalar_value.
Qed.

(** ** All of the kernels *)

Record units_laws (u : units) : Prop := {
  units_sse2 : x86_laws (sse2 u);
  units_avx2 : x86_laws (avx2 u);
  units_avx512 : x86_laws (avx512 u);
  units_neon : neon_laws (neon u);
  units_neon_lanes : In (neon_lanes u) [2; 4; 6; 8];
  units_vsx : vsx_laws (vsx u);
  units_sve : sve_laws (sve u);
}.

Lemma kernel_laws u v : units_laws u -> Kernel_laws (XXH3_kernel u v).
Proof. intros []. destruct v; eauto with typeclass_instances. Qed.

Lemma small_kernel_laws K : Kernel_laws K -> Kernel_laws (XXH3_small_kernel K).
Proof.
  intros [H1 H2 H3 H4]. split; cbn [XXH3_small_kernel XXH3_accumulate_512 XXH3_accumulate XXH3_scrambleAcc XXH3_initCustomSecret]; auto.
  intros. by apply initCustomSecret_scalar_value.
Qed.

(** The same functions on accumulators, where the memory they read is there. *)
Record same_kernel (K K' : Kernel) : Prop := {
  same_accumulate_512 acc p s bs ks :
    accumulators acc -> Forall byte_range bs -> Forall byte_range ks -> (64 <= length bs)%nat -> (64 <= length ks)%nat ->
    holds p bs -> holds s ks -> @XXH3_accumulate_512 K acc p s = @XXH3_accumulate_512 K' acc p s;
  same_accumulate acc p s n bs ks :
    accumulators acc -> Forall byte_range bs -> Forall byte_range ks ->
    0 <= n -> n * 64 <= Z.of_nat (length bs) -> n * 8 + 56 <= Z.of_nat (length ks) ->
    holds p bs -> holds s ks -> @XXH3_accumulate K acc p s n = @XXH3_accumulate K' acc p s n;
  same_scrambleAcc acc s ks :
    accumulators acc -> Forall byte_range ks -> (64 <= length ks)%nat -> holds s ks ->
    @XXH3_scrambleAcc K acc s = @XXH3_scrambleAcc K' acc s;
  same_initCustomSecret buf seed :
    length buf = Z.to_nat XXH_SECRET_DEFAULT_SIZE -> lane64 seed ->
    @XXH3_initCustomSecret K buf seed = @XXH3_initCustomSecret K' buf seed;
}.

Lemma accumulate_run {K} {L : Kernel_laws K} acc p s n bs ks :
  accumulators acc -> Forall byte_range bs -> Forall byte_range ks ->
  0 <= n -> n * 64 <= Z.of_nat (length bs) -> n * 8 + 56 <= Z.of_nat (length ks) ->
  holds p bs -> holds s ks -> XXH3_accumulate acc p s n = Done (run ks (Z.to_nat n) acc 0 bs).
Proof.
  intros Ha Hb Hk Hn Lb Lk Hp Hs. rewrite (accumulate_law _ _ _ _ bs ks) by done.
  pose proof (accumulate_of_value XXH3_accumulate_512 ks acc p s 0 (Z.to_nat n) bs) as V.
  rewrite Z2Nat.id, Z.mul_0_l, advance_0 in V by lia. apply V; auto; [|lia..]. intros ?. apply accumulate_512_law.
Qed.

Lemma laws_same K K' : Kernel_laws K -> Kernel_laws K' -> same_kernel K K'.
Proof.
  intros L L'. split; intros.
  - by rewrite !(accumulate_512_law _ _ _ bs ks).
  - by rewrite !(accumulate_run _ _ _ _ bs ks).
  - by rewrite !(scrambleAcc_law _ _ ks).
  - by rewrite !initCustomSecret_law.
Qed.

Lemma everywhere_same {A} bs ks (Q : A -> Prop) f K K' p s :
  everywhere bs ks Q f -> Kernel_laws K -> Kernel_laws K' -> holds p bs -> holds s ks -> f K p s = f K' p s.
Proof. intros (a & _ & E) L L' Hp Hs. by rewrite (E K), (E K'). Qed.

(** C8: Whatever [XXH_VECTOR] is - SSE2, AVX2, AVX-512, NEON with any number of its
    own lanes, VSX or SVE with vectors of any size -, and with or without vectors
    for the secret of a seed, the kernel computes what the scalar one computes: the
    accumulators after a stripe, after any number of stripes and after a scramble,
    and the 192 bytes of a secret; no load or store leaves its array.  So the
    hashes of every message are the same.  The intrinsics are assumed to compute
    what they are documented to. *)
Theorem xxh3_vector_kernels (u : units) (v : XXH_VECTOR_TYPE) (small : bool) :
  units_laws u ->
  let K := if small then XXH3_small_kernel (XXH3_kernel u v) else XXH3_kernel u v in
  same_kernel K scalar_kernel
  /\ forall bs ks seed p s,
       Forall byte_range bs -> Forall byte_range ks -> Z.of_nat (length bs) < 2 ^ 64 ->
       136 <= Z.of_nat (length ks) < 2 ^ 60 -> lane64 seed -> holds p bs -> holds s ks ->
       let len := Z.of_nat (length bs) in
       let size := Z.of_nat (length ks) in
       @XXH3_64bits_withSeed K p len seed = @XXH3_64bits_withSeed scalar_kernel p len seed
       /\ @XXH3_64bits_withSecret K p len s size = @XXH3_64bits_withSecret scalar_kernel p len s size
       /\ @XXH3_128bits_withSeed K p len seed = @XXH3_128bits_withSeed scalar_kernel p len seed
       /\ @XXH3_128bits_withSecret K p len s size = @XXH3_128bits_withSecret scalar_kernel p len s size.
Proof.
  intros Hu K. assert (L : Kernel_laws K) by (subst K; destruct small; auto using small_kernel_laws, kernel_laws).
  split; [apply laws_same; auto using scalar_kernel_laws|]. intros bs ks seed p s Hb Hk Hl Hs Hseed Hp Hsec len size.
  pose proof scalar_kernel_laws as L0.
  pose proof (bits64_withSeed_total bs ks Hb Hl seed Hseed) as E1. pose proof (bits64_withSecret_total bs ks Hb Hk Hl Hs) as E2.
  pose proof (bits128_withSeed_total bs ks Hb Hl seed Hseed) as E3. pose proof (bits128_withSecret_total bs ks Hb Hk Hl Hs) as E4.
  split; [exact (everywhere_same _ _ _ _ K _ p s E1 L L0 Hp Hsec)|]. split; [exact (everywhere_same _ _ _ _ K _ p s E2 L L0 Hp Hsec)|].
  split; [exact (everywhere_same _ _ _ _ K _ p s E3 L L0 Hp Hsec)|exact (everywhere_same _ _ _ _ K _ p s E4 L L0 Hp Hsec)].
Qed.

Lemma zip_lanes f (a b : list Z) : (forall x y, lane64 (f x y)) -> Forall lane64 (zip_with f a b).
Proof. intros H. revert b. induction a as [|x a IH]; intros [|y b]; cbn [zip_with]; constructor; auto. Qed.

(** Units that compute what is documented. *)
Lemma sve_reference_laws h : 1 <= h <= 16 -> sve_laws (sve_reference (2 * h)).
Proof.
  intros Hh. split; unfold merged;
    cbn [sve_reference svcntd svindex_u64 sveor_n_u64_z sveor_u64_x svtbl_u64 svextw_u64_x svlsr_n_u64_x svmad_u64_x svadd_u64_x].
  - by exists h.
  - done.
  - done.
  - intros. rewrite zip_with_take. split; [vec|done].
  - done.
  - intros. rewrite firstn_map. split; [|done]. apply vector_map; [done|]. intros. split; [apply word_bound|].
    pose proof (word_bound x). pow2_norm. lia.
  - intros. rewrite firstn_map. split; [vec|done].
  - intros m a b c [La _] [Lb _] [Lc _] Hm. rewrite !zip_with_take. split; [|done].
    split; [rewrite !length_zip_with; lia|]. apply zip_lanes. intros. apply u64_lane.
  - intros. rewrite zip_with_take. split; [vec|done].
Qed.

Definition reference_units : units := {|
  sse2 := x86_reference m128i; avx2 := x86_reference m256i; avx512 := x86_reference m512i;
  neon := neon_reference; neon_lanes := 6; wasm_simd128 := false; vsx := vsx_reference; sve := sve_reference (2 * 2);
|}.

Lemma reference_units_laws : units_laws reference_units.
Proof.
  split; [apply x86_reference_laws..|apply neon_reference_laws|by right; right; left|apply vsx_reference_laws|by apply sve_reference_laws].
Qed.

Lemma xxh3_vector_kernels_witness :
  let K := XXH3_kernel reference_units XXH_SVE in
  same_kernel K scalar_kernel
  /\ @XXH3_accumulate_512 K XXH3_INIT_ACC (start XXH3_kSecret) (start XXH3_kSecret)
     = @XXH3_accumulate_512 scalar_kernel XXH3_INIT_ACC (start XXH3_kSecret) (start XXH3_kSecret).
Proof.
  destruct (xxh3_vector_kernels reference_units XXH_SVE false reference_units_laws) as [H _].
  split; [exact H|]. apply (same_accumulate_512 _ _ H _ _ _ XXH3_kSecret XXH3_kSecret); auto using init_accumulators, kSecret_range, holds_start.
  all: apply Nat.leb_le; reflexivity.
Defined.
