(* ===== verification/Xxh3Stream.v ===== *)
(** * XXH3: streaming and the secret generators ([core/native/hashing/xxhash.h])

    The state, its reset in four ways, update and digest with 64 and with 128 bits;
    the aligned allocation of states; [XXH3_generateSecret]. *)
From S2P Require Import Prelude Xxhash Xxh3 Xxh3Long.

Definition XXH3_INTERNALBUFFER_SIZE : Z := 256.
Definition XXH3_INTERNALBUFFER_STRIPES : Z := XXH3_INTERNALBUFFER_SIZE / XXH_STRIPE_LEN.

Inductive XXH_errorcode := XXH_OK | XXH_ERROR.
#[export] Instance XXH_errorcode_eq_dec : EqDecision XXH_errorcode.
Proof. solve_decision. Defined.

(** [extSecret] is null or points to memory of the caller. *)
Record XXH3_state_t := XXH3State {
  acc : list Z;
  customSecret : list Z;
  buffer : list Z;
  bufferedSize : Z;
  useSeed : Z;
  nbStripesSoFar : Z;
  totalLen : Z;
  nbStripesPerBlock : Z;
  secretLimit : Z;
  seed : Z;
  extSecret : option pointer;
}.

Definition XXH3_INITSTATE (st : XXH3_state_t) : XXH3_state_t :=
  XXH3State (acc st) (customSecret st) (buffer st) (bufferedSize st) (useSeed st) (nbStripesSoFar st) (totalLen st)
    (nbStripesPerBlock st) (secretLimit st) 0 None.

(** ** Allocation

    [mem] has the bytes of the heap by address; [malloc] gives an address or null. *)

Definition XXH_alignedMalloc (malloc : Z -> Z) (mem : gmap Z Z) (s align : Z) : outcome (Z * gmap Z Z) :=
  _ ← XXH_ASSERT ((align <=? 128) && (align >=? 8));
  _ ← XXH_ASSERT (Z.land align (align - 1) =? 0);
  _ ← XXH_ASSERT (negb (s =? 0) && (s <? u64 (s + align)));
  let base := malloc (u64 (s + align)) in
  if base =? 0 then Done (0, mem) else
  let offset := align - Z.land base (align - 1) in
  let ptr := base + offset in
  _ ← XXH_ASSERT (ptr mod align =? 0);
  Done (ptr, <[ptr - 1 := u8 offset]> mem).

(** The address that is passed to [XXH_free]. *)
Definition XXH_alignedFree (mem : gmap Z Z) (p : Z) : outcome (option Z) :=
  if p =? 0 then Done None else
  offset ← demand (mem !! (p - 1));
  Done (Some (p - offset)).

(** [sizeof(XXH3_state_t)] *)
Definition sizeof_XXH3_state_t : Z := 576.

(** The state at the address, whose contents [malloc] leaves as they are. *)
Definition XXH3_createState (malloc : Z -> Z) (mem : gmap Z Z) (contents : XXH3_state_t)
    : outcome (option (Z * XXH3_state_t) * gmap Z Z) :=
  '(state, mem) ← XXH_alignedMalloc malloc mem sizeof_XXH3_state_t 64;
  if state =? 0 then Done (None, mem) else Done (Some (state, XXH3_INITSTATE contents), mem).
Definition XXH3_freeState (mem : gmap Z Z) (statePtr : Z) : outcome (option Z * XXH_errorcode) :=
  freed ← XXH_alignedFree mem statePtr; Done (freed, XXH_OK).
Definition XXH3_copyState (dst_state src_state : XXH3_state_t) : XXH3_state_t := src_state.

(** ** Reset *)

Definition XXH3_reset_internal (st : XXH3_state_t) (seed : Z) (secret : option pointer) (secretSize : Z) : outcome XXH3_state_t :=
  _ ← XXH_ASSERT (secretSize >=? XXH3_SECRET_SIZE_MIN);
  let limit := u64 (secretSize - XXH_STRIPE_LEN) in
  Done (XXH3State
    [XXH_PRIME32_3; XXH_PRIME64_1; XXH_PRIME64_2; XXH_PRIME64_3;
     XXH_PRIME64_4; XXH_PRIME32_2; XXH_PRIME64_5; XXH_PRIME32_1]
    (customSecret st) (buffer st) 0 (if negb (seed =? 0) then 1 else 0) 0 0
    (limit / XXH_SECRET_CONSUME_RATE) limit seed secret).

Definition secret_of (st : XXH3_state_t) : pointer :=
  match extSecret st with None => start (customSecret st) | Some p => p end.

Section Stream.
Context `{K : Kernel}.

(** The state after the call, where there is one, and what it returns. *)
Definition XXH3_64bits_reset (statePtr : option XXH3_state_t) : outcome (option XXH3_state_t * XXH_errorcode) :=
  match statePtr with
  | None => Done (None, XXH_ERROR)
  | Some st => st ← XXH3_reset_internal st 0 (Some (start XXH3_kSecret)) XXH_SECRET_DEFAULT_SIZE; Done (Some st, XXH_OK)
  end.

Definition XXH3_64bits_reset_withSecret (statePtr : option XXH3_state_t) (secret : option pointer) (secretSize : Z)
    : outcome (option XXH3_state_t * XXH_errorcode) :=
  match statePtr with
  | None => Done (None, XXH_ERROR)
  | Some st =>
      st ← XXH3_reset_internal st 0 secret secretSize;
      match secret with
      | None => Done (Some st, XXH_ERROR)
      | Some _ => if secretSize <? XXH3_SECRET_SIZE_MIN then Done (Some st, XXH_ERROR) else Done (Some st, XXH_OK)
      end
  end.

Definition set_customSecret (st : XXH3_state_t) (secret : list Z) : XXH3_state_t :=
  XXH3State (acc st) secret (buffer st) (bufferedSize st) (useSeed st) (nbStripesSoFar st) (totalLen st)
    (nbStripesPerBlock st) (secretLimit st) (seed st) (extSecret st).

Definition XXH3_64bits_reset_withSeed (statePtr : option XXH3_state_t) (sd : Z) : outcome (option XXH3_state_t * XXH_errorcode) :=
  match statePtr with
  | None => Done (None, XXH_ERROR)
  | Some st =>
      if sd =? 0 then XXH3_64bits_reset (Some st) else
      st ← (if negb (sd =? seed st) || bool_decide (extSecret st <> None)
            then secret ← XXH3_initCustomSecret (customSecret st) sd; Done (set_customSecret st secret) else Done st);
      st ← XXH3_reset_internal st sd None XXH_SECRET_DEFAULT_SIZE;
      Done (Some st, XXH_OK)
  end.

Definition XXH3_64bits_reset_withSecretandSeed (statePtr : option XXH3_state_t) (secret : option pointer) (secretSize seed64 : Z)
    : outcome (option XXH3_state_t * XXH_errorcode) :=
  match statePtr, secret with
  | None, _ => Done (None, XXH_ERROR)
  | Some st, None => Done (Some st, XXH_ERROR)
  | Some st, Some _ =>
      if secretSize <? XXH3_SECRET_SIZE_MIN then Done (Some st, XXH_ERROR) else
      st ← XXH3_reset_internal st seed64 secret secretSize;
      Done (Some (XXH3State (acc st) (customSecret st) (buffer st) (bufferedSize st) 1 (nbStripesSoFar st) (totalLen st)
        (nbStripesPerBlock st) (secretLimit st) (seed st) (extSecret st)), XXH_OK)
  end.

Definition XXH3_128bits_reset := XXH3_64bits_reset.
Definition XXH3_128bits_reset_withSecret := XXH3_64bits_reset_withSecret.
Definition XXH3_128bits_reset_withSeed := XXH3_64bits_reset_withSeed.
Definition XXH3_128bits_reset_withSecretandSeed := XXH3_64bits_reset_withSecretandSeed.

(** ** Update *)

(** The loop on whole blocks, the first of which is of [nbStripesThisIter]. *)
Fixpoint consume_blocks (fuel : nat) (acc : list Z) (nbStripesPerBlock : Z) (input : pointer) (nbStripes nbStripesThisIter : Z)
    (initialSecret secret : pointer) (secretLimit : Z) (f_acc : f_accumulate) (f_scramble : f_scrambleAcc)
    : outcome (list Z * pointer * Z) :=
  match fuel with
  | O => Spins
  | S fuel =>
      acc ← f_acc acc input initialSecret nbStripesThisIter;
      acc ← f_scramble acc (secret +! secretLimit);
      let input := input +! nbStripesThisIter * XXH_STRIPE_LEN in
      let nbStripes := u64 (nbStripes - nbStripesThisIter) in
      if nbStripes >=? nbStripesPerBlock
      then consume_blocks fuel acc nbStripesPerBlock input nbStripes nbStripesPerBlock secret secret secretLimit f_acc f_scramble
      else Done (acc, input, nbStripes)
  end.

(** The accumulators, the number of stripes in the block and the end of the input. *)
Definition XXH3_consumeStripes (acc : list Z) (nbStripesSoFar nbStripesPerBlock : Z) (input : pointer) (nbStripes : Z)
    (secret : pointer) (secretLimit : Z) (f_acc : f_accumulate) (f_scramble : f_scrambleAcc)
    : outcome (list Z * Z * pointer) :=
  let initialSecret := secret +! nbStripesSoFar * XXH_SECRET_CONSUME_RATE in
  let nbStripesThisIter := u64 (nbStripesPerBlock - nbStripesSoFar) in
  '(acc, nbStripesSoFar, input, nbStripes, initialSecret) ← (
    if nbStripes >=? nbStripesThisIter then
      '(acc, input, nbStripes) ← consume_blocks (S (Z.to_nat nbStripes)) acc nbStripesPerBlock input nbStripes nbStripesThisIter
        initialSecret secret secretLimit f_acc f_scramble;
      Done (acc, 0, input, nbStripes, secret)
    else Done (acc, nbStripesSoFar, input, nbStripes, initialSecret));
  if nbStripes >? 0 then
    acc ← f_acc acc input initialSecret nbStripes;
    Done (acc, u64 (nbStripesSoFar + nbStripes), input +! nbStripes * XXH_STRIPE_LEN)
  else Done (acc, nbStripesSoFar, input).

(** [memcpy(dst, src, n)] *)
Definition copy (dst src : pointer) (n : Z) : outcome (list Z) := bs ← demand (region n src); XXH_memcpy dst bs.

(** The buffer, when there is something in it, is completed and consumed. *)
Definition complete_buffer (st : XXH3_state_t) (input secret : pointer) (f_acc : f_accumulate) (f_scramble : f_scrambleAcc)
    : outcome (list Z * Z * list Z * pointer) :=
  if negb (bufferedSize st =? 0) then
    let loadSize := XXH3_INTERNALBUFFER_SIZE - bufferedSize st in
    buf ← copy (start (buffer st) +! bufferedSize st) input loadSize;
    '(acc, soFar, _) ← XXH3_consumeStripes (acc st) (nbStripesSoFar st) (nbStripesPerBlock st) (start buf)
      XXH3_INTERNALBUFFER_STRIPES secret (secretLimit st) f_acc f_scramble;
    Done (acc, soFar, buf, input +! loadSize)
  else Done (acc st, nbStripesSoFar st, buffer st, input).

(** What does not fit into the buffer is consumed where it is, but for its last bytes. *)
Definition consume_input (acc : list Z) (soFar per_block : Z) (buf : list Z) (input : pointer) (bEnd : Z) (secret : pointer)
    (secretLimit : Z) (f_acc : f_accumulate) (f_scramble : f_scrambleAcc) : outcome (list Z * Z * list Z * pointer) :=
  if bEnd - index input >? XXH3_INTERNALBUFFER_SIZE then
    let nbStripes := (bEnd - 1 - index input) / XXH_STRIPE_LEN in
    '(acc, soFar, input) ← XXH3_consumeStripes acc soFar per_block input nbStripes secret secretLimit f_acc f_scramble;
    buf ← copy (start buf +! (256 - XXH_STRIPE_LEN)) (input +! (- XXH_STRIPE_LEN)) XXH_STRIPE_LEN;
    Done (acc, soFar, buf, input)
  else Done (acc, soFar, buf, input).

(** [input] may be null; the accumulators are a copy on the stack until the end. *)
Definition XXH3_update (st : XXH3_state_t) (input : option pointer) (len : Z) (f_acc : f_accumulate) (f_scramble : f_scrambleAcc)
    : outcome (XXH3_state_t * XXH_errorcode) :=
  match input with
  | None => _ ← XXH_ASSERT (len =? 0); Done (st, XXH_OK)
  | Some input =>
      let bEnd := index input + len in
      let secret := secret_of st in
      let total := u64 (totalLen st + len) in
      _ ← XXH_ASSERT (bufferedSize st <=? XXH3_INTERNALBUFFER_SIZE);
      if len <=? XXH3_INTERNALBUFFER_SIZE - bufferedSize st then
        buf ← copy (start (buffer st) +! bufferedSize st) input len;
        Done (XXH3State (acc st) (customSecret st) buf (u32 (bufferedSize st + u32 len)) (useSeed st) (nbStripesSoFar st) total
          (nbStripesPerBlock st) (secretLimit st) (seed st) (extSecret st), XXH_OK)
      else
      '(acc, soFar, buf, input) ← complete_buffer st input secret f_acc f_scramble;
      _ ← XXH_ASSERT (index input <? bEnd);
      '(acc, soFar, buf, input) ← consume_input acc soFar (nbStripesPerBlock st) buf input bEnd secret (secretLimit st)
        f_acc f_scramble;
      _ ← XXH_ASSERT (index input <? bEnd);
      _ ← XXH_ASSERT (bEnd - index input <=? XXH3_INTERNALBUFFER_SIZE);
      buf ← copy (start buf) input (bEnd - index input);
      Done (XXH3State acc (customSecret st) buf (u32 (bEnd - index input)) (useSeed st) soFar total
        (nbStripesPerBlock st) (secretLimit st) (seed st) (extSecret st), XXH_OK)
  end.

Definition XXH3_64bits_update (st : XXH3_state_t) (input : option pointer) (len : Z) : outcome (XXH3_state_t * XXH_errorcode) :=
  XXH3_update st input len XXH3_accumulate XXH3_scrambleAcc.
Definition XXH3_128bits_update := XXH3_64bits_update.

(** ** Digest *)

Definition XXH3_digest_long (st : XXH3_state_t) (secret : pointer) : outcome (list Z) :=
  '(acc, lastStripePtr) ← (
    if bufferedSize st >=? XXH_STRIPE_LEN then
      let nbStripes := (bufferedSize st - 1) / XXH_STRIPE_LEN in
      '(acc, _, _) ← XXH3_consumeStripes (acc st) (nbStripesSoFar st) (nbStripesPerBlock st) (start (buffer st)) nbStripes
        secret (secretLimit st) XXH3_accumulate XXH3_scrambleAcc;
      Done (acc, start (buffer st) +! (bufferedSize st - XXH_STRIPE_LEN))
    else
      let catchupSize := XXH_STRIPE_LEN - bufferedSize st in
      _ ← XXH_ASSERT (bufferedSize st >? 0);
      lastStripe ← copy (start (replicate 64 0)) (start (buffer st) +! (256 - catchupSize)) catchupSize;
      lastStripe ← copy (start lastStripe +! catchupSize) (start (buffer st)) (bufferedSize st);
      Done (acc st, start lastStripe));
  XXH3_accumulate_512 acc lastStripePtr (secret +! (secretLimit st - XXH_SECRET_LASTACC_START)).

Definition XXH3_64bits_digest (st : XXH3_state_t) : outcome Z :=
  let secret := secret_of st in
  if totalLen st >? XXH3_MIDSIZE_MAX then
    acc ← XXH3_digest_long st secret;
    XXH3_mergeAccs acc (secret +! XXH_SECRET_MERGEACCS_START) (u64 (totalLen st * XXH_PRIME64_1))
  else if negb (useSeed st =? 0) then XXH3_64bits_withSeed (start (buffer st)) (totalLen st) (seed st)
  else XXH3_64bits_withSecret (start (buffer st)) (totalLen st) secret (u64 (secretLimit st + XXH_STRIPE_LEN)).

Definition XXH3_128bits_digest (st : XXH3_state_t) : outcome XXH128_hash_t :=
  let secret := secret_of st in
  if totalLen st >? XXH3_MIDSIZE_MAX then
    acc ← XXH3_digest_long st secret;
    _ ← XXH_ASSERT (u64 (secretLimit st + XXH_STRIPE_LEN) >=? 64 + XXH_SECRET_MERGEACCS_START);
    low ← XXH3_mergeAccs acc (secret +! XXH_SECRET_MERGEACCS_START) (u64 (totalLen st * XXH_PRIME64_1));
    high ← XXH3_mergeAccs acc (secret +! (secretLimit st + XXH_STRIPE_LEN - 64 - XXH_SECRET_MERGEACCS_START))
             (u64 (Z.lnot (u64 (totalLen st * XXH_PRIME64_2))));
    Done (XXH128Hash low high)
  else if negb (seed st =? 0) then XXH3_128bits_withSeed (start (buffer st)) (totalLen st) (seed st)
  else XXH3_128bits_withSecret (start (buffer st)) (totalLen st) secret (u64 (secretLimit st + XXH_STRIPE_LEN)).

(** ** Secret generators *)

(** The block of [dst] after. *)
Definition XXH3_combine16 (dst : pointer) (h128 : XXH128_hash_t) : outcome (list Z) :=
  lo ← XXH_readLE64 dst;
  b ← XXH_writeLE64 dst (Z.lxor lo (low64 h128));
  let dst := Pointer b (index dst) in
  hi ← XXH_readLE64 (dst +! 8);
  XXH_writeLE64 (dst +! 8) (Z.lxor hi (high64 h128)).

(** [while (pos < secretSize)] *)
Fixpoint fill_secret (fuel : nat) (secretBuffer : list Z) (pos secretSize : Z) (customSeed : pointer) (customSeedSize : Z)
    : outcome (list Z) :=
  if negb (pos <? secretSize) then Done secretBuffer else
  match fuel with
  | O => Spins
  | S fuel =>
      let toCopy := if secretSize - pos >? customSeedSize then customSeedSize else secretSize - pos in
      secretBuffer ← copy (start secretBuffer +! pos) customSeed toCopy;
      fill_secret fuel secretBuffer (pos + toCopy) secretSize customSeed customSeedSize
  end.

(** [secretBuffer] and [customSeed] may be null. *)
Definition XXH3_generateSecret (secretBuffer : option (list Z)) (secretSize : Z) (customSeed : option pointer) (customSeedSize : Z)
    : outcome (option (list Z) * XXH_errorcode) :=
  match secretBuffer with
  | None => Done (None, XXH_ERROR)
  | Some secret =>
      if secretSize <? XXH3_SECRET_SIZE_MIN then Done (Some secret, XXH_ERROR) else
      let '(customSeed, customSeedSize) :=
        if customSeedSize =? 0 then (Some (start XXH3_kSecret), XXH_SECRET_DEFAULT_SIZE) else (customSeed, customSeedSize) in
      match customSeed with
      | None => Done (Some secret, XXH_ERROR)
      | Some customSeed =>
          secret ← fill_secret (Z.to_nat secretSize) secret 0 secretSize customSeed customSeedSize;
          h ← XXH128 customSeed customSeedSize 0;
          let scrambler := XXH128_canonicalFromHash h in
          secret ← for_up 0 (secretSize / 16) (fun n secret =>
            h128 ← XXH128 (start scrambler) 16 n;
            XXH3_combine16 (start secret +! n * 16) h128) secret;
          h128 ← XXH128_hashFromCanonical scrambler;
          secret ← XXH3_combine16 (start secret +! (secretSize - 16)) h128;
          Done (Some secret, XXH_OK)
      end
  end.

(** The first bytes of [secretBuffer] become the secret. *)
Definition XXH3_generateSecret_fromSeed (secretBuffer : list Z) (seed : Z) : outcome (list Z) :=
  secret ← XXH3_initCustomSecret fresh_secret seed;
  XXH_memcpy (start secretBuffer) secret.

End Stream.
