(* ===== verification/Xxh3StreamTheorems.v ===== *)
(** * XXH3: streaming, theorems

    The state after the bytes of a message ([absorbed]), kept by [XXH3_update] however
    the message is cut, and the digests of such a state: the one-shot hashes. *)
From S2P Require Import Prelude Xxhash Xxh3 Xxh3Theorems Xxh3Long Xxh3LongTheorems Xxh3Stream.

(** ** Copies *)

Lemma region_holds p bs n :
  holds p bs -> 0 <= n <= Z.of_nat (length bs) -> region n p = Some (take (Z.to_nat n) bs).
Proof.
  intros H Hn. pose proof (holds_length _ _ H) as HL. destruct H as (Hi & post & E). unfold region.
  replace ((0 <=? index p) && (0 <=? n) && (index p + n <=? Z.of_nat (length (block p)))) with true
    by (symmetry; repeat (apply andb_true_intro; split); lia).
  by rewrite E, take_app_le by lia.
Qed.

Lemma drop_agree {A} k j (l l' : list A) : (k <= j)%nat -> drop k l = drop k l' -> drop j l = drop j l'.
Proof. intros Hj E. replace j with (k + (j - k))%nat by lia. by rewrite <- !drop_drop, E. Qed.

(** A buffer of which the first [k] bytes are known gets more. *)
Lemma copy_append buf known src bs k n :
  take (length known) buf = known -> holds src bs -> k = Z.of_nat (length known) -> 0 <= n <= Z.of_nat (length bs) ->
  (length known + Z.to_nat n <= length buf)%nat ->
  exists buf', copy (start buf +! k) src n = Done buf' /\ length buf' = length buf
    /\ take (length known + Z.to_nat n) buf' = known ++ take (Z.to_nat n) bs
    /\ drop (length known + Z.to_nat n) buf' = drop (length known + Z.to_nat n) buf.
Proof.
  intros T H -> Hn Hl. unfold copy. rewrite (region_holds _ _ _ H Hn). cbn [demand]. rewrite bind_done.
  assert (Lt : length (take (Z.to_nat n) bs) = Z.to_nat n) by (rewrite length_take; lia).
  rewrite memcpy_at by (cbn [advance start block index]; lia). cbn [advance start block index].
  rewrite Z.add_0_l, Nat2Z.id, T, Lt. eexists. split; [done|]. split_and!.
  - rewrite !length_app, length_drop. lia.
  - rewrite app_assoc. apply take_app_length'. rewrite length_app. lia.
  - rewrite app_assoc. apply drop_app_length'. rewrite length_app. lia.
Qed.

Section Streaming.
Context {K : Kernel} {L : Kernel_laws K}.
Context (ks : list Z) (Hk : Forall byte_range ks).
Let size := Z.of_nat (length ks).
Context (Hsize : 136 <= size < 2 ^ 60).
Let limit := size - 64.

(** ** Consuming stripes *)

Lemma consume_blocks_value fuel acc p s i m n bs :
  accumulators acc -> Forall byte_range bs -> holds s ks ->
  (n < fuel)%nat -> 0 <= i -> 0 < m -> i + m = per_block ks -> m <= Z.of_nat n -> Z.of_nat n < 2 ^ 64 ->
  (64 * n <= length bs)%nat -> holds p bs ->
  exists acc' r, (r <= n)%nat /\ Z.of_nat r < per_block ks /\ accumulators acc'
    /\ absorb ks (n - r) (acc, i) bs = (acc', 0)
    /\ consume_blocks fuel acc (per_block ks) p (Z.of_nat n) m (s +! i * 8) s limit XXH3_accumulate XXH3_scrambleAcc
       = Done (acc', p +! (Z.of_nat n - Z.of_nat r) * 64, Z.of_nat r).
Proof.
  intros Ha Hb Hs. revert acc p i m n bs Ha Hb. pose proof (per_block_bounds ks Hsize) as [B1 B2]. fold size in B2.
  induction fuel as [|fuel IH]; intros acc p i m n bs Ha Hb Hf Hi Hm Him Hmn Hn Lb Hp; [lia|].
  cbn [consume_blocks]. unfold XXH_STRIPE_LEN.
  pose proof (accumulate_value ks Hk Hsize acc p s i (Z.to_nat m) bs Ha Hb Hp Hs Hi) as V. rewrite Z2Nat.id in V by lia.
  rewrite V, bind_done by (fold size; lia).
  rewrite (scramble_value ks Hk Hsize _ s), bind_done by (try done; by apply run_ok).
  rewrite wrap_small by lia.
  pose proof (absorb_block ks (Z.to_nat m) acc i bs Hi ltac:(lia) ltac:(lia)) as E.
  set (acc1 := scrambled _ _) in *. assert (Ha1 : accumulators acc1) by (subst acc1; unfold last_key; by apply scrambled_ok, run_ok).
  destruct (Z.geb_spec (Z.of_nat n - m) (per_block ks)) as [Hge|Hlt].
  - destruct (IH acc1 (p +! m * 64) 0 (per_block ks) (n - Z.to_nat m)%nat (drop (64 * Z.to_nat m) bs))
      as (acc' & r & Hr & Hrb & Ha' & Eabs & Er); [done|by apply Forall_drop|lia|lia|lia|lia|lia|lia|rewrite length_drop; lia| |].
    { replace (64 * Z.to_nat m)%nat with (Z.to_nat (m * 64)) by lia. apply holds_drop; [lia|done]. }
    exists acc', r. split_and!; [lia|lia|done| |].
    + replace (n - r)%nat with (Z.to_nat m + (n - Z.to_nat m - r))%nat by lia. by rewrite absorb_add, E.
    + rewrite Z.mul_0_l, advance_0 in Er. replace (Z.of_nat (n - Z.to_nat m)) with (Z.of_nat n - m) in Er by lia.
      rewrite Er, advance_advance. do 4 f_equal. lia.
  - exists acc1, (n - Z.to_nat m)%nat. split_and!; [lia|lia|done| |].
    + by replace (n - (n - Z.to_nat m))%nat with (Z.to_nat m) by lia.
    + do 3 f_equal; [f_equal|]; lia.
Qed.

Lemma consumeStripes_value acc p s i n bs :
  accumulators acc -> Forall byte_range bs -> holds s ks -> holds p bs ->
  0 <= i < per_block ks -> Z.of_nat n < 2 ^ 62 -> (64 * n <= length bs)%nat ->
  XXH3_consumeStripes acc i (per_block ks) p (Z.of_nat n) s limit XXH3_accumulate XXH3_scrambleAcc
  = Done (absorb ks n (acc, i) bs, p +! Z.of_nat n * 64).
Proof.
  intros Ha Hb Hs Hp Hi Hn Lb. pose proof (per_block_bounds ks Hsize) as [B1 B2]. fold size in B2.
  unfold XXH3_consumeStripes, XXH_SECRET_CONSUME_RATE, XXH_STRIPE_LEN. cbv zeta.
  rewrite (wrap_small 64 (per_block ks - i)) by (pow2_norm; lia).
  destruct (Z.geb_spec (Z.of_nat n) (per_block ks - i)) as [Hge|Hlt].
  - destruct (consume_blocks_value (S (Z.to_nat (Z.of_nat n))) acc p s i (per_block ks - i) n bs)
      as (acc' & r & Hr & Hrb & Ha' & Eabs & ->); [done..|lia|lia|lia|lia|lia|pow2_norm; lia|lia|done|].
    rewrite !bind_done. destruct (Z.gtb_spec (Z.of_nat r) 0) as [Hr0|Hr0].
    + pose proof (accumulate_value ks Hk Hsize acc' (p +! (Z.of_nat n - Z.of_nat r) * 64) s 0 r (drop (64 * (n - r)) bs) Ha') as V.
      rewrite Z.mul_0_l, advance_0 in V.
      rewrite V, bind_done by (first [done|by apply Forall_drop|fold size; lia|rewrite length_drop; lia|
        replace (64 * (n - r))%nat with (Z.to_nat ((Z.of_nat n - Z.of_nat r) * 64)) by lia; apply holds_drop; [lia|done]]).
      rewrite wrap_small by (pow2_norm; lia). rewrite advance_advance.
      replace (absorb ks n (acc, i) bs) with (run ks r acc' 0 (drop (64 * (n - r)) bs), 0 + Z.of_nat r).
      { do 3 f_equal. lia. }
      rewrite <- absorb_run, <- Eabs, <- absorb_add by lia. f_equal. lia.
    + replace r with 0%nat in * by lia. rewrite Nat.sub_0_r in Eabs. rewrite Eabs. do 3 f_equal. lia.
  - rewrite bind_done. rewrite absorb_run by lia. destruct (Z.gtb_spec (Z.of_nat n) 0).
    + rewrite (accumulate_value ks Hk Hsize acc p s i n bs), bind_done by (first [done|fold size; lia]).
      by rewrite wrap_small by (pow2_norm; lia).
    + replace n with 0%nat by lia. cbn [run Z.of_nat]. by rewrite Z.mul_0_l, Z.add_0_r, advance_0.
Qed.

(** ** Update *)

(** After the bytes [msg]: [c] stripes of them have been consumed, the rest is in the
    buffer, which is not empty once a stripe was consumed, and while it has less than a
    stripe its end still has the last stripe that was consumed. *)
Record absorbed (c : nat) (msg : list Z) (st : XXH3_state_t) : Prop := {
  ab_secret : holds (secret_of st) ks;
  ab_limit : secretLimit st = limit;
  ab_per : nbStripesPerBlock st = per_block ks;
  ab_total : totalLen st = Z.of_nat (length msg);
  ab_buf : length (buffer st) = 256%nat;
  ab_size : bufferedSize st = Z.of_nat (length msg) - 64 * Z.of_nat c;
  ab_range : 0 <= bufferedSize st <= 256;
  ab_bytes : take (Z.to_nat (bufferedSize st)) (buffer st) = drop (64 * c) msg;
  ab_acc : absorb ks c (XXH3_INIT_ACC, 0) msg = (acc st, nbStripesSoFar st);
  ab_some : (0 < c)%nat -> 0 < bufferedSize st;
  ab_four : (0 < c)%nat -> (4 <= c)%nat;
  ab_tail : (0 < c)%nat -> bufferedSize st < 64 -> drop 192 (buffer st) = take 64 (drop (64 * c - 64) msg);
}.

(** In between: the message has been consumed as a whole. *)
Record consumed (c : nat) (msg acc : list Z) (soFar : Z) (buf : list Z) : Prop := {
  co_length : length msg = (64 * c)%nat;
  co_acc : absorb ks c (XXH3_INIT_ACC, 0) msg = (acc, soFar);
  co_buf : length buf = 256%nat;
  co_tail : (0 < c)%nat -> (4 <= c)%nat /\ drop 192 buf = drop (64 * c - 64) msg;
}.

Lemma absorbed_acc c msg acc0 i : absorb ks c (XXH3_INIT_ACC, 0) msg = (acc0, i) -> accumulators acc0 /\ 0 <= i < per_block ks.
Proof.
  intros E. pose proof (per_block_bounds ks Hsize) as [B1 B2]. split.
  - pose proof (absorb_ok ks c (XXH3_INIT_ACC, 0) msg init_accumulators) as H. by rewrite E in H.
  - pose proof (absorb_bound ks c (XXH3_INIT_ACC, 0) msg ltac:(lia) ltac:(cbn; lia)) as H. by rewrite E in H.
Qed.

Lemma absorb_more n c msg bs acc0 i :
  length msg = (64 * c)%nat -> absorb ks c (XXH3_INIT_ACC, 0) msg = (acc0, i) ->
  absorb ks (c + n) (XXH3_INIT_ACC, 0) (msg ++ bs) = absorb ks n (acc0, i) bs.
Proof.
  intros Hl E. rewrite absorb_add, absorb_app, E by lia. f_equal. apply drop_app_length'. lia.
Qed.

Lemma complete_buffer_value c msg st p bs :
  absorbed c msg st -> Forall byte_range msg -> Forall byte_range bs -> holds p bs ->
  256 - bufferedSize st < Z.of_nat (length bs) ->
  exists c' n acc' soFar' buf',
    complete_buffer st p (secret_of st) XXH3_accumulate XXH3_scrambleAcc = Done (acc', soFar', buf', p +! Z.of_nat n)
    /\ (n < length bs)%nat /\ consumed c' (msg ++ take n bs) acc' soFar' buf'.
Proof.
  intros A Hm Hb Hp Hl. destruct (absorbed_acc _ _ _ _ (ab_acc _ _ _ A)) as [Ha Hi].
  pose proof (ab_size _ _ _ A) as Sz. pose proof (ab_range _ _ _ A) as Rg. pose proof (ab_buf _ _ _ A) as Lb.
  unfold complete_buffer. destruct (Z.eqb_spec (bufferedSize st) 0) as [Z0|N0]; cbn [negb].
  - exists c, 0%nat, (acc st), (nbStripesSoFar st), (buffer st). rewrite advance_0. split; [done|].
    split; [lia|]. rewrite app_nil_r. assert (c = 0)%nat as -> by (destruct c; [done|pose proof (ab_some _ _ _ A ltac:(lia)); lia]).
    split; [lia|apply A|done|lia].
  - unfold XXH3_INTERNALBUFFER_SIZE. cbv zeta. set (b := bufferedSize st) in *.
    assert (Ld : length (drop (64 * c) msg) = Z.to_nat b) by (rewrite length_drop; lia).
    destruct (copy_append (buffer st) (drop (64 * c) msg) p bs b (256 - b)) as (buf' & E & Lb' & T & _);
      [rewrite Ld; apply A|done|lia|lia|lia|]. rewrite E, bind_done. clear E.
    rewrite take_ge in T by lia.
    assert (Hbuf : Forall byte_range buf').
    { rewrite T. apply Forall_app. split; [by apply Forall_drop|by apply Forall_take]. }
    rewrite (ab_per _ _ _ A), (ab_limit _ _ _ A). change XXH3_INTERNALBUFFER_STRIPES with (Z.of_nat 4).
    rewrite (consumeStripes_value (acc st) (start buf') (secret_of st) (nbStripesSoFar st) 4 buf'), bind_done
      by (first [done|apply A|apply holds_start|lia|pow2_norm; lia]).
    destruct (absorb ks 4 (acc st, nbStripesSoFar st) buf') as [acc' soFar'] eqn:Eabs.
    exists (c + 4)%nat, (Z.to_nat (256 - b)), acc', soFar', buf'. rewrite Z2Nat.id by lia. split; [done|]. split; [lia|].
    assert (Em : msg ++ take (Z.to_nat (256 - b)) bs = take (64 * c) msg ++ buf') by (rewrite T, app_assoc, take_drop; done).
    rewrite Em. assert (Lt : length (take (64 * c) msg) = (64 * c)%nat) by (rewrite length_take; lia).
    split.
    + rewrite length_app. lia.
    + rewrite (absorb_more 4 c _ buf' (acc st) (nbStripesSoFar st)); [done|done|].
      rewrite <- (ab_acc _ _ _ A). rewrite <- (take_drop (64 * c) msg) at 2. by rewrite absorb_app by lia.
    + lia.
    + intros _. split; [lia|]. rewrite drop_app_ge by lia. f_equal. lia.
Qed.

Lemma consume_input_value c msg acc0 soFar buf p bs bEnd s :
  consumed c msg acc0 soFar buf -> Forall byte_range bs -> holds p bs -> holds s ks ->
  (0 < length bs)%nat -> bEnd = index p + Z.of_nat (length bs) -> Z.of_nat (length bs) < 2 ^ 64 -> (0 < c)%nat \/ (256 < length bs)%nat ->
  exists c' n acc' soFar' buf',
    consume_input acc0 soFar (per_block ks) buf p bEnd s limit XXH3_accumulate XXH3_scrambleAcc
      = Done (acc', soFar', buf', p +! Z.of_nat n)
    /\ (n < length bs)%nat /\ (length bs - n <= 256)%nat /\ (0 < c')%nat /\ consumed c' (msg ++ take n bs) acc' soFar' buf'.
Proof.
  intros C Hb Hp Hs Hl -> Hmax Hc. destruct (absorbed_acc _ _ _ _ (co_acc _ _ _ _ _ C)) as [Ha Hi]. pose proof (co_length _ _ _ _ _ C) as Lm.
  unfold consume_input, XXH3_INTERNALBUFFER_SIZE, XXH_STRIPE_LEN. cbv zeta.
  destruct (Z.gtb_spec (index p + Z.of_nat (length bs) - index p) 256) as [Hgt|Hle].
  - set (n := Z.to_nat ((Z.of_nat (length bs) - 1) / 64)).
    assert (Hn : (64 * n < length bs)%nat /\ (length bs <= 64 * n + 64)%nat /\ (4 <= n)%nat) by (subst n; zdiv_lia).
    replace ((index p + Z.of_nat (length bs) - 1 - index p) / 64) with (Z.of_nat n)
      by (subst n; rewrite Z2Nat.id by (apply Z.div_pos; lia); f_equal; lia).
    rewrite (consumeStripes_value acc0 p s soFar n bs), bind_done by (first [done|lia|pow2_norm; lia]).
    destruct (absorb ks n (acc0, soFar) bs) as [acc' soFar'] eqn:E.
    assert (Hq : holds (p +! Z.of_nat n * 64 +! -64) (drop (64 * n - 64) bs)).
    { rewrite advance_advance. replace (64 * n - 64)%nat with (Z.to_nat (Z.of_nat n * 64 + -64)) by lia. apply holds_drop; [lia|done]. }
    destruct (copy_append buf (take 192 buf) _ _ (256 - 64) 64 ltac:(rewrite length_take, (co_buf _ _ _ _ _ C); reflexivity) Hq)
      as (buf' & Ec & Lb' & T & _);
      [rewrite length_take, (co_buf _ _ _ _ _ C); lia|rewrite length_drop; lia|rewrite length_take, (co_buf _ _ _ _ _ C); lia|].
    change (Z.opp 64) with (-64). rewrite Ec, bind_done. exists (c + n)%nat, (64 * n)%nat, acc', soFar', buf'.
    split; [do 4 f_equal; lia|]. split_and!; [lia..|].
    assert (Lt : length (take (64 * n) bs) = (64 * n)%nat) by (rewrite length_take; lia).
    assert (L192 : length (take 192 buf) = 192%nat) by (rewrite length_take, (co_buf _ _ _ _ _ C); lia).
    split.
    + rewrite length_app. lia.
    + rewrite (absorb_more n c msg _ acc0 soFar), <- E by (done || apply C).
      rewrite <- (take_drop (64 * n) bs) at 2. by rewrite absorb_app by lia.
    + rewrite Lb'. apply C.
    + intros _. split; [lia|]. rewrite take_ge in T by (rewrite Lb', (co_buf _ _ _ _ _ C), L192; lia).
      rewrite T, drop_app_length' by lia. rewrite drop_app_ge by lia.
      rewrite take_drop_commute. f_equal; [lia|f_equal; lia].
  - exists c, 0%nat, acc0, soFar, buf. rewrite advance_0. split; [done|]. rewrite app_nil_r. split_and!; [lia..|done].
Qed.

(** The fields that [XXH3_update] leaves alone. *)
Definition same_mode (st st' : XXH3_state_t) : Prop :=
  customSecret st' = customSecret st /\ useSeed st' = useSeed st /\ seed st' = seed st /\ extSecret st' = extSecret st.

Lemma total_after c msg st bs :
  absorbed c msg st -> Z.of_nat (length (msg ++ bs)) < 2 ^ 64 ->
  u64 (totalLen st + Z.of_nat (length bs)) = Z.of_nat (length (msg ++ bs)).
Proof. intros A Hmax. rewrite (ab_total _ _ _ A), <- Nat2Z.inj_add, <- length_app. apply wrap_small. lia. Qed.

(** What fits into the buffer is only copied. *)
Lemma update_small c msg st p bs :
  absorbed c msg st -> holds p bs -> Z.of_nat (length (msg ++ bs)) < 2 ^ 64 -> Z.of_nat (length bs) <= 256 - bufferedSize st ->
  exists st', XXH3_64bits_update st (Some p) (Z.of_nat (length bs)) = Done (st', XXH_OK)
    /\ absorbed c (msg ++ bs) st' /\ same_mode st st'.
Proof.
  intros A Hp Hmax Hle. pose proof (ab_size _ _ _ A) as Sz. pose proof (ab_range _ _ _ A) as Rg. pose proof (ab_buf _ _ _ A) as Lb.
  unfold XXH3_64bits_update, XXH3_update. cbv zeta. rewrite (total_after c msg st bs A Hmax). rewrite length_app in Hmax.
  unfold XXH3_INTERNALBUFFER_SIZE. rewrite (proj2 (Z.leb_le (bufferedSize st) 256)), (proj2 (Z.leb_le (Z.of_nat (length bs)) _)) by lia.
  cbn [XXH_ASSERT]. rewrite bind_done.
  assert (Ld : length (drop (64 * c) msg) = Z.to_nat (bufferedSize st)) by (rewrite length_drop; lia).
  destruct (copy_append (buffer st) (drop (64 * c) msg) p bs (bufferedSize st) (Z.of_nat (length bs)))
    as (buf' & E & Lb' & T & D); [rewrite Ld; apply A|done|lia|lia|lia|]. rewrite E, bind_done.
  rewrite Nat2Z.id, Ld in T, D. rewrite (take_ge bs) in T by lia.
  rewrite !(wrap_small 32) by (pow2_norm; first [rewrite wrap_small by (pow2_norm; lia)|idtac]; lia).
  eexists. split; [reflexivity|]. split; [|done].
  split; cbn [acc customSecret buffer bufferedSize useSeed nbStripesSoFar totalLen nbStripesPerBlock secretLimit seed extSecret]; try apply A.
  - done.
  - lia.
  - rewrite length_app. lia.
  - lia.
  - rewrite Z2Nat.inj_add, Nat2Z.id, T, drop_app_le by lia. done.
  - rewrite absorb_app by lia. apply A.
  - intros Hc. pose proof (ab_some _ _ _ A Hc). lia.
  - intros Hc Hs. rewrite drop_app_le, take_app_le by (try rewrite length_drop; lia).
    rewrite <- (ab_tail _ _ _ A Hc) by lia. by eapply drop_agree; [|exact D]; lia.
Qed.

(** The bytes that are left are put at the start of the buffer. *)
Lemma keep_rest c msg acc0 soFar buf st p bs n :
  absorbed 0 [] (XXH3State XXH3_INIT_ACC (customSecret st) (buffer st) 0 (useSeed st) 0 0 (nbStripesPerBlock st) (secretLimit st) (seed st) (extSecret st)) ->
  (0 < c)%nat -> consumed c (msg ++ take n bs) acc0 soFar buf -> holds p bs -> (n < length bs)%nat -> (length bs - n <= 256)%nat ->
  exists buf', copy (start buf) (p +! Z.of_nat n) (Z.of_nat (length bs - n)) = Done buf'
    /\ absorbed c (msg ++ bs) (XXH3State acc0 (customSecret st) buf' (Z.of_nat (length bs - n)) (useSeed st) soFar
         (Z.of_nat (length (msg ++ bs))) (nbStripesPerBlock st) (secretLimit st) (seed st) (extSecret st)).
Proof.
  intros A0 Hc C Hp Hn Hr.
  destruct (copy_append buf [] (p +! Z.of_nat n) (drop n bs) 0 (Z.of_nat (length bs - n))) as (buf' & E & Lb' & T & D);
    [done|rewrite <- (Nat2Z.id n) at 2; apply holds_drop; [lia|done]|done|rewrite length_drop; lia|rewrite (co_buf _ _ _ _ _ C); cbn; lia|].
  change (start buf +! 0) with (start buf) in E. cbn [length app Nat.add] in T, D.
  rewrite Nat2Z.id in T, D. rewrite (take_ge (drop n bs)) in T by (rewrite length_drop; lia).
  pose proof (co_length _ _ _ _ _ C) as Lm. pose proof Lm as Lm'. rewrite length_app, length_take in Lm'.
  assert (Es : msg ++ bs = (msg ++ take n bs) ++ drop n bs) by (rewrite <- app_assoc, take_drop; done).
  exists buf'. split; [exact E|].
  split; cbn [acc customSecret buffer bufferedSize useSeed nbStripesSoFar totalLen nbStripesPerBlock secretLimit seed extSecret].
  - apply A0.
  - apply A0.
  - apply A0.
  - done.
  - rewrite Lb'. apply C.
  - rewrite length_app. lia.
  - lia.
  - rewrite Nat2Z.id, T, Es. by rewrite drop_app_length' by lia.
  - rewrite Es, absorb_app by lia. apply C.
  - lia.
  - intros _. by destruct (co_tail _ _ _ _ _ C Hc).
  - intros _ Hs. destruct (co_tail _ _ _ _ _ C Hc) as [H4 Tl]. rewrite Es, drop_app_le by lia.
    rewrite take_app_length' by (rewrite length_drop; lia). rewrite <- Tl. eapply drop_agree; [|exact D]. lia.
Qed.

Lemma update_large c msg st p bs :
  absorbed c msg st -> Forall byte_range msg -> Forall byte_range bs -> holds p bs ->
  Z.of_nat (length (msg ++ bs)) < 2 ^ 64 -> 256 - bufferedSize st < Z.of_nat (length bs) ->
  exists c' st', XXH3_64bits_update st (Some p) (Z.of_nat (length bs)) = Done (st', XXH_OK)
    /\ absorbed c' (msg ++ bs) st' /\ same_mode st st'.
Proof.
  intros A Hm Hb Hp Hmax Hgt. pose proof (ab_range _ _ _ A) as Rg.
  unfold XXH3_64bits_update, XXH3_update. cbv zeta. rewrite (total_after c msg st bs A Hmax). rewrite length_app in Hmax.
  unfold XXH3_INTERNALBUFFER_SIZE. rewrite (proj2 (Z.leb_le (bufferedSize st) 256)), (proj2 (Z.leb_gt (Z.of_nat (length bs)) _)) by lia.
  cbn [XXH_ASSERT]. rewrite bind_done.
  destruct (complete_buffer_value c msg st p bs A Hm Hb Hp ltac:(lia)) as (c1 & n1 & acc1 & soFar1 & buf1 & -> & Hn1 & C1).
  rewrite bind_done. replace (index (p +! Z.of_nat n1) <? index p + Z.of_nat (length bs)) with true by (cbn; lia).
  cbn [XXH_ASSERT]. rewrite bind_done.
  destruct (consume_input_value c1 (msg ++ take n1 bs) acc1 soFar1 buf1 (p +! Z.of_nat n1) (drop n1 bs)
    (index p + Z.of_nat (length bs)) (secret_of st)) as (c2 & n2 & acc2 & soFar2 & buf2 & E2 & Hn2 & Hr & Hc2 & C2);
    [done|by apply Forall_drop|rewrite <- (Nat2Z.id n1) at 2; apply holds_drop; [lia|done]|apply A|rewrite length_drop; lia
    |rewrite length_drop; cbn; lia|rewrite length_drop; lia| |].
  { rewrite length_drop. destruct (Nat.eq_dec c1 0%nat) as [->|]; [|left; lia]. right.
    pose proof (ab_size _ _ _ A). pose proof (co_length _ _ _ _ _ C1) as Lm. rewrite length_app, length_take in Lm. lia. }
  rewrite (ab_per _ _ _ A), (ab_limit _ _ _ A), E2, bind_done. clear E2. rewrite length_drop in Hn2, Hr.
  rewrite <- app_assoc in C2. replace (take n1 bs ++ take n2 (drop n1 bs)) with (take (n1 + n2) bs) in C2
    by (rewrite <- (take_drop n1 (take (n1 + n2) bs)), take_take_le, <- take_drop_commute by lia; done).
  rewrite advance_advance, <- Nat2Z.inj_add. set (n := (n1 + n2)%nat) in *.
  assert (Hn : (n < length bs)%nat /\ (length bs - n <= 256)%nat) by lia. cbn [advance index].
  replace (index p + Z.of_nat (length bs) - (index p + Z.of_nat n)) with (Z.of_nat (length bs - n)) by lia.
  replace (index p + Z.of_nat n <? index p + Z.of_nat (length bs)) with true by lia.
  replace (Z.of_nat (length bs - n) <=? 256) with true by (symmetry; apply Z.leb_le; lia). cbn [XXH_ASSERT]. rewrite !bind_done.
  destruct (keep_rest c2 msg acc2 soFar2 buf2 st p bs n) as (buf' & E & A'); [|done|done|done|lia|lia|].
  { split; try apply A; cbn; done || lia. }
  change (Pointer (block p) (index p + Z.of_nat n)) with (p +! Z.of_nat n). rewrite E, bind_done.
  rewrite wrap_small by (pow2_norm; lia). rewrite (ab_per _ _ _ A), (ab_limit _ _ _ A) in A'.
  eexists c2, _. split; [reflexivity|]. split; [exact A'|done].
Qed.

Lemma update_absorbed c msg st p bs :
  absorbed c msg st -> Forall byte_range msg -> Forall byte_range bs -> holds p bs ->
  Z.of_nat (length (msg ++ bs)) < 2 ^ 64 ->
  exists c' st', XXH3_64bits_update st (Some p) (Z.of_nat (length bs)) = Done (st', XXH_OK)
    /\ absorbed c' (msg ++ bs) st' /\ same_mode st st'.
Proof.
  intros A Hm Hb Hp Hmax. destruct (Z.le_gt_cases (Z.of_nat (length bs)) (256 - bufferedSize st)) as [Hle|Hgt].
  - destruct (update_small c msg st p bs) as (st' & E); eauto.
  - apply (update_large c msg st p bs); auto.
Qed.

(** ** Digest *)

(** The last stripe of the message, put together when the buffer has less than one. *)
Lemma last_stripe_held c msg st :
  absorbed c msg st -> (0 < c)%nat -> bufferedSize st < 64 ->
  exists one two, copy (start (replicate 64 0)) (start (buffer st) +! (256 - (64 - bufferedSize st))) (64 - bufferedSize st) = Done one
    /\ copy (start one +! (64 - bufferedSize st)) (start (buffer st)) (bufferedSize st) = Done two
    /\ two = drop (length msg - 64) msg.
Proof.
  intros A Hc Hs. pose proof (ab_size _ _ _ A) as Sz. pose proof (ab_range _ _ _ A) as Rg.
  pose proof (ab_buf _ _ _ A) as Lb. pose proof (ab_some _ _ _ A Hc). pose proof (ab_tail _ _ _ A Hc Hs) as Tl.
  set (b := bufferedSize st) in *. pose proof (holds_start (buffer st)) as Hbuf.
  pose proof (holds_drop _ (256 - (64 - b)) (buffer st) ltac:(lia) Hbuf) as H1.
  destruct (copy_append (replicate 64 0) [] _ _ 0 (64 - b) eq_refl H1) as (one & E1 & L1 & T1 & _);
    [done|rewrite length_drop; lia|rewrite length_replicate; cbn; lia|].
  change (start (replicate 64 0) +! 0) with (start (replicate 64 0)) in E1. cbn [length app Nat.add] in T1.
  rewrite length_replicate in L1. rewrite (take_ge (drop _ _)) in T1 by (rewrite length_drop; lia).
  set (k1 := drop (Z.to_nat (256 - (64 - b))) (buffer st)) in *.
  assert (Lk : length k1 = Z.to_nat (64 - b)) by (subst k1; rewrite length_drop; lia).
  destruct (copy_append one k1 (start (buffer st)) (buffer st) (64 - b) b) as (two & E2 & L2 & T2 & _);
    [by rewrite Lk|done|lia|lia|lia|].
  exists one, two. split; [exact E1|]. split; [exact E2|].
  rewrite take_ge in T2 by lia. pose proof (ab_bytes _ _ _ A) as Tb. fold b in Tb. rewrite T2, Tb. subst k1.
  replace (Z.to_nat (256 - (64 - b))) with (192 + Z.to_nat b)%nat by lia. rewrite <- drop_drop, Tl.
  replace (length msg - 64)%nat with (64 * c - 64 + Z.to_nat b)%nat by lia. rewrite <- (drop_drop msg).
  set (tl := drop (64 * c - 64) msg).
  replace (drop (64 * c) msg) with (drop 64 tl) by (subst tl; rewrite drop_drop; f_equal; lia).
  rewrite <- (take_drop 64 tl) at 3. rewrite drop_app_le; [done|].
  rewrite length_take. subst tl. rewrite length_drop. lia.
Qed.

Lemma long_acc_eq n msg acc0 i lastStripe :
  absorb ks n (XXH3_INIT_ACC, 0) msg = (acc0, i) -> n = Z.to_nat ((Z.of_nat (length msg) - 1) / 64) ->
  lastStripe = drop (length msg - 64) msg ->
  accumulated acc0 (lanes_of lastStripe) (lanes_of (drop (Z.to_nat (size - 64 - 7)) ks)) = long_acc ks msg.
Proof.
  intros E -> ->. unfold long_acc. fold size. rewrite E. do 3 f_equal. lia.
Qed.

Lemma digest_long_value c msg st :
  absorbed c msg st -> Forall byte_range msg -> 240 < Z.of_nat (length msg) < 2 ^ 64 ->
  XXH3_digest_long st (secret_of st) = Done (long_acc ks msg).
Proof.
  intros A Hm Hl. destruct (absorbed_acc _ _ _ _ (ab_acc _ _ _ A)) as [Ha Hi].
  pose proof (ab_size _ _ _ A) as Sz. pose proof (ab_range _ _ _ A) as Rg. pose proof (ab_buf _ _ _ A) as Lb.
  unfold XXH3_digest_long, XXH_STRIPE_LEN. cbv zeta. set (b := bufferedSize st) in *.
  assert (Hlim : secretLimit st - XXH_SECRET_LASTACC_START = size - 64 - 7) by by rewrite (ab_limit _ _ _ A).
  rewrite Hlim. assert (Hb64 : 0 < b -> (64 * c < length msg)%nat) by lia.
  destruct (Z.geb_spec b 64) as [Hge|Hlt].
  - assert (Hd : holds (start (buffer st)) (drop (64 * c) msg)).
    { rewrite <- (ab_bytes _ _ _ A). apply holds_take, holds_start. }
    assert (Ld : length (drop (64 * c) msg) = Z.to_nat b) by (rewrite length_drop; lia).
    set (n := Z.to_nat ((b - 1) / 64)). assert (Hn : (64 * n <= Z.to_nat b)%nat /\ (b - 1) / 64 = Z.of_nat n) by (subst n; zdiv_lia).
    destruct Hn as [Hn ->]. rewrite (ab_per _ _ _ A), (ab_limit _ _ _ A).
    rewrite (consumeStripes_value (acc st) _ _ (nbStripesSoFar st) n (drop (64 * c) msg)), bind_done
      by (first [done|apply A|by apply Forall_drop|lia|pow2_norm; subst n; zdiv_lia]).
    destruct (absorb ks n (acc st, nbStripesSoFar st) (drop (64 * c) msg)) as [acc1 i1] eqn:E1. rewrite bind_done.
    assert (Eall : absorb ks (c + n) (XXH3_INIT_ACC, 0) msg = (acc1, i1)) by by rewrite absorb_add, (ab_acc _ _ _ A).
    rewrite (last_stripe_value ks Hk Hsize acc1 _ _ (Z.of_nat (length msg - 64)) msg);
      [|by eapply absorbed_acc|done| |apply A|lia|lia].
    + f_equal. rewrite Nat2Z.id. fold size. eapply long_acc_eq; [exact Eall| |done]. subst n. zdiv_lia.
    + rewrite Nat2Z.id. replace (length msg - 64)%nat with (64 * c + Z.to_nat (b - 64))%nat by lia.
      rewrite <- drop_drop. apply holds_drop; [lia|done].
  - assert (Hc : (0 < c)%nat) by lia. pose proof (ab_some _ _ _ A Hc) as Hpos. fold b in Hpos.
    rewrite (proj2 (Z.gtb_lt b 0)) by lia. cbn [XXH_ASSERT]. rewrite bind_done.
    destruct (last_stripe_held c msg st A Hc Hlt) as (one & two & E1 & E2 & E3). fold b in E1, E2. rewrite E1, bind_done.
    rewrite E2, !bind_done.
    rewrite (last_stripe_value ks Hk Hsize (acc st) _ _ (Z.of_nat (length msg - 64)) msg);
      [|exact Ha|done| |apply A|lia|lia].
    + f_equal. rewrite Nat2Z.id. fold size. eapply long_acc_eq; [apply A| |done]. zdiv_lia.
    + rewrite Nat2Z.id, <- E3. apply holds_start.
Qed.

End Streaming.

(** ** The four modes *)

Inductive mode :=
| Default
| WithSecret (secret : pointer) (secretSize : Z)
| WithSeed (sd : Z)
| WithSecretandSeed (secret : pointer) (secretSize sd : Z).

Section Modes.
Context {K : Kernel}.

Definition reset_in (m : mode) (st : option XXH3_state_t) : outcome (option XXH3_state_t * XXH_errorcode) :=
  match m with
  | Default => XXH3_64bits_reset st
  | WithSecret s size => XXH3_64bits_reset_withSecret st (Some s) size
  | WithSeed sd => XXH3_64bits_reset_withSeed st sd
  | WithSecretandSeed s size sd => XXH3_64bits_reset_withSecretandSeed st (Some s) size sd
  end.
Definition oneshot64_in (m : mode) (p : pointer) (len : Z) : outcome Z :=
  match m with
  | Default => XXH3_64bits p len
  | WithSecret s size => XXH3_64bits_withSecret p len s size
  | WithSeed sd => XXH3_64bits_withSeed p len sd
  | WithSecretandSeed s size sd => XXH3_64bits_withSecretandSeed p len s size sd
  end.
Definition oneshot128_in (m : mode) (p : pointer) (len : Z) : outcome XXH128_hash_t :=
  match m with
  | Default => XXH3_128bits p len
  | WithSecret s size => XXH3_128bits_withSecret p len s size
  | WithSeed sd => XXH3_128bits_withSeed p len sd
  | WithSecretandSeed s size sd => XXH3_128bits_withSecretandSeed p len s size sd
  end.

(** The secret that is used on long inputs, where its bytes have to be. *)
Definition secret_in (m : mode) (ks : list Z) : Prop :=
  match m with
  | Default => ks = XXH3_kSecret
  | WithSeed sd => lane64 sd /\ ks = if sd =? 0 then XXH3_kSecret else custom_secret sd
  | WithSecret s size => holds s ks /\ Forall byte_range ks /\ size = Z.of_nat (length ks) /\ 136 <= size < 2 ^ 60
  | WithSecretandSeed s size sd =>
      lane64 sd /\ holds s ks /\ Forall byte_range ks /\ size = Z.of_nat (length ks) /\ 136 <= size < 2 ^ 60
  end.

(** A state whose secret, if it has one of its own, is that of its seed: what
    [XXH3_INITSTATE] establishes and every reset needs and keeps. *)
Record reusable (st : XXH3_state_t) : Prop := {
  re_buffer : length (buffer st) = 256%nat;
  re_secret : length (customSecret st) = 192%nat;
  re_seed : extSecret st = None -> seed st <> 0 -> customSecret st = custom_secret (seed st);
}.

(** What a reset leaves in the fields that are not for the data. *)
Definition in_mode (m : mode) (st : XXH3_state_t) : Prop :=
  match m with
  | Default => useSeed st = 0 /\ seed st = 0 /\ extSecret st = Some (start XXH3_kSecret)
  | WithSecret s _ => useSeed st = 0 /\ seed st = 0 /\ extSecret st = Some s
  | WithSeed sd =>
      if sd =? 0 then useSeed st = 0 /\ seed st = 0 /\ extSecret st = Some (start XXH3_kSecret)
      else useSeed st = 1 /\ seed st = sd /\ extSecret st = None /\ customSecret st = custom_secret sd
  | WithSecretandSeed s _ sd => useSeed st = 1 /\ seed st = sd /\ extSecret st = Some s
  end.

Lemma initstate_reusable st :
  length (buffer st) = 256%nat -> length (customSecret st) = 192%nat -> reusable (XXH3_INITSTATE st).
Proof. intros. split; [done|done|]. by cbn. Qed.

Lemma secret_in_size m ks : secret_in m ks -> Forall byte_range ks /\ 136 <= Z.of_nat (length ks) < 2 ^ 60.
Proof.
  destruct m as [|s sz|sd|s sz sd]; cbn [secret_in].
  - intros ->. split; [apply kSecret_range|apply (size_default 0)].
  - intros (_ & H & -> & H'). done.
  - intros (_ & ->). destruct (sd =? 0); [split; [apply kSecret_range|apply (size_default 0)]|].
    split; [apply custom_secret_range|apply size_default].
  - intros (_ & _ & H & -> & H'). done.
Qed.

(** [XXH3_reset_internal] with a secret that is in place. *)
Lemma reset_internal_value st sd secret ks :
  length (buffer st) = 256%nat -> 136 <= Z.of_nat (length ks) < 2 ^ 60 ->
  holds (match secret with None => start (customSecret st) | Some p => p end) ks ->
  exists st', XXH3_reset_internal st sd secret (Z.of_nat (length ks)) = Done st'
    /\ absorbed ks 0 [] st' /\ buffer st' = buffer st /\ customSecret st' = customSecret st
    /\ useSeed st' = (if negb (sd =? 0) then 1 else 0) /\ seed st' = sd /\ extSecret st' = secret.
Proof.
  intros Lb Hsize Hs. unfold XXH3_reset_internal, XXH3_SECRET_SIZE_MIN, XXH_STRIPE_LEN.
  replace (Z.of_nat (length ks) >=? 136) with true by lia. cbn [XXH_ASSERT]. rewrite bind_done. cbv zeta.
  rewrite wrap_small by (pow2_norm; lia). eexists. split; [reflexivity|]. split; [|done].
  split; cbn [acc customSecret buffer bufferedSize useSeed nbStripesSoFar totalLen nbStripesPerBlock secretLimit seed extSecret];
    first [exact Lb|exact Hs|done|lia].
Qed.

End Modes.

Section Reset.
Context {K : Kernel} {L : Kernel_laws K}.

Lemma reset_absorbed m ks st :
  secret_in m ks -> reusable st ->
  exists st', reset_in m (Some st) = Done (Some st', XXH_OK) /\ absorbed ks 0 [] st' /\ in_mode m st' /\ reusable st'.
Proof.
  intros Hm R. destruct (secret_in_size m ks Hm) as [Hk Hsize]. pose proof (re_buffer _ R). pose proof (re_secret _ R).
  assert (Hd : exists st', XXH3_64bits_reset (Some st) = Done (Some st', XXH_OK) /\ absorbed XXH3_kSecret 0 [] st'
      /\ in_mode Default st' /\ reusable st').
  { cbn [XXH3_64bits_reset]. rewrite <- kSecret_size.
    destruct (reset_internal_value st 0 (Some (start XXH3_kSecret)) XXH3_kSecret)
      as (st' & -> & A & Eb & Ec & Eu & Es & Ee); [done|apply (size_default 0)|apply holds_start|].
    exists st'. rewrite bind_done. split_and!; [done..|]. split; [congruence|congruence|]. by rewrite Ee. }
  destruct m as [|s sz|sd|s sz sd]; cbn [secret_in reset_in in_mode] in *.
  - by rewrite Hm.
  - destruct Hm as (Hs & _ & -> & _). cbn [XXH3_64bits_reset_withSecret].
    destruct (reset_internal_value st 0 (Some s) ks) as (st' & -> & A & Eb & Ec & Eu & Es & Ee); [done..|].
    exists st'. rewrite bind_done. unfold XXH3_SECRET_SIZE_MIN. rewrite (proj2 (Z.ltb_ge _ _)) by lia.
    split_and!; [done..|]. split; [congruence|congruence|]. by rewrite Ee.
  - destruct Hm as [Hsd ->]. unfold XXH3_64bits_reset_withSeed. destruct (Z.eqb_spec sd 0) as [->|N]; [done|].
    assert (Hc : exists st1, (if negb (sd =? seed st) || bool_decide (extSecret st <> None)
        then secret ← XXH3_initCustomSecret (customSecret st) sd; Done (set_customSecret st secret) else Done st) = Done st1
        /\ customSecret st1 = custom_secret sd /\ buffer st1 = buffer st).
    { destruct (negb (sd =? seed st) || bool_decide (extSecret st <> None)) eqn:E.
      - rewrite initCustomSecret_law, bind_done by done. eauto.
      - apply orb_false_elim in E as [E1 E2]. apply bool_decide_eq_false in E2. apply negb_false_iff, Z.eqb_eq in E1.
        exists st. split; [done|]. split; [|done]. subst sd. apply R; [|done]. by destruct (extSecret st); [destruct E2|]. }
    destruct Hc as (st1 & -> & Ec1 & Eb1). rewrite bind_done.
    change XXH_SECRET_DEFAULT_SIZE with (Z.of_nat 192). rewrite <- (length_custom_secret sd).
    destruct (reset_internal_value st1 sd None (custom_secret sd)) as (st' & -> & A & Eb & Ec & Eu & Es & Ee).
    { congruence. }
    { by rewrite length_custom_secret. }
    { rewrite Ec1. apply holds_start. }
    exists st'. rewrite bind_done. rewrite (proj2 (Z.eqb_neq _ _) N) in Eu. split_and!; [done..|congruence|].
    split; [congruence|by rewrite Ec, Ec1, length_custom_secret|]. intros _ _. congruence.
  - destruct Hm as (Hsd & Hs & _ & -> & _). unfold XXH3_64bits_reset_withSecretandSeed, XXH3_SECRET_SIZE_MIN.
    rewrite (proj2 (Z.ltb_ge _ _)) by lia.
    destruct (reset_internal_value st sd (Some s) ks) as (st' & -> & A & Eb & Ec & Eu & Es & Ee); [done..|].
    rewrite bind_done. eexists. split; [reflexivity|]. split; [|split; [done|split; cbn; [congruence|congruence|by rewrite Ee]]].
    split; cbn [acc customSecret buffer bufferedSize useSeed nbStripesSoFar totalLen nbStripesPerBlock secretLimit seed extSecret];
      apply A.
Qed.

(** ** The digests of a state *)

Section Digests.
Context (m : mode) (ks : list Z) (Hm : secret_in m ks).
Context (msg : list Z) (Hb : Forall byte_range msg) (Hlen : Z.of_nat (length msg) < 2 ^ 64).
Context (q : pointer) (Hq : holds q msg).
Let len := Z.of_nat (length msg).

(** Short inputs do not use the function for long ones. *)
Lemma short_64 p s kb sd f g :
  len <= 240 -> holds p msg -> holds s kb -> Forall byte_range kb -> 136 <= Z.of_nat (length kb) < 2 ^ 60 ->
  XXH3_64bits_internal p len sd s (Z.of_nat (length kb)) f = XXH3_64bits_internal q len sd s (Z.of_nat (length kb)) g.
Proof.
  intros Hl Hp Hs Hkb Hsz.
  assert (E : forall p, XXH3_64bits_internal p len sd s (Z.of_nat (length kb)) f = XXH3_64bits_internal p len sd s (Z.of_nat (length kb)) g).
  { intros p'. unfold XXH3_64bits_internal. rewrite (proj2 (Z.leb_le len XXH3_MIDSIZE_MAX)) by done. done. }
  rewrite <- E. destruct (hash64_everywhere msg kb Hb Hkb Hsz sd (fun _ => f)) as (h & _ & G); [fold len; lia|].
  by rewrite !(G K L).
Qed.

Lemma short_128 p s kb sd f g :
  len <= 240 -> holds p msg -> holds s kb -> Forall byte_range kb -> 136 <= Z.of_nat (length kb) < 2 ^ 60 ->
  XXH3_128bits_internal p len sd s (Z.of_nat (length kb)) f = XXH3_128bits_internal q len sd s (Z.of_nat (length kb)) g.
Proof.
  intros Hl Hp Hs Hkb Hsz.
  assert (E : forall p, XXH3_128bits_internal p len sd s (Z.of_nat (length kb)) f = XXH3_128bits_internal p len sd s (Z.of_nat (length kb)) g).
  { intros p'. unfold XXH3_128bits_internal. rewrite (proj2 (Z.leb_le len XXH3_MIDSIZE_MAX)) by done. done. }
  rewrite <- E. destruct (hash128_everywhere msg kb Hb Hkb Hsz sd (fun _ => f)) as (h & _ & G); [fold len; lia|].
  by rewrite !(G K L).
Qed.

(** Long inputs: the accumulators of the message, merged with the secret. *)
Definition merged64 (s : pointer) : outcome Z :=
  XXH3_mergeAccs (long_acc ks msg) (s +! XXH_SECRET_MERGEACCS_START) (u64 (len * XXH_PRIME64_1)).
Definition merged128 (s : pointer) : outcome XXH128_hash_t :=
  low ← merged64 s;
  high ← XXH3_mergeAccs (long_acc ks msg) (s +! (Z.of_nat (length ks) - 64 - XXH_SECRET_MERGEACCS_START))
           (u64 (Z.lnot (u64 (len * XXH_PRIME64_2))));
  Done (XXH128Hash low high).

Lemma hashLong_64b_value s :
  240 < len -> holds s ks ->
  XXH3_hashLong_64b_internal q len s (Z.of_nat (length ks)) XXH3_accumulate XXH3_scrambleAcc = merged64 s.
Proof.
  intros Hl Hs. destruct (secret_in_size m ks Hm) as [Hk Hsize]. unfold XXH3_hashLong_64b_internal.
  rewrite (hashLong_loop_value ks Hk Hsize q s msg), bind_done by (first [done|fold len; lia]). by passes.
Qed.

Lemma hashLong_128b_value s :
  240 < len -> holds s ks ->
  XXH3_hashLong_128b_internal q len s (Z.of_nat (length ks)) XXH3_accumulate XXH3_scrambleAcc = merged128 s.
Proof.
  intros Hl Hs. destruct (secret_in_size m ks Hm) as [Hk Hsize]. unfold XXH3_hashLong_128b_internal.
  rewrite (hashLong_loop_value ks Hk Hsize q s msg), bind_done by (first [done|fold len; lia]). by passes.
Qed.

Lemma internal_long_64 sd s size f :
  240 < len -> 136 <= size -> XXH3_64bits_internal q len sd s size f = f q len sd s size.
Proof.
  intros Hl Hs. unfold XXH3_64bits_internal, XXH3_MIDSIZE_MAX. passes.
  by rewrite (proj2 (Z.leb_gt len 16)), (proj2 (Z.leb_gt len 128)), (proj2 (Z.leb_gt len 240)) by lia.
Qed.

Lemma internal_long_128 sd s size f :
  240 < len -> 136 <= size -> XXH3_128bits_internal q len sd s size f = f q len sd s size.
Proof.
  intros Hl Hs. unfold XXH3_128bits_internal, XXH3_MIDSIZE_MAX. passes.
  by rewrite (proj2 (Z.leb_gt len 16)), (proj2 (Z.leb_gt len 128)), (proj2 (Z.leb_gt len 240)) by lia.
Qed.

(** The secret of a state in a mode, and its bytes. *)
Lemma mode_secret st :
  in_mode m st ->
  match m with
  | Default => secret_of st = start XXH3_kSecret
  | WithSecret s _ | WithSecretandSeed s _ _ => secret_of st = s
  | WithSeed sd => secret_of st = start (if sd =? 0 then XXH3_kSecret else custom_secret sd)
  end /\ holds (secret_of st) ks.
Proof.
  unfold secret_of. destruct m as [|s sz|sd|s sz sd]; cbn [in_mode secret_in] in *.
  - intros (_ & _ & ->). subst ks. split; [done|apply holds_start].
  - intros (_ & _ & ->). split; [done|apply Hm].
  - destruct Hm as [_ ->]. destruct (sd =? 0).
    + intros (_ & _ & ->). split; [done|apply holds_start].
    + intros (_ & _ & -> & ->). split; [done|apply holds_start].
  - intros (_ & _ & ->). split; [done|apply Hm].
Qed.

Lemma oneshot64_long st : 240 < len -> in_mode m st -> oneshot64_in m q len = merged64 (secret_of st).
Proof.
  intros Hl Hst. destruct (mode_secret st Hst) as [Es Hs]. destruct (secret_in_size m ks Hm) as [Hk Hsize].
  rewrite <- (hashLong_64b_value _ Hl Hs).
  destruct m as [|s sz|sd|s sz sd]; cbn [oneshot64_in secret_in] in *; rewrite Es.
  - subst ks. unfold XXH3_64bits. by rewrite internal_long_64 by done.
  - destruct Hm as (_ & _ & -> & _). unfold XXH3_64bits_withSecret. by rewrite internal_long_64 by (done || lia).
  - destruct Hm as [Hsd Eks]. unfold XXH3_64bits_withSeed. rewrite internal_long_64 by done.
    unfold XXH3_hashLong_64b_withSeed, XXH3_hashLong_64b_withSeed_internal. rewrite Eks.
    destruct (sd =? 0); [done|]. by rewrite initCustomSecret_law, bind_done, length_custom_secret by done.
  - destruct Hm as (_ & _ & _ & -> & _). unfold XXH3_64bits_withSecretandSeed.
    by rewrite (proj2 (Z.leb_gt len XXH3_MIDSIZE_MAX)) by done.
Qed.

Lemma oneshot128_long st : 240 < len -> in_mode m st -> oneshot128_in m q len = merged128 (secret_of st).
Proof.
  intros Hl Hst. destruct (mode_secret st Hst) as [Es Hs]. destruct (secret_in_size m ks Hm) as [Hk Hsize].
  rewrite <- (hashLong_128b_value _ Hl Hs).
  destruct m as [|s sz|sd|s sz sd]; cbn [oneshot128_in secret_in] in *; rewrite Es.
  - subst ks. unfold XXH3_128bits. by rewrite internal_long_128 by done.
  - destruct Hm as (_ & _ & -> & _). unfold XXH3_128bits_withSecret. by rewrite internal_long_128 by (done || lia).
  - destruct Hm as [Hsd Eks]. unfold XXH3_128bits_withSeed. rewrite internal_long_128 by done.
    unfold XXH3_hashLong_128b_withSeed, XXH3_hashLong_128b_withSeed_internal. rewrite Eks.
    destruct (sd =? 0); [done|]. by rewrite initCustomSecret_law, bind_done, length_custom_secret by done.
  - destruct Hm as (_ & _ & _ & -> & _). unfold XXH3_128bits_withSecretandSeed.
    by rewrite (proj2 (Z.leb_gt len XXH3_MIDSIZE_MAX)) by done.
Qed.

(** A short message is in the buffer as a whole. *)
Lemma short_held c st : absorbed ks c msg st -> len <= 240 -> holds (start (buffer st)) msg.
Proof.
  intros A Hl. destruct (secret_in_size m ks Hm) as [Hk Hsize].
  pose proof (ab_size _ _ _ _ A) as Sz. pose proof (ab_range _ _ _ _ A). pose proof (ab_four _ _ _ _ A). subst len.
  assert (c = 0)%nat as -> by lia. pose proof (ab_bytes _ _ _ _ A) as Tb. rewrite Nat.mul_0_r, drop_0 in Tb.
  rewrite <- Tb. apply holds_take, holds_start.
Qed.

(** The 64-bit digest of a state is the one-shot hash of its message. *)
Lemma digest64_value c st : absorbed ks c msg st -> in_mode m st -> XXH3_64bits_digest st = oneshot64_in m q len.
Proof.
  intros A Hst. destruct (mode_secret st Hst) as [Es Hs]. destruct (secret_in_size m ks Hm) as [Hk Hsize].
  unfold XXH3_64bits_digest. rewrite (ab_total _ _ _ _ A), (ab_limit _ _ _ _ A). fold len. unfold XXH3_MIDSIZE_MAX, XXH_STRIPE_LEN.
  replace (Z.of_nat (length ks) - 64 + 64) with (Z.of_nat (length ks)) by lia. rewrite (wrap_small 64 (Z.of_nat (length ks))) by (pow2_norm; lia).
  destruct (Z.gtb_spec len 240) as [Hl|Hl].
  - rewrite (digest_long_value ks Hk Hsize c msg st A Hb ltac:(lia)), bind_done. by rewrite (oneshot64_long st).
  - pose proof (short_held c st A Hl) as Hp. pose proof (size_default 0) as [H0 _]. pose proof kSecret_range as Hr.
    destruct m as [|s sz|sd|s sz sd]; cbn [in_mode oneshot64_in secret_in] in *.
    + destruct Hst as (-> & _ & _). rewrite Es, Hm. by apply short_64; auto using holds_start.
    + destruct Hst as (-> & _ & _). destruct Hm as (Hks & _ & -> & _). rewrite Es. by apply short_64.
    + destruct Hm as [Hsd Hks]. destruct (Z.eqb_spec sd 0) as [->|N].
      * destruct Hst as (-> & _ & _). rewrite Es, Hks. by apply short_64; auto using holds_start.
      * destruct Hst as (-> & -> & _). by apply (short_64 _ _ XXH3_kSecret); auto using holds_start.
    + destruct Hst as (-> & -> & _). unfold XXH3_64bits_withSecretandSeed.
      rewrite (proj2 (Z.leb_le len XXH3_MIDSIZE_MAX)) by done. by apply (short_64 _ _ XXH3_kSecret); auto using holds_start.
Qed.

(** With 128 bits the seed is looked at, not [useSeed]. *)
Lemma digest128_value c st :
  absorbed ks c msg st -> in_mode m st -> (240 < len \/ forall s sz, m <> WithSecretandSeed s sz 0) ->
  XXH3_128bits_digest st = oneshot128_in m q len.
Proof.
  intros A Hst Hz. destruct (mode_secret st Hst) as [Es Hs]. destruct (secret_in_size m ks Hm) as [Hk Hsize].
  unfold XXH3_128bits_digest. rewrite (ab_total _ _ _ _ A), (ab_limit _ _ _ _ A). fold len. unfold XXH3_MIDSIZE_MAX, XXH_STRIPE_LEN.
  replace (Z.of_nat (length ks) - 64 + 64) with (Z.of_nat (length ks)) by lia. rewrite (wrap_small 64 (Z.of_nat (length ks))) by (pow2_norm; lia).
  destruct (Z.gtb_spec len 240) as [Hl|Hl].
  - rewrite (digest_long_value ks Hk Hsize c msg st A Hb ltac:(lia)), bind_done. passes. by rewrite (oneshot128_long st).
  - pose proof (short_held c st A Hl) as Hp. pose proof (size_default 0) as [H0 _]. pose proof kSecret_range as Hr.
    destruct m as [|s sz|sd|s sz sd]; cbn [in_mode oneshot128_in secret_in] in *.
    + destruct Hst as (_ & -> & _). rewrite Es, Hm. by apply short_128; auto using holds_start.
    + destruct Hst as (_ & -> & _). destruct Hm as (Hks & _ & -> & _). rewrite Es. by apply short_128.
    + destruct Hm as [Hsd Hks]. destruct (Z.eqb_spec sd 0) as [->|N].
      * destruct Hst as (_ & -> & _). rewrite Es, Hks. by apply short_128; auto using holds_start.
      * destruct Hst as (_ & -> & _). rewrite (proj2 (Z.eqb_neq _ _) N). by apply (short_128 _ _ XXH3_kSecret); auto using holds_start.
    + destruct Hst as (_ & -> & _). destruct Hz as [Hz|Hz]; [lia|].
      assert (N : sd <> 0) by (intros ->; by eapply Hz). rewrite (proj2 (Z.eqb_neq _ _) N).
      unfold XXH3_128bits_withSecretandSeed.
      rewrite (proj2 (Z.leb_le len XXH3_MIDSIZE_MAX)) by done. by apply (short_128 _ _ XXH3_kSecret); auto using holds_start.
Qed.

(** The one-shot hash is defined. *)
Lemma everywhere_here {A} kb (Q : A -> Prop) (f : Kernel -> pointer -> pointer -> outcome A) s :
  everywhere msg kb Q f -> holds s kb -> exists h, Q h /\ f K q s = Done h.
Proof. intros (h & Hh & E) Hs. eauto. Qed.

Lemma oneshot64_defined : exists h, lane64 h /\ oneshot64_in m q len = Done h.
Proof.
  pose proof (size_default 0) as [H0 _]. pose proof kSecret_range as Hr. pose proof (holds_start XXH3_kSecret) as Hst.
  destruct m as [|s sz|sd|s sz sd]; cbn [oneshot64_in secret_in] in *.
  - apply (everywhere_here XXH3_kSecret lane64 (fun K p _ => XXH3_64bits p len) (start XXH3_kSecret)); [by apply bits64_total|exact Hst].
  - destruct Hm as (Hks & Hk & -> & Hsz).
    apply (everywhere_here ks lane64 (fun K p s => XXH3_64bits_withSecret p len s _)); [by apply bits64_withSecret_total|exact Hks].
  - destruct Hm as [Hsd _].
    apply (everywhere_here XXH3_kSecret lane64 (fun K p _ => XXH3_64bits_withSeed p len sd) (start XXH3_kSecret)); [by apply bits64_withSeed_total|exact Hst].
  - destruct Hm as (Hsd & Hks & Hk & -> & Hsz).
    apply (everywhere_here ks lane64 (fun K p s => XXH3_64bits_withSecretandSeed p len s _ sd));
      [by apply bits64_withSecretandSeed_total|exact Hks].
Qed.

Lemma oneshot128_defined : exists h, hash128 h /\ oneshot128_in m q len = Done h.
Proof.
  pose proof (size_default 0) as [H0 _]. pose proof kSecret_range as Hr. pose proof (holds_start XXH3_kSecret) as Hst.
  destruct m as [|s sz|sd|s sz sd]; cbn [oneshot128_in secret_in] in *.
  - apply (everywhere_here XXH3_kSecret hash128 (fun K p _ => XXH3_128bits p len) (start XXH3_kSecret)); [by apply bits128_total|exact Hst].
  - destruct Hm as (Hks & Hk & -> & Hsz).
    apply (everywhere_here ks hash128 (fun K p s => XXH3_128bits_withSecret p len s _)); [by apply bits128_withSecret_total|exact Hks].
  - destruct Hm as [Hsd _].
    apply (everywhere_here XXH3_kSecret hash128 (fun K p _ => XXH3_128bits_withSeed p len sd) (start XXH3_kSecret)); [by apply bits128_withSeed_total|exact Hst].
  - destruct Hm as (Hsd & Hks & Hk & -> & Hsz).
    apply (everywhere_here ks hash128 (fun K p s => XXH3_128bits_withSecretandSeed p len s _ sd));
      [by apply bits128_withSecretandSeed_total|exact Hks].
Qed.

End Digests.

(** ** A message in pieces *)

Fixpoint update_all (st : XXH3_state_t) (pieces : list (pointer * list Z)) : outcome XXH3_state_t :=
  match pieces with
  | [] => Done st
  | (p, bs) :: pieces => '(st, _) ← XXH3_64bits_update st (Some p) (Z.of_nat (length bs)); update_all st pieces
  end.
Definition message (pieces : list (pointer * list Z)) : list Z := concat (map snd pieces).
Definition in_memory (piece : pointer * list Z) : Prop := holds (fst piece) (snd piece) /\ Forall byte_range (snd piece).

Lemma same_mode_in m st st' : same_mode st st' -> in_mode m st -> in_mode m st'.
Proof.
  intros (E1 & E2 & E3 & E4). destruct m as [|s sz|sd|s sz sd]; cbn [in_mode]; rewrite ?E1, ?E2, ?E3, ?E4; auto.
Qed.

Lemma same_mode_reusable ks c msg st st' : same_mode st st' -> absorbed ks c msg st' -> reusable st -> reusable st'.
Proof.
  intros (E1 & E2 & E3 & E4) A R. split; [apply A|by rewrite E1; apply R|].
  rewrite E1, E3, E4. apply R.
Qed.

Lemma update_all_absorbed ks m pieces c msg st :
  Forall byte_range ks -> 136 <= Z.of_nat (length ks) < 2 ^ 60 ->
  absorbed ks c msg st -> in_mode m st -> reusable st -> Forall byte_range msg -> Forall in_memory pieces ->
  Z.of_nat (length (msg ++ message pieces)) < 2 ^ 64 ->
  exists c' st', update_all st pieces = Done st' /\ absorbed ks c' (msg ++ message pieces) st' /\ in_mode m st' /\ reusable st'.
Proof.
  intros Hk Hsize A Hm R Hb Hp. revert c msg st A Hm R Hb.
  induction Hp as [|[p bs] pieces [Hp Hbs] _ IH]; intros c msg st A Hm R Hb Hlen; cbn [update_all message map concat].
  - exists c, st. by rewrite app_nil_r.
  - cbn [fst snd] in *. change (message ((p, bs) :: pieces)) with (bs ++ message pieces) in *. rewrite app_assoc in *.
    destruct (update_absorbed ks Hk Hsize c msg st p bs A Hb Hbs Hp) as (c1 & st1 & -> & A1 & S1).
    { rewrite length_app in Hlen. lia. }
    rewrite bind_done. apply (IH c1); [done|by eapply same_mode_in|by eapply same_mode_reusable|by apply Forall_app|done].
Qed.

(** C5: Streaming XXH3 is XXH3.  A state that was initialised, used before or not, is
    reset in one of four ways: with no secret, a secret, a seed or both.  A message is
    then fed to it in any pieces, anywhere in memory.  All calls succeed, and the
    digest of 64 bits is the one-shot hash of the whole message; so is that of 128
    bits, except of short messages with a secret and the seed 0.  The state can be
    reset again.  This holds for every kernel that keeps the laws. *)
Theorem xxh3_streaming m ks st0 pieces (q : pointer) :
  secret_in m ks -> reusable st0 -> Forall in_memory pieces -> Z.of_nat (length (message pieces)) < 2 ^ 64 ->
  holds q (message pieces) ->
  let len := Z.of_nat (length (message pieces)) in
  exists st1 st, reset_in m (Some st0) = Done (Some st1, XXH_OK) /\ update_all st1 pieces = Done st /\ reusable st
    /\ (exists h, lane64 h /\ XXH3_64bits_digest st = Done h /\ oneshot64_in m q len = Done h)
    /\ (240 < len \/ (forall s size, m <> WithSecretandSeed s size 0) ->
        exists h, hash128 h /\ XXH3_128bits_digest st = Done h /\ oneshot128_in m q len = Done h).
Proof.
  intros Hm R Hp Hlen Hq len. destruct (secret_in_size m ks Hm) as [Hk Hsize].
  destruct (reset_absorbed m ks st0 Hm R) as (st1 & E1 & A1 & M1 & R1).
  destruct (update_all_absorbed ks m pieces 0 [] st1) as (c & st & E & A & M & Rs); [done..|].
  assert (Hb : Forall byte_range (message pieces)).
  { clear - Hp. induction Hp as [|[p bs] pieces [_ H] _ IH]; [constructor|]. by apply Forall_app. }
  exists st1, st. split_and!; [done..| |].
  - destruct (oneshot64_defined m ks Hm (message pieces) Hb Hlen q Hq) as (h & Hh & Eh).
    exists h. split_and!; [done| |done]. by rewrite (digest64_value m ks Hm (message pieces) Hb Hlen q Hq c st A M).
  - intros Hz. destruct (oneshot128_defined m ks Hm (message pieces) Hb Hlen q Hq) as (h & Hh & Eh).
    exists h. split_and!; [done| |done]. by rewrite (digest128_value m ks Hm (message pieces) Hb Hlen q Hq c st A M Hz).
Qed.

End Reset.

(** A state as [malloc] may have left it. *)
Definition some_state : XXH3_state_t :=
  XXH3State [] (replicate 192 170) (replicate 256 187) 9 8 7 6 5 4 3 (Some (start [])).

Definition some_pieces : list (pointer * list Z) :=
  [(start (replicate 100 3), replicate 100 3); (start (replicate 500 4) +! 20, replicate 300 4); (start [5], [5])].

Lemma some_pieces_in_memory : Forall in_memory some_pieces.
Proof.
  assert (R : forall n b, byte_range b -> in_memory (start (replicate n b), replicate n b)).
  { intros n b Hb. split; [apply holds_start|by apply Forall_replicate]. }
  apply Forall_cons. split; [apply (R 100%nat 3); unfold byte_range; lia|]. apply Forall_cons. split.
  - split; [|by apply Forall_replicate]. apply (holds_app_l (start (replicate 500 4) +! 20) (replicate 300 4) (replicate 180 4)).
    change (replicate 300 4 ++ replicate 180 4) with (drop (Z.to_nat 20) (replicate 500 4)).
    apply holds_drop; [rewrite length_replicate; lia|apply holds_start].
  - apply Forall_cons. split; [apply (R 1%nat 5); unfold byte_range; lia|constructor].
Qed.

Lemma xxh3_streaming_witness :
  exists st1 st h, @reset_in scalar_kernel (WithSeed 7) (Some (XXH3_INITSTATE some_state)) = Done (Some st1, XXH_OK)
    /\ @update_all scalar_kernel st1 some_pieces = Done st
    /\ @XXH3_64bits_digest scalar_kernel st = Done h
    /\ @oneshot64_in scalar_kernel (WithSeed 7) (start (message some_pieces)) (Z.of_nat (length (message some_pieces))) = Done h.
Proof.
  destruct (@xxh3_streaming scalar_kernel scalar_kernel_laws (WithSeed 7) (custom_secret 7) (XXH3_INITSTATE some_state) some_pieces
    (start (message some_pieces))) as (st1 & st & E1 & E & _ & (h & _ & D & O) & _).
  - split; [split; vm_compute; congruence|reflexivity].
  - by apply initstate_reusable.
  - apply some_pieces_in_memory.
  - by vm_compute.
  - apply holds_start.
  - exists st1, st, h. split; [exact E1|]. split; [exact E|]. split; [exact D|exact O].
Defined.

(** Where the 128-bit digest goes wrong.  A state that is reset with a secret and the
    seed 0, as [XXH3_128bits_reset_withSecretandSeed] allows, digests a short message
    with the secret, since it looks at [seed] where the 64-bit digest looks at
    [useSeed]; the one-shot function uses the default secret, and so does the 64-bit
    digest. *)
Theorem xxh3_128_seed_zero_differs :
  let secret := rev XXH3_kSecret in
  let st := XXH3_INITSTATE some_state in
  exists st1 st2, @XXH3_128bits_reset_withSecretandSeed (Some st) (Some (start secret)) 192 0 = Done (Some st1, XXH_OK)
    /\ @XXH3_128bits_update scalar_kernel st1 (Some (start [1; 2; 3])) 3 = Done (st2, XXH_OK)
    /\ (exists h, @XXH3_64bits_digest scalar_kernel st2 = Done h
          /\ @XXH3_64bits_withSecretandSeed scalar_kernel (start [1; 2; 3]) 3 (start secret) 192 0 = Done h)
    /\ exists h h', @XXH3_128bits_digest scalar_kernel st2 = Done h
         /\ @XXH3_128bits_withSecretandSeed scalar_kernel (start [1; 2; 3]) 3 (start secret) 192 0 = Done h' /\ h <> h'.
Proof.
  cbv zeta. do 2 eexists. split; [vm_compute; reflexivity|]. split; [vm_compute; reflexivity|]. split.
  - eexists. split; vm_compute; reflexivity.
  - do 2 eexists. split; [vm_compute; reflexivity|]. split; [vm_compute; reflexivity|]. congruence.
Qed.

(** What the interface does with arguments that are not allowed.  A null state is an
    error in every reset.  A secret that is null is an error, reported after the state
    has been changed in one function and before that in the other.  A secret that is
    too short is an error for [XXH3_64bits_reset_withSecretandSeed]; but in
    [XXH3_64bits_reset_withSecret] the assertion of [XXH3_reset_internal] comes before
    the test that would report it, and is an assumption of the compiler there: the
    behaviour is undefined. *)
Theorem xxh3_reset_errors {K : Kernel} st s size sd :
  XXH3_64bits_reset None = Done (None, XXH_ERROR)
  /\ XXH3_64bits_reset_withSecret None s size = Done (None, XXH_ERROR)
  /\ XXH3_64bits_reset_withSeed None sd = Done (None, XXH_ERROR)
  /\ XXH3_64bits_reset_withSecretandSeed None s size sd = Done (None, XXH_ERROR)
  /\ XXH3_64bits_reset_withSecretandSeed (Some st) None size sd = Done (Some st, XXH_ERROR)
  /\ (136 <= size -> exists st', XXH3_64bits_reset_withSecret (Some st) None size = Done (Some st', XXH_ERROR) /\ totalLen st' = 0)
  /\ (size < 136 -> XXH3_64bits_reset_withSecretandSeed (Some st) s size sd = Done (Some st, XXH_ERROR)
        /\ XXH3_64bits_reset_withSecret (Some st) s size = Faults).
Proof.
  split_and!; try done.
  - intros Hs. unfold XXH3_64bits_reset_withSecret, XXH3_reset_internal, XXH3_SECRET_SIZE_MIN.
    replace (size >=? 136) with true by lia. cbn [XXH_ASSERT]. rewrite !bind_done. eauto.
  - intros Hs. unfold XXH3_64bits_reset_withSecretandSeed, XXH3_64bits_reset_withSecret, XXH3_reset_internal, XXH3_SECRET_SIZE_MIN.
    replace (size <? 136) with true by lia. replace (size >=? 136) with false by lia. split; [by destruct s|done].
Qed.

Lemma xxh3_reset_errors_witness :
  @XXH3_64bits_reset_withSecret (Some some_state) (Some (start [])) 0 = Faults
  /\ @XXH3_64bits_reset_withSecretandSeed (Some some_state) (Some (start [])) 0 5 = Done (Some some_state, XXH_ERROR).
Proof.
  destruct (@xxh3_reset_errors scalar_kernel some_state (Some (start [])) 0 5) as (_ & _ & _ & _ & _ & _ & G).
  destruct (G ltac:(lia)) as [G1 G2]. by split.
Defined.
