(* ===== verification/Xxh3Secret.v ===== *)
(** * XXH3: secrets and states ([core/native/hashing/xxhash.h])

    What [XXH3_generateSecret] makes of a seed of any length, and the memory of the
    streaming states. *)
From S2P Require Import Prelude Xxhash Xxh3 Xxh3Theorems Xxh3Long Xxh3LongTheorems Xxh3Stream Xxh3StreamTheorems.

(** ** The states of XXH32 and XXH64 *)

(** [sizeof(XXH32_state_t)] and [sizeof(XXH64_state_t)] *)
Definition sizeof_XXH32_state_t : Z := 48.
Definition sizeof_XXH64_state_t : Z := 88.

(** [malloc] gives an address or null; the freed address is the first part of the
    result. *)
Definition XXH32_createState (malloc : Z -> Z) : Z := malloc sizeof_XXH32_state_t.
Definition XXH64_createState (malloc : Z -> Z) : Z := malloc sizeof_XXH64_state_t.
Definition XXH32_freeState (statePtr : Z) : Z * XXH_errorcode := (statePtr, XXH_OK).
Definition XXH64_freeState (statePtr : Z) : Z * XXH_errorcode := (statePtr, XXH_OK).
Definition XXH32_copyState (dstState srcState : XXH32_state_s) : XXH32_state_s := srcState.
Definition XXH64_copyState (dstState srcState : XXH64_state_s) : XXH64_state_s := srcState.

(** ** Aligned memory *)

Lemma land_mask a k : 0 <= k -> Z.land a (2 ^ k - 1) = a mod 2 ^ k.
Proof. intros Hk. rewrite <- Z.land_ones by lia. by rewrite Z.ones_equiv, Z.sub_1_r. Qed.

Lemma aligned_address base k : 0 <= k -> (base + (2 ^ k - Z.land base (2 ^ k - 1))) mod 2 ^ k = 0.
Proof.
  intros Hk. rewrite land_mask by lia. assert (0 < 2 ^ k) by (apply Z.pow_pos_nonneg; lia).
  pose proof (Z.div_mod base (2 ^ k) ltac:(lia)) as D.
  replace (base + (2 ^ k - base mod 2 ^ k)) with ((base / 2 ^ k + 1) * 2 ^ k) by lia. apply Z.mod_mul. lia.
Qed.

Lemma alignedMalloc_done (malloc : Z -> Z) mem s k : 3 <= k <= 7 -> 0 < s -> s + 2 ^ k < 2 ^ 64 ->
  let base := malloc (s + 2 ^ k) in
  XXH_alignedMalloc malloc mem s (2 ^ k) =
    if base =? 0 then Done (0, mem)
    else let offset := 2 ^ k - base mod 2 ^ k in Done (base + offset, <[base + offset - 1 := offset]> mem).
Proof.
  intros Hk Hs Hsum base. unfold XXH_alignedMalloc.
  assert (P : 2 ^ 3 <= 2 ^ k <= 2 ^ 7) by (split; apply Z.pow_le_mono_r; lia). change (2 ^ 3) with 8 in P. change (2 ^ 7) with 128 in P.
  rewrite (wrap_small 64 (s + 2 ^ k)) by lia. fold base.
  assert (E : Z.land (2 ^ k) (2 ^ k - 1) = 0) by (rewrite land_mask by lia; apply Z.mod_same; lia). rewrite E.
  rewrite (proj2 (Z.leb_le _ _)), (proj2 (Z.geb_le _ _)), (proj2 (Z.eqb_neq s 0)), (proj2 (Z.ltb_lt s _)) by lia.
  cbn [andb negb XXH_ASSERT Z.eqb]. rewrite !bind_done. destruct (base =? 0); [done|]. cbv zeta.
  rewrite (aligned_address base k) by lia. cbn [XXH_ASSERT Z.eqb]. rewrite bind_done, land_mask by lia.
  pose proof (Z.mod_pos_bound base (2 ^ k) ltac:(lia)). rewrite wrap_small by (pow2_norm; lia). done.
Qed.

(** Aligned memory.  For a size and a power of two from 8 to 128 the pointer that is
    given is a multiple of it and lies in the block of [malloc] with all its bytes, at
    least one byte after its start; that byte says how far, so that freeing the pointer
    frees the block.  Null is given when [malloc] gives it.  A new XXH3 state is on a
    multiple of 64 and has neither a seed nor a secret. *)
Theorem xxh3_aligned_memory (malloc : Z -> Z) mem s k contents
    (Hk : 3 <= k <= 7) (Hs : 0 < s) (Hsum : s + 2 ^ k < 2 ^ 64) :
  let base := malloc (s + 2 ^ k) in
  (base = 0 -> XXH_alignedMalloc malloc mem s (2 ^ k) = Done (0, mem)) /\
  (0 < base -> exists p mem', XXH_alignedMalloc malloc mem s (2 ^ k) = Done (p, mem') /\
     p mod 2 ^ k = 0 /\ base < p /\ p + s <= base + (s + 2 ^ k) /\
     XXH_alignedFree mem' p = Done (Some base) /\
     (forall a, a < base \/ p <= a -> mem' !! a = mem !! a)) /\
  (malloc (sizeof_XXH3_state_t + 64) = 0 -> XXH3_createState malloc mem contents = Done (None, mem)) /\
  (0 < malloc (sizeof_XXH3_state_t + 64) -> exists p st mem', XXH3_createState malloc mem contents = Done (Some (p, st), mem') /\
     p mod 64 = 0 /\ seed st = 0 /\ extSecret st = None /\
     XXH3_freeState mem' p = Done (Some (malloc (sizeof_XXH3_state_t + 64)), XXH_OK)).
Proof.
  assert (Free : forall base k m, 3 <= k <= 7 -> 0 < base ->
    let p := base + (2 ^ k - base mod 2 ^ k) in
    0 <= base mod 2 ^ k < 2 ^ k /\ p mod 2 ^ k = 0 /\ XXH_alignedFree (<[p - 1 := 2 ^ k - base mod 2 ^ k]> m) p = Done (Some base)).
  { intros b j m Hj Hb p. assert (P : 0 < 2 ^ j) by (apply Z.pow_pos_nonneg; lia). pose proof (Z.mod_pos_bound b (2 ^ j) P). split_and!; [lia..| |].
    - unfold p. rewrite <- (land_mask b) by lia. apply aligned_address. lia.
    - unfold XXH_alignedFree. rewrite (proj2 (Z.eqb_neq p 0)) by (unfold p; lia). rewrite lookup_insert. cbn [demand].
      rewrite decide_True by done. cbn [demand]. rewrite bind_done. do 2 f_equal. unfold p. lia. }
  cbv zeta. pose proof (alignedMalloc_done malloc mem s k Hk Hs Hsum) as M. cbv zeta in M.
  pose proof (alignedMalloc_done malloc mem sizeof_XXH3_state_t 6 ltac:(lia) ltac:(done) ltac:(done)) as M6. cbv zeta in M6. change (2 ^ 6) with 64 in M6.
  split_and!.
  - intros E. by rewrite M, E.
  - intros Hb. rewrite M, (proj2 (Z.eqb_neq _ 0)) by lia. destruct (Free (malloc (s + 2 ^ k)) k mem Hk Hb) as (B & A & F).
    do 2 eexists. split; [done|]. split_and!; [done|lia|lia|done|]. intros a Ha. apply lookup_insert_ne. lia.
  - intros E. unfold XXH3_createState. by rewrite M6, E.
  - intros Hb. unfold XXH3_createState. rewrite M6, (proj2 (Z.eqb_neq _ 0)), bind_done by lia.
    destruct (Free _ 6 mem ltac:(lia) Hb) as (B & A & F). change (2 ^ 6) with 64 in *.
    rewrite (proj2 (Z.eqb_neq _ 0)) by lia. do 3 eexists. split; [done|]. split_and!; [done..|]. unfold XXH3_freeState. by rewrite F.
Qed.

(** ** Secrets of a seed of any length *)

Section Generate.
Context {K : Kernel} {L : Kernel_laws K}.

(** Sixteen bytes combined with a hash. *)
Definition combined (bs : list Z) (h : XXH128_hash_t) : list Z :=
  le_split 8 (Z.lxor (le_combine (take 8 bs)) (low64 h)) ++ le_split 8 (Z.lxor (le_combine (drop 8 bs)) (high64 h)).

Lemma load_middle pre bs post n : n = length bs -> load_le n (pre ++ bs ++ post) (Z.of_nat (length pre)) = Some (le_combine bs).
Proof. intros ->. by apply load_le_at. Qed.

Lemma memcpy_middle pre old bs post : length old = length bs ->
  XXH_memcpy (Pointer (pre ++ old ++ post) (Z.of_nat (length pre))) bs = Done (pre ++ bs ++ post).
Proof.
  intros E. rewrite memcpy_at by (cbn [block index]; rewrite ?length_app; lia). cbn [block index]. rewrite Nat2Z.id.
  rewrite take_app_length. do 3 f_equal. rewrite app_assoc. apply drop_app_length'. rewrite length_app. lia.
Qed.

Lemma combine16_value pre bs post h : length bs = 16%nat ->
  XXH3_combine16 (start (pre ++ bs ++ post) +! Z.of_nat (length pre)) h = Done (pre ++ combined bs h ++ post).
Proof.
  intros Lb. rewrite <- (take_drop 8 bs) at 1. set (lo := take 8 bs). set (hi := drop 8 bs).
  assert (Ll : length lo = 8%nat) by (unfold lo; rewrite length_take; lia). assert (Lh : length hi = 8%nat) by (unfold hi; rewrite length_drop; lia).
  unfold XXH3_combine16, XXH_readLE64, XXH_writeLE64, start, advance. cbn [block index]. rewrite Z.add_0_l.
  rewrite <- !app_assoc, (load_middle pre lo (hi ++ post)) by done. cbn [demand]. rewrite bind_done.
  rewrite (memcpy_middle pre lo _ (hi ++ post)) by (by rewrite le_split_length). rewrite bind_done. cbn [block index].
  set (w := le_split 8 (Z.lxor (le_combine lo) (low64 h))). assert (Lw : length w = 8%nat) by apply le_split_length.
  replace (Z.of_nat (length pre) + 8) with (Z.of_nat (length (pre ++ w))) by (rewrite length_app; lia).
  replace (pre ++ w ++ hi ++ post) with ((pre ++ w) ++ hi ++ post) by (by rewrite <- app_assoc).
  rewrite load_middle by done. cbn [demand]. rewrite bind_done. rewrite memcpy_middle by (by rewrite le_split_length).
  unfold combined. fold lo hi w. by rewrite <- !app_assoc.
Qed.

Lemma length_combined bs h : length (combined bs h) = 16%nat.
Proof. unfold combined. by rewrite length_app, !le_split_length. Qed.

Lemma combined_range bs h : Forall byte_range (combined bs h).
Proof. unfold combined. apply Forall_app. split; apply le_split_range. Qed.

(** The bytes of the secret at [i], whatever follows it. *)
Lemma combine_at secret i h : 0 <= i -> i + 16 <= Z.of_nat (length secret) -> Forall byte_range secret ->
  exists secret', length secret' = length secret /\ Forall byte_range secret' /\
    forall rest, XXH3_combine16 (start (secret ++ rest) +! i) h = Done (secret' ++ rest).
Proof.
  intros Hi Hl F. set (pre := take (Z.to_nat i) secret). set (bs := take 16 (drop (Z.to_nat i) secret)). set (post := drop (Z.to_nat i + 16) secret).
  assert (E : secret = pre ++ bs ++ post) by (unfold pre, bs, post; rewrite <- drop_drop, !take_drop; done).
  assert (Lp : length pre = Z.to_nat i) by (unfold pre; rewrite length_take; lia).
  assert (Lb : length bs = 16%nat) by (unfold bs; rewrite length_take, length_drop; lia).
  exists (pre ++ combined bs h ++ post). split_and!.
  - rewrite E. rewrite !length_app, length_combined. lia.
  - rewrite !Forall_app. split_and!; [by apply Forall_take|apply combined_range|by apply Forall_drop].
  - intros rest. rewrite E. replace i with (Z.of_nat (length pre)) by lia.
    replace ((pre ++ bs ++ post) ++ rest) with (pre ++ bs ++ (post ++ rest)) by (by rewrite <- !app_assoc).
    rewrite combine16_value by done. by rewrite <- !app_assoc.
Qed.

(** The loop on the blocks of sixteen bytes. *)
Lemma scramble_loop (f : Z -> outcome XXH128_hash_t) : (forall n, 0 <= n < 2 ^ 64 -> exists h, f n = Done h) ->
  forall n i secret, 0 <= i -> 16 * (i + Z.of_nat n) <= Z.of_nat (length secret) < 2 ^ 60 -> Forall byte_range secret ->
  exists secret', length secret' = length secret /\ Forall byte_range secret' /\
    forall rest, for_loop n i (fun n secret => h128 ← f n; XXH3_combine16 (start secret +! n * 16) h128) (secret ++ rest) = Done (secret' ++ rest).
Proof.
  intros Hf. induction n as [|n IH]; intros i secret Hi Hl F; cbn [for_loop]; [eauto|].
  destruct (Hf i) as [h Eh]; [pow2_norm; lia|].
  destruct (combine_at secret (i * 16) h ltac:(lia) ltac:(lia) F) as (s1 & L1 & F1 & E1).
  destruct (IH (i + 1) s1 ltac:(lia) ltac:(lia) F1) as (s2 & L2 & F2 & E2).
  exists s2. split_and!; [lia|done|]. intros rest. by rewrite Eh, bind_done, E1, bind_done, E2.
Qed.

(** The secret filled with copies of the seed, from a position on. *)
Lemma fill_secret_value customSeed bs fuel : holds customSeed bs -> 0 < Z.of_nat (length bs) -> Forall byte_range bs ->
  forall pos size, pos <= size -> size - pos <= Z.of_nat fuel -> 0 <= pos ->
  exists filled, Z.of_nat (length filled) = size - pos /\ Forall byte_range filled /\
    forall known old rest, Z.of_nat (length known) = pos -> Z.of_nat (length old) = size - pos ->
      fill_secret fuel (known ++ old ++ rest) pos size customSeed (Z.of_nat (length bs)) = Done (known ++ filled ++ rest).
Proof.
  intros Hs Hpos Hb. induction fuel as [|fuel IH]; intros pos size Hle Hf H0.
  - exists []. split_and!; [cbn; lia|constructor|]. intros known old rest _ Lo. cbn [fill_secret].
    rewrite (proj2 (Z.ltb_ge _ _)) by lia. cbn [negb]. destruct old; [done|cbn in Lo; lia].
  - cbn [fill_secret]. destruct (Z.ltb_spec pos size) as [Hlt|Hge]; cbn [negb].
    2: { exists []. split_and!; [cbn; lia|constructor|]. intros known old rest _ Lo. destruct old; [done|cbn in Lo; lia]. }
    set (n := if size - pos >? Z.of_nat (length bs) then Z.of_nat (length bs) else size - pos).
    assert (Hn : 0 < n <= Z.of_nat (length bs) /\ n <= size - pos) by (unfold n; destruct (Z.gtb_spec (size - pos) (Z.of_nat (length bs))); lia).
    destruct (IH (pos + n) size ltac:(lia) ltac:(lia) ltac:(lia)) as (filled & Lf & Ff & E).
    assert (Lt : Z.of_nat (length (take (Z.to_nat n) bs)) = n) by (rewrite length_take; lia).
    exists (take (Z.to_nat n) bs ++ filled). split_and!; [rewrite length_app; lia|apply Forall_app; split; [by apply Forall_take|done]|].
    intros known old rest Lk Lo. unfold copy. rewrite (region_holds _ _ _ Hs) by lia. cbn [demand]. rewrite bind_done.
    rewrite <- (take_drop (Z.to_nat n) old), <- !app_assoc. subst pos. unfold start, advance. cbn [block index]. rewrite Z.add_0_l.
    rewrite memcpy_middle by (rewrite !length_take; lia). rewrite bind_done.
    specialize (E (known ++ take (Z.to_nat n) bs) (drop (Z.to_nat n) old) rest). rewrite length_app, length_drop, <- !app_assoc in E.
    rewrite E by lia. done.
Qed.

Lemma hash16_done bs n : length bs = 16%nat -> Forall byte_range bs -> 0 <= n < 2 ^ 64 -> exists h, XXH128 (start bs) 16 n = Done h.
Proof.
  intros Lb F Hn. destruct (bits128_withSeed_total bs XXH3_kSecret F ltac:(rewrite Lb; pow2_norm; lia) n Hn)
    as (h & _ & E). exists h. specialize (E K L (start bs) (start XXH3_kSecret) (holds_start _) (holds_start _)). rewrite Lb in E. exact E.
Qed.

(** [XXH3_generateSecret] fills the buffer from the seed alone: for a seed of any
    length, wherever it is in memory, and a size that is allowed there is one secret of
    that size such that the call succeeds on every buffer with room for it, whatever it
    held before, writes the secret and leaves the bytes after it.  Without a seed, or
    with an empty one, the default secret is the seed. *)
Theorem xxh3_generateSecret_determined (customSeed : pointer) bs size
    (Hs : holds customSeed bs) (Hb : Forall byte_range bs) (Hl : Z.of_nat (length bs) < 2 ^ 64) (Hsize : 136 <= size < 2 ^ 60) :
  let customSeedSize := Z.of_nat (length bs) in
  (0 < customSeedSize -> exists secret, Z.of_nat (length secret) = size /\ Forall byte_range secret /\
     forall old rest, Z.of_nat (length old) = size ->
       XXH3_generateSecret (Some (old ++ rest)) size (Some customSeed) customSeedSize = Done (Some (secret ++ rest), XXH_OK)) /\
  (forall buf seed, XXH3_generateSecret (Some buf) size seed 0 = XXH3_generateSecret (Some buf) size (Some (start XXH3_kSecret)) XXH_SECRET_DEFAULT_SIZE) /\
  (forall buf sz n, XXH3_generateSecret None sz (Some customSeed) n = Done (None, XXH_ERROR) /\
     (sz < 136 -> XXH3_generateSecret (Some buf) sz (Some customSeed) n = Done (Some buf, XXH_ERROR)) /\
     (n <> 0 -> 136 <= sz -> XXH3_generateSecret (Some buf) sz None n = Done (Some buf, XXH_ERROR))).
Proof.
  cbv zeta. split_and!.
  - intros Hpos. destruct (fill_secret_value customSeed bs (Z.to_nat size) Hs Hpos Hb 0 size) as (filled & Lf & Ff & Fill); [lia..|].
    destruct (bits128_withSeed_total bs XXH3_kSecret Hb Hl 0 zero_lane) as (h & Hh & Eh).
    specialize (Eh K L customSeed (start XXH3_kSecret) Hs (holds_start _)). change (XXH128 customSeed (Z.of_nat (length bs)) 0 = Done h) in Eh.
    set (scrambler := XXH128_canonicalFromHash h).
    assert (Ls : length scrambler = 16%nat) by (unfold scrambler, XXH128_canonicalFromHash; by rewrite length_app, !le_split_length).
    assert (Fs : Forall byte_range scrambler) by (apply Forall_app; split; apply le_split_range).
    destruct (scramble_loop (fun n => XXH128 (start scrambler) 16 n) ltac:(intros n Hn; by apply hash16_done) (Z.to_nat (size / 16)) 0 filled)
      as (s1 & L1 & F1 & E1); [lia|rewrite Lf; pow2_norm; zdiv_lia|done|].
    destruct (combine_at s1 (size - 16) h ltac:(lia) ltac:(lia) F1) as (s2 & L2 & F2 & E2).
    exists s2. split_and!; [lia|done|]. intros old rest Lo. unfold XXH3_generateSecret, XXH3_SECRET_SIZE_MIN.
    rewrite (proj2 (Z.ltb_ge size 136)), (proj2 (Z.eqb_neq _ 0)) by lia.
    pose proof (Fill [] old rest eq_refl ltac:(lia)) as Fill'. cbn [app] in Fill'. rewrite Fill', bind_done, Eh, bind_done.
    fold scrambler. cbv zeta. unfold for_up. rewrite Z.sub_0_r, E1, bind_done. unfold scrambler at 1. rewrite canonical128_roundtrip, bind_done by done.
    by rewrite E2, bind_done.
  - intros buf seed. unfold XXH3_generateSecret. by destruct (size <? XXH3_SECRET_SIZE_MIN).
  - intros buf sz n. split_and!; [done|..].
    + intros Hz. unfold XXH3_generateSecret, XXH3_SECRET_SIZE_MIN. by rewrite (proj2 (Z.ltb_lt _ _)) by lia.
    + intros Hn Hz. unfold XXH3_generateSecret, XXH3_SECRET_SIZE_MIN. by rewrite (proj2 (Z.ltb_ge sz 136)), (proj2 (Z.eqb_neq n 0)) by lia.
Qed.
End Generate.

Lemma xxh3_aligned_memory_witness :
  exists p mem', XXH_alignedMalloc (fun _ => 1000) ∅ 576 64 = Done (p, mem') /\ p mod 64 = 0 /\ XXH_alignedFree mem' p = Done (Some 1000).
Proof.
  destruct (xxh3_aligned_memory (fun _ => 1000) ∅ 576 6 (XXH3State [] [] [] 0 0 0 0 0 0 0 None) ltac:(lia) ltac:(lia) ltac:(lia)) as (_ & G & _).
  destruct (G ltac:(lia)) as (p & mem' & E & A & _ & _ & F & _). exists p, mem'. split; [exact E|]. split; [exact A|exact F].
Defined.

Lemma xxh3_generateSecret_determined_witness :
  exists secret, @XXH3_generateSecret scalar_kernel (Some (replicate 136 0)) 136 (Some (start [1; 2; 3])) 3 = Done (Some secret, XXH_OK) /\
    @XXH3_generateSecret scalar_kernel (Some (replicate 136 7)) 136 (Some (start [1; 2; 3])) 3 = Done (Some secret, XXH_OK).
Proof.
  destruct (proj1 (@xxh3_generateSecret_determined scalar_kernel scalar_kernel_laws (start [1; 2; 3]) [1; 2; 3] 136 (holds_start _)
    ltac:(repeat constructor; unfold byte_range; lia) ltac:(cbn; lia) ltac:(lia)) ltac:(cbn; lia)) as (secret & _ & _ & E).
  exists (secret ++ []). split; [exact (E (replicate 136 0) [] eq_refl)|exact (E (replicate 136 7) [] eq_refl)].
Defined.
