(* ===== verification/Hasher.v ===== *)
(** * The hashers ([core/native/hashing/hasher.c], [hasher.h], [hashing_*.h])

    The mode dispatch over wyhash, MurmurHash3, xxHash and PolymurHash, and the
    hash of a string that the maps of the runtime use.  A structure in zeroed
    memory is [zero_hasher], a null pointer is [None]. *)
From stdpp Require Import strings.
From S2P Require Import Prelude Polymur Murmur Wyhash Xxhash.

Definition HASHING_WYHASH : Z := 0.
Definition HASHING_MURMUR : Z := 1.
Definition HASHING_XXHASH : Z := 2.
Definition HASHING_POLYMUR : Z := 3.
Definition HASHING_DEFAULT_MODE : Z := HASHING_POLYMUR.
Definition HASHING_DEFAULT_STRING_SEED : Z := 0.

Record hasher := Hasher {
  mode : Z;
  seed_32 : Z;
  seed_64 : Z;
  wyhash_secret : option (list Z);
  polymur_parameters : option PolymurHashParams;
  polymur_tweak : Z;
}.
Definition zero_hasher : hasher := Hasher 0 0 0 None None 0.

(** [assert(0)] aborts the process with [SIGABRT]. *)
Definition unreachable {A} : outcome A := Exits 134.

(** The search for a polymur key is given this many rounds. *)
Definition polymur_rounds : nat := 16.

Definition hasher_initialize_polymur (h : hasher) (seed : Z) : outcome hasher :=
  parameters ← polymur_init_params_from_seed polymur_rounds seed;
  Done (Hasher HASHING_POLYMUR (seed_32 h) seed (wyhash_secret h) (Some parameters) (polymur_tweak h)).
Definition hasher_initialize_murmur32 (h : hasher) (seed : Z) : hasher :=
  Hasher HASHING_MURMUR seed (seed_64 h) (wyhash_secret h) (polymur_parameters h) (polymur_tweak h).
Definition hasher_initialize_xxhash32 (h : hasher) (seed : Z) : hasher :=
  Hasher HASHING_XXHASH seed (seed_64 h) (wyhash_secret h) (polymur_parameters h) (polymur_tweak h).
Definition hasher_initialize_xxhash64 (h : hasher) (seed : Z) : hasher :=
  Hasher HASHING_XXHASH (seed_32 h) seed (wyhash_secret h) (polymur_parameters h) (polymur_tweak h).
Definition hasher_initialize_wyhash32 (h : hasher) (seed : Z) : hasher :=
  Hasher HASHING_WYHASH seed (seed_64 h) (wyhash_secret h) (polymur_parameters h) (polymur_tweak h).
Definition hasher_initialize_wyhash (h : hasher) (seed : Z) (secret : list Z) : hasher :=
  Hasher HASHING_WYHASH (seed_32 h) seed (Some secret) (polymur_parameters h) (polymur_tweak h).

(** The two default hashers, for each value of the build option. *)
Definition hasher_initialize_default (default_mode : Z) (hashers : hasher * hasher) : outcome (hasher * hasher) :=
  let '(h32, h64) := hashers in
  let seed := HASHING_DEFAULT_STRING_SEED in
  if default_mode =? HASHING_WYHASH then
    Done (hasher_initialize_wyhash32 h32 seed, hasher_initialize_wyhash h64 seed _wyp)
  else if default_mode =? HASHING_MURMUR then Done (hasher_initialize_murmur32 h32 seed, h64)
  else if default_mode =? HASHING_XXHASH then
    Done (hasher_initialize_xxhash32 h32 seed, hasher_initialize_xxhash64 h64 seed)
  else if default_mode =? HASHING_POLYMUR then h64 ← hasher_initialize_polymur h64 seed; Done (h32, h64)
  else Done (h32, h64).

(** ** The hashes of bytes *)

Definition hash_bytes_wyhash (bytes : list Z) (length seed : Z) (secret : list Z) : outcome Z :=
  wyhash bytes length seed secret.
Definition hash_bytes_wyhash32 (bytes : list Z) (length seed : Z) : outcome Z := wyhash32 bytes length (u32 seed).
Definition hash_bytes_murmur32 (bytes : list Z) (seed : Z) : outcome Z := murmur32 seed bytes.
Definition hash_bytes_xxh32 (bytes : list Z) (seed : Z) : Z := XXH32 bytes (u32 seed).
(** The result type is [uint32_t]. *)
Definition hash_bytes_xxh64 (bytes : list Z) (seed : Z) : outcome Z := h ← XXH64 bytes seed; Done (u32 h).
(** The tweak passed on is [0], not the parameter. *)
Definition hash_bytes_polymur_configured (parameters : option PolymurHashParams) (bytes : list Z) (length tweak : Z)
    : outcome Z :=
  parameters ← demand parameters; polymur_hash bytes length parameters 0.
Definition hash_bytes_polymur_initialize (bytes : list Z) (length seed tweak : Z) : outcome Z :=
  parameters ← polymur_init_params_from_seed polymur_rounds seed; polymur_hash bytes length parameters 0.
Definition hash_bytes_polymur (bytes : list Z) (length seed tweak : Z) : outcome Z :=
  parameters ← polymur_init_params_from_seed polymur_rounds seed; polymur_hash bytes length parameters tweak.

(** The result type is [uint32_t] here too. *)
Definition hasher_hash_64 (h : hasher) (bytes : list Z) : outcome Z :=
  let n := Z.of_nat (length bytes) in
  r ← (if mode h =? HASHING_WYHASH then
         secret ← demand (wyhash_secret h); hash_bytes_wyhash bytes n (seed_64 h) secret
       else if mode h =? HASHING_POLYMUR then
         hash_bytes_polymur_configured (polymur_parameters h) bytes n (polymur_tweak h)
       else if mode h =? HASHING_XXHASH then hash_bytes_xxh64 bytes (seed_64 h)
       else unreachable);
  Done (u32 r).

Definition hasher_hash_32 (h : hasher) (bytes : list Z) : outcome Z :=
  if mode h =? HASHING_WYHASH then hash_bytes_wyhash32 bytes (Z.of_nat (length bytes)) (seed_32 h)
  else if mode h =? HASHING_MURMUR then hash_bytes_murmur32 bytes (seed_32 h)
  else if mode h =? HASHING_XXHASH then Done (hash_bytes_xxh32 bytes (seed_32 h))
  else unreachable.

(** [hash_bytes_64] and [hash_bytes_32], for each value of the build option;
    the polymur one reads the parameters of the default hasher. *)
Definition hash_bytes_64 (default_mode : Z) (h64 : hasher) (bytes : list Z) : outcome Z :=
  let n := Z.of_nat (length bytes) in
  if default_mode =? HASHING_WYHASH then hash_bytes_wyhash bytes n HASHING_DEFAULT_STRING_SEED _wyp
  else if default_mode =? HASHING_MURMUR then unreachable
  else if default_mode =? HASHING_XXHASH then hash_bytes_xxh64 bytes HASHING_DEFAULT_STRING_SEED
  else hash_bytes_polymur_configured (polymur_parameters h64) bytes n 0.

Definition hash_bytes_32 (default_mode : Z) (bytes : list Z) : outcome Z :=
  if default_mode =? HASHING_WYHASH then hash_bytes_wyhash32 bytes (Z.of_nat (length bytes)) HASHING_DEFAULT_STRING_SEED
  else if default_mode =? HASHING_MURMUR then hash_bytes_murmur32 bytes HASHING_DEFAULT_STRING_SEED
  else if default_mode =? HASHING_XXHASH then Done (hash_bytes_xxh32 bytes HASHING_DEFAULT_STRING_SEED)
  else unreachable.

(** A string as the bytes before its terminator. *)
Definition string_bytes (s : string) : list Z := map (fun c => Z.of_N (Ascii.N_of_ascii c)) (String.list_ascii_of_string s).
Definition hash_string_64 (h64 : hasher) (s : string) : outcome Z :=
  hash_bytes_64 HASHING_DEFAULT_MODE h64 (string_bytes s).
Definition hash_string_32 (s : string) : outcome Z := hash_bytes_32 HASHING_DEFAULT_MODE (string_bytes s).

Definition hash_pointer_32 (pointer : Z) : Z := u32 (Z.lxor pointer (Z.shiftr pointer 32)).

(** [bits] becomes [64 - bits]; a shift by 64 or more is undefined. *)
Definition hash_unsigned_64 (a bits : Z) : outcome Z :=
  let bits := u32 (64 - bits) in
  let b := u64 (a * 5) in
  let c := u64 (Z.shiftl a 13) in
  let b := u64 (u64 (Z.shiftl b 2) + a) in
  let d := u64 (Z.shiftl a 17) in
  let a := u64 (b + u64 (Z.shiftl a 1)) in
  let c := u64 (c + d) in
  let d := u64 (Z.shiftl a 10) in
  let a := u64 (Z.shiftl a 19) in
  let d := u64 (a - d) in
  let a := u64 (Z.shiftl a 4) in
  let c := u64 (c + b) in
  let a := u64 (a + b) in
  let d := u64 (d - c) in
  let c := u64 (c + u64 (Z.shiftl a 1)) in
  let a := u64 (a + u64 (Z.shiftl c 3)) in
  let b := u64 (Z.shiftl b 38) in
  let a := u64 (Z.shiftl a 31) in
  let b := u64 (b + d) in
  let a := u64 (a + b) in
  if bits <? 64 then Done (u32 (Z.shiftr a bits)) else Faults.

(** ** The hash of the maps *)

(** The default hashers of a process whose [system_initialize] has run. *)
Definition default_hashers : hasher * hasher :=
  default (zero_hasher, zero_hasher) (result_of (hasher_initialize_default HASHING_DEFAULT_MODE (zero_hasher, zero_hasher))).

(** What a map reads: the hash of a string, a number. *)
Definition string_hash (s : string) : Z :=
  default 0 (result_of (hash_string_64 (snd default_hashers) s)).

Lemma string_bytes_range s : Forall byte_range (string_bytes s).
Proof.
  unfold string_bytes. induction s as [|c s IH]; cbn; constructor; [|exact IH].
  unfold byte_range. pose proof (Ascii.N_ascii_bounded c). lia.
Qed.

Lemma polymur_hash_done bytes p :
  Forall byte_range bytes -> params_ok p -> exists h, polymur_hash bytes (Z.of_nat (length bytes)) p 0 = Done h /\ word h.
Proof.
  intros Hb Hp. destruct (poly611_done bytes Hb p Hp 0) as (r & E & _).
  unfold polymur_hash. rewrite E, bind_done. eauto with words.
Qed.

Lemma default_hashers_done :
  hasher_initialize_default HASHING_DEFAULT_MODE (zero_hasher, zero_hasher) = Done default_hashers
  /\ default_hashers = (zero_hasher, Hasher HASHING_POLYMUR 0 0 None (Some default_parameters) 0).
Proof.
  assert (E : hasher_initialize_default HASHING_DEFAULT_MODE (zero_hasher, zero_hasher)
              = Done (zero_hasher, Hasher HASHING_POLYMUR 0 0 None (Some default_parameters) 0)).
  { unfold hasher_initialize_default, hasher_initialize_polymur. cbn [Z.eqb HASHING_DEFAULT_MODE HASHING_POLYMUR HASHING_WYHASH].
    change (polymur_init_params_from_seed polymur_rounds HASHING_DEFAULT_STRING_SEED)
      with (polymur_init_params_from_seed 16 0). rewrite default_parameters_done. reflexivity. }
  unfold default_hashers. rewrite E. split; reflexivity.
Qed.

Lemma string_hash_done s : hash_string_64 (snd default_hashers) s = Done (string_hash s) /\ word (string_hash s).
Proof.
  destruct (polymur_hash_done (string_bytes s) default_parameters (string_bytes_range s) default_parameters_ok)
    as (h & E & Hw).
  assert (G : hash_string_64 (snd default_hashers) s = Done h).
  { rewrite (proj2 default_hashers_done). exact E. }
  unfold string_hash. rewrite G. split; [reflexivity|exact Hw].
Qed.

(** The tweak is ignored. *)
Lemma hash_string_configured h64 s tweak :
  hash_bytes_polymur_configured (polymur_parameters h64) (string_bytes s) (Z.of_nat (length (string_bytes s))) tweak
  = hash_string_64 h64 s.
Proof. reflexivity. Qed.

(** ** The properties *)

(** After the initialisation of the default hashers the hash of every string
    is defined and a 64-bit number, the one of the maps; the generic dispatch of
    a hasher keeps only its lower half, ignores the tweak, and the 32-bit hash of
    a string aborts in this configuration. *)
Theorem hasher_default_total s tweak :
  hasher_initialize_default HASHING_DEFAULT_MODE (zero_hasher, zero_hasher) = Done default_hashers
  /\ hash_string_64 (snd default_hashers) s = Done (string_hash s)
  /\ 0 <= string_hash s < 2 ^ 64
  /\ hasher_hash_64 (snd default_hashers) (string_bytes s) = Done (u32 (string_hash s))
  /\ hash_bytes_polymur_configured (polymur_parameters (snd default_hashers)) (string_bytes s)
       (Z.of_nat (length (string_bytes s))) tweak = Done (string_hash s)
  /\ hash_string_32 s = Exits 134.
Proof.
  destruct (string_hash_done s) as [E Hw].
  split_and!; [apply default_hashers_done|exact E|apply Hw|apply Hw| |rewrite hash_string_configured; exact E|reflexivity].
  assert (Em : mode (snd default_hashers) = HASHING_POLYMUR) by (rewrite (proj2 default_hashers_done); reflexivity).
  unfold hasher_hash_64. rewrite Em, hash_string_configured, E. reflexivity.
Qed.
