(* ===== verification/Events.v ===== *)
(** * Events ([core/native/events/event.c], [event.h], [field.h], [field.c])

    An event carries up to twenty named fields of seven types.  The text
    formats of libc that this model does not define (dates, doubles, pointers),
    and which pieces [snprintf] fails to print, are parameters.  A [raise] prints and calls [exit(-1)]. *)
From stdpp Require Import strings pretty.
From S2P Require Import Prelude Time.

(** ** Fields *)

(** The union and its type tag; a double is its 64 bits. *)
Inductive field_value :=
| Signed (number : Z)
| Unsigned (number : Z)
| Double (bits : Z)
| String (text : string)
| Address (address : Z)
| Character (code : Z)
| Boolean (value : bool).

#[export] Instance field_value_eq_dec : EqDecision field_value.
Proof. solve_decision. Defined.

Record event_field_structure := EventField { field_name : string; field_val : field_value }.

Definition EVENT_TYPE_SIGNED : Z := 0.
Definition EVENT_TYPE_UNSIGNED : Z := 1.
Definition EVENT_TYPE_DOUBLE : Z := 2.
Definition EVENT_TYPE_STRING : Z := 3.
Definition EVENT_TYPE_ADDRESS : Z := 4.
Definition EVENT_TYPE_CHARACTER : Z := 5.
Definition EVENT_TYPE_BOOLEAN : Z := 6.

Definition field_type (v : field_value) : Z :=
  match v with
  | Signed _ => EVENT_TYPE_SIGNED | Unsigned _ => EVENT_TYPE_UNSIGNED | Double _ => EVENT_TYPE_DOUBLE
  | String _ => EVENT_TYPE_STRING | Address _ => EVENT_TYPE_ADDRESS | Character _ => EVENT_TYPE_CHARACTER
  | Boolean _ => EVENT_TYPE_BOOLEAN
  end.

Definition event_field_set_boolean (value : bool) : field_value := Boolean value.
Definition event_field_set_double (bits : Z) : field_value := Double bits.
Definition event_field_set_unsigned (value : Z) : field_value := Unsigned (u64 value).
Definition event_field_set_signed (value : Z) : field_value := Signed (i64 value).
Definition event_field_set_string (value : string) : field_value := String value.
Definition event_field_set_character (value : Z) : field_value := Character (i8 value).
Definition event_field_set_address (value : Z) : field_value := Address value.

(** The C types the macro [event_field] tells apart, in its order. *)
Inductive c_type :=
  T_char | T_bool | T_int8 | T_uint8 | T_int16 | T_uint16 | T_int32 | T_uint32 | T_int64 | T_uint64
| T_float | T_double | T_chars | T_pointer.

(** A number of such a type, as a field: [int8_t] is on no branch of the macro
    ([uint8_t] is there twice), so it falls to [event_field_set_any]. *)
Definition event_field_number (t : c_type) (value : Z) : field_value :=
  match t with
  | T_char => event_field_set_character value
  | T_bool => event_field_set_boolean (negb (value =? 0))
  | T_uint8 | T_uint16 | T_uint32 | T_uint64 => event_field_set_unsigned value
  | T_int16 | T_int32 | T_int64 => event_field_set_signed value
  | T_float | T_double => event_field_set_double value
  | T_int8 | T_chars | T_pointer => event_field_set_address value
  end.

(** ** Events *)

Record event := Event {
  raised_module_name : option string;
  fields : list event_field_structure;
  function : string;
  file : string;
  line : Z;
  level : Z;
  timestamp : timespec;
}.

Definition EVENT_FIELDS_MAXIMUM : Z := 20.
(** [calloc(EVENT_FIELDS_MAXIMUM, sizeof(struct event_field_structure))] holds that many pointers. *)
Definition fields_capacity : Z := EVENT_FIELDS_MAXIMUM * 24 / 8.

Definition EVENT_LEVEL_PANIC : Z := 0.
Definition EVENT_LEVEL_ERROR : Z := 1.
Definition EVENT_LEVEL_WARNING : Z := 2.
Definition EVENT_LEVEL_INFORMATION : Z := 3.
Definition EVENT_LEVEL_TRACE : Z := 4.

Definition fields_count (e : event) : Z := Z.of_nat (length (fields e)).
Definition with_fields (e : event) (l : list event_field_structure) : event :=
  Event (raised_module_name e) l (function e) (file e) (line e) (level e) (timestamp e).

(** [raise]: a message, a stack trace, [exit(-1)]. *)
Definition raise {A} : outcome A := Exits (-1).

Definition event_create (level : Z) (function file : string) (line : Z) (now : timespec) : event :=
  Event None [] function file line level now.

(** The loop stores the fields one after the other, without a limit of its own. *)
Definition event_build (level : Z) (function file : string) (line : Z) (now : timespec)
    (l : list event_field_structure) : outcome event :=
  if Z.of_nat (length l) <=? fields_capacity
  then Done (with_fields (event_create level function file line now) l) else Faults.

Definition event_setup (e : event) (name : string) : event :=
  Event (Some name) (fields e) (function e) (file e) (line e) (level e) (timestamp e).

(** The index of the first field with that name. *)
Fixpoint find_index (l : list event_field_structure) (name : string) : option nat :=
  match l with
  | [] => None
  | f :: l => if String.eqb name (field_name f) then Some O else S <$> find_index l name
  end.
Definition event_find_field (e : event) (name : string) : option event_field_structure :=
  i ← find_index (fields e) name; fields e !! i.

Definition event_set_field (e : event) (name : string) (v : field_value) : outcome event :=
  match find_index (fields e) name with
  | Some i => Done (with_fields e (alter (fun f => EventField (field_name f) v) i (fields e)))
  | None =>
      if fields_count e =? EVENT_FIELDS_MAXIMUM then raise else
      if fields_count e <? fields_capacity
      then Done (with_fields e (fields e ++ [EventField name v])) else Faults
  end.

Definition event_set_boolean e name value := event_set_field e name (event_field_set_boolean value).
Definition event_set_signed e name value := event_set_field e name (event_field_set_signed value).
Definition event_set_unsigned e name value := event_set_field e name (event_field_set_unsigned value).
Definition event_set_double e name bits := event_set_field e name (event_field_set_double bits).
Definition event_set_string e name value := event_set_field e name (event_field_set_string value).
Definition event_set_address e name value := event_set_field e name (event_field_set_address value).
Definition event_set_character e name value := event_set_field e name (event_field_set_character value).

Definition event_has_field (e : event) (name : string) : bool := bool_decide (is_Some (event_find_field e name)).

(** The getters: a missing field and a field of another type both [raise]. *)
Definition event_get_field {A} (read : field_value -> option A) (e : event) (name : string) : outcome A :=
  match event_find_field e name with
  | None => raise
  | Some f => match read (field_val f) with Some a => Done a | None => raise end
  end.
Definition event_get_character := event_get_field (fun v => match v with Character c => Some c | _ => None end).
Definition event_get_address := event_get_field (fun v => match v with Address a => Some a | _ => None end).
Definition event_get_boolean := event_get_field (fun v => match v with Boolean b => Some b | _ => None end).
Definition event_get_signed := event_get_field (fun v => match v with Signed z => Some z | _ => None end).
Definition event_get_unsigned := event_get_field (fun v => match v with Unsigned z => Some z | _ => None end).
Definition event_get_double := event_get_field (fun v => match v with Double d => Some d | _ => None end).
Definition event_get_string := event_get_field (fun v => match v with String s => Some s | _ => None end).

Definition event_field_is (t : Z) (e : event) (name : string) : bool :=
  match event_find_field e name with None => false | Some f => field_type (field_val f) =? t end.
Definition event_field_is_signed := event_field_is EVENT_TYPE_SIGNED.
Definition event_field_is_unsigned := event_field_is EVENT_TYPE_UNSIGNED.
Definition event_get_module (e : event) : option string := raised_module_name e.
Definition event_get_level (e : event) : Z := level e.

(** ** The thread's event

    [local], with the calls into the Dart runtime and the stack trace as
    parameters; a [NULL] event is [None]. *)

Definition EVENT_FIELD_STACK_TRACE : string := "stack-trace".
Definition event_set_local (local : option event) : option event := local.
Definition event_get_local (local : option event) : option event := local.
Definition event_has_local (local : option event) : bool := bool_decide (is_Some local).

(** [stack_trace] is the text [stacktrace_format] produced, if any. *)
Definition event_put_stack_trace (stack_trace : option string) (e : option event) : outcome (option event) :=
  match stack_trace with
  | None => Done e
  | Some text => e ← demand e; e ← event_set_string e EVENT_FIELD_STACK_TRACE text; Done (Some e)
  end.

(** The new value of [local]; whatever the Dart call answers, it is the event. *)
Definition event_propagate_local (stack_trace : option string) (e : option event) : outcome (option event) :=
  e ← event_put_stack_trace stack_trace e;
  Done (event_set_local e).

Definition event_clear_local (stack_trace : option string) (propagate_to_dart : bool) : outcome (option event) :=
  if propagate_to_dart then event_propagate_local stack_trace None else Done (event_set_local None).

(** ** Formatting *)

Definition EVENT_BUFFER : Z := 16 * 1024.
Definition level_label (level : Z) : string :=
  if level =? EVENT_LEVEL_TRACE then "(trace)" else
  if level =? EVENT_LEVEL_INFORMATION then "(information)" else
  if level =? EVENT_LEVEL_WARNING then "(warning)" else
  if level =? EVENT_LEVEL_ERROR then "(error)" else
  if level =? EVENT_LEVEL_PANIC then "(panic)" else "(unknown)".

Definition new_line : string := String.String (Ascii.ascii_of_nat 10) EmptyString.
Definition char_text (code : Z) : string := String.String (Ascii.ascii_of_N (Z.to_N (u8 code))) EmptyString.
Definition text_length (s : string) : Z := Z.of_nat (String.length s).

(** [snprintf(buffer + size, EVENT_BUFFER - size, ...)] of [piece], the text of
    the buffer being [text]: past the end of the buffer the room wraps around.
    [None]: the answer is negative, the buffer is as it was. *)
Definition snprintf_at (format_fails : string -> bool) (st : string * Z) (piece : string) : outcome (option (string * Z)) :=
  let '(text, size) := st in
  if size >? EVENT_BUFFER then Faults else
  Done (if format_fails piece then None
        else Some ((text ++ String.substring 0 (Z.to_nat (EVENT_BUFFER - 1 - size)) piece)%string, size + text_length piece)).

(** The pieces one after the other; [if (written < 0) return buffer;] after each. *)
Fixpoint snprintf_all (format_fails : string -> bool) (st : string * Z) (pieces : list string) : outcome string :=
  match pieces with
  | [] => Done (fst st)
  | piece :: pieces =>
      written ← snprintf_at format_fails st piece;
      match written with None => Done (fst st) | Some st => snprintf_all format_fails st pieces end
  end.

Section Format.
Context (time_format_local : timespec -> string) (format_double format_pointer : Z -> string) (format_fails : string -> bool).

(** ["%ld"] is used for both kinds of integers. *)
Definition field_text (f : event_field_structure) : string :=
  (field_name f ++ " = " ++
   match field_val f with
   | Boolean b => if b then "true" else "false"
   | Unsigned n => pretty (i64 n)
   | Signed n => pretty (i64 n)
   | Double d => format_double d
   | String s => s
   | Address a => format_pointer a
   | Character c => char_text c
   end ++ new_line)%string.

Definition event_header (e : event) : string :=
  ("[" ++ time_format_local (timestamp e) ++ "] " ++ level_label (level e) ++ ": " ++ function e ++ "(...) "
   ++ file e ++ ":" ++ pretty (i32 (line e)) ++ new_line)%string.

Definition event_pieces (e : event) : list string :=
  event_header e :: match raised_module_name e with
                    | Some name => ["module = " ++ name ++ new_line]%string
                    | None => []
                    end ++ map field_text (fields e).

(** The buffer has been allocated: a failure raises an error before. *)
Definition event_format (e : event) : outcome string := snprintf_all format_fails (EmptyString, 0) (event_pieces e).

End Format.

(** ** The fields as a finite map *)

Definition event_fields (e : event) : gmap string field_value :=
  list_to_map ((fun f => (field_name f, field_val f)) <$> fields e).

Record event_wf (e : event) : Prop := {
  ev_names : NoDup (field_name <$> fields e);
  ev_count : fields_count e <= EVENT_FIELDS_MAXIMUM;
}.

Lemma find_index_lookup l name :
  NoDup (field_name <$> l) ->
  match find_index l name with
  | Some i => exists v, l !! i = Some (EventField name v)
      /\ (list_to_map ((fun f => (field_name f, field_val f)) <$> l) : gmap string field_value) !! name = Some v
  | None => (list_to_map ((fun f => (field_name f, field_val f)) <$> l) : gmap string field_value) !! name = None
      /\ name ∉ field_name <$> l
  end.
Proof.
  induction l as [|[n v] l IH]; intros Hnd; cbn; [split; [apply lookup_empty|set_solver]|].
  apply NoDup_cons in Hnd as [Hn Hnd]. destruct (String.eqb_spec name n) as [->|Hne]; cbn.
  - exists v. split; [reflexivity|apply lookup_insert_eq].
  - specialize (IH Hnd). destruct (find_index l name) as [i|]; cbn.
    + destruct IH as (v' & ? & ?). exists v'. split; [assumption|]. rewrite lookup_insert_ne by congruence. assumption.
    + destruct IH as [? ?]. rewrite lookup_insert_ne by congruence. split; [assumption|set_solver].
Qed.

Lemma find_field_lookup e name :
  event_wf e -> field_val <$> event_find_field e name = event_fields e !! name.
Proof.
  intros [Hnd _]. pose proof (find_index_lookup (fields e) name Hnd) as G.
  unfold event_find_field, event_fields. destruct (find_index (fields e) name) as [i|]; cbn [mbind option_bind].
  - destruct G as (v & E1 & E2). rewrite E1, E2. reflexivity.
  - destruct G as [E _]. rewrite E. reflexivity.
Qed.

Lemma alter_names (i : nat) v (l : list event_field_structure) :
  field_name <$> alter (fun f => EventField (field_name f) v) i l = field_name <$> l.
Proof.
  revert i. induction l as [|f l IH]; intros [|i]; cbn; try reflexivity. f_equal. apply IH.
Qed.

Lemma alter_map (i : nat) v n v0 (l : list event_field_structure) :
  NoDup (field_name <$> l) -> l !! i = Some (EventField n v0) ->
  (list_to_map ((fun f => (field_name f, field_val f)) <$> alter (fun f => EventField (field_name f) v) i l) : gmap string field_value)
  = <[n := v]> (list_to_map ((fun f => (field_name f, field_val f)) <$> l)).
Proof.
  revert i. induction l as [|f l IH]; intros [|i] Hnd Hi; cbn in *; try discriminate.
  - injection Hi as ->. cbn. rewrite insert_insert_eq. reflexivity.
  - apply NoDup_cons in Hnd as [Hn Hnd]. rewrite (IH i Hnd Hi). apply insert_insert_ne.
    intros E. apply Hn. rewrite E. apply list_elem_of_fmap. exists (EventField n v0).
    split; [reflexivity|]. apply list_elem_of_lookup. eauto.
Qed.

(** ** The text of an event *)

Lemma substring_app n a b :
  String.substring 0 n (a ++ b)
  = (String.substring 0 n a ++ String.substring 0 (n - String.length a) b)%string.
Proof.
  revert n. induction a as [|c a IH]; intros n.
  - rewrite Nat.sub_0_r. destruct n; reflexivity.
  - destruct n as [|n]; [destruct b; reflexivity|].
    change (String.String c (String.substring 0 n (a ++ b))
      = String.String c (String.substring 0 n a ++ String.substring 0 (n - String.length a) b))%string.
    f_equal. apply IH.
Qed.

Lemma substring_all n a : (String.length a <= n)%nat -> String.substring 0 n a = a.
Proof.
  revert n. induction a as [|c a IH]; intros [|n] H; cbn in *; try reflexivity; [lia|]. f_equal. apply IH. lia.
Qed.

Lemma string_length_app a b : String.length (a ++ b) = (String.length a + String.length b)%nat.
Proof.
  induction a as [|c a IH]; [reflexivity|].
  change (S (String.length (a ++ b)) = S (String.length a + String.length b)). rewrite IH. reflexivity.
Qed.

Lemma string_app_assoc (a b c : string) : ((a ++ b) ++ c = a ++ b ++ c)%string.
Proof.
  induction a as [|x a IH]; [reflexivity|].
  change (String.String x ((a ++ b) ++ c) = String.String x (a ++ b ++ c))%string. rewrite IH. reflexivity.
Qed.

Lemma string_app_nil (a : string) : (a ++ "")%string = a.
Proof.
  induction a as [|x a IH]; [reflexivity|].
  change (String.String x (a ++ "") = String.String x a)%string. rewrite IH. reflexivity.
Qed.

Definition all_text (pieces : list string) : string := foldr String.append "" pieces.
Definition buffer_text (text : string) : string := String.substring 0 (Z.to_nat (EVENT_BUFFER - 1)) text.

(** The pieces that are printed: those before the first that fails; and those that
    must fit: all that are printed before the last one that is tried. *)
Fixpoint printed_pieces (format_fails : string -> bool) (pieces : list string) : list string :=
  match pieces with
  | piece :: pieces => if format_fails piece then [] else piece :: printed_pieces format_fails pieces
  | [] => []
  end.
Definition fitting_pieces (format_fails : string -> bool) (pieces : list string) : list string :=
  if existsb format_fails pieces then printed_pieces format_fails pieces else removelast pieces.

Lemma snprintf_at_text format_fails text piece :
  snprintf_at format_fails (buffer_text text, text_length text) piece
  = if text_length text >? EVENT_BUFFER then Faults
    else Done (if format_fails piece then None else Some (buffer_text (text ++ piece), text_length (text ++ piece))).
Proof.
  unfold snprintf_at. destruct (Z.gtb_spec (text_length text) EVENT_BUFFER); [reflexivity|]. destruct (format_fails piece); [reflexivity|].
  unfold buffer_text, text_length in *. rewrite substring_app, string_length_app. do 4 f_equal; [|lia].
  f_equal. unfold EVENT_BUFFER in *. lia.
Qed.

Lemma snprintf_all_text format_fails text pieces :
  snprintf_all format_fails (buffer_text text, text_length text) pieces
  = if text_length (text ++ all_text (fitting_pieces format_fails pieces)) >? EVENT_BUFFER
    then match pieces with [] => Done (buffer_text text) | _ => Faults end
    else Done (buffer_text (text ++ all_text (printed_pieces format_fails pieces))).
Proof.
  unfold fitting_pieces. revert text. induction pieces as [|piece pieces IH]; intros text.
  - cbn. rewrite string_app_nil. case_match; reflexivity.
  - cbn [snprintf_all existsb printed_pieces]. rewrite snprintf_at_text.
    destruct (Z.gtb_spec (text_length text) EVENT_BUFFER) as [Hgt|Hle].
    + cbn [mbind outcome_bind]. rewrite (proj2 (Z.gtb_lt _ _)); [reflexivity|].
      unfold text_length in *. rewrite string_length_app. lia.
    + rewrite bind_done. destruct (format_fails piece); cbn [orb].
      * cbn [all_text foldr fst]. rewrite string_app_nil, (Z.gtb_ltb (text_length text)), (proj2 (Z.ltb_ge _ _)) by lia. reflexivity.
      * rewrite IH. destruct pieces as [|piece' pieces].
        { cbn [existsb printed_pieces removelast all_text foldr]. rewrite !string_app_nil.
          rewrite (Z.gtb_ltb (text_length text)), (proj2 (Z.ltb_ge _ _)) by lia. repeat case_match; reflexivity. }
        change (removelast (piece :: piece' :: pieces)) with (piece :: removelast (piece' :: pieces)).
        destruct (existsb format_fails (piece' :: pieces));
          change (all_text (piece :: ?l)) with (piece ++ all_text l)%string; rewrite !string_app_assoc; reflexivity.
Qed.

(** ** The properties *)

(** Setting a field is the insertion into the finite map of the fields: an
    existing field is replaced, whatever its type was, a new one is added while
    there are fewer than twenty, the twenty-first ends the process with -1; the
    rest of the event stays. *)
Theorem event_set_field_inserts e name v :
  event_wf e ->
  (is_Some (event_fields e !! name) \/ fields_count e < EVENT_FIELDS_MAXIMUM ->
     exists e', event_set_field e name v = Done e' /\ event_wf e'
       /\ event_fields e' = <[name := v]> (event_fields e) /\ level e' = level e
       /\ raised_module_name e' = raised_module_name e)
  /\ (event_fields e !! name = None -> fields_count e = EVENT_FIELDS_MAXIMUM ->
     event_set_field e name v = Exits (-1)).
Proof.
  intros [Hnd Hc]. pose proof (find_index_lookup (fields e) name Hnd) as G. unfold event_set_field, event_fields in *.
  destruct (find_index (fields e) name) as [i|].
  - destruct G as (v0 & Ei & Em). split; [|rewrite Em; discriminate]. intros _. eexists.
    split; [reflexivity|]. split; [split|].
    + cbn. rewrite alter_names. exact Hnd.
    + unfold fields_count in *. cbn. rewrite length_alter. exact Hc.
    + split; [|split; reflexivity]. cbn. apply (alter_map i v name v0); assumption.
  - destruct G as [Em Hn]. split.
    + intros [[? H]|Hlt]; [congruence|]. destruct (Z.eqb_spec (fields_count e) EVENT_FIELDS_MAXIMUM); [lia|].
      change fields_capacity with 60.
      rewrite (proj2 (Z.ltb_lt (fields_count e) 60)) by (unfold EVENT_FIELDS_MAXIMUM in *; lia).
      eexists. split; [reflexivity|]. split; [split|].
      * cbn. rewrite fmap_app. apply NoDup_app. split_and!; [exact Hnd|set_solver|apply NoDup_singleton].
      * unfold fields_count in *. cbn. rewrite length_app. cbn. lia.
      * split; [|split; reflexivity]. cbn. rewrite fmap_app, list_to_map_app. cbn.
        rewrite <- insert_union_r by exact Em. rewrite map_union_empty. reflexivity.
    + intros _ ->. reflexivity.
Qed.

(** A getter returns the value of a field of its type, and ends the process
    with -1 when there is no such field or it has another type: in particular the
    unsigned getter does on a signed field. *)
Theorem event_getters_typed e name :
  event_wf e ->
  event_get_signed e name = match event_fields e !! name with Some (Signed z) => Done z | _ => Exits (-1) end
  /\ event_get_unsigned e name = match event_fields e !! name with Some (Unsigned z) => Done z | _ => Exits (-1) end
  /\ event_get_string e name = match event_fields e !! name with Some (String s) => Done s | _ => Exits (-1) end
  /\ event_get_boolean e name = match event_fields e !! name with Some (Boolean b) => Done b | _ => Exits (-1) end
  /\ event_get_character e name = match event_fields e !! name with Some (Character c) => Done c | _ => Exits (-1) end
  /\ event_get_address e name = match event_fields e !! name with Some (Address a) => Done a | _ => Exits (-1) end
  /\ event_get_double e name = match event_fields e !! name with Some (Double d) => Done d | _ => Exits (-1) end
  /\ event_has_field e name = bool_decide (is_Some (event_fields e !! name)).
Proof.
  intros Hwf. rewrite <- find_field_lookup by exact Hwf.
  unfold event_get_signed, event_get_unsigned, event_get_string, event_get_boolean, event_get_character,
    event_get_address, event_get_double, event_get_field, event_has_field.
  destruct (event_find_field e name) as [[n []]|]; cbn; split_and!; reflexivity.
Qed.

(** C39: the text of an event, in the buffer that was allocated for it, is the
    concatenation of its pieces (the header, the module, a line for each field), up
    to the first that [snprintf] fails to print, cut at 16383 characters; as long as
    what is printed before the last piece that is tried fits into the buffer:
    otherwise the room passed to [snprintf] wraps around and it writes past the end
    of the buffer. *)
Theorem event_format_text (time_format_local : timespec -> string) (format_double format_pointer : Z -> string) (format_fails : string -> bool) e :
  event_format time_format_local format_double format_pointer format_fails e =
  let pieces := event_pieces time_format_local format_double format_pointer e in
  if text_length (all_text (fitting_pieces format_fails pieces)) >? EVENT_BUFFER then Faults
  else Done (buffer_text (all_text (printed_pieces format_fails pieces))).
Proof.
  unfold event_format. cbv zeta. change (EmptyString, 0) with (buffer_text "", text_length "").
  rewrite snprintf_all_text. reflexivity.
Qed.

(** [event_clear_local(true)] propagates a null event: it dereferences it
    whenever a stack trace could be collected; without propagation it clears. *)
Theorem event_clear_local_propagated stack_trace :
  event_clear_local (Some stack_trace) true = Faults
  /\ event_clear_local None true = Done None /\ forall st, event_clear_local st false = Done None.
Proof. split_and!; reflexivity. Qed.

(** *** The properties at work *)

Definition empty_event : event := event_create EVENT_LEVEL_ERROR "main" "main.c" 7 (Timespec 0 0).

Lemma empty_event_wf : event_wf empty_event.
Proof. split; [constructor|vm_compute; discriminate]. Qed.

Lemma event_set_field_inserts_witness :
  exists e', event_set_field empty_event "code" (Signed 12) = Done e' /\ event_wf e'
    /\ event_fields e' = <[("code" : string) := Signed 12]> (event_fields empty_event).
Proof.
  destruct (proj1 (event_set_field_inserts empty_event "code" (Signed 12) empty_event_wf)) as (e' & E & Hwf & Hf & _);
    [right; vm_compute; reflexivity|]. exists e'. auto.
Defined.

Lemma event_getters_typed_witness :
  exists e, event_build EVENT_LEVEL_PANIC "f" "f.c" 1 (Timespec 0 0) [EventField "code" (event_field_number T_int32 12)] = Done e
    /\ event_get_signed e "code" = Done 12 /\ event_get_unsigned e "code" = Exits (-1).
Proof.
  eexists. split; [reflexivity|].
  match goal with |- event_get_signed ?e _ = _ /\ _ => pose proof (event_getters_typed e "code") as G end.
  destruct G as (G1 & G2 & _); [split; [apply NoDup_singleton|vm_compute; discriminate]|].
  rewrite G1, G2. split; vm_compute; reflexivity.
Defined.
