(* ===== verification/System.v ===== *)
(** * The system ([core/native/system/system.c], [bootstrap/bootstrap.c], [crash/crash.c],
    [panic.h], [printer.h], [modules/module.h])

    Printing and raising events, loading and unloading libraries, the
    environment, the crash handler and the helpers of a module.  The dynamic
    linker, the signal calls, the allocator and the formats of libc are
    parameters; the text written is a list of actions. *)
From stdpp Require Import strings.
From S2P Require Import Prelude Time Events SimpleMap SimpleMapTable Maps Hasher.

(** ** Configuration and output *)

(** The functions a configuration points to. *)
Inductive printer_function := Default_printer | Default_error_printer | Empty_printer | Empty_error_printer.
Inductive event_printer_function := Default_event_printer | Empty_event_printer.
Inductive event_raiser_function := Default_event_raiser.

Record bootstrap_configuration := BootstrapConfiguration { silent : bool; bootstrap_print_level : Z }.

Record system_configuration := SystemConfiguration {
  on_print : printer_function;
  on_print_error : printer_function;
  on_event_raise : event_raiser_function;
  on_event_print : event_printer_function;
  print_level : Z;
  system_bootstrap_configuration : bootstrap_configuration;
}.

Inductive action := Stdout (text : string) | Stderr (text : string) | StackTrace | EventDestroyed.

Definition system_default_printer (text : string) : list action := [Stdout text].
Definition system_default_error_printer (text : string) : list action := [Stderr text].
Definition empty_printer (text : string) : list action := [].
Definition empty_error_printer (text : string) : list action := [].
Definition call_printer (f : printer_function) : string -> list action :=
  match f with
  | Default_printer => system_default_printer | Default_error_printer => system_default_error_printer
  | Empty_printer => empty_printer | Empty_error_printer => empty_error_printer
  end.
Definition print_error (c : system_configuration) (text : string) : list action :=
  call_printer (on_print_error c) (text ++ new_line ++ new_line)%string.

Definition EVENT_FIELD_CODE : string := "code".
Definition EVENT_FIELD_MESSAGE : string := "message".
Definition EVENT_FIELD_ERROR_KIND : string := "error-kind".
Definition EVENT_FIELD_ADDRESS : string := "address".
Definition EVENT_FIELD_SIGNAL_INFORMATION : string := "signal-information".
Definition EVENT_ERROR_KIND_SYSTEM : string := "system".
Definition EVENT_ERROR_KIND_MODULE : string := "module".
Definition ENOMEM : Z := 12.

Section Printing.
Context (time_format_local : timespec -> string) (format_double format_pointer : Z -> string) (format_fails : string -> bool)
  (strerror : Z -> string).
Notation text_of := (event_format time_format_local format_double format_pointer format_fails).

Definition system_default_event_printer (c : system_configuration) (e : event) : outcome (list action) :=
  if print_level c <? level e then Done [] else
  buffer ← text_of e;
  Done (call_printer (on_print c) (buffer ++ new_line)%string
        ++ (if level e <=? EVENT_LEVEL_ERROR then [StackTrace] else []) ++ [EventDestroyed]).
Definition empty_event_printer (e : event) : outcome (list action) := Done [EventDestroyed].
Definition print_event (c : system_configuration) (e : event) : outcome (list action) :=
  match on_event_print c with
  | Default_event_printer => system_default_event_printer c e
  | Empty_event_printer => empty_event_printer e
  end.

(** What the raiser prints before it ends the process. *)
Definition raiser_output (c : system_configuration) (e : event) : outcome (list action) :=
  buffer ← text_of e; Done (call_printer (on_print c) (buffer ++ new_line)%string ++ [StackTrace]).

(** It returns when the level of the event is above the print level.  The exit
    status is an [int], made from a conditional of type [uint64_t]. *)
Definition system_default_event_raiser (c : system_configuration) (e : event) : outcome unit :=
  if print_level c <? level e then Done tt else
  raiser_output c e ≫= fun _ =>
  code ← (if event_has_field e EVENT_FIELD_CODE then event_get_unsigned e EVENT_FIELD_CODE else Done (u64 (-1)));
  Exits (i32 code).
Definition raise_panic (c : system_configuration) (e : event) : outcome unit :=
  match on_event_raise c with Default_event_raiser => system_default_event_raiser c e end.

(** [event_system_panic], [event_module_panic] and their [error] versions, at a
    place in the code and a time; the code is an [int]. *)
Record place := Place { place_function : string; place_file : string; place_line : Z; place_time : timespec }.
Definition event_at (p : place) (lvl : Z) (l : list event_field_structure) : outcome event :=
  event_build lvl (place_function p) (place_file p) (place_line p) (place_time p) l.
Definition event_system_fields (code : Z) : list event_field_structure :=
  [EventField EVENT_FIELD_ERROR_KIND (event_field_set_string EVENT_ERROR_KIND_SYSTEM);
   EventField EVENT_FIELD_MESSAGE (event_field_set_string (strerror code));
   EventField EVENT_FIELD_CODE (event_field_number T_int32 code)].
Definition event_module_fields (code : Z) : list event_field_structure :=
  [EventField EVENT_FIELD_ERROR_KIND (event_field_set_string EVENT_ERROR_KIND_MODULE);
   EventField EVENT_FIELD_CODE (event_field_number T_int32 code)].
Definition event_system_panic (p : place) (code : Z) : outcome event := event_at p EVENT_LEVEL_PANIC (event_system_fields code).
Definition event_system_error (p : place) (code : Z) : outcome event := event_at p EVENT_LEVEL_ERROR (event_system_fields code).
Definition event_module_panic (p : place) (code : Z) : outcome event := event_at p EVENT_LEVEL_PANIC (event_module_fields code).
Definition event_module_error (p : place) (code : Z) : outcome event := event_at p EVENT_LEVEL_ERROR (event_module_fields code).

(** ** The helpers of a module ([module.h], without [TRACE])

    [object] is what the allocator answers, [None] a null pointer. *)

Definition module_panic (c : system_configuration) (p : place) (name : string) (code : Z) : outcome unit :=
  e ← event_system_panic p code; raise_panic c (event_setup e name).

Definition module_new (object : option Z) : option Z := object.
Definition module_allocate (object : option Z) : option Z := object.
Definition module_new_checked (c : system_configuration) (p : place) (name : string) (object : option Z) : outcome (option Z) :=
  match object with
  | None => module_panic c p name ENOMEM ≫= fun _ => Done object
  | Some _ => Done object
  end.
Definition module_allocate_checked (c : system_configuration) (p : place) (name : string) (object : option Z) : outcome (option Z) :=
  match object with
  | None => module_panic c p name ENOMEM ≫= fun _ => Done object
  | Some _ => Done object
  end.
Definition module_check_object (c : system_configuration) (p : place) (name : string) (object : option Z) : outcome unit :=
  match object with None => module_panic c p name ENOMEM | Some _ => Done tt end.
Definition module_check_code (c : system_configuration) (p : place) (name : string) (code : Z) : outcome Z :=
  if negb (code =? 0) then module_panic c p name (i32 (- code)) ≫= fun _ => Done code else Done code.

(** ** The crash handler *)

Definition SIGILL : Z := 4.
Definition SIGBUS : Z := 7.
Definition SIGFPE : Z := 8.
Definition SIGSEGV : Z := 11.
Definition SEGV_MAPERR : Z := 1.
Definition SEGV_ACCERR : Z := 2.
Definition SIGNAL_CODE_MAPPER : string := "SEGV_MAPERR".
Definition SIGNAL_CODE_ACCERR : string := "SEGV_MAPERR".
Definition crash_signals : list Z := [SIGILL; SIGBUS; SIGFPE; SIGSEGV].

Record siginfo := Siginfo { si_code : Z; si_addr : option Z; si_self : Z }.

Definition crash_message (signal : Z) : option string :=
  if signal =? SIGILL then Some "Crashed: Illegal instruction"
  else if signal =? SIGBUS then Some "Crashed: Bus error"
  else if signal =? SIGFPE then Some "Crashed: Floating-point error"
  else if signal =? SIGSEGV then Some "Crashed: Segmentation fault"
  else None.

(** The event of a signal: another signal leaves the event null, and setting a
    field of it is a fault. *)
Definition crash_event (p : place) (signal : Z) (information : siginfo) : outcome event :=
  message ← demand (crash_message signal);
  e ← event_at p EVENT_LEVEL_PANIC [EventField EVENT_FIELD_MESSAGE (event_field_set_string message)];
  let signal_code :=
    if signal =? SIGSEGV then
      if si_code information =? SEGV_MAPERR then Some SIGNAL_CODE_MAPPER
      else if si_code information =? SEGV_ACCERR then Some SIGNAL_CODE_ACCERR else None
    else None in
  e ← match signal_code with
      | Some text => event_set_string e EVENT_FIELD_CODE text
      | None => event_set_signed e EVENT_FIELD_CODE (si_code information)
      end;
  e ← match si_addr information with
      | Some address => event_set_address e EVENT_FIELD_ADDRESS address
      | None => Done e
      end;
  event_set_address e EVENT_FIELD_SIGNAL_INFORMATION (si_self information).

(** What the handler prints; [crashing] is its static flag.  It then restores the
    default action of [SIGABRT] and aborts. *)
Definition crash_output (c : system_configuration) (p : place) (crashing : bool) (signal : Z) (information : siginfo)
    : outcome (list action) :=
  if crashing then Done (print_error c ("Error " ++ pretty.pretty signal ++ " while handling crash")%string)
  else e ← crash_event p signal information; print_event c e.
Definition crash_signal_callback (c : system_configuration) (p : place) (crashing : bool) (signal : Z) (information : siginfo)
    : outcome unit :=
  crash_output c p crashing signal information ≫= fun _ => unreachable.

(** [sigactions]: what the four calls of [sigaction] answer, an [errno] for a failure. *)
Fixpoint crash_initialize (c : system_configuration) (p : place) (sigactions : list (option Z)) : outcome unit :=
  match sigactions with
  | [] => Done tt
  | None :: sigactions => crash_initialize c p sigactions
  | Some errno :: sigactions => e ← event_system_panic p errno; raise_panic c e ≫= fun _ => crash_initialize c p sigactions
  end.

End Printing.

(** ** The state of the system *)

(** A [const char*]: its text, and the library structure it belongs to, if any,
    with which it is freed. *)
Record c_string := CString { cs_owner : option Z; cs_text : string }.
Definition literal (text : string) : c_string := CString None text.

Section State.
Context {L E : Type}
  {library_ops : MapOps L system_library string} {library_laws : MapLaws L system_library string}
  {pair_ops : MapOps E (string_value_pair string) string} {pair_laws : MapLaws E (string_value_pair string) string}.

(** [live] is the set of the addresses of the library structures in the heap. *)
Record system := System {
  initialized : bool;
  configuration : system_configuration;
  libraries : L;
  environment : E;
  live : gset Z;
}.
Implicit Types (s : system) (l : system_library).

Definition with_libraries s libs : system := System (initialized s) (configuration s) libs (environment s) (live s).
Definition with_environment s env : system := System (initialized s) (configuration s) (libraries s) env (live s).
Definition with_live s addresses : system := System (initialized s) (configuration s) (libraries s) (environment s) addresses.

(** [crash] and [hashers] are the results of [crash_initialize] and
    [hasher_initialize_default]. *)
Definition system_initialize (crash : outcome unit) (hashers : hasher * hasher) (c : system_configuration) s
    : outcome (system * (hasher * hasher)) :=
  if initialized s then Done (s, hashers) else
  crash ≫= fun _ =>
  hashers ← hasher_initialize_default HASHING_DEFAULT_MODE hashers;
  Done (System true c map_new map_new (live s), hashers).

Definition bootstrap_system (crash : system_configuration -> outcome unit) (hashers : hasher * hasher)
    (b : bootstrap_configuration) s : outcome (system * (hasher * hasher)) :=
  let c := SystemConfiguration
    (if silent b then Empty_printer else Default_printer)
    (if silent b then Empty_error_printer else Default_error_printer)
    Default_event_raiser
    (if silent b then Empty_event_printer else Default_event_printer)
    (i8 (bootstrap_print_level b))
    (BootstrapConfiguration false 0) in
  system_initialize (crash c) hashers c s.

Definition bootstrap_configuration_get s : bootstrap_configuration :=
  system_bootstrap_configuration (configuration s).

(** *** Libraries *)

(** Reading a string or a structure that was freed is a fault. *)
Definition read_string s (p : c_string) : outcome string :=
  match cs_owner p with
  | None => Done (cs_text p)
  | Some address => if decide (address ∈ live s) then Done (cs_text p) else Faults
  end.
Definition library_live s l : outcome system_library := if decide (sl_address l ∈ live s) then Done l else Faults.

Definition system_library_get s (path : c_string) : outcome (option system_library) :=
  path ← read_string s path; map_find (libraries s) path.

(** [dlopen] answers a handle or null; [address] is where [calloc] puts the structure. *)
Definition system_library_load (dlopen : string -> option Z) (address : Z) s (path module : c_string)
    : outcome (option system_library * system) :=
  current ← system_library_get s path;
  match current with
  | Some current => Done (Some current, s)
  | None =>
      path ← read_string s path;
      match dlopen path with
      | None => Done (None, s)
      | Some handle =>
          module ← read_string s module;
          let new := SystemLibrary address path module handle in
          '(_, _, libs) ← map_put (libraries s) new;
          Done (Some new, with_live (with_libraries s libs) ({[address]} ∪ live s))
      end
  end.

Definition system_library_put s l : outcome system :=
  l ← library_live s l; '(_, _, libs) ← map_put (libraries s) l; Done (with_libraries s libs).

Fixpoint first_of_module s (ls : list system_library) (module : string) : outcome (option system_library) :=
  match ls with
  | [] => Done None
  | l :: ls => l ← library_live s l; if String.eqb (sl_module l) module then Done (Some l) else first_of_module s ls module
  end.
Definition system_library_by_module s (module : string) : outcome (option system_library) :=
  ls ← map_values (libraries s); first_of_module s ls module.

(** The handle to close, if any, and the new state. *)
Definition system_library_unload s l : outcome (option Z * system) :=
  l ← library_live s l;
  libs ← map_remove (libraries s) l;
  Done (if sl_handle l =? 0 then None else Some (sl_handle l),
        with_live (with_libraries s libs) (live s ∖ {[sl_address l]})).

(** [path] and [module] are pointers that [unload] frees. *)
Definition system_library_reload (dlopen : string -> option Z) (address : Z) s l : outcome (option system_library * system) :=
  l ← library_live s l;
  let path := CString (Some (sl_address l)) (sl_path l) in
  let module := CString (Some (sl_address l)) (sl_module l) in
  '(_, s) ← system_library_unload s l;
  system_library_load dlopen address s path module.

(** *** Environment *)

Definition system_set_environment s (key value : string) : outcome system :=
  '(_, _, env) ← map_put (environment s) (StringValuePair key value); Done (with_environment s env).
Definition system_get_environment s (key : string) : outcome (option string) :=
  pair ← map_find (environment s) key; Done ((fun p : string_value_pair string => sv_value p) <$> (pair : option _)).
Definition system_environment_entries s : outcome (list (string_value_pair string)) := map_values (environment s).

(** ** Invariant *)

Context (library_key : forall l, map_key l = sl_path l).

(** Every library of the map is in the heap; [n] more operations on the libraries
    and [m] on the environment fit. *)
Record system_wf (n m : Z) s : Prop := {
  sy_libraries : map_valid (libraries s);
  sy_library_room : map_room (libraries s) n;
  sy_environment : map_valid (environment s);
  sy_environment_room : map_room (environment s) m;
  sy_live : map_Forall (fun _ l => sl_address l ∈ live s) (map_abs (libraries s));
}.

Lemma read_literal s text : read_string s (literal text) = Done text.
Proof. reflexivity. Qed.

Lemma read_freed s address text : address ∉ live s -> read_string s (CString (Some address) text) = Faults.
Proof. intros Hf. unfold read_string. cbn [cs_owner]. rewrite decide_False by exact Hf. reflexivity. Qed.

Lemma library_get_spec n m s path :
  system_wf n m s -> system_library_get s (literal path) = Done (map_abs (libraries s) !! path).
Proof. intros Hw. unfold system_library_get. rewrite read_literal, bind_done. apply map_find_ok, Hw. Qed.

Lemma library_load_spec n m dlopen address s path module :
  system_wf n m s -> 0 < n ->
  match map_abs (libraries s) !! path, dlopen path with
  | Some l, _ => system_library_load dlopen address s (literal path) (literal module) = Done (Some l, s)
  | None, None => system_library_load dlopen address s (literal path) (literal module) = Done (None, s)
  | None, Some handle =>
      let new := SystemLibrary address path module handle in
      exists s', system_library_load dlopen address s (literal path) (literal module) = Done (Some new, s')
        /\ map_abs (libraries s') = <[path := new]> (map_abs (libraries s))
        /\ live s' = {[address]} ∪ live s /\ environment s' = environment s /\ configuration s' = configuration s
        /\ system_wf (n - 1) m s'
  end.
Proof.
  intros Hw Hn. unfold system_library_load. rewrite (library_get_spec n m s path Hw), bind_done.
  destruct (map_abs (libraries s) !! path) as [l|] eqn:El; [reflexivity|].
  destruct (dlopen path) as [handle|] eqn:Eh; rewrite (read_literal s path), bind_done, Eh; [|reflexivity].
  rewrite (read_literal s module), bind_done. cbv zeta. set (new := SystemLibrary address path module handle).
  destruct (map_put_ok (libraries s) new n) as (x & libs & -> & Hv & Hr & Ha); [apply Hw|apply Hw|exact Hn|].
  rewrite bind_done. rewrite library_key in Ha. eexists. split; [reflexivity|]. split_and!; auto.
  split; auto; [apply Hw..|]. cbn [libraries with_live with_libraries live]. rewrite Ha.
  apply map_Forall_insert; [exact El|]. split; [cbn; set_solver|].
  intros k l Hl. apply elem_of_union_r. exact (sy_live _ _ _ Hw k l Hl).
Qed.

Lemma library_unload_spec n m s l :
  system_wf n m s -> sl_address l ∈ live s ->
  exists s', system_library_unload s l = Done (if sl_handle l =? 0 then None else Some (sl_handle l), s')
    /\ map_abs (libraries s') = delete (sl_path l) (map_abs (libraries s))
    /\ live s' = live s ∖ {[sl_address l]} /\ environment s' = environment s /\ configuration s' = configuration s.
Proof.
  intros Hw Hl. unfold system_library_unload, library_live. rewrite decide_True by exact Hl. rewrite bind_done.
  destruct (map_remove_ok (libraries s) l n) as (libs & -> & Hv & Hr & Ha); [apply Hw|apply Hw|].
  rewrite bind_done. eexists. split; [reflexivity|]. rewrite <- (library_key l). auto.
Qed.

(** The system stays well formed when no other library has that address. *)
Lemma unload_wf n m s l s' :
  system_wf n m s -> sl_address l ∈ live s ->
  (forall k l', map_abs (libraries s) !! k = Some l' -> sl_address l' = sl_address l -> k = sl_path l) ->
  forall h, system_library_unload s l = Done (h, s') -> system_wf (n - 1) m s'.
Proof.
  intros Hw Hl Hu h. unfold system_library_unload, library_live. rewrite decide_True by exact Hl. rewrite bind_done.
  destruct (map_remove_ok (libraries s) l n) as (libs & -> & Hv & Hr & Ha); [apply Hw|apply Hw|].
  rewrite bind_done. intros [= _ <-]. split; auto; [apply Hw..|]. cbn [libraries with_live with_libraries live].
  rewrite Ha, library_key. intros k l' Hk. apply lookup_delete_Some in Hk as [Hne Hk].
  apply elem_of_difference. split; [exact (sy_live _ _ _ Hw k l' Hk)|].
  rewrite elem_of_singleton. intros Ea. apply Hne. symmetry. exact (Hu k l' Hk Ea).
Qed.

Lemma first_of_module_spec s ls module :
  Forall (fun l => sl_address l ∈ live s) ls ->
  exists r, first_of_module s ls module = Done r
    /\ match r with
       | Some l => l ∈ ls /\ sl_module l = module
       | None => Forall (fun l => sl_module l <> module) ls
       end.
Proof.
  induction 1 as [|l ls Hl Hls (r & Er & Hr)]; cbn [first_of_module];
    [exists None; split; [reflexivity|constructor]|]. unfold library_live.
  rewrite decide_True by exact Hl. rewrite bind_done. destruct (String.eqb_spec (sl_module l) module).
  - exists (Some l). split; [reflexivity|]. split; [constructor|assumption].
  - exists r. split; [exact Er|]. destruct r as [l'|].
    + destruct Hr. split; [by constructor|assumption].
    + constructor; assumption.
Qed.

Lemma reload_faults n m dlopen address s l :
  system_wf n m s -> sl_address l ∈ live s -> system_library_reload dlopen address s l = Faults.
Proof.
  intros Hw Hl. destruct (library_unload_spec n m s l Hw Hl) as (s' & Eu & _ & Hlive & _).
  unfold system_library_reload, library_live. rewrite decide_True by exact Hl. rewrite bind_done. cbv zeta.
  rewrite Eu, bind_done. unfold system_library_load, system_library_get.
  rewrite (read_freed s' (sl_address l) (sl_path l)) by (rewrite Hlive; set_solver). reflexivity.
Qed.

Lemma by_module_found n m s path l :
  system_wf n m s -> map_abs (libraries s) !! path = Some l ->
  exists l', system_library_by_module s (sl_module l) = Done (Some l') /\ sl_module l' = sl_module l.
Proof.
  intros Hw Hp. destruct (map_values_ok (libraries s)) as (ls & Els & Hls); [apply Hw|].
  assert (Hin : forall l, l ∈ ls <-> exists k, map_abs (libraries s) !! k = Some l).
  { intros l'. rewrite Hls, list_elem_of_fmap. setoid_rewrite elem_of_map_to_list'. split.
    - intros ([k x] & -> & Hk). exists k. exact Hk.
    - intros [k Hk]. exists (k, l'). auto. }
  destruct (first_of_module_spec s ls (sl_module l)) as (r & Er & Hr).
  { apply Forall_forall. intros l' [k Hk]%Hin. exact (sy_live _ _ _ Hw _ _ Hk). }
  unfold system_library_by_module. rewrite Els, bind_done. destruct r as [l'|].
  - exists l'. split; [exact Er|apply Hr].
  - rewrite Forall_forall in Hr. destruct (Hr l); [|reflexivity]. apply Hin. eauto.
Qed.

(** *** The properties of the state *)

(** A library is loaded once: the first load opens it, adds it to the map and
    returns it, another load of the same path returns the same structure and opens
    nothing, a library the linker refuses is not added; it is found by its path
    and by its module until it is unloaded, which closes its handle and frees it. *)
Theorem system_library_lifecycle n m dlopen address address' s path module handle :
  system_wf n m s -> 1 < n ->
  address ∉ live s -> map_abs (libraries s) !! path = None -> dlopen path = Some handle -> handle <> 0 ->
  let new := SystemLibrary address path module handle in
  exists s' s'', system_library_load dlopen address s (literal path) (literal module) = Done (Some new, s')
    /\ system_library_load dlopen address' s' (literal path) (literal module) = Done (Some new, s')
    /\ system_library_get s' (literal path) = Done (Some new)
    /\ (exists l, system_library_by_module s' module = Done (Some l) /\ sl_module l = module)
    /\ system_library_unload s' new = Done (Some handle, s'')
    /\ system_library_get s'' (literal path) = Done None
    /\ map_abs (libraries s'') = map_abs (libraries s) /\ live s'' = live s
    /\ forall path', dlopen path' = None -> map_abs (libraries s) !! path' = None ->
         system_library_load dlopen address s (literal path') (literal module) = Done (None, s).
Proof.
  intros Hw Hn Hf Hp Hd Hh new. pose proof (library_load_spec n m dlopen address s path module Hw ltac:(lia)) as G.
  rewrite Hp, Hd in G. destruct G as (s' & Eload & Ea & El & Ee & _ & Hw'). fold new in Eload, Ea.
  assert (Hnew : map_abs (libraries s') !! path = Some new) by (rewrite Ea; apply lookup_insert_eq).
  assert (Hl : sl_address new ∈ live s') by (rewrite El; set_solver).
  destruct (library_unload_spec (n - 1) m s' new Hw' Hl) as (s'' & Eun & Ea'' & El'' & Ee'' & _).
  exists s', s''. split_and!.
  - exact Eload.
  - pose proof (library_load_spec (n - 1) m dlopen address' s' path module Hw' ltac:(lia)) as G. rewrite Hnew in G. exact G.
  - rewrite (library_get_spec (n - 1) m), Hnew by exact Hw'. reflexivity.
  - apply (by_module_found (n - 1) m _ path new Hw' Hnew).
  - cbn [sl_handle new] in Eun. rewrite (proj2 (Z.eqb_neq _ _) Hh) in Eun. exact Eun.
  - rewrite (library_get_spec (n - 1 - 1) m), Ea''; [f_equal; apply lookup_delete_eq|].
    eapply (unload_wf (n - 1) m s' new); [exact Hw'|exact Hl| |exact Eun].
    intros k l Hk Haddr. rewrite Ea in Hk. apply lookup_insert_Some in Hk as [[<- _]|[_ Hk]]; [reflexivity|].
    destruct Hf. rewrite <- (Haddr : _ = address). exact (sy_live _ _ _ Hw k l Hk).
  - rewrite Ea'', Ea. apply delete_insert_id. exact Hp.
  - rewrite El'', El. cbn [sl_address new]. set_solver.
  - intros path' Hd' Hp'. pose proof (library_load_spec n m dlopen address s path' module Hw ltac:(lia)) as G'.
    rewrite Hp', Hd' in G'. exact G'.
Qed.

(** Reloading a library reads its path after it was freed: it never succeeds. *)
Theorem system_library_reload_faults n m dlopen address s l :
  system_wf n m s -> sl_address l ∈ live s -> system_library_reload dlopen address s l = Faults.
Proof. apply reload_faults. Qed.

Context (pair_key : forall p : string_value_pair string, map_key p = sv_key p).

(** The environment is a finite map: a variable set is the one got, others stay,
    and the libraries are not touched. *)
Theorem system_environment_map n m s key value :
  system_wf n m s -> 0 < m ->
  exists s', system_set_environment s key value = Done s' /\ system_wf n (m - 1) s'
    /\ libraries s' = libraries s
    /\ system_get_environment s' key = Done (Some value)
    /\ (forall key', key' <> key -> system_get_environment s' key' = system_get_environment s key')
    /\ exists entries, system_environment_entries s' = Done entries /\ StringValuePair key value ∈ entries.
Proof.
  intros Hw Hm. destruct (map_put_ok (environment s) (StringValuePair key value) m) as (x & env & Ep & Hv & Hr & Ha);
    [apply Hw|apply Hw|exact Hm|]. rewrite pair_key in Ha. cbn [sv_key] in Ha.
  unfold system_set_environment. rewrite Ep, bind_done. eexists. split; [reflexivity|].
  assert (Hw' : system_wf n (m - 1) (with_environment s env)) by (split; auto; apply Hw).
  split_and!; [exact Hw'|reflexivity| | |].
  - unfold system_get_environment. cbn [environment with_environment].
    rewrite map_find_ok, bind_done, Ha, lookup_insert_eq by exact Hv. reflexivity.
  - intros key' Hne. unfold system_get_environment. cbn [environment with_environment].
    rewrite !map_find_ok, !bind_done, Ha, lookup_insert_ne by (first [exact Hv|apply Hw|congruence]). reflexivity.
  - destruct (map_values_ok env Hv) as (ls & Els & Hls). exists ls. split; [exact Els|].
    rewrite Hls. apply list_elem_of_fmap. exists (key, StringValuePair key value). split; [reflexivity|].
    apply elem_of_map_to_list. rewrite Ha. apply lookup_insert_eq.
Qed.

End State.

(** ** Raising *)

Section Raising.
Context (time_format_local : timespec -> string) (format_double format_pointer : Z -> string) (format_fails : string -> bool)
  (strerror : Z -> string).
Notation text_of := (event_format time_format_local format_double format_pointer format_fails).
Notation raiser := (system_default_event_raiser time_format_local format_double format_pointer format_fails).
Notation check_code := (module_check_code time_format_local format_double format_pointer format_fails strerror).

Lemma raiser_status c e text :
  event_wf e -> text_of e = Done text ->
  raiser c e = if print_level c <? level e then Done tt else
    Exits match event_fields e !! EVENT_FIELD_CODE with Some (Unsigned z) => i32 z | _ => -1 end.
Proof.
  intros Hwf Ht. unfold system_default_event_raiser, raiser_output. case_match; [reflexivity|].
  rewrite Ht, !bind_done. unfold event_has_field, event_get_unsigned, event_get_field.
  rewrite <- (find_field_lookup e _ Hwf). destruct (event_find_field e EVENT_FIELD_CODE) as [[n []]|]; reflexivity.
Qed.

(** The panic event of a code. *)
Definition panic_event (p : place) (name : string) (code : Z) : event :=
  Event (Some name) (event_system_fields strerror code) (place_function p) (place_file p) (place_line p) EVENT_LEVEL_PANIC (place_time p).

Lemma panic_event_done p name code :
  (e ← event_system_panic strerror p code; Done (event_setup e name)) = Done (panic_event p name code).
Proof. reflexivity. Qed.

Lemma panic_event_wf p name code : event_wf (panic_event p name code).
Proof. split; [apply (bool_decide_unpack _); vm_compute; exact I|vm_compute; discriminate]. Qed.

Lemma module_panic_status c p name code text :
  text_of (panic_event p name code) = Done text ->
  module_panic time_format_local format_double format_pointer format_fails strerror c p name code
  = if print_level c <? 0 then Done tt else Exits (-1).
Proof.
  intros Ht. change (module_panic time_format_local format_double format_pointer format_fails strerror c p name code)
    with (raise_panic time_format_local format_double format_pointer format_fails c (panic_event p name code)).
  unfold raise_panic. destruct (on_event_raise c).
  rewrite (raiser_status c _ text (panic_event_wf p name code) Ht). reflexivity.
Qed.

Lemma check_code_status c p name code text :
  text_of (panic_event p name (i32 (- code))) = Done text ->
  check_code c p name code = if (code =? 0) || (print_level c <? 0) then Done code else Exits (-1).
Proof.
  intros Ht. unfold module_check_code. destruct (code =? 0); [reflexivity|]. cbn [negb orb].
  rewrite (module_panic_status c p name _ text Ht). case_match; reflexivity.
Qed.

Lemma crash_event_code p signal information :
  - 2 ^ 31 <= si_code information < 2 ^ 31 -> signal ∈ crash_signals ->
  exists e, crash_event p signal information = Done e
    /\ event_fields e !! EVENT_FIELD_CODE =
       Some (if (signal =? SIGSEGV) && ((si_code information =? 1) || (si_code information =? 2))
             then String "SEGV_MAPERR" else Signed (si_code information)).
Proof.
  intros Hcode Hs. assert (Es : event_field_set_signed (si_code information) = Signed (si_code information)).
  { unfold event_field_set_signed. f_equal. apply swrap_small; [pow2_norm; lia|lia]. }
  assert (Hm : exists message, crash_message signal = Some message).
  { apply list_elem_of_In in Hs. destruct Hs as [<-|[<-|[<-|[<-|[]]]]]; eexists; reflexivity. }
  destruct Hm as [message Hm]. unfold crash_event, event_set_signed. rewrite Hm, Es. cbv zeta.
  change SEGV_MAPERR with 1. change SEGV_ACCERR with 2.
  destruct (signal =? SIGSEGV), (si_code information =? 1), (si_code information =? 2), (si_addr information);
    (eexists; split; [reflexivity|reflexivity]).
Qed.

(** *** The properties of raising *)

(** A raised event ends the process, after it was printed, with the status of
    its [code] field if that is unsigned and with -1 if there is no code or it has
    another type; an event above the print level is not raised at all. *)
Theorem raiser_exit_status c e text :
  event_wf e -> text_of e = Done text ->
  (level e <= print_level c -> raiser_output time_format_local format_double format_pointer format_fails c e
     = Done (call_printer (on_print c) (text ++ new_line)%string ++ [StackTrace]))
  /\ raiser c e = if print_level c <? level e then Done tt else
    Exits match event_fields e !! EVENT_FIELD_CODE with Some (Unsigned z) => i32 z | _ => -1 end.
Proof.
  intros Hwf Ht. split; [|exact (raiser_status c e text Hwf Ht)].
  intros _. unfold raiser_output. rewrite Ht. reflexivity.
Qed.

Context {L E : Type}
  {library_ops : MapOps L system_library string} {library_laws : MapLaws L system_library string}
  {pair_ops : MapOps E (string_value_pair string) string} {pair_laws : MapLaws E (string_value_pair string) string}.

(** After a bootstrap, a failed call that a module checks ends the process with
    -1, never with the code itself, which is stored as a signed field; with a print
    level of 128 or more, negative as an [int8_t], the failure is ignored and the
    code returned.  A second bootstrap changes nothing, and the bootstrap
    configuration is not kept. *)
Theorem bootstrap_check_code crash hashers b (s : system (L := L) (E := E)) p name code text :
  initialized s = false -> 0 <= bootstrap_print_level b < 256 -> (forall c, crash c = Done tt) ->
  text_of (panic_event p name (i32 (- code))) = Done text ->
  exists s' hashers', bootstrap_system crash hashers b s = Done (s', hashers')
    /\ check_code (configuration s') p name code
       = (if (code =? 0) || (128 <=? bootstrap_print_level b) then Done code else Exits (-1))
    /\ map_abs (libraries s') = ∅ /\ map_abs (environment s') = ∅
    /\ bootstrap_configuration_get s' = BootstrapConfiguration false 0
    /\ forall b' hashers'', bootstrap_system crash hashers'' b' s' = Done (s', hashers'').
Proof.
  intros Hi Hb Hc Ht. unfold bootstrap_system, system_initialize. rewrite Hi, Hc, bind_done.
  assert (Eh : exists hashers', hasher_initialize_default HASHING_DEFAULT_MODE hashers = Done hashers').
  { destruct hashers as [h32 h64]. unfold hasher_initialize_default, hasher_initialize_polymur.
    cbn [Z.eqb HASHING_DEFAULT_MODE HASHING_POLYMUR HASHING_WYHASH HASHING_MURMUR HASHING_XXHASH].
    change (Polymur.polymur_init_params_from_seed polymur_rounds HASHING_DEFAULT_STRING_SEED)
      with (Polymur.polymur_init_params_from_seed 16 0). rewrite Polymur.default_parameters_done, !bind_done. eauto. }
  destruct Eh as [hashers' ->]. rewrite bind_done. do 2 eexists. split; [reflexivity|].
  split_and!; [|apply map_new_abs..|reflexivity|reflexivity].
  rewrite (check_code_status _ p name code text Ht). cbn [print_level configuration].
  assert (El : (i8 (bootstrap_print_level b) <? 0) = (128 <=? bootstrap_print_level b)); [|rewrite El; reflexivity].
  unfold swrap. pow2_norm. apply eq_true_iff_eq. rewrite Z.ltb_lt, Z.leb_le. zdiv_lia.
Qed.

(** The crash handler always aborts.  For the four signals it handles it prints
    the event of the signal first; a segmentation fault for lack of permission is
    reported with the code of an unmapped address; a second crash only prints
    a line.  For any other signal it sets a field of a null event. *)
Theorem crash_handler_aborts c p crashing signal information text :
  - 2 ^ 31 <= si_code information < 2 ^ 31 ->
  (crashing = false -> signal ∈ crash_signals ->
   exists e, crash_event p signal information = Done e
     /\ event_fields e !! EVENT_FIELD_CODE =
        Some (if (signal =? SIGSEGV) && ((si_code information =? 1) || (si_code information =? 2))
              then String "SEGV_MAPERR" else Signed (si_code information))
     /\ (text_of e = Done text ->
         crash_signal_callback time_format_local format_double format_pointer format_fails c p crashing signal information = Exits 134))
  /\ (crashing = true ->
      crash_signal_callback time_format_local format_double format_pointer format_fails c p crashing signal information = Exits 134)
  /\ (crashing = false -> signal ∉ crash_signals ->
      crash_signal_callback time_format_local format_double format_pointer format_fails c p crashing signal information = Faults).
Proof.
  intros Hcode. split_and!.
  - intros -> Hs.
    destruct (crash_event_code p signal information Hcode Hs) as (e & E1 & E2).
    exists e. split_and!; [exact E1|exact E2|]. intros Ht.
    unfold crash_signal_callback, crash_output. rewrite E1, bind_done. unfold print_event, system_default_event_printer, empty_event_printer.
    rewrite Ht. destruct (on_event_print c); [|reflexivity]. destruct (print_level c <? level e); reflexivity.
  - intros ->. reflexivity.
  - intros -> Hs. unfold crash_signal_callback, crash_output, crash_event.
    assert (Em : crash_message signal = None).
    { unfold crash_message. rewrite !(proj2 (Z.eqb_neq _ _)); [reflexivity|..]; intros ->; apply Hs; repeat constructor. }
    rewrite Em. reflexivity.
Qed.
End Raising.

(** *** The properties at work *)

Section Witnesses.
#[local] Instance library_node : SimpleMapNode system_library string := system_library_node text_length.
#[local] Instance library_node_laws : SimpleMapLaws system_library string := system_library_laws text_length.
#[local] Instance pair_node : SimpleMapNode (string_value_pair string) string := string_value_pair_node text_length.
#[local] Instance pair_node_laws : SimpleMapLaws (string_value_pair string) string := string_value_pair_laws text_length.

Lemma simple_library_key (l : system_library) : map_key (M := simple_map system_library) l = sl_path l.
Proof. reflexivity. Qed.
Lemma simple_pair_key (p : string_value_pair string) : map_key (M := simple_map (string_value_pair string)) p = sv_key p.
Proof. reflexivity. Qed.

Definition quiet : system_configuration :=
  SystemConfiguration Default_printer Default_error_printer Default_event_raiser Default_event_printer 4 (BootstrapConfiguration false 0).
Definition fresh_system : system (L := simple_map system_library) (E := simple_map (string_value_pair string)) :=
  System false quiet map_new map_new ∅.
Definition here : place := Place "f" "f.c" 1 (Timespec 0 0).

Lemma fresh_system_wf : system_wf 10 10 fresh_system.
Proof.
  split; try apply map_new_valid.
  - exists 0, 0. split; [apply SimpleMapSpec.new_spec|vm_compute; discriminate].
  - exists 0, 0. split; [apply SimpleMapSpec.new_spec|vm_compute; discriminate].
  - cbn [libraries fresh_system]. rewrite map_new_abs. apply map_Forall_empty.
Qed.

Lemma system_library_lifecycle_witness :
  exists s', system_library_load (fun _ => Some 7) 100 fresh_system (literal "lib.so") (literal "core")
      = Done (Some (SystemLibrary 100 "lib.so" "core" 7), s')
    /\ system_library_get s' (literal "lib.so") = Done (Some (SystemLibrary 100 "lib.so" "core" 7)).
Proof.
  destruct (system_library_lifecycle simple_library_key 10 10 (fun _ => Some 7) 100 101 fresh_system "lib.so" "core" 7
    fresh_system_wf ltac:(lia)) as (s' & s'' & E1 & _ & E2 & _).
  - apply not_elem_of_empty.
  - cbn [libraries fresh_system]. rewrite map_new_abs. apply lookup_empty.
  - reflexivity.
  - discriminate.
  - exists s'. split; [exact E1|exact E2].
Defined.

Definition one_live : system (L := simple_map system_library) (E := simple_map (string_value_pair string)) :=
  with_live fresh_system {[100]}.

Lemma system_library_reload_faults_witness :
  system_library_reload (fun _ => Some 7) 101 one_live (SystemLibrary 100 "lib.so" "core" 7) = Faults.
Proof.
  apply (system_library_reload_faults simple_library_key 10 10).
  - split; try apply fresh_system_wf. cbn [libraries one_live with_live fresh_system]. rewrite map_new_abs. apply map_Forall_empty.
  - apply elem_of_singleton. reflexivity.
Defined.

Lemma system_environment_map_witness :
  exists s', system_set_environment fresh_system "HOME" "/root" = Done s'
    /\ system_get_environment s' "HOME" = Done (Some "/root"%string).
Proof.
  destruct (system_environment_map simple_pair_key 10 10 fresh_system "HOME" "/root" fresh_system_wf ltac:(lia))
    as (s' & E1 & _ & _ & E2 & _).
  exists s'. split; [exact E1|exact E2].
Defined.

Definition no_time (t : timespec) : string := "now".
Definition no_text (z : Z) : string := "?".
Definition never (piece : string) : bool := false.

Lemma raiser_exit_status_witness :
  system_default_event_raiser no_time no_text no_text never quiet (panic_event no_text here "core" 12) = Exits (-1).
Proof.
  destruct (event_format no_time no_text no_text never (panic_event no_text here "core" 12)) as [text| | |] eqn:E;
    try (vm_compute in E; discriminate E).
  destruct (raiser_exit_status no_time no_text no_text never quiet (panic_event no_text here "core" 12) text
    (panic_event_wf no_text here "core" 12) E) as [_ G].
  rewrite G. vm_compute. reflexivity.
Defined.

Lemma bootstrap_check_code_witness :
  exists s' hashers', bootstrap_system (fun _ => Done tt) (zero_hasher, zero_hasher) (BootstrapConfiguration true 255) fresh_system
      = Done (s', hashers')
    /\ module_check_code no_time no_text no_text never no_text (configuration s') here "core" (-22) = Done (-22).
Proof.
  destruct (event_format no_time no_text no_text never (panic_event no_text here "core" (i32 (- (-22))))) as [text| | |] eqn:E;
    try (vm_compute in E; discriminate E).
  destruct (bootstrap_check_code no_time no_text no_text never no_text (fun _ => Done tt) (zero_hasher, zero_hasher)
    (BootstrapConfiguration true 255) fresh_system here "core" (-22) text) as (s' & h' & E1 & E2 & _).
  - reflexivity.
  - cbn. lia.
  - reflexivity.
  - exact E.
  - exists s', h'. split; [exact E1|exact E2].
Defined.

Lemma crash_handler_aborts_witness :
  crash_signal_callback no_time no_text no_text never quiet here true SIGSEGV (Siginfo 2 None 0) = Exits 134.
Proof. apply (crash_handler_aborts no_time no_text no_text never quiet here true SIGSEGV (Siginfo 2 None 0) ""); [cbn; lia|reflexivity]. Defined.

End Witnesses.
