(* ===== verification/Context.v ===== *)
(** * The registry of modules ([core/native/context/context.c])

    Modules are found by name in a map and loaded in the order of an array of
    [MODULES_MAXIMUM] containers.  A zeroed container is [None].  The calls into
    the Dart runtime are the containers [context_load] passes to it, in order. *)
From stdpp Require Import strings.
From S2P Require Import Prelude SimpleMap SimpleMapTable Maps Events System.

Definition MODULES_MAXIMUM : Z := 64.

Section Context.
Context {M : Type} {module_ops : MapOps M module_container string} {module_laws : MapLaws M module_container string}.

Record context_structure := ContextStructure {
  context_initialized : bool;
  context_size : Z;
  context_containers : option (list (option module_container));
  context_modules : M;
}.
Implicit Types (st : context_structure).

(** [allocated]: whether [calloc] gave the array; [panic] is the outcome of
    [raise_panic(event_system_panic(ENOMEM))]. *)
Definition context_create (allocated : bool) (panic : outcome unit) st : outcome context_structure :=
  if context_initialized st then Done st else
  let containers := if allocated then Some (replicate (Z.to_nat MODULES_MAXIMUM) None) else None in
  (if allocated then Done tt else panic) ≫= fun _ =>
  Done (ContextStructure true 0 containers map_new).

Definition context_get_module st (name : string) : outcome (option Z) :=
  c ← map_find (context_modules st) name; Done (mc_module <$> (c : option module_container)).

(** A write outside the array is a fault. *)
Definition store_container st (i : Z) (c : option module_container) : outcome (list (option module_container)) :=
  l ← demand (context_containers st);
  if (0 <=? i) && (i <? Z.of_nat (length l)) then Done (<[Z.to_nat i := c]> l) else Faults.

Definition context_put_module st (name : string) (module : Z) (type : string) : outcome context_structure :=
  let container := ModuleContainer (u32 (context_size st)) name module type in
  l ← store_container st (context_size st) (Some container);
  '(_, _, modules) ← map_put (context_modules st) container;
  Done (ContextStructure (context_initialized st) (u64 (context_size st + 1)) (Some l) modules).

Definition context_remove_module st (name : string) : outcome context_structure :=
  slot ← map_slot (context_modules st) name;
  '(l, modules) ← (if negb (slot =? map_end (context_modules st)) then
      container ← map_node (context_modules st) slot;
      l ← store_container st (mc_id container) None;
      modules ← map_del (context_modules st) slot;
      Done (Some l, modules)
    else Done (context_containers st, context_modules st));
  Done (ContextStructure (context_initialized st) (u64 (context_size st - 1)) l modules).

(** The containers whose constructors the loop calls.  [dart_find_class] takes the
    length of the class name: the null name of a zeroed container is a fault. *)
Fixpoint load_from (fuel : nat) (i size : Z) (l : list (option module_container)) : outcome (list module_container) :=
  if i <? size then
    match fuel with
    | O => Spins
    | S fuel =>
        c ← demand (l !! Z.to_nat i); container ← demand c;
        rest ← load_from fuel (i + 1) size l; Done (container :: rest)
    end
  else Done [].
Definition context_load st : outcome (list module_container) :=
  l ← demand (context_containers st); load_from (S (length l)) 0 (context_size st) l.

(** ** The registry as the list of what was put *)

Context (container_key : forall c, map_key c = mc_name c).

Definition registered (cs : list module_container) : gmap string module_container :=
  foldl (fun m c => <[mc_name c := c]> m) ∅ cs.

(** The containers [cs] were put, in this order; [n] more operations fit. *)
Record context_of (cs : list module_container) (n : Z) st : Prop := {
  cx_initialized : context_initialized st = true;
  cx_size : context_size st = Z.of_nat (length cs);
  cx_max : Z.of_nat (length cs) <= MODULES_MAXIMUM;
  cx_containers : context_containers st = Some (map Some cs ++ replicate (Z.to_nat MODULES_MAXIMUM - length cs) None);
  cx_ids : forall i c, cs !! i = Some c -> mc_id c = Z.of_nat i;
  cx_valid : map_valid (context_modules st);
  cx_room : map_room (context_modules st) n;
  cx_map : map_abs (context_modules st) = registered cs;
}.

Lemma context_create_spec panic st :
  context_initialized st = false -> exists st', context_create true panic st = Done st' /\ context_of [] map_capacity st'.
Proof.
  intros Hi. unfold context_create. rewrite Hi, bind_done. eexists. split; [reflexivity|].
  split; try reflexivity; [vm_compute; discriminate| |apply map_new_valid|apply map_new_room|apply map_new_abs].
  intros i c H. discriminate.
Qed.

Lemma array_length (cs : list module_container) :
  Z.of_nat (length cs) <= MODULES_MAXIMUM ->
  length (map Some cs ++ replicate (Z.to_nat MODULES_MAXIMUM - length cs) None) = Z.to_nat MODULES_MAXIMUM.
Proof. intros. rewrite length_app, length_map, length_replicate. lia. Qed.

Lemma context_put_spec cs n st name module type :
  context_of cs n st -> 0 < n ->
  if Z.of_nat (length cs) <? MODULES_MAXIMUM then
    exists st', context_put_module st name module type = Done st'
      /\ context_of (cs ++ [ModuleContainer (Z.of_nat (length cs)) name module type]) (n - 1) st'
  else context_put_module st name module type = Faults.
Proof.
  intros [Hi Hs Hmax Hc Hids Hv Hr Hm] Hn. unfold context_put_module, store_container. cbv zeta.
  rewrite Hs, Hc. cbn [demand]. rewrite bind_done, array_length by exact Hmax.
  rewrite (proj2 (Z.leb_le 0 _)) by lia. cbn [andb]. change (Z.of_nat (Z.to_nat MODULES_MAXIMUM)) with MODULES_MAXIMUM.
  destruct (Z.ltb_spec (Z.of_nat (length cs)) MODULES_MAXIMUM) as [Hlt|Hge]; [|reflexivity].
  unfold MODULES_MAXIMUM in Hlt, Hmax.
  rewrite bind_done, (wrap_small 32) by (pow2_norm; lia).
  set (container := ModuleContainer (Z.of_nat (length cs)) name module type).
  destruct (map_put_ok (context_modules st) container n Hv Hr Hn) as (x & m' & -> & Hv' & Hr' & Ha').
  rewrite bind_done. eexists. split; [reflexivity|].
  split; cbn [context_initialized context_size context_containers context_modules]; auto.
  - rewrite wrap_small by (pow2_norm; lia). rewrite length_app. cbn. lia.
  - rewrite length_app. cbn. unfold MODULES_MAXIMUM. lia.
  - f_equal. rewrite Nat2Z.id, map_app, length_app. cbn [map length].
    rewrite insert_app_r_alt by (rewrite length_map; lia). rewrite length_map, Nat.sub_diag.
    replace (Z.to_nat MODULES_MAXIMUM - length cs)%nat with (S (Z.to_nat MODULES_MAXIMUM - (length cs + 1)))%nat
      by (unfold MODULES_MAXIMUM; lia).
    cbn. rewrite <- app_assoc. reflexivity.
  - intros i c Hic. apply lookup_app_Some in Hic as [Hic|[Hle Hic]]; [apply Hids, Hic|].
    destruct (i - length cs)%nat eqn:E; cbn in Hic; [|discriminate Hic].
    injection Hic as <-. cbn. lia.
  - rewrite Ha', Hm, container_key. unfold registered. rewrite foldl_app. reflexivity.
Qed.

Lemma get_module_spec cs n st name :
  context_of cs n st -> context_get_module st name = Done (mc_module <$> registered cs !! name).
Proof. intros Hc. unfold context_get_module. rewrite map_find_ok, (cx_map _ _ _ Hc) by apply Hc. reflexivity. Qed.

Lemma load_from_some cs : forall fuel i (l : list (option module_container)),
  0 <= i -> (length cs <= fuel)%nat -> (forall k c, cs !! k = Some c -> l !! (Z.to_nat i + k)%nat = Some (Some c)) ->
  load_from fuel i (i + Z.of_nat (length cs)) l = Done cs.
Proof.
  induction cs as [|c cs IH]; intros fuel i l Hi Hf Hl.
  - destruct fuel; cbn; rewrite (proj2 (Z.ltb_ge _ _)) by lia; reflexivity.
  - destruct fuel as [|fuel]; [cbn in Hf; lia|]. cbn [load_from]. rewrite (proj2 (Z.ltb_lt _ _)) by (cbn; lia).
    pose proof (Hl 0%nat c eq_refl) as H0. rewrite Nat.add_0_r in H0. rewrite H0. cbn [demand]. rewrite !bind_done.
    replace (i + Z.of_nat (length (c :: cs))) with (i + 1 + Z.of_nat (length cs)) by (cbn [length]; lia).
    rewrite IH; [reflexivity|lia|cbn in Hf; lia|]. intros k c' Hk. rewrite <- (Hl (S k) c' Hk). f_equal. lia.
Qed.

Lemma load_from_faults fuel i j size (l : list (option module_container)) :
  0 <= i <= j -> j < size -> j - i < Z.of_nat fuel -> (forall c, l !! Z.to_nat j <> Some (Some c)) ->
  load_from fuel i size l = Faults.
Proof.
  revert i. induction fuel as [|fuel IH]; intros i Hi Hj Hf Hl; [lia|]. cbn [load_from].
  rewrite (proj2 (Z.ltb_lt _ _)) by lia. destruct (l !! Z.to_nat i) as [[c|]|] eqn:E; [|reflexivity..].
  cbn [demand]. rewrite !bind_done, IH; [reflexivity| |lia|lia|exact Hl].
  destruct (Z.eq_dec i j) as [->|]; [destruct (Hl c E)|lia].
Qed.

Lemma context_load_done st cs rest :
  context_containers st = Some (map Some cs ++ rest) -> context_size st = Z.of_nat (length cs) ->
  context_load st = Done cs.
Proof.
  intros Hc Hs. unfold context_load. rewrite Hc, Hs. cbn [demand]. rewrite bind_done.
  apply (load_from_some cs _ 0); [lia|rewrite length_app, length_map; lia|].
  intros k c Hk. rewrite lookup_app_l by (rewrite length_map; eapply lookup_lt_Some; exact Hk).
  change (Z.to_nat 0 + k)%nat with k. change (map Some cs) with (Some <$> cs). rewrite list_lookup_fmap, Hk. reflexivity.
Qed.

Lemma load_faults st l j :
  context_containers st = Some l -> 0 <= j <= Z.of_nat (length l) -> j < context_size st ->
  (forall c, l !! Z.to_nat j <> Some (Some c)) -> context_load st = Faults.
Proof.
  intros Hc Hj Hs Hl. unfold context_load. rewrite Hc. cbn [demand]. rewrite bind_done.
  apply (load_from_faults _ 0 j); [lia|lia|lia|exact Hl].
Qed.

(** The container of a name that is registered. *)
Lemma registered_lookup cs name :
  match registered cs !! name with
  | Some c => c ∈ cs /\ mc_name c = name
  | None => name ∉ map mc_name cs
  end.
Proof.
  unfold registered. rewrite <- (reverse_involutive cs). induction (reverse cs) as [|c l IH].
  - cbn. rewrite lookup_empty. apply not_elem_of_nil.
  - rewrite reverse_cons, foldl_app. cbn [foldl]. destruct (String.eqb_spec (mc_name c) name) as [<-|Hne].
    + rewrite lookup_insert_eq. split; [apply elem_of_app; right; by apply list_elem_of_singleton|reflexivity].
    + rewrite lookup_insert_ne by exact Hne. destruct (foldl _ ∅ (reverse l) !! name) as [c'|].
      * destruct IH. split; [apply elem_of_app; auto|assumption].
      * rewrite map_app, elem_of_app. cbn. rewrite list_elem_of_singleton. intros [?|?]; [contradiction|congruence].
Qed.

Lemma context_remove_spec cs n st name :
  context_of cs n st ->
  exists st', context_remove_module st name = Done st'
    /\ context_size st' = u64 (Z.of_nat (length cs) - 1)
    /\ context_get_module st' name = Done None
    /\ (forall name', name' <> name -> context_get_module st' name' = context_get_module st name')
    /\ context_containers st' = match registered cs !! name with
         | Some c => (fun l => <[Z.to_nat (mc_id c) := None]> l) <$> context_containers st
         | None => context_containers st
         end.
Proof.
  intros Hcx. pose proof Hcx as [Hi Hs Hmax Hc Hids Hv Hr Hm]. unfold context_remove_module.
  destruct (map_slot_ok (context_modules st) name n Hv Hr) as [[-> Hno]|(i & c & m' & -> & Hne & En & Hl & Ed & Hv' & Hr' & Ha')];
    rewrite bind_done.
  - rewrite Z.eqb_refl. cbn [negb]. rewrite bind_done. rewrite Hm in Hno. rewrite Hno.
    eexists. split; [reflexivity|]. cbn [context_size context_containers]. rewrite Hs. split_and!; auto.
    unfold context_get_module. cbn [context_modules]. rewrite map_find_ok, Hm, Hno by exact Hv. reflexivity.
  - rewrite (proj2 (Z.eqb_neq _ _) Hne). cbn [negb]. rewrite En, bind_done. unfold store_container.
    rewrite Hc. cbn [demand]. rewrite bind_done, array_length by exact Hmax.
    rewrite Hm in Hl. pose proof (registered_lookup cs name) as Hreg. rewrite Hl in Hreg. destruct Hreg as [Hin _].
    apply list_elem_of_lookup in Hin as [j Hj]. pose proof (Hids _ _ Hj) as Hid. pose proof (lookup_lt_Some _ _ _ Hj).
    rewrite (proj2 (Z.leb_le _ _)), (proj2 (Z.ltb_lt _ _)) by (unfold MODULES_MAXIMUM in *; lia). cbn [andb].
    rewrite bind_done, Ed, !bind_done. eexists. split; [reflexivity|]. rewrite Hl.
    cbn [context_size context_containers]. rewrite Hs. split_and!; auto.
    + unfold context_get_module. cbn [context_modules]. rewrite map_find_ok, Ha', lookup_delete_eq by exact Hv'. reflexivity.
    + intros name' Hn'. unfold context_get_module. cbn [context_modules].
      rewrite !map_find_ok, Ha', lookup_delete_ne by (first [exact Hv'|exact Hv|congruence]). reflexivity.
Qed.

(** ** The properties *)

(** The modules put are found by name (the last one of a name) and loaded in the
    order they were put in, each with its position as its identifier; the
    sixty-fifth is written past the end of the array. *)
Theorem context_put_module_registers cs n st name module type :
  context_of cs n st -> 0 < n ->
  context_load st = Done cs
  /\ (forall name', context_get_module st name' = Done (mc_module <$> registered cs !! name'))
  /\ if Z.of_nat (length cs) <? MODULES_MAXIMUM then
       exists st', context_put_module st name module type = Done st'
         /\ context_of (cs ++ [ModuleContainer (Z.of_nat (length cs)) name module type]) (n - 1) st'
         /\ context_get_module st' name = Done (Some module)
         /\ context_load st' = Done (cs ++ [ModuleContainer (Z.of_nat (length cs)) name module type])
     else context_put_module st name module type = Faults.
Proof.
  intros Hc Hn. assert (Hload : forall cs n st, context_of cs n st -> context_load st = Done cs).
  { intros cs' n' st' H'. eapply context_load_done; apply H'. }
  split_and!; [eauto|intros; apply (get_module_spec _ _ _ _ Hc)|].
  pose proof (context_put_spec cs n st name module type Hc Hn) as G. case_match; [|exact G].
  destruct G as (st' & E & Hc'). exists st'. split_and!; [exact E|exact Hc'| |eauto].
  rewrite (get_module_spec _ _ _ _ Hc'). unfold registered. rewrite foldl_app. cbn [foldl mc_name].
  rewrite lookup_insert_eq. reflexivity.
Qed.

(** A module removed is no longer found and the others still are, but the array
    stays in order only if it was the last one put: after the removal of an
    earlier one loading dereferences the null type of its zeroed container;
    removing a name that is not registered drops the last module from loading, and
    from an empty registry it makes the size wrap around. *)
Theorem context_remove_module_breaks_load cs n st name :
  context_of cs n st ->
  exists st', context_remove_module st name = Done st'
    /\ context_get_module st' name = Done None
    /\ (forall name', name' <> name -> context_get_module st' name' = context_get_module st name')
    /\ context_load st' =
       match registered cs !! name with
       | Some c => if mc_id c =? Z.of_nat (length cs) - 1 then Done (removelast cs) else Faults
       | None => match cs with [] => Faults | _ => Done (removelast cs) end
       end.
Proof.
  intros Hcx. pose proof Hcx as [_ _ Hmax Hc Hids _ _ _].
  destruct (context_remove_spec cs n st name Hcx) as (st' & E & Hs & Hg & Ho & Hc'). exists st'. split_and!; auto.
  pose proof (registered_lookup cs name) as Hreg. rewrite Hc in Hc'.
  destruct cs as [|c0 cs0] using rev_ind.
  - cbn in Hreg. unfold registered in Hc' |- *. cbn [foldl] in *. rewrite lookup_empty in *.
    eapply (load_faults st' _ 0 Hc'); [cbn; lia|rewrite Hs; vm_compute; reflexivity|discriminate].
  - rewrite length_app in *. cbn [length] in *. unfold MODULES_MAXIMUM in Hmax.
    rewrite wrap_small in Hs by (pow2_norm; lia). rewrite removelast_last.
    assert (Hs' : context_size st' = Z.of_nat (length cs0)) by (rewrite Hs; lia).
    assert (Hsplit : map Some (cs0 ++ [c0]) = map Some cs0 ++ [Some c0]) by apply map_app. rewrite Hsplit in Hc'.
    rewrite <- app_assoc in Hc'.
    destruct (registered (cs0 ++ [c0]) !! name) as [c|].
    + destruct Hreg as [Hin _]. apply list_elem_of_lookup in Hin as [j Hj].
      rewrite (Hids _ _ Hj) in *. cbn [fmap option_fmap option_map] in Hc'. rewrite Nat2Z.id in Hc'.
      pose proof (lookup_lt_Some _ _ _ Hj) as Hlt. rewrite length_app in Hlt. cbn in Hlt.
      destruct (Z.eqb_spec (Z.of_nat j) (Z.of_nat (length cs0 + 1) - 1)).
      * rewrite insert_app_r_alt in Hc' by (rewrite length_map; lia). eapply context_load_done; [exact Hc'|exact Hs'].
      * eapply (load_faults st' _ (Z.of_nat j) Hc'); [rewrite length_insert, length_app, length_map; lia|lia|].
        intros c'. rewrite Nat2Z.id, list_lookup_insert_eq by (rewrite length_app, length_map; lia). discriminate.
    + destruct (cs0 ++ [c0]) eqn:Ec; [destruct cs0; discriminate|]. eapply context_load_done; [exact Hc'|exact Hs'].
Qed.

End Context.

(** *** The properties at work *)

Section Witnesses.
#[local] Instance container_node : SimpleMapNode module_container string := module_container_node text_length.
#[local] Instance container_node_laws : SimpleMapLaws module_container string := module_container_laws text_length.

Lemma simple_container_key (c : module_container) : map_key (M := simple_map module_container) c = mc_name c.
Proof. reflexivity. Qed.

(** A registry of two modules. *)
Definition two_modules : outcome (context_structure (M := simple_map module_container)) :=
  st ← context_create true (Done tt) (ContextStructure false 0 None map_new);
  st ← context_put_module st "core" 100 "CoreModule"; context_put_module st "memory" 200 "MemoryModule".

Definition core_container : module_container := ModuleContainer 0 "core" 100 "CoreModule".
Definition memory_container : module_container := ModuleContainer 1 "memory" 200 "MemoryModule".

Lemma two_modules_ok : exists n st, two_modules = Done st /\ context_of [core_container; memory_container] n st /\ 0 < n.
Proof.
  destruct (context_create_spec (Done tt) (ContextStructure false 0 None map_new : context_structure (M := simple_map module_container)) eq_refl)
    as (st0 & E0 & H0).
  pose proof (context_put_spec simple_container_key [] map_capacity st0 "core" 100 "CoreModule" H0 ltac:(reflexivity)) as G.
  destruct G as (st1 & E1 & H1).
  pose proof (context_put_spec simple_container_key [core_container] _ st1 "memory" 200 "MemoryModule" H1 ltac:(reflexivity)) as G.
  destruct G as (st2 & E2 & H2).
  exists (map_capacity - 1 - 1), st2. unfold two_modules. rewrite E0, bind_done, E1, bind_done, E2.
  split_and!; [reflexivity|exact H2|reflexivity].
Qed.

Lemma context_put_module_registers_witness :
  exists st, two_modules = Done st /\ context_load st = Done [core_container; memory_container]
    /\ context_get_module st "memory" = Done (Some 200).
Proof.
  destruct two_modules_ok as (n & st & E & Hc & Hn). exists st. split; [exact E|].
  destruct (context_put_module_registers simple_container_key _ n st "io" 300 "IoModule" Hc Hn) as (G1 & G2 & _).
  split; [exact G1|]. rewrite G2. vm_compute. reflexivity.
Defined.

Lemma context_remove_module_breaks_load_witness :
  exists st st', two_modules = Done st /\ context_remove_module st "core" = Done st' /\ context_load st' = Faults
    /\ context_get_module st' "memory" = Done (Some 200).
Proof.
  destruct two_modules_ok as (n & st & E & Hc & Hn). exists st.
  destruct (context_remove_module_breaks_load _ n st "core" Hc) as (st' & E' & _ & G1 & G2). exists st'.
  split_and!; [exact E|exact E'|rewrite G2; vm_compute; reflexivity|].
  rewrite G1 by discriminate. rewrite (get_module_spec _ _ _ _ Hc). vm_compute. reflexivity.
Defined.

End Witnesses.
