(* ===== verification/StaticBuffers.v ===== *)
(** * Static buffers ([memory/native/memory/static_buffers.h])

    A pool of [capacity] buffers of [size] bytes, with the stack of the numbers
    of the free ones, and what a client does with a buffer it holds
    ([memory/dart/lib/memory/buffers.dart]). *)
From stdpp Require Import strings sorting.
From S2P Require Import Prelude Time Events System.

Definition MODULE_ERROR_CODE : Z := -1997.

Record iovec := Iovec { iov_base : Z; iov_bytes : list Z; iov_len : Z }.

Record memory_static_buffers := StaticBuffers {
  available : Z;
  size : Z;
  capacity : Z;
  ids : list Z;
  buffers : list iovec;
}.
Implicit Types (pool : memory_static_buffers).

(** [ids[i] = id]: a write outside the array is a fault. *)
Definition store_id (l : list Z) (i id : Z) : outcome (list Z) :=
  if (0 <=? i) && (i <? Z.of_nat (length l)) then Done (<[Z.to_nat i := id]> l) else Faults.

(** A zeroed buffer of [size] bytes at an address. *)
Definition zeroed (address size : Z) : iovec := Iovec address (replicate (Z.to_nat size) 0) size.

(** The loop of [create]: [memalign index] is what [posix_memalign] gives, [None]
    for an error; then the pool, but not the buffers already made, is freed and
    the result is null. *)
Fixpoint create_loop (fuel : nat) (memalign : Z -> option Z) (index : Z) pool : outcome (option memory_static_buffers) :=
  if index <? capacity pool then
    match fuel with
    | O => Spins
    | S fuel =>
        match memalign index with
        | None => Done None
        | Some address =>
            l ← store_id (ids pool) (available pool) (i32 index);
            create_loop fuel memalign (index + 1)
              (StaticBuffers (u64 (available pool + 1)) (size pool) (capacity pool) l
                 (buffers pool ++ [zeroed address (size pool)]))
        end
    end
  else Done (Some pool).

Definition memory_static_buffers_create (memalign : Z -> option Z) (capacity size : Z) : outcome (option memory_static_buffers) :=
  create_loop (Z.to_nat capacity) memalign 0 (StaticBuffers 0 size capacity (replicate (Z.to_nat capacity) 0) []).

Definition memory_static_buffers_push pool (id : Z) : outcome memory_static_buffers :=
  if 0 <=? id then
    buffer ← demand (buffers pool !! Z.to_nat id);
    l ← store_id (ids pool) (available pool) id;
    Done (StaticBuffers (u64 (available pool + 1)) (size pool) (capacity pool) l
            (<[Z.to_nat id := zeroed (iov_base buffer) (size pool)]> (buffers pool)))
  else Faults.

(** The event of an empty pool, at a place in the code. *)
Definition memory_error_buffers_unavailable (p : place) : outcome event :=
  e ← event_at p EVENT_LEVEL_ERROR (event_module_fields 0 ++ [EventField EVENT_FIELD_MESSAGE (event_field_set_string "No buffers in pool")]);
  Done (event_setup e "memory").

(** The result, the event of the thread and the pool; [stack_trace] is the one
    the event gets, if any. *)
Definition memory_static_buffers_pop (p : place) (stack_trace : option string) (local : option event) pool
    : outcome (Z * option event * memory_static_buffers) :=
  if available pool =? 0 then
    e ← memory_error_buffers_unavailable p;
    local ← event_propagate_local stack_trace (Some e);
    Done (MODULE_ERROR_CODE, local, pool)
  else
    let top := u64 (available pool - 1) in
    id ← demand (ids pool !! Z.to_nat top);
    Done (id, local, StaticBuffers top (size pool) (capacity pool) (ids pool) (buffers pool)).

Definition memory_static_buffers_used pool : Z := i32 (capacity pool - available pool).

(** The buffers freed, in order; then the arrays and the pool are. *)
Fixpoint destroy_loop (fuel : nat) (index : Z) pool : outcome (list Z) :=
  if index <? capacity pool then
    match fuel with
    | O => Spins
    | S fuel => buffer ← demand (buffers pool !! Z.to_nat index); l ← destroy_loop fuel (index + 1) pool; Done (iov_base buffer :: l)
    end
  else Done [].
Definition memory_static_buffers_destroy pool : outcome (list Z) := destroy_loop (Z.to_nat (capacity pool)) 0 pool.

(** *** The clients

    The fields of a buffer are shared with Dart, which sets the length to what it
    uses of the buffer. *)
Definition setLength pool (bufferId length : Z) : outcome memory_static_buffers :=
  if 0 <=? bufferId then
    buffer ← demand (buffers pool !! Z.to_nat bufferId);
    Done (StaticBuffers (available pool) (size pool) (capacity pool) (ids pool)
            (<[Z.to_nat bufferId := Iovec (iov_base buffer) (iov_bytes buffer) (u64 length)]> (buffers pool)))
  else Faults.

(** Bytes at the start of a buffer; past its end is a fault. *)
Definition write pool (bufferId : Z) (bytes : list Z) : outcome memory_static_buffers :=
  if 0 <=? bufferId then
    buffer ← demand (buffers pool !! Z.to_nat bufferId);
    if (length bytes <=? length (iov_bytes buffer))%nat then
      Done (StaticBuffers (available pool) (size pool) (capacity pool) (ids pool)
              (<[Z.to_nat bufferId := Iovec (iov_base buffer) (bytes ++ drop (length bytes) (iov_bytes buffer))
                                        (u64 (Z.of_nat (length bytes)))]> (buffers pool)))
    else Faults
  else Faults.

(** ** The pool and its clients

    [free pool] is the stack, [taken] the numbers the clients hold.  Every buffer has
    a block of [size] bytes; only the free ones have it as their length. *)

Definition free pool : list Z := take (Z.to_nat (available pool)) (ids pool).

Definition whole (l : list iovec) (n id : Z) : Prop := exists b, l !! Z.to_nat id = Some b /\ iov_len b = n.

Record pool_wf pool (taken : list Z) : Prop := {
  pw_available : 0 <= available pool <= capacity pool;
  pw_capacity : capacity pool < 2 ^ 31;
  pw_ids : Z.of_nat (length (ids pool)) = capacity pool;
  pw_buffers : Z.of_nat (length (buffers pool)) = capacity pool;
  pw_block : Forall (fun b => Z.of_nat (length (iov_bytes b)) = size pool) (buffers pool);
  pw_whole : Forall (whole (buffers pool) (size pool)) (free pool);
  pw_partition : free pool ++ taken ≡ₚ seqZ 0 (capacity pool);
}.

Lemma free_length pool taken : pool_wf pool taken -> Z.of_nat (length (free pool)) = available pool.
Proof. intros [Ha Hc Hi _ _ _ _]. unfold free. rewrite length_take. lia. Qed.

Lemma pool_count pool taken : pool_wf pool taken -> available pool + Z.of_nat (length taken) = capacity pool.
Proof.
  intros Hw. pose proof (free_length _ _ Hw) as Hf. pose proof (Permutation_length (pw_partition _ _ Hw)) as Hp.
  rewrite length_app, length_seqZ in Hp. pose proof (pw_available _ _ Hw). lia.
Qed.

Lemma pool_NoDup pool taken : pool_wf pool taken -> NoDup (free pool ++ taken).
Proof. intros Hw. rewrite (pw_partition _ _ Hw). apply NoDup_seqZ. Qed.

Lemma pool_range pool taken id : pool_wf pool taken -> id ∈ free pool ++ taken -> 0 <= id < capacity pool.
Proof. intros Hw. rewrite (pw_partition _ _ Hw), elem_of_seqZ. lia. Qed.

(** The buffer of a client may be changed. *)
Lemma whole_insert l bs n id b : 0 <= id -> Forall (Z.le 0) l -> id ∉ l -> Forall (whole bs n) l ->
  Forall (whole (<[Z.to_nat id := b]> bs) n) l.
Proof.
  intros Hid Hl Hn Hw. rewrite Forall_forall in *. intros i Hi. destruct (Hw i Hi) as (b' & E & L). exists b'. split; [|exact L].
  rewrite list_lookup_insert_ne; [exact E|]. intros Ei. specialize (Hl i Hi). apply Hn. by replace id with i by lia.
Qed.

Definition with_buffer pool (id : Z) (b : iovec) : memory_static_buffers :=
  StaticBuffers (available pool) (size pool) (capacity pool) (ids pool) (<[Z.to_nat id := b]> (buffers pool)).

Lemma client_keeps pool taken id b : pool_wf pool taken -> id ∈ taken -> Z.of_nat (length (iov_bytes b)) = size pool ->
  pool_wf (with_buffer pool id b) taken.
Proof.
  intros Hw Hid Hb. pose proof (pool_range _ _ id Hw ltac:(set_solver)) as Hr.
  assert (Hn : id ∉ free pool) by (pose proof (pool_NoDup _ _ Hw) as Hnd; apply NoDup_app in Hnd as (_ & Hd & _); intros Hf; by apply (Hd id)).
  assert (Hpos : Forall (Z.le 0) (free pool)).
  { apply Forall_forall. intros i Hi. pose proof (pool_range _ _ i Hw ltac:(set_solver)). lia. }
  destruct Hw as [Ha Hc Hi Hl Hk Hf Hp]. split; auto; cbn [with_buffer buffers capacity].
  - by rewrite length_insert.
  - apply Forall_insert; [exact Hk|exact Hb].
  - change (free (with_buffer pool id b)) with (free pool). apply whole_insert; [lia|done..].
Qed.

Lemma client_buffer pool taken id : pool_wf pool taken -> id ∈ taken -> 0 <= id /\
  exists b, buffers pool !! Z.to_nat id = Some b /\ Z.of_nat (length (iov_bytes b)) = size pool.
Proof.
  intros Hw Hid. pose proof (pool_range _ _ id Hw ltac:(set_solver)) as Hr. split; [lia|]. destruct Hw as [Ha Hc Hi Hl Hk Hf Hp].
  destruct (lookup_lt_is_Some_2 (buffers pool) (Z.to_nat id) ltac:(lia)) as [b E]. exists b. split; [exact E|].
  exact (Forall_lookup_1 _ _ _ _ Hk E).
Qed.

Lemma seqZ_snoc n : 0 <= n -> seqZ 0 (n + 1) = seqZ 0 n ++ [n].
Proof. intros. rewrite seqZ_app by lia. reflexivity. Qed.

Lemma create_loop_done memalign fuel : forall index pool,
  (forall i, is_Some (memalign i)) -> 0 <= index -> capacity pool - index = Z.of_nat fuel -> 0 <= size pool ->
  available pool = index -> capacity pool < 2 ^ 31 -> Z.of_nat (length (ids pool)) = capacity pool ->
  Z.of_nat (length (buffers pool)) = index ->
  Forall (fun b => iov_len b = size pool /\ Z.of_nat (length (iov_bytes b)) = size pool) (buffers pool) ->
  free pool = seqZ 0 index ->
  exists pool', create_loop fuel memalign index pool = Done (Some pool') /\ pool_wf pool' []
    /\ available pool' = capacity pool /\ capacity pool' = capacity pool /\ size pool' = size pool.
Proof.
  induction fuel as [|fuel IH]; intros index pool Hm Hi Hf Hsz Ha Hc Hids Hb Hbs Hfree; cbn [create_loop].
  - rewrite (proj2 (Z.ltb_ge _ _)) by lia. exists pool. split_and!; auto; [|lia].
    split; auto; [lia|lia| | |].
    + eapply Forall_impl; [exact Hbs|]. by intros b [_ ?].
    + rewrite Hfree. apply Forall_forall. intros id Hid%elem_of_seqZ.
      destruct (lookup_lt_is_Some_2 (buffers pool) (Z.to_nat id) ltac:(lia)) as [b E].
      exists b. split; [exact E|]. by destruct (Forall_lookup_1 _ _ _ _ Hbs E).
    + rewrite app_nil_r, Hfree. replace index with (capacity pool) by lia. reflexivity.
  - rewrite (proj2 (Z.ltb_lt _ _)) by lia. destruct (Hm index) as [address ->]. unfold store_id.
    rewrite Ha, (proj2 (Z.leb_le _ _)), (proj2 (Z.ltb_lt _ _)) by lia. cbn [andb]. rewrite bind_done.
    rewrite swrap_small, wrap_small by (pow2_norm; lia).
    edestruct (IH (index + 1) (StaticBuffers (index + 1) (size pool) (capacity pool) (<[Z.to_nat index:=index]> (ids pool))
       (buffers pool ++ [zeroed address (size pool)]))) as (pool' & E & Hw & H1 & H2 & H3);
      cbn [available size capacity ids buffers]; try assumption; try lia.
    + rewrite length_insert. exact Hids.
    + rewrite length_app. cbn. lia.
    + apply Forall_app. split; [exact Hbs|]. apply Forall_singleton. cbn. rewrite length_replicate. lia.
    + unfold free in *. cbn [available ids]. replace (Z.to_nat (index + 1)) with (S (Z.to_nat index)) by lia.
      rewrite take_insert_snoc by lia. rewrite Ha in Hfree. rewrite Hfree, seqZ_snoc by lia. reflexivity.
    + exists pool'. cbn [available size capacity] in *. auto.
Qed.

(** A number from the top of the stack. *)
Lemma pop_takes pool taken p stack_trace local : pool_wf pool taken ->
  if available pool =? 0 then
    exists e, memory_static_buffers_pop p stack_trace local pool = Done (MODULE_ERROR_CODE, Some e, pool)
  else exists id pool' buffer, memory_static_buffers_pop p stack_trace local pool = Done (id, local, pool')
    /\ 0 <= id < capacity pool /\ id ∉ taken /\ buffers pool' = buffers pool /\ pool_wf pool' (id :: taken)
    /\ buffers pool' !! Z.to_nat id = Some buffer /\ iov_len buffer = size pool /\ Z.of_nat (length (iov_bytes buffer)) = size pool.
Proof.
  intros Hw. pose proof Hw as [Ha Hc Hids Hb Hk Hf Hp].
  destruct (Z.eqb_spec (available pool) 0) as [E0|E0]; unfold memory_static_buffers_pop.
  - rewrite E0. cbn [Z.eqb]. destruct stack_trace; eexists; reflexivity.
  - rewrite (proj2 (Z.eqb_neq _ _) E0). cbv zeta. rewrite (wrap_small 64) by (pow2_norm; lia).
    destruct (lookup_lt_is_Some_2 (ids pool) (Z.to_nat (available pool - 1)) ltac:(lia)) as [id Eid].
    rewrite Eid. cbn [demand]. rewrite bind_done.
    assert (Hfree : free pool = take (Z.to_nat (available pool - 1)) (ids pool) ++ [id]).
    { unfold free. replace (Z.to_nat (available pool)) with (S (Z.to_nat (available pool - 1))) by lia.
      apply take_S_r. exact Eid. }
    rewrite Hfree in Hf. apply Forall_app in Hf as [Hrest (b & Eb & Lb)%Forall_singleton].
    assert (Hin : id ∈ free pool) by (rewrite Hfree; set_solver).
    exists id. eexists. exists b. split; [reflexivity|]. split_and!; [apply (pool_range _ _ _ Hw); set_solver..| |reflexivity| |exact Eb|exact Lb|].
    + pose proof (pool_NoDup _ _ Hw) as Hnd. apply NoDup_app in Hnd as (_ & Hd & _). apply Hd, Hin.
    + split; cbn [available size capacity ids buffers]; auto; [lia|].
      unfold free. cbn [available ids capacity]. rewrite <- Hp, Hfree. cbn [app].
      rewrite <- app_assoc. reflexivity.
    + exact (Forall_lookup_1 _ _ _ _ Hk Eb).
Qed.

(** A number back on the stack, its buffer as it was made. *)
Lemma push_gives_back pool taken id : pool_wf pool taken -> id ∈ taken ->
  exists pool' buffer, memory_static_buffers_push pool id = Done pool'
    /\ buffers pool !! Z.to_nat id = Some buffer
    /\ buffers pool' !! Z.to_nat id = Some (zeroed (iov_base buffer) (size pool))
    /\ (forall taken', taken ≡ₚ id :: taken' -> pool_wf pool' taken').
Proof.
  intros Hw Hid. pose proof (pool_count _ _ Hw) as Hcount.
  destruct (client_buffer _ _ _ Hw Hid) as (Hz & buffer & Eb & Lb).
  assert (Hlt : available pool < capacity pool) by (destruct taken; [inversion Hid|cbn in Hcount; lia]).
  pose proof (client_keeps pool taken id (zeroed (iov_base buffer) (size pool)) Hw Hid ltac:(cbn; rewrite length_replicate; lia)) as Hk.
  assert (Eb' : <[Z.to_nat id := zeroed (iov_base buffer) (size pool)]> (buffers pool) !! Z.to_nat id = Some (zeroed (iov_base buffer) (size pool)))
    by (apply list_lookup_insert_eq; by apply lookup_lt_is_Some_1).
  destruct Hk as [Ha Hc Hids Hb Hbl Hf Hp]. cbn [with_buffer available capacity ids] in Ha, Hc, Hids.
  unfold memory_static_buffers_push, store_id. rewrite (proj2 (Z.leb_le 0 id)), Eb by lia. cbn [demand].
  rewrite bind_done, (proj2 (Z.leb_le _ _)), (proj2 (Z.ltb_lt _ _)) by lia. cbn [andb]. rewrite bind_done.
  eexists. exists buffer. split; [reflexivity|]. split; [reflexivity|]. split; [exact Eb'|].
  intros taken' Ht. rewrite (wrap_small 64) by (pow2_norm; lia).
  assert (Hfree : free (StaticBuffers (available pool + 1) (size pool) (capacity pool) (<[Z.to_nat (available pool) := id]> (ids pool))
      (<[Z.to_nat id := zeroed (iov_base buffer) (size pool)]> (buffers pool))) = free pool ++ [id]).
  { unfold free. cbn [available ids]. replace (Z.to_nat (available pool + 1)) with (S (Z.to_nat (available pool))) by lia.
    apply take_insert_snoc. lia. }
  split; rewrite ?Hfree; cbn [available size capacity ids buffers]; auto; [lia|rewrite length_insert; exact Hids| |].
  - apply Forall_app. split; [exact Hf|]. apply Forall_singleton. exists (zeroed (iov_base buffer) (size pool)). split; [exact Eb'|done].
  - cbn [with_buffer capacity] in Hp. rewrite <- Hp, Ht, <- app_assoc. reflexivity.
Qed.

(** ** The properties *)

(** A new pool has every buffer free, zeroed and of the given size. *)
Theorem static_buffers_create_full memalign capacity_ size_ :
  (forall i, is_Some (memalign i)) -> 0 <= capacity_ < 2 ^ 31 -> 0 <= size_ ->
  exists pool, memory_static_buffers_create memalign capacity_ size_ = Done (Some pool)
    /\ pool_wf pool [] /\ capacity pool = capacity_ /\ size pool = size_
    /\ memory_static_buffers_used pool = 0.
Proof.
  intros Hm Hc Hs. unfold memory_static_buffers_create.
  destruct (create_loop_done memalign (Z.to_nat capacity_) 0
    (StaticBuffers 0 size_ capacity_ (replicate (Z.to_nat capacity_) 0) [])) as (pool & E & Hw & H1 & H2 & H3);
    cbn [available size capacity ids buffers] in *; auto; try lia.
  - rewrite length_replicate. lia.
  - exists pool. split_and!; auto. unfold memory_static_buffers_used. rewrite H1, H2, Z.sub_diag. reflexivity.
Qed.

(** C29: the pool and its clients share the buffers without overlap.  A pop hands out
    a number that no client holds, with its whole buffer (a block of the size of the
    pool, and that size as its length), or fails with the module error code and the
    event of the thread when all are taken.  A client may give the buffer it holds
    any length and write to its block, though not past the end: the pool stays as it
    should be.  A client that pushes a number it holds gives the buffer back, zeroed
    and with its whole length again; the count of used buffers is the number of taken
    ones; pushing into a full pool writes past the end of the stack. *)
Theorem static_buffers_exclusive pool taken p stack_trace local :
  pool_wf pool taken ->
  memory_static_buffers_used pool = Z.of_nat (length taken)
  /\ (if available pool =? 0 then
       exists e, memory_static_buffers_pop p stack_trace local pool = Done (MODULE_ERROR_CODE, Some e, pool)
     else exists id pool' buffer, memory_static_buffers_pop p stack_trace local pool = Done (id, local, pool')
         /\ 0 <= id < capacity pool /\ id ∉ taken /\ buffers pool' = buffers pool /\ pool_wf pool' (id :: taken)
         /\ buffers pool' !! Z.to_nat id = Some buffer
         /\ iov_len buffer = size pool /\ Z.of_nat (length (iov_bytes buffer)) = size pool)
  /\ (forall id n, id ∈ taken -> exists pool' buffer, setLength pool id n = Done pool' /\ pool_wf pool' taken
       /\ buffers pool' !! Z.to_nat id = Some buffer /\ iov_len buffer = u64 n)
  /\ (forall id bytes, id ∈ taken ->
       if Z.of_nat (length bytes) <=? size pool
       then exists pool' buffer, write pool id bytes = Done pool' /\ pool_wf pool' taken
         /\ buffers pool' !! Z.to_nat id = Some buffer /\ take (length bytes) (iov_bytes buffer) = bytes
       else write pool id bytes = Faults)
  /\ (forall id, id ∈ taken -> exists pool' buffer, memory_static_buffers_push pool id = Done pool'
       /\ buffers pool !! Z.to_nat id = Some buffer
       /\ buffers pool' !! Z.to_nat id = Some (zeroed (iov_base buffer) (size pool))
       /\ (forall taken', taken ≡ₚ id :: taken' -> pool_wf pool' taken'))
  /\ (taken = [] -> forall id, 0 <= id < capacity pool -> memory_static_buffers_push pool id = Faults).
Proof.
  intros Hw. pose proof (pool_count _ _ Hw) as Hcount. split_and!.
  - pose proof (pw_available _ _ Hw). pose proof (pw_capacity _ _ Hw).
    unfold memory_static_buffers_used. rewrite swrap_small by (pow2_norm; lia). lia.
  - by apply pop_takes.
  - intros id n Hid. destruct (client_buffer _ _ _ Hw Hid) as (Hz & b & Eb & Lb).
    unfold setLength. rewrite (proj2 (Z.leb_le 0 id)), Eb by lia. cbn [demand]. rewrite bind_done. eexists _, _. split; [reflexivity|].
    split; [by apply (client_keeps pool taken id (Iovec _ _ _) Hw Hid)|]. split; [apply list_lookup_insert_eq; by apply lookup_lt_is_Some_1|done].
  - intros id bytes Hid. destruct (client_buffer _ _ _ Hw Hid) as (Hz & b & Eb & Lb).
    unfold write. rewrite (proj2 (Z.leb_le 0 id)), Eb by lia. cbn [demand]. rewrite bind_done.
    destruct (Z.leb_spec (Z.of_nat (length bytes)) (size pool)) as [Hl|Hl].
    + rewrite (proj2 (Nat.leb_le _ _)) by lia. eexists _, _. split; [reflexivity|]. split.
      * apply (client_keeps pool taken id (Iovec _ _ _) Hw Hid). cbn. rewrite length_app, length_drop. lia.
      * split; [apply list_lookup_insert_eq; by apply lookup_lt_is_Some_1|]. cbn. by rewrite take_app_length.
    + by rewrite (proj2 (Nat.leb_gt _ _)) by lia.
  - intros id Hid. by apply push_gives_back.
  - intros -> id Hid. cbn in Hcount. pose proof Hw as [Ha Hc Hids Hb _ _ _]. unfold memory_static_buffers_push, store_id.
    destruct (lookup_lt_is_Some_2 (buffers pool) (Z.to_nat id) ltac:(lia)) as [buffer Eb].
    rewrite (proj2 (Z.leb_le 0 id)), Eb by lia. cbn [demand].
    rewrite bind_done, (proj2 (Z.leb_le 0 (available pool))), (proj2 (Z.ltb_ge _ _)) by lia. reflexivity.
Qed.

(** *** The properties at work *)

Definition at_address (i : Z) : option Z := Some (4096 * (i + 1)).

Lemma small_pool : exists pool, memory_static_buffers_create at_address 2 8 = Done (Some pool) /\ pool_wf pool [] /\ available pool = 2 /\ size pool = 8.
Proof.
  destruct (create_loop_done at_address 2 0 (StaticBuffers 0 8 2 [0; 0] [])) as (pool & E & Hw & H1 & H2 & H3);
    cbn [available size capacity ids buffers length] in *; try lia; [intros; eexists; reflexivity|constructor|reflexivity|].
  exists pool. split_and!; [exact E|exact Hw|lia|lia].
Qed.

Lemma static_buffers_create_full_witness :
  exists pool, memory_static_buffers_create at_address 2 8 = Done (Some pool) /\ pool_wf pool []
    /\ memory_static_buffers_destroy pool = Done [4096; 8192].
Proof.
  destruct (static_buffers_create_full at_address 2 8) as (pool & E & Hw & _); [intros; eexists; reflexivity|lia|lia|].
  exists pool. split_and!; [exact E|exact Hw|].
  assert (E' : memory_static_buffers_create at_address 2 8 = Done (Some (StaticBuffers 2 8 2 [0; 1] [zeroed 4096 8; zeroed 8192 8])))
    by (vm_compute; reflexivity).
  rewrite E' in E. injection E as <-. vm_compute. reflexivity.
Defined.

Lemma static_buffers_exclusive_witness :
  exists pool id pool' buffer, memory_static_buffers_create at_address 2 8 = Done (Some pool)
    /\ memory_static_buffers_pop (Place "f" "f.c" 1 (Timespec 0 0)) None None pool = Done (id, None, pool') /\ pool_wf pool' [id]
    /\ buffers pool' !! Z.to_nat id = Some buffer /\ iov_len buffer = 8.
Proof.
  destruct small_pool as (pool & E & Hw & Ha & Hs).
  destruct (static_buffers_exclusive pool [] (Place "f" "f.c" 1 (Timespec 0 0)) None None Hw) as (_ & G & _).
  rewrite Ha in G. destruct G as (id & pool' & buffer & Ep & _ & _ & _ & Hw' & Eb & Lb & _).
  exists pool, id, pool', buffer. split_and!; [exact E|exact Ep|exact Hw'|exact Eb|by rewrite Lb, Hs].
Defined.
