(* ===== verification/Memory.v ===== *)
(** * Memory ([memory/native/memory/memory.h], [io_buffers.h])

    Wrappers around the slab allocators and the input and output buffers of the
    [small] library, which is not part of the repository: its operations are the
    classes [Slab], [Ibuf] and [Obuf], with the behaviour the wrappers rely on as
    laws.  The contents of the memory are not modelled; writing through a null
    pointer is a fault. *)
From S2P Require Import Prelude.

(** [memset(p, 0, size)]. *)
Definition memset_zero (p : option Z) (size : Z) : outcome unit :=
  match p with Some _ => Done tt | None => if size =? 0 then Done tt else Faults end.

(** ** The instance and its pools *)

(** [quota_init], [slab_arena_create] (zero on success), [slab_cache_create], then
    [mempool_create], [mempool_is_initialized], [mempool_alloc], [mempool_free],
    [small_alloc_create], [smalloc], [smfree], and the destructors. *)
Class Slab (Quota Arena Cache Mempool Small : Type) := {
  quota_init : Z -> Quota;
  quota_used : Quota -> Z;
  quota_release : Quota -> Z -> Quota;
  slab_arena_create : Quota -> Z -> Z -> Z * Arena * Quota;
  slab_arena_destroy : Arena -> Quota -> Quota;
  slab_cache_create : Arena -> Cache;
  slab_cache_destroy : Cache -> Arena -> Arena;
  mempool_create : Cache -> Z -> Mempool * Cache;
  mempool_is_initialized : Mempool -> bool;
  mempool_alloc : Mempool -> option Z * Mempool;
  mempool_free : Mempool -> Z -> Mempool;
  small_alloc_create : Cache -> Z -> Z -> Small * Cache;
  small_alloc_has_cache : Small -> bool;
  smalloc : Small -> Z -> option Z * Small;
  smfree : Small -> Z -> Z -> Small;
}.

Section Instance.
Context {Quota Arena Cache Mempool Small : Type} {slab : Slab Quota Arena Cache Mempool Small}.

Record memory_instance := MemoryInstance { quota : Quota; arena : Arena; cache : Cache }.
Record memory_pool := MemoryPool { object_size : Z; pool : Mempool }.

(** [allocated]: whether the structure itself could be allocated. *)
Definition memory_create (allocated : bool) (quota_size preallocation_size slab_size : Z) : option memory_instance :=
  if allocated then
    let q := quota_init quota_size in
    let '(result, a, q) := slab_arena_create q preallocation_size slab_size in
    if negb (result =? 0) then None else Some (MemoryInstance q a (slab_cache_create a))
  else None.

(** What is left of the quota when the structure is freed. *)
Definition memory_destroy (m : memory_instance) : Quota :=
  let a := slab_cache_destroy (cache m) (arena m) in
  let q := slab_arena_destroy a (quota m) in
  if negb (quota_used q =? 0) then quota_release q (quota_used q) else q.

(** The structure is written without a check that it was allocated. *)
Definition memory_pool_create (allocated : bool) (m : memory_instance) (size : Z) : outcome (option memory_pool * memory_instance) :=
  if allocated then
    let '(p, c) := mempool_create (cache m) size in
    let m := MemoryInstance (quota m) (arena m) c in
    Done (if mempool_is_initialized p then Some (MemoryPool size p) else None, m)
  else Faults.

Definition memory_pool_allocate (p : memory_pool) : outcome (option Z * memory_pool) :=
  let '(data, q) := mempool_alloc (pool p) in
  memset_zero data (object_size p) ≫= fun _ => Done (data, MemoryPool (object_size p) q).
Definition memory_pool_free (p : memory_pool) (data : Z) : memory_pool := MemoryPool (object_size p) (mempool_free (pool p) data).

Definition memory_small_allocator_create (allocated : bool) (m : memory_instance) (factor : Z)
    : outcome (option Small * memory_instance) :=
  if allocated then
    let '(s, c) := small_alloc_create (cache m) 12 factor in
    Done (if small_alloc_has_cache s then Some s else None, MemoryInstance (quota m) (arena m) c)
  else Faults.
Definition memory_small_allocator_allocate (s : Small) (size : Z) : option Z * Small := smalloc s size.
Definition memory_small_allocator_free (s : Small) (data size : Z) : Small := smfree s data size.

(** *** The pair of pools for buffers *)

Record memory_io_buffers := IoBuffers { instance : memory_instance; input_buffers : memory_pool; output_buffers : memory_pool }.

(** The sizes of the two structures. *)
Context (sizeof_input sizeof_output : Z).

(** The second failure frees the structure but not the first pool. *)
Definition memory_io_buffers_create (allocated allocated_input allocated_output : bool) (m : memory_instance)
    : outcome (option memory_io_buffers * memory_instance) :=
  if allocated then
    '(input, m) ← memory_pool_create allocated_input m sizeof_input;
    match input with
    | None => Done (None, m)
    | Some input =>
        '(output, m) ← memory_pool_create allocated_output m sizeof_output;
        match output with
        | None => Done (None, m)
        | Some output => Done (Some (IoBuffers m input output), m)
        end
    end
  else Done (None, m).

(** A pool that is exhausted is a fault: the null check of the callers comes after
    the [memset] of [memory_pool_allocate]. *)
Lemma pool_exhausted p q :
  mempool_alloc (pool p) = (None, q) -> object_size p <> 0 -> memory_pool_allocate p = Faults.
Proof. intros E Hs. unfold memory_pool_allocate. rewrite E. cbn. rewrite (proj2 (Z.eqb_neq _ _) Hs). reflexivity. Qed.

End Instance.

(** ** Input buffers *)

Class Ibuf (I : Type) := {
  ibuf_rpos : I -> Z;
  ibuf_wpos : I -> Z;
  ibuf_start_capacity : I -> Z;
  ibuf_used : I -> Z;
  ibuf_unused : I -> Z;
  ibuf_create : Z -> I;
  ibuf_reserve : I -> Z -> option Z * I;
  ibuf_alloc : I -> Z -> option Z * I;
}.

Class IbufLaws (I : Type) `{Ibuf I} := {
  ibuf_used_def i : ibuf_used i = ibuf_wpos i - ibuf_rpos i;
  ibuf_start_nonneg i : 0 <= ibuf_start_capacity i;
  ibuf_reserve_ok i n p i' : 0 <= n -> ibuf_reserve i n = (Some p, i') ->
    p = ibuf_wpos i' /\ ibuf_used i' = ibuf_used i /\ n <= ibuf_unused i';
  ibuf_alloc_room i n : 0 <= n <= ibuf_unused i -> exists i',
    ibuf_alloc i n = (Some (ibuf_wpos i), i') /\ ibuf_rpos i' = ibuf_rpos i
    /\ ibuf_used i' = ibuf_used i + n /\ ibuf_unused i' = ibuf_unused i - n;
}.

Section Input.
Context {I : Type} `{Ibuf I}.

Record memory_input_buffer := InputBuffer {
  read_position : Z;
  write_position : Z;
  used : Z;
  unused : Z;
  input_buffer : I;
}.
Implicit Types (b : memory_input_buffer).

(** The fields the other side reads, from the buffer itself. *)
Definition refresh (i : I) : memory_input_buffer := InputBuffer (ibuf_rpos i) (ibuf_wpos i) (ibuf_used i) (ibuf_unused i) i.
Definition with_input b (i : I) : memory_input_buffer := InputBuffer (read_position b) (write_position b) (used b) (unused b) i.

(** The structure comes zeroed from its pool. *)
Definition memory_io_buffers_allocate_input (initial_capacity : Z) : memory_input_buffer :=
  let i := ibuf_create initial_capacity in InputBuffer (ibuf_rpos i) (ibuf_wpos i) 0 0 i.

Definition memory_input_buffer_reserve b (size : Z) : outcome (option Z * memory_input_buffer) :=
  let i := input_buffer b in
  let '(reserved, i) := ibuf_reserve i (if negb (size =? 0) then size else ibuf_start_capacity i) in
  memset_zero reserved size ≫= fun _ =>
  match reserved with None => Done (None, with_input b i) | Some _ => Done (reserved, refresh i) end.

Definition memory_input_buffer_finalize b (size : Z) : option Z * memory_input_buffer :=
  let '(allocated, i) := ibuf_alloc (input_buffer b) size in
  match allocated with None => (None, with_input b i) | Some _ => (allocated, refresh i) end.

Definition memory_input_buffer_finalize_reserve b (delta size : Z) : outcome (option Z * memory_input_buffer) :=
  let '(_, i) := ibuf_alloc (input_buffer b) delta in
  memory_input_buffer_reserve (with_input b i) size.

Definition mirrors b : Prop := b = refresh (input_buffer b).

Context `{!IbufLaws I}.

(** The positions and sizes a reader sees are those of the buffer after every
    successful call: a reservation gives room for the size asked for and keeps the
    data; finalizing at most the room commits that many bytes at the write
    position, so that a reservation and a finalization append them; a reservation
    that fails is not reported for a size other than 0, its null is written to. *)
Theorem input_buffer_mirrors b size delta :
  mirrors b -> 0 <= size -> 0 <= delta <= unused b ->
  (exists b', memory_input_buffer_finalize b delta = (Some (write_position b), b') /\ mirrors b'
     /\ read_position b' = read_position b /\ write_position b' = write_position b + delta
     /\ used b' = used b + delta /\ unused b' = unused b - delta)
  /\ (forall p b', memory_input_buffer_reserve b size = Done (Some p, b') ->
       mirrors b' /\ p = write_position b' /\ used b' = used b /\ size <= unused b')
  /\ (forall p b', memory_input_buffer_finalize_reserve b delta size = Done (Some p, b') ->
       mirrors b' /\ p = write_position b' /\ used b' = used b + delta /\ size <= unused b')
  /\ (forall i, size <> 0 -> ibuf_reserve (input_buffer b) size = (None, i) ->
       memory_input_buffer_reserve b size = Faults).
Proof.
  intros Hm Hs Hd. rewrite Hm in Hd |- *. set (i := input_buffer b) in *. clearbody i. clear Hm b. cbn [unused refresh] in Hd.
  assert (Hres : forall b p b', memory_input_buffer_reserve b size = Done (Some p, b') ->
      mirrors b' /\ p = write_position b' /\ used b' = ibuf_used (input_buffer b) /\ size <= unused b').
  { clear i Hd. intros b p b' E. unfold memory_input_buffer_reserve in E. set (i := input_buffer b) in *. clearbody i.
    destruct (ibuf_reserve i _) as [[q|] i'] eqn:Er; cbn [memset_zero] in E; [|case_match; discriminate].
    rewrite bind_done in E. injection E as -> <-.
    assert (Hn : size <= (if negb (size =? 0) then size else ibuf_start_capacity i)).
    { destruct (Z.eqb_spec size 0) as [->|]; cbn [negb]; [apply ibuf_start_nonneg|lia]. }
    apply ibuf_reserve_ok in Er as (-> & Hu & Hr); [|lia]. split_and!; [reflexivity|reflexivity|exact Hu|].
    cbn [unused refresh]. lia. }
  destruct (ibuf_alloc_room i delta Hd) as (i' & Ea & Hrp & Hu & Hun).
  split_and!.
  - unfold memory_input_buffer_finalize. cbn [input_buffer refresh]. rewrite Ea. eexists. split; [reflexivity|].
    cbn [read_position write_position used unused refresh]. pose proof (ibuf_used_def i). pose proof (ibuf_used_def i').
    split_and!; auto; [reflexivity|lia].
  - intros p b' E. apply Hres in E as (? & ? & ? & ?). auto.
  - intros p b' E. unfold memory_input_buffer_finalize_reserve in E. cbn [input_buffer refresh] in E. rewrite Ea in E.
    apply Hres in E as (? & ? & E & ?). cbn [used refresh input_buffer with_input] in *. rewrite E. auto.
  - intros i0 Hne E. unfold memory_input_buffer_reserve. cbn [input_buffer refresh] in *. rewrite (proj2 (Z.eqb_neq _ _) Hne).
    cbn [negb]. rewrite E. cbn. rewrite (proj2 (Z.eqb_neq _ _) Hne). reflexivity.
Qed.

End Input.

(** ** Output buffers *)

(** [obuf_iov i] is the vector [pos] points to: its capacity and its length. *)
Class Obuf (O : Type) := {
  obuf_create : Z -> O;
  obuf_start_capacity : O -> Z;
  obuf_size : O -> Z;
  obuf_vectors : O -> Z;
  obuf_last_capacity : O -> Z;
  obuf_last_length : O -> Z;
  obuf_reserve : O -> Z -> option Z * O;
  obuf_alloc : O -> Z -> option Z * O;
}.

Class ObufLaws (O : Type) `{Obuf O} := {
  obuf_start_nonneg o : 0 <= obuf_start_capacity o;
  obuf_reserve_ok o n p o' : 0 <= n -> obuf_reserve o n = (Some p, o') ->
    obuf_size o' = obuf_size o /\ n <= obuf_last_capacity o' - obuf_last_length o' < 2 ^ 64;
  obuf_alloc_room o n : 0 <= n <= obuf_last_capacity o - obuf_last_length o -> exists p o',
    obuf_alloc o n = (Some p, o') /\ obuf_size o' = obuf_size o + n /\ obuf_last_capacity o' = obuf_last_capacity o
    /\ obuf_last_length o' = obuf_last_length o + n;
}.

Section Output.
Context {O : Type} `{Obuf O}.

Record memory_output_buffer := OutputBuffer {
  vectors : Z;
  content_size : Z;
  last_reserved_size : Z;
  output_buffer : O;
}.
Implicit Types (b : memory_output_buffer).

Definition memory_io_buffers_allocate_output (initial_capacity : Z) : memory_output_buffer :=
  OutputBuffer 0 0 0 (obuf_create initial_capacity).

(** The result is not checked against null in any of the three. *)
Definition memory_output_buffer_reserve b (size : Z) : outcome (option Z * memory_output_buffer) :=
  let o := output_buffer b in
  let '(reserved, o) := obuf_reserve o (if negb (size =? 0) then size else obuf_start_capacity o) in
  memset_zero reserved size ≫= fun _ =>
  Done (reserved, OutputBuffer (obuf_vectors o) (obuf_size o) (u64 (obuf_last_capacity o - obuf_last_length o)) o).
Definition memory_output_buffer_finalize b (size : Z) : option Z * memory_output_buffer :=
  let '(reserved, o) := obuf_alloc (output_buffer b) size in
  (reserved, OutputBuffer (obuf_vectors o) (obuf_size o) (last_reserved_size b) o).
Definition memory_output_buffer_finalize_reserve b (delta size : Z) : outcome (option Z * memory_output_buffer) :=
  let '(_, o) := obuf_alloc (output_buffer b) delta in
  memory_output_buffer_reserve (OutputBuffer (vectors b) (content_size b) (last_reserved_size b) o) size.

Context `{!ObufLaws O}.

(** An output buffer grows by what is finalized: after a reservation its last
    vector has the room reported, at least the size asked for, and finalizing at
    most that room adds exactly those bytes to the size. *)
Theorem output_buffer_appends b size delta p b' :
  0 <= size -> memory_output_buffer_reserve b size = Done (Some p, b') -> 0 <= delta <= last_reserved_size b' ->
  content_size b' = obuf_size (output_buffer b) /\ size <= last_reserved_size b'
  /\ exists q b'', memory_output_buffer_finalize b' delta = (Some q, b'') /\ content_size b'' = content_size b' + delta.
Proof.
  intros Hs E Hd. unfold memory_output_buffer_reserve in E.
  destruct (obuf_reserve (output_buffer b) _) as [[r|] o] eqn:Er; cbn [memset_zero] in E; [|case_match; discriminate].
  rewrite bind_done in E. injection E as -> <-. cbn [content_size last_reserved_size output_buffer] in *.
  assert (Hn : size <= (if negb (size =? 0) then size else obuf_start_capacity (output_buffer b))).
  { destruct (Z.eqb_spec size 0) as [->|]; cbn [negb]; [apply obuf_start_nonneg|lia]. }
  apply obuf_reserve_ok in Er as (Hsz & Hr); [|lia]. rewrite wrap_small in * by (pow2_norm; lia).
  split_and!; [exact Hsz|lia|].
  destruct (obuf_alloc_room o delta Hd) as (q & o' & Ea & Hsz' & _ & _).
  unfold memory_output_buffer_finalize. cbn [output_buffer]. rewrite Ea. do 2 eexists. split; [reflexivity|]. exact Hsz'.
Qed.

End Output.

(** ** A buffer that keeps the laws *)

Section Witnesses.

(** The positions of a region that grows on demand: read, write and end. *)
#[local] Instance region : Ibuf (Z * Z * Z) := {
  ibuf_rpos i := fst (fst i);
  ibuf_wpos i := snd (fst i);
  ibuf_start_capacity i := 16;
  ibuf_used i := snd (fst i) - fst (fst i);
  ibuf_unused i := snd i - snd (fst i);
  ibuf_create n := (4096, 4096, 4096);
  ibuf_reserve i n := (Some (snd (fst i)), (fst i, Z.max (snd i) (snd (fst i) + n)));
  ibuf_alloc i n := (Some (snd (fst i)), (fst (fst i), snd (fst i) + n, Z.max (snd i) (snd (fst i) + n)));
}.

#[local] Instance region_laws : IbufLaws (Z * Z * Z).
Proof.
  split.
  - intros [[r w] e]. reflexivity.
  - intros i. cbn. lia.
  - intros [[r w] e] n p i' Hn E. cbn in *. injection E as <- <-. cbn. lia.
  - intros [[r w] e] n Hn. cbn in *. eexists. split; [reflexivity|]. cbn. lia.
Qed.

(** A single vector: its capacity and its length. *)
#[local] Instance vector : Obuf (Z * Z) := {
  obuf_create n := (0, 0);
  obuf_start_capacity o := 16;
  obuf_size o := snd o;
  obuf_vectors o := 1;
  obuf_last_capacity o := fst o;
  obuf_last_length o := snd o;
  obuf_reserve o n := if (0 <=? fst o - snd o) && (fst o - snd o <? 1024) && (n <? 1024)
    then (Some (snd o), (Z.max (fst o) (snd o + n), snd o)) else (None, o);
  obuf_alloc o n := (Some (snd o), (fst o, snd o + n));
}.

#[local] Instance vector_laws : ObufLaws (Z * Z).
Proof.
  split.
  - intros o. cbn. lia.
  - intros [c l] n p o' Hn E. cbn [obuf_reserve vector fst snd] in E. case_match eqn:Ec; [|discriminate].
    injection E as <- <-. cbn. apply andb_prop in Ec as [[Ea Eb]%andb_prop Ec].
    apply Z.leb_le in Ea. apply Z.ltb_lt in Eb, Ec. pow2_norm. lia.
  - intros [c l] n Hn. cbn in *. do 2 eexists. split; [reflexivity|]. cbn. lia.
Qed.

Lemma input_buffer_mirrors_witness :
  let b := refresh (4096, 4100, 4128) in
  (exists b', memory_input_buffer_finalize b 8 = (Some 4100, b') /\ used b' = 12 /\ unused b' = 20)
  /\ memory_input_buffer_reserve (I := Z * Z * Z) b 64 = Done (Some 4100, refresh (4096, 4100, 4164)).
Proof.
  split; [|reflexivity].
  destruct (input_buffer_mirrors (refresh (4096, 4100, 4128)) 64 8) as ((b' & E & _ & _ & _ & Hu & Hn) & _);
    [reflexivity|lia|cbn; lia|].
  exists b'. split_and!; [exact E|exact Hu|exact Hn].
Defined.

Lemma output_buffer_appends_witness :
  exists b' b'', memory_output_buffer_reserve (memory_io_buffers_allocate_output (O := Z * Z) 16) 100 = Done (Some 0, b')
    /\ memory_output_buffer_finalize b' 60 = (Some 0, b'') /\ content_size b'' = 60.
Proof.
  destruct (output_buffer_appends (memory_io_buffers_allocate_output (O := Z * Z) 16) 100 60 0 (OutputBuffer 1 0 100 (100, 0)))
    as (_ & _ & q & b'' & E & Hs); [lia|reflexivity|cbn; lia|].
  exists (OutputBuffer 1 0 100 (100, 0)), b''. split; [reflexivity|]. injection E as <- <-. split; [reflexivity|exact Hs].
Defined.

End Witnesses.
