(* ===== verification/Uring.v ===== *)
(** * The interface of io_uring

    [liburing] is not part of the repository.  [Uring] is what the executor, the
    scheduler and the transport call of it, [UringLaws] the documented behaviour
    they rely on: an entry that was taken and written is prepared after the ones
    before it, submitting hands the prepared entries over in their order, there is
    an entry to take as long as [io_uring_sq_space_left] is not zero, and after a
    submission there is room again.  The data of an entry is 0 where the code does
    not set it, which nobody reads then. *)
From S2P Require Import Prelude.

(** What an entry asks for; addresses of memory are numbers. *)
Inductive operation :=
| Msg_ring (fd len data : Z)
| Poll_add (fd mask : Z)
| Poll_remove (data : Z)
| Nop
| Write_fixed (fd base len offset index : Z)
| Read_fixed (fd base len offset index : Z)
| Sendmsg (fd family index flags : Z)
| Recvmsg (fd family index flags : Z)
| Connect (fd family length : Z)
| Accept (fd family length : Z)
| Cancel (data flags : Z).

#[export] Instance operation_eq_dec : EqDecision operation.
Proof. solve_decision. Defined.

Record io_uring_sqe := Sqe { sqe_operation : operation; sqe_user_data : Z; sqe_flags : Z }.

#[export] Instance sqe_eq_dec : EqDecision io_uring_sqe.
Proof. solve_decision. Defined.

Definition IOSQE_CQE_SKIP_SUCCESS : Z := 2 ^ 6.
Definition POLLIN : Z := 1.
Definition IORING_ASYNC_CANCEL_ALL : Z := 1.

Class Uring (R : Type) := {
  ring_fd : R -> Z;
  get_sqe : R -> option R;
  write_sqe : R -> io_uring_sqe -> R;
  submit : R -> R;
  submit_and_wait : R -> R;
  prepared : R -> list io_uring_sqe;
  submitted : R -> list io_uring_sqe;
  sq_space_left : R -> Z;
}.

Class UringLaws (R : Type) `{Uring R} := {
  get_sqe_write r r' e : get_sqe r = Some r' ->
    prepared (write_sqe r' e) = prepared r ++ [e]
    /\ submitted (write_sqe r' e) = submitted r /\ ring_fd (write_sqe r' e) = ring_fd r
    /\ sq_space_left (write_sqe r' e) = sq_space_left r - 1;
  get_sqe_space r : is_Some (get_sqe r) <-> 0 < sq_space_left r;
  submit_spec r : prepared (submit r) = [] /\ submitted (submit r) = submitted r ++ prepared r /\ ring_fd (submit r) = ring_fd r;
  submit_and_wait_spec r : prepared (submit_and_wait r) = [] /\ submitted (submit_and_wait r) = submitted r ++ prepared r
    /\ ring_fd (submit_and_wait r) = ring_fd r /\ is_Some (get_sqe (submit_and_wait r));
}.

(** Every entry written so far, in order. *)
Definition entries {R} `{Uring R} (r : R) : list io_uring_sqe := submitted r ++ prepared r.

Section Laws.
Context {R : Type} `{UringLaws R}.

Lemma entries_write r r' e : get_sqe r = Some r' -> entries (write_sqe r' e) = entries r ++ [e].
Proof. intros E. unfold entries. destruct (get_sqe_write r r' e E) as (-> & -> & _ & _). rewrite app_assoc. reflexivity. Qed.

Lemma entries_submit r : entries (submit r) = entries r.
Proof. unfold entries. destruct (submit_spec r) as (-> & -> & _). rewrite app_nil_r. reflexivity. Qed.

Lemma entries_submit_and_wait r : entries (submit_and_wait r) = entries r.
Proof. unfold entries. destruct (submit_and_wait_spec r) as (-> & -> & _). rewrite app_nil_r. reflexivity. Qed.

Lemma prepared_submit r : prepared (submit r) = [].
Proof. apply submit_spec. Qed.

Lemma fd_write r r' e : get_sqe r = Some r' -> ring_fd (write_sqe r' e) = ring_fd r.
Proof. intros E. apply (get_sqe_write r r' e E). Qed.

Lemma space_write r r' e : get_sqe r = Some r' -> sq_space_left (write_sqe r' e) = sq_space_left r - 1.
Proof. intros E. apply (get_sqe_write r r' e E). Qed.

Lemma fd_submit r : ring_fd (submit r) = ring_fd r.
Proof. apply submit_spec. Qed.

End Laws.

(** ** A ring as two lists, which keeps the laws *)

Record list_ring := ListRing { lr_fd : Z; lr_entries : nat; lr_prepared : list io_uring_sqe; lr_submitted : list io_uring_sqe }.

#[export] Instance list_uring : Uring list_ring := {
  ring_fd := lr_fd;
  get_sqe r := if (length (lr_prepared r) <=? lr_entries r)%nat then Some r else None;
  write_sqe r e := ListRing (lr_fd r) (lr_entries r) (lr_prepared r ++ [e]) (lr_submitted r);
  submit r := ListRing (lr_fd r) (lr_entries r) [] (lr_submitted r ++ lr_prepared r);
  submit_and_wait r := ListRing (lr_fd r) (lr_entries r) [] (lr_submitted r ++ lr_prepared r);
  prepared := lr_prepared;
  submitted := lr_submitted;
  sq_space_left r := Z.of_nat (S (lr_entries r)) - Z.of_nat (length (lr_prepared r));
}.

#[export] Instance list_uring_laws : UringLaws list_ring.
Proof.
  split.
  - intros r r' e E. cbn in E. case_match; [|discriminate]. injection E as <-. cbn. rewrite length_app. cbn.
    split_and!; auto. lia.
  - intros r. cbn. destruct (Nat.leb_spec (length (lr_prepared r)) (lr_entries r)); split; intros; eauto; try lia.
    by destruct H0.
  - intros r. auto.
  - intros r. cbn. split_and!; eauto.
Qed.
