(* ===== verification/Executor.v ===== *)
(** * The executor ([executor/native/executor/executor.c], [executor.h], [task.h], [module.h])

    An executor owns a ring; it registers on the scheduler and exchanges tasks with
    other executors by messages between rings.  Every operation answers its
    result, the event it propagated to the thread, if any, and the new state.
    [ring_full], [out_of_memory] and [system_error] are the events of
    [errors.h]. *)
From stdpp Require Import strings relations.
From S2P Require Import Prelude Events StaticBuffers Uring.

Definition EXECUTOR_CALL : Z := Z.shiftl 1 0.
Definition EXECUTOR_CALLBACK : Z := Z.shiftl 1 1.
Definition EXECUTOR_STATE_PAUSED : Z := Z.shiftl 1 0.
Definition EXECUTOR_STATE_IDLE : Z := Z.shiftl 1 1.
Definition EXECUTOR_STATE_WAKING : Z := Z.shiftl 1 2.
Definition EXECUTOR_STATE_STOPPING : Z := Z.shiftl 1 3.
Definition EXECUTOR_STATE_STOPPED : Z := Z.shiftl 1 4.
Definition EXECUTOR_SCHEDULER_REGISTER : Z := Z.shiftl 1 10.
Definition EXECUTOR_SCHEDULER_UNREGISTER : Z := Z.shiftl 1 11.
Definition EXECUTOR_SCHEDULER_POLL : Z := Z.shiftl 1 12.

Record executor_configuration := ExecutorConfiguration { ring_size : Z; ring_flags : Z }.

Record executor_task := ExecutorTask {
  task_id : Z;
  source : Z;
  target : Z;
  owner : Z;
  method : Z;
  input : Z;
  input_size : Z;
  output : Z;
  output_size : Z;
  flags : Z;
}.
Definition with_route (task : executor_task) (source target : Z) : executor_task :=
  ExecutorTask (task_id task) source target (owner task) (method task) (input task) (input_size task)
    (output task) (output_size task) (flags task).

Section Executor.
Context {R : Type} `{Uring R} (ring_full : event).

(** [address] is where the structure is; [scheduler_descriptor] is the ring of its
    scheduler. *)
Record executor_instance := ExecutorInstance {
  address : Z;
  callback : Z;
  scheduler_descriptor : Z;
  ring : R;
  executor_configured : executor_configuration;
  descriptor : Z;
  executor_id : Z;
  state : Z;
}.
Implicit Types (e : executor_instance) (task : executor_task).

Definition with_ring e (r : R) : executor_instance :=
  ExecutorInstance (address e) (callback e) (scheduler_descriptor e) r (executor_configured e) (descriptor e) (executor_id e) (state e).
Definition with_state e (s : Z) : executor_instance :=
  ExecutorInstance (address e) (callback e) (scheduler_descriptor e) (ring e) (executor_configured e) (descriptor e) (executor_id e) s.
Definition with_callback e (c : Z) : executor_instance :=
  ExecutorInstance (address e) c (scheduler_descriptor e) (ring e) (executor_configured e) (descriptor e) (executor_id e) (state e).

(** The allocations answer an address or null; [queue_init] a ring or an error. *)
Definition executor_create (out_of_memory : event) (system_error : Z -> event) (allocated allocated_completions allocated_ring : option Z)
    (queue_init : Z -> Z -> R + Z) (configuration : executor_configuration) (scheduler_descriptor id : Z)
    : option executor_instance * option event :=
  match allocated, allocated_completions, allocated_ring with
  | Some at_, Some _, Some _ =>
      match queue_init (u32 (ring_size configuration)) (ring_flags configuration) with
      | inr result => (None, Some (system_error (i32 (- result))))
      | inl r => (Some (ExecutorInstance at_ 0 scheduler_descriptor r configuration (ring_fd r) id EXECUTOR_STATE_PAUSED), None)
      end
  | _, _, _ => (None, Some out_of_memory)
  end.

(** The entry of [io_uring_prep_msg_ring] with [IOSQE_CQE_SKIP_SUCCESS]. *)
Definition message (fd kind data : Z) : io_uring_sqe := Sqe (Msg_ring fd kind data) 0 IOSQE_CQE_SKIP_SUCCESS.

Definition executor_register_on_scheduler e (callback : Z) : Z * option event * executor_instance :=
  let e := with_state (with_callback e callback) EXECUTOR_STATE_IDLE in
  match get_sqe (ring e) with
  | None => (MODULE_ERROR_CODE, Some ring_full, e)
  | Some r =>
      let r := write_sqe r (message (scheduler_descriptor e) EXECUTOR_SCHEDULER_REGISTER (address e)) in
      (0, None, with_ring e (submit r))
  end.

Definition executor_unregister_from_scheduler e (stop : bool) : Z * option event * executor_instance :=
  let e := with_state e (if stop then EXECUTOR_STATE_STOPPED else EXECUTOR_STATE_PAUSED) in
  match get_sqe (ring e) with
  | None => (MODULE_ERROR_CODE, Some ring_full, e)
  | Some r =>
      let r := write_sqe r (message (scheduler_descriptor e) EXECUTOR_SCHEDULER_UNREGISTER (executor_id e)) in
      (0, None, with_ring e (submit r))
  end.

(** [io_uring_submit_and_get_events]; the completions are read elsewhere. *)
Definition executor_peek e : executor_instance := with_ring e (submit (ring e)).

Definition executor_need_submit e : bool := negb (Z.land (state e) EXECUTOR_STATE_IDLE =? 0).
Definition executor_submit e : executor_instance := if executor_need_submit e then with_ring e (submit (ring e)) else e.

(** [at_] is the address of the task. *)
Definition executor_call_native e (target_ring_fd at_ : Z) task : Z * option event * executor_instance * executor_task :=
  match get_sqe (ring e) with
  | None => (MODULE_ERROR_CODE, Some ring_full, e, task)
  | Some r =>
      let task := with_route task (u64 (descriptor e)) (u64 target_ring_fd) in
      let e := with_ring e (write_sqe r (message target_ring_fd EXECUTOR_CALL at_)) in
      (0, None, executor_submit e, task)
  end.

Definition executor_callback_to_native e (at_ : Z) task : Z * option event * executor_instance * executor_task :=
  match get_sqe (ring e) with
  | None => (MODULE_ERROR_CODE, Some ring_full, e, task)
  | Some r =>
      let target := source task in
      let task := with_route task (u64 (descriptor e)) target in
      let e := with_ring e (write_sqe r (message (i32 target) EXECUTOR_CALLBACK at_)) in
      (0, None, executor_submit e, task)
  end.

Definition executor_awake_begin e : Z * option event * executor_instance :=
  let e := with_state e EXECUTOR_STATE_WAKING in
  match get_sqe (ring e) with
  | None => (MODULE_ERROR_CODE, Some ring_full, e)
  | Some r => (0, None, with_ring e (write_sqe r (message (scheduler_descriptor e) EXECUTOR_SCHEDULER_POLL (address e))))
  end.

(** The completions are marked as seen, then the entries submitted. *)
Definition executor_awake_complete e : executor_instance := with_state (with_ring e (submit (ring e))) EXECUTOR_STATE_IDLE.

(** The same exchange from the Dart side: on a ring, without submitting. *)
Definition executor_call_dart (r : R) (source_ring_fd target_ring_fd at_ : Z) task : Z * option event * R * executor_task :=
  match get_sqe r with
  | None => (MODULE_ERROR_CODE, Some ring_full, r, task)
  | Some r => (0, None, write_sqe r (message target_ring_fd EXECUTOR_CALL at_), with_route task (u64 source_ring_fd) (u64 target_ring_fd))
  end.
Definition executor_callback_to_dart (r : R) (source_ring_fd at_ : Z) task : Z * option event * R * executor_task :=
  match get_sqe r with
  | None => (MODULE_ERROR_CODE, Some ring_full, r, task)
  | Some r =>
      let target := source task in
      (0, None, write_sqe r (message (i32 target) EXECUTOR_CALLBACK at_), with_route task (u64 source_ring_fd) target)
  end.

(** The Dart side writes the state when it shuts down ([executor.dart]). *)
Definition executor_shutdown e : executor_instance := with_state e EXECUTOR_STATE_STOPPING.

(** ** Sequences of operations *)

Inductive executor_op :=
| Shutdown
| Register (callback : Z)
| Unregister (stop : bool)
| Peek
| Awake_begin
| Awake_complete
| Call_native (target at_ : Z) (task : executor_task)
| Callback_native (at_ : Z) (task : executor_task)
| Call_dart (target at_ : Z) (task : executor_task)
| Callback_dart (at_ : Z) (task : executor_task).

(** The result and the new state. *)
Definition run_op e (op : executor_op) : Z * executor_instance :=
  match op with
  | Shutdown => (0, executor_shutdown e)
  | Register c => let '(r, _, e) := executor_register_on_scheduler e c in (r, e)
  | Unregister stop => let '(r, _, e) := executor_unregister_from_scheduler e stop in (r, e)
  | Peek => (0, executor_peek e)
  | Awake_begin => let '(r, _, e) := executor_awake_begin e in (r, e)
  | Awake_complete => (0, executor_awake_complete e)
  | Call_native t a task => let '(r, _, e, _) := executor_call_native e t a task in (r, e)
  | Callback_native a task => let '(r, _, e, _) := executor_callback_to_native e a task in (r, e)
  | Call_dart t a task => let '(r, _, ring', _) := executor_call_dart (ring e) (descriptor e) t a task in (r, with_ring e ring')
  | Callback_dart a task => let '(r, _, ring', _) := executor_callback_to_dart (ring e) (descriptor e) a task in (r, with_ring e ring')
  end.

(** The message an operation sends. *)
Definition op_message e (op : executor_op) : list io_uring_sqe :=
  match op with
  | Register _ => [message (scheduler_descriptor e) EXECUTOR_SCHEDULER_REGISTER (address e)]
  | Unregister _ => [message (scheduler_descriptor e) EXECUTOR_SCHEDULER_UNREGISTER (executor_id e)]
  | Awake_begin => [message (scheduler_descriptor e) EXECUTOR_SCHEDULER_POLL (address e)]
  | Call_native t a _ | Call_dart t a _ => [message t EXECUTOR_CALL a]
  | Callback_native a task | Callback_dart a task => [message (i32 (source task)) EXECUTOR_CALLBACK a]
  | Peek | Awake_complete | Shutdown => []
  end.

(** Whether an operation submits what is prepared: calls from the native side do
    when the executor is idle. *)
Definition op_submits e (op : executor_op) : bool :=
  match op with
  | Register _ | Unregister _ | Peek | Awake_complete => true
  | Call_native _ _ _ | Callback_native _ _ => executor_need_submit e
  | Awake_begin | Call_dart _ _ _ | Callback_dart _ _ | Shutdown => false
  end.

(** The calls of the Dart side happen while the executor is not idle. *)
Definition op_allowed e (op : executor_op) : Prop :=
  match op with Call_dart _ _ _ | Callback_dart _ _ => state e <> EXECUTOR_STATE_IDLE | _ => True end.

Fixpoint run_ops e (ops : list executor_op) : option (executor_instance * list io_uring_sqe) :=
  match ops with
  | [] => Some (e, [])
  | op :: ops =>
      let '(r, e') := run_op e op in
      if r =? 0 then '(e'', l) ← run_ops e' ops; Some (e'', op_message e op ++ l) else None
  end.

Fixpoint ops_allowed e (ops : list executor_op) : Prop :=
  match ops with [] => True | op :: ops => op_allowed e op /\ ops_allowed (run_op e op).2 ops end.

(** What is prepared after the operations, given what was before them: the messages
    since the last operation that submits. *)
Fixpoint left_prepared e (before : list io_uring_sqe) (ops : list executor_op) : list io_uring_sqe :=
  match ops with
  | [] => before
  | op :: ops => left_prepared (run_op e op).2 (if op_submits e op then [] else before ++ op_message e op) ops
  end.

Context `{!UringLaws R}.

(** The states of an executor, and that an idle one has nothing left to submit. *)
Record executor_wf e : Prop := {
  ex_state : state e ∈ [EXECUTOR_STATE_PAUSED; EXECUTOR_STATE_IDLE; EXECUTOR_STATE_WAKING; EXECUTOR_STATE_STOPPING; EXECUTOR_STATE_STOPPED];
  ex_idle : state e = EXECUTOR_STATE_IDLE -> prepared (ring e) = [];
}.

Lemma need_submit_idle e : executor_wf e -> executor_need_submit e = bool_decide (state e = EXECUTOR_STATE_IDLE).
Proof.
  intros [Hs _]. unfold executor_need_submit. apply list_elem_of_In in Hs.
  destruct Hs as [<-|[<-|[<-|[<-|[<-|[]]]]]]; reflexivity.
Qed.

Lemma submit_wf e r :
  executor_wf e -> get_sqe (ring e) = Some r -> forall m,
  executor_wf (executor_submit (with_ring e (write_sqe r m)))
  /\ entries (ring (executor_submit (with_ring e (write_sqe r m)))) = entries (ring e) ++ [m]
  /\ ring_fd (ring (executor_submit (with_ring e (write_sqe r m)))) = ring_fd (ring e)
  /\ state (executor_submit (with_ring e (write_sqe r m))) = state e.
Proof.
  intros Hw Er m. assert (En : executor_need_submit (with_ring e (write_sqe r m)) = executor_need_submit e) by reflexivity.
  unfold executor_submit. rewrite En, (need_submit_idle e Hw). case_bool_decide as Hi.
  - split_and!; [split; [apply Hw|intros _; apply prepared_submit]| | |reflexivity]; cbn [ring with_ring].
    + rewrite entries_submit. apply entries_write, Er.
    + rewrite fd_submit. apply fd_write, Er.
  - split_and!; [split; [apply Hw|intros ?; contradiction]| | |reflexivity]; cbn [ring with_ring].
    + apply entries_write, Er.
    + apply fd_write, Er.
Qed.

Definition same_place e e' : Prop :=
  address e' = address e /\ scheduler_descriptor e' = scheduler_descriptor e /\ executor_id e' = executor_id e
  /\ descriptor e' = descriptor e.

(** Every operation that succeeds hands its message to the ring, whatever the state. *)
Lemma run_op_entries e op : (run_op e op).1 = 0 ->
  entries (ring (run_op e op).2) = entries (ring e) ++ op_message e op /\
  prepared (ring (run_op e op).2) = (if op_submits e op then [] else prepared (ring e) ++ op_message e op) /\
  same_place e (run_op e op).2.
Proof.
  assert (Prepared : forall r m, get_sqe (ring e) = Some r -> prepared (write_sqe r m) = prepared (ring e) ++ [m])
    by (intros r m E; apply (get_sqe_write _ r m E)).
  destruct op; cbn [run_op op_message op_submits]; unfold executor_register_on_scheduler, executor_unregister_from_scheduler,
    executor_peek, executor_awake_begin, executor_awake_complete, executor_call_native, executor_callback_to_native,
    executor_call_dart, executor_callback_to_dart, executor_shutdown; cbn [ring with_state with_callback with_ring];
    try (destruct (get_sqe (ring e)) as [r|] eqn:E; [|discriminate]); intros _; cbn [fst snd];
    try (unfold executor_submit; change (executor_need_submit (with_ring e _)) with (executor_need_submit e);
         destruct (executor_need_submit e));
    cbn [ring with_ring with_state with_callback]; split_and!; try (repeat split; fail);
    rewrite ?app_nil_r, ?entries_submit, ?prepared_submit; try reflexivity;
    first [apply (entries_write _ _ _ E)|apply (Prepared _ _ eq_refl)].
Qed.

Lemma run_op_wf e op :
  executor_wf e -> op_allowed e op -> (run_op e op).1 = 0 ->
  executor_wf (run_op e op).2 /\ entries (ring (run_op e op).2) = entries (ring e) ++ op_message e op
  /\ same_place e (run_op e op).2.
Proof.
  intros Hw Ho. destruct op; cbn [run_op op_message op_allowed] in *.
  { intros _. split_and!; [split; [cbn; set_solver|discriminate]| |repeat split]. cbn. by rewrite app_nil_r. }
  - unfold executor_register_on_scheduler. cbn [ring with_state with_callback].
    destruct (get_sqe (ring e)) as [r|] eqn:E; [intros _|discriminate]. cbn [snd]. split_and!; [split|..]; cbn [state ring with_ring with_state with_callback].
    + set_solver.
    + intros _. apply prepared_submit.
    + rewrite entries_submit. apply entries_write, E.
    + repeat split.
  - unfold executor_unregister_from_scheduler. cbn [ring with_state].
    destruct (get_sqe (ring e)) as [r|] eqn:E; [intros _|discriminate]. cbn [snd]. split_and!; [split|..]; cbn [state ring with_ring with_state].
    + destruct stop; set_solver.
    + intros _. apply prepared_submit.
    + rewrite entries_submit. apply entries_write, E.
    + repeat split.
  - intros _. unfold executor_peek. split_and!; [split; [apply Hw|intros _; apply prepared_submit]| |repeat split].
    cbn [ring with_ring snd]. rewrite entries_submit, app_nil_r. reflexivity.
  - unfold executor_awake_begin. cbn [ring with_state].
    destruct (get_sqe (ring e)) as [r|] eqn:E; [intros _|discriminate]. cbn [snd]. split_and!; [split|..]; cbn [state ring with_ring with_state].
    + set_solver.
    + discriminate.
    + apply entries_write, E.
    + repeat split.
  - intros _. unfold executor_awake_complete. split_and!; [split|..]; cbn [state ring with_ring with_state snd].
    + set_solver.
    + intros _. apply prepared_submit.
    + rewrite entries_submit, app_nil_r. reflexivity.
    + repeat split.
  - unfold executor_call_native. destruct (get_sqe (ring e)) as [r|] eqn:E; [intros _|discriminate]. cbn [snd].
    destruct (submit_wf e r Hw E (message target0 EXECUTOR_CALL at_)) as (? & ? & _). split_and!; auto.
    unfold executor_submit. case_match; repeat split.
  - unfold executor_callback_to_native. destruct (get_sqe (ring e)) as [r|] eqn:E; [intros _|discriminate]. cbn [snd].
    destruct (submit_wf e r Hw E (message (i32 (source task)) EXECUTOR_CALLBACK at_)) as (? & ? & _). split_and!; auto.
    unfold executor_submit. case_match; repeat split.
  - unfold executor_call_dart. destruct (get_sqe (ring e)) as [r|] eqn:E; [intros _|discriminate]. cbn [snd].
    split_and!; [split; [apply Hw|intros ?; contradiction]|apply entries_write, E|repeat split].
  - unfold executor_callback_to_dart. destruct (get_sqe (ring e)) as [r|] eqn:E; [intros _|discriminate]. cbn [snd].
    split_and!; [split; [apply Hw|intros ?; contradiction]|apply entries_write, E|repeat split].
Qed.

Lemma op_message_same e e' op : same_place e e' -> op_message e' op = op_message e op.
Proof. intros (Ha & Hs & Hi & _). destruct op; cbn; rewrite ?Ha, ?Hs, ?Hi; reflexivity. Qed.

(** ** The properties *)

Lemma run_ops_entries ops : forall e e' l, run_ops e ops = Some (e', l) ->
  entries (ring e') = entries (ring e) ++ l /\ prepared (ring e') = left_prepared e (prepared (ring e)) ops /\
  (executor_wf e -> ops_allowed e ops -> executor_wf e').
Proof.
  induction ops as [|op ops IH]; intros e e' l; cbn [run_ops ops_allowed left_prepared].
  { intros [= <- <-]. by rewrite app_nil_r. }
  pose proof (run_op_entries e op) as G. pose proof (run_op_wf e op) as W.
  destruct (run_op e op) as [r e1]. cbn [fst snd] in *. destruct (Z.eqb_spec r 0) as [->|]; [|discriminate].
  destruct (run_ops e1 ops) as [[e2 l2]|] eqn:E2; [|discriminate]. intros [= <- <-].
  destruct (G eq_refl) as (E1 & P1 & _), (IH e1 e2 l2 E2) as (E3 & P3 & W3). rewrite P1 in P3. split_and!.
  - by rewrite E3, E1, app_assoc.
  - exact P3.
  - intros Hw [Ho1 Ho2]. apply W3; [by apply W|done].
Qed.

(** C15: along any sequence of successful operations, of an executor in any state, the
    messages are handed to its ring once each and in order, and what is not submitted
    in the end is what was prepared since the last operation that submits: the calls
    of the Dart side, and all calls while it is not idle, only prepare.  When the Dart
    side calls only while the executor is not idle, and the executor had nothing
    prepared if it was idle at first, then whenever it is idle everything is
    submitted: what was prepared while it was awake is submitted when the wake-up
    completes. *)
Theorem executor_messages_submitted e ops e' l :
  run_ops e ops = Some (e', l) ->
  entries (ring e') = entries (ring e) ++ l /\ prepared (ring e') = left_prepared e (prepared (ring e)) ops
  /\ (executor_wf e -> ops_allowed e ops -> executor_wf e'
       /\ (state e' = EXECUTOR_STATE_IDLE -> submitted (ring e') = entries (ring e) ++ l)).
Proof.
  intros Hr. destruct (run_ops_entries ops e e' l Hr) as (En & Pr & Wf). split_and!; [exact En|exact Pr|].
  intros Hw Ho. specialize (Wf Hw Ho). split; [exact Wf|]. intros Hi.
  rewrite <- En. unfold entries. rewrite (ex_idle _ Wf Hi), app_nil_r. reflexivity.
Qed.

(** A task called by one executor and called back by the other returns to the
    ring of its caller: the answer is addressed to the caller's descriptor and the
    task carries the route back; a full ring fails with the module error code and
    leaves task and ring as they were. *)
Theorem executor_callback_returns a b at_ task :
  executor_wf a -> executor_wf b -> 0 <= descriptor a < 2 ^ 31 -> 0 <= descriptor b < 2 ^ 31 ->
  (get_sqe (ring a) = None -> executor_call_native a (descriptor b) at_ task = (MODULE_ERROR_CODE, Some ring_full, a, task))
  /\ (is_Some (get_sqe (ring a)) -> is_Some (get_sqe (ring b)) -> exists a' task1 b' task2,
       executor_call_native a (descriptor b) at_ task = (0, None, a', task1)
       /\ entries (ring a') = entries (ring a) ++ [message (descriptor b) EXECUTOR_CALL at_]
       /\ executor_callback_to_native b at_ task1 = (0, None, b', task2)
       /\ entries (ring b') = entries (ring b) ++ [message (descriptor a) EXECUTOR_CALLBACK at_]
       /\ source task2 = descriptor b /\ target task2 = descriptor a
       /\ task_id task2 = task_id task /\ owner task2 = owner task /\ method task2 = method task).
Proof.
  intros Ha Hb Hda Hdb. split.
  - intros E. unfold executor_call_native. rewrite E. reflexivity.
  - intros [ra Ea] [rb Eb]. unfold executor_call_native. rewrite Ea.
    do 4 eexists. split; [reflexivity|]. split; [apply (submit_wf a ra Ha Ea)|].
    unfold executor_callback_to_native. rewrite Eb. split; [reflexivity|].
    assert (Er : i32 (source (with_route task (u64 (descriptor a)) (u64 (descriptor b)))) = descriptor a).
    { cbn [source with_route]. rewrite wrap_small, swrap_small by (pow2_norm; lia). reflexivity. }
    rewrite Er. split; [apply (submit_wf b rb Hb Eb)|]. cbn [source target task_id owner method with_route].
    rewrite !wrap_small by (pow2_norm; lia). auto.
Qed.

End Executor.

(** ** Identifiers of executors

    [executor_next_id] is an atomic increment followed by a separate load. *)

Definition executor_next_id (executors : Z) : Z * Z :=
  let executors := u32 (executors + 1) in (executors, executors).

(** The threads that are inside the function: before the increment, before the
    load, or returned. *)
Inductive next_id_thread := Start | Incremented | Returned (id : Z).
#[export] Instance next_id_thread_eq_dec : EqDecision next_id_thread.
Proof. solve_decision. Defined.

Inductive next_id_step : Z * list next_id_thread -> Z * list next_id_thread -> Prop :=
| step_increment executors threads i :
    threads !! i = Some Start -> next_id_step (executors, threads) (u32 (executors + 1), <[i := Incremented]> threads)
| step_load executors threads i :
    threads !! i = Some Incremented -> next_id_step (executors, threads) (executors, <[i := Returned executors]> threads).

Fixpoint next_ids (n : nat) (executors : Z) : list Z :=
  match n with O => [] | S n => let '(id, executors) := executor_next_id executors in id :: next_ids n executors end.

Lemma next_ids_seqZ n : forall executors, 0 <= executors -> executors + Z.of_nat n < 2 ^ 32 ->
  next_ids n executors = seqZ (executors + 1) (Z.of_nat n).
Proof.
  induction n as [|n IH]; intros executors He Hn; cbn [next_ids]; [reflexivity|]. unfold executor_next_id.
  rewrite wrap_small by lia. rewrite (seqZ_cons _ (Z.of_nat (S n))) by lia. f_equal. rewrite IH by lia. f_equal; lia.
Qed.

(** Calls one after the other give consecutive, distinct identifiers; two
    concurrent calls can return the same one, and it skips a number. *)
Theorem executor_next_id_races n executors :
  0 <= executors -> executors + Z.of_nat n < 2 ^ 32 ->
  next_ids n executors = seqZ (executors + 1) (Z.of_nat n)
  /\ rtc next_id_step (0, [Start; Start]) (2, [Returned 2; Returned 2]).
Proof.
  intros He Hn. split; [apply next_ids_seqZ; assumption|].
  eapply rtc_l; [apply (step_increment 0 [Start; Start] 0); reflexivity|].
  eapply rtc_l; [apply (step_increment _ _ 1); reflexivity|].
  eapply rtc_l; [apply (step_load _ _ 0); reflexivity|].
  eapply rtc_l; [apply (step_load _ _ 1); reflexivity|]. apply rtc_refl.
Qed.

(** *** The properties at work *)

Section Witnesses.
Definition some_event : event := event_create EVENT_LEVEL_ERROR "f" "f.c" 1 (Time.Timespec 0 0).
Definition ring_at (fd : Z) : list_ring := ListRing fd 4 [] [].
Definition executor_at (fd id : Z) : executor_instance :=
  ExecutorInstance (1000 * id) 0 3 (ring_at fd) (ExecutorConfiguration 4 0) fd id EXECUTOR_STATE_PAUSED.
Definition some_task : executor_task := ExecutorTask 1 0 0 2 3 0 0 0 0 0.

Lemma executor_at_wf fd id : executor_wf (executor_at fd id).
Proof. split; [cbn; set_solver|reflexivity]. Qed.

Lemma demo_allowed : ops_allowed some_event (executor_at 5 1) [Register 77; Awake_begin; Call_dart 6 4096 some_task; Awake_complete].
Proof. split; [exact I|]. split; [exact I|]. split; [intros E; vm_compute in E; discriminate E|]. split; exact I. Qed.

(** The call made while awake is submitted with the wake-up; one of the Dart side made
    while idle stays prepared. *)
Lemma executor_messages_submitted_witness :
  let ops := [Register 77; Awake_begin; Call_dart 6 4096 some_task; Awake_complete] in
  (exists e', run_ops some_event (executor_at 5 1) ops = Some (e',
      [message 3 EXECUTOR_SCHEDULER_REGISTER 1000; message 3 EXECUTOR_SCHEDULER_POLL 1000; message 6 EXECUTOR_CALL 4096])
    /\ submitted (ring e')
       = [message 3 EXECUTOR_SCHEDULER_REGISTER 1000; message 3 EXECUTOR_SCHEDULER_POLL 1000; message 6 EXECUTOR_CALL 4096]) /\
  (exists e' l, run_ops some_event (executor_at 5 1) (ops ++ [Call_dart 6 8192 some_task]) = Some (e', l)
    /\ state e' = EXECUTOR_STATE_IDLE /\ prepared (ring e') = [message 6 EXECUTOR_CALL 8192]).
Proof.
  intros ops. split.
  - destruct (run_ops some_event (executor_at 5 1) ops) as [[e' l]|] eqn:E; [|vm_compute in E; discriminate E].
    destruct (executor_messages_submitted some_event (executor_at 5 1) _ e' l E) as (_ & _ & G).
    destruct (G (executor_at_wf 5 1) demo_allowed) as [_ I].
    vm_compute in E. injection E as <- <-. eexists. split; [reflexivity|]. apply I. reflexivity.
  - destruct (run_ops some_event (executor_at 5 1) (ops ++ [Call_dart 6 8192 some_task])) as [[e' l]|] eqn:E; [|vm_compute in E; discriminate E].
    destruct (executor_messages_submitted some_event (executor_at 5 1) _ e' l E) as (_ & P & _).
    exists e', l. split; [reflexivity|]. split; [vm_compute in E; injection E as <- <-; reflexivity|rewrite P; vm_compute; reflexivity].
Defined.

Lemma executor_callback_returns_witness :
  exists a' task1 b' task2,
    executor_call_native some_event (executor_at 5 1) 6 4096 some_task = (0, None, a', task1)
    /\ executor_callback_to_native some_event (executor_at 6 2) 4096 task1 = (0, None, b', task2)
    /\ source task2 = 6 /\ target task2 = 5.
Proof.
  destruct (executor_callback_returns some_event (executor_at 5 1) (executor_at 6 2) 4096 some_task
    (executor_at_wf 5 1) (executor_at_wf 6 2)) as [_ G]; [cbn; lia|cbn; lia|].
  destruct G as (a' & t1 & b' & t2 & E1 & _ & E2 & _ & Es & Et & _); [eexists; reflexivity|eexists; reflexivity|].
  exists a', t1, b', t2. auto.
Defined.

Lemma executor_next_id_races_witness : next_ids 3 0 = [1; 2; 3].
Proof. apply (executor_next_id_races 3 0); lia. Defined.
End Witnesses.
