(* ===== verification/Scheduler.v ===== *)
(** * The scheduler ([executor/native/scheduler/scheduler.c])

    A thread waits for the completions of its ring: messages of executors that
    register, ask to be polled or unregister, and polls that report a readable
    ring.  It posts a number to the Dart side of an executor ([Dart_PostInteger],
    whose answer is the parameter [post]).  Waiting on conditions is given by the
    answers of [pthread_cond_timedwait]; a call on a mutex or condition that
    fails raises ([module_check_code]) and is not modelled. *)
From stdpp Require Import strings.
From S2P Require Import Prelude Events Uring Executor.

Record io_uring_cqe := Cqe { cqe_res : Z; cqe_user_data : Z; cqe_flags : Z }.

Definition EXECUTOR_SCHEDULER_LIMIT : Z := Z.shiftl 1 16.

(** What the thread does besides its ring: a post that succeeded, or the event it
    prints for one that failed. *)
Inductive notice := Posted (callback id : Z) | Post_failed (scope : string) (cqe : io_uring_cqe).

Definition EXECUTOR_SCOPE_SCHEDULER_POLLIN : string := "scheduler.pollin".
Definition EXECUTOR_SCOPE_SCHEDULER_UNREGISTER : string := "scheduler.unregister".

Section Scheduler.
Context {R : Type} `{UringLaws R}.

(** [heap] are the executors in memory, by address. *)
Context (heap : Z -> option (executor_instance (R := R))) (post : Z -> Z -> bool).

(** The fields of the scheduler the thread uses and its local array [executors]:
    an element that was never written is indeterminate and absent here. *)
Record scheduler := Scheduler {
  scheduler_ring : R;
  active : bool;
  running : bool;
  executors : gmap Z Z;
  notices : list notice;
}.
Implicit Types (st : scheduler).

Definition with_scheduler_ring st (r : R) : scheduler := Scheduler r (active st) (running st) (executors st) (notices st).
Definition with_executors st (l : gmap Z Z) : scheduler := Scheduler (scheduler_ring st) (active st) (running st) l (notices st).
Definition with_notice st (n : notice) : scheduler :=
  Scheduler (scheduler_ring st) (active st) (running st) (executors st) (notices st ++ [n]).

(** The loop until there is an entry; one submission is enough. *)
Fixpoint provide_loop (fuel : nat) (r : R) : outcome R :=
  match get_sqe r with
  | Some r => Done r
  | None => match fuel with O => Spins | S fuel => provide_loop fuel (submit_and_wait r) end
  end.
Definition executor_scheduler_provide_sqe (r : R) : outcome R := provide_loop 1 r.

(** [executors[id]]. *)
Definition read_executor st (id : Z) : outcome Z :=
  if (0 <=? id) && (id <? EXECUTOR_SCHEDULER_LIMIT) then demand (executors st !! id) else Faults.
Definition store_executor st (id value : Z) : outcome scheduler :=
  if (0 <=? id) && (id <? EXECUTOR_SCHEDULER_LIMIT) then Done (with_executors st (<[id := value]> (executors st))) else Faults.

Definition post_integer st (scope : string) (cqe : io_uring_cqe) (e : executor_instance (R := R)) : scheduler :=
  with_notice st (if post (callback e) (executor_id e) then Posted (callback e) (executor_id e) else Post_failed scope cqe).

(** The polling entry of an executor; its data is the address of the executor. *)
Definition poll_entry (e : executor_instance (R := R)) (at_ : Z) : io_uring_sqe := Sqe (Poll_add (descriptor e) POLLIN) at_ 0.
Definition poll_add st (e : executor_instance (R := R)) (at_ : Z) : outcome scheduler :=
  r ← executor_scheduler_provide_sqe (scheduler_ring st);
  Done (with_scheduler_ring st (write_sqe r (poll_entry e at_))).

Definition has_flag (res flag : Z) : bool := negb (Z.land res flag =? 0).

(** The body of the loop on the completions: whether the thread returns. *)
Definition handle_completion st (cqe : io_uring_cqe) : outcome (bool * scheduler) :=
  if cqe_res cqe <? 0 then Done (false, st)
  else if negb (active st) then Done (true, Scheduler (scheduler_ring st) (active st) false (executors st) (notices st))
  else if has_flag (cqe_res cqe) POLLIN then
    e ← demand (heap (cqe_user_data cqe));
    slot ← read_executor st (executor_id e);
    Done (false, if negb (slot =? 0) then post_integer st EXECUTOR_SCOPE_SCHEDULER_POLLIN cqe e else st)
  else if has_flag (cqe_res cqe) EXECUTOR_SCHEDULER_POLL then
    e ← demand (heap (cqe_user_data cqe));
    slot ← read_executor st (executor_id e);
    st ← (if negb (slot =? 0) then poll_add st e (cqe_user_data cqe) else Done st);
    Done (false, st)
  else if has_flag (cqe_res cqe) EXECUTOR_SCHEDULER_REGISTER then
    e ← demand (heap (cqe_user_data cqe));
    st ← poll_add st e (cqe_user_data cqe);
    st ← store_executor st (executor_id e) (cqe_user_data cqe);
    Done (false, st)
  else if has_flag (cqe_res cqe) EXECUTOR_SCHEDULER_UNREGISTER then
    slot ← read_executor st (cqe_user_data cqe);
    if negb (slot =? 0) then
      r ← executor_scheduler_provide_sqe (scheduler_ring st);
      let st := with_scheduler_ring st (write_sqe r (Sqe (Poll_remove slot) 0 IOSQE_CQE_SKIP_SUCCESS)) in
      st ← store_executor st (cqe_user_data cqe) 0;
      e ← demand (heap slot);
      Done (false, post_integer st EXECUTOR_SCOPE_SCHEDULER_UNREGISTER cqe e)
    else Done (false, st)
  else Done (false, st).

(** The completions of one or more rounds, until the thread returns. *)
Fixpoint handle_completions st (cqes : list io_uring_cqe) : outcome (bool * scheduler) :=
  match cqes with
  | [] => Done (false, st)
  | cqe :: cqes =>
      '(stop, st) ← handle_completion st cqe;
      if (stop : bool) then Done (true, st) else handle_completions st cqes
  end.

(** ** Specification

    The protocol in terms of its messages, with the registered executors as a
    finite map and the set [known] of the numbers that ever registered. *)

Inductive scheduler_message := Failed | Readable (at_ : Z) | Poll_me (at_ : Z) | Register_me (at_ : Z) | Unregister_me (id : Z).

(** How a message arrives. *)
Definition completion_of (m : scheduler_message) : io_uring_cqe :=
  match m with
  | Failed => Cqe (-125) 0 0
  | Readable at_ => Cqe POLLIN at_ 0
  | Poll_me at_ => Cqe EXECUTOR_SCHEDULER_POLL at_ 0
  | Register_me at_ => Cqe EXECUTOR_SCHEDULER_REGISTER at_ 0
  | Unregister_me id => Cqe EXECUTOR_SCHEDULER_UNREGISTER id 0
  end.

(** Messages that make sense: executors in memory, that registered before. *)
Definition message_ok (known : gset Z) (m : scheduler_message) : Prop :=
  match m with
  | Failed => True
  | Readable at_ | Poll_me at_ => exists e, heap at_ = Some e /\ executor_id e ∈ known
  | Register_me at_ => exists e, heap at_ = Some e /\ at_ <> 0 /\ 0 <= executor_id e < EXECUTOR_SCHEDULER_LIMIT
  | Unregister_me id => id ∈ known
  end.

Record spec_state := Spec { known : gset Z; registered : gmap Z Z }.

Definition notice_of (scope : string) (m : scheduler_message) (e : executor_instance (R := R)) : notice :=
  if post (callback e) (executor_id e) then Posted (callback e) (executor_id e) else Post_failed scope (completion_of m).

(** The new state, the notices and the entries of the ring. *)
Definition spec_step (s : spec_state) (m : scheduler_message) : spec_state * list notice * list io_uring_sqe :=
  match m with
  | Failed => (s, [], [])
  | Readable at_ =>
      match heap at_ with
      | Some e => if bool_decide (is_Some (registered s !! executor_id e))
                  then (s, [notice_of EXECUTOR_SCOPE_SCHEDULER_POLLIN m e], []) else (s, [], [])
      | None => (s, [], [])
      end
  | Poll_me at_ =>
      match heap at_ with
      | Some e => if bool_decide (is_Some (registered s !! executor_id e)) then (s, [], [poll_entry e at_]) else (s, [], [])
      | None => (s, [], [])
      end
  | Register_me at_ =>
      match heap at_ with
      | Some e => (Spec ({[executor_id e]} ∪ known s) (<[executor_id e := at_]> (registered s)), [], [poll_entry e at_])
      | None => (s, [], [])
      end
  | Unregister_me id =>
      match registered s !! id with
      | Some at_ =>
          match heap at_ with
          | Some e => (Spec (known s) (delete id (registered s)), [notice_of EXECUTOR_SCOPE_SCHEDULER_UNREGISTER m e],
                       [Sqe (Poll_remove at_) 0 IOSQE_CQE_SKIP_SUCCESS])
          | None => (s, [], [])
          end
      | None => (s, [], [])
      end
  end.

Fixpoint spec_run (s : spec_state) (ms : list scheduler_message) : spec_state * list notice * list io_uring_sqe :=
  match ms with
  | [] => (s, [], [])
  | m :: ms => let '(s, n, q) := spec_step s m in let '(s, n', q') := spec_run s ms in (s, n ++ n', q ++ q')
  end.

Fixpoint messages_ok (s : spec_state) (ms : list scheduler_message) : Prop :=
  match ms with [] => True | m :: ms => message_ok (known s) m /\ messages_ok (spec_step s m).1.1 ms end.

(** The array of the thread holds the registered executors, and 0 for the numbers
    that unregistered. *)
Record refines (s : spec_state) st : Prop := {
  sc_active : active st = true;
  sc_known : forall id, id ∈ known s -> 0 <= id < EXECUTOR_SCHEDULER_LIMIT /\ executors st !! id = Some (default 0 (registered s !! id));
  sc_registered : forall id at_, registered s !! id = Some at_ -> id ∈ known s /\ at_ <> 0 /\ exists e, heap at_ = Some e /\ executor_id e = id;
}.

Lemma provide_done r : exists r', executor_scheduler_provide_sqe r = Done r'
  /\ forall e, entries (write_sqe r' e) = entries r ++ [e].
Proof.
  unfold executor_scheduler_provide_sqe. cbn [provide_loop]. destruct (get_sqe r) as [r'|] eqn:E.
  - exists r'. split; [reflexivity|]. intros e. apply entries_write, E.
  - destruct (submit_and_wait_spec r) as (_ & _ & _ & [r' E']). rewrite E'. exists r'. split; [reflexivity|].
    intros e. rewrite (entries_write _ _ e E'), entries_submit_and_wait. reflexivity.
Qed.

Lemma read_known s st id : refines s st -> id ∈ known s -> read_executor st id = Done (default 0 (registered s !! id)).
Proof.
  intros Hr Hk. destruct (sc_known _ _ Hr id Hk) as [Hb E]. unfold read_executor.
  rewrite (proj2 (Z.leb_le _ _)), (proj2 (Z.ltb_lt _ _)) by lia. cbn [andb]. rewrite E. reflexivity.
Qed.

Lemma slot_registered s st id : refines s st ->
  negb (default 0 (registered s !! id) =? 0) = bool_decide (is_Some (registered s !! id)).
Proof.
  intros Hr. destruct (registered s !! id) as [at_|] eqn:E; [change (default 0 (Some at_)) with at_|reflexivity].
  destruct (sc_registered _ _ Hr id at_ E) as (_ & Hne & _). rewrite (proj2 (Z.eqb_neq _ _) Hne). reflexivity.
Qed.

Lemma poll_add_done st e at_ : exists st', poll_add st e at_ = Done st'
  /\ entries (scheduler_ring st') = entries (scheduler_ring st) ++ [poll_entry e at_]
  /\ executors st' = executors st /\ active st' = active st /\ running st' = running st /\ notices st' = notices st.
Proof.
  unfold poll_add. destruct (provide_done (scheduler_ring st)) as (r & -> & Hr). rewrite bind_done.
  eexists. split; [reflexivity|]. cbn. rewrite Hr. auto.
Qed.

Lemma refines_same s st st' : refines s st -> active st' = active st -> executors st' = executors st -> refines s st'.
Proof. intros [Ha Hk Hg] Ea Ee. split; rewrite ?Ea, ?Ee; assumption. Qed.

Lemma handle_refines s st m :
  refines s st -> message_ok (known s) m ->
  exists st', handle_completion st (completion_of m) = Done (false, st')
    /\ refines (spec_step s m).1.1 st'
    /\ notices st' = notices st ++ (spec_step s m).1.2
    /\ entries (scheduler_ring st') = entries (scheduler_ring st) ++ (spec_step s m).2.
Proof.
  intros Hr Hm. pose proof (sc_active _ _ Hr) as Ha.
  unfold handle_completion. rewrite Ha. destruct m as [|at_|at_|at_|id]; cbn [message_ok spec_step completion_of cqe_res cqe_user_data] in *.
  - exists st. rewrite !app_nil_r. auto.
  - destruct Hm as (e & -> & Hk). cbn [demand]. change (has_flag POLLIN POLLIN) with true. cbn [negb].
    change (POLLIN <? 0) with false. cbv iota. rewrite bind_done, (read_known s st _ Hr Hk), bind_done, (slot_registered s st _ Hr).
    case_bool_decide; eexists; (split; [reflexivity|]); cbn [fst snd]; rewrite ?app_nil_r.
    + split_and!; [|reflexivity|reflexivity]. eapply refines_same; [exact Hr|reflexivity|reflexivity].
    + auto.
  - destruct Hm as (e & -> & Hk). cbn [demand]. change (has_flag EXECUTOR_SCHEDULER_POLL POLLIN) with false.
    change (EXECUTOR_SCHEDULER_POLL <? 0) with false. change (has_flag EXECUTOR_SCHEDULER_POLL EXECUTOR_SCHEDULER_POLL) with true.
    cbn [negb]. cbv iota. rewrite bind_done, (read_known s st _ Hr Hk), bind_done, (slot_registered s st _ Hr).
    case_bool_decide; cbn [fst snd].
    + destruct (poll_add_done st e at_) as (st' & -> & He & Hx & Hac & _ & Hn). rewrite bind_done, app_nil_r.
      exists st'. split_and!; auto. eapply refines_same; eauto.
    + exists st. rewrite bind_done, !app_nil_r. auto.
  - destruct Hm as (e & Eh & Hne & Hid). rewrite Eh. cbn [demand]. change (has_flag EXECUTOR_SCHEDULER_REGISTER POLLIN) with false.
    change (EXECUTOR_SCHEDULER_REGISTER <? 0) with false. change (has_flag EXECUTOR_SCHEDULER_REGISTER EXECUTOR_SCHEDULER_POLL) with false.
    change (has_flag EXECUTOR_SCHEDULER_REGISTER EXECUTOR_SCHEDULER_REGISTER) with true. cbn [negb]. cbv iota.
    rewrite bind_done. destruct (poll_add_done st e at_) as (st' & -> & He & Hx & Hac & _ & Hn). rewrite bind_done.
    unfold store_executor. rewrite (proj2 (Z.leb_le _ _)), (proj2 (Z.ltb_lt _ _)) by lia. cbn [andb]. rewrite bind_done.
    eexists. split; [reflexivity|]. cbn [fst snd notices scheduler_ring with_executors]. rewrite app_nil_r.
    split_and!; [|exact Hn|exact He]. split; cbn [active with_executors executors known registered].
    + congruence.
    + intros id Hk. rewrite Hx. destruct (Z.eq_dec id (executor_id e)) as [->|Hn'].
      * rewrite !lookup_insert_eq. auto.
      * rewrite !lookup_insert_ne by congruence. apply (sc_known _ _ Hr). set_solver.
    + intros id a Hreg. apply lookup_insert_Some in Hreg as [[<- <-]|[Hn' Hreg]].
      * split_and!; [set_solver|exact Hne|eauto].
      * destruct (sc_registered _ _ Hr id a Hreg) as (? & ? & ?). split_and!; [set_solver|assumption..].
  - change (has_flag EXECUTOR_SCHEDULER_UNREGISTER POLLIN) with false.
    change (EXECUTOR_SCHEDULER_UNREGISTER <? 0) with false. change (has_flag EXECUTOR_SCHEDULER_UNREGISTER EXECUTOR_SCHEDULER_POLL) with false.
    change (has_flag EXECUTOR_SCHEDULER_UNREGISTER EXECUTOR_SCHEDULER_REGISTER) with false.
    change (has_flag EXECUTOR_SCHEDULER_UNREGISTER EXECUTOR_SCHEDULER_UNREGISTER) with true. cbn [negb]. cbv iota.
    rewrite (read_known s st _ Hr Hm), bind_done, (slot_registered s st _ Hr).
    destruct (registered s !! id) as [at_|] eqn:E.
    + change (default 0 (Some at_)) with at_.
      destruct (sc_registered _ _ Hr id at_ E) as (_ & _ & e & Eh & Eid). rewrite Eh.
      rewrite bool_decide_true by eauto. destruct (provide_done (scheduler_ring st)) as (r & -> & He). rewrite bind_done.
      cbv zeta. unfold store_executor. destruct (sc_known _ _ Hr id Hm) as [Hb _].
      rewrite (proj2 (Z.leb_le _ _)), (proj2 (Z.ltb_lt _ _)) by lia. cbn [andb]. rewrite bind_done. cbn [demand]. rewrite bind_done.
      eexists. split; [reflexivity|]. unfold post_integer. cbn [fst snd notices scheduler_ring with_notice with_executors with_scheduler_ring].
      split_and!; [|reflexivity|apply He].
      split; cbn [active with_notice with_executors with_scheduler_ring executors known registered]; [exact Ha| |].
      * intros id' Hk. destruct (Z.eq_dec id' id) as [->|Hn'].
        -- rewrite lookup_insert_eq, lookup_delete_eq. auto.
        -- rewrite lookup_insert_ne, lookup_delete_ne by congruence. apply (sc_known _ _ Hr), Hk.
      * intros id' a [Hn' Hreg]%lookup_delete_Some. exact (sc_registered _ _ Hr id' a Hreg).
    + rewrite bool_decide_false by (intros [? ?]; discriminate). exists st. cbn [fst snd]. rewrite !app_nil_r. auto.
Qed.

(** The branches of the handler, one by one. *)
Lemma handle_readable st at_ : active st = true ->
  handle_completion st (completion_of (Readable at_)) =
  (e ← demand (heap at_); slot ← read_executor st (executor_id e);
   Done (false, if negb (slot =? 0)
     then post_integer st EXECUTOR_SCOPE_SCHEDULER_POLLIN (completion_of (Readable at_)) e else st)).
Proof. intros Ha. unfold handle_completion. rewrite Ha. reflexivity. Qed.

Lemma handle_poll st at_ : active st = true ->
  handle_completion st (completion_of (Poll_me at_)) =
  (e ← demand (heap at_); slot ← read_executor st (executor_id e);
   st ← (if negb (slot =? 0) then poll_add st e at_ else Done st); Done (false, st)).
Proof. intros Ha. unfold handle_completion. rewrite Ha. reflexivity. Qed.

Lemma handle_unregister st id : active st = true ->
  handle_completion st (completion_of (Unregister_me id)) =
  (slot ← read_executor st id;
   if negb (slot =? 0) then
      r ← executor_scheduler_provide_sqe (scheduler_ring st);
      let st := with_scheduler_ring st (write_sqe r (Sqe (Poll_remove slot) 0 IOSQE_CQE_SKIP_SUCCESS)) in
      st ← store_executor st id 0;
      e ← demand (heap slot);
      Done (false, post_integer st EXECUTOR_SCOPE_SCHEDULER_UNREGISTER (completion_of (Unregister_me id)) e)
    else Done (false, st)).
Proof. intros Ha. unfold handle_completion. rewrite Ha. reflexivity. Qed.

(** ** The properties *)

(** C3: the scheduler implements the protocol of its messages: an executor that
    registers is polled, and polled again each time it asks, a readable ring is
    posted to its Dart side as long as it is registered, and unregistering removes
    the poll, posts once and silences it; nothing is lost when the ring is full,
    and failed completions change nothing. *)
Theorem scheduler_implements_protocol s st ms :
  refines s st -> messages_ok s ms ->
  exists st', handle_completions st (map completion_of ms) = Done (false, st')
    /\ refines (spec_run s ms).1.1 st'
    /\ notices st' = notices st ++ (spec_run s ms).1.2
    /\ entries (scheduler_ring st') = entries (scheduler_ring st) ++ (spec_run s ms).2.
Proof.
  revert s st. induction ms as [|m ms IH]; intros s st Hr Hm; cbn [map handle_completions spec_run messages_ok] in *.
  - exists st. cbn [fst snd]. rewrite !app_nil_r. auto.
  - destruct Hm as [Hm Hms]. destruct (handle_refines s st m Hr Hm) as (st1 & -> & Hr1 & Hn1 & He1). rewrite bind_done.
    destruct (spec_step s m) as [[s1 n1] q1]. cbn [fst snd] in *.
    destruct (IH s1 st1 Hr1 Hms) as (st2 & E & Hr2 & Hn2 & He2). exists st2.
    destruct (spec_run s1 ms) as [[s2 n2] q2]. cbn [fst snd] in *.
    split_and!; [exact E|exact Hr2|rewrite Hn2, Hn1, app_assoc; reflexivity|rewrite He2, He1, app_assoc; reflexivity].
Qed.

(** The array of executors is not initialised: a request to poll or to unregister
    an executor that never registered reads an indeterminate element; and a
    readable ring whose executor is no longer in memory is dereferenced. *)
Theorem scheduler_unregistered_faults st e at_ id :
  active st = true ->
  (heap at_ = Some e -> executors st !! executor_id e = None ->
     handle_completion st (completion_of (Poll_me at_)) = Faults
     /\ handle_completion st (completion_of (Readable at_)) = Faults)
  /\ (executors st !! id = None -> handle_completion st (completion_of (Unregister_me id)) = Faults)
  /\ (heap at_ = None -> handle_completion st (completion_of (Readable at_)) = Faults).
Proof.
  intros Ha. assert (Hread : forall id, executors st !! id = None -> read_executor st id = Faults).
  { intros i E. unfold read_executor. rewrite E. case_match; reflexivity. }
  split_and!.
  - intros Eh E. rewrite handle_poll, handle_readable, Eh by exact Ha. cbn [demand].
    rewrite !bind_done, (Hread _ E). split; reflexivity.
  - intros E. rewrite handle_unregister by exact Ha. rewrite (Hread _ E). reflexivity.
  - intros E. rewrite handle_readable, E by exact Ha. reflexivity.
Qed.

(** ** Starting and stopping the thread *)

(** [while (!flag) if (error = timedwait(...)) fail]: each wait answers its error and
    the flag afterwards.  [Some error] is the failure. *)
Fixpoint wait_loop (flag : bool) (waits : list (Z * bool)) : outcome (option Z) :=
  if flag then Done None else
  match waits with
  | [] => Spins
  | (error, flag) :: waits => if negb (error =? 0) then Done (Some error) else wait_loop flag waits
  end.

(** The start of the thread up to the first wait: a failure leaves [active] false and
    broadcasts. *)
Definition executor_scheduler_listen_start (queue_init : R + Z) (r : R) : scheduler :=
  match queue_init with
  | inl ring => Scheduler ring true false ∅ []
  | inr _ => Scheduler r false false ∅ []
  end.

(** [started]: the [active] flag when the mutex is taken; the result is null for
    [None].  The error is stored in the structure that is dropped. *)
Definition executor_scheduler_initialize (create_error : Z) (st : scheduler) (waits : list (Z * bool)) : outcome (option scheduler) :=
  if negb (create_error =? 0) then Done None else
  error ← wait_loop (active st) waits;
  match error with
  | Some _ => Done None
  | None => Done (Some (Scheduler (scheduler_ring st) true true (executors st) (notices st)))
  end.

(** [exited]: the [running] flag after each wait, negated. *)
Definition executor_scheduler_shutdown st (waits : list (Z * bool)) : outcome (bool * scheduler) :=
  if negb (running st) || negb (active st) then Done (true, st) else
  r ← executor_scheduler_provide_sqe (scheduler_ring st);
  let st := Scheduler (submit (write_sqe r (Sqe Nop 0 0))) false (running st) (executors st) (notices st) in
  error ← wait_loop false waits;
  match error with
  | Some _ => Done (false, st)
  | None => Done (true, Scheduler (scheduler_ring st) false false (executors st) (notices st))
  end.

(** A shutdown wakes the thread with one entry, after everything before it, and
    the thread returns on the next successful completion; the caller is told
    whether it was waited for.  A second shutdown does nothing. *)
Theorem scheduler_shutdown_stops st waits result st' :
  running st = true -> active st = true -> executor_scheduler_shutdown st waits = Done (result, st') ->
  active st' = false /\ running st' = negb result
  /\ submitted (scheduler_ring st') = entries (scheduler_ring st) ++ [Sqe Nop 0 0]
  /\ (forall cqe, 0 <= cqe_res cqe -> exists st'', handle_completion st' cqe = Done (true, st'') /\ running st'' = false)
  /\ (result = true -> forall waits', executor_scheduler_shutdown st' waits' = Done (true, st')).
Proof.
  intros Hrun Hact. unfold executor_scheduler_shutdown. rewrite Hrun, Hact. cbn [negb orb].
  destruct (provide_done (scheduler_ring st)) as (r & -> & He). rewrite bind_done. cbv zeta. intros E.
  assert (Hsub : submitted (submit (write_sqe r (Sqe Nop 0 0))) = entries (scheduler_ring st) ++ [Sqe Nop 0 0]).
  { destruct (submit_spec (write_sqe r (Sqe Nop 0 0))) as (_ & -> & _). apply He. }
  destruct (wait_loop false waits) as [[error|]| | |]; cbn [mbind outcome_bind] in E; simplify_eq; cbn [active running scheduler_ring negb];
    (split_and!; [reflexivity|reflexivity|exact Hsub| |]).
  - intros cqe Hc. unfold handle_completion. rewrite (proj2 (Z.ltb_ge _ _)) by lia. eexists. split; reflexivity.
  - discriminate.
  - intros cqe Hc. unfold handle_completion. rewrite (proj2 (Z.ltb_ge _ _)) by lia. eexists. split; reflexivity.
  - reflexivity.
Qed.

End Scheduler.

(** *** The properties at work *)

Section Witnesses.
Definition demo_heap (at_ : Z) : option (executor_instance (R := list_ring)) :=
  if at_ =? 1000 then Some (with_callback (executor_at 5 1) 77) else None.
Definition fresh_scheduler : scheduler (R := list_ring) := Scheduler (ring_at 3) true true ∅ [].

Lemma fresh_refines : refines demo_heap (Spec ∅ ∅) fresh_scheduler.
Proof. split; [reflexivity|intros id Hid; set_solver|intros id at_ Hreg; cbn in Hreg; discriminate]. Qed.

Lemma scheduler_implements_protocol_witness :
  exists st', handle_completions demo_heap (fun _ _ => true) fresh_scheduler
      (map completion_of [Register_me 1000; Readable 1000; Poll_me 1000; Unregister_me 1; Readable 1000]) = Done (false, st')
    /\ notices st' = [Posted 77 1; Posted 77 1].
Proof.
  destruct (scheduler_implements_protocol demo_heap (fun _ _ => true) (Spec ∅ ∅) fresh_scheduler
    [Register_me 1000; Readable 1000; Poll_me 1000; Unregister_me 1; Readable 1000] fresh_refines) as (st' & E & _ & Hn & _).
  - split; [eexists; split; [reflexivity|]; split; [discriminate|split; vm_compute; [discriminate|reflexivity]]|].
    split; [eexists; split; [reflexivity|]; cbn; set_solver|].
    split; [eexists; split; [reflexivity|]; cbn; set_solver|].
    split; [cbn; set_solver|].
    split; [eexists; split; [reflexivity|]; cbn; set_solver|exact I].
  - exists st'. split; [exact E|]. rewrite Hn. vm_compute. reflexivity.
Defined.

Lemma scheduler_unregistered_faults_witness :
  handle_completion demo_heap (fun _ _ => true) fresh_scheduler (completion_of (Unregister_me 9)) = Faults.
Proof.
  destruct (scheduler_unregistered_faults demo_heap (fun _ _ => true) fresh_scheduler (executor_at 5 1) 1000 9 eq_refl) as (_ & G & _).
  apply G. reflexivity.
Defined.

Lemma scheduler_shutdown_stops_witness :
  exists st', executor_scheduler_shutdown fresh_scheduler [(0, false); (0, true)] = Done (true, st')
    /\ submitted (scheduler_ring st') = [Sqe Nop 0 0].
Proof.
  destruct (executor_scheduler_shutdown fresh_scheduler [(0, false); (0, true)]) as [[r st']| | |] eqn:E;
    try (vm_compute in E; discriminate E).
  destruct (scheduler_shutdown_stops demo_heap (fun _ _ => true) fresh_scheduler _ r st' eq_refl eq_refl E) as (_ & _ & G & _).
  exists st'. split; [|exact G]. f_equal. f_equal. vm_compute in E. injection E as <- _. reflexivity.
Defined.
End Witnesses.
