(* ===== verification/Wakeup.v ===== *)
(** * Wake-ups: executors, the scheduler, the kernel and the Dart side

    An idle executor does not look at its ring.  The scheduler polls the ring for it
    and posts a number to its port; the Dart side ([executor.dart], [_awake]) then asks
    to be polled again, handles what has arrived and goes back to being idle.  Here the
    operations of [Executor] and the thread of [Scheduler] run together with the
    kernel: messages between rings are delivered in the order of each ring, a poll
    that was added fires once, when completions are there to be seen or as soon as
    there are, and a poll that is removed is reported as cancelled.  Every post may
    fail.  Executors are activated, deactivated and shut down at any time; what is
    proved of the wake-ups of one is proved until it is deactivated, or a wake-up of
    it finds its ring full, which raises on the Dart side. *)
From stdpp Require Import strings relations.
From S2P Require Import Prelude Events Uring Executor Scheduler.

Fixpoint count {A} (f : A -> bool) (l : list A) : nat :=
  match l with [] => 0 | a :: l => (if f a then 1 else 0) + count f l end%nat.

Lemma count_of_app {A} (f : A -> bool) l1 l2 : count f (l1 ++ l2) = (count f l1 + count f l2)%nat.
Proof. induction l1; cbn; lia. Qed.
Lemma count_le {A} (f g : A -> bool) l : (forall a, f a = true -> g a = true) -> (count f l <= count g l)%nat.
Proof.
  intros E. induction l as [|a l IH]; cbn; [lia|]. specialize (E a).
  destruct (f a); [rewrite (E eq_refl); lia|destruct (g a); lia].
Qed.
Lemma count_positive {A} (f : A -> bool) l : (0 < count f l)%nat -> exists l1 a l2, l = l1 ++ a :: l2 /\ f a = true.
Proof.
  induction l as [|a l IH]; cbn; [lia|]. destruct (f a) eqn:E; intros Hc; [exists [], a, l; auto|].
  destruct (IH Hc) as (l1 & b & l2 & -> & Eb). exists (a :: l1), b, l2. auto.
Qed.

(** ** The end of a wake-up

    [_awake] after the completions are handled: the executor asks to be unregistered
    when it is stopping and nothing is pending. *)
Section Awake.
Context {R : Type} `{UringLaws R} (ring_full : event).

Definition has_state (e : executor_instance (R := R)) (s : Z) : bool := negb (Z.land (state e) s =? 0).

Definition after_awake (seen : nat) (pending : Z) (e : executor_instance (R := R)) : Z * executor_instance (R := R) :=
  let '(r, e) := run_op ring_full e Awake_complete in
  if (seen =? 0)%nat then (r, e) else
  if has_state e EXECUTOR_STATE_STOPPING && (pending =? 0) then run_op ring_full e (Unregister true) else (r, e).

(** The state was overwritten before it is tested. *)
Lemma after_awake_complete seen pending e : after_awake seen pending e = run_op ring_full e Awake_complete.
Proof. unfold after_awake. cbn. by destruct (seen =? 0)%nat. Qed.
End Awake.

(** For the statements only: before its activation; activated; and deactivated since,
    or refused a wake-up. *)
Inductive life := Fresh | Followed | Left.
#[export] Instance life_eq_dec : EqDecision life.
Proof. solve_decision. Defined.

Section Wakeup.
Context {R : Type} `{UringLaws R} (ring_full : event) (scheduler_fd : Z).

(** ** The state *)

(** Where the Dart side is in [_awake]; [Peeked] with what it saw. *)
Inductive phase := Out | Begun | Peeked (seen : nat).

(** An executor, how many of its entries the kernel has delivered, the completions
    that are not seen yet, and how many notices its port has handled. *)
Record node := Node {
  exec : executor_instance (R := R); sent : nat; inbox : nat; taken : nat; at_phase : phase; lifetime : life }.

(** The executors by address; the thread of the scheduler, how many entries of its
    ring the kernel has taken, its completions, and the polls that were added: the
    descriptor and the data. *)
Record system := System {
  nodes : gmap Z node;
  sched : scheduler (R := R);
  polled : nat;
  ready : list io_uring_cqe;
  armed : list (Z * Z);
}.
Implicit Types (x : system) (n : node).

Definition heap_of x (a : Z) : option (executor_instance (R := R)) := exec <$> nodes x !! a.
Definition with_node x (a : Z) n : system := System (<[a := n]> (nodes x)) (sched x) (polled x) (ready x) (armed x).
Definition with_exec n (e : executor_instance (R := R)) : node := Node e (sent n) (inbox n) (taken n) (at_phase n) (lifetime n).
Definition arrive n : node := Node (exec n) (sent n) (S (inbox n)) (taken n) (at_phase n) (lifetime n).
Definition next_sent n : node := Node (exec n) (S (sent n)) (inbox n) (taken n) (at_phase n) (lifetime n).

Definition is_posted (id : Z) (m : notice) : bool := match m with Posted _ id' => id' =? id | Post_failed _ _ => false end.
Definition is_failed (a : Z) (m : notice) : bool :=
  match m with Post_failed _ c => (cqe_user_data c =? a) && (cqe_res c =? POLLIN) | Posted _ _ => false end.
Definition posted x (id : Z) : nat := count (is_posted id) (notices (sched x)).
Definition failed x (a : Z) : nat := count (is_failed a) (notices (sched x)).

(** A message of an executor reaches the ring it names. *)
Definition delivered x (e : io_uring_sqe) : system :=
  match sqe_operation e with
  | Msg_ring fd kind data =>
      if fd =? scheduler_fd then System (nodes x) (sched x) (polled x) (ready x ++ [Cqe kind data 0]) (armed x)
      else System ((fun n => if descriptor (exec n) =? fd then arrive n else n) <$> nodes x) (sched x) (polled x) (ready x) (armed x)
  | _ => x
  end.

(** The polls without the first one with this data. *)
Fixpoint without_first (data : Z) (l : list (Z * Z)) : option (list (Z * Z)) :=
  match l with
  | [] => None
  | p :: l => if snd p =? data then Some l else cons p <$> without_first data l
  end.

(** The kernel takes an entry of the scheduler; the completion of a poll that is
    removed is [-ECANCELED], and removing one that is not there is [-ENOENT]. *)
Definition taken_entry x (e : io_uring_sqe) : system :=
  match sqe_operation e with
  | Poll_add fd _ => System (nodes x) (sched x) (S (polled x)) (ready x) (armed x ++ [(fd, sqe_user_data e)])
  | Poll_remove data =>
      match without_first data (armed x) with
      | Some armed => System (nodes x) (sched x) (S (polled x)) (ready x ++ [Cqe (-125) data 0]) armed
      | None => System (nodes x) (sched x) (S (polled x)) (ready x ++ [Cqe (-2) 0 0]) (armed x)
      end
  | _ => System (nodes x) (sched x) (S (polled x)) (ready x) (armed x)
  end.

(** Not a message to the scheduler. *)
Definition elsewhere (e : io_uring_sqe) : Prop :=
  match sqe_operation e with Msg_ring fd _ _ => fd <> scheduler_fd | _ => True end.
Definition op_other (op : executor_op) : Prop :=
  match op with Call_native _ _ _ | Callback_native _ _ | Call_dart _ _ _ | Callback_dart _ _ => True | _ => False end.

(** ** The steps *)

(** The kernel and the thread of the scheduler; each post succeeds or not. *)
Inductive kernel_step : system -> system -> Prop :=
| Step_deliver x a n e :
    nodes x !! a = Some n -> submitted (ring (exec n)) !! sent n = Some e ->
    kernel_step x (delivered (with_node x a (next_sent n)) e)
| Step_submit x :
    kernel_step x (System (nodes x) (with_scheduler_ring (sched x) (submit_and_wait (scheduler_ring (sched x)))) (polled x) (ready x) (armed x))
| Step_handle x post cqe rest st :
    ready x = cqe :: rest -> handle_completion (heap_of x) post (sched x) cqe = Done (false, st) ->
    kernel_step x (System (nodes x) st (polled x) rest (armed x))
| Step_poll x e :
    submitted (scheduler_ring (sched x)) !! polled x = Some e -> kernel_step x (taken_entry x e)
| Step_fire x l1 fd data l2 a n :
    armed x = l1 ++ (fd, data) :: l2 -> nodes x !! a = Some n -> descriptor (exec n) = fd -> (0 < inbox n)%nat ->
    kernel_step x (System (nodes x) (sched x) (polled x) (ready x ++ [Cqe POLLIN data 0]) (l1 ++ l2)).

(** The Dart side, its tasks, and completions that come from elsewhere.  [_awake]
    ignores its notice when the executor is stopped or paused; a ring that is full
    makes it raise. *)
Inductive dart_step : system -> system -> Prop :=
| Step_activate x a n callback e :
    nodes x !! a = Some n -> lifetime n <> Followed -> run_op ring_full (exec n) (Register callback) = (0, e) ->
    dart_step x (with_node x a (Node e (sent n) (inbox n) (taken n) (at_phase n) (match lifetime n with Fresh => Followed | l => l end)))
| Step_deactivate x a n e :
    nodes x !! a = Some n -> lifetime n <> Fresh -> run_op ring_full (exec n) (Unregister false) = (0, e) ->
    dart_step x (with_node x a (Node e (sent n) (inbox n) (taken n) (at_phase n) Left))
| Step_shutdown x a n e :
    nodes x !! a = Some n -> run_op ring_full (exec n) Shutdown = (0, e) -> dart_step x (with_node x a (with_exec n e))
| Step_ignore x a n :
    nodes x !! a = Some n -> at_phase n = Out -> (taken n < posted x (executor_id (exec n)))%nat ->
    has_state (exec n) EXECUTOR_STATE_STOPPED || has_state (exec n) EXECUTOR_STATE_PAUSED = true ->
    dart_step x (with_node x a (Node (exec n) (sent n) (inbox n) (S (taken n)) Out (lifetime n)))
| Step_begin x a n e r :
    nodes x !! a = Some n -> at_phase n = Out -> (taken n < posted x (executor_id (exec n)))%nat ->
    has_state (exec n) EXECUTOR_STATE_STOPPED || has_state (exec n) EXECUTOR_STATE_PAUSED = false ->
    run_op ring_full (exec n) Awake_begin = (r, e) ->
    dart_step x (with_node x a (if r =? 0 then Node e (sent n) (inbox n) (S (taken n)) Begun (lifetime n)
                                else Node e (sent n) (inbox n) (S (taken n)) Out Left))
| Step_peek x a n e seen :
    nodes x !! a = Some n -> at_phase n = Begun -> (seen <= inbox n)%nat -> run_op ring_full (exec n) Peek = (0, e) ->
    dart_step x (with_node x a (Node e (sent n) (inbox n) (taken n) (Peeked seen) (lifetime n)))
| Step_complete x a n e seen pending :
    nodes x !! a = Some n -> at_phase n = Peeked seen -> after_awake ring_full seen pending (exec n) = (0, e) ->
    dart_step x (with_node x a (Node e (sent n) (inbox n - seen) (taken n) Out (lifetime n)))
| Step_operate x a n op e :
    nodes x !! a = Some n -> op_other op -> Forall elsewhere (op_message (exec n) op) ->
    run_op ring_full (exec n) op = (0, e) -> dart_step x (with_node x a (with_exec n e))
| Step_arrive x a n :
    nodes x !! a = Some n -> dart_step x (with_node x a (arrive n)).

Definition wakeup_step x y : Prop := kernel_step x y \/ dart_step x y.

(** ** Where the wake-up of an executor is *)

Definition is_ask (kind : Z) : bool := (kind =? EXECUTOR_SCHEDULER_REGISTER) || (kind =? EXECUTOR_SCHEDULER_POLL).
Definition is_request (kind : Z) : bool := is_ask kind || (kind =? POLLIN).
Definition asks (k : Z -> bool) (a : Z) (e : io_uring_sqe) : bool :=
  match sqe_operation e with Msg_ring fd kind data => (fd =? scheduler_fd) && k kind && (data =? a) | _ => false end.
Definition requests (k : Z -> bool) (a : Z) (c : io_uring_cqe) : bool := (cqe_user_data c =? a) && k (cqe_res c).
Definition polls (a : Z) (e : io_uring_sqe) : bool :=
  match sqe_operation e with Poll_add _ _ => sqe_user_data e =? a | _ => false end.

Definition armed_for (a : Z) (p : Z * Z) : bool := snd p =? a.

Definition undelivered n : list io_uring_sqe := drop (sent n) (entries (ring (exec n))).
Definition unpolled x : list io_uring_sqe := drop (polled x) (entries (scheduler_ring (sched x))).

(** Asked for, by the executor or at the scheduler; or being polled; and the notices
    its port has been sent. *)
Definition asked x a n : nat := count (asks is_ask a) (undelivered n).
Definition requested x a : nat := count (requests is_request a) (ready x).
Definition polling x a : nat := (count (polls a) (unpolled x) + count (armed_for a) (armed x))%nat.
Definition registering x a n : nat :=
  (count (asks (Z.eqb EXECUTOR_SCHEDULER_REGISTER) a) (undelivered n)
   + count (requests (Z.eqb EXECUTOR_SCHEDULER_REGISTER) a) (ready x))%nat.

Definition activated n : nat := match lifetime n with Fresh => 0%nat | _ => 1%nat end.

(** The wake-up is in one place, or was lost. *)
Definition one_wakeup x a n : Prop :=
  (asked x a n + requested x a + polling x a + posted x (executor_id (exec n)) + failed x a = taken n + activated n)%nat
  /\ (taken n <= posted x (executor_id (exec n)))%nat.

(** *** Messages about an executor, in their order: at the scheduler, then on their way *)

Definition sched_message (e : io_uring_sqe) : option (Z * Z) :=
  match sqe_operation e with Msg_ring fd kind data => if fd =? scheduler_fd then Some (kind, data) else None | _ => None end.
Definition of_cqe (c : io_uring_cqe) : Z * Z := (cqe_res c, cqe_user_data c).
Definition trail x n : list (Z * Z) := map of_cqe (ready x) ++ omap sched_message (undelivered n).

Definition registers (a : Z) (m : Z * Z) : bool := (m.1 =? EXECUTOR_SCHEDULER_REGISTER) && (m.2 =? a).
(** What makes no sense before it registered. *)
Definition needs (a id : Z) (m : Z * Z) : bool :=
  ((m.2 =? a) && ((m.1 =? EXECUTOR_SCHEDULER_POLL) || (m.1 =? POLLIN))) || ((m.2 =? id) && (m.1 =? EXECUTOR_SCHEDULER_UNREGISTER)).
Fixpoint announced (a id : Z) (l : list (Z * Z)) : bool :=
  match l with [] => false | m :: l => registers a m || (negb (needs a id m) && announced a id l) end.

Lemma announced_app a id l1 l2 : announced a id l1 = true -> announced a id (l1 ++ l2) = true.
Proof.
  induction l1 as [|m l1 IH]; [done|]. cbn. destruct (registers a m); [done|]. cbn. destruct (needs a id m); [done|]. exact IH.
Qed.
Lemma announced_first a id l1 m l2 : Forall (fun m => needs a id m = false) l1 -> registers a m = true -> announced a id (l1 ++ m :: l2) = true.
Proof. intros F Hm. induction F as [|m1 l1 F1 F IH]; cbn; [by rewrite Hm|]. rewrite F1, IH. cbn. by destruct (registers a m1). Qed.
Lemma announced_insert a id l1 m l2 : registers a m = false -> needs a id m = false ->
  announced a id (l1 ++ m :: l2) = announced a id (l1 ++ l2).
Proof. intros Hr Hn. induction l1 as [|m1 l1 IH]; cbn; [by rewrite Hr, Hn|]. by rewrite IH. Qed.

(** ** The invariant *)

(** A completion the scheduler understands: a failure, or about an executor there is. *)
Inductive about x (c : io_uring_cqe) : scheduler_message -> Prop :=
| About_failure : cqe_res c < 0 -> about x c Failed
| About_request m b n : nodes x !! b = Some n -> c = completion_of m -> m = Readable b \/ m = Poll_me b \/ m = Register_me b -> about x c m
| About_leaving b n : nodes x !! b = Some n -> lifetime n = Left -> c = completion_of (Unregister_me (executor_id (exec n))) ->
    about x c (Unregister_me (executor_id (exec n))).
Definition understood x (c : io_uring_cqe) : Prop := exists m, about x c m.
(** An entry of the scheduler is for an executor there is and that registered. *)
Definition polling_entry x (s : spec_state) (e : io_uring_sqe) : Prop :=
  exists a n, nodes x !! a = Some n /\ executor_id (exec n) ∈ known s /\
    (e = poll_entry (exec n) a \/ (lifetime n = Left /\ e = Sqe (Poll_remove a) 0 IOSQE_CQE_SKIP_SUCCESS)).
Definition armed_right x (s : spec_state) (p : Z * Z) : Prop :=
  exists n, nodes x !! snd p = Some n /\ descriptor (exec n) = fst p /\ executor_id (exec n) ∈ known s.
(** What an executor sends to the scheduler is about itself. *)
Definition leaves (id : Z) (e : io_uring_sqe) : Prop := e = message scheduler_fd EXECUTOR_SCHEDULER_UNREGISTER id.
Definition asks_itself (a : Z) n (e : io_uring_sqe) : Prop :=
  elsewhere e \/ asks is_ask a e = true \/ (lifetime n = Left /\ leaves (executor_id (exec n)) e).

Record node_ok x (s : spec_state) (a : Z) n : Prop := {
  nk_address : address (exec n) = a /\ a <> 0;
  nk_id : 0 <= executor_id (exec n) < EXECUTOR_SCHEDULER_LIMIT;
  nk_fd : descriptor (exec n) <> scheduler_fd /\ scheduler_descriptor (exec n) = scheduler_fd;
  nk_idle : state (exec n) = EXECUTOR_STATE_IDLE -> Forall elsewhere (prepared (ring (exec n)));
  nk_sent : (sent n <= length (submitted (ring (exec n))))%nat;
  nk_asks : Forall (asks_itself a n) (undelivered n);
  nk_state : lifetime n = Followed -> state (exec n) ∈ [EXECUTOR_STATE_IDLE; EXECUTOR_STATE_WAKING; EXECUTOR_STATE_STOPPING];
  nk_one : lifetime n <> Left -> one_wakeup x a n;
  nk_registered : lifetime n <> Left ->
    (registering x a n + (if bool_decide (registered s !! executor_id (exec n) = Some a) then 1 else 0) = activated n)%nat;
  nk_known : lifetime n <> Fresh -> executor_id (exec n) ∈ known s \/ announced a (executor_id (exec n)) (trail x n) = true;
}.

Record system_ok x (s : spec_state) : Prop := {
  so_refines : refines (heap_of x) s (sched x);
  so_nodes a n : nodes x !! a = Some n -> node_ok x s a n;
  so_distinct a b n m : nodes x !! a = Some n -> nodes x !! b = Some m -> executor_id (exec n) = executor_id (exec m) -> a = b;
  so_ready : Forall (understood x) (ready x);
  so_polled : (polled x <= length (entries (scheduler_ring (sched x))))%nat;
  so_unpolled : Forall (polling_entry x s) (unpolled x);
  so_armed : Forall (armed_right x s) (armed x);
}.

(** *** What a change of an executor leaves alone *)

(** The same executors, as far as the scheduler can see. *)
Definition same_node n n' : Prop := same_place (exec n) (exec n') /\ (lifetime n = Left -> lifetime n' = Left).
Definition same_executors x y : Prop :=
  (forall a n, nodes x !! a = Some n -> exists n', nodes y !! a = Some n' /\ same_node n n')
  /\ (forall a n', nodes y !! a = Some n' -> exists n, nodes x !! a = Some n /\ same_node n n').

Lemma same_node_refl n : same_node n n.
Proof. repeat split; auto. Qed.

Lemma same_executors_insert x a n n' : nodes x !! a = Some n -> same_node n n' -> same_executors x (with_node x a n').
Proof.
  intros E S. split; intros b m; cbn [nodes with_node]; intros Hb.
  - destruct (decide (b = a)) as [->|]; [rewrite lookup_insert_eq; simplify_eq; eauto|].
    rewrite lookup_insert_ne by done. eauto using same_node_refl.
  - destruct (decide (b = a)) as [->|]; [rewrite lookup_insert_eq in Hb; simplify_eq; eauto|].
    rewrite lookup_insert_ne in Hb by done. eauto using same_node_refl.
Qed.

Lemma same_executors_refl x y : nodes y = nodes x -> same_executors x y.
Proof. intros E. split; rewrite E; eauto using same_node_refl. Qed.

Lemma same_refines x y s st : same_executors x y -> refines (heap_of x) s st -> refines (heap_of y) s st.
Proof.
  intros [S _] [A K G]. split; [exact A|exact K|]. intros id a E. destruct (G id a E) as (? & ? & e & Eh & Ei). split_and!; auto.
  unfold heap_of in *. destruct (nodes x !! a) as [n|] eqn:En; [|discriminate]. injection Eh as <-.
  destruct (S a n En) as (n' & -> & [Sp _]). exists (exec n'). split; [reflexivity|]. destruct Sp as (_ & _ & -> & _). exact Ei.
Qed.

Lemma same_understood x y c : same_executors x y -> understood x c -> understood y c.
Proof.
  intros [S _] (m & [N|m0 b n En Ec Hm|b n En L Ec]).
  - exists Failed. by constructor.
  - destruct (S b n En) as (n' & En' & _). exists m0. by eapply About_request.
  - destruct (S b n En) as (n' & En' & (_ & _ & Si & _) & SL). rewrite <- Si in Ec. eexists. eapply About_leaving; eauto.
Qed.
Lemma same_polling_entry x y s s' e : same_executors x y -> known s ⊆ known s' -> polling_entry x s e -> polling_entry y s' e.
Proof.
  intros [S _] Ks (a & n & En & Hk & He). destruct (S a n En) as (n' & En' & (_ & _ & Si & Sd) & SL). exists a, n'. split; [exact En'|].
  rewrite Si. split; [set_solver|]. destruct He as [->|[L ->]]; [left|right; auto]. unfold poll_entry. by rewrite Sd.
Qed.
Lemma same_armed x y s s' p : same_executors x y -> known s ⊆ known s' -> armed_right x s p -> armed_right y s' p.
Proof.
  intros [S _] Ks (n & En & Ed & Hk). destruct (S _ n En) as (n' & En' & (_ & _ & Si & Sd) & _). exists n'.
  rewrite Si, Sd. split_and!; [done|done|set_solver].
Qed.

(** The invariant follows for a state whose scheduler is as before, or has handled
    more, from what is said of each executor. *)
Lemma ok_again x y s s' :
  system_ok x s -> same_executors x y -> known s ⊆ known s' ->
  refines (heap_of x) s' (sched y) -> Forall (understood x) (ready y) ->
  (polled y <= length (entries (scheduler_ring (sched y))))%nat ->
  Forall (polling_entry x s') (unpolled y) -> Forall (armed_right x s') (armed y) ->
  (forall a n', nodes y !! a = Some n' -> node_ok y s' a n') ->
  system_ok y s'.
Proof.
  intros O S Ks Hr Hu Hp Hq Ha Hn. split; [eapply same_refines; eauto|exact Hn| | |exact Hp| |].
  - intros a b n m Ea Eb E. destruct S as [_ S]. destruct (S a n Ea) as (n0 & Ea0 & P1 & _), (S b m Eb) as (m0 & Eb0 & P2 & _).
    eapply (so_distinct x s O); eauto. destruct P1 as (_ & _ & <- & _), P2 as (_ & _ & <- & _). exact E.
  - eapply Forall_impl; [exact Hu|]. intros c. by apply same_understood.
  - eapply Forall_impl; [exact Hq|]. intros e. by apply same_polling_entry.
  - eapply Forall_impl; [exact Ha|]. intros p. by apply same_armed.
Qed.

(** *** The Dart side *)

Lemma submitted_grows (e e' : executor_instance (R := R)) op :
  (run_op ring_full e op).2 = e' -> (length (submitted (ring e)) <= length (submitted (ring e')))%nat.
Proof.
  assert (S1 : forall r : R, (length (submitted r) <= length (submitted (submit r)))%nat).
  { intros r. destruct (submit_spec r) as (_ & -> & _). rewrite length_app. lia. }
  assert (W1 : forall (r r' : R) m, get_sqe r = Some r' -> submitted (write_sqe r' m) = submitted r).
  { intros r r' m E. apply (get_sqe_write r r' m E). }
  destruct op; cbn [run_op]; unfold executor_register_on_scheduler, executor_unregister_from_scheduler, executor_peek,
    executor_awake_begin, executor_awake_complete, executor_call_native, executor_callback_to_native,
    executor_call_dart, executor_callback_to_dart, executor_submit, executor_shutdown; cbn [ring with_state with_callback with_ring];
    try (destruct (get_sqe (ring e)) as [r|] eqn:G); try case_match; cbn [snd];
    intros <-; cbn [ring with_ring with_state with_callback];
    first [apply S1|rewrite (W1 _ _ _ G); reflexivity|reflexivity|etransitivity; [|apply S1]; rewrite (W1 _ _ _ G); reflexivity].
Qed.

Lemma run_op_state (e e' : executor_instance (R := R)) op :
  (run_op ring_full e op).2 = e' ->
  state e' = match op with
             | Register _ | Awake_complete => EXECUTOR_STATE_IDLE
             | Unregister stop => if stop then EXECUTOR_STATE_STOPPED else EXECUTOR_STATE_PAUSED
             | Awake_begin => EXECUTOR_STATE_WAKING
             | Shutdown => EXECUTOR_STATE_STOPPING
             | _ => state e
             end.
Proof.
  destruct op; cbn [run_op]; unfold executor_register_on_scheduler, executor_unregister_from_scheduler, executor_peek,
    executor_awake_begin, executor_awake_complete, executor_call_native, executor_callback_to_native,
    executor_call_dart, executor_callback_to_dart, executor_submit, executor_shutdown; cbn [ring with_state with_callback with_ring];
    try (destruct (get_sqe (ring e)) as [r|] eqn:G); try case_match; cbn [snd]; intros <-; reflexivity.
Qed.

Lemma undelivered_more n (e : executor_instance (R := R)) l i t ph lf :
  (sent n <= length (submitted (ring (exec n))))%nat -> entries (ring e) = entries (ring (exec n)) ++ l ->
  undelivered (Node e (sent n) i t ph lf) = undelivered n ++ l.
Proof.
  intros Hs E. unfold undelivered. cbn [exec sent]. rewrite E, drop_app_le; [reflexivity|].
  unfold entries. rewrite length_app. lia.
Qed.

Lemma asks_split l k a : Forall elsewhere l -> count (asks k a) l = 0%nat.
Proof.
  intros F. induction F as [|e l He F IH]; [reflexivity|]. cbn. rewrite IH. unfold asks, elsewhere in *.
  destruct (sqe_operation e); try reflexivity. rewrite (proj2 (Z.eqb_neq _ _)) by exact He. reflexivity.
Qed.
Lemma sched_message_elsewhere l : Forall elsewhere l -> omap sched_message l = [].
Proof.
  intros F. induction F as [|e l He F IH]; [reflexivity|]. cbn. rewrite IH. unfold sched_message, elsewhere in *.
  destruct (sqe_operation e); try reflexivity. rewrite (proj2 (Z.eqb_neq _ _)) by exact He. reflexivity.
Qed.

(** Idle, an executor has prepared nothing for the scheduler. *)
Lemma idle_kept (e e' : executor_instance (R := R)) op : run_op ring_full e op = (0, e') ->
  (op_other op -> Forall elsewhere (op_message e op)) ->
  (state e = EXECUTOR_STATE_IDLE -> Forall elsewhere (prepared (ring e))) ->
  state e' = EXECUTOR_STATE_IDLE -> Forall elsewhere (prepared (ring e')).
Proof.
  intros E Hl Hi Hs. pose proof (run_op_entries ring_full e op) as G. pose proof (run_op_state e e' op) as St. rewrite E in G, St.
  destruct (G eq_refl) as (_ & P & _). cbn [snd] in P. rewrite P. specialize (St eq_refl). rewrite St in Hs.
  assert (N : executor_need_submit e = false -> state e <> EXECUTOR_STATE_IDLE) by (intros B B'; unfold executor_need_submit in B; by rewrite B' in B).
  destruct op; cbn [op_submits op_other] in *; try (constructor; fail); try discriminate;
    try (destruct (executor_need_submit e) eqn:B; [constructor|by specialize (N eq_refl)]); apply Forall_app; auto.
Qed.

(** An operation, with the messages it sends. *)
Lemma operation_ok x s a n op r e i t ph lf :
  node_ok x s a n -> run_op ring_full (exec n) op = (r, e) ->
  let n' := Node e (sent n) i t ph lf in
  let l := if r =? 0 then op_message (exec n) op else [] in
  r = 0 \/ (same_place (exec n) e /\ entries (ring e) = entries (ring (exec n)) /\ state e <> EXECUTOR_STATE_IDLE) ->
  (op_other op -> Forall elsewhere (op_message (exec n) op)) ->
  Forall (asks_itself a n') l -> (lifetime n = Left -> lf = Left) ->
  (lf = Followed -> state e ∈ [EXECUTOR_STATE_IDLE; EXECUTOR_STATE_WAKING; EXECUTOR_STATE_STOPPING]) ->
  (lf <> Left -> lifetime n <> Left ->
     (count (asks is_ask a) l + taken n + activated n = t + activated n')%nat /\
     (t <= posted x (executor_id (exec n)))%nat /\
     (count (asks (Z.eqb EXECUTOR_SCHEDULER_REGISTER) a) l + activated n = activated n')%nat) ->
  (lifetime n = Fresh -> lf <> Fresh -> announced a (executor_id (exec n)) (trail x n ++ omap sched_message l) = true) ->
  node_ok (with_node x a n') s a n' /\ same_node n n'.
Proof.
  intros [K1 K2 K3 K4 K5 K6 K7 K8 K9 K10] Ho n' l Hr Hel Hl HL Hst Hc Hk.
  pose proof (submitted_grows (exec n) e op ltac:(by rewrite Ho)) as Gr.
  assert (G : entries (ring e) = entries (ring (exec n)) ++ l /\ same_place (exec n) e /\
    (state e = EXECUTOR_STATE_IDLE -> Forall elsewhere (prepared (ring e)))).
  { unfold l. destruct (Z.eqb_spec r 0) as [->|N].
    - pose proof (run_op_entries ring_full (exec n) op) as G. rewrite Ho in G. destruct (G eq_refl) as (En & _ & Sp).
      split_and!; [exact En|exact Sp|]. by eapply idle_kept.
    - destruct Hr as [Hr|(Sp & En & Si)]; [done|]. rewrite app_nil_r. split_and!; [done|done|]. intros Hi. by destruct Si. }
  destruct G as (En & Sp & Id). clear Hr.
  pose proof (undelivered_more n e _ i t ph lf K5 En) as U. fold n' in U.
  split; [|split; [exact Sp|exact HL]]. pose proof Sp as (Pa & Ps & Pi & Pd).
  assert (Tr : trail (with_node x a n') n' = trail x n ++ omap sched_message l).
  { unfold trail. cbn [with_node ready]. rewrite U, omap_app, app_assoc. done. }
  split; cbn [exec sent inbox taken at_phase lifetime n']; rewrite ?Pa, ?Ps, ?Pi, ?Pd; fold n'; auto.
  - lia.
  - rewrite U. apply Forall_app. split; [|exact Hl]. eapply Forall_impl; [exact K6|]. intros m [Hm|[Hm|[HLm Hm]]]; [by left|right; by left|right; right].
    cbn [lifetime exec n']. rewrite Pi. auto.
  - intros NL. assert (NL' : lifetime n <> Left) by (intros E; by apply NL, HL).
    destruct (Hc NL NL') as (C1 & C2 & _), (K8 NL') as [T1 T2]. split; [|exact C2 || (cbn [exec taken n']; rewrite Pi; exact C2)].
    unfold asked in *. rewrite U, count_of_app. cbn [exec taken n']. rewrite Pi.
    change (requested (with_node x a n') a) with (requested x a). change (polling (with_node x a n') a) with (polling x a).
    change (posted (with_node x a n')) with (posted x). change (failed (with_node x a n')) with (failed x). lia.
  - intros NL. assert (NL' : lifetime n <> Left) by (intros E; by apply NL, HL).
    destruct (Hc NL NL') as (_ & _ & C3). specialize (K9 NL'). unfold registering in *. rewrite U, count_of_app. cbn [with_node ready]. lia.
  - intros NF. rewrite Tr. destruct (decide (lifetime n = Fresh)) as [F|F]; [right; by apply Hk|].
    destruct (K10 F) as [?|A]; [by left|right]. by apply announced_app.
Qed.

Lemma node_elsewhere x s a b n n' : node_ok x s b n -> node_ok (with_node x a n') s b n.
Proof. intros [? ? ? ? ? ? ? ? ? ?]. split; assumption. Qed.

Lemma with_node_ok x s a n n' :
  system_ok x s -> nodes x !! a = Some n -> node_ok (with_node x a n') s a n' -> same_node n n' ->
  system_ok (with_node x a n') s.
Proof.
  intros O E K Sp. apply (ok_again x _ s s O (same_executors_insert x a n n' E Sp)); try apply O; [done|].
  intros b m Hb. cbn [nodes with_node] in Hb. destruct (decide (b = a)) as [->|Hne].
  - rewrite lookup_insert_eq in Hb. simplify_eq. exact K.
  - rewrite lookup_insert_ne in Hb by done. apply node_elsewhere, (so_nodes x s O b m Hb).
Qed.

(** A request of an executor is about itself, and is counted once. *)
Lemma ask_counted k a kind : k kind = true -> asks k a (message scheduler_fd kind a) = true.
Proof. intros Hk. unfold asks. cbn. rewrite !Z.eqb_refl, Hk. reflexivity. Qed.

Lemma fresh_counts x s a n : node_ok x s a n -> lifetime n = Fresh ->
  asked x a n = 0%nat /\ requested x a = 0%nat /\ posted x (executor_id (exec n)) = taken n.
Proof.
  intros K F. assert (NL : lifetime n <> Left) by (rewrite F; discriminate). destruct (nk_one _ _ _ _ K NL) as [T1 T2].
  unfold activated in T1. rewrite F in T1. lia.
Qed.

Lemma count_none {A} (f : A -> bool) l : count f l = 0%nat -> Forall (fun a => f a = false) l.
Proof. induction l as [|a l IH]; cbn; [constructor|]. destruct (f a) eqn:E; [lia|]. intros Hc. constructor; auto. Qed.

Lemma negative_request res : res < 0 -> is_request res = false.
Proof.
  intros N. unfold is_request, is_ask, EXECUTOR_SCHEDULER_REGISTER, EXECUTOR_SCHEDULER_POLL, POLLIN.
  change (Z.shiftl 1 10) with 1024. change (Z.shiftl 1 12) with 4096. lia.
Qed.

(** Before its activation there is no message about an executor. *)
Lemma fresh_quiet x s a n : system_ok x s -> nodes x !! a = Some n -> lifetime n = Fresh ->
  Forall (fun m => needs a (executor_id (exec n)) m = false) (trail x n).
Proof.
  intros O En F. pose proof (so_nodes x s O a n En) as K. destruct (fresh_counts x s a n K F) as (A0 & R0 & _).
  apply count_none in A0, R0. unfold trail. apply Forall_app. split.
  - apply Forall_map. pose proof (so_ready x s O) as Rd. rewrite Forall_forall in R0; rewrite Forall_forall in Rd; rewrite Forall_forall. intros c Hc. specialize (R0 c Hc).
    destruct (Rd c Hc) as [m Hm]. unfold needs, of_cqe. cbn [fst snd]. apply orb_false_iff. split.
    + unfold requests, is_request, is_ask in R0. destruct (cqe_user_data c =? a); [|done]. cbn in *.
      rewrite !orb_false_iff in R0. destruct R0 as [[_ ->] ->]. done.
    + destruct Hm as [N|m b nb Eb -> Hm|b nb Eb Lb ->].
      * unfold EXECUTOR_SCHEDULER_UNREGISTER. change (Z.shiftl 1 11) with 2048. lia.
      * destruct Hm as [->|[->| ->]]; cbn; by rewrite andb_false_r.
      * cbn. rewrite andb_true_r. apply Z.eqb_neq. intros Hi. assert (b = a) as -> by (by eapply (so_distinct x s O)). congruence.
  - pose proof (nk_asks _ _ _ _ K) as As. rewrite Forall_forall in As; rewrite Forall_forall in A0; rewrite Forall_forall. intros m Hm.
    apply list_elem_of_omap in Hm as (e & He & Hs). specialize (A0 e He). unfold sched_message in Hs.
    destruct (As e He) as [El|[El|[L _]]]; [|congruence|congruence].
    unfold elsewhere in El. destruct (sqe_operation e); try done. by rewrite (proj2 (Z.eqb_neq _ _)) in Hs.
Qed.

(** The notices of an executor that was never activated, and the state of one that is
    followed. *)
Lemma fresh_none x s a n : node_ok x s a n -> (taken n < posted x (executor_id (exec n)))%nat -> lifetime n <> Fresh.
Proof. intros K Ht F. destruct (fresh_counts x s a n K F) as (_ & _ & E). lia. Qed.
Lemma followed_awake x s a n : node_ok x s a n ->
  has_state (exec n) EXECUTOR_STATE_STOPPED || has_state (exec n) EXECUTOR_STATE_PAUSED = true -> lifetime n <> Followed.
Proof.
  intros K Hs F. pose proof (nk_state _ _ _ _ K F) as St. unfold has_state in Hs.
  apply list_elem_of_In in St as [E|[E|[E|[]]]]; rewrite <- E in Hs; discriminate.
Qed.

Lemma awake_begin_refused (e e' : executor_instance (R := R)) r : run_op ring_full e Awake_begin = (r, e') -> r <> 0 ->
  same_place e e' /\ entries (ring e') = entries (ring e) /\ state e' <> EXECUTOR_STATE_IDLE.
Proof.
  cbn [run_op]. unfold executor_awake_begin. cbn [ring with_state]. destruct (get_sqe (ring e)); intros [= <- <-]; [done|].
  intros _. repeat split. discriminate.
Qed.

(** The operations that send nothing to the scheduler, and keep the life of the
    executor. *)
Lemma quiet_operation x s a n op e i ph :
  system_ok x s -> nodes x !! a = Some n -> run_op ring_full (exec n) op = (0, e) -> Forall elsewhere (op_message (exec n) op) ->
  (lifetime n = Followed -> state e ∈ [EXECUTOR_STATE_IDLE; EXECUTOR_STATE_WAKING; EXECUTOR_STATE_STOPPING]) ->
  system_ok (with_node x a (Node e (sent n) i (taken n) ph (lifetime n))) s.
Proof.
  intros O En Ho Hel Hst. pose proof (so_nodes x s O a n En) as K.
  destruct (operation_ok x s a n op 0 e i (taken n) ph (lifetime n) K Ho) as [K' Sp]; cbn [Z.eqb]; auto.
  - eapply Forall_impl; [exact Hel|]. intros m Hm. by left.
  - intros NL _. rewrite !(asks_split _ _ a Hel). unfold activated. cbn [lifetime]. split_and!; [lia| |lia].
    destruct (nk_one _ _ _ _ K NL) as [_ T2]. exact T2.
  - apply (with_node_ok x s a n _ O En K' Sp).
Qed.

Lemma activate_ok x s a n c e : system_ok x s -> nodes x !! a = Some n -> lifetime n <> Followed ->
  run_op ring_full (exec n) (Register c) = (0, e) ->
  system_ok (with_node x a (Node e (sent n) (inbox n) (taken n) (at_phase n) (match lifetime n with Fresh => Followed | l => l end))) s.
Proof.
  intros O En NF Ho. pose proof (so_nodes x s O a n En) as K. pose proof K as [[Ka K0] ? [Kf Ks] ? ? ? ? K8 ? ?].
  pose proof (run_op_state (exec n) e (Register c) ltac:(by rewrite Ho)) as Hst. cbn in Hst.
  destruct (operation_ok x s a n (Register c) 0 e (inbox n) (taken n) (at_phase n) (match lifetime n with Fresh => Followed | l => l end) K Ho)
    as [K' Sp]; cbn [Z.eqb op_message]; rewrite ?Ks, ?Ka.
  - by left.
  - intros [].
  - constructor; [right; left; apply ask_counted; reflexivity|constructor].
  - by intros ->.
  - intros _. rewrite Hst. set_solver.
  - intros _ NL. destruct (K8 NL) as [_ T2]. cbn [count]. rewrite !ask_counted by reflexivity. unfold activated. cbn [lifetime].
    destruct (lifetime n); [|done|done]. split_and!; [lia|done|lia].
  - intros F _. cbn [omap list_omap]. unfold sched_message at 1. cbn. rewrite Z.eqb_refl.
    apply announced_first; [by eapply fresh_quiet|]. unfold registers. cbn [fst snd]. by rewrite !Z.eqb_refl.
  - apply (with_node_ok x s a n _ O En K' Sp).
Qed.

Lemma deactivate_ok x s a n e : system_ok x s -> nodes x !! a = Some n -> lifetime n <> Fresh ->
  run_op ring_full (exec n) (Unregister false) = (0, e) ->
  system_ok (with_node x a (Node e (sent n) (inbox n) (taken n) (at_phase n) Left)) s.
Proof.
  intros O En NF Ho. pose proof (so_nodes x s O a n En) as K. pose proof K as [[Ka K0] ? [Kf Ks] ? ? ? ? K8 ? ?].
  pose proof (run_op_entries ring_full (exec n) (Unregister false)) as G. rewrite Ho in G. destruct (G eq_refl) as (_ & _ & _ & _ & Pi & _).
  cbn [snd] in Pi.
  destruct (operation_ok x s a n (Unregister false) 0 e (inbox n) (taken n) (at_phase n) Left K Ho) as [K' Sp]; cbn [Z.eqb op_message]; rewrite ?Ks; try done.
  - by left.
  - constructor; [right; right|constructor]. unfold leaves. cbn [exec]. by rewrite Pi.
  - apply (with_node_ok x s a n _ O En K' Sp).
Qed.

Lemma begin_ok x s a n e r : system_ok x s -> nodes x !! a = Some n -> (taken n < posted x (executor_id (exec n)))%nat ->
  run_op ring_full (exec n) Awake_begin = (r, e) ->
  system_ok (with_node x a (if r =? 0 then Node e (sent n) (inbox n) (S (taken n)) Begun (lifetime n)
                            else Node e (sent n) (inbox n) (S (taken n)) Out Left)) s.
Proof.
  intros O En Ht Ho. pose proof (so_nodes x s O a n En) as K. pose proof (fresh_none _ _ _ _ K Ht) as NF.
  pose proof K as [[Ka K0] ? [Kf Ks] ? ? ? ? K8 ? ?].
  pose proof (run_op_state (exec n) e Awake_begin ltac:(by rewrite Ho)) as Hst. cbn in Hst.
  destruct (Z.eqb_spec r 0) as [->|N].
  - destruct (operation_ok x s a n Awake_begin 0 e (inbox n) (S (taken n)) Begun (lifetime n) K Ho) as [K' Sp]; cbn [Z.eqb op_message]; rewrite ?Ks, ?Ka; auto.
    + by intros [].
    + constructor; [right; left; apply ask_counted; reflexivity|constructor].
    + intros _. rewrite Hst. set_solver.
    + intros NL _. cbn [count]. rewrite ask_counted by reflexivity.
      assert (asks (Z.eqb EXECUTOR_SCHEDULER_REGISTER) a (message scheduler_fd EXECUTOR_SCHEDULER_POLL a) = false) as ->
        by (unfold asks; cbn; by rewrite andb_false_r).
      unfold activated. cbn [lifetime]. split_and!; lia.
    + apply (with_node_ok x s a n _ O En K' Sp).
  - destruct (operation_ok x s a n Awake_begin r e (inbox n) (S (taken n)) Out Left K Ho) as [K' Sp]; rewrite ?(proj2 (Z.eqb_neq r 0) N); try done.
    + right. by eapply awake_begin_refused.
    + apply (with_node_ok x s a n _ O En K' Sp).
Qed.

Lemma dart_step_ok x y s : system_ok x s -> dart_step x y -> system_ok y s.
Proof.
  intros O D. destruct D as [x a n c e En NF Ho|x a n e En NF Ho|x a n e En Ho|x a n En Ep Ht Hs|x a n e r En Ep Ht Hs Ho|x a n e seen En Ep Hs Ho
    |x a n e seen pending En Ep Ho|x a n op e En Hop Hel Ho|x a n En]; pose proof (so_nodes x s O a n En) as K.
  - by eapply activate_ok.
  - by apply deactivate_ok.
  - pose proof (run_op_state (exec n) e Shutdown ltac:(by rewrite Ho)) as Hst. cbn in Hst.
    apply (quiet_operation x s a n Shutdown e); [done|done|done|constructor|]. intros _. rewrite Hst. set_solver.
  - pose proof (fresh_none _ _ _ _ K Ht). pose proof (followed_awake _ _ _ _ K Hs). assert (L : lifetime n = Left) by (destruct (lifetime n); done).
    apply (with_node_ok x s a n _ O En); [|by repeat split]. destruct K as [? ? ? ? ? K6 K7 K8 K9 K10].
    split; cbn [lifetime exec]; try assumption; intros NL; by destruct NL.
  - by apply begin_ok.
  - pose proof (run_op_state (exec n) e Peek ltac:(by rewrite Ho)) as Hst. cbn in Hst.
    apply (quiet_operation x s a n Peek e); [done|done|done|constructor|]. intros F. rewrite Hst. by apply (nk_state _ _ _ _ K).
  - rewrite after_awake_complete in Ho. pose proof (run_op_state (exec n) e Awake_complete ltac:(by rewrite Ho)) as Hst. cbn in Hst.
    apply (quiet_operation x s a n Awake_complete e); [done|done|done|constructor|]. intros _. rewrite Hst. set_solver.
  - pose proof (run_op_state (exec n) e op ltac:(by rewrite Ho)) as Hst.
    assert (Hst' : state e = state (exec n)) by (destruct op; cbn in Hop; try contradiction; exact Hst).
    apply (quiet_operation x s a n op e); [done|done|done|done|]. intros F. rewrite Hst'. by apply (nk_state _ _ _ _ K).
  - apply (with_node_ok x s a n _ O En); [|by repeat split]. destruct K as [? ? ? ? ? ? ? ? ? ?]. split; assumption.
Qed.

(** *** The kernel *)

(** An executor that has not changed, in a state where its counts have moved. *)
Lemma node_ok_moves x y s s' a n n' :
  node_ok x s a n -> exec n' = exec n -> lifetime n' = lifetime n -> (sent n' <= length (submitted (ring (exec n))))%nat ->
  Forall (asks_itself a n) (undelivered n') ->
  (lifetime n <> Left -> one_wakeup y a n' /\
     (registering y a n' + (if bool_decide (registered s' !! executor_id (exec n) = Some a) then 1 else 0) = activated n)%nat) ->
  (lifetime n <> Fresh -> executor_id (exec n) ∈ known s' \/ announced a (executor_id (exec n)) (trail y n') = true) ->
  node_ok y s' a n'.
Proof.
  intros [? ? ? ? ? ? ? ? ? ?] E El Hs Hf Ho Hk. split; rewrite ?E, ?El; try assumption.
  - unfold asks_itself in *. by rewrite E, El.
  - intros NL. by apply Ho.
  - intros NL. unfold activated in *. rewrite El. by apply Ho.
Qed.

Lemma undelivered_next n e : submitted (ring (exec n)) !! sent n = Some e -> undelivered n = e :: undelivered (next_sent n).
Proof.
  intros E. unfold undelivered. cbn [exec sent next_sent]. apply drop_S. unfold entries. rewrite lookup_app_l; [exact E|]. by eapply lookup_lt_Some.
Qed.

Lemma unpolled_next x e : submitted (scheduler_ring (sched x)) !! polled x = Some e ->
  unpolled x = e :: drop (S (polled x)) (entries (scheduler_ring (sched x))).
Proof. intros E. unfold unpolled. apply drop_S. unfold entries. rewrite lookup_app_l; [exact E|]. by eapply lookup_lt_Some. Qed.

Lemma requests_cqe k a res b : requests k a (Cqe res b 0) = (b =? a) && k res.
Proof. reflexivity. Qed.

(** What a delivery changes: completions, of the scheduler or of executors. *)
Definition brings (e : io_uring_sqe) : list io_uring_cqe :=
  match sched_message e with Some (kind, data) => [Cqe kind data 0] | None => [] end.

Lemma delivered_shape x e : exists g : node -> node,
  (forall n, exec (g n) = exec n /\ sent (g n) = sent n /\ taken (g n) = taken n /\ lifetime (g n) = lifetime n /\ (inbox n <= inbox (g n))%nat) /\
  delivered x e = System (g <$> nodes x) (sched x) (polled x) (ready x ++ brings e) (armed x).
Proof.
  assert (I : forall x : system, x = System (id <$> nodes x) (sched x) (polled x) (ready x ++ []) (armed x)).
  { intros [? ? ? ? ?]. cbn. by rewrite map_fmap_id, app_nil_r. }
  unfold delivered, brings, sched_message. destruct (sqe_operation e); try (exists id; split; [auto|apply I]).
  case_match; [exists id; split; [auto|cbn [ready nodes sched polled armed]; by rewrite map_fmap_id]|].
  eexists. split; [|rewrite app_nil_r; reflexivity]. intros n. cbv beta. case_match; cbn; auto 10 with lia.
Qed.

(** The messages about one executor are not about another. *)
Definition tracked (k : Z -> bool) : Prop := k EXECUTOR_SCHEDULER_UNREGISTER = false.
Lemma tracked_request : tracked is_request. Proof. reflexivity. Qed.
Lemma tracked_register : tracked (Z.eqb EXECUTOR_SCHEDULER_REGISTER). Proof. reflexivity. Qed.

Lemma brings_counted k a n e : tracked k -> asks_itself a n e ->
  forall b, count (requests k b) (brings e) = if decide (b = a) then (if asks k a e then 1%nat else 0%nat) else 0%nat.
Proof.
  intros T A b. unfold brings, sched_message, asks, asks_itself, leaves, asks, elsewhere in *.
  destruct (sqe_operation e) as [fd kind data| | | | | | | | | |] eqn:Eo; try (cbn; by case_decide).
  destruct (Z.eqb_spec fd scheduler_fd) as [->|N]; [|cbn; by case_decide].
  cbn [count andb]. rewrite requests_cqe. destruct A as [A|[A|[_ A]]]; [done| |].
  - apply andb_true_iff in A as [A D]. apply Z.eqb_eq in D as ->. rewrite Z.eqb_refl, andb_true_r.
    case_decide; [subst; rewrite Z.eqb_refl; cbn; lia|]. by rewrite (proj2 (Z.eqb_neq a b)).
  - subst e. injection Eo as <- <-. unfold tracked in T. rewrite T, !andb_false_r. by case_decide.
Qed.

(** Messages of another executor are irrelevant. *)
Lemma brings_irrelevant a b n id e : asks_itself a n e -> b <> a -> id <> executor_id (exec n) ->
  forall c, c ∈ brings e -> registers b (of_cqe c) = false /\ needs b id (of_cqe c) = false.
Proof.
  intros A Nb Ni c. unfold brings, sched_message, asks_itself, leaves, elsewhere, asks, registers, needs in *.
  destruct (sqe_operation e) as [fd kind data| | | | | | | | | |] eqn:Eo; try (intros Hc; by apply not_elem_of_nil in Hc).
  destruct (Z.eqb_spec fd scheduler_fd) as [->|N]; [|intros Hc; by apply not_elem_of_nil in Hc].
  intros ->%list_elem_of_singleton. cbn. destruct A as [A|[A|[_ A]]]; [done| |].
  - apply andb_true_iff in A as [A D]. apply Z.eqb_eq in D as ->. rewrite (proj2 (Z.eqb_neq a b)) by done. rewrite andb_false_r. cbn.
    unfold is_ask in A. cbn in A. split; [done|]. destruct (Z.eqb_spec kind EXECUTOR_SCHEDULER_UNREGISTER) as [->|]; [discriminate|]. apply andb_false_r.
  - subst e. injection Eo as <- <-. cbn. rewrite (proj2 (Z.eqb_neq _ id)) by done. cbn. by rewrite andb_false_r.
Qed.

Lemma announced_insert_all a id l1 l l2 : (forall m, m ∈ l -> registers a m = false /\ needs a id m = false) ->
  announced a id (l1 ++ l ++ l2) = announced a id (l1 ++ l2).
Proof.
  induction l as [|m l IH]; intros Hl; [done|]. cbn. destruct (Hl m) as [? ?]; [set_solver|]. rewrite announced_insert by done.
  apply IH. set_solver.
Qed.

Lemma delivered_ok x s a n e :
  system_ok x s -> nodes x !! a = Some n -> submitted (ring (exec n)) !! sent n = Some e ->
  system_ok (delivered (with_node x a (next_sent n)) e) s.
Proof.
  intros O En Es. set (n1 := next_sent n).
  pose proof (so_nodes x s O a n En) as K. pose proof (undelivered_next n e Es) as U. fold n1 in U.
  pose proof (lookup_lt_Some _ _ _ Es) as Hlt.
  pose proof (nk_asks _ _ _ _ K) as F. rewrite U in F. apply Forall_cons in F as [Fe F].
  destruct (delivered_shape (with_node x a n1) e) as (g & Hg & Ey). rewrite Ey. cbn [nodes with_node sched polled ready armed].
  set (y := System _ _ _ _ _).
  assert (S1 : same_executors x y).
  { split; intros b m Hb; cbn [nodes y] in *.
    - rewrite lookup_fmap. destruct (decide (b = a)) as [->|Hne].
      + rewrite lookup_insert_eq. exists (g n1). split; [reflexivity|]. simplify_eq. destruct (Hg n1) as (G1 & _ & _ & G4 & _).
        unfold same_node. rewrite G1, G4. by repeat split.
      + rewrite lookup_insert_ne, Hb by done. exists (g m). split; [reflexivity|]. destruct (Hg m) as (G1 & _ & _ & G4 & _).
        unfold same_node. rewrite G1, G4. by repeat split.
    - rewrite lookup_fmap in Hb. destruct (decide (b = a)) as [->|Hne].
      + rewrite lookup_insert_eq in Hb. injection Hb as <-. exists n. split; [exact En|]. destruct (Hg n1) as (G1 & _ & _ & G4 & _).
        unfold same_node. rewrite G1, G4. by repeat split.
      + rewrite lookup_insert_ne in Hb by done. apply fmap_Some in Hb as (m0 & Em & ->). exists m0. split; [exact Em|].
        destruct (Hg m0) as (G1 & _ & _ & G4 & _). unfold same_node. rewrite G1, G4. by repeat split. }
  apply (ok_again x y s s O S1); try apply O; [done| |].
  { cbn [ready y]. apply Forall_app. split; [apply O|]. unfold brings, sched_message, asks_itself, elsewhere, asks, leaves in *.
    destruct (sqe_operation e) as [fd kind data| | | | | | | | | |] eqn:Eo; try constructor.
    destruct (Z.eqb_spec fd scheduler_fd) as [->|]; constructor; [|constructor]. destruct Fe as [?|[Fe|[L Fe]]]; [done| |].
    - apply andb_true_iff in Fe as [Fk Fd]. apply Z.eqb_eq in Fd as ->. unfold is_ask in Fk. cbn in Fk. apply orb_true_iff in Fk as [Fk|Fk]; apply Z.eqb_eq in Fk as ->.
      + exists (Register_me a). eapply About_request; eauto.
      + exists (Poll_me a). eapply About_request; eauto.
    - subst e. injection Eo as <- <-. eexists. by eapply About_leaving. }
  intros b m' Hb. cbn [nodes y] in Hb. rewrite lookup_fmap in Hb. destruct (decide (b = a)) as [->|Hne].
  - rewrite lookup_insert_eq in Hb. injection Hb as <-. destruct (Hg n1) as (G1 & G2 & G3 & G4 & _).
    change (exec n1) with (exec n) in G1. change (taken n1) with (taken n) in G3. change (lifetime n1) with (lifetime n) in G4.
    assert (U' : undelivered (g n1) = undelivered n1) by (unfold undelivered; by rewrite G1, G2).
    apply (node_ok_moves x y s s a n (g n1) K); [exact G1|exact G4|rewrite G2; exact Hlt|rewrite U'; exact F| |].
    + intros NL. destruct (nk_one _ _ _ _ K NL) as [T1 T2]. pose proof (nk_registered _ _ _ _ K NL) as Tr.
      pose proof (brings_counted _ a n e tracked_request Fe a) as C1. pose proof (brings_counted _ a n e tracked_register Fe a) as C2.
      rewrite decide_True in C1, C2 by done.
      assert (A : asks is_request a e = asks is_ask a e).
      { unfold asks, is_request. destruct Fe as [Fe|[Fe|[L _]]]; [|unfold asks in Fe|done].
        - unfold elsewhere in Fe. destruct (sqe_operation e); try done. by rewrite (proj2 (Z.eqb_neq _ _) Fe).
        - destruct (sqe_operation e); try done. rewrite Fe. apply andb_true_iff in Fe as [Fe ->]. by apply andb_true_iff in Fe as [-> ->]. }
      rewrite A in C1. unfold one_wakeup, asked, requested, registering in *. rewrite U', G1, G3. cbn [ready y]. rewrite !count_of_app, C1, C2.
      rewrite U in T1, Tr. cbn [count] in T1, Tr.
      change (polling y a) with (polling x a). change (posted y) with (posted x). change (failed y) with (failed x).
      replace (activated (g n1)) with (activated n) by (unfold activated; by rewrite G4). split_and!; lia.
    + intros NF. assert (Tl : trail y (g n1) = trail x n); [|rewrite Tl; by apply K].
      unfold trail. rewrite U', U. cbn [ready y]. rewrite map_app, <- app_assoc. f_equal. unfold brings. cbn [omap list_omap].
      by destruct (sched_message e) as [[? ?]|].
  - rewrite lookup_insert_ne in Hb by done. apply fmap_Some in Hb as (m & Em & ->). destruct (Hg m) as (G1 & G2 & G3 & G4 & _).
    pose proof (so_nodes x s O b m Em) as Kb.
    assert (U' : undelivered (g m) = undelivered m) by (unfold undelivered; by rewrite G1, G2).
    apply (node_ok_moves x y s s b m (g m) Kb); [exact G1|exact G4|rewrite G2; apply Kb|rewrite U'; apply Kb| |].
    + intros NL. destruct (nk_one _ _ _ _ Kb NL) as [T1 T2]. pose proof (nk_registered _ _ _ _ Kb NL) as Tr.
      pose proof (brings_counted _ a n e tracked_request Fe b) as C1. pose proof (brings_counted _ a n e tracked_register Fe b) as C2.
      rewrite decide_False in C1, C2 by done.
      unfold one_wakeup, asked, requested, registering in *. rewrite U', G1, G3. cbn [ready y]. rewrite !count_of_app, C1, C2, !Nat.add_0_r.
      change (polling y b) with (polling x b). change (posted y) with (posted x). change (failed y) with (failed x).
      replace (activated (g m)) with (activated m) by (unfold activated; by rewrite G4). split; [split; [exact T1|exact T2]|exact Tr].
    + intros NF. unfold trail. rewrite U'. cbn [ready y]. rewrite map_app, <- app_assoc, announced_insert_all.
      { by apply Kb. }
      intros mm (c & -> & Hc)%list_elem_of_fmap. apply (brings_irrelevant a b n _ e Fe Hne); [|exact Hc].
      intros Hi. apply Hne. by apply (so_distinct x s O b a m n).
Qed.

(** *** The scheduler *)

Lemma request_kinds :
  is_request POLLIN = true /\ is_request EXECUTOR_SCHEDULER_POLL = true /\ is_request EXECUTOR_SCHEDULER_REGISTER = true
  /\ (EXECUTOR_SCHEDULER_REGISTER =? POLLIN) = false /\ (EXECUTOR_SCHEDULER_REGISTER =? EXECUTOR_SCHEDULER_POLL) = false
  /\ (EXECUTOR_SCHEDULER_REGISTER =? EXECUTOR_SCHEDULER_REGISTER) = true.
Proof. repeat split. Qed.

Lemma requests_le k a l : (forall b, k b = true -> is_request b = true) -> (count (requests k a) l <= count (requests is_request a) l)%nat.
Proof.
  intros Hk. apply count_le. intros c E. unfold requests in *. apply andb_true_iff in E as [-> E]. rewrite (Hk _ E). reflexivity.
Qed.
Lemma asks_le k a l : (forall b, k b = true -> is_ask b = true) -> (count (asks k a) l <= count (asks is_ask a) l)%nat.
Proof.
  intros Hk. apply count_le. intros e E. unfold asks in *. destruct (sqe_operation e); try discriminate.
  apply andb_true_iff in E as [E ->]. apply andb_true_iff in E as [-> E]. rewrite (Hk _ E). reflexivity.
Qed.
Lemma register_is_ask b : (EXECUTOR_SCHEDULER_REGISTER =? b) = true -> is_ask b = true.
Proof. unfold is_ask. rewrite Z.eqb_sym. intros ->. reflexivity. Qed.
Lemma register_is_request b : (EXECUTOR_SCHEDULER_REGISTER =? b) = true -> is_request b = true.
Proof. unfold is_request. intros E. rewrite (register_is_ask b E). reflexivity. Qed.

(** What asks to be polled again, or is readable, has registered before; and what
    registers was not registered. *)
Lemma token_registered x s b n c rest :
  node_ok x s b n -> lifetime n <> Left -> ready x = c :: rest -> requests is_request b c = true ->
  bool_decide (registered s !! executor_id (exec n) = Some b) = negb (requests (Z.eqb EXECUTOR_SCHEDULER_REGISTER) b c) /\ lifetime n = Followed.
Proof.
  intros K NL E Hq. destruct (nk_one _ _ _ _ K NL) as [T1 T2]. pose proof (nk_registered _ _ _ _ K NL) as Tr.
  unfold requested, registering, asked, activated in *. rewrite E in *. cbn [count] in *. rewrite Hq in T1.
  pose proof (asks_le _ b (undelivered n) register_is_ask). pose proof (requests_le _ b rest register_is_request).
  destruct (lifetime n); [lia| |done]. split; [|done].
  destruct (requests (Z.eqb EXECUTOR_SCHEDULER_REGISTER) b c); case_bool_decide; cbn [negb]; try done; lia.
Qed.

Lemma about_ok x s c rest m : system_ok x s -> ready x = c :: rest -> about x c m -> message_ok (heap_of x) (known s) m.
Proof.
  intros O E A.
  assert (Known : forall b n, nodes x !! b = Some n -> lifetime n <> Fresh -> registers b (of_cqe c) = false ->
    needs b (executor_id (exec n)) (of_cqe c) = true -> executor_id (exec n) ∈ known s).
  { intros b n En NF Hr Hn. destruct (nk_known _ _ _ _ (so_nodes x s O b n En) NF) as [?|T]; [done|].
    unfold trail in T. rewrite E in T. cbn in T. by rewrite Hr, Hn in T. }
  destruct A as [N|m b n En -> Hm|b n En L ->]; [done| |].
  - pose proof (so_nodes x s O b n En) as K. assert (Eh : heap_of x b = Some (exec n)) by (unfold heap_of; by rewrite En).
    assert (NF : lifetime n <> Fresh).
    { intros F. destruct (fresh_counts x s b n K F) as (_ & R0 & _). unfold requested in R0. rewrite E in R0. cbn [count] in R0.
      destruct request_kinds as (Q1 & Q2 & Q3 & _).
      destruct Hm as [->|[->| ->]]; cbn [completion_of] in R0; rewrite requests_cqe, Z.eqb_refl, ?Q1, ?Q2, ?Q3 in R0; cbn [andb] in R0; lia. }
    destruct Hm as [->|[->| ->]]; cbn [message_ok]; exists (exec n); (split; [exact Eh|]).
    + apply (Known b n En NF); unfold registers, needs; cbn; by rewrite ?Z.eqb_refl.
    + apply (Known b n En NF); unfold registers, needs; cbn; by rewrite ?Z.eqb_refl.
    + split; [apply K|apply K].
  - cbn [message_ok]. apply (Known b n En); [congruence|by unfold registers; cbn|]. unfold needs. cbn. by rewrite Z.eqb_refl, orb_true_r.
Qed.

Lemma about_handled post x s c m : refines (heap_of x) s (sched x) -> message_ok (heap_of x) (known s) m -> about x c m ->
  exists st, handle_completion (heap_of x) post (sched x) c = Done (false, st)
    /\ refines (heap_of x) (spec_step (heap_of x) post s m).1.1 st
    /\ notices st = notices (sched x) ++ (spec_step (heap_of x) post s m).1.2
    /\ entries (scheduler_ring st) = entries (scheduler_ring (sched x)) ++ (spec_step (heap_of x) post s m).2.
Proof.
  intros Rf Mok A. destruct A as [N|m b n En -> Hm|b n En L ->].
  - exists (sched x). cbn [spec_step fst snd]. rewrite !app_nil_r. split_and!; [|exact Rf|done|done].
    unfold handle_completion. by rewrite (proj2 (Z.ltb_lt _ _)).
  - by apply handle_refines.
  - by apply handle_refines.
Qed.

Lemma registered_self x s b n at_ : system_ok x s -> nodes x !! b = Some n -> registered s !! executor_id (exec n) = Some at_ -> at_ = b.
Proof.
  intros O En E. destruct (sc_registered _ _ _ (so_refines x s O) _ _ E) as (_ & _ & e & Eh & Ei).
  unfold heap_of in Eh. destruct (nodes x !! at_) as [n'|] eqn:En'; [|done]. injection Eh as <-. by apply (so_distinct x s O at_ b n' n).
Qed.

Lemma posted_notice post scope m (e : executor_instance (R := R)) id a :
  (if is_posted id (notice_of post scope m e) then executor_id e = id else True) /\
  (if is_failed a (notice_of post scope m e) then cqe_user_data (completion_of m) = a /\ cqe_res (completion_of m) = POLLIN else True).
Proof.
  unfold notice_of. destruct (post _ _); cbn [is_posted is_failed].
  - split; [|done]. destruct (Z.eqb_spec (executor_id e) id); done.
  - split; [done|]. destruct (Z.eqb_spec (cqe_user_data (completion_of m)) a), (Z.eqb_spec (cqe_res (completion_of m)) POLLIN); done.
Qed.

Lemma polls_entry a (e : executor_instance (R := R)) b : polls a (poll_entry e b) = (b =? a).
Proof. reflexivity. Qed.
(** What a message makes of the wake-up of an executor: what was asked for is polled
    or posted, or its post failed; nothing comes of another's message. *)
Definition effects post x s m (a id : Z) (request register : nat) : Prop :=
  let '(s', ns, es) := spec_step (heap_of x) post s m in
  (count (is_posted id) ns + count (is_failed a) ns + count (polls a) es = request)%nat /\
  (if bool_decide (registered s' !! id = Some a) then 1%nat else 0%nat)
    = ((if bool_decide (registered s !! id = Some a) then 1 else 0) + register)%nat.

Lemma about_self post x s c rest m a n : system_ok x s -> ready x = c :: rest -> about x c m -> nodes x !! a = Some n -> lifetime n <> Left ->
  requests is_request a c = true -> effects post x s m a (executor_id (exec n)) 1 (if requests (Z.eqb EXECUTOR_SCHEDULER_REGISTER) a c then 1%nat else 0%nat).
Proof.
  intros O E A En NL Rq. pose proof (so_nodes x s O a n En) as K. destruct (token_registered x s a n c rest K NL E Rq) as [Tk _].
  assert (Eh : heap_of x a = Some (exec n)) by (unfold heap_of; by rewrite En). unfold effects.
  destruct A as [N|m b nb Eb -> Hm|b nb Eb Lb ->].
  - unfold requests in Rq. by rewrite negative_request, andb_false_r in Rq.
  - assert (b = a) as ->.
    { unfold requests in Rq. apply andb_true_iff in Rq as [Rq _]. apply Z.eqb_eq in Rq. by destruct Hm as [->|[->| ->]]. }
    destruct Hm as [->|[->| ->]]; cbn [completion_of spec_step] in *; rewrite Eh; rewrite requests_cqe, Z.eqb_refl in Tk |- *; cbn [andb] in Tk |- *.
    + change (EXECUTOR_SCHEDULER_REGISTER =? POLLIN) with false in *. apply bool_decide_eq_true in Tk. rewrite bool_decide_true by eauto.
      cbn [count]. unfold notice_of. destruct (post _ _); cbn [is_posted is_failed cqe_user_data cqe_res completion_of]; rewrite ?Z.eqb_refl; cbn; split; lia.
    + change (EXECUTOR_SCHEDULER_REGISTER =? EXECUTOR_SCHEDULER_POLL) with false in *. apply bool_decide_eq_true in Tk. rewrite bool_decide_true by eauto.
      cbn [count]. rewrite polls_entry, Z.eqb_refl. split; lia.
    + change (EXECUTOR_SCHEDULER_REGISTER =? EXECUTOR_SCHEDULER_REGISTER) with true in *. rewrite Tk. cbn [count registered negb].
      rewrite polls_entry, Z.eqb_refl, lookup_insert_eq, bool_decide_true by done. split; lia.
  - unfold requests in Rq. cbn in Rq. by rewrite andb_false_r in Rq.
Qed.

Lemma about_other post x s c rest m a n : system_ok x s -> ready x = c :: rest -> about x c m -> nodes x !! a = Some n -> lifetime n <> Left ->
  requests is_request a c = false -> effects post x s m a (executor_id (exec n)) 0 0.
Proof.
  intros O E A En NL Rq. unfold effects.
  destruct A as [N|m b nb Eb -> Hm|b nb Eb Lb ->].
  - cbn [spec_step count]. lia.
  - assert (Eh : heap_of x b = Some (exec nb)) by (unfold heap_of; by rewrite Eb).
    assert (Nb : b <> a).
    { intros ->. destruct Hm as [->|[->| ->]]; cbn [completion_of] in Rq; by rewrite requests_cqe, Z.eqb_refl in Rq. }
    assert (Ni : executor_id (exec nb) <> executor_id (exec n)) by (intros Hi; apply Nb; by apply (so_distinct x s O b a nb n)).
    destruct Hm as [->|[->| ->]]; cbn [spec_step]; rewrite Eh.
    + destruct (posted_notice post EXECUTOR_SCOPE_SCHEDULER_POLLIN (Readable b) (exec nb) (executor_id (exec n)) a) as [P1 P2].
      case_bool_decide; cbn [count]; [|lia]. destruct (is_posted _ _); [done|]. destruct (is_failed _ _); [by destruct P2|]. lia.
    + case_bool_decide; cbn [count]; rewrite ?polls_entry, ?(proj2 (Z.eqb_neq b a)) by done; lia.
    + cbn [count registered]. rewrite polls_entry, (proj2 (Z.eqb_neq b a)) by done. rewrite lookup_insert_ne by done. lia.
  - assert (Nb : b <> a) by congruence.
    assert (Ni : executor_id (exec nb) <> executor_id (exec n)) by (intros Hi; apply Nb; by apply (so_distinct x s O b a nb n)).
    cbn [spec_step]. destruct (registered s !! executor_id (exec nb)) as [at_|] eqn:Er; [|cbn [count]; lia].
    pose proof (registered_self x s b nb at_ O Eb Er) as ->. unfold heap_of at 1. rewrite Eb. cbn [fmap option_fmap option_map].
    destruct (posted_notice post EXECUTOR_SCOPE_SCHEDULER_UNREGISTER (Unregister_me (executor_id (exec nb))) (exec nb) (executor_id (exec n)) a) as [P1 P2].
    cbn [count registered polls sqe_operation]. rewrite lookup_delete_ne by done.
    destruct (is_posted _ _); [done|]. destruct (is_failed _ _); [by destruct P2|]. lia.
Qed.

(** The entries the scheduler writes, and that what is known stays known. *)
Lemma spec_step_entries post x s c rest m : system_ok x s -> ready x = c :: rest -> about x c m ->
  let '(s', _, es) := spec_step (heap_of x) post s m in known s ⊆ known s' /\ Forall (polling_entry x s') es.
Proof.
  intros O E A. pose proof (about_ok x s c rest m O E A) as Mok.
  destruct A as [N|m b n En -> Hm|b n En L ->].
  - cbn [spec_step]. split; [done|constructor].
  - assert (Eh : heap_of x b = Some (exec n)) by (unfold heap_of; by rewrite En).
    destruct Hm as [->|[->| ->]]; cbn [spec_step]; rewrite Eh; [case_bool_decide; (split; [done|constructor])| |].
    + destruct Mok as (e & Eh' & Hk). rewrite Eh in Eh'. injection Eh' as <-.
      case_bool_decide; (split; [done|]); constructor; [|constructor]. exists b, n. eauto.
    + cbn [known]. split; [set_solver|]. constructor; [|constructor]. exists b, n. split_and!; [done| |by left]. cbn [known]. set_solver.
  - cbn [spec_step]. destruct (registered s !! executor_id (exec n)) as [at_|] eqn:Er; [|split; [done|constructor]].
    pose proof (registered_self x s b n at_ O En Er) as ->. unfold heap_of. rewrite En. cbn [fmap option_fmap option_map].
    split; [done|]. constructor; [|constructor]. exists b, n. cbn [known]. split_and!; [done|exact Mok|by right].
Qed.

Lemma unpolled_more x st q : (polled x <= length (entries (scheduler_ring (sched x))))%nat ->
  entries (scheduler_ring st) = entries (scheduler_ring (sched x)) ++ q ->
  drop (polled x) (entries (scheduler_ring st)) = unpolled x ++ q.
Proof. intros Hp E. unfold unpolled. rewrite E, drop_app_le by exact Hp. reflexivity. Qed.

(** What is known of an executor when the first message is gone. *)
Lemma known_handled post x s c rest m a n : system_ok x s -> ready x = c :: rest -> about x c m -> nodes x !! a = Some n -> lifetime n <> Fresh ->
  executor_id (exec n) ∈ known (spec_step (heap_of x) post s m).1.1 \/
  announced a (executor_id (exec n)) (map of_cqe rest ++ omap sched_message (undelivered n)) = true.
Proof.
  intros O E A En NF. pose proof (spec_step_entries post x s c rest m O E A) as Ks.
  destruct (nk_known _ _ _ _ (so_nodes x s O a n En) NF) as [Hk|T].
  { left. destruct (spec_step (heap_of x) post s m) as [[s' ns] es]. destruct Ks as [Ks _]. cbn [fst]. set_solver. }
  unfold trail in T. rewrite E in T. cbn [map app announced] in T. apply orb_true_iff in T as [T|T].
  - left. unfold registers, of_cqe in T. cbn [fst snd] in T. apply andb_true_iff in T as [T1 T2]. apply Z.eqb_eq in T1, T2.
    destruct A as [N|m b nb Eb -> Hm|b nb Eb Lb ->]; [rewrite T1 in N; discriminate| |discriminate].
    destruct Hm as [->|[->| ->]]; [discriminate|discriminate|]. cbn in T2. subst b. rewrite En in Eb. injection Eb as <-.
    cbn [spec_step]. unfold heap_of. rewrite En. cbn. set_solver.
  - right. by apply andb_true_iff in T as [_ T].
Qed.

(** The scheduler handles whatever is ready for it, and what it does. *)
Lemma handle_ok post x s c rest : system_ok x s -> ready x = c :: rest ->
  exists st s' m, handle_completion (heap_of x) post (sched x) c = Done (false, st)
    /\ system_ok (System (nodes x) st (polled x) rest (armed x)) s' /\ about x c m
    /\ notices st = notices (sched x) ++ (spec_step (heap_of x) post s m).1.2
    /\ entries (scheduler_ring st) = entries (scheduler_ring (sched x)) ++ (spec_step (heap_of x) post s m).2.
Proof.
  intros O E. pose proof (so_ready x s O) as F. rewrite E in F. apply Forall_cons in F as [(m & A) F].
  destruct (about_handled post x s c m (so_refines x s O) (about_ok x s c rest m O E A) A) as (st & Hh & Rf & Nt & En).
  pose proof (spec_step_entries post x s c rest m O E A) as Ks.
  exists st, (spec_step (heap_of x) post s m).1.1, m. split; [exact Hh|]. split; [|auto].
  assert (Counts : forall a n, nodes x !! a = Some n -> lifetime n <> Left -> effects post x s m a (executor_id (exec n))
    (if requests is_request a c then 1%nat else 0%nat) (if requests (Z.eqb EXECUTOR_SCHEDULER_REGISTER) a c then 1%nat else 0%nat)).
  { intros a n Ea NL. destruct (requests is_request a c) eqn:Rq; [by eapply about_self|].
    replace (requests (Z.eqb EXECUTOR_SCHEDULER_REGISTER) a c) with false; [by eapply about_other|].
    unfold requests in *. destruct (cqe_user_data c =? a); [cbn in *|done]. destruct (Z.eqb_spec EXECUTOR_SCHEDULER_REGISTER (cqe_res c)) as [R1|]; [|done].
    rewrite <- R1 in Rq. discriminate. }
  assert (Knows := fun a n => known_handled post x s c rest m a n O E A). unfold effects in Counts.
  destruct (spec_step (heap_of x) post s m) as [[s' ns] es]. cbn [fst snd] in *. destruct Ks as [Ks Es].
  set (y := System (nodes x) st (polled x) rest (armed x)).
  assert (Un : unpolled y = unpolled x ++ es) by (apply (unpolled_more x st _ (so_polled x s O) En)).
  apply (ok_again x y s s' O (same_executors_refl x y eq_refl) Ks); cbn [sched ready polled armed nodes y]; [exact Rf|exact F| | | |].
  - rewrite En, length_app. pose proof (so_polled x s O). lia.
  - fold y. rewrite Un. apply Forall_app. split; [|exact Es]. eapply Forall_impl; [apply O|]. intros e.
    apply same_polling_entry; [by apply same_executors_refl|exact Ks].
  - eapply Forall_impl; [apply O|]. intros p. apply same_armed; [by apply same_executors_refl|exact Ks].
  - intros a n Ea. pose proof (so_nodes x s O a n Ea) as K.
    apply (node_ok_moves x y s s' a n n K eq_refl eq_refl (nk_sent _ _ _ _ K) (nk_asks _ _ _ _ K)).
    + intros NL. destruct (nk_one _ _ _ _ K NL) as [T1 T2]. pose proof (nk_registered _ _ _ _ K NL) as Tr.
      destruct (Counts a n Ea NL) as [C1 C2].
      unfold one_wakeup, requested, polling, posted, failed, registering in *. rewrite Un. cbn [y ready sched armed].
      change (asked y a n) with (asked x a n). rewrite Nt, !count_of_app. rewrite E in T1, Tr. cbn [count] in T1, Tr. split_and!; lia.
    + intros NF. by apply Knows.
Qed.

Lemma submitted_le_entries (r : R) : (length (submitted r) <= length (entries r))%nat.
Proof. unfold entries. rewrite length_app. lia. Qed.

(** An entry that is taken, a poll that fires: the counts of the executors. *)
Lemma moved_ok x y s : system_ok x s -> nodes y = nodes x -> sched y = sched x ->
  (polled y <= length (entries (scheduler_ring (sched y))))%nat -> Forall (understood x) (ready y) ->
  Forall (polling_entry x s) (unpolled y) -> Forall (armed_right x s) (armed y) ->
  (forall a n, nodes x !! a = Some n -> lifetime n <> Left -> (requested y a + polling y a = requested x a + polling x a)%nat /\
     count (requests (Z.eqb EXECUTOR_SCHEDULER_REGISTER) a) (ready y) = count (requests (Z.eqb EXECUTOR_SCHEDULER_REGISTER) a) (ready x)) ->
  (forall a n, nodes x !! a = Some n -> announced a (executor_id (exec n)) (trail x n) = true ->
     executor_id (exec n) ∈ known s \/ announced a (executor_id (exec n)) (trail y n) = true) ->
  system_ok y s.
Proof.
  intros O En Es Hp Hu Hq Ha Hc Hk. apply (ok_again x y s s O (same_executors_refl x y En)); auto; [rewrite Es; apply O|].
  rewrite En. intros a n Ea. pose proof (so_nodes x s O a n Ea) as K.
  apply (node_ok_moves x y s s a n n K eq_refl eq_refl (nk_sent _ _ _ _ K) (nk_asks _ _ _ _ K)).
  - intros NL. destruct (Hc a n Ea NL) as [C1 C2], (nk_one _ _ _ _ K NL) as [T1 T2]. pose proof (nk_registered _ _ _ _ K NL) as Tr.
    unfold one_wakeup, posted, failed, registering in *. rewrite Es, C2. change (asked y a n) with (asked x a n). split_and!; [lia|exact T2|exact Tr].
  - intros NF. destruct (nk_known _ _ _ _ K NF) as [?|T]; [by left|by apply Hk].
Qed.

Lemma without_first_some data l l' : without_first data l = Some l' ->
  (forall a, a <> data -> count (armed_for a) l' = count (armed_for a) l) /\ (forall P, Forall P l -> Forall P l').
Proof.
  revert l'. induction l as [|p l IH]; intros l'; cbn [without_first]; [done|]. destruct (Z.eqb_spec (snd p) data) as [E|N].
  - intros [= ->]. split; [|by intros P [_ ?]%Forall_cons]. intros a Na. cbn. unfold armed_for at 2. by rewrite (proj2 (Z.eqb_neq _ _)) by congruence.
  - destruct (without_first data l) as [l1|]; [|done]. intros [= <-]. destruct (IH l1 eq_refl) as [C F]. split.
    + intros a Na. cbn. by rewrite C.
    + intros P [? ?]%Forall_cons. constructor; auto.
Qed.

Lemma trail_more x n c (y : system) : ready y = ready x ++ [c] -> trail y n = map of_cqe (ready x) ++ [of_cqe c] ++ omap sched_message (undelivered n).
Proof. intros E. unfold trail. by rewrite E, map_app, <- app_assoc. Qed.
Lemma irrelevant_more x n c (y : system) a id : ready y = ready x ++ [c] -> registers a (of_cqe c) = false -> needs a id (of_cqe c) = false ->
  announced a id (trail x n) = true -> announced a id (trail y n) = true.
Proof. intros E Hr Hn T. rewrite (trail_more x n c y E). cbn [app]. by rewrite announced_insert. Qed.
Lemma failure_irrelevant a id res data : res < 0 -> registers a (of_cqe (Cqe res data 0)) = false /\ needs a id (of_cqe (Cqe res data 0)) = false.
Proof.
  intros N. pose proof (negative_request res N) as Q. unfold registers, needs, of_cqe, is_request, is_ask in *. cbn [cqe_res cqe_user_data fst snd].
  rewrite !orb_false_iff in Q. destruct Q as [[-> ->] ->]. cbn. rewrite andb_false_r. cbn.
  split; [done|]. rewrite (proj2 (Z.eqb_neq res _)); [apply andb_false_r|]. unfold EXECUTOR_SCHEDULER_UNREGISTER. change (Z.shiftl 1 11) with 2048. lia.
Qed.

Lemma removed_ok x y s data res : system_ok x s -> (exists n, nodes x !! data = Some n /\ lifetime n = Left) \/ data = 0 -> res < 0 ->
  nodes y = nodes x -> sched y = sched x -> polled y = S (polled x) -> (polled y <= length (entries (scheduler_ring (sched x))))%nat ->
  Forall (polling_entry x s) (unpolled y) -> ready y = ready x ++ [Cqe res data 0] ->
  (forall a, a <> data \/ armed y = armed x -> count (armed_for a) (armed y) = count (armed_for a) (armed x)) -> Forall (armed_right x s) (armed y) ->
  (forall a, count (polls a) (unpolled y) = count (polls a) (unpolled x)) -> (data = 0 -> armed y = armed x) ->
  system_ok y s.
Proof.
  intros O Hd N En Es Ep Hlt Fu Er Ca Fa Cu Hz. apply (moved_ok x y s O En Es); [by rewrite Es| |exact Fu|exact Fa| |].
  - rewrite Er. apply Forall_app. split; [apply O|]. constructor; [|constructor]. exists Failed. by constructor.
  - intros a n Ea NL. unfold requested, polling. rewrite Er, !count_of_app, Cu. cbn [count]. rewrite !requests_cqe, (negative_request res N), andb_false_r.
    rewrite (proj2 (Z.eqb_neq EXECUTOR_SCHEDULER_REGISTER res)), andb_false_r by (unfold EXECUTOR_SCHEDULER_REGISTER; change (Z.shiftl 1 10) with 1024; lia).
    rewrite Ca; [lia|]. destruct Hd as [(n' & Ed & L)|Z0]; [left; congruence|right; by apply Hz].
  - intros a n Ea T. right. destruct (failure_irrelevant a (executor_id (exec n)) res data N). by eapply irrelevant_more.
Qed.

Lemma taken_entry_ok x s e : system_ok x s -> submitted (scheduler_ring (sched x)) !! polled x = Some e -> system_ok (taken_entry x e) s.
Proof.
  intros O E. pose proof (unpolled_next x e E) as U. pose proof (lookup_lt_Some _ _ _ E) as Hlt.
  pose proof (submitted_le_entries (scheduler_ring (sched x))) as Hle.
  pose proof (so_unpolled x s O) as F. rewrite U in F. apply Forall_cons in F as [(b & nb & Eb & Hk & He) F].
  destruct He as [->|[L ->]]; unfold taken_entry; cbn [poll_entry sqe_operation sqe_user_data].
  - assert (Un : unpolled (System (nodes x) (sched x) (S (polled x)) (ready x) (armed x ++ [(descriptor (exec nb), b)]))
      = drop (S (polled x)) (entries (scheduler_ring (sched x)))) by reflexivity.
    apply (moved_ok x _ s O); cbn [nodes sched polled ready armed]; [reflexivity|reflexivity|lia|apply O|rewrite Un; exact F| | |].
    + apply Forall_app. split; [apply O|]. constructor; [|constructor]. exists nb. auto.
    + intros a n Ea NL. unfold requested, polling. rewrite Un, U. cbn [ready armed]. rewrite count_of_app. cbn [count]. rewrite polls_entry.
      unfold armed_for at 2. cbn [snd]. split; [lia|done].
    + intros a n Ea T. right. exact T.
  - destruct (without_first b (armed x)) as [l|] eqn:W.
    + destruct (without_first_some _ _ _ W) as [C Fl].
      eapply (removed_ok x _ s b (-125) O); cbn [nodes sched polled ready armed]; try reflexivity; [left; eauto|lia|exact F| | | |].
      * intros a [Na| ->]; [by apply C|done].
      * apply Fl, O.
      * intros a. rewrite U. reflexivity.
      * intros ->. pose proof (so_nodes x s O 0 nb Eb) as K. by destruct (nk_address _ _ _ _ K).
    + eapply (removed_ok x _ s 0 (-2) O); cbn [nodes sched polled ready armed]; try reflexivity; [by right|lia|exact F|apply O|].
      intros a. rewrite U. reflexivity.
Qed.

Lemma fire_ok x s l1 fd data l2 : system_ok x s -> armed x = l1 ++ (fd, data) :: l2 ->
  system_ok (System (nodes x) (sched x) (polled x) (ready x ++ [Cqe POLLIN data 0]) (l1 ++ l2)) s.
Proof.
  intros O E. pose proof (so_armed x s O) as F. rewrite E in F. apply Forall_app in F as [F1 F2]. apply Forall_cons in F2 as [(n & En & _ & Hk) F2].
  cbn [snd] in En. destruct request_kinds as (Q1 & _ & _ & Q4 & _).
  apply (moved_ok x _ s O); cbn [nodes sched polled ready armed]; [reflexivity|reflexivity|apply O| |apply O|by apply Forall_app| |].
  - apply Forall_app. split; [apply O|]. constructor; [|constructor]. exists (Readable data). eapply About_request; eauto.
  - intros a n' Ea NL. unfold requested, polling. cbn [ready armed]. rewrite E, !count_of_app. cbn [count]. rewrite !requests_cqe, Q1, Q4, andb_true_r, andb_false_r.
    unfold armed_for at 4. cbn [snd]. change (unpolled (System (nodes x) (sched x) (polled x) (ready x ++ [Cqe POLLIN data 0]) (l1 ++ l2))) with (unpolled x). lia.
  - intros a n' Ea T. destruct (decide (a = data)) as [->|Nd]; [left; congruence|right].
    eapply irrelevant_more; [reflexivity| | |exact T]; unfold registers, needs, of_cqe; cbn [cqe_res cqe_user_data fst snd]; [done|].
    rewrite (proj2 (Z.eqb_neq data a)) by done. cbn. apply andb_false_r.
Qed.

Lemma submit_ok x s : system_ok x s ->
  system_ok (System (nodes x) (with_scheduler_ring (sched x) (submit_and_wait (scheduler_ring (sched x)))) (polled x) (ready x) (armed x)) s.
Proof.
  intros O. set (y := System _ _ _ _ _).
  assert (U : unpolled y = unpolled x) by (unfold unpolled, y; cbn [sched polled scheduler_ring with_scheduler_ring]; rewrite entries_submit_and_wait; reflexivity).
  apply (ok_again x y s s O (same_executors_refl x y eq_refl)); try apply O; [done| | | |].
  - eapply refines_same; [apply O|reflexivity|reflexivity].
  - unfold y. cbn [sched polled scheduler_ring with_scheduler_ring]. rewrite entries_submit_and_wait. apply O.
  - rewrite U. apply O.
  - intros a n Ea. pose proof (so_nodes x s O a n Ea) as K.
    apply (node_ok_moves x y s s a n n K eq_refl eq_refl (nk_sent _ _ _ _ K) (nk_asks _ _ _ _ K)); [|apply K].
    intros NL. split; [|by apply K]. destruct (nk_one _ _ _ _ K NL) as [T1 T2]. unfold one_wakeup, polling in *. rewrite U. split; [exact T1|exact T2].
Qed.

Lemma kernel_step_ok x y s : system_ok x s -> kernel_step x y -> exists s', system_ok y s'.
Proof.
  intros O D. destruct D as [x a n e En Es|x|x post cqe rest st E Eh|x e E|x l1 fd data l2 a n E En Ed Hi].
  - exists s. exact (delivered_ok x s a n e O En Es).
  - exists s. exact (submit_ok x s O).
  - destruct (handle_ok post x s cqe rest O E) as (st' & s' & m & Eh' & O' & _). rewrite Eh' in Eh. injection Eh as <-. eauto.
  - exists s. exact (taken_entry_ok x s e O E).
  - exists s. exact (fire_ok x s l1 fd data l2 O E).
Qed.

(** ** The way to the port *)

(** The kernel and the scheduler can bring a notice to the port of the executor at
    [a], without any operation of it. *)
Definition wakes x (a : Z) (e : executor_instance (R := R)) (t : nat) : Prop :=
  exists x' n', rtc kernel_step x x' /\ nodes x' !! a = Some n' /\ exec n' = e /\ taken n' = t
    /\ (t < posted x' (executor_id e))%nat.

Lemma wakes_step x y a e t : kernel_step x y -> wakes y a e t -> wakes x a e t.
Proof. intros K (x' & n' & S & ?). exists x', n'. split; [by eapply rtc_l|assumption]. Qed.

(** A request is one of three messages. *)
Lemma about_requests x c m a : about x c m -> requests is_request a c = true -> c = completion_of m /\ (m = Readable a \/ m = Poll_me a \/ m = Register_me a).
Proof.
  intros A Rq. unfold requests in Rq. apply andb_true_iff in Rq as [Ru Rq]. apply Z.eqb_eq in Ru.
  destruct A as [N|m b n En -> Hm|b n En L ->]; [by rewrite negative_request in Rq| |discriminate].
  split; [done|]. destruct Hm as [->|[->| ->]]; cbn in Ru; subst; auto.
Qed.

(** The posts that follow succeed. *)
Definition posts (_ _ : Z) : bool := true.

Lemma wakes_fired x s a n pre l :
  system_ok x s -> nodes x !! a = Some n -> lifetime n <> Left -> ready x = pre ++ Cqe POLLIN a 0 :: l -> wakes x a (exec n) (taken n).
Proof.
  revert x s. induction pre as [|c pre IH]; intros x s O En NL E; cbn [app] in E;
    destruct (handle_ok posts x s _ _ O E) as (st & s' & m & Eh & O' & A & Nt & _).
  - assert (Rq : requests is_request a (Cqe POLLIN a 0) = true) by (rewrite requests_cqe, Z.eqb_refl; reflexivity).
    destruct (token_registered x s a n _ l (so_nodes x s O a n En) NL E Rq) as [Tk _].
    destruct (about_requests x _ m a A Rq) as [Ec Hm]. destruct Hm as [->|[->| ->]]; [|discriminate..].
    exists (System (nodes x) st (polled x) l (armed x)), n. split; [apply rtc_once, (Step_handle x posts (Cqe POLLIN a 0)); assumption|].
    split_and!; auto. unfold posted. cbn [sched]. rewrite Nt, count_of_app.
    destruct (nk_one _ _ _ _ (so_nodes x s O a n En) NL) as [_ T2]. unfold posted in T2.
    cbn [spec_step]. unfold heap_of at 1. rewrite En. cbn [fmap option_fmap option_map].
    rewrite requests_cqe, Z.eqb_refl in Tk. apply bool_decide_eq_true in Tk. rewrite bool_decide_true by eauto.
    unfold notice_of, posts. cbn [fst snd count is_posted]. rewrite Z.eqb_refl. lia.
  - eapply wakes_step; [eapply Step_handle; eassumption|].
    exact (IH (System (nodes x) st (polled x) (pre ++ Cqe POLLIN a 0 :: l) (armed x)) s' O' En NL eq_refl).
Qed.

Lemma wakes_armed x s a n :
  system_ok x s -> nodes x !! a = Some n -> lifetime n <> Left -> (0 < inbox n)%nat -> (0 < count (armed_for a) (armed x))%nat ->
  wakes x a (exec n) (taken n).
Proof.
  intros O En NL Hi Hc. apply count_positive in Hc as (l1 & [fd data] & l2 & E & Hd). apply Z.eqb_eq in Hd. cbn in Hd. subst data.
  pose proof (so_armed x s O) as F. rewrite E in F. apply Forall_app in F as [_ F]. apply Forall_cons in F as [(n0 & En0 & Ed & _) _].
  cbn in En0, Ed. rewrite En in En0. injection En0 as <-.
  eapply wakes_step; [eapply Step_fire; eauto|]. eapply (wakes_fired _ s a n (ready x) []); [eapply fire_ok; eassumption|exact En|exact NL|reflexivity].
Qed.

Lemma taken_entry_same x e : nodes (taken_entry x e) = nodes x /\ sched (taken_entry x e) = sched x /\ polled (taken_entry x e) = S (polled x).
Proof. unfold taken_entry. destruct (sqe_operation e); auto. case_match; auto. Qed.

Lemma wakes_polled x s a n l1 e l2 :
  system_ok x s -> nodes x !! a = Some n -> lifetime n <> Left -> (0 < inbox n)%nat -> prepared (scheduler_ring (sched x)) = [] ->
  unpolled x = l1 ++ e :: l2 -> polls a e = true -> wakes x a (exec n) (taken n).
Proof.
  revert x s. induction l1 as [|e1 l1 IH]; intros x s O En NL Hi Hp U He.
  all: assert (Hs : forall e0 l, unpolled x = e0 :: l -> submitted (scheduler_ring (sched x)) !! polled x = Some e0)
    by (intros e0 l U0; unfold unpolled, entries in U0; rewrite Hp, app_nil_r in U0; rewrite <- (Nat.add_0_r (polled x)), <- lookup_drop, U0; reflexivity).
  - pose proof (Hs _ _ U) as Ee. eapply wakes_step; [eapply Step_poll, Ee|].
    pose proof (so_unpolled x s O) as F. rewrite U in F. apply Forall_cons in F as [(b & nb & Eb & _ & Hb) _].
    destruct Hb as [->|[_ ->]]; [|discriminate]. rewrite polls_entry in He. apply Z.eqb_eq in He. subst b.
    eapply (wakes_armed _ s); [eapply taken_entry_ok; eassumption|exact En|exact NL|exact Hi|].
    cbn [taken_entry poll_entry sqe_operation sqe_user_data armed]. rewrite count_of_app. cbn. unfold armed_for at 2. cbn. rewrite Z.eqb_refl. lia.
  - pose proof (Hs _ _ U) as Ee. eapply wakes_step; [eapply Step_poll, Ee|]. pose proof (taken_entry_ok x s e1 O Ee) as O'.
    destruct (taken_entry_same x e1) as (S1 & S2 & S3). apply (IH _ s O'); rewrite ?S1, ?S2; auto.
    unfold unpolled. rewrite S2, S3. rewrite (unpolled_next x e1 Ee) in U. injection U as U. exact U.
Qed.

Lemma wakes_polling x s a n :
  system_ok x s -> nodes x !! a = Some n -> lifetime n <> Left -> (0 < inbox n)%nat -> (0 < count (polls a) (unpolled x))%nat ->
  wakes x a (exec n) (taken n).
Proof.
  intros O En NL Hi Hc. apply count_positive in Hc as (l1 & e & l2 & E & He).
  eapply wakes_step; [apply Step_submit|].
  eapply (wakes_polled _ s a n l1 e l2); [apply submit_ok, O|exact En|exact NL|exact Hi| | |exact He].
  - cbn [sched with_scheduler_ring scheduler_ring]. apply submit_and_wait_spec.
  - unfold unpolled. cbn [sched with_scheduler_ring scheduler_ring polled]. rewrite entries_submit_and_wait. exact E.
Qed.

Lemma wakes_requested x s a n pre c l :
  system_ok x s -> nodes x !! a = Some n -> lifetime n <> Left -> (0 < inbox n)%nat -> ready x = pre ++ c :: l -> requests is_request a c = true ->
  wakes x a (exec n) (taken n).
Proof.
  revert x s. induction pre as [|c1 pre IH]; intros x s O En NL Hi E Hc; cbn [app] in E;
    destruct (handle_ok posts x s _ _ O E) as (st & s' & m & Eh & O' & A & Nt & Ee).
  - destruct (about_requests x c m a A Hc) as [Ec Hm].
    destruct Hm as [->|Hm]; [subst c; by apply (wakes_fired x s a n [] l O En NL)|].
    eapply wakes_step; [eapply Step_handle; eassumption|]. eapply (wakes_polling _ s' a n O' En NL Hi).
    unfold unpolled. cbn [sched polled]. rewrite (unpolled_more x st _ (so_polled x s O) Ee), count_of_app.
    destruct (token_registered x s a n c l (so_nodes x s O a n En) NL E Hc) as [Tk _].
    destruct Hm as [->| ->].
    + cbn [spec_step]. unfold heap_of at 1. rewrite En. cbn [fmap option_fmap option_map]. rewrite Ec in Tk. cbn [completion_of] in Tk. rewrite requests_cqe, Z.eqb_refl in Tk.
      apply bool_decide_eq_true in Tk. rewrite bool_decide_true by eauto. cbn [snd count]. rewrite polls_entry, Z.eqb_refl. lia.
    + cbn [spec_step]. unfold heap_of at 1. rewrite En. cbn [fmap option_fmap option_map snd count]. rewrite polls_entry, Z.eqb_refl. lia.
  - eapply wakes_step; [eapply Step_handle; eassumption|].
    exact (IH (System (nodes x) st (polled x) (pre ++ c :: l) (armed x)) s' O' En NL Hi eq_refl Hc).
Qed.

(** A request that is on its way was submitted: an idle executor has prepared none. *)
Lemma next_submitted n l1 e l2 a : (sent n <= length (submitted (ring (exec n))))%nat -> Forall elsewhere (prepared (ring (exec n))) ->
  undelivered n = l1 ++ e :: l2 -> asks is_ask a e = true -> exists e0, submitted (ring (exec n)) !! sent n = Some e0.
Proof.
  intros Hs F U He. destruct (decide (sent n < length (submitted (ring (exec n))))%nat) as [Hlt|Hge]; [by apply lookup_lt_is_Some_2|].
  exfalso. unfold undelivered, entries in U. rewrite drop_app_ge in U by lia.
  replace (sent n - length (submitted (ring (exec n))))%nat with 0%nat in U by lia. rewrite drop_0 in U. rewrite U, Forall_app, Forall_cons in F. destruct F as (_ & Fe & _).
  unfold asks, elsewhere in *. destruct (sqe_operation e); try discriminate. by rewrite (proj2 (Z.eqb_neq _ _) Fe) in He.
Qed.

Lemma delivered_node x a n e : exists n', nodes (delivered (with_node x a n) e) !! a = Some n'
  /\ exec n' = exec n /\ sent n' = sent n /\ taken n' = taken n /\ lifetime n' = lifetime n /\ (inbox n <= inbox n')%nat.
Proof.
  destruct (delivered_shape (with_node x a n) e) as (g & Hg & ->). cbn [nodes with_node].
  exists (g n). split; [by rewrite lookup_fmap, lookup_insert_eq|]. destruct (Hg n) as (? & ? & ? & ? & ?). auto.
Qed.

Lemma delivered_ask x a n e : asks is_ask a e = true ->
  exists c, ready (delivered (with_node x a n) e) = ready x ++ [c] /\ requests is_request a c = true.
Proof.
  unfold asks, delivered. destruct (sqe_operation e) as [fd kind data| | | | | | | | | |]; try discriminate. intros E.
  apply andb_true_iff in E as [E Ed]. apply andb_true_iff in E as [-> Ek]. exists (Cqe kind data 0).
  split; [reflexivity|]. rewrite requests_cqe, Ed. unfold is_request. rewrite Ek. reflexivity.
Qed.

Lemma wakes_asked l1 : forall x s a n e l2,
  system_ok x s -> nodes x !! a = Some n -> lifetime n <> Left -> (0 < inbox n)%nat -> Forall elsewhere (prepared (ring (exec n))) ->
  undelivered n = l1 ++ e :: l2 -> asks is_ask a e = true -> wakes x a (exec n) (taken n).
Proof.
  induction l1 as [|e1 l1 IH]; intros x s a n e l2 O En NL Hi Hp U He;
    destruct (next_submitted n _ e l2 a (nk_sent _ _ _ _ (so_nodes x s O a n En)) Hp U He) as [e0 Hs];
    pose proof (undelivered_next n e0 Hs) as Un; rewrite U in Un; injection Un as <- Un;
    (eapply wakes_step; [eapply Step_deliver; eassumption|]); pose proof (delivered_ok x s a n _ O En Hs) as O'.
  - destruct (delivered_node x a (next_sent n) e) as (n' & En' & X1 & X2 & X3 & X5 & X4), (delivered_ask x a (next_sent n) e He) as (c & Ec & Hc).
    rewrite <- (X1 : exec n' = exec n), <- (X3 : taken n' = taken n). cbn in X4.
    eapply (wakes_requested _ s a n' (ready x) c []); [exact O'|exact En'|by rewrite X5|lia|exact Ec|exact Hc].
  - destruct (delivered_node x a (next_sent n) e1) as (n' & En' & X1 & X2 & X3 & X5 & X4).
    rewrite <- (X1 : exec n' = exec n), <- (X3 : taken n' = taken n). cbn in X4.
    apply (IH _ s a n' e l2 O' En'); [by rewrite X5|lia|rewrite X1; exact Hp| |exact He].
    unfold undelivered at 1. rewrite X1, X2. symmetry. exact Un.
Qed.

(** An active executor that is idle and has completions to see is woken. *)
Lemma wakes_idle x s a n :
  system_ok x s -> nodes x !! a = Some n -> lifetime n = Followed -> state (exec n) = EXECUTOR_STATE_IDLE -> (0 < inbox n)%nat ->
  failed x a = 0%nat -> wakes x a (exec n) (taken n).
Proof.
  intros O En L Hst Hi Hf. pose proof (so_nodes x s O a n En) as K. assert (NL : lifetime n <> Left) by congruence.
  destruct (nk_one _ _ _ _ K NL) as [T1 T2]. assert (A1 : activated n = 1%nat) by (unfold activated; by rewrite L).
  destruct (decide (taken n < posted x (executor_id (exec n)))%nat) as [Hlt|Hge].
  { exists x, n. split; [apply rtc_refl|auto]. }
  destruct (decide (0 < asked x a n)%nat) as [Ha|Ha].
  { apply count_positive in Ha as (l1 & e & l2 & U & He). eapply wakes_asked; eauto. by apply (nk_idle _ _ _ _ K). }
  destruct (decide (0 < requested x a)%nat) as [Hr|Hr].
  { apply count_positive in Hr as (l1 & c & l2 & E & Hc). eapply wakes_requested; eauto. }
  unfold polling in T1. destruct (decide (0 < count (polls a) (unpolled x))%nat) as [Hpl|Hpl].
  - eapply wakes_polling; eauto.
  - eapply wakes_armed; eauto. lia.
Qed.

(** ** The theorem *)

(** A start: no executor was activated, nothing is on its way, and the thread of
    the scheduler has just begun. *)
Record started x : Prop := {
  sd_node a n : nodes x !! a = Some n ->
    (address (exec n) = a /\ a <> 0) /\ 0 <= executor_id (exec n) < EXECUTOR_SCHEDULER_LIMIT /\
    (descriptor (exec n) <> scheduler_fd /\ scheduler_descriptor (exec n) = scheduler_fd) /\
    prepared (ring (exec n)) = [] /\ sent n = length (submitted (ring (exec n))) /\ taken n = 0%nat /\ lifetime n = Fresh;
  sd_distinct a b n m : nodes x !! a = Some n -> nodes x !! b = Some m -> executor_id (exec n) = executor_id (exec m) -> a = b;
  sd_sched : active (sched x) = true /\ notices (sched x) = [] /\ prepared (scheduler_ring (sched x)) = []
    /\ polled x = length (submitted (scheduler_ring (sched x)));
  sd_ready : ready x = [] /\ armed x = [];
}.

Lemma started_ok x : started x -> system_ok x (Spec ∅ ∅).
Proof.
  intros [Hn Hd (Ha & Hno & Hp & Hpl) [Hr Hm]].
  assert (U : unpolled x = []) by (unfold unpolled, entries; rewrite Hp, Hpl, app_nil_r; apply drop_all).
  split; [|intros a n En|exact Hd|rewrite Hr; constructor|rewrite Hpl; apply submitted_le_entries|rewrite U; constructor|rewrite Hm; constructor].
  - split; [exact Ha|intros id Hid; set_solver|intros id b Hb; cbn in Hb; rewrite lookup_empty in Hb; discriminate].
  - destruct (Hn a n En) as (X1 & X2 & X3 & X6 & X7 & X8 & X9).
    assert (V : undelivered n = []) by (unfold undelivered, entries; rewrite X6, X7, app_nil_r; apply drop_all).
    split; [exact X1|exact X2|exact X3|intros _; rewrite X6; constructor|lia|rewrite V; constructor|congruence| | |congruence]; intros _.
    + split; [|lia]. unfold asked, requested, polling, posted, failed, activated. rewrite U, V, Hr, Hm, Hno, X8, X9. reflexivity.
    + unfold registering, activated. rewrite V, Hr, X9. cbn. rewrite lookup_empty. reflexivity.
Qed.

Lemma reached_ok x0 x : started x0 -> rtc wakeup_step x0 x -> exists s, system_ok x s.
Proof.
  intros S. apply started_ok in S. intros Hr. revert S. generalize (Spec ∅ ∅). induction Hr as [x|x y z D Hr IH]; intros s O; [eauto|].
  destruct D as [D|D].
  - destruct (kernel_step_ok x y s O D) as [s' O']. exact (IH s' O').
  - exact (IH s (dart_step_ok x y s O D)).
Qed.

End Wakeup.

(** ** A whole wake-up

    [_awake] as the Dart side calls it: it has [seen] completions, the [processor]
    handles them with operations of the executor, and [pending] tasks are left when it
    ends.  The answers are whether it asked to be unregistered, and the executor. *)

Section Stopping.
Context {R : Type} `{UringLaws R} (ring_full : event).

Definition awake_executor (seen : nat) (pending : Z) (processor : executor_instance (R := R) -> executor_instance (R := R))
    (e : executor_instance (R := R)) : bool * executor_instance (R := R) :=
  if has_state e EXECUTOR_STATE_STOPPED then (false, e) else
  if negb (has_state e EXECUTOR_STATE_PAUSED) then
    let '(r, e) := run_op ring_full e Awake_begin in
    if negb (r =? 0) then (false, e) else
    let '(_, e) := run_op ring_full e Peek in
    if (seen =? 0)%nat then (false, snd (run_op ring_full e Awake_complete)) else
    let e := processor e in
    let '(_, e') := after_awake ring_full seen pending e in
    (has_state e' EXECUTOR_STATE_STOPPED, e')
  else (false, e).

(** The state of an executor that is shut down with tasks pending is overwritten by
    the next wake-up, which therefore never asks to be unregistered, whatever is
    pending: the shutdown waits for ever. *)
Lemma awake_never_stops seen pending processor e :
  fst (awake_executor seen pending processor e) = false
  /\ (is_Some (get_sqe (ring e)) -> state e = EXECUTOR_STATE_STOPPING ->
      state (snd (awake_executor seen pending processor e)) = EXECUTOR_STATE_IDLE).
Proof.
  unfold awake_executor. destruct (has_state e EXECUTOR_STATE_STOPPED) eqn:E1.
  { split; [reflexivity|]. intros _ Hs. unfold has_state in E1. rewrite Hs in E1. discriminate. }
  destruct (has_state e EXECUTOR_STATE_PAUSED) eqn:E2; cbn [negb].
  { split; [reflexivity|]. intros _ Hs. unfold has_state in E2. rewrite Hs in E2. discriminate. }
  cbn [run_op]. unfold executor_awake_begin. cbn [ring with_state].
  destruct (get_sqe (ring e)) as [r|]; [|split; [reflexivity|intros [? ?]; discriminate]].
  cbn [Z.eqb negb]. rewrite after_awake_complete. destruct (seen =? 0)%nat; (split; [reflexivity|]; intros _ _; reflexivity).
Qed.

(** So is the state of an executor that is deactivated by a task of the wake-up: it
    ends idle, though the scheduler is told to forget it after it was told to poll it,
    so that no completion wakes it any more. *)
Definition deactivating (e : executor_instance (R := R)) : executor_instance (R := R) := snd (run_op ring_full e (Unregister false)).
Lemma awake_overwrites_deactivation seen pending e :
  seen <> 0%nat -> state e = EXECUTOR_STATE_IDLE -> fst (run_op ring_full e Awake_begin) = 0 ->
  (let e := executor_peek (snd (run_op ring_full e Awake_begin)) in fst (run_op ring_full e (Unregister false)) = 0) ->
  let e' := snd (awake_executor seen pending deactivating e) in
  state e' = EXECUTOR_STATE_IDLE /\
  entries (ring e') = entries (ring e) ++ [message (scheduler_descriptor e) EXECUTOR_SCHEDULER_POLL (address e);
                                          message (scheduler_descriptor e) EXECUTOR_SCHEDULER_UNREGISTER (executor_id e)].
Proof.
  intros Hs Hi Hb Hu. pose proof (run_op_entries ring_full e Awake_begin Hb) as (E1 & _ & Pa & Ps & Pi & Pd).
  unfold awake_executor, has_state. rewrite Hi. cbn [Z.land EXECUTOR_STATE_IDLE]. destruct (run_op ring_full e Awake_begin) as [r e1] eqn:Eb.
  cbn [fst snd] in *. subst r. cbn [Z.eqb negb]. cbv zeta in Hu. change (run_op ring_full e1 Peek) with (0, executor_peek e1).
  pose proof (run_op_entries ring_full (executor_peek e1) (Unregister false) Hu) as (E2 & _ & Qa & Qs & Qi & Qd).
  rewrite (proj2 (Nat.eqb_neq _ _) Hs). rewrite after_awake_complete. unfold deactivating.
  destruct (run_op ring_full (executor_peek e1) (Unregister false)) as [r2 e2]. cbn [fst snd] in *.
  pose proof (run_op_entries ring_full e2 Awake_complete eq_refl) as (E3 & _). cbn [run_op fst snd] in *.
  split; [reflexivity|]. etransitivity; [exact E3|]. rewrite E2. unfold executor_peek. cbn [ring with_ring]. rewrite entries_submit, E1.
  cbn [op_message]. rewrite app_nil_r, <- app_assoc. cbn [app].
  cbn [scheduler_descriptor executor_id with_ring]. by rewrite Ps, Pi.
Qed.
End Stopping.

(** ** Witness *)

(** The executor 7 at the address 7000 and the scheduler on the ring 2: it is
    activated, and a completion arrives before anything else happens. *)
Definition sleeper : executor_instance (R := list_ring) :=
  ExecutorInstance 7000 0 2 (ListRing 7 4 [] []) (ExecutorConfiguration 4 0) 7 7 EXECUTOR_STATE_PAUSED.
Definition sleeper_active : executor_instance (R := list_ring) :=
  ExecutorInstance 7000 5 2 (ListRing 7 4 [] [message 2 EXECUTOR_SCHEDULER_REGISTER 7000]) (ExecutorConfiguration 4 0) 7 7 EXECUTOR_STATE_IDLE.
Definition one_sleeper (n : node (R := list_ring)) : system (R := list_ring) :=
  System {[7000 := n]} (Scheduler (ListRing 2 4 [] []) true true ∅ []) 0 [] [].

Lemma one_sleeper_started : started 2 (one_sleeper (Node sleeper 0 0 0 Out Fresh)).
Proof.
  split; [| |auto..].
  - intros a n E. cbn [nodes one_sleeper] in E. apply lookup_singleton_Some in E as [<- <-]. split_and!; try reflexivity; try discriminate; cbn; lia.
  - intros a b n m Ea Eb _. cbn [nodes one_sleeper] in Ea, Eb. apply lookup_singleton_Some in Ea as [<- _], Eb as [<- _]. reflexivity.
Qed.

Definition waiting : node (R := list_ring) := Node sleeper_active 0 1 0 Out Followed.
