(* ===== verification/Transport.v ===== *)
(** * The transport ([transport/native/transport/transport.c], [transport.h], [maps.h],
    [constants.h]) and the dispatch of its completions ([transport/dart/lib/transport/transport.dart])

    A request is an entry of the ring whose data packs the descriptor, the buffer
    and the kind of the event; it is pending in the map of events, keyed by that
    data, until its completion is processed, its descriptor is cancelled or it
    times out.  [time] is the clock of [time(NULL)], an address is the list of its
    bytes, a call into the executor's ring is an operation of [Uring]. *)
From stdpp Require Import strings.
From S2P Require Import Prelude PointerArray SimpleMap SimpleMapTable SimpleMapSpec Maps Events StaticBuffers Uring Executor.

Definition TRANSPORT_EVENT_READ : Z := Z.shiftl 1 0.
Definition TRANSPORT_EVENT_WRITE : Z := Z.shiftl 1 1.
Definition TRANSPORT_EVENT_RECEIVE_MESSAGE : Z := Z.shiftl 1 2.
Definition TRANSPORT_EVENT_SEND_MESSAGE : Z := Z.shiftl 1 3.
Definition TRANSPORT_EVENT_ACCEPT : Z := Z.shiftl 1 4.
Definition TRANSPORT_EVENT_CONNECT : Z := Z.shiftl 1 5.
Definition TRANSPORT_EVENT_CLIENT : Z := Z.shiftl 1 6.
Definition TRANSPORT_EVENT_FILE : Z := Z.shiftl 1 7.
Definition TRANSPORT_EVENT_SERVER : Z := Z.shiftl 1 8.
Definition TRANSPORT_TIMEOUT_INFINITY : Z := -1.
Definition TRANSPORT_SOCKET_FAMILY_INET : Z := 0.
Definition TRANSPORT_SOCKET_FAMILY_UNIX : Z := 1.

(** ** The data of a request

    The three operations pack it the same way; the completion is taken apart
    again by the Dart side, whose integers are signed. *)

Definition request_data (fd buffer_id event : Z) : Z :=
  Z.lor (Z.lor (u64 (Z.shiftl fd 32)) (u64 (Z.shiftl buffer_id 16))) event.

Definition data_fd (data : Z) : Z := Z.land (Z.shiftr (i64 data) 32) 0xffffffff.
Definition data_buffer (data : Z) : Z := Z.land (Z.shiftr (i64 data) 16) 0xffff.
Definition data_event (data : Z) : Z := Z.land (i64 data) 0xffff.

(** Where [_process] sends a completion. *)
Inductive delivery :=
| Client_connect (fd result : Z)
| Client_data (fd buffer_id result event : Z)
| Server_connection (fd buffer_id result event : Z)
| Server_datagram (fd buffer_id result event : Z)
| Server_accept (fd result : Z)
| File_data (fd buffer_id result event : Z)
| Dropped.

Definition process (data result : Z) : delivery :=
  let event := data_event data in
  let fd := data_fd data in
  let buffer_id := data_buffer data in
  let is_flag flag := negb (Z.land event flag =? 0) in
  let without flag := Z.land event (Z.lnot flag) in
  if is_flag TRANSPORT_EVENT_CLIENT then
    let event := without TRANSPORT_EVENT_CLIENT in
    if event =? TRANSPORT_EVENT_CONNECT then Client_connect fd result else Client_data fd buffer_id result event
  else if is_flag TRANSPORT_EVENT_SERVER then
    let event := without TRANSPORT_EVENT_SERVER in
    if (event =? TRANSPORT_EVENT_READ) || (event =? TRANSPORT_EVENT_WRITE) then Server_connection fd buffer_id result event
    else if (event =? TRANSPORT_EVENT_RECEIVE_MESSAGE) || (event =? TRANSPORT_EVENT_SEND_MESSAGE)
    then Server_datagram fd buffer_id result event
    else Server_accept fd result
  else if is_flag TRANSPORT_EVENT_FILE then File_data fd buffer_id result (without TRANSPORT_EVENT_FILE)
  else Dropped.

(** ** State *)

Definition sizeof_sockaddr_in : Z := 16.
Definition sizeof_sockaddr_un : Z := 110.

(** [msg_iov] is the number of the buffer it points to. *)
Record msghdr := Msghdr {
  msg_name : list Z;
  msg_namelen : Z;
  msg_iov : option Z;
  msg_iovlen : Z;
  msg_controllen : Z;
  msg_flags : Z;
}.

Record transport_client := TransportClient {
  client_fd : Z;
  client_family : Z;
  client_address_length : Z;
}.
Record transport_server := TransportServer {
  server_fd : Z;
  server_family : Z;
  server_address_length : Z;
}.

Section Transport.
Context {R : Type} `{Uring R} (ring_full : event).
Abbreviation executor_instance := (@executor_instance R).
Abbreviation event_map := (simple_map simple_map_transport_event).

Record transport := Transport {
  transport_buffers : list iovec;
  transport_executor : executor_instance;
  inet_used_messages : list msghdr;
  unix_used_messages : list msghdr;
  transport_events : event_map;
}.
Implicit Types (t : transport).

Definition with_transport_ring t (r : R) : transport :=
  Transport (transport_buffers t) (with_ring (transport_executor t) r)
    (inet_used_messages t) (unix_used_messages t) (transport_events t).
Definition with_events t (m : event_map) : transport :=
  Transport (transport_buffers t) (transport_executor t) (inet_used_messages t) (unix_used_messages t) m.
Definition with_executor t (e : executor_instance) : transport :=
  Transport (transport_buffers t) e (inet_used_messages t) (unix_used_messages t) (transport_events t).
Definition with_messages t (inet unix : list msghdr) : transport :=
  Transport (transport_buffers t) (transport_executor t) inet unix (transport_events t).

Abbreviation result := (Z * option event * transport)%type.
Definition full t : outcome result := Done (MODULE_ERROR_CODE, Some ring_full, t).

(** Whether the structure, the two arrays and all the names could be allocated;
    the structure is written without a check.  The fields [buffers] and
    [transport_executor] are set later, the second to [e]. *)
Definition empty_message (size : Z) : msghdr := Msghdr (replicate (Z.to_nat size) 0) size None 0 0 0.
Definition transport_initialize (structure arrays names : bool) (capacity : Z) (e : executor_instance)
    : outcome (option transport) :=
  if negb structure then Faults else
  events ← simple_map_reserve simple_map_new (u32 capacity);
  if negb arrays || (negb names && (0 <? capacity)) then Done None else
  Done (Some (Transport [] e (replicate (Z.to_nat capacity) (empty_message sizeof_sockaddr_in))
                (replicate (Z.to_nat capacity) (empty_message sizeof_sockaddr_un)) events)).

(** [transport_setup], [register] being what [io_uring_register_buffers] answers. *)
Definition transport_setup (system_error : Z -> event) (register : Z) t (e : executor_instance) : result :=
  let t := with_executor t e in
  if register =? 0 then (0, None, t) else (MODULE_ERROR_CODE, Some (system_error (i32 (- register))), t).

(** ** Requests *)

Definition transport_add_event (time : Z) t (fd data timeout : Z) : outcome transport :=
  '(_, _, events) ← simple_map_put (transport_events t) (TransportEvent data timeout (u64 time) (i32 fd));
  Done (with_events t events).

Definition transport_write (time : Z) t (fd buffer_id offset timeout event sqe_flags : Z) : outcome result :=
  match get_sqe (ring (transport_executor t)) with
  | None => full t
  | Some r =>
      let data := request_data fd buffer_id event in
      buffer ← demand (transport_buffers t !! Z.to_nat buffer_id);
      let entry := Write_fixed (i32 fd) (iov_base buffer) (u32 (iov_len buffer)) offset buffer_id in
      let t := with_transport_ring t (write_sqe r (Sqe entry data sqe_flags)) in
      t ← transport_add_event time t fd data timeout;
      Done (0, None, t)
  end.

Definition transport_read (time : Z) t (fd buffer_id offset timeout event sqe_flags : Z) : outcome result :=
  match get_sqe (ring (transport_executor t)) with
  | None => full t
  | Some r =>
      let data := request_data fd buffer_id event in
      buffer ← demand (transport_buffers t !! Z.to_nat buffer_id);
      let entry := Read_fixed (i32 fd) (iov_base buffer) (u32 (iov_len buffer)) offset buffer_id in
      let t := with_transport_ring t (write_sqe r (Sqe entry data sqe_flags)) in
      t ← transport_add_event time t fd data timeout;
      Done (0, None, t)
  end.

(** [memcpy] of [n] bytes. *)
Definition copy_bytes (dst src : list Z) (n : Z) : outcome (list Z) :=
  if (n <=? Z.of_nat (length src)) && (n <=? Z.of_nat (length dst))
  then Done (take (Z.to_nat n) src ++ drop (Z.to_nat n) dst) else Faults.

(** [SUN_LEN]: two bytes of family and the length of the path. *)
Fixpoint string_length (bytes : list Z) : outcome Z :=
  match bytes with
  | [] => Faults
  | b :: bytes => if b =? 0 then Done 0 else n ← string_length bytes; Done (n + 1)
  end.
Definition SUN_LEN (address : list Z) : outcome Z := n ← string_length (drop 2 address); Done (2 + n).

Definition store_message (messages : list msghdr) (i : Z) (m : msghdr) : list msghdr := <[Z.to_nat i := m]> messages.

(** Another family leaves the pointer to the message indeterminate. *)
Definition transport_send_message (time : Z) t (fd buffer_id : Z) (address : list Z)
    (socket_family message_flags timeout event sqe_flags : Z) : outcome result :=
  match get_sqe (ring (transport_executor t)) with
  | None => full t
  | Some r =>
      let data := request_data fd buffer_id event in
      t ← (if socket_family =? TRANSPORT_SOCKET_FAMILY_INET then
             m ← demand (inet_used_messages t !! Z.to_nat buffer_id);
             name ← copy_bytes (msg_name m) address (msg_namelen m);
             let m := Msghdr name (msg_namelen m) (Some buffer_id) 1 0 0 in
             Done (with_messages t (store_message (inet_used_messages t) buffer_id m) (unix_used_messages t))
           else if socket_family =? TRANSPORT_SOCKET_FAMILY_UNIX then
             m ← demand (unix_used_messages t !! Z.to_nat buffer_id);
             len ← SUN_LEN address;
             name ← copy_bytes (msg_name m) address len;
             let m := Msghdr name len (Some buffer_id) 1 0 0 in
             Done (with_messages t (inet_used_messages t) (store_message (unix_used_messages t) buffer_id m))
           else Faults);
      let entry := Sendmsg (i32 fd) socket_family buffer_id (u32 message_flags) in
      let t := with_transport_ring t (write_sqe r (Sqe entry data sqe_flags)) in
      t ← transport_add_event time t fd data timeout;
      Done (0, None, t)
  end.

(** [memset] of the first [msg_namelen] bytes of the name. *)
Definition clear_name (name : list Z) (n : Z) : outcome (list Z) :=
  if n <=? Z.of_nat (length name) then Done (replicate (Z.to_nat n) 0 ++ drop (Z.to_nat n) name) else Faults.

Definition transport_receive_message (time : Z) t (fd buffer_id socket_family message_flags timeout event sqe_flags : Z)
    : outcome result :=
  match get_sqe (ring (transport_executor t)) with
  | None => full t
  | Some r =>
      let data := request_data fd buffer_id event in
      t ← (if socket_family =? TRANSPORT_SOCKET_FAMILY_INET then
             m ← demand (inet_used_messages t !! Z.to_nat buffer_id);
             name ← clear_name (msg_name m) sizeof_sockaddr_in;
             let m := Msghdr name sizeof_sockaddr_in (Some buffer_id) 1 0 0 in
             Done (with_messages t (store_message (inet_used_messages t) buffer_id m) (unix_used_messages t))
           else if socket_family =? TRANSPORT_SOCKET_FAMILY_UNIX then
             m ← demand (unix_used_messages t !! Z.to_nat buffer_id);
             name ← clear_name (msg_name m) sizeof_sockaddr_un;
             let m := Msghdr name sizeof_sockaddr_un (Some buffer_id) 1 0 0 in
             Done (with_messages t (inet_used_messages t) (store_message (unix_used_messages t) buffer_id m))
           else Faults);
      let entry := Recvmsg (i32 fd) socket_family buffer_id (u32 message_flags) in
      let t := with_transport_ring t (write_sqe r (Sqe entry data sqe_flags)) in
      t ← transport_add_event time t fd data timeout;
      Done (0, None, t)
  end.

(** The descriptors of clients and servers are signed. *)
Definition transport_connect (time : Z) t (client : transport_client) (timeout : Z) : outcome result :=
  match get_sqe (ring (transport_executor t)) with
  | None => full t
  | Some r =>
      let data := Z.lor (u64 (Z.shiftl (u64 (client_fd client)) 32)) (Z.lor TRANSPORT_EVENT_CONNECT TRANSPORT_EVENT_CLIENT) in
      let entry := Connect (client_fd client) (client_family client) (client_address_length client) in
      let t := with_transport_ring t (write_sqe r (Sqe entry data 0)) in
      t ← transport_add_event time t (client_fd client) data timeout;
      Done (0, None, t)
  end.

Definition transport_accept (time : Z) t (server : transport_server) : outcome result :=
  match get_sqe (ring (transport_executor t)) with
  | None => full t
  | Some r =>
      let data := Z.lor (u64 (Z.shiftl (u64 (server_fd server)) 32)) (Z.lor TRANSPORT_EVENT_ACCEPT TRANSPORT_EVENT_SERVER) in
      let entry := Accept (server_fd server) (server_family server) (server_address_length server) in
      let t := with_transport_ring t (write_sqe r (Sqe entry data 0)) in
      t ← transport_add_event time t (server_fd server) data TRANSPORT_TIMEOUT_INFINITY;
      Done (0, None, t)
  end.

(** ** Cancellation *)

Definition cancel_entry (data : Z) : io_uring_sqe := Sqe (Cancel data IORING_ASYNC_CANCEL_ALL) 0 IOSQE_CQE_SKIP_SUCCESS.

(** [to_delete[count++] = index]: the array has [bound] elements. *)
Definition push_slot (bound : Z) (to_delete : list Z) (i : Z) : outcome (list Z) :=
  if Z.of_nat (length to_delete) <? bound then Done (to_delete ++ [i]) else Faults.

(** The loop over the slots: the ring and the slots to delete, or the ring when
    it got full. *)
Fixpoint cancel_loop (h : table simple_map_transport_event) (fd : Z) (r : R) (to_delete slots : list Z)
    : outcome (R * list Z + R) :=
  match slots with
  | [] => Done (inl (r, to_delete))
  | i :: slots =>
      e ← node h i;
      if te_fd e =? fd then
        match get_sqe r with
        | None => Done (inr r)
        | Some r' =>
            to_delete ← push_slot (SimpleMap.size h) to_delete i;
            cancel_loop h fd (write_sqe r' (cancel_entry (te_data e))) to_delete slots
        end
      else cancel_loop h fd r to_delete slots
  end.

Fixpoint delete_slots (m : event_map) (slots : list Z) : outcome event_map :=
  match slots with
  | [] => Done m
  | i :: slots => m ← simple_map_del m i; delete_slots m slots
  end.

Definition transport_cancel_by_fd t (fd : Z) : outcome result :=
  let m := transport_events t in
  found ← cancel_loop (main m) fd (ring (transport_executor t)) [] (simple_map_foreach (main m));
  match found with
  | inr r => full (with_transport_ring t r)
  | inl (r, to_delete) =>
      events ← delete_slots m to_delete;
      let t := with_events (with_transport_ring t r) events in
      Done (0, None, with_executor t (executor_submit (transport_executor t)))
  end.

(** [clock k] is the [k]th answer of [time(NULL)].  The difference of a signed and
    an unsigned time, and its comparison with the timeout, are unsigned. *)
Definition timed_out (now : Z) (e : simple_map_transport_event) : bool :=
  u64 (now - te_timestamp e) >? u64 (te_timeout e).

Fixpoint timeout_loop (h : table simple_map_transport_event) (clock : nat -> Z) (r : R) (to_delete slots : list Z)
    : outcome (R * list Z) :=
  match slots with
  | [] => Done (r, to_delete)
  | i :: slots =>
      e ← node h i;
      if te_timeout e =? TRANSPORT_TIMEOUT_INFINITY then timeout_loop h clock r to_delete slots
      else
        let now := clock O in
        let clock := fun k => clock (S k) in
        if timed_out now e then
          match get_sqe r with
          | None => timeout_loop h clock r to_delete slots
          | Some r' =>
              to_delete ← push_slot (SimpleMap.size h) to_delete i;
              timeout_loop h clock (write_sqe r' (cancel_entry (te_data e))) to_delete slots
          end
        else timeout_loop h clock r to_delete slots
  end.

Definition transport_check_event_timeouts (clock : nat -> Z) t : outcome transport :=
  let m := transport_events t in
  '(r, to_delete) ← timeout_loop (main m) clock (ring (transport_executor t)) [] (simple_map_foreach (main m));
  events ← delete_slots m to_delete;
  let t := with_events (with_transport_ring t r) events in
  Done (with_executor t (executor_submit (transport_executor t))).

Definition transport_remove_event t (data : Z) : outcome transport :=
  event ← simple_map_find (main (transport_events t)) data;
  if negb (event =? n_buckets (main (transport_events t))) then
    events ← simple_map_del (transport_events t) event;
    Done (with_events t events)
  else Done t.

End Transport.
