(* ===== verification/TransportTheorems.v ===== *)
(** * The properties of the transport

    The data of a request comes back from its completion; every request that is
    accepted is in the ring and pending under its data; cancelling a descriptor and
    the timeouts remove exactly their events as long as the map of events is not
    being resized; and what happens when it is. *)
From stdpp Require Import strings sorting.
From S2P Require Import Prelude PointerArray SimpleMap SimpleMapTable SimpleMapSpec Maps Events StaticBuffers Uring Executor Transport.

(** ** The data of a request *)

Lemma request_data_sum fd buffer_id event :
  0 <= fd < 2 ^ 32 -> 0 <= buffer_id < 2 ^ 16 -> 0 <= event < 2 ^ 16 ->
  request_data fd buffer_id event = fd * 2 ^ 32 + buffer_id * 2 ^ 16 + event.
Proof.
  intros Hf Hb He. unfold request_data.
  assert (Ef : u64 (Z.shiftl fd 32) = Z.shiftl fd 32).
  { apply wrap_small. rewrite Z.shiftl_mul_pow2 by lia. pow2_norm. lia. }
  assert (Eb : u64 (Z.shiftl buffer_id 16) = buffer_id * 2 ^ 16).
  { rewrite Z.shiftl_mul_pow2 by lia. apply wrap_small. pow2_norm. lia. }
  rewrite Ef, Eb, lor_shiftl_add by (pow2_norm; lia).
  replace (fd * 2 ^ 32 + buffer_id * 2 ^ 16) with ((fd * 2 ^ 16 + buffer_id) * 2 ^ 16) by (pow2_norm; lia).
  rewrite <- (Z.shiftl_mul_pow2 (fd * 2 ^ 16 + buffer_id)), lor_shiftl_add by lia. rewrite ?Z.shiftl_mul_pow2 by lia. pow2_norm. lia.
Qed.

Lemma data_parts fd buffer_id event :
  0 <= fd < 2 ^ 32 -> 0 <= buffer_id < 2 ^ 16 -> 0 <= event < 2 ^ 16 ->
  let data := request_data fd buffer_id event in
  0 <= data < 2 ^ 64 /\ data_fd data = fd /\ data_buffer data = buffer_id /\ data_event data = event.
Proof.
  intros Hf Hb He data. unfold data. rewrite request_data_sum by auto.
  set (n := fd * 2 ^ 32 + buffer_id * 2 ^ 16 + event).
  assert (Hs : exists k, i64 n = n + k * 2 ^ 64).
  { exists (- ((n + 2 ^ 63) / 2 ^ 64)). unfold swrap. change (64 - 1) with 63.
    pose proof (Z_div_mod_eq_full (n + 2 ^ 63) (2 ^ 64)). lia. }
  destruct Hs as [k Hk]. unfold data_fd, data_buffer, data_event.
  change 0xffffffff with (Z.ones 32). change 0xffff with (Z.ones 16).
  rewrite !Z.land_ones, !Z.shiftr_div_pow2, Hk by lia. unfold n. clear Hk. pow2_norm. zdiv_lia.
Qed.

(** The data of a connection or an acceptance, from a signed descriptor. *)
Lemma signed_data fd event : Z.lor (u64 (Z.shiftl (u64 fd) 32)) event = request_data (u32 fd) 0 event.
Proof.
  unfold request_data. change (u64 (Z.shiftl 0 16)) with 0. rewrite Z.lor_0_r. f_equal.
  rewrite !Z.shiftl_mul_pow2 by lia. unfold wrap.
  rewrite Zmult_mod_idemp_l. change (2 ^ 64) with (2 ^ 32 * 2 ^ 32).
  rewrite !Zmult_mod_distr_r. rewrite Zmod_mod. reflexivity.
Qed.

(** ** Deleting several slots *)

Abbreviation event := simple_map_transport_event.
Abbreviation event_map := (simple_map simple_map_transport_event).

#[export] Instance transport_event_eq_dec : EqDecision event.
Proof. solve_decision. Defined.

(** Without a resize, slots are stable: the map loses the nodes at the slots. *)
Lemma delete_slots_ok (m : event_map) slots :
  map_wf m -> resize_position (main m) = 0 -> NoDup slots ->
  (forall i, i ∈ slots -> in_range (main m) i /\ is_Some (node_at (main m) i)) ->
  exists m', delete_slots m slots = Done m' /\ map_wf m' /\ resize_position (main m') = 0
    /\ n_buckets (main m') = n_buckets (main m)
    /\ forall j, in_range (main m) j -> node_at (main m') j = if decide (j ∈ slots) then None else node_at (main m) j.
Proof.
  revert m. induction slots as [|i slots IH]; intros m Hm Hz Hnd Hs.
  - exists m. cbn [delete_slots]. split_and!; auto.
  - apply NoDup_cons in Hnd as [Hi Hnd]. destruct (Hs i ltac:(left)) as [Hr [a Ha]].
    destruct (del_spec m i a Hm Hr Ha) as (m1 & E1 & Hm1 & _ & _).
    assert (E1' : simple_map_del m i = Done (SimpleMap (del_slot (main m) i) (shadow m))).
    { unfold simple_map_del. unfold in_range in Hr.
      rewrite (proj2 (Z.eqb_neq i _)), (proj2 (Z.leb_le 0 i)), (proj2 (Z.ltb_lt i _)) by lia. cbn [andb negb].
      rewrite node_at_exist, Ha by (auto; apply Hm). rewrite bool_decide_true by eauto. cbn [negb main shadow].
      change (resize_position (del_slot (main m) i)) with (resize_position (main m)). rewrite Hz. reflexivity. }
    rewrite E1' in E1. injection E1 as <-. set (m1 := SimpleMap (del_slot (main m) i) (shadow m)) in *.
    pose proof (del_slot_result (main m) i a (mi_main _ _ Hm) Hr Ha) as Hd.
    change (del_slot (main m) i) with (main m1) in Hd.
    destruct (IH m1 Hm1 Hz Hnd) as (m' & E & Hm' & Hz' & Hn & Hj).
    { intros j Hj. destruct (Hs j ltac:(by right)) as [Hjr Hja]. split; [exact Hjr|].
      rewrite (dr_other _ _ _ _ Hd) by (auto; intros ->; contradiction). exact Hja. }
    exists m'. cbn [delete_slots]. rewrite E1', bind_done. split_and!; auto.
    intros j Hjr. rewrite Hj by exact Hjr. destruct (decide (j = i)) as [->|N].
    + rewrite decide_False, decide_True by (auto; left). apply (dr_node _ _ _ _ Hd).
    + rewrite (dr_other _ _ _ _ Hd) by auto.
      destruct (decide (j ∈ slots)); [rewrite decide_True by (by right)|rewrite decide_False]; auto.
      intros [->|?]%elem_of_cons; contradiction.
Qed.

(** The occupied slots, in order, and their nodes. *)
Lemma foreach_occupied (h : table event) i :
  table_wf h -> i ∈ simple_map_foreach h <-> in_range h i /\ is_Some (node_at h i).
Proof.
  intros Hwf. pose proof (wf_pos h Hwf). rewrite foreach_slots by lia.
  rewrite list_elem_of_filter, elem_of_seqZ. unfold in_range. split.
  - intros [He Hr]. split; [lia|]. rewrite node_at_exist in He by (auto; unfold in_range; lia).
    by apply bool_decide_eq_true in He.
  - intros [Hr Ha]. split; [|lia]. rewrite node_at_exist by (auto; unfold in_range; lia). by apply bool_decide_eq_true.
Qed.

Lemma foreach_NoDup (h : table event) : table_wf h -> NoDup (simple_map_foreach h).
Proof. intros Hwf. pose proof (wf_pos h Hwf). rewrite foreach_slots by lia. apply NoDup_filter, NoDup_seqZ. Qed.

Lemma foreach_nodes (h : table event) : table_wf h -> omap (node_at h) (simple_map_foreach h) = nodes h.
Proof.
  intros Hwf. pose proof (wf_pos h Hwf). rewrite foreach_slots by lia. unfold nodes.
  assert (Hl : forall i, i ∈ seqZ 0 (n_buckets h) -> in_range h i).
  { intros i. rewrite elem_of_seqZ. unfold in_range. lia. }
  revert Hl. generalize (seqZ 0 (n_buckets h)) as l. induction l as [|i l IH]; intros Hl; [reflexivity|].
  rewrite filter_cons. pose proof (node_at_exist h i Hwf ltac:(apply Hl; left)) as E.
  specialize (IH ltac:(intros; apply Hl; by right)). cbn [omap list_omap].
  destruct (node_at h i) as [a|] eqn:Ha.
  - rewrite decide_True by (rewrite E; reflexivity). cbn [omap list_omap]. rewrite Ha. f_equal. exact IH.
  - rewrite decide_False by (rewrite E; discriminate). exact IH.
Qed.

(** [keeps m m' lost]: [m'] has the events of [m] but those of [lost]. *)
Definition keeps (m m' : event_map) (lost : list event) : Prop :=
  map_contents m' = filter (fun kv => kv.2 ∉ lost) (map_contents m).

Lemma delete_slots_keeps (m : event_map) slots :
  map_wf m -> resize_position (main m) = 0 -> slots `sublist_of` simple_map_foreach (main m) ->
  exists m', delete_slots m slots = Done m' /\ map_wf m' /\ resize_position (main m') = 0
    /\ keeps m m' (omap (node_at (main m)) slots).
Proof.
  intros Hm Hz Hsub. pose proof (mi_main _ _ Hm) as Hwf.
  assert (Hs : forall i, i ∈ slots -> in_range (main m) i /\ is_Some (node_at (main m) i)).
  { intros i Hi. apply foreach_occupied; [exact Hwf|]. by eapply sublist_subseteq. }
  destruct (delete_slots_ok m slots Hm Hz ltac:(eapply sublist_NoDup; [apply foreach_NoDup, Hwf|exact Hsub]) Hs)
    as (m' & E & Hm' & Hz' & Hn & Hj).
  exists m'. split_and!; auto. unfold keeps, map_contents. apply map_eq. intros key. apply option_eq. intros x.
  rewrite map_lookup_filter_Some. cbn [snd]. rewrite !contents_has by (auto; apply Hm').
  split.
  - intros (j & Hr & Hx & Hk). unfold in_range in Hr. rewrite Hn in Hr. rewrite Hj in Hx by exact Hr.
    case_decide as Hd; [discriminate|]. split; [exists j; auto|].
    rewrite list_elem_of_omap. intros (j' & Hj' & Hx').
    assert (j' = j) as -> by (eapply (wf_unique _ Hwf); eauto; apply Hs; auto). contradiction.
  - intros [(j & Hr & Hx & Hk) Hno]. exists j. rewrite Hj by exact Hr.
    split_and!; [unfold in_range in *; by rewrite Hn| |exact Hk].
    rewrite decide_False; [exact Hx|]. intros Hd. apply Hno. rewrite list_elem_of_omap. eauto.
Qed.

(** ** The loops over the events *)

Section Loops.
Context {R : Type} `{UringLaws R}.
Implicit Types (r : R).

(** The entries that cancel the given events. *)
Definition cancels (l : list event) : list io_uring_sqe := (fun e => cancel_entry (te_data e)) <$> l.

(** [took r r' l]: [r'] is [r] with the cancellations of [l] prepared. *)
Record took r r' (l : list event) : Prop := {
  tk_prepared : prepared r' = prepared r ++ cancels l;
  tk_submitted : submitted r' = submitted r;
  tk_space : sq_space_left r' = sq_space_left r - Z.of_nat (length l);
}.

Lemma took_nil r : took r r [].
Proof. split; cbn; [by rewrite app_nil_r|reflexivity|lia]. Qed.

Lemma took_cons r r1 r' e l :
  get_sqe r = Some r1 -> took (write_sqe r1 (cancel_entry (te_data e))) r' l -> took r r' (e :: l).
Proof.
  intros E [T1 T2 T3]. destruct (get_sqe_write r r1 (cancel_entry (te_data e)) E) as (P1 & P2 & _ & P3). split.
  - rewrite T1, P1, <- app_assoc. reflexivity.
  - congruence.
  - rewrite T3, P3. cbn [length]. lia.
Qed.

Lemma get_sqe_some r : 0 < sq_space_left r -> exists r', get_sqe r = Some r'.
Proof. intros Hs. apply get_sqe_space in Hs as [r' E]. eauto. Qed.

Lemma get_sqe_none r : sq_space_left r <= 0 -> get_sqe r = None.
Proof. intros Hs. destruct (get_sqe r) eqn:E; [|reflexivity]. pose proof (proj1 (get_sqe_space r) ltac:(eauto)). lia. Qed.

(** Slots that hold events, and fit into the array of the slots to delete. *)
Definition occupied (h : table event) (slots : list Z) : Prop := forall i, i ∈ slots -> is_Some (node_at h i).

Lemma occupied_cons h i slots :
  occupied h (i :: slots) -> exists e, node_at h i = Some e /\ node h i = Done e /\ occupied h slots.
Proof.
  intros Ho. destruct (Ho i ltac:(left)) as [e He]. exists e. split_and!; auto using node_at_node.
  intros j Hj. apply Ho. by right.
Qed.

(** The slots of a list whose events satisfy [P]. *)
Definition matching (h : table event) (P : event -> bool) (slots : list Z) : list Z :=
  filter (fun i => from_option P false (node_at h i) = true) slots.

Lemma matching_cons h P i slots e :
  node_at h i = Some e -> matching h P (i :: slots) = if P e then i :: matching h P slots else matching h P slots.
Proof.
  intros He. unfold matching. rewrite filter_cons, He. cbn [from_option].
  destruct (P e); [rewrite decide_True by reflexivity|rewrite decide_False by discriminate]; reflexivity.
Qed.

Lemma length_matching h P slots : (length (matching h P slots) <= length slots)%nat.
Proof. apply length_filter. Qed.

Lemma matching_nodes h P slots :
  occupied h slots -> omap (node_at h) (matching h P slots) = filter (fun e => P e = true) (omap (node_at h) slots).
Proof.
  induction slots as [|i slots IH]; intros Ho; [reflexivity|].
  destruct (occupied_cons h i slots Ho) as (e & He & _ & Ho'). rewrite (matching_cons h P i slots e He).
  cbn [omap list_omap]. rewrite He, filter_cons. destruct (P e) eqn:Pe.
  - rewrite decide_True by reflexivity. cbn [omap list_omap]. rewrite He. f_equal. apply IH, Ho'.
  - rewrite decide_False by discriminate. apply IH, Ho'.
Qed.

Lemma matching_length_nodes h P slots :
  occupied h slots -> length (omap (node_at h) (matching h P slots)) = length (matching h P slots).
Proof.
  induction slots as [|i slots IH]; intros Ho; [reflexivity|].
  destruct (occupied_cons h i slots Ho) as (e & He & _ & Ho'). rewrite (matching_cons h P i slots e He).
  destruct (P e); [|auto]. cbn [omap list_omap]. rewrite He. cbn [length]. auto.
Qed.

Lemma push_slot_ok bound l i : Z.of_nat (length l) < bound -> push_slot bound l i = Done (l ++ [i]).
Proof. intros Hl. unfold push_slot. by rewrite (proj2 (Z.ltb_lt _ _)). Qed.

Lemma cancel_loop_spec h fd r acc slots :
  occupied h slots -> Z.of_nat (length acc + length slots) <= SimpleMap.size h ->
  let hits := matching h (fun e => te_fd e =? fd) slots in
  if Z.of_nat (length hits) <=? Z.max 0 (sq_space_left r)
  then exists r', cancel_loop h fd r acc slots = Done (inl (r', acc ++ hits)) /\ took r r' (omap (node_at h) hits)
  else exists r', cancel_loop h fd r acc slots = Done (inr r')
         /\ took r r' (take (Z.to_nat (sq_space_left r)) (omap (node_at h) hits)).
Proof.
  revert r acc. induction slots as [|i slots IH]; intros r acc Ho Hb hits; subst hits.
  - cbn [matching filter list_filter length]. rewrite (proj2 (Z.leb_le _ _)) by lia.
    exists r. cbn. rewrite app_nil_r. split; [reflexivity|apply took_nil].
  - destruct (occupied_cons h i slots Ho) as (e & He & En & Ho'). cbn [cancel_loop]. rewrite En, bind_done.
    rewrite (matching_cons h _ i slots e He). cbn [length] in Hb. destruct (te_fd e =? fd) eqn:Ef.
    + destruct (Z.le_gt_cases (sq_space_left r) 0) as [Hs|Hs].
      * rewrite (get_sqe_none r Hs). rewrite (proj2 (Z.leb_gt _ _)) by (cbn [length]; lia).
        exists r. split; [reflexivity|]. rewrite (to_nat_nonpos (sq_space_left r)) by lia. apply took_nil.
      * destruct (get_sqe_some r Hs) as [r1 E1]. rewrite E1, push_slot_ok, bind_done by lia.
        specialize (IH (write_sqe r1 (cancel_entry (te_data e))) (acc ++ [i]) Ho').
        rewrite (space_write r r1 _ E1), length_app in IH. cbn [length] in IH. specialize (IH ltac:(lia)).
        cbn [length omap list_omap]. rewrite He.
        replace (Z.of_nat (S (length (matching h (fun e => te_fd e =? fd) slots))) <=? Z.max 0 (sq_space_left r))
          with (Z.of_nat (length (matching h (fun e => te_fd e =? fd) slots)) <=? Z.max 0 (sq_space_left r - 1))
          by (destruct (Z.leb_spec (Z.of_nat (length (matching h (fun e => te_fd e =? fd) slots))) (Z.max 0 (sq_space_left r - 1)));
              destruct (Z.leb_spec (Z.of_nat (S (length (matching h (fun e => te_fd e =? fd) slots)))) (Z.max 0 (sq_space_left r))); lia).
        destruct (_ <=? _); destruct IH as (r' & E & T); exists r'; rewrite E.
        -- rewrite <- app_assoc. split; [reflexivity|]. eapply took_cons; eauto.
        -- split; [reflexivity|]. replace (Z.to_nat (sq_space_left r)) with (S (Z.to_nat (sq_space_left r - 1))) by lia.
           cbn [take]. eapply took_cons; eauto.
    + apply (IH r acc Ho'). lia.
Qed.

(** The events past their time, of those that have one. *)
Definition expired (now : Z) (e : event) : bool := negb (te_timeout e =? TRANSPORT_TIMEOUT_INFINITY) && timed_out now e.

Lemma timeout_loop_spec h clock now r acc slots :
  (forall k, clock k = now) -> occupied h slots -> Z.of_nat (length acc + length slots) <= SimpleMap.size h ->
  let hits := take (Z.to_nat (sq_space_left r)) (matching h (expired now) slots) in
  exists r', timeout_loop h clock r acc slots = Done (r', acc ++ hits) /\ took r r' (omap (node_at h) hits).
Proof.
  revert clock r acc. induction slots as [|i slots IH]; intros clock r acc Hc Ho Hb hits; subst hits.
  - exists r. cbn. rewrite take_nil, app_nil_r. split; [reflexivity|apply took_nil].
  - destruct (occupied_cons h i slots Ho) as (e & He & En & Ho'). cbn [timeout_loop]. rewrite En, bind_done.
    rewrite (matching_cons h _ i slots e He). cbn [length] in Hb. destruct (expired now e) eqn:Ex; unfold expired in Ex;
      destruct (te_timeout e =? TRANSPORT_TIMEOUT_INFINITY); cbn [negb andb] in Ex; try discriminate Ex.
    2: apply IH; auto; lia.
    2: rewrite Hc, Ex; apply IH; auto; lia.
    rewrite Hc, Ex.
    {
      destruct (Z.le_gt_cases (sq_space_left r) 0) as [Hs|Hs].
      * rewrite (get_sqe_none r Hs). destruct (IH (fun k => clock (S k)) r acc) as (r' & E & T); auto; [lia|].
        exists r'. rewrite E. rewrite (to_nat_nonpos (sq_space_left r)) in * by lia. auto.
      * destruct (get_sqe_some r Hs) as [r1 E1]. rewrite E1, push_slot_ok, bind_done by lia.
        destruct (IH (fun k => clock (S k)) (write_sqe r1 (cancel_entry (te_data e))) (acc ++ [i])) as (r' & E & T); auto.
        { rewrite length_app. cbn [length]. lia. }
        rewrite (space_write r r1 _ E1) in *. exists r'. rewrite E, <- app_assoc.
        replace (Z.to_nat (sq_space_left r)) with (S (Z.to_nat (sq_space_left r - 1))) by lia.
        cbn [take app omap list_omap]. rewrite He. split; [reflexivity|]. eapply took_cons; eauto. }
Qed.

End Loops.

(** ** Requests *)

Inductive request :=
| Write (fd buffer_id offset timeout event flags : Z)
| Read (fd buffer_id offset timeout event flags : Z)
| Send (fd buffer_id : Z) (address : list Z) (family message_flags timeout event flags : Z)
| Receive (fd buffer_id family message_flags timeout event flags : Z)
| Connect_to (client : transport_client) (timeout : Z)
| Accept_on (server : transport_server).

Section Requests.
Context {R : Type} `{UringLaws R} (ring_full : Events.event).
Implicit Types (t : transport (R := R)) (req : request).

Definition run_request (time : Z) t req : outcome (Z * option Events.event * transport (R := R)) :=
  match req with
  | Write fd buffer_id offset timeout event flags =>
      transport_write ring_full time t fd buffer_id offset timeout event flags
  | Read fd buffer_id offset timeout event flags =>
      transport_read ring_full time t fd buffer_id offset timeout event flags
  | Send fd buffer_id address family message_flags timeout event flags =>
      transport_send_message ring_full time t fd buffer_id address family message_flags timeout event flags
  | Receive fd buffer_id family message_flags timeout event flags =>
      transport_receive_message ring_full time t fd buffer_id family message_flags timeout event flags
  | Connect_to client timeout => transport_connect ring_full time t client timeout
  | Accept_on server => transport_accept ring_full time t server
  end.

(** The descriptor, buffer, event, timeout and flags of a request. *)
Definition request_parts req : Z * Z * Z * Z * Z :=
  match req with
  | Write fd b _ timeout event flags | Read fd b _ timeout event flags
  | Send fd b _ _ _ timeout event flags | Receive fd b _ _ timeout event flags => (fd, b, event, timeout, flags)
  | Connect_to c timeout => (client_fd c, 0, Z.lor TRANSPORT_EVENT_CONNECT TRANSPORT_EVENT_CLIENT, timeout, 0)
  | Accept_on s => (server_fd s, 0, Z.lor TRANSPORT_EVENT_ACCEPT TRANSPORT_EVENT_SERVER, TRANSPORT_TIMEOUT_INFINITY, 0)
  end.
Definition request_key req : Z := let '(fd, b, event, _, _) := request_parts req in request_data (u32 fd) b event.
Definition pending_event (time : Z) req : simple_map_transport_event :=
  let '(fd, _, _, timeout, _) := request_parts req in TransportEvent (request_key req) timeout (u64 time) (i32 fd).

(** What the kernel is asked to do. *)
Definition request_operation t req : operation :=
  let buffer b := default (Iovec 0 [] 0) (transport_buffers t !! Z.to_nat b) in
  match req with
  | Write fd b offset _ _ _ => Write_fixed (i32 fd) (iov_base (buffer b)) (u32 (iov_len (buffer b))) offset b
  | Read fd b offset _ _ _ => Read_fixed (i32 fd) (iov_base (buffer b)) (u32 (iov_len (buffer b))) offset b
  | Send fd b _ family message_flags _ _ _ => Sendmsg (i32 fd) family b (u32 message_flags)
  | Receive fd b family message_flags _ _ _ => Recvmsg (i32 fd) family b (u32 message_flags)
  | Connect_to c _ => Connect (client_fd c) (client_family c) (client_address_length c)
  | Accept_on s => Accept (server_fd s) (server_family s) (server_address_length s)
  end.

(** A request of the Dart side: the buffer exists, the family is one of the two,
    the address of a message can be read and fits. *)
Definition message_exists t (family b : Z) : Prop :=
  (family = TRANSPORT_SOCKET_FAMILY_INET /\ is_Some (inet_used_messages t !! Z.to_nat b))
  \/ (family = TRANSPORT_SOCKET_FAMILY_UNIX /\ is_Some (unix_used_messages t !! Z.to_nat b)).
Definition address_ok (family : Z) (address : list Z) : Prop :=
  if family =? TRANSPORT_SOCKET_FAMILY_INET then sizeof_sockaddr_in <= Z.of_nat (length address)
  else exists n, SUN_LEN address = Done n /\ n <= Z.of_nat (length address) /\ n <= sizeof_sockaddr_un.
Definition request_ok t req : Prop :=
  let '(_, b, event, _, _) := request_parts req in
  0 <= b < 2 ^ 16 /\ 0 <= event < 2 ^ 16
  /\ match req with
     | Write fd b _ _ _ _ | Read fd b _ _ _ _ => 0 <= fd < 2 ^ 32 /\ is_Some (transport_buffers t !! Z.to_nat b)
     | Send fd b address family _ _ _ _ => 0 <= fd < 2 ^ 32 /\ message_exists t family b /\ address_ok family address
     | Receive fd b family _ _ _ _ => 0 <= fd < 2 ^ 32 /\ message_exists t family b
     | Connect_to _ _ | Accept_on _ => True
     end.

(** The events are well-formed, each is pending under its own data, which carries
    its descriptor, and the messages have names of their sizes. *)
Record transport_wf t : Prop := {
  tw_events : map_wf (transport_events t);
  tw_data data e : map_contents (transport_events t) !! data = Some e ->
    0 <= data < 2 ^ 64 /\ te_data e = data /\ data_fd data = u32 (te_fd e);
  tw_inet : Forall (fun m => Z.of_nat (length (msg_name m)) = sizeof_sockaddr_in /\ msg_namelen m = sizeof_sockaddr_in)
              (inet_used_messages t);
  tw_unix : Forall (fun m => Z.of_nat (length (msg_name m)) = sizeof_sockaddr_un) (unix_used_messages t);
}.

Lemma u32_i32 x : u32 (i32 x) = u32 x.
Proof.
  unfold wrap, swrap. change (32 - 1) with 31. rewrite <- (Zminus_mod_idemp_l), Zmod_mod, Zminus_mod_idemp_l. f_equal. lia.
Qed.

Lemma request_key_parts t req :
  request_ok t req -> 0 <= request_key req < 2 ^ 64 /\ data_fd (request_key req) = u32 (te_fd (pending_event 0 req)).
Proof.
  unfold request_ok, request_key, pending_event. destruct (request_parts req) as [[[[fd b] event] timeout] flags].
  intros (Hb & He & _). destruct (data_parts (u32 fd) b event ltac:(apply wrap_bound; lia) Hb He) as (Hd & Hf & _).
  split; [exact Hd|]. rewrite Hf. cbn [te_fd]. symmetry. apply u32_i32.
Qed.

(** [t'] is [t] with other messages, well-formed ones. *)
Definition same_but_messages t t' : Prop :=
  transport_wf t' /\ transport_events t' = transport_events t /\ transport_executor t' = transport_executor t
  /\ transport_buffers t' = transport_buffers t.

(** The end of every request. *)
Lemma request_tail time t t1 r req e fd data timeout :
  transport_wf t -> growable (transport_events t) -> same_but_messages t t1 ->
  get_sqe (ring (transport_executor t)) = Some r -> request_ok t req ->
  data = request_key req -> TransportEvent data timeout (u64 time) (i32 fd) = pending_event time req ->
  exists t', (t2 ← transport_add_event time (with_transport_ring t1 (write_sqe r e)) fd data timeout; Done (0, None, t2))
      = Done (0, @None Events.event, t')
    /\ transport_wf t' /\ entries (ring (transport_executor t')) = entries (ring (transport_executor t)) ++ [e]
    /\ map_contents (transport_events t') = <[request_key req := pending_event time req]> (map_contents (transport_events t)).
Proof.
  intros Ht Hg (Ht1 & Ev & Ex & _) Er Hok Hd Hp. unfold transport_add_event.
  cbn [transport_events with_transport_ring]. rewrite Hp, Ev.
  destruct (put_spec (transport_events t) (pending_event time req) (tw_events _ Ht) Hg) as (x & m' & -> & Hm' & Hc & _).
  rewrite !bind_done. eexists. split; [reflexivity|].
  assert (Hk : key_of (pending_event time req) = request_key req) by (rewrite <- Hp; exact Hd).
  rewrite Hk in Hc. split_and!; [|by apply entries_write|exact Hc].
  destruct Ht1 as [_ _ W3 W4]. split; cbn [transport_events with_events inet_used_messages unix_used_messages with_transport_ring]; auto.
  intros data' e'. rewrite Hc, lookup_insert_Some. intros [[<- <-]|[_ He']].
  - destruct (request_key_parts t req Hok) as [Hr Hf]. split_and!; [lia|lia|rewrite <- Hp; exact Hd|].
    rewrite Hf. unfold pending_event. by destruct (request_parts req) as [[[[? ?] ?] ?] ?].
  - apply Ht. exact He'.
Qed.

Lemma copy_bytes_ok dst src n :
  0 <= n <= Z.of_nat (length src) -> n <= Z.of_nat (length dst) ->
  exists l, copy_bytes dst src n = Done l /\ length l = length dst.
Proof.
  intros Hs Hd. unfold copy_bytes. rewrite !(proj2 (Z.leb_le _ _)) by lia. eexists. split; [reflexivity|].
  rewrite length_app, length_take, length_drop. lia.
Qed.

Lemma clear_name_ok name n :
  0 <= n <= Z.of_nat (length name) -> exists l, clear_name name n = Done l /\ length l = length name.
Proof.
  intros Hn. unfold clear_name. rewrite (proj2 (Z.leb_le _ _)) by lia. eexists. split; [reflexivity|].
  rewrite length_app, length_replicate, length_drop. lia.
Qed.

Lemma string_length_nonneg l n : string_length l = Done n -> 0 <= n.
Proof.
  revert n. induction l as [|b l IH]; intros n; cbn [string_length]; [discriminate|].
  case_match; [intros [= <-]; lia|]. intros (k & Hk & [= <-])%outcome_bind_done. specialize (IH k Hk). lia.
Qed.

(** Storing a message with a name of its size. *)
Lemma store_inet_ok t b name iov n1 n2 n3 :
  transport_wf t -> Z.of_nat (length name) = sizeof_sockaddr_in ->
  same_but_messages t (with_messages t (store_message (inet_used_messages t) b (Msghdr name sizeof_sockaddr_in iov n1 n2 n3))
                         (unix_used_messages t)).
Proof. intros [W1 W2 W3 W4] Hn. split_and!; auto. split; auto. apply Forall_insert; auto. Qed.

Lemma store_unix_ok t b name len iov n1 n2 n3 :
  transport_wf t -> Z.of_nat (length name) = sizeof_sockaddr_un ->
  same_but_messages t (with_messages t (inet_used_messages t)
                         (store_message (unix_used_messages t) b (Msghdr name len iov n1 n2 n3))).
Proof. intros [W1 W2 W3 W4] Hn. split_and!; auto. split; auto. apply Forall_insert; auto. Qed.

Lemma same_messages_refl t : transport_wf t -> same_but_messages t t.
Proof. intros. split_and!; auto. Qed.

Lemma request_runs time t r req :
  transport_wf t -> growable (transport_events t) -> request_ok t req ->
  get_sqe (ring (transport_executor t)) = Some r ->
  exists t', run_request time t req = Done (0, None, t') /\ transport_wf t'
    /\ entries (ring (transport_executor t')) = entries (ring (transport_executor t))
         ++ [Sqe (request_operation t req) (request_key req) (request_parts req).2]
    /\ map_contents (transport_events t') = <[request_key req := pending_event time req]> (map_contents (transport_events t)).
Proof.
  intros Ht Hg Hok Er. pose proof (fun t1 e fd data timeout H => request_tail time t t1 r req e fd data timeout Ht Hg H Er Hok) as G.
  unfold run_request, pending_event, request_key, request_operation, request_ok in *.
  destruct req as [fd b offset timeout event flags|fd b offset timeout event flags
    |fd b address family mflags timeout event flags|fd b family mflags timeout event flags|c timeout|s]; cbn [request_parts snd] in *.
  - destruct Hok as (_ & _ & Hfd & [buffer Hb]). unfold transport_write. rewrite Er, Hb. cbn [demand default from_option]. rewrite bind_done.
    rewrite (wrap_small 32 fd) in * by lia. apply (G t); auto using same_messages_refl.
  - destruct Hok as (_ & _ & Hfd & [buffer Hb]). unfold transport_read. rewrite Er, Hb. cbn [demand default from_option]. rewrite bind_done.
    rewrite (wrap_small 32 fd) in * by lia. apply (G t); auto using same_messages_refl.
  - destruct Hok as (Hb & _ & Hfd & Hm & Ha). unfold transport_send_message. rewrite Er. rewrite (wrap_small 32 fd) in * by lia.
    destruct Hm as [[-> [m Hm]]|[-> [m Hm]]]; cbn [Z.eqb TRANSPORT_SOCKET_FAMILY_INET TRANSPORT_SOCKET_FAMILY_UNIX address_ok] in *; rewrite Hm.
    + destruct (proj1 (Forall_lookup _ _) (tw_inet _ Ht) _ _ Hm) as [Hl Hn].
      destruct (copy_bytes_ok (msg_name m) address (msg_namelen m)) as (name & En & Hlen); [rewrite Hn; unfold sizeof_sockaddr_in in *; lia..|].
      cbn [demand]. rewrite bind_done, En, bind_done, ?Hn, ?bind_done. apply G; auto. apply store_inet_ok; auto. lia.
    + pose proof (proj1 (Forall_lookup _ _) (tw_unix _ Ht) _ _ Hm) as Hl. cbn beta in Hl.
      destruct Ha as (len & Elen & Hs & Hd).
      destruct (copy_bytes_ok (msg_name m) address len) as (name & En & Hlen); [|lia|].
      { split; [|lia]. unfold SUN_LEN in Elen. apply outcome_bind_done in Elen as (k & Hk & [= <-]).
        apply string_length_nonneg in Hk. lia. }
      cbn [demand]. rewrite bind_done, Elen, bind_done, En, ?bind_done. apply G; auto. apply store_unix_ok; auto. lia.
  - destruct Hok as (Hb & _ & Hfd & Hm). unfold transport_receive_message. rewrite Er. rewrite (wrap_small 32 fd) in * by lia.
    destruct Hm as [[-> [m Hm]]|[-> [m Hm]]]; cbn [Z.eqb TRANSPORT_SOCKET_FAMILY_INET TRANSPORT_SOCKET_FAMILY_UNIX] in *; rewrite Hm.
    + destruct (proj1 (Forall_lookup _ _) (tw_inet _ Ht) _ _ Hm) as [Hl Hn].
      destruct (clear_name_ok (msg_name m) sizeof_sockaddr_in) as (name & En & Hlen); [unfold sizeof_sockaddr_in in *; lia|].
      cbn [demand]. rewrite bind_done, En, ?bind_done. apply G; auto. apply store_inet_ok; auto. lia.
    + pose proof (proj1 (Forall_lookup _ _) (tw_unix _ Ht) _ _ Hm) as Hl. cbn beta in Hl.
      destruct (clear_name_ok (msg_name m) sizeof_sockaddr_un) as (name & En & Hlen); [unfold sizeof_sockaddr_un in *; lia|].
      cbn [demand]. rewrite bind_done, En, ?bind_done. apply G; auto. apply store_unix_ok; auto. lia.
  - unfold transport_connect. rewrite Er, signed_data. apply G; auto using same_messages_refl.
  - unfold transport_accept. rewrite Er, signed_data. apply G; auto using same_messages_refl.
Qed.

(** ** The properties *)

(** C32: the data of a request comes back from its completion: the Dart side finds
    the descriptor, the buffer and the event it was made of, whatever the signs,
    and hands the result to the client, the server, the connection or the file that
    made the request. *)
Theorem transport_completion_dispatch fd buffer_id kind result :
  0 <= fd < 2 ^ 32 -> 0 <= buffer_id < 2 ^ 16 ->
  kind ∈ [TRANSPORT_EVENT_READ; TRANSPORT_EVENT_WRITE; TRANSPORT_EVENT_RECEIVE_MESSAGE; TRANSPORT_EVENT_SEND_MESSAGE] ->
  let data owner := request_data fd buffer_id (Z.lor kind owner) in
  (forall owner, owner ∈ [TRANSPORT_EVENT_CLIENT; TRANSPORT_EVENT_SERVER; TRANSPORT_EVENT_FILE] ->
     0 <= data owner < 2 ^ 64 /\ data_fd (data owner) = fd /\ data_buffer (data owner) = buffer_id
     /\ data_event (data owner) = Z.lor kind owner)
  /\ process (data TRANSPORT_EVENT_CLIENT) result = Client_data fd buffer_id result kind
  /\ process (data TRANSPORT_EVENT_FILE) result = File_data fd buffer_id result kind
  /\ process (data TRANSPORT_EVENT_SERVER) result =
       (if kind <=? TRANSPORT_EVENT_WRITE then Server_connection else Server_datagram) fd buffer_id result kind
  /\ (forall c timeout, process (request_key (Connect_to c timeout)) result = Client_connect (u32 (client_fd c)) result)
  /\ (forall s, process (request_key (Accept_on s)) result = Server_accept (u32 (server_fd s)) result).
Proof.
  intros Hf Hb Hk data.
  assert (Hr : forall x owner, x ∈ [1; 2; 4; 8] -> owner ∈ [64; 256; 128] -> 0 <= Z.lor x owner < 2 ^ 16).
  { intros x owner Hx Ho. rewrite !list_elem_of_In in Hx, Ho. cbn in Hx, Ho.
    destruct Hx as [<-|[<-|[<-|[<-|[]]]]], Ho as [<-|[<-|[<-|[]]]]; split; vm_compute; congruence. }
  split; [intros owner Ho; apply data_parts; auto|]. unfold process, request_key. cbn [request_parts].
  assert (Hu : forall x, 0 <= u32 x < 2 ^ 32) by (intros; apply wrap_bound; lia).
  split_and!; [| | |intros c timeout|intros s].
  1-3: unfold data; destruct (data_parts fd buffer_id (Z.lor kind TRANSPORT_EVENT_CLIENT) Hf Hb) as (_ & E1 & E2 & E3);
    destruct (data_parts fd buffer_id (Z.lor kind TRANSPORT_EVENT_FILE) Hf Hb) as (_ & F1 & F2 & F3);
    destruct (data_parts fd buffer_id (Z.lor kind TRANSPORT_EVENT_SERVER) Hf Hb) as (_ & G1 & G2 & G3);
    try (apply Hr; [exact Hk|apply list_elem_of_In; cbn; auto]);
    rewrite ?E1, ?E2, ?E3, ?F1, ?F2, ?F3, ?G1, ?G2, ?G3;
    apply list_elem_of_In in Hk; destruct Hk as [<-|[<-|[<-|[<-|[]]]]]; reflexivity.
  all: match goal with |- context [request_data ?a 0 ?e] =>
    destruct (data_parts a 0 e (Hu _) ltac:(lia) ltac:(split; vm_compute; congruence)) as (_ & E1 & E2 & E3) end;
    rewrite E1, E2, E3; reflexivity.
Qed.

(** C31: a request for which the ring has an entry is accepted: exactly one entry is
    prepared, after the others, with the operation, the data and the flags of the
    request, and the event is pending under that data, with its timeout and the
    time; when the ring is full it is refused with the error of the module and
    nothing changes.  The invariant of the transport is kept. *)
Theorem transport_requests_tracked time t req :
  transport_wf t -> growable (transport_events t) -> request_ok t req ->
  if sq_space_left (ring (transport_executor t)) <=? 0
  then run_request time t req = Done (MODULE_ERROR_CODE, Some ring_full, t)
  else exists t', run_request time t req = Done (0, None, t') /\ transport_wf t'
    /\ entries (ring (transport_executor t')) = entries (ring (transport_executor t))
         ++ [Sqe (request_operation t req) (request_key req) (request_parts req).2]
    /\ map_contents (transport_events t') = <[request_key req := pending_event time req]> (map_contents (transport_events t)).
Proof.
  intros Ht Hg Hok. destruct (Z.leb_spec (sq_space_left (ring (transport_executor t))) 0) as [Hs|Hs].
  - pose proof (get_sqe_none _ Hs) as Hn. destruct req; cbn [run_request];
      unfold transport_write, transport_read, transport_send_message, transport_receive_message, transport_connect, transport_accept;
      rewrite Hn; reflexivity.
  - destruct (get_sqe_some _ Hs) as [r Er]. apply (request_runs time t r req Ht Hg Hok Er).
Qed.

(** What is left of the events. *)
Lemma wf_with_events t r m lost :
  transport_wf t -> map_wf m -> keeps (transport_events t) m lost ->
  transport_wf (with_executor (with_events (with_transport_ring t r) m) (executor_submit (with_ring (transport_executor t) r))).
Proof.
  intros [W1 W2 W3 W4] Hm Hk. split; cbn [transport_events with_executor with_events]; auto.
  intros data e. rewrite Hk, map_lookup_filter_Some. intros [He _]. by apply W2.
Qed.

(** What the executor's ring holds after the submission. *)
Lemma submit_took (e : executor_instance (R := R)) r l :
  took (ring e) r l ->
  entries (ring (executor_submit (with_ring e r))) = entries (ring e) ++ cancels l
  /\ (state e = EXECUTOR_STATE_IDLE -> prepared (ring (executor_submit (with_ring e r))) = []).
Proof.
  intros [T1 T2 T3].
  assert (E : entries r = entries (ring e) ++ cancels l) by (unfold entries; rewrite T1, T2; apply app_assoc).
  unfold executor_submit, executor_need_submit. cbn [state with_ring]. split.
  - case_match; cbn [ring with_ring]; [rewrite entries_submit|]; exact E.
  - intros Hi. replace (negb _) with true by (rewrite Hi; reflexivity). apply prepared_submit.
Qed.

Lemma occupied_foreach (m : event_map) : map_wf m -> occupied (main m) (simple_map_foreach (main m)).
Proof. intros Hm i Hi. by apply foreach_occupied in Hi as [_ Hi]; [|apply Hm]. Qed.

Lemma foreach_room (m : event_map) :
  map_wf m -> Z.of_nat (length ([] : list Z) + length (simple_map_foreach (main m))) <= SimpleMap.size (main m).
Proof.
  intros Hm. rewrite <- length_nodes, <- foreach_nodes by apply Hm. cbn [length Nat.add]. apply Nat2Z.inj_le.
  generalize (occupied_foreach m Hm). generalize (simple_map_foreach (main m)) as l.
  induction l as [|i l IH]; intros Ho; [cbn; lia|]. destruct (occupied_cons _ _ _ Ho) as (e & He & _ & Ho').
  cbn [omap list_omap length]. rewrite He. cbn [length]. specialize (IH Ho'). lia.
Qed.

Lemma omap_take (h : table event) k slots : occupied h slots -> omap (node_at h) (take k slots) = take k (omap (node_at h) slots).
Proof.
  revert k. induction slots as [|i slots IH]; intros k Ho; [by destruct k|].
  destruct (occupied_cons h i slots Ho) as (e & He & _ & Ho'). destruct k; [reflexivity|].
  cbn [take omap list_omap]. rewrite He. cbn [take]. f_equal. apply IH, Ho'.
Qed.

Lemma occupied_matching (h : table event) P slots : occupied h slots -> occupied h (matching h P slots).
Proof. unfold matching. intros Ho i Hi. apply list_elem_of_filter in Hi as [_ Hi]. by apply Ho. Qed.

(** Cancelling a descriptor, while the map of events is not being resized,
    prepares one cancellation for each pending event of the descriptor, in the
    order of the slots, forgets exactly these events, and submits if the executor
    is idle; if the ring has not room for all of them it reports the error with
    as many prepared as there was room for and forgets none. *)
Theorem transport_cancel_by_fd_removes t fd :
  transport_wf t -> resize_position (main (transport_events t)) = 0 ->
  let r := ring (transport_executor t) in
  let hits := filter (fun e => (te_fd e =? fd) = true) (nodes (main (transport_events t))) in
  if Z.of_nat (length hits) <=? Z.max 0 (sq_space_left r) then
    exists t', transport_cancel_by_fd ring_full t fd = Done (0, None, t') /\ transport_wf t'
      /\ entries (ring (transport_executor t')) = entries r ++ cancels hits
      /\ (state (transport_executor t) = EXECUTOR_STATE_IDLE -> prepared (ring (transport_executor t')) = [])
      /\ map_contents (transport_events t') = filter (fun kv => te_fd kv.2 <> fd) (map_contents (transport_events t))
  else exists t', transport_cancel_by_fd ring_full t fd = Done (MODULE_ERROR_CODE, Some ring_full, t')
      /\ entries (ring (transport_executor t')) = entries r ++ cancels (take (Z.to_nat (sq_space_left r)) hits)
      /\ transport_events t' = transport_events t.
Proof.
  intros Ht Hz r hits. pose proof (tw_events _ Ht) as Hm. pose proof (mi_main _ _ Hm) as Hwf.
  pose proof (occupied_foreach _ Hm) as Ho. unfold transport_cancel_by_fd. fold r.
  pose proof (cancel_loop_spec (main (transport_events t)) fd r [] _ Ho (foreach_room _ Hm)) as G. cbn zeta in G.
  set (slots := matching _ _ _) in G.
  assert (Eh : omap (node_at (main (transport_events t))) slots = hits)
    by (unfold slots; rewrite matching_nodes, foreach_nodes by auto; reflexivity).
  assert (El : length slots = length hits) by (rewrite <- Eh; symmetry; by apply matching_length_nodes).
  rewrite El in G. destruct (_ <=? _); destruct G as (r' & E & T); rewrite E, bind_done, ?Eh in *.
  - cbn [app]. destruct (delete_slots_keeps (transport_events t) slots Hm Hz ltac:(apply sublist_filter))
      as (m' & Em & Hm' & _ & Hk). rewrite Em, bind_done. eexists. split; [reflexivity|]. rewrite Eh in Hk.
    destruct (submit_took (transport_executor t) r' hits T) as [S1 S2]. split_and!; auto.
    + eapply wf_with_events; eauto.
    + cbn [transport_events with_executor with_events]. rewrite Hk. apply map_filter_ext. intros key e He. cbn [snd].
      unfold hits. rewrite list_elem_of_filter, Z.eqb_eq. split; [|tauto].
      intros Hno Hfd. apply Hno. split; [exact Hfd|]. apply elem_of_nodes. apply contents_has in He; [|exact Hwf].
      destruct He as (j & Hj & Hx & _). eauto.
  - eexists. split; [reflexivity|]. split; [|reflexivity]. unfold entries. cbn. destruct T as [-> -> _]. rewrite <- app_assoc. reflexivity.
Qed.

(** The check of the timeouts, while the map of events is not being resized,
    cancels and forgets the pending events past their time, in the order of the
    slots, as many as the ring has room for; the others stay for the next check.
    An event is past its time when it has a timeout and more seconds went by, or
    the clock was set back behind its start. *)
Theorem transport_check_event_timeouts_cancels clock now t :
  (forall k, clock k = now) -> transport_wf t -> resize_position (main (transport_events t)) = 0 ->
  let r := ring (transport_executor t) in
  let hits := take (Z.to_nat (sq_space_left r)) (filter (fun e => expired now e = true) (nodes (main (transport_events t)))) in
  (exists t', transport_check_event_timeouts clock t = Done t' /\ transport_wf t'
    /\ entries (ring (transport_executor t')) = entries r ++ cancels hits
    /\ (state (transport_executor t) = EXECUTOR_STATE_IDLE -> prepared (ring (transport_executor t')) = [])
    /\ map_contents (transport_events t') = filter (fun kv => kv.2 ∉ hits) (map_contents (transport_events t)))
  /\ forall e, 0 <= now < 2 ^ 63 -> 0 <= te_timestamp e < 2 ^ 63 ->
       (te_timeout e = TRANSPORT_TIMEOUT_INFINITY -> expired now e = false)
       /\ (0 <= te_timeout e < 2 ^ 63 -> expired now e = (now <? te_timestamp e) || (te_timeout e <? now - te_timestamp e)).
Proof.
  intros Hc Ht Hz r hits. split.
  - pose proof (tw_events _ Ht) as Hm. pose proof (mi_main _ _ Hm) as Hwf. pose proof (occupied_foreach _ Hm) as Ho.
    unfold transport_check_event_timeouts. fold r.
    destruct (timeout_loop_spec (main (transport_events t)) clock now r [] _ Hc Ho (foreach_room _ Hm)) as (r' & E & T).
    rewrite E, bind_done. cbn [app]. set (slots := take _ (matching _ _ _)) in *.
    assert (Eh : omap (node_at (main (transport_events t))) slots = hits).
    { unfold slots, hits. rewrite omap_take by (apply occupied_matching, Ho). by rewrite matching_nodes, foreach_nodes. }
    destruct (delete_slots_keeps (transport_events t) slots Hm Hz) as (m' & Em & Hm' & _ & Hk).
    { unfold slots. etransitivity; [apply sublist_take|apply sublist_filter]. }
    rewrite Em, bind_done. rewrite Eh in Hk, T. eexists. split; [reflexivity|].
    destruct (submit_took (transport_executor t) r' hits T) as [S1 S2]. split_and!; auto. eapply wf_with_events; eauto.
  - intros e Hn He. unfold expired, timed_out. split; [intros ->; reflexivity|]. intros Hto.
    rewrite (proj2 (Z.eqb_neq (te_timeout e) _)) by (unfold TRANSPORT_TIMEOUT_INFINITY; lia). cbn [negb andb].
    rewrite (wrap_small 64 (te_timeout e)) by lia. unfold wrap. rewrite Z.gtb_ltb.
    destruct (Z.ltb_spec now (te_timestamp e)) as [Hlt|Hge]; cbn [orb].
    + apply Z.ltb_lt. rewrite <- (Z.mod_unique _ (2 ^ 64) (-1) (now - te_timestamp e + 2 ^ 64)); lia.
    + rewrite Z.mod_small by lia. reflexivity.
Qed.

(** Processing a completion forgets the event of its data and no other, in
    every state of the map, whether the event is pending or not. *)
Theorem transport_remove_event_forgets t data :
  transport_wf t ->
  exists t', transport_remove_event t data = Done t' /\ transport_wf t'
    /\ map_contents (transport_events t') = delete data (map_contents (transport_events t))
    /\ transport_executor t' = transport_executor t.
Proof.
  intros Ht. pose proof (tw_events _ Ht) as Hm. pose proof (mi_main _ _ Hm) as Hwf.
  pose proof (main_dirty_lt 0 _ ltac:(lia) Hm). unfold transport_remove_event.
  destruct (find_spec (main (transport_events t)) data Hwf ltac:(lia)) as [(j & e & Hj & He & Hk & ->)|[Hab ->]];
    rewrite bind_done.
  - rewrite (proj2 (Z.eqb_neq j _)) by (unfold in_range in Hj; lia). cbn [negb].
    destruct (del_spec _ j e Hm Hj He) as (m' & -> & Hm' & Hc & _). rewrite bind_done. rewrite Hk in Hc.
    eexists. split; [reflexivity|]. split_and!; auto. destruct Ht as [W1 W2 W3 W4]. split; auto.
    intros data' e'. cbn [transport_events with_events]. rewrite Hc, lookup_delete_Some. intros [_ He']. by apply W2.
  - rewrite Z.eqb_refl. cbn [negb]. exists t. split_and!; auto. symmetry. apply delete_id. by apply contents_absent.
Qed.

End Requests.

(** ** The properties at work *)

Definition demo_transport : transport (R := list_ring) :=
  Transport (replicate 300 (Iovec 4096 [] 64))
    (ExecutorInstance 100 0 0 (ListRing 5 4096 [] []) (ExecutorConfiguration 4096 0) 5 1 EXECUTOR_STATE_WAKING)
    (replicate 2 (empty_message sizeof_sockaddr_in)) (replicate 2 (empty_message sizeof_sockaddr_un)) simple_map_new.
Definition no_error : Events.event := event_create 0 EmptyString EmptyString 0 (Time.Timespec 0 0).

(** Reads of clients: the descriptor 7 for the first two buffers, 8 for the others. *)
Definition demo_read (i : Z) : request := Read (if i <? 2 then 7 else 8) i 0 60 (Z.lor TRANSPORT_EVENT_READ TRANSPORT_EVENT_CLIENT) 0.
Fixpoint run_requests (time : Z) (l : list request) (t : transport (R := list_ring)) : outcome (transport (R := list_ring)) :=
  match l with
  | [] => Done t
  | req :: l => '(_, _, t) ← run_request no_error time t req; run_requests time l t
  end.
Definition pending (t : transport (R := list_ring)) (req : request) : bool :=
  match simple_map_find_value (transport_events t) (request_key req) with Done (Some _) => true | _ => false end.

Definition misses (o : outcome (transport (R := list_ring))) : bool :=
  match o with
  | Done t =>
      (0 <? resize_position (main (transport_events t)))
      && pending t (demo_read 0) && pending t (demo_read 1) && pending t (demo_read 118)
      && match transport_cancel_by_fd no_error t 7 with
         | Done (code, None, t') =>
             (code =? 0) && negb (pending t' (demo_read 0)) && pending t' (demo_read 1) && negb (pending t' (demo_read 118))
         | _ => false
         end
  | _ => false
  end.

Lemma misses_true : misses (run_requests 0 (demo_read <$> seqZ 0 273) demo_transport) = true.
Proof. vm_compute. reflexivity. Qed.

(** Cancelling a descriptor while the map of events is being resized goes wrong:
    the deletion of the first event finishes the resize, the slots collected before
    point into the old table, and what is deleted then is the event of another
    descriptor, which can no longer time out, while one that was cancelled stays. *)
Theorem transport_cancel_during_resize_misses :
  exists t t', run_requests 0 (demo_read <$> seqZ 0 273) demo_transport = Done t
    /\ 0 < resize_position (main (transport_events t))
    /\ pending t (demo_read 0) = true /\ pending t (demo_read 1) = true /\ pending t (demo_read 118) = true
    /\ transport_cancel_by_fd no_error t 7 = Done (0, None, t')
    /\ pending t' (demo_read 0) = false /\ pending t' (demo_read 1) = true /\ pending t' (demo_read 118) = false.
Proof.
  pose proof misses_true as G.
  destruct (run_requests 0 (demo_read <$> seqZ 0 273) demo_transport) as [t| | |] eqn:E; try discriminate G.
  exists t. unfold misses in G. set (after := transport_cancel_by_fd no_error t 7) in *.
rewrite !andb_true_iff in G. destruct G as [[[[G1 G2] G3] G4] G5].
  destruct after as [[[code [ev|]] t']| | |]; try discriminate G5. rewrite !andb_true_iff, !negb_true_iff in G5.
  destruct G5 as [[[G5 G6] G7] G8]. apply Z.eqb_eq in G5 as ->. apply Z.ltb_lt in G1. exists t'. split_and!; auto.
Qed.

Lemma demo_wf : transport_wf demo_transport.
Proof.
  destruct (new_spec (A := simple_map_transport_event) (K := Z)) as (Hm & Hc & _). split.
  - exact Hm.
  - intros data e. unfold demo_transport. cbn [transport_events]. rewrite Hc, lookup_empty. discriminate.
  - repeat constructor.
  - repeat constructor.
Qed.

Lemma transport_completion_dispatch_witness :
  process (request_data 7 3 (Z.lor TRANSPORT_EVENT_READ TRANSPORT_EVENT_SERVER)) (-11) = Server_connection 7 3 (-11) TRANSPORT_EVENT_READ
  /\ process (request_key (Connect_to (TransportClient 9 0 16) 5)) 0 = Client_connect 9 0.
Proof.
  destruct (transport_completion_dispatch 7 3 TRANSPORT_EVENT_READ (-11) ltac:(lia) ltac:(lia) ltac:(left)) as (_ & _ & _ & E & _).
  destruct (transport_completion_dispatch 7 3 TRANSPORT_EVENT_READ 0 ltac:(lia) ltac:(lia) ltac:(left)) as (_ & _ & _ & _ & F & _).
  split; [exact E|apply (F (TransportClient 9 0 16) 5)].
Defined.

Lemma transport_requests_tracked_witness :
  (exists t', run_request no_error 50 demo_transport (demo_read 1) = Done (0, None, t') /\ transport_wf t'
     /\ length (entries (ring (transport_executor t'))) = 1%nat)
  /\ exists t', run_request no_error 50 demo_transport (Send 9 1 (replicate 16 0) TRANSPORT_SOCKET_FAMILY_INET 0 30 72 0) = Done (0, None, t')
     /\ transport_wf t'.
Proof.
  assert (Hg : growable (transport_events demo_transport)) by (vm_compute; discriminate). split.
  - assert (Hok : request_ok demo_transport (demo_read 1)) by (cbn; split_and!; try lia; vm_compute; first [congruence | eauto]).
    destruct (transport_requests_tracked no_error 50 demo_transport (demo_read 1) demo_wf Hg Hok) as (t' & E & Hw & He & _).
    exists t'. split_and!; auto. rewrite He. reflexivity.
  - assert (Hok : request_ok demo_transport (Send 9 1 (replicate 16 0) TRANSPORT_SOCKET_FAMILY_INET 0 30 72 0)).
    { cbn. split_and!; try lia; [left; split; [reflexivity|vm_compute; eauto]|unfold address_ok; vm_compute; discriminate]. }
    destruct (transport_requests_tracked no_error 50 demo_transport _ demo_wf Hg Hok) as (t' & E & Hw & _). eauto.
Defined.

(** A transport with one pending read of the descriptor 7. *)
Definition one_pending : transport (R := list_ring) :=
  match run_request no_error 50 demo_transport (demo_read 1) with Done (_, _, t) => t | _ => demo_transport end.

Lemma one_pending_wf : transport_wf one_pending.
Proof.
  assert (Hok : request_ok demo_transport (demo_read 1)) by (cbn; split_and!; try lia; vm_compute; first [congruence | eauto]).
  destruct (request_runs no_error 50 demo_transport (ListRing 5 4096 [] []) (demo_read 1) demo_wf ltac:(vm_compute; discriminate) Hok eq_refl)
    as (t' & E & Hw & _).
  unfold one_pending. rewrite E. exact Hw.
Qed.

Lemma transport_cancel_by_fd_removes_witness :
  exists t', transport_cancel_by_fd no_error one_pending 7 = Done (0, None, t') /\ transport_wf t'
    /\ length (entries (ring (transport_executor t'))) = 2%nat.
Proof.
  pose proof (transport_cancel_by_fd_removes no_error one_pending 7 one_pending_wf ltac:(vm_compute; reflexivity)) as G.
  cbn zeta in G. match type of G with if ?c then _ else _ => replace c with true in G by (vm_compute; reflexivity) end.
  destruct G as (t' & E & Hw & He & _). exists t'. split_and!; auto. rewrite He. vm_compute. reflexivity.
Defined.

Lemma transport_check_event_timeouts_cancels_witness :
  (exists t', transport_check_event_timeouts (fun _ => 120) one_pending = Done t' /\ transport_wf t'
     /\ length (entries (ring (transport_executor t'))) = 2%nat)
  /\ expired 120 (TransportEvent 1 60 30 7) = true /\ expired 120 (TransportEvent 1 60 60 7) = false.
Proof.
  destruct (transport_check_event_timeouts_cancels (fun _ => 120) 120 one_pending (fun _ => eq_refl) one_pending_wf
              ltac:(vm_compute; reflexivity))
    as [(t' & E & Hw & He & _) Hx].
  split; [exists t'; split_and!; auto; rewrite He; vm_compute; reflexivity|]. split.
  - rewrite (proj2 (Hx (TransportEvent 1 60 30 7) ltac:(lia) ltac:(cbn; lia)) ltac:(cbn; lia)). reflexivity.
  - rewrite (proj2 (Hx (TransportEvent 1 60 60 7) ltac:(lia) ltac:(cbn; lia)) ltac:(cbn; lia)). reflexivity.
Defined.

Lemma transport_remove_event_forgets_witness :
  exists t', transport_remove_event demo_transport 5 = Done t' /\ transport_wf t'.
Proof. destruct (transport_remove_event_forgets demo_transport 5 demo_wf) as (t' & E & Hw & _). eauto. Defined.
