(* ===== verification/Sockets.v ===== *)
(** * Sockets, servers, clients and files ([transport/native/transport/socket.c], [server.c],
    [client.c], [file.c])

    A function makes system calls, whose answers are the parameter [kernel], and
    returns early on a failure.  [kernel past call] is the answer to [call] after
    the calls [past]; nothing is assumed of it. *)
From stdpp Require Import strings.
From S2P Require Import Prelude Transport.

(** ** System calls *)

Inductive address_family := AF_INET | AF_UNIX.
Inductive socket_type := SOCK_STREAM | SOCK_DGRAM.
Inductive socket_protocol := IPPROTO_DEFAULT | IPPROTO_TCP | IPPROTO_UDP.
Inductive status_flag := O_NONBLOCK | O_CLOEXEC.
Inductive socket_option :=
| SO_REUSEADDR | SO_REUSEPORT | SO_RCVBUF | SO_SNDBUF | SO_BROADCAST | SO_KEEPALIVE | SO_RCVLOWAT | SO_SNDLOWAT
| IP_TTL | IP_FREEBIND | IP_MULTICAST_ALL | IP_MULTICAST_IF | IP_MULTICAST_LOOP | IP_MULTICAST_TTL
| IP_ADD_MEMBERSHIP | IP_DROP_MEMBERSHIP | IP_ADD_SOURCE_MEMBERSHIP | IP_DROP_SOURCE_MEMBERSHIP
| TCP_QUICKACK | TCP_DEFER_ACCEPT | TCP_FASTOPEN | TCP_KEEPIDLE | TCP_KEEPCNT | TCP_KEEPINTVL | TCP_MAXSEG
| TCP_NODELAY | TCP_SYNCNT.

(** What an option is set to: a number of [size] bytes, a structure at an address,
    or a membership request. *)
Inductive option_value :=
| Number (size value : Z)
| Structure (size address : Z)
| Membership (group local : Z) (interface : Z)
| Source_membership (group local source : Z).

(** The address of a socket: an internet address and port, or a path. *)
Inductive socket_address :=
| Inet_address (ip port : Z)
| Unix_address (path : string).

Inductive syscall :=
| Socket (family : address_family) (type : socket_type) (protocol : socket_protocol)
| Fcntl_getfl (fd : Z)
| Fcntl_setfl (fd old : Z) (added : status_flag)
| Setsockopt (fd : Z) (option : socket_option) (value : option_value)
| Bind (fd : Z) (address : socket_address) (length : Z)
| Listen (fd backlog : Z)
| Unlink (path : string)
| Open (path : string) (flags mode : Z).

#[export] Instance socket_option_eq_dec : EqDecision socket_option.
Proof. solve_decision. Defined.

(** A computation that calls the kernel: the value or the early return, and the
    calls made. *)
Definition sys (E A : Type) : Type := list syscall -> (A + E) * list syscall.

Definition sys_ret {E A} (a : A) : sys E A := fun past => (inl a, past).
Definition sys_fail {E A} (e : E) : sys E A := fun past => (inr e, past).
Definition sys_bind {E A B} (m : sys E A) (k : A -> sys E B) : sys E B :=
  fun past => match m past with (inl a, past) => k a past | (inr e, past) => (inr e, past) end.

Declare Scope sys_scope.
Delimit Scope sys_scope with sys.
Notation "x <- m ;; k" := (sys_bind m (fun x => k)) (at level 100, m at next level, right associativity) : sys_scope.
Notation "m ;; k" := (sys_bind m (fun _ => k)) (at level 100, right associativity) : sys_scope.

(** ** The options *)

Definition TRANSPORT_SOCKET_OPTION_SOCKET_NONBLOCK : Z := Z.shiftl 1 1.
Definition TRANSPORT_SOCKET_OPTION_SOCKET_CLOEXEC : Z := Z.shiftl 1 2.
Definition TRANSPORT_SOCKET_OPTION_SOCKET_REUSEADDR : Z := Z.shiftl 1 3.
Definition TRANSPORT_SOCKET_OPTION_SOCKET_REUSEPORT : Z := Z.shiftl 1 4.
Definition TRANSPORT_SOCKET_OPTION_SOCKET_RCVBUF : Z := Z.shiftl 1 5.
Definition TRANSPORT_SOCKET_OPTION_SOCKET_SNDBUF : Z := Z.shiftl 1 6.
Definition TRANSPORT_SOCKET_OPTION_SOCKET_BROADCAST : Z := Z.shiftl 1 7.
Definition TRANSPORT_SOCKET_OPTION_SOCKET_KEEPALIVE : Z := Z.shiftl 1 8.
Definition TRANSPORT_SOCKET_OPTION_SOCKET_RCVLOWAT : Z := Z.shiftl 1 9.
Definition TRANSPORT_SOCKET_OPTION_SOCKET_SNDLOWAT : Z := Z.shiftl 1 10.
Definition TRANSPORT_SOCKET_OPTION_IP_TTL : Z := Z.shiftl 1 11.
Definition TRANSPORT_SOCKET_OPTION_IP_FREEBIND : Z := Z.shiftl 1 16.
Definition TRANSPORT_SOCKET_OPTION_IP_MULTICAST_ALL : Z := Z.shiftl 1 17.
Definition TRANSPORT_SOCKET_OPTION_IP_MULTICAST_IF : Z := Z.shiftl 1 18.
Definition TRANSPORT_SOCKET_OPTION_IP_MULTICAST_LOOP : Z := Z.shiftl 1 19.
Definition TRANSPORT_SOCKET_OPTION_IP_MULTICAST_TTL : Z := Z.shiftl 1 20.
Definition TRANSPORT_SOCKET_OPTION_TCP_QUICKACK : Z := Z.shiftl 1 21.
Definition TRANSPORT_SOCKET_OPTION_TCP_DEFER_ACCEPT : Z := Z.shiftl 1 22.
Definition TRANSPORT_SOCKET_OPTION_TCP_FASTOPEN : Z := Z.shiftl 1 23.
Definition TRANSPORT_SOCKET_OPTION_TCP_KEEPIDLE : Z := Z.shiftl 1 24.
Definition TRANSPORT_SOCKET_OPTION_TCP_KEEPCNT : Z := Z.shiftl 1 25.
Definition TRANSPORT_SOCKET_OPTION_TCP_KEEPINTVL : Z := Z.shiftl 1 26.
Definition TRANSPORT_SOCKET_OPTION_TCP_MAXSEG : Z := Z.shiftl 1 27.
Definition TRANSPORT_SOCKET_OPTION_TCP_NODELAY : Z := Z.shiftl 1 28.
Definition TRANSPORT_SOCKET_OPTION_TCP_SYNCNT : Z := Z.shiftl 1 29.

(** The parameters of the three functions; a client has all but the backlog. *)
Record socket_configuration := SocketConfiguration {
  socket_max_connections : Z;
  socket_configuration_flags : Z;
  socket_receive_buffer_size : Z;
  socket_send_buffer_size : Z;
  socket_receive_low_at : Z;
  socket_send_low_at : Z;
  ip_ttl : Z;
  tcp_keep_alive_idle : Z;
  tcp_keep_alive_max_count : Z;
  tcp_keep_alive_individual_count : Z;
  tcp_max_segment_size : Z;
  tcp_syn_count : Z;
  ip_multicast_interface : Z;
  ip_multicast_ttl : Z;
}.

Section Sockets.
Context (kernel : list syscall -> syscall -> Z).
Open Scope sys_scope.

Definition call {E} (c : syscall) : sys E Z := fun past => (inl (kernel past c), past ++ [c]).

(** The error of an option: [-TRANSPORT_SOCKET_OPTION_...], negated as an unsigned
    number and returned as a signed one. *)
Definition option_error (option : Z) : Z := i64 (u64 (- option)).

(** [if (flags & option) { ... }] around a setting that may fail. *)
Definition when_requested (flags option : Z) (setting : sys Z unit) : sys Z unit :=
  if negb (Z.land flags option =? 0) then setting else sys_ret tt.

Definition set_status (fd option : Z) (added : status_flag) : sys Z unit :=
  fcntl_flags <- call (Fcntl_getfl fd);;
  if fcntl_flags <? 0 then sys_fail (option_error option) else
  r <- call (Fcntl_setfl fd fcntl_flags added);;
  if r <? 0 then sys_fail (option_error option) else sys_ret tt.

Definition set_option (fd option : Z) (name : socket_option) (value : option_value) : sys Z unit :=
  r <- call (Setsockopt fd name value);;
  if negb (r =? 0) then sys_fail (option_error option) else sys_ret tt.

Definition activate_option : option_value := Number 4 1.

(** ** The three kinds of sockets *)

Definition transport_socket_create_tcp (c : socket_configuration) : sys Z Z :=
  let flags := socket_configuration_flags c in
  fd <- call (Socket AF_INET SOCK_STREAM IPPROTO_TCP);;
  if fd =? -1 then sys_fail (-1) else
  let option o name value := when_requested flags o (set_option fd o name value) in
  when_requested flags TRANSPORT_SOCKET_OPTION_SOCKET_NONBLOCK
    (set_status fd TRANSPORT_SOCKET_OPTION_SOCKET_NONBLOCK O_NONBLOCK);;
  when_requested flags TRANSPORT_SOCKET_OPTION_SOCKET_CLOEXEC
    (set_status fd TRANSPORT_SOCKET_OPTION_SOCKET_CLOEXEC O_CLOEXEC);;
  option TRANSPORT_SOCKET_OPTION_SOCKET_REUSEADDR SO_REUSEADDR activate_option;;
  option TRANSPORT_SOCKET_OPTION_SOCKET_REUSEPORT SO_REUSEPORT activate_option;;
  option TRANSPORT_SOCKET_OPTION_SOCKET_RCVBUF SO_RCVBUF (Number 4 (socket_receive_buffer_size c));;
  option TRANSPORT_SOCKET_OPTION_SOCKET_SNDBUF SO_SNDBUF (Number 4 (socket_send_buffer_size c));;
  option TRANSPORT_SOCKET_OPTION_SOCKET_KEEPALIVE SO_KEEPALIVE activate_option;;
  option TRANSPORT_SOCKET_OPTION_SOCKET_RCVLOWAT SO_RCVLOWAT (Number 4 (socket_receive_low_at c));;
  option TRANSPORT_SOCKET_OPTION_SOCKET_SNDLOWAT SO_SNDLOWAT (Number 4 (socket_send_low_at c));;
  option TRANSPORT_SOCKET_OPTION_IP_TTL IP_TTL (Number 2 (ip_ttl c));;
  option TRANSPORT_SOCKET_OPTION_IP_FREEBIND IP_FREEBIND activate_option;;
  option TRANSPORT_SOCKET_OPTION_TCP_QUICKACK TCP_QUICKACK activate_option;;
  option TRANSPORT_SOCKET_OPTION_TCP_DEFER_ACCEPT TCP_DEFER_ACCEPT activate_option;;
  option TRANSPORT_SOCKET_OPTION_TCP_FASTOPEN TCP_FASTOPEN activate_option;;
  option TRANSPORT_SOCKET_OPTION_TCP_KEEPIDLE TCP_KEEPIDLE (Number 4 (tcp_keep_alive_idle c));;
  option TRANSPORT_SOCKET_OPTION_TCP_KEEPCNT TCP_KEEPCNT (Number 4 (tcp_keep_alive_max_count c));;
  option TRANSPORT_SOCKET_OPTION_TCP_KEEPINTVL TCP_KEEPINTVL (Number 4 (tcp_keep_alive_individual_count c));;
  option TRANSPORT_SOCKET_OPTION_TCP_MAXSEG TCP_MAXSEG (Number 4 (tcp_max_segment_size c));;
  option TRANSPORT_SOCKET_OPTION_TCP_NODELAY TCP_NODELAY activate_option;;
  option TRANSPORT_SOCKET_OPTION_TCP_SYNCNT TCP_SYNCNT (Number 2 (tcp_syn_count c));;
  sys_ret fd.

(** The address may be used again whether requested or not. *)
Definition transport_socket_create_udp (c : socket_configuration) : sys Z Z :=
  let flags := socket_configuration_flags c in
  fd <- call (Socket AF_INET SOCK_DGRAM IPPROTO_UDP);;
  if fd =? -1 then sys_fail (-1) else
  let option o name value := when_requested flags o (set_option fd o name value) in
  when_requested flags TRANSPORT_SOCKET_OPTION_SOCKET_NONBLOCK
    (set_status fd TRANSPORT_SOCKET_OPTION_SOCKET_NONBLOCK O_NONBLOCK);;
  when_requested flags TRANSPORT_SOCKET_OPTION_SOCKET_CLOEXEC
    (set_status fd TRANSPORT_SOCKET_OPTION_SOCKET_CLOEXEC O_CLOEXEC);;
  set_option fd TRANSPORT_SOCKET_OPTION_SOCKET_REUSEADDR SO_REUSEADDR activate_option;;
  option TRANSPORT_SOCKET_OPTION_SOCKET_REUSEPORT SO_REUSEPORT activate_option;;
  option TRANSPORT_SOCKET_OPTION_SOCKET_RCVBUF SO_RCVBUF (Number 4 (socket_receive_buffer_size c));;
  option TRANSPORT_SOCKET_OPTION_SOCKET_SNDBUF SO_SNDBUF (Number 4 (socket_send_buffer_size c));;
  option TRANSPORT_SOCKET_OPTION_SOCKET_BROADCAST SO_BROADCAST activate_option;;
  option TRANSPORT_SOCKET_OPTION_SOCKET_RCVLOWAT SO_RCVLOWAT (Number 4 (socket_receive_low_at c));;
  option TRANSPORT_SOCKET_OPTION_SOCKET_SNDLOWAT SO_SNDLOWAT (Number 4 (socket_send_low_at c));;
  option TRANSPORT_SOCKET_OPTION_IP_TTL IP_TTL (Number 2 (ip_ttl c));;
  option TRANSPORT_SOCKET_OPTION_IP_FREEBIND IP_FREEBIND activate_option;;
  option TRANSPORT_SOCKET_OPTION_IP_MULTICAST_ALL IP_MULTICAST_ALL activate_option;;
  option TRANSPORT_SOCKET_OPTION_IP_MULTICAST_IF IP_MULTICAST_IF (Structure 12 (ip_multicast_interface c));;
  option TRANSPORT_SOCKET_OPTION_IP_MULTICAST_LOOP IP_MULTICAST_LOOP activate_option;;
  option TRANSPORT_SOCKET_OPTION_IP_MULTICAST_TTL IP_MULTICAST_TTL (Number 4 (ip_multicast_ttl c));;
  sys_ret fd.

Definition transport_socket_create_unix_stream (c : socket_configuration) : sys Z Z :=
  let flags := socket_configuration_flags c in
  fd <- call (Socket AF_UNIX SOCK_STREAM IPPROTO_DEFAULT);;
  if fd =? -1 then sys_fail (-1) else
  let option o name value := when_requested flags o (set_option fd o name value) in
  when_requested flags TRANSPORT_SOCKET_OPTION_SOCKET_NONBLOCK
    (set_status fd TRANSPORT_SOCKET_OPTION_SOCKET_NONBLOCK O_NONBLOCK);;
  when_requested flags TRANSPORT_SOCKET_OPTION_SOCKET_CLOEXEC
    (set_status fd TRANSPORT_SOCKET_OPTION_SOCKET_CLOEXEC O_CLOEXEC);;
  option TRANSPORT_SOCKET_OPTION_SOCKET_RCVBUF SO_RCVBUF (Number 4 (socket_receive_buffer_size c));;
  option TRANSPORT_SOCKET_OPTION_SOCKET_SNDBUF SO_SNDBUF (Number 4 (socket_send_buffer_size c));;
  option TRANSPORT_SOCKET_OPTION_SOCKET_KEEPALIVE SO_KEEPALIVE activate_option;;
  option TRANSPORT_SOCKET_OPTION_SOCKET_RCVLOWAT SO_RCVLOWAT (Number 4 (socket_receive_low_at c));;
  option TRANSPORT_SOCKET_OPTION_SOCKET_SNDLOWAT SO_SNDLOWAT (Number 4 (socket_send_low_at c));;
  sys_ret fd.

(** The returned number, an early one or not. *)
Definition returned (m : sys Z Z) : list syscall -> Z * list syscall :=
  fun past => match m past with (inl r, past) | (inr r, past) => (r, past) end.

(** The structure of a multicast request, and its initialisation. *)
Definition transport_socket_initialize_multicast_request (group local interface : Z) : option_value :=
  Membership group local interface.

(** Membership of multicast groups: the answer of the kernel. *)
Definition transport_socket_multicast_add_membership (fd group local interface : Z) : sys Z Z :=
  call (Setsockopt fd IP_ADD_MEMBERSHIP (Membership group local interface)).
Definition transport_socket_multicast_drop_membership (fd group local interface : Z) : sys Z Z :=
  call (Setsockopt fd IP_DROP_MEMBERSHIP (Membership group local interface)).
Definition transport_socket_multicast_add_source_membership (fd group local source : Z) : sys Z Z :=
  call (Setsockopt fd IP_ADD_SOURCE_MEMBERSHIP (Source_membership group local source)).
Definition transport_socket_multicast_drop_source_membership (fd group local source : Z) : sys Z Z :=
  call (Setsockopt fd IP_DROP_SOURCE_MEMBERSHIP (Source_membership group local source)).

(** ** Servers

    The fields of the structure that are written: the descriptor, zero at first,
    and the error, an [int8_t]. *)
Record server_state := ServerState {
  sv_fd : Z;
  sv_address : socket_address;
  sv_address_length : Z;
  sv_initialization_error : Z;
}.

Definition sun_path_size : Z := 108.

(** [strcpy] of a path into [sun_path]. *)
Definition copy_path (path : string) : outcome socket_address :=
  if Z.of_nat (String.length path) <? sun_path_size then Done (Unix_address path) else Faults.

(** [bind], and [listen] where there is one, after the socket was created. *)
Definition finish_server (create : sys Z Z) (address : socket_address) (length : Z) (backlog : option Z)
    : list syscall -> server_state * list syscall :=
  fun past =>
    let '(result, past) := returned create past in
    if result <? 0 then (ServerState 0 address length (i8 result), past) else
    let fd := i32 result in
    let '(result, past) := returned (call (Bind fd address length)) past in
    if result <? 0 then (ServerState fd address length (i8 result), past) else
    match backlog with
    | None => (ServerState fd address length 0, past)
    | Some backlog =>
        let '(result, past) := returned (call (Listen fd backlog)) past in
        if result <? 0 then (ServerState fd address length (i8 result), past)
        else (ServerState fd address length 0, past)
    end.

(** The port of an internet address is cut to sixteen bits. *)
Definition transport_server_initialize_tcp (c : socket_configuration) (ip port : Z) : list syscall -> server_state * list syscall :=
  finish_server (transport_socket_create_tcp c) (Inet_address ip (u16 port)) sizeof_sockaddr_in (Some (socket_max_connections c)).
Definition transport_server_initialize_udp (c : socket_configuration) (ip port : Z) : list syscall -> server_state * list syscall :=
  finish_server (transport_socket_create_udp c) (Inet_address ip (u16 port)) sizeof_sockaddr_in None.
Definition transport_server_initialize_unix_stream (c : socket_configuration) (path : string) (past : list syscall)
    : outcome (server_state * list syscall) :=
  address ← copy_path path;
  Done (finish_server (transport_socket_create_unix_stream c) address sizeof_sockaddr_un (Some (socket_max_connections c)) past).

Definition unlink_address (address : socket_address) (past : list syscall) : list syscall :=
  match address with
  | Inet_address _ _ => past
  | Unix_address path => past ++ [Unlink path]
  end.
Definition transport_server_destroy (s : server_state) : list syscall -> list syscall := unlink_address (sv_address s).

(** ** Clients

    The source of a datagram client is bound; nothing else is. *)
Record client_state := ClientState {
  cl_fd : Z;
  cl_destination : socket_address;
  cl_source : option socket_address;
  cl_address_length : Z;
  cl_initialization_error : Z;
}.

Definition finish_client (create : sys Z Z) (destination : socket_address) (source : option socket_address) (length : Z)
    : list syscall -> client_state * list syscall :=
  fun past =>
    let '(result, past) := returned create past in
    if result <? 0 then (ClientState 0 destination source length (i8 result), past) else
    let fd := i32 result in
    match source with
    | None => (ClientState fd destination source length 0, past)
    | Some address =>
        let '(result, past) := returned (call (Bind fd address length)) past in
        if result <? 0 then (ClientState fd destination source length (i8 result), past)
        else (ClientState fd destination source length 0, past)
    end.

Definition transport_client_initialize_tcp (c : socket_configuration) (ip port : Z) : list syscall -> client_state * list syscall :=
  finish_client (transport_socket_create_tcp c) (Inet_address ip (u16 port)) None sizeof_sockaddr_in.
Definition transport_client_initialize_udp (c : socket_configuration) (destination_ip destination_port source_ip source_port : Z)
    : list syscall -> client_state * list syscall :=
  finish_client (transport_socket_create_udp c) (Inet_address destination_ip (u16 destination_port))
    (Some (Inet_address source_ip (u16 source_port))) sizeof_sockaddr_in.
Definition transport_client_initialize_unix_stream (c : socket_configuration) (path : string) (past : list syscall)
    : outcome (client_state * list syscall) :=
  address ← copy_path path;
  Done (finish_client (transport_socket_create_unix_stream c) address None sizeof_sockaddr_un past).
Definition transport_client_destroy (s : client_state) : list syscall -> list syscall := unlink_address (cl_destination s).

(** ** Files *)

Definition TRANSPORT_READ_ONLY : Z := Z.shiftl 1 0.
Definition TRANSPORT_WRITE_ONLY : Z := Z.shiftl 1 1.
Definition TRANSPORT_READ_WRITE : Z := Z.shiftl 1 2.
Definition TRANSPORT_WRITE_ONLY_APPEND : Z := Z.shiftl 1 3.
Definition TRANSPORT_READ_WRITE_APPEND : Z := Z.shiftl 1 4.

(** The flags of [open] on Linux. *)
Definition O_RDONLY : Z := 0.
Definition O_WRONLY : Z := 1.
Definition O_RDWR : Z := 2.
Definition O_CREAT : Z := 64.
Definition O_TRUNC : Z := 512.
Definition O_APPEND : Z := 1024.

Definition file_options (mode : Z) (truncate create : bool) : Z :=
  let options := 0 in
  let options := if mode =? TRANSPORT_READ_ONLY then Z.lor options O_RDONLY else options in
  let options := if mode =? TRANSPORT_WRITE_ONLY then Z.lor options O_WRONLY else options in
  let options := if mode =? TRANSPORT_READ_WRITE then Z.lor options O_RDWR else options in
  let options := if mode =? TRANSPORT_WRITE_ONLY_APPEND then Z.lor options (Z.lor O_WRONLY O_APPEND) else options in
  let options := if mode =? TRANSPORT_READ_WRITE_APPEND then Z.lor options (Z.lor O_RDWR O_APPEND) else options in
  let options := if truncate then Z.lor options O_TRUNC else options in
  if create then Z.lor options O_CREAT else options.

(** Read and write for everybody, 0666. *)
Definition transport_file_open (path : string) (mode : Z) (truncate create : bool) : sys Z Z :=
  call (Open path (file_options mode truncate create) 438).

End Sockets.
