(* ===== verification/SocketsTheorems.v ===== *)
(** * What creating and configuring a socket amounts to ([transport/native/transport/socket.c],
    [server.c], [client.c])

    The three functions of [socket.c] are compared with tables of settings: the
    settings asked for are made in the order of the table, up to the first one
    the kernel refuses. *)
From stdpp Require Import strings.
From S2P Require Import Prelude Transport Sockets.

(** ** Tables of settings *)

(** A setting of the flag [setting_option]: a status flag of the descriptor, or an
    option of the socket. *)
Record setting := Setting {
  setting_option : Z;
  setting_forced : bool;
  setting_value : status_flag + socket_option * option_value;
}.

Definition status (o : Z) (f : status_flag) : setting := Setting o false (inl f).
Definition option (o : Z) (name : socket_option) (v : option_value) : setting := Setting o false (inr (name, v)).

Inductive socket_kind := Tcp | Udp | Unix_stream.

Definition common_settings : list setting :=
  [status TRANSPORT_SOCKET_OPTION_SOCKET_NONBLOCK O_NONBLOCK;
   status TRANSPORT_SOCKET_OPTION_SOCKET_CLOEXEC O_CLOEXEC].

Definition tcp_settings (c : socket_configuration) : list setting := common_settings ++
  [option TRANSPORT_SOCKET_OPTION_SOCKET_REUSEADDR SO_REUSEADDR (Number 4 1);
   option TRANSPORT_SOCKET_OPTION_SOCKET_REUSEPORT SO_REUSEPORT (Number 4 1);
   option TRANSPORT_SOCKET_OPTION_SOCKET_RCVBUF SO_RCVBUF (Number 4 (socket_receive_buffer_size c));
   option TRANSPORT_SOCKET_OPTION_SOCKET_SNDBUF SO_SNDBUF (Number 4 (socket_send_buffer_size c));
   option TRANSPORT_SOCKET_OPTION_SOCKET_KEEPALIVE SO_KEEPALIVE (Number 4 1);
   option TRANSPORT_SOCKET_OPTION_SOCKET_RCVLOWAT SO_RCVLOWAT (Number 4 (socket_receive_low_at c));
   option TRANSPORT_SOCKET_OPTION_SOCKET_SNDLOWAT SO_SNDLOWAT (Number 4 (socket_send_low_at c));
   option TRANSPORT_SOCKET_OPTION_IP_TTL IP_TTL (Number 2 (ip_ttl c));
   option TRANSPORT_SOCKET_OPTION_IP_FREEBIND IP_FREEBIND (Number 4 1);
   option TRANSPORT_SOCKET_OPTION_TCP_QUICKACK TCP_QUICKACK (Number 4 1);
   option TRANSPORT_SOCKET_OPTION_TCP_DEFER_ACCEPT TCP_DEFER_ACCEPT (Number 4 1);
   option TRANSPORT_SOCKET_OPTION_TCP_FASTOPEN TCP_FASTOPEN (Number 4 1);
   option TRANSPORT_SOCKET_OPTION_TCP_KEEPIDLE TCP_KEEPIDLE (Number 4 (tcp_keep_alive_idle c));
   option TRANSPORT_SOCKET_OPTION_TCP_KEEPCNT TCP_KEEPCNT (Number 4 (tcp_keep_alive_max_count c));
   option TRANSPORT_SOCKET_OPTION_TCP_KEEPINTVL TCP_KEEPINTVL (Number 4 (tcp_keep_alive_individual_count c));
   option TRANSPORT_SOCKET_OPTION_TCP_MAXSEG TCP_MAXSEG (Number 4 (tcp_max_segment_size c));
   option TRANSPORT_SOCKET_OPTION_TCP_NODELAY TCP_NODELAY (Number 4 1);
   option TRANSPORT_SOCKET_OPTION_TCP_SYNCNT TCP_SYNCNT (Number 2 (tcp_syn_count c))].

(** The reuse of the address is forced. *)
Definition udp_settings (c : socket_configuration) : list setting := common_settings ++
  [Setting TRANSPORT_SOCKET_OPTION_SOCKET_REUSEADDR true (inr (SO_REUSEADDR, Number 4 1));
   option TRANSPORT_SOCKET_OPTION_SOCKET_REUSEPORT SO_REUSEPORT (Number 4 1);
   option TRANSPORT_SOCKET_OPTION_SOCKET_RCVBUF SO_RCVBUF (Number 4 (socket_receive_buffer_size c));
   option TRANSPORT_SOCKET_OPTION_SOCKET_SNDBUF SO_SNDBUF (Number 4 (socket_send_buffer_size c));
   option TRANSPORT_SOCKET_OPTION_SOCKET_BROADCAST SO_BROADCAST (Number 4 1);
   option TRANSPORT_SOCKET_OPTION_SOCKET_RCVLOWAT SO_RCVLOWAT (Number 4 (socket_receive_low_at c));
   option TRANSPORT_SOCKET_OPTION_SOCKET_SNDLOWAT SO_SNDLOWAT (Number 4 (socket_send_low_at c));
   option TRANSPORT_SOCKET_OPTION_IP_TTL IP_TTL (Number 2 (ip_ttl c));
   option TRANSPORT_SOCKET_OPTION_IP_FREEBIND IP_FREEBIND (Number 4 1);
   option TRANSPORT_SOCKET_OPTION_IP_MULTICAST_ALL IP_MULTICAST_ALL (Number 4 1);
   option TRANSPORT_SOCKET_OPTION_IP_MULTICAST_IF IP_MULTICAST_IF (Structure 12 (ip_multicast_interface c));
   option TRANSPORT_SOCKET_OPTION_IP_MULTICAST_LOOP IP_MULTICAST_LOOP (Number 4 1);
   option TRANSPORT_SOCKET_OPTION_IP_MULTICAST_TTL IP_MULTICAST_TTL (Number 4 (ip_multicast_ttl c))].

Definition unix_settings (c : socket_configuration) : list setting := common_settings ++
  [option TRANSPORT_SOCKET_OPTION_SOCKET_RCVBUF SO_RCVBUF (Number 4 (socket_receive_buffer_size c));
   option TRANSPORT_SOCKET_OPTION_SOCKET_SNDBUF SO_SNDBUF (Number 4 (socket_send_buffer_size c));
   option TRANSPORT_SOCKET_OPTION_SOCKET_KEEPALIVE SO_KEEPALIVE (Number 4 1);
   option TRANSPORT_SOCKET_OPTION_SOCKET_RCVLOWAT SO_RCVLOWAT (Number 4 (socket_receive_low_at c));
   option TRANSPORT_SOCKET_OPTION_SOCKET_SNDLOWAT SO_SNDLOWAT (Number 4 (socket_send_low_at c))].

Definition settings (k : socket_kind) : socket_configuration -> list setting :=
  match k with Tcp => tcp_settings | Udp => udp_settings | Unix_stream => unix_settings end.

Definition socket_call (k : socket_kind) : syscall :=
  match k with
  | Tcp => Socket AF_INET SOCK_STREAM IPPROTO_TCP
  | Udp => Socket AF_INET SOCK_DGRAM IPPROTO_UDP
  | Unix_stream => Socket AF_UNIX SOCK_STREAM IPPROTO_DEFAULT
  end.

Definition asked (c : socket_configuration) (s : setting) : bool :=
  setting_forced s || negb (Z.land (socket_configuration_flags c) (setting_option s) =? 0).

(** The flags are powers of two below [2 ^ 30]. *)
Definition flag_option (s : setting) : Prop := exists k, 1 <= k < 30 /\ setting_option s = 2 ^ k.

Lemma flag_option_shift o k (v : status_flag + socket_option * option_value) b :
  o = Z.shiftl 1 k -> 1 <= k < 30 -> flag_option (Setting o b v).
Proof. intros -> Hk. exists k. split; [done|]. cbn. rewrite Z.shiftl_mul_pow2 by lia. lia. Qed.

Lemma settings_flags k c : Forall flag_option (settings k c).
Proof. destruct k; cbn; repeat (apply List.Forall_cons || apply List.Forall_nil); (eapply flag_option_shift; [reflexivity|lia]). Qed.

Section Specification.
Context (kernel : list syscall -> syscall -> Z).

(** One setting: the calls it takes and whether the kernel agreed. *)
Inductive tries (fd : Z) (s : setting) (past : list syscall) : bool -> list syscall -> Prop :=
| tries_option name v :
    setting_value s = inr (name, v) ->
    tries fd s past (kernel past (Setsockopt fd name v) =? 0) (past ++ [Setsockopt fd name v])
| tries_status_unread f :
    setting_value s = inl f -> kernel past (Fcntl_getfl fd) < 0 ->
    tries fd s past false (past ++ [Fcntl_getfl fd])
| tries_status f old :
    setting_value s = inl f -> kernel past (Fcntl_getfl fd) = old -> 0 <= old ->
    tries fd s past (0 <=? kernel (past ++ [Fcntl_getfl fd]) (Fcntl_setfl fd old f))
      (past ++ [Fcntl_getfl fd; Fcntl_setfl fd old f]).

(** A list of settings, up to the first refused one. *)
Inductive configures (fd : Z) : list setting -> list syscall -> Datatypes.option setting -> list syscall -> Prop :=
| configures_all past : configures fd [] past None past
| configures_next s l past past1 r past2 :
    tries fd s past true past1 -> configures fd l past1 r past2 -> configures fd (s :: l) past r past2
| configures_refused s l past past1 :
    tries fd s past false past1 -> configures fd (s :: l) past (Some s) past1.

Lemma configures_member fd l past s past' : configures fd l past (Some s) past' -> In s l.
Proof.
  intros H. remember (Some s) as r eqn:E. induction H; simplify_eq; [right; auto|left; done].
Qed.

Lemma configures_extends fd l past r past' : configures fd l past r past' -> exists calls, past' = past ++ calls.
Proof.
  assert (T : forall s past b past', tries fd s past b past' -> exists calls, past' = past ++ calls)
    by (intros ????[]; eauto).
  induction 1 as [past|s l past past1 r past2 Ht _ [calls ->]|s l past past1 Ht]; [exists []; by rewrite app_nil_r| |eauto].
  destruct (T _ _ _ _ Ht) as [first ->]. rewrite <- app_assoc. eauto.
Qed.

(** ** The code follows the tables *)

Definition run_setting (fd : Z) (s : setting) : sys Z unit :=
  match setting_value s with
  | inl f => set_status kernel fd (setting_option s) f
  | inr (name, v) => set_option kernel fd (setting_option s) name v
  end.
Definition run_asked (c : socket_configuration) (fd : Z) (s : setting) : sys Z unit :=
  if setting_forced s then run_setting fd s
  else when_requested (socket_configuration_flags c) (setting_option s) (run_setting fd s).
Definition run_settings (c : socket_configuration) (fd : Z) (l : list setting) : sys Z Z :=
  foldr (fun s m => sys_bind (run_asked c fd s) (fun _ => m)) (sys_ret fd) l.

Definition create (k : socket_kind) : socket_configuration -> sys Z Z :=
  match k with
  | Tcp => transport_socket_create_tcp kernel
  | Udp => transport_socket_create_udp kernel
  | Unix_stream => transport_socket_create_unix_stream kernel
  end.

Lemma create_run k c past : create k c past =
  let fd := kernel past (socket_call k) in
  if fd =? -1 then (inr (-1), past ++ [socket_call k]) else run_settings c fd (settings k c) (past ++ [socket_call k]).
Proof.
  cbv zeta. destruct (kernel past (socket_call k) =? -1) eqn:E; destruct k; cbn [create socket_call] in *;
    unfold transport_socket_create_tcp, transport_socket_create_udp, transport_socket_create_unix_stream;
    cbv zeta; unfold sys_bind at 1, call at 1; rewrite E; reflexivity.
Qed.

Lemma run_setting_tries fd s past : exists b past',
  tries fd s past b past' /\
  run_setting fd s past = (if b then inl tt else inr (option_error (setting_option s)), past').
Proof.
  unfold run_setting. destruct (setting_value s) as [f|[name v]] eqn:E.
  - unfold set_status, sys_bind, call. destruct (Z.ltb_spec (kernel past (Fcntl_getfl fd)) 0) as [L|L].
    + exists false. eexists. split; [by eapply tries_status_unread|done].
    + eexists _, _. split; [by eapply tries_status|]. rewrite <- app_assoc; cbn [app].
      rewrite Z.leb_antisym. by destruct (_ <? 0).
  - unfold set_option, sys_bind, call. eexists _, _. split; [by eapply tries_option|]. by destruct (_ =? 0).
Qed.

Lemma run_settings_configures c fd l past : exists r past',
  configures fd (List.filter (asked c) l) past r past' /\
  run_settings c fd l past = (match r with None => inl fd | Some s => inr (option_error (setting_option s)) end, past').
Proof.
  revert past. induction l as [|s l IH]; intros past; cbn.
  { eexists None, _. split; [constructor|done]. }
  unfold run_asked, when_requested, asked at 1. destruct (setting_forced s || _) eqn:A.
  - destruct (run_setting_tries fd s past) as (b & past1 & T & R).
    replace (if setting_forced s then _ else _) with (run_setting fd s)
      by (by destruct (setting_forced s), (negb _)).
    unfold sys_bind at 1. rewrite R. destruct b.
    + destruct (IH past1) as (r & past2 & C & E). exists r, past2. split; [by econstructor|done].
    + exists (Some s), past1. split; [by constructor|done].
  - apply orb_false_iff in A as [-> ->]. apply IH.
Qed.

Lemma option_error_flag s : flag_option s -> option_error (setting_option s) = - setting_option s.
Proof.
  intros (k & Hk & ->). unfold option_error, i64, u64.
  assert (H : 2 ^ k < 2 ^ 30) by (apply Z.pow_lt_mono_r; lia). assert (0 < 2 ^ k) by lia.
  pow2_norm. zdiv_lia.
Qed.
End Specification.

(** ** The answers of the kernel that the code relies on

    [socket] answers a descriptor or -1, [bind] and [listen] answer 0 or -1. *)
Definition posix (kernel : list syscall -> syscall -> Z) : Prop :=
  forall past c,
    match c with
    | Socket _ _ _ => kernel past c = -1 \/ 0 <= kernel past c < 2 ^ 31
    | Bind _ _ _ | Listen _ _ => kernel past c = 0 \/ kernel past c = -1
    | _ => True
    end.

(** A kernel that answers [answer] to every call but [refused], which it refuses. *)
Definition refusing (refused : syscall -> bool) (answer : Z) (past : list syscall) (c : syscall) : Z :=
  if refused c then -1
  else match c with Socket _ _ _ => answer | _ => 0 end.

Lemma refusing_posix refused answer : 0 <= answer < 2 ^ 31 -> posix (refusing refused answer).
Proof. intros H past c. unfold refusing. destruct (refused c), c; auto. Qed.

(** ** Servers *)

Lemma i8_flag k : 1 <= k < 30 -> i8 (- 2 ^ k) = 0 <-> 8 <= k.
Proof.
  intros H.
  assert (F : forallb (fun k => Bool.eqb (i8 (- 2 ^ k) =? 0) (8 <=? k)) (seqZ 1 29) = true) by (vm_compute; reflexivity).
  rewrite forallb_forall in F. specialize (F k). rewrite <- list_elem_of_In, elem_of_seqZ in F.
  specialize (F ltac:(lia)). apply Bool.eqb_prop in F. destruct (Z.eqb_spec (i8 (- 2 ^ k)) 0), (Z.leb_spec 8 k); simplify_eq; lia.
Qed.

Lemma i8_setting s : flag_option s -> i8 (- setting_option s) = 0 <-> 256 <= setting_option s.
Proof.
  intros (k & Hk & ->). rewrite i8_flag by done. change 256 with (2 ^ 8). rewrite <- Z.pow_le_mono_r_iff; lia.
Qed.

Section Servers.
Context (kernel : list syscall -> syscall -> Z) (k : socket_kind) (c : socket_configuration) (past : list syscall).
Let fd : Z := kernel past (socket_call k).

(** The settings asked for were tried, up to [refused]. *)
Definition configured (refused : Datatypes.option setting) (calls : list syscall) : Prop :=
  fd <> -1 /\ configures kernel fd (List.filter (asked c) (settings k c)) (past ++ [socket_call k]) refused calls.

Lemma returned_create : exists result calls,
  returned (create kernel k c) past = (result, calls) /\
  ((fd = -1 /\ result = -1 /\ calls = past ++ [socket_call k]) \/
   (result = fd /\ configured None calls) \/
   (exists s, result = - setting_option s /\ flag_option s /\ configured (Some s) calls)).
Proof.
  unfold returned. rewrite create_run. cbv zeta. fold fd. destruct (Z.eqb_spec fd (-1)) as [E|E].
  { eexists _, _. split; [reflexivity|]. auto. }
  destruct (run_settings_configures kernel c fd (settings k c) (past ++ [socket_call k])) as (r & past' & C & ->).
  destruct r as [s|]; eexists _, _; (split; [reflexivity|]); right; [right|left].
  - exists s. assert (F : flag_option s).
    { apply configures_member, filter_In in C as [C _]. pose proof (settings_flags k c) as F.
      rewrite List.Forall_forall in F. by apply F. }
    by rewrite option_error_flag.
  - done.
Qed.

(** What a server, or the source of a client, reports: it is bound and listening on
    its descriptor with no error; the kernel refused a descriptor, the address or
    the queue, the error is -1; it refused a setting, the descriptor is zero and the
    error is what remains of the negated flag in an [int8_t]: nothing, from the
    flag [2 ^ 8] on. *)
Inductive reports (address : socket_address) (length : Z) (backlog : Datatypes.option Z) : Z -> Z -> list syscall -> Prop :=
| reports_ready created :
    configured None created -> kernel created (Bind fd address length) = 0 -> backlog = None ->
    reports address length backlog fd 0 (created ++ [Bind fd address length])
| reports_listening created b :
    configured None created -> kernel created (Bind fd address length) = 0 -> backlog = Some b ->
    kernel (created ++ [Bind fd address length]) (Listen fd b) = 0 ->
    reports address length backlog fd 0 (created ++ [Bind fd address length; Listen fd b])
| reports_no_descriptor :
    fd = -1 -> reports address length backlog 0 (-1) (past ++ [socket_call k])
| reports_not_bound created :
    configured None created -> kernel created (Bind fd address length) = -1 ->
    reports address length backlog fd (-1) (created ++ [Bind fd address length])
| reports_not_listening created b :
    configured None created -> kernel created (Bind fd address length) = 0 -> backlog = Some b ->
    kernel (created ++ [Bind fd address length]) (Listen fd b) = -1 ->
    reports address length backlog fd (-1) (created ++ [Bind fd address length; Listen fd b])
| reports_refused s error calls :
    configured (Some s) calls -> error = i8 (- setting_option s) -> (error = 0 <-> 256 <= setting_option s) ->
    reports address length backlog 0 error calls.

Context (K : posix kernel).

Lemma descriptor_range : fd <> -1 -> 0 <= fd < 2 ^ 31.
Proof. unfold fd. intros H. pose proof (K past (socket_call k)) as P. destruct k; cbn in *; lia. Qed.

Lemma finish_server_reports address length backlog :
  let '(s, calls) := finish_server kernel (create kernel k c) address length backlog past in
  sv_address s = address /\ sv_address_length s = length /\
  reports address length backlog (sv_fd s) (sv_initialization_error s) calls.
Proof.
  unfold finish_server. destruct returned_create as (r & calls & -> & [(E & -> & ->)|[[-> C]|(s & -> & F & C)]]).
  - cbn. split_and!; [done..|by constructor].
  - pose proof (descriptor_range (proj1 C)) as R. rewrite (proj2 (Z.ltb_ge fd 0)) by lia.
    rewrite swrap_small by (pow2_norm; lia). unfold returned, call.
    destruct (K calls (Bind fd address length)) as [B|B]; rewrite B; cbn.
    + destruct backlog as [b|]; [|split_and!; [done..|by constructor]].
      destruct (K (calls ++ [Bind fd address length]) (Listen fd b)) as [L|L]; rewrite L; cbn;
        rewrite <- app_assoc; (split_and!; [done..|by econstructor]).
    + split_and!; [done..|by constructor].
  - assert (N : - setting_option s < 0) by (destruct F as (j & Hj & ->); lia).
    rewrite (proj2 (Z.ltb_lt _ _) N). cbn. split_and!; [done..|].
    econstructor; [done..|by apply i8_setting].
Qed.

Lemma finish_client_reports destination source length :
  let '(s, calls) := finish_client kernel (create kernel k c) destination source length past in
  cl_destination s = destination /\ cl_source s = source /\
  match source with
  | Some address => reports address length None (cl_fd s) (cl_initialization_error s) calls
  | None => configured None calls /\ cl_fd s = fd /\ cl_initialization_error s = 0 \/
            cl_fd s = 0 /\ (fd = -1 /\ cl_initialization_error s = -1 \/
            exists refused, configured (Some refused) calls /\ cl_initialization_error s = i8 (- setting_option refused))
  end.
Proof.
  unfold finish_client. destruct returned_create as (r & calls & -> & [(E & -> & ->)|[[-> C]|(s & -> & F & C)]]).
  - cbn. split_and!; [done..|]. destruct source; [by constructor|auto].
  - pose proof (descriptor_range (proj1 C)) as R. rewrite (proj2 (Z.ltb_ge fd 0)) by lia.
    rewrite swrap_small by (pow2_norm; lia). destruct source as [address|]; [|cbn; split_and!; auto].
    unfold returned, call. destruct (K calls (Bind fd address length)) as [B|B]; rewrite B; cbn;
      (split_and!; [done..|by constructor]).
  - assert (N : - setting_option s < 0) by (destruct F as (j & Hj & ->); lia).
    rewrite (proj2 (Z.ltb_lt _ _) N). cbn. split_and!; [done..|].
    destruct source; [econstructor; [done..|by apply i8_setting]|]. right. eauto.
Qed.
End Servers.

(** ** Theorems *)

(** Creating a socket of any of the three kinds makes the settings asked for, in
    the order of the table, and nothing else; the result is the descriptor when the
    kernel agrees to all, the negated flag of the first setting it refuses, which is
    then the last call, and -1 when there is no descriptor. *)
Theorem transport_socket_create_configures kernel k c past :
  let fd := kernel past (socket_call k) in
  let '(result, calls) := returned (create kernel k c) past in
  (fd = -1 /\ result = -1 /\ calls = past ++ [socket_call k]) \/
  (fd <> -1 /\ exists refused,
    configures kernel fd (List.filter (asked c) (settings k c)) (past ++ [socket_call k]) refused calls /\
    result = match refused with None => fd | Some s => - setting_option s end).
Proof.
  cbv zeta. unfold returned. rewrite create_run. cbv zeta. destruct (Z.eqb_spec (kernel past (socket_call k)) (-1)) as [E|E].
  { by left. }
  destruct (run_settings_configures kernel c (kernel past (socket_call k)) (settings k c)
    (past ++ [socket_call k])) as (r & past' & C & ->).
  destruct r as [s|]; right; (split; [done|]); eexists; (split; [exact C|]); [|done].
  apply option_error_flag. apply configures_member, filter_In in C as [C _].
  pose proof (settings_flags k c) as F. rewrite List.Forall_forall in F. by apply F.
Qed.

(** A server of any kind reports what happened: without an error it is
    configured, bound and listening on its descriptor, in this order of calls, or
    it has the descriptor zero and the kernel refused a setting whose flag is
    [2 ^ 8] or more, which the [int8_t] of the error does not show; the other
    refusals are reported as errors.  A path that does not fit its array is
    written past its end. *)
Theorem transport_server_initialize_reports kernel c past (K : posix kernel) :
  (forall ip port, let '(s, calls) := transport_server_initialize_tcp kernel c ip port past in
     reports kernel Tcp c past (Inet_address ip (u16 port)) sizeof_sockaddr_in (Some (socket_max_connections c))
       (sv_fd s) (sv_initialization_error s) calls) /\
  (forall ip port, let '(s, calls) := transport_server_initialize_udp kernel c ip port past in
     reports kernel Udp c past (Inet_address ip (u16 port)) sizeof_sockaddr_in None
       (sv_fd s) (sv_initialization_error s) calls) /\
  (forall path, match transport_server_initialize_unix_stream kernel c path past with
     | Done (s, calls) => Z.of_nat (String.length path) < 108 /\
         reports kernel Unix_stream c past (Unix_address path) sizeof_sockaddr_un (Some (socket_max_connections c))
           (sv_fd s) (sv_initialization_error s) calls
     | Faults => 108 <= Z.of_nat (String.length path)
     | _ => False
     end).
Proof.
  split_and!; intros.
  - pose proof (finish_server_reports kernel Tcp c past K (Inet_address ip (u16 port)) sizeof_sockaddr_in
      (Some (socket_max_connections c))) as H. cbv beta delta [create] iota in H.
    unfold transport_server_initialize_tcp. destruct (finish_server _ _ _ _ _ _). tauto.
  - pose proof (finish_server_reports kernel Udp c past K (Inet_address ip (u16 port)) sizeof_sockaddr_in None) as H.
    cbv beta delta [create] iota in H. unfold transport_server_initialize_udp. destruct (finish_server _ _ _ _ _ _). tauto.
  - unfold transport_server_initialize_unix_stream, copy_path, sun_path_size.
    destruct (Z.ltb_spec (Z.of_nat (String.length path)) 108) as [L|L]; [|done].
    pose proof (finish_server_reports kernel Unix_stream c past K (Unix_address path) sizeof_sockaddr_un
      (Some (socket_max_connections c))) as H. cbv beta delta [create] iota in H.
    rewrite bind_done. destruct (finish_server _ _ _ _ _ _). tauto.
Qed.

(** Destroying a server or a client of a path removes the path from the file
    system: the path of the server a client was connected to, too.  An internet
    address takes no call. *)
Theorem transport_destroy_unlinks kernel c path past (L : Z.of_nat (String.length path) < 108) :
  (exists s calls, transport_server_initialize_unix_stream kernel c path past = Done (s, calls) /\
     forall past, transport_server_destroy s past = past ++ [Unlink path]) /\
  (exists s calls, transport_client_initialize_unix_stream kernel c path past = Done (s, calls) /\
     forall past, transport_client_destroy s past = past ++ [Unlink path]) /\
  (forall ip port past', transport_server_destroy (fst (transport_server_initialize_tcp kernel c ip port past)) past' = past') /\
  (forall ip port past', transport_client_destroy (fst (transport_client_initialize_tcp kernel c ip port past)) past' = past').
Proof.
  assert (S : forall create address length backlog,
      sv_address (fst (finish_server kernel create address length backlog past)) = address).
  { intros. unfold finish_server. repeat case_match; done. }
  assert (C : forall create destination source length,
      cl_destination (fst (finish_client kernel create destination source length past)) = destination).
  { intros. unfold finish_client. repeat case_match; done. }
  unfold transport_server_initialize_unix_stream, transport_client_initialize_unix_stream, copy_path, sun_path_size,
    transport_server_initialize_tcp, transport_client_initialize_tcp, transport_server_destroy, transport_client_destroy.
  rewrite (proj2 (Z.ltb_lt _ _) L), !bind_done. split_and!.
  - eexists _, _. split; [f_equal; apply surjective_pairing|]. intros. by rewrite S.
  - eexists _, _. split; [f_equal; apply surjective_pairing|]. intros. by rewrite C.
  - intros. by rewrite S.
  - intros. by rewrite C.
Qed.

(** The mode of a file and what is asked of it decide the flags of [open], which
    are those of one access mode, appending or not, whatever the mode. *)
Theorem file_options_access mode truncate create :
  let o := file_options mode truncate create in
  Z.testbit o 9 = truncate /\ Z.testbit o 6 = create /\
  Z.testbit o 10 = ((mode =? 8) || (mode =? 16)) /\
  Z.land o 3 = (if (mode =? 2) || (mode =? 8) then 1 else if (mode =? 4) || (mode =? 16) then 2 else 0).
Proof.
  unfold file_options. change TRANSPORT_READ_ONLY with 1. change TRANSPORT_WRITE_ONLY with 2.
  change TRANSPORT_READ_WRITE with 4. change TRANSPORT_WRITE_ONLY_APPEND with 8. change TRANSPORT_READ_WRITE_APPEND with 16.
  destruct (Z.eqb_spec mode 1); [subst; destruct truncate, create; split_and!; reflexivity|].
  destruct (Z.eqb_spec mode 2); [subst; destruct truncate, create; split_and!; reflexivity|].
  destruct (Z.eqb_spec mode 4); [subst; destruct truncate, create; split_and!; reflexivity|].
  destruct (Z.eqb_spec mode 8); [subst; destruct truncate, create; split_and!; reflexivity|].
  destruct (Z.eqb_spec mode 16); [subst|]; destruct truncate, create; split_and!; reflexivity.
Qed.

(** ** Witnesses *)

(** A socket that disables the delay of small segments and gives the queue of 100 connections. *)
Definition no_delay : socket_configuration :=
  SocketConfiguration 100 TRANSPORT_SOCKET_OPTION_TCP_NODELAY 0 0 0 0 0 0 0 0 0 0 0 0.

Definition refuses_no_delay (c : syscall) : bool :=
  match c with Setsockopt _ TCP_NODELAY _ => true | _ => false end.

(** Every call is answered, and the setting is refused: no error either way. *)
Lemma transport_server_initialize_reports_witness :
  (let '(s, calls) := transport_server_initialize_tcp (refusing (fun _ => false) 5) no_delay 0 80 [] in
   sv_fd s = 5 /\ sv_initialization_error s = 0 /\
   reports (refusing (fun _ => false) 5) Tcp no_delay [] (Inet_address 0 80) sizeof_sockaddr_in (Some 100) 5 0 calls) /\
  (let '(s, calls) := transport_server_initialize_tcp (refusing refuses_no_delay 5) no_delay 0 80 [] in
   sv_fd s = 0 /\ sv_initialization_error s = 0 /\
   reports (refusing refuses_no_delay 5) Tcp no_delay [] (Inet_address 0 80) sizeof_sockaddr_in (Some 100) 0 0 calls).
Proof.
  split.
  - destruct (transport_server_initialize_reports (refusing (fun _ => false) 5) no_delay []
      (refusing_posix _ 5 ltac:(lia))) as [H _]. specialize (H 0 80). vm_compute in H |- *. auto.
  - destruct (transport_server_initialize_reports (refusing refuses_no_delay 5) no_delay []
      (refusing_posix _ 5 ltac:(lia))) as [H _]. specialize (H 0 80). vm_compute in H |- *. auto.
Defined.

Lemma transport_destroy_unlinks_witness :
  exists s calls, transport_client_initialize_unix_stream (refusing (fun _ => false) 5) no_delay "/tmp/socket" [] = Done (s, calls) /\
    forall past, transport_client_destroy s past = past ++ [Unlink "/tmp/socket"].
Proof.
  exact (proj1 (proj2 (transport_destroy_unlinks (refusing (fun _ => false) 5) no_delay "/tmp/socket" [] ltac:(cbn; lia)))).
Defined.
