(* ===== verification/MsgPack.v ===== *)
(** * Message pack ([storage/dart/assets/msgpuck.h])

    The encoders and the decoders of the header the storage reads its batches with.

    A buffer is the list of its bytes and a pointer into it is an index, which may
    be past the end as long as nothing is read there; an encoder gives the bytes it
    stores.  A failed assertion and [mp_unreachable] fault.  The tables
    [mp_type_hint], [mp_parser_hint] and [mp_ext_hint] are external to the header:
    they are the class [Hints], and what the header documents of their contents is
    the class [Documented_hints]. *)
From S2P Require Import Prelude.

(** ** Bytes *)

Definition mp_load (n : nat) (buf : list Z) (p : Z) : outcome (Z * Z) :=
  v ← demand (load_le n buf p); Done (bswap n v, p + Z.of_nat n).
Definition mp_load_u8 (buf : list Z) (p : Z) : outcome (Z * Z) :=
  v ← demand (load_le 1 buf p); Done (v, p + 1).
Definition mp_load_u16 : list Z -> Z -> outcome (Z * Z) := mp_load 2.
Definition mp_load_u32 : list Z -> Z -> outcome (Z * Z) := mp_load 4.
Definition mp_load_u64 : list Z -> Z -> outcome (Z * Z) := mp_load 8.

Definition mp_store (n : nat) (v : Z) : list Z := le_split n (bswap n (wrap (8 * Z.of_nat n) v)).
Definition mp_store_u8 (v : Z) : list Z := [u8 v].
Definition mp_store_u16 : Z -> list Z := mp_store 2.
Definition mp_store_u32 : Z -> list Z := mp_store 4.
Definition mp_store_u64 : Z -> list Z := mp_store 8.

(** A float or a double is its bits. *)
Definition mp_load_float : list Z -> Z -> outcome (Z * Z) := mp_load 4.
Definition mp_load_double : list Z -> Z -> outcome (Z * Z) := mp_load 8.
Definition mp_store_float : Z -> list Z := mp_store 4.
Definition mp_store_double : Z -> list Z := mp_store 8.

Definition mp_memcpy (str : list Z) (len : Z) : outcome (list Z) :=
  if (0 <=? len) && (len <=? Z.of_nat (length str)) then Done (take (Z.to_nat len) str) else Faults.

Definition UINT8_MAX : Z := 2 ^ 8 - 1.
Definition UINT16_MAX : Z := 2 ^ 16 - 1.
Definition UINT32_MAX : Z := 2 ^ 32 - 1.

(** ** Types and tables *)

Inductive mp_type := MP_NIL | MP_UINT | MP_INT | MP_STR | MP_BIN | MP_ARRAY | MP_MAP | MP_BOOL | MP_FLOAT | MP_DOUBLE | MP_EXT.
#[export] Instance mp_type_eq_dec : EqDecision mp_type.
Proof. solve_decision. Defined.

Definition MP_HINT : Z := -32.
Definition MP_HINT_STR_8 : Z := MP_HINT.
Definition MP_HINT_STR_16 : Z := MP_HINT - 1.
Definition MP_HINT_STR_32 : Z := MP_HINT - 2.
Definition MP_HINT_ARRAY_16 : Z := MP_HINT - 3.
Definition MP_HINT_ARRAY_32 : Z := MP_HINT - 4.
Definition MP_HINT_MAP_16 : Z := MP_HINT - 5.
Definition MP_HINT_MAP_32 : Z := MP_HINT - 6.
Definition MP_HINT_EXT_8 : Z := MP_HINT - 7.
Definition MP_HINT_EXT_16 : Z := MP_HINT - 8.
Definition MP_HINT_EXT_32 : Z := MP_HINT - 9.
Definition MP_HINT_INVALID : Z := MP_HINT - 10.

Class Hints := {
  mp_type_hint : Z -> mp_type;
  mp_parser_hint : Z -> Z;
  mp_ext_hint : Z -> Z;
}.

Section Codec.
Context {H : Hints}.

Definition mp_typeof (c : Z) : mp_type := mp_type_hint c.

(** ** Sizes and encoders *)

Definition mp_sizeof_array (size : Z) : Z :=
  if size <=? 15 then 1 else if size <=? UINT16_MAX then 1 + 2 else 1 + 4.
Definition mp_encode_array (size : Z) : list Z :=
  if size <=? 15 then mp_store_u8 (Z.lor 0x90 size)
  else if size <=? UINT16_MAX then mp_store_u8 0xdc ++ mp_store_u16 size
  else mp_store_u8 0xdd ++ mp_store_u32 size.

Definition mp_sizeof_map (size : Z) : Z :=
  if size <=? 15 then 1 else if size <=? UINT16_MAX then 1 + 2 else 1 + 4.
Definition mp_encode_map (size : Z) : list Z :=
  if size <=? 15 then mp_store_u8 (Z.lor 0x80 size)
  else if size <=? UINT16_MAX then mp_store_u8 0xde ++ mp_store_u16 size
  else mp_store_u8 0xdf ++ mp_store_u32 size.

Definition fixed_ext (len : Z) : bool := negb (len =? 0) && (len <=? 16) && negb (mp_ext_hint (len - 1) =? 0).
Definition mp_sizeof_extl (len : Z) : Z :=
  if fixed_ext len then 2 else if len <=? UINT8_MAX then 3 else if len <=? UINT16_MAX then 4 else 6.
Definition mp_sizeof_ext (len : Z) : Z := u32 (mp_sizeof_extl len + len).
Definition mp_encode_extl (type len : Z) : list Z :=
  (if fixed_ext len then mp_store_u8 (mp_ext_hint (len - 1))
   else if len <=? UINT8_MAX then mp_store_u8 0xc7 ++ mp_store_u8 len
   else if len <=? UINT16_MAX then mp_store_u8 0xc8 ++ mp_store_u16 len
   else mp_store_u8 0xc9 ++ mp_store_u32 len) ++ mp_store_u8 type.
Definition mp_encode_ext (type : Z) (str : list Z) (len : Z) : outcome (list Z) :=
  bytes ← mp_memcpy str len; Done (mp_encode_extl type len ++ bytes).

Definition mp_sizeof_uint (num : Z) : Z :=
  if num <=? 0x7f then 1 else if num <=? UINT8_MAX then 1 + 1 else if num <=? UINT16_MAX then 1 + 2
  else if num <=? UINT32_MAX then 1 + 4 else 1 + 8.
Definition mp_encode_uint (num : Z) : list Z :=
  if num <=? 0x7f then mp_store_u8 num
  else if num <=? UINT8_MAX then mp_store_u8 0xcc ++ mp_store_u8 num
  else if num <=? UINT16_MAX then mp_store_u8 0xcd ++ mp_store_u16 num
  else if num <=? UINT32_MAX then mp_store_u8 0xce ++ mp_store_u32 num
  else mp_store_u8 0xcf ++ mp_store_u64 num.

Definition mp_sizeof_int (num : Z) : outcome Z :=
  if negb (num <? 0) then Faults else
  Done (if -0x20 <=? num then 1
        else if (- 2 ^ 7 <=? num) && (num <=? 2 ^ 7 - 1) then 1 + 1
        else if (- 2 ^ 15 <=? num) && (num <=? UINT16_MAX) then 1 + 2
        else if (- 2 ^ 31 <=? num) && (num <=? UINT32_MAX) then 1 + 4
        else 1 + 8).
Definition mp_encode_int (num : Z) : outcome (list Z) :=
  if negb (num <? 0) then Faults else
  Done (if -0x20 <=? num then mp_store_u8 (Z.lor 0xe0 num)
        else if - 2 ^ 7 <=? num then mp_store_u8 0xd0 ++ mp_store_u8 num
        else if - 2 ^ 15 <=? num then mp_store_u8 0xd1 ++ mp_store_u16 num
        else if - 2 ^ 31 <=? num then mp_store_u8 0xd2 ++ mp_store_u32 num
        else mp_store_u8 0xd3 ++ mp_store_u64 num).

Definition mp_sizeof_float (num : Z) : Z := 1 + 4.
Definition mp_sizeof_double (num : Z) : Z := 1 + 8.
Definition mp_encode_float (num : Z) : list Z := mp_store_u8 0xca ++ mp_store_float num.
Definition mp_encode_double (num : Z) : list Z := mp_store_u8 0xcb ++ mp_store_double num.

Definition mp_sizeof_strl (len : Z) : Z :=
  if len <=? 31 then 1 else if len <=? UINT8_MAX then 1 + 1 else if len <=? UINT16_MAX then 1 + 2 else 1 + 4.
Definition mp_sizeof_str (len : Z) : Z := u32 (mp_sizeof_strl len + len).
Definition mp_encode_strl (len : Z) : list Z :=
  if len <=? 31 then mp_store_u8 (Z.lor 0xa0 (u8 len))
  else if len <=? UINT8_MAX then mp_store_u8 0xd9 ++ mp_store_u8 len
  else if len <=? UINT16_MAX then mp_store_u8 0xda ++ mp_store_u16 len
  else mp_store_u8 0xdb ++ mp_store_u32 len.
Definition mp_encode_str (str : list Z) (len : Z) : outcome (list Z) :=
  bytes ← mp_memcpy str len; Done (mp_encode_strl len ++ bytes).

Definition mp_sizeof_binl (len : Z) : Z :=
  if len <=? UINT8_MAX then 1 + 1 else if len <=? UINT16_MAX then 1 + 2 else 1 + 4.
Definition mp_sizeof_bin (len : Z) : Z := u32 (mp_sizeof_binl len + len).
Definition mp_encode_binl (len : Z) : list Z :=
  if len <=? UINT8_MAX then mp_store_u8 0xc4 ++ mp_store_u8 len
  else if len <=? UINT16_MAX then mp_store_u8 0xc5 ++ mp_store_u16 len
  else mp_store_u8 0xc6 ++ mp_store_u32 len.
Definition mp_encode_bin (str : list Z) (len : Z) : outcome (list Z) :=
  bytes ← mp_memcpy str len; Done (mp_encode_binl len ++ bytes).

Definition mp_sizeof_nil : Z := 1.
Definition mp_encode_nil : list Z := mp_store_u8 0xc0.
Definition mp_sizeof_bool (val : bool) : Z := 1.
Definition mp_encode_bool (val : bool) : list Z := mp_store_u8 (Z.lor 0xc2 (if val then 1 else 0)).

(** *** The safe variants

    The number of bytes left, when there is one, goes down by the size of the
    encoding; nothing is stored when it gets negative. *)
Definition safely (size : Z) (bytes : outcome (list Z)) (data_sz : option Z) : outcome (list Z * option Z) :=
  match data_sz with
  | None => bytes ← bytes; Done (bytes, None)
  | Some sz =>
      let sz := sz - size in
      if sz <? 0 then Done ([], Some sz) else bytes ← bytes; Done (bytes, Some sz)
  end.
Definition mp_encode_array_safe data_sz size := safely (mp_sizeof_array size) (Done (mp_encode_array size)) data_sz.
Definition mp_encode_map_safe data_sz size := safely (mp_sizeof_map size) (Done (mp_encode_map size)) data_sz.
Definition mp_encode_extl_safe data_sz type len := safely (mp_sizeof_extl len) (Done (mp_encode_extl type len)) data_sz.
Definition mp_encode_ext_safe data_sz type str len := safely (mp_sizeof_ext len) (mp_encode_ext type str len) data_sz.
Definition mp_encode_uint_safe data_sz num := safely (mp_sizeof_uint num) (Done (mp_encode_uint num)) data_sz.
Definition mp_encode_int_safe (data_sz : option Z) num : outcome (list Z * option Z) :=
  match data_sz with
  | None => safely 0 (mp_encode_int num) None
  | Some _ => size ← mp_sizeof_int num; safely size (mp_encode_int num) data_sz
  end.
Definition mp_encode_float_safe data_sz num := safely (mp_sizeof_float num) (Done (mp_encode_float num)) data_sz.
Definition mp_encode_double_safe data_sz num := safely (mp_sizeof_double num) (Done (mp_encode_double num)) data_sz.
Definition mp_memcpy_safe data_sz str len := safely len (mp_memcpy str len) data_sz.
Definition mp_encode_strl_safe data_sz len := safely (mp_sizeof_strl len) (Done (mp_encode_strl len)) data_sz.
Definition mp_encode_str_safe data_sz str len := safely (mp_sizeof_str len) (mp_encode_str str len) data_sz.
Definition mp_encode_binl_safe data_sz len := safely (mp_sizeof_binl len) (Done (mp_encode_binl len)) data_sz.
Definition mp_encode_bin_safe data_sz str len := safely (mp_sizeof_bin len) (mp_encode_bin str len) data_sz.
Definition mp_encode_nil_safe data_sz := safely mp_sizeof_nil (Done mp_encode_nil) data_sz.
Definition mp_encode_bool_safe data_sz val := safely (mp_sizeof_bool val) (Done (mp_encode_bool val)) data_sz.

(** ** Decoders: the value and the pointer after it *)

Definition mp_decode_array_slowpath (c : Z) (buf : list Z) (p : Z) : outcome (Z * Z) :=
  if Z.land c 0x1 =? Z.land 0xdc 0x1 then mp_load_u16 buf p else mp_load_u32 buf p.
Definition mp_decode_array (buf : list Z) (p : Z) : outcome (Z * Z) :=
  '(c, p) ← mp_load_u8 buf p;
  if Z.land c 0x40 =? 0 then Done (Z.land c 0xf, p) else mp_decode_array_slowpath c buf p.

Definition mp_decode_map (buf : list Z) (p : Z) : outcome (Z * Z) :=
  '(c, p) ← mp_load_u8 buf p;
  if c =? 0xde then mp_load_u16 buf p
  else if c =? 0xdf then mp_load_u32 buf p
  else if (c <? 0x80) || (0x8f <? c) then Faults
  else Done (Z.land c 0xf, p).

(** The length and the type. *)
Definition mp_decode_extl (buf : list Z) (p : Z) : outcome (Z * Z * Z) :=
  '(c, p) ← mp_load_u8 buf p;
  '(len, p) ← (if (0xd4 <=? c) && (c <=? 0xd8) then Done (Z.shiftl 1 (c - 0xd4), p)
               else if c =? 0xc7 then mp_load_u8 buf p
               else if c =? 0xc8 then mp_load_u16 buf p
               else if c =? 0xc9 then mp_load_u32 buf p
               else Faults);
  '(type, p) ← mp_load_u8 buf p;
  Done (len, i8 type, p).
(** The start of the payload, its length and the type. *)
Definition mp_decode_ext (buf : list Z) (p : Z) : outcome (Z * Z * Z * Z) :=
  '(len, type, p) ← mp_decode_extl buf p; Done (p, len, type, p + len).

Definition mp_decode_uint (buf : list Z) (p : Z) : outcome (Z * Z) :=
  '(c, p) ← mp_load_u8 buf p;
  if c =? 0xcc then mp_load_u8 buf p
  else if c =? 0xcd then mp_load_u16 buf p
  else if c =? 0xce then mp_load_u32 buf p
  else if c =? 0xcf then mp_load_u64 buf p
  else if 0x7f <? c then Faults
  else Done (c, p).

Definition signed (w : Z) (m : outcome (Z * Z)) : outcome (Z * Z) := '(v, p) ← m; Done (swrap w v, p).
Definition mp_decode_int (buf : list Z) (p : Z) : outcome (Z * Z) :=
  '(c, p) ← mp_load_u8 buf p;
  if c =? 0xd0 then signed 8 (mp_load_u8 buf p)
  else if c =? 0xd1 then signed 16 (mp_load_u16 buf p)
  else if c =? 0xd2 then signed 32 (mp_load_u32 buf p)
  else if c =? 0xd3 then signed 64 (mp_load_u64 buf p)
  else if c <? 0xe0 then Faults
  else Done (i8 c, p).

(** The sign of the difference; both are in their shortest form. *)
Definition mp_compare_uint (buf_a : list Z) (a : Z) (buf_b : list Z) (b : Z) : outcome Z :=
  '(ca, a) ← mp_load_u8 buf_a a;
  '(cb, b) ← mp_load_u8 buf_b b;
  let r := ca - cb in
  if negb (r =? 0) then Done r else
  if ca <=? 0x7f then Done 0 else
  let sign v := (if v >? 0 then 1 else 0) - (if v <? 0 then 1 else 0) in
  if Z.land ca 0x3 =? Z.land 0xcf 0x3 then
    '(va, _) ← mp_load_u64 buf_a a; '(vb, _) ← mp_load_u64 buf_b b;
    Done (if va <? vb then -1 else if va >? vb then 1 else 0)
  else
  let load := if Z.land ca 0x3 =? Z.land 0xcc 0x3 then mp_load_u8
              else if Z.land ca 0x3 =? Z.land 0xcd 0x3 then mp_load_u16 else mp_load_u32 in
  '(va, _) ← load buf_a a; '(vb, _) ← load buf_b b;
  Done (sign (i64 (u64 (va - vb)))).

Definition mp_decode_float (buf : list Z) (p : Z) : outcome (Z * Z) :=
  '(c, p) ← mp_load_u8 buf p; if c =? 0xca then mp_load_float buf p else Faults.
Definition mp_decode_double (buf : list Z) (p : Z) : outcome (Z * Z) :=
  '(c, p) ← mp_load_u8 buf p; if c =? 0xcb then mp_load_double buf p else Faults.

Definition mp_decode_strl (buf : list Z) (p : Z) : outcome (Z * Z) :=
  '(c, p) ← mp_load_u8 buf p;
  if c =? 0xd9 then mp_load_u8 buf p
  else if c =? 0xda then mp_load_u16 buf p
  else if c =? 0xdb then mp_load_u32 buf p
  else if (c <? 0xa0) || (0xbf <? c) then Faults
  else Done (Z.land c 0x1f, p).
Definition mp_decode_binl (buf : list Z) (p : Z) : outcome (Z * Z) :=
  '(c, p) ← mp_load_u8 buf p;
  if c =? 0xc4 then mp_load_u8 buf p
  else if c =? 0xc5 then mp_load_u16 buf p
  else if c =? 0xc6 then mp_load_u32 buf p
  else Faults.
Definition mp_decode_strbinl (buf : list Z) (p : Z) : outcome (Z * Z) :=
  '(c, p) ← mp_load_u8 buf p;
  if c =? 0xd9 then mp_load_u8 buf p
  else if c =? 0xda then mp_load_u16 buf p
  else if c =? 0xdb then mp_load_u32 buf p
  else if c =? 0xc4 then mp_load_u8 buf p
  else if c =? 0xc5 then mp_load_u16 buf p
  else if c =? 0xc6 then mp_load_u32 buf p
  else if (c <? 0xa0) || (0xbf <? c) then Faults
  else Done (Z.land c 0x1f, p).

(** The start of the contents, their length, and the pointer after them. *)
Definition contents (m : outcome (Z * Z)) : outcome (Z * Z * Z) := '(len, p) ← m; Done (p, len, p + len).
Definition mp_decode_str (buf : list Z) (p : Z) : outcome (Z * Z * Z) := contents (mp_decode_strl buf p).
Definition mp_decode_bin (buf : list Z) (p : Z) : outcome (Z * Z * Z) := contents (mp_decode_binl buf p).
Definition mp_decode_strbin (buf : list Z) (p : Z) : outcome (Z * Z * Z) := contents (mp_decode_strbinl buf p).

Definition mp_decode_nil (buf : list Z) (p : Z) : outcome Z :=
  '(c, p) ← mp_load_u8 buf p; if c =? 0xc0 then Done p else Faults.
Definition mp_decode_bool (buf : list Z) (p : Z) : outcome (bool * Z) :=
  '(c, p) ← mp_load_u8 buf p;
  if c =? 0xc3 then Done (true, p) else if c =? 0xc2 then Done (false, p) else Faults.
End Codec.

(** ** What the tables hold

    The type of a value by its first byte; what to do after the first byte: the
    length of the rest when it is known, minus the number of values inside when it
    is known, or the hint; and the first byte of an extension of a fixed length. *)
Definition documented_type (c : Z) : mp_type :=
  if c <=? 0x7f then MP_UINT else if c <=? 0x8f then MP_MAP else if c <=? 0x9f then MP_ARRAY
  else if c <=? 0xbf then MP_STR else if c =? 0xc0 then MP_NIL else if c =? 0xc1 then MP_EXT
  else if c <=? 0xc3 then MP_BOOL else if c <=? 0xc6 then MP_BIN else if c <=? 0xc9 then MP_EXT
  else if c =? 0xca then MP_FLOAT else if c =? 0xcb then MP_DOUBLE else if c <=? 0xcf then MP_UINT
  else if c <=? 0xd3 then MP_INT else if c <=? 0xd8 then MP_EXT else if c <=? 0xdb then MP_STR
  else if c <=? 0xdd then MP_ARRAY else if c <=? 0xdf then MP_MAP else MP_INT.

Definition documented_hint (c : Z) : Z :=
  if c <=? 0x7f then 0 else if c <=? 0x8f then - 2 * (c - 0x80) else if c <=? 0x9f then - (c - 0x90)
  else if c <=? 0xbf then c - 0xa0 else
  nth (Z.to_nat (c - 0xc0))
    [0; MP_HINT_INVALID; 0; 0; MP_HINT_STR_8; MP_HINT_STR_16; MP_HINT_STR_32; MP_HINT_EXT_8; MP_HINT_EXT_16; MP_HINT_EXT_32;
     4; 8; 1; 2; 4; 8; 1; 2; 4; 8; 2; 3; 5; 9; 17; MP_HINT_STR_8; MP_HINT_STR_16; MP_HINT_STR_32;
     MP_HINT_ARRAY_16; MP_HINT_ARRAY_32; MP_HINT_MAP_16; MP_HINT_MAP_32] 0.

Definition documented_ext (i : Z) : Z :=
  nth (Z.to_nat i) [0xd4; 0xd5; 0; 0xd6; 0; 0; 0; 0xd7; 0; 0; 0; 0; 0; 0; 0; 0xd8] 0.

Class Documented_hints (H : Hints) : Prop := {
  type_hint_documented c : byte_range c -> mp_type_hint c = documented_type c;
  parser_hint_documented c : byte_range c -> mp_parser_hint c = documented_hint c;
  ext_hint_documented i : 0 <= i < 16 -> mp_ext_hint i = documented_ext i;
}.

(** Tables with these contents. *)
Definition message_pack_hints : Hints := {|
  mp_type_hint := documented_type; mp_parser_hint := documented_hint; mp_ext_hint := documented_ext |}.
#[export] Instance message_pack_hints_documented : Documented_hints message_pack_hints.
Proof. by constructor. Qed.

(** ** Loads and stores *)

(** A number that was stored is loaded, at any place of a buffer. *)
Lemma mp_load_store n v pre post :
  mp_load n (pre ++ mp_store n v ++ post) (Z.of_nat (length pre)) =
  Done (wrap (8 * Z.of_nat n) v, Z.of_nat (length pre + n)).
Proof.
  unfold mp_load, mp_store. rewrite load_le_at by apply le_split_length. cbn [demand]. rewrite bind_done.
  rewrite le_combine_split, Z.mod_small by apply bswap_bound. rewrite bswap_bswap.
  f_equal. f_equal; [|lia].
  replace (256 ^ Z.of_nat n) with (2 ^ (8 * Z.of_nat n)) by (rewrite Z.pow_mul_r by lia; done).
  rewrite Z.mod_small; [done|]. apply wrap_bound. lia.
Qed.

Lemma mp_load_u8_at b pre post :
  mp_load_u8 (pre ++ b :: post) (Z.of_nat (length pre)) = Done (b, Z.of_nat (length pre + 1)).
Proof.
  unfold mp_load_u8. change (pre ++ b :: post) with (pre ++ [b] ++ post). rewrite load_le_at by done. cbn [demand le_combine]. rewrite bind_done.
  f_equal. f_equal; lia.
Qed.

(** A load either gives a number of its width and moves on, or is out of the buffer. *)
Lemma mp_load_cases n buf p : Forall byte_range buf ->
  (exists v, mp_load n buf p = Done (v, p + Z.of_nat n) /\ 0 <= v < 256 ^ Z.of_nat n /\
     0 <= p /\ p + Z.of_nat n <= Z.of_nat (length buf)) \/
  (mp_load n buf p = Faults /\ (p < 0 \/ Z.of_nat (length buf) < p + Z.of_nat n)).
Proof.
  intros Hb. unfold mp_load, load_le. destruct (Z.leb_spec 0 p), (Z.leb_spec (p + Z.of_nat n) (Z.of_nat (length buf)));
    cbn [andb demand]; [|right; split; [done|lia]..].
  left. eexists. rewrite bind_done. split; [reflexivity|]. split; [apply bswap_bound|lia].
Qed.

Lemma mp_load_u8_cases buf p : Forall byte_range buf ->
  (exists v, mp_load_u8 buf p = Done (v, p + 1) /\ byte_range v /\ 0 <= p < Z.of_nat (length buf)) \/
  (mp_load_u8 buf p = Faults /\ (p < 0 \/ Z.of_nat (length buf) <= p)).
Proof.
  intros Hb. unfold mp_load_u8. destruct (load_le 1 buf p) as [v|] eqn:E; cbn [demand].
  - left. exists v. rewrite bind_done. pose proof (load_le_bound 1 buf p v Hb E) as R. split; [done|].
    unfold load_le in E. case_match eqn:C; [|done]. apply andb_prop in C as [C1 C2].
    apply Z.leb_le in C1, C2. split; [exact R|lia].
  - right. split; [done|]. unfold load_le in E. case_match eqn:C; [done|].
    apply andb_false_iff in C as [C|C]; apply Z.leb_gt in C; lia.
Qed.
