(* ===== verification/MsgSkip.v ===== *)
(** * Skipping and checking message pack values ([storage/dart/assets/msgpuck.h])

    [mp_next] and [mp_check] go over a value without recursion: they count the
    values that are still to come, in an [int64_t].  A header of five bytes adds up to
    [2 ^ 33 - 2] values, so that the count passes [2 ^ 63] only in data of five
    gigabytes and more.  There, an addition of a signed or of a narrower number is
    undefined, and the one of a 32-bit map, an [uint64_t], wraps the count. *)
From S2P Require Import Prelude MsgPack.

Section Skip.
Context {H : Hints}.

(** ** Reading integers that may not fit

    [None] is the answer -1, the pointer is then left where it was. *)
Definition read (w : Z) (m : outcome (Z * Z)) : outcome (option (Z * Z)) := '(v, p) ← m; Done (Some (swrap w v, p)).
Definition read_limited (max : Z) (m : outcome (Z * Z)) : outcome (option (Z * Z)) :=
  '(v, p) ← m; Done (if max <? v then None else Some (v, p)).
Definition read_plain (m : outcome (Z * Z)) : outcome (option (Z * Z)) := '(v, p) ← m; Done (Some (v, p)).
Definition read_fixed (c p : Z) : outcome (option (Z * Z)) :=
  Done (if (c <? 0xe0) && (0x7f <? c) then None else Some (i8 c, p)).

Definition mp_read_int8 (buf : list Z) (p : Z) : outcome (option (Z * Z)) :=
  '(c, p) ← mp_load_u8 buf p;
  if c =? 0xd0 then read 8 (mp_load_u8 buf p)
  else if c =? 0xcc then read_limited (2 ^ 7 - 1) (mp_load_u8 buf p)
  else read_fixed c p.
Definition mp_read_int16 (buf : list Z) (p : Z) : outcome (option (Z * Z)) :=
  '(c, p) ← mp_load_u8 buf p;
  if c =? 0xd0 then read 8 (mp_load_u8 buf p)
  else if c =? 0xd1 then read 16 (mp_load_u16 buf p)
  else if c =? 0xcc then read_plain (mp_load_u8 buf p)
  else if c =? 0xcd then read_limited (2 ^ 15 - 1) (mp_load_u16 buf p)
  else read_fixed c p.
Definition mp_read_int32 (buf : list Z) (p : Z) : outcome (option (Z * Z)) :=
  '(c, p) ← mp_load_u8 buf p;
  if c =? 0xd0 then read 8 (mp_load_u8 buf p)
  else if c =? 0xd1 then read 16 (mp_load_u16 buf p)
  else if c =? 0xd2 then read 32 (mp_load_u32 buf p)
  else if c =? 0xcc then read_plain (mp_load_u8 buf p)
  else if c =? 0xcd then read_plain (mp_load_u16 buf p)
  else if c =? 0xce then read_limited (2 ^ 31 - 1) (mp_load_u32 buf p)
  else read_fixed c p.
Definition mp_read_int64 (buf : list Z) (p : Z) : outcome (option (Z * Z)) :=
  '(c, p) ← mp_load_u8 buf p;
  if c =? 0xd0 then read 8 (mp_load_u8 buf p)
  else if c =? 0xd1 then read 16 (mp_load_u16 buf p)
  else if c =? 0xd2 then read 32 (mp_load_u32 buf p)
  else if c =? 0xd3 then read 64 (mp_load_u64 buf p)
  else if c =? 0xcc then read_plain (mp_load_u8 buf p)
  else if c =? 0xcd then read_plain (mp_load_u16 buf p)
  else if c =? 0xce then read_plain (mp_load_u32 buf p)
  else if c =? 0xcf then read_limited (2 ^ 63 - 1) (mp_load_u64 buf p)
  else read_fixed c p.

(** ** Skipping *)

(** Past a payload of [n] bytes of length, then the length itself; an extension has
    a byte of type in between. *)
Definition skip_payload (load : list Z -> Z -> outcome (Z * Z)) (buf : list Z) (p : Z) : outcome Z :=
  '(len, p) ← load buf p; Done (p + len).
Definition skip_ext (load : list Z -> Z -> outcome (Z * Z)) (buf : list Z) (p : Z) : outcome Z :=
  '(len, p) ← load buf p; '(_, p) ← mp_load_u8 buf p; Done (p + len).

(** [k += n] and [k -= l], of numbers converted to [int64_t], and [k += n] of an
    [uint64_t], which converts [k] there and back.  The [k--] that follows every
    iteration overflows for one value only, which the second one excludes. *)
Definition count_add (k n : Z) : outcome Z := if k + n <? 2 ^ 63 then Done (k + n) else Faults.
Definition count_add_wide (k n : Z) : outcome Z :=
  let k := swrap 64 (k + n) in if k =? - 2 ^ 63 then Faults else Done k.

(** The loop over eight equal bytes at a time. *)
Fixpoint skip_same (fuel : nat) (buf : list Z) (c p k : Z) : outcome (Z * Z) :=
  if k >? 8 then
    match fuel with
    | O => Spins
    | S fuel =>
        '(u, next) ← mp_load_u64 buf p;
        if negb (u =? u64 (c * 0x0101010101010101)) then Done (p, k)
        else skip_same fuel buf c next (k - 8)
    end
  else Done (p, k).

Fixpoint mp_next_slowpath (fuel : nat) (buf : list Z) (p k : Z) : outcome Z :=
  if k <=? 0 then Done p else
  match fuel with
  | O => Spins
  | S fuel =>
      '(c, p) ← mp_load_u8 buf p;
      let l := mp_parser_hint c in
      if 0 <=? l then
        if (l =? 0) && (k mod 64 =? 0) then
          '(p, k) ← skip_same fuel buf c p k;
          mp_next_slowpath fuel buf p (k - 1)
        else mp_next_slowpath fuel buf (p + l) (k - 1)
      else if MP_HINT <? l then k ← count_add k (- l); mp_next_slowpath fuel buf p (k - 1)
      else if l =? MP_HINT_STR_8 then p ← skip_payload mp_load_u8 buf p; mp_next_slowpath fuel buf p (k - 1)
      else if l =? MP_HINT_STR_16 then p ← skip_payload mp_load_u16 buf p; mp_next_slowpath fuel buf p (k - 1)
      else if l =? MP_HINT_STR_32 then p ← skip_payload mp_load_u32 buf p; mp_next_slowpath fuel buf p (k - 1)
      else if l =? MP_HINT_ARRAY_16 then '(n, p) ← mp_load_u16 buf p; k ← count_add k n; mp_next_slowpath fuel buf p (k - 1)
      else if l =? MP_HINT_ARRAY_32 then '(n, p) ← mp_load_u32 buf p; k ← count_add k n; mp_next_slowpath fuel buf p (k - 1)
      else if l =? MP_HINT_MAP_16 then '(n, p) ← mp_load_u16 buf p; k ← count_add k (2 * n); mp_next_slowpath fuel buf p (k - 1)
      else if l =? MP_HINT_MAP_32 then '(n, p) ← mp_load_u32 buf p; k ← count_add_wide k (2 * n); mp_next_slowpath fuel buf p (k - 1)
      else if l =? MP_HINT_EXT_8 then p ← skip_ext mp_load_u8 buf p; mp_next_slowpath fuel buf p (k - 1)
      else if l =? MP_HINT_EXT_16 then p ← skip_ext mp_load_u16 buf p; mp_next_slowpath fuel buf p (k - 1)
      else if l =? MP_HINT_EXT_32 then p ← skip_ext mp_load_u32 buf p; mp_next_slowpath fuel buf p (k - 1)
      else Faults
  end.

(** The loop of [mp_next], with [k] values to come. *)
Fixpoint next_loop (fuel : nat) (buf : list Z) (p k : Z) : outcome Z :=
  if k <=? 0 then Done p else
  match fuel with
  | O => Spins
  | S fuel =>
      '(c, p) ← mp_load_u8 buf p;
      let l := mp_parser_hint c in
      if 0 <=? l then next_loop fuel buf (p + l) (k - 1)
      else if c =? 0xd9 then '(len, p) ← mp_load_u8 buf p; next_loop fuel buf (p + len) (k - 1)
      else if MP_HINT <? l then k ← count_add k (- l); next_loop fuel buf p (k - 1)
      else mp_next_slowpath (S fuel) buf (p - 1) k
  end.
Definition mp_next (fuel : nat) (buf : list Z) (p : Z) : outcome Z := next_loop fuel buf p 1.

(** The offset after the value at an offset ([memory/native/memory/tuple.h]). *)
Definition memory_tuple_next (fuel : nat) (buffer : list Z) (offset : Z) : outcome Z :=
  p ← mp_next fuel buffer offset; Done (u64 p).

(** ** Checking *)

Inductive mp_check_error_type := MP_CHECK_ERROR_TRUNC | MP_CHECK_ERROR_ILL | MP_CHECK_ERROR_EXT | MP_CHECK_ERROR_JUNK.

(** What [mp_check_on_error] is called with: the fields that are set. *)
Record mp_check_error := CheckError {
  err_type : mp_check_error_type;
  err_data : Z;
  err_end : Z;
  err_pos : Z;
  err_trunc_count : option Z;
  err_ext : option (Z * Z);
}.

(** The check of an extension, given its type, its bytes and its length. *)
Context (mp_check_ext_data : Z -> list Z -> Z -> Z).

Section Check.
Context (buf : list Z) (begin end_ : Z).

Definition truncated (pos k : Z) : mp_check_error := CheckError MP_CHECK_ERROR_TRUNC begin end_ pos (Some k) None.
Definition bad_ext (pos type len : Z) : mp_check_error := CheckError MP_CHECK_ERROR_EXT begin end_ pos None (Some (type, len)).
Definition illegal (pos : Z) : mp_check_error := CheckError MP_CHECK_ERROR_ILL begin end_ pos None None.

(** The rest of an iteration: [MP_CHECK_LEN], [MP_CHECK_EXT], or where it leaves the
    pointer and the count, before the [k--]. *)
Definition step : Type := outcome (Z * Z + mp_check_error).
Definition MP_CHECK_LEN (pos k p l : Z) (rest : step) : step :=
  if u64 (end_ - p) <? u64 l then Done (inr (truncated pos k)) else rest.
Definition MP_CHECK_EXT (type p len : Z) (rest : step) : step :=
  if negb (mp_check_ext_data type (drop (Z.to_nat p) buf) len =? 0) then Done (inr (bad_ext p type len)) else rest.

Definition check_payload (n : Z) (load : list Z -> Z -> outcome (Z * Z)) (pos k p : Z) : step :=
  MP_CHECK_LEN pos k p n ('(len, p) ← load buf p; MP_CHECK_LEN pos k p len (Done (inl (p + len, k)))).
Definition check_count (n times : Z) (add : Z -> Z -> outcome Z) (load : list Z -> Z -> outcome (Z * Z)) (pos k p : Z) : step :=
  MP_CHECK_LEN pos k p n ('(count, p) ← load buf p; k ← add k (times * count); Done (inl (p, k))).
Definition check_ext (n : Z) (load : list Z -> Z -> outcome (Z * Z)) (pos k p : Z) : step :=
  MP_CHECK_LEN pos k p (n + 1)
    ('(len, p) ← load buf p; '(type, p) ← mp_load_u8 buf p;
     MP_CHECK_LEN pos k p len (MP_CHECK_EXT (i8 type) p len (Done (inl (p + len, k))))).

(** One iteration of the loop of [mp_check]. *)
Definition check_step (k pos : Z) : step :=
  MP_CHECK_LEN pos k pos 1
    ('(c, p) ← mp_load_u8 buf pos;
     let l := mp_parser_hint c in
     if 0 <=? l then
       MP_CHECK_LEN pos k p l
         (if (0xd4 <=? c) && (c <=? 0xd8) then
            let len := u32 (l - 1) in
            '(type, p) ← mp_load_u8 buf p;
            MP_CHECK_EXT (i8 type) p len (Done (inl (p + len, k)))
          else Done (inl (p + l, k)))
     else if MP_HINT <? l then k ← count_add k (- l); Done (inl (p, k))
     else if l =? MP_HINT_STR_8 then check_payload 1 mp_load_u8 pos k p
     else if l =? MP_HINT_STR_16 then check_payload 2 mp_load_u16 pos k p
     else if l =? MP_HINT_STR_32 then check_payload 4 mp_load_u32 pos k p
     else if l =? MP_HINT_ARRAY_16 then check_count 2 1 count_add mp_load_u16 pos k p
     else if l =? MP_HINT_ARRAY_32 then check_count 4 1 count_add mp_load_u32 pos k p
     else if l =? MP_HINT_MAP_16 then check_count 2 2 count_add mp_load_u16 pos k p
     else if l =? MP_HINT_MAP_32 then check_count 4 2 count_add_wide mp_load_u32 pos k p
     else if l =? MP_HINT_EXT_8 then check_ext 1 mp_load_u8 pos k p
     else if l =? MP_HINT_EXT_16 then check_ext 2 mp_load_u16 pos k p
     else if l =? MP_HINT_EXT_32 then check_ext 4 mp_load_u32 pos k p
     else if l =? MP_HINT_INVALID then Done (inr (illegal pos))
     else Faults).

Fixpoint check_loop (fuel : nat) (k p : Z) : outcome (Z + mp_check_error) :=
  if k <=? 0 then (if p <=? end_ then Done (inl p) else Faults) else
  match fuel with
  | O => Spins
  | S fuel =>
      r ← check_step k p;
      match r with
      | inl (p, k) => check_loop fuel (k - 1) p
      | inr e => Done (inr e)
      end
  end.
End Check.

Definition mp_check (fuel : nat) (buf : list Z) (p end_ : Z) : outcome (Z + mp_check_error) :=
  check_loop buf p end_ fuel 1 p.
Definition mp_check_exact (fuel : nat) (buf : list Z) (p end_ : Z) : outcome (Z + mp_check_error) :=
  r ← mp_check fuel buf p end_;
  match r with
  | inl q => Done (if negb (q =? end_) then inr (CheckError MP_CHECK_ERROR_JUNK p end_ q None None) else inl q)
  | inr e => Done (inr e)
  end.

(** *** The checks of the header of one value

    The number of bytes missing before [end_], when positive. *)
Definition header_check (buf : list Z) (cur end_ : Z) (type : mp_type) (missing : Z -> Z -> outcome Z) : outcome Z :=
  if negb (cur <? end_) then Faults else
  '(c, _) ← mp_load_u8 buf cur;
  if bool_decide (mp_typeof c <> type) then Faults else missing c (cur + 1).

Definition mp_check_array (buf : list Z) (cur end_ : Z) : outcome Z :=
  header_check buf cur end_ MP_ARRAY (fun c cur =>
    if Z.land c 0x40 =? 0 then Done (cur - end_)
    else if negb ((0xdc <=? c) && (c <=? 0xdd)) then Faults
    else Done (Z.shiftl 2 (Z.land c 0x1) - (end_ - cur))).
Definition mp_check_map (buf : list Z) (cur end_ : Z) : outcome Z :=
  header_check buf cur end_ MP_MAP (fun c cur =>
    if Z.ldiff c 0xf =? 0x80 then Done (cur - end_)
    else if negb ((0xde <=? c) && (c <=? 0xdf)) then Faults
    else Done (Z.shiftl 2 (Z.land c 0x1) - (end_ - cur))).
Definition mp_check_strl (buf : list Z) (cur end_ : Z) : outcome Z :=
  header_check buf cur end_ MP_STR (fun c cur =>
    if Z.ldiff c 0x1f =? 0xa0 then Done (cur - end_)
    else if negb ((0xd9 <=? c) && (c <=? 0xdb)) then Faults
    else Done (Z.shiftr (Z.shiftl 1 (Z.land c 0x3)) 1 - (end_ - cur))).
Definition mp_check_extl (buf : list Z) (cur end_ : Z) : outcome Z :=
  header_check buf cur end_ MP_EXT (fun c cur =>
    if Z.land c 0xf0 =? 0xd0 then Done (1 - (end_ - cur))
    else if negb ((0xc7 <=? c) && (c <=? 0xc9)) then Faults
    else Done (Z.shiftl 1 (c - 0xc7) + 1 - (end_ - cur))).
Definition mp_check_uint (buf : list Z) (cur end_ : Z) : outcome Z :=
  header_check buf cur end_ MP_UINT (fun c cur => Done (mp_parser_hint c - (end_ - cur))).
Definition mp_check_int (buf : list Z) (cur end_ : Z) : outcome Z :=
  header_check buf cur end_ MP_INT (fun c cur => Done (mp_parser_hint c - (end_ - cur))).
Definition mp_check_nil (buf : list Z) (cur end_ : Z) : outcome Z :=
  header_check buf cur end_ MP_NIL (fun c next => Done (1 - (end_ - cur))).
Definition mp_check_bool (buf : list Z) (cur end_ : Z) : outcome Z :=
  header_check buf cur end_ MP_BOOL (fun c next => Done (1 - (end_ - cur))).
Definition mp_check_float (buf : list Z) (cur end_ : Z) : outcome Z :=
  header_check buf cur end_ MP_FLOAT (fun c next => Done (1 + 4 - (end_ - cur))).
Definition mp_check_double (buf : list Z) (cur end_ : Z) : outcome Z :=
  header_check buf cur end_ MP_DOUBLE (fun c next => Done (1 + 8 - (end_ - cur))).

(** The bytes of [mp_check_binl] are counted after the first one is loaded. *)
Definition mp_check_binl (buf : list Z) (cur end_ : Z) : outcome Z :=
  '(c, cur) ← mp_load_u8 buf cur;
  if negb (cur <? end_) then Faults else
  if bool_decide (mp_typeof c <> MP_BIN) then Faults else
  if negb ((0xc4 <=? c) && (c <=? 0xc6)) then Faults
  else Done (Z.shiftl 1 (Z.land c 0x3) - (end_ - cur)).
End Skip.

(** ** Frames *)

Record mp_frame := MpFrame { fr_type : mp_type; fr_count : Z; fr_idx : Z }.
Record mp_stack := MpStack { st_size : Z; st_used : Z; st_frames : list mp_frame }.

Definition mp_stack_create (size : Z) (frames : list mp_frame) : mp_stack := MpStack size 0 frames.
Definition mp_stack_is_empty (s : mp_stack) : bool := st_used s =? 0.
Definition mp_stack_is_full (s : mp_stack) : bool := st_size s <=? st_used s.
Definition mp_stack_top (s : mp_stack) : outcome mp_frame :=
  if mp_stack_is_empty s then Faults else demand (st_frames s !! Z.to_nat (st_used s - 1)).
Definition mp_stack_pop (s : mp_stack) : outcome mp_stack :=
  if mp_stack_is_empty s then Faults else Done (MpStack (st_size s) (st_used s - 1) (st_frames s)).
Definition mp_stack_push (s : mp_stack) (type : mp_type) (count : Z) : outcome mp_stack :=
  if mp_stack_is_full s then Faults else
  let idx := Z.to_nat (st_used s) in
  if (idx <? length (st_frames s))%nat
  then Done (MpStack (st_size s) (st_used s + 1) (<[idx := MpFrame type count (-1)]> (st_frames s)))
  else Faults.
Definition mp_frame_advance (f : mp_frame) : bool * mp_frame :=
  if fr_count f - 1 <=? fr_idx f then (false, f) else (true, MpFrame (fr_type f) (fr_count f) (fr_idx f + 1)).
