(* ===== verification/MsgSkipTheorems.v ===== *)
(** * Skipping and checking are safe and agree ([storage/dart/assets/msgpuck.h])

    The loops are compared with a reference that reads one header at a time, and
    with the encoding of values. *)
From S2P Require Import Prelude MsgPack MsgSkip.

Section Reference.
Context {H : Hints} {HD : Documented_hints H}.

(** ** The reference: one header, then the values inside and after

    The pointer after a header and its payload, and the number of values inside. *)
Definition payload (load : list Z -> Z -> outcome (Z * Z)) (buf : list Z) (p : Z) : outcome (Z * Z) :=
  p ← skip_payload load buf p; Done (p, 0).
Definition ext (load : list Z -> Z -> outcome (Z * Z)) (buf : list Z) (p : Z) : outcome (Z * Z) :=
  p ← skip_ext load buf p; Done (p, 0).
Definition elements (times : Z) (load : list Z -> Z -> outcome (Z * Z)) (buf : list Z) (p : Z) : outcome (Z * Z) :=
  '(n, p) ← load buf p; Done (p, times * n).

Definition item (buf : list Z) (p : Z) : outcome (Z * Z) :=
  '(c, p) ← mp_load_u8 buf p;
  let l := mp_parser_hint c in
  if 0 <=? l then Done (p + l, 0)
  else if MP_HINT <? l then Done (p, - l)
  else if l =? MP_HINT_STR_8 then payload mp_load_u8 buf p
  else if l =? MP_HINT_STR_16 then payload mp_load_u16 buf p
  else if l =? MP_HINT_STR_32 then payload mp_load_u32 buf p
  else if l =? MP_HINT_ARRAY_16 then elements 1 mp_load_u16 buf p
  else if l =? MP_HINT_ARRAY_32 then elements 1 mp_load_u32 buf p
  else if l =? MP_HINT_MAP_16 then elements 2 mp_load_u16 buf p
  else if l =? MP_HINT_MAP_32 then elements 2 mp_load_u32 buf p
  else if l =? MP_HINT_EXT_8 then ext mp_load_u8 buf p
  else if l =? MP_HINT_EXT_16 then ext mp_load_u16 buf p
  else if l =? MP_HINT_EXT_32 then ext mp_load_u32 buf p
  else Faults.

Fixpoint skip_fuel (fuel : nat) (buf : list Z) (p k : Z) : outcome Z :=
  if k <=? 0 then Done p else
  match fuel with
  | O => Spins
  | S fuel => '(p, n) ← item buf p; skip_fuel fuel buf p (k - 1 + n)
  end.

(** As many headers as there are bytes left, and one that is out of the buffer. *)
Definition skip (buf : list Z) (p k : Z) : outcome Z :=
  skip_fuel (S (Z.to_nat (Z.of_nat (length buf) - p))) buf p k.

Section Buffer.
Context (buf : list Z) (HB : Forall byte_range buf).
Notation len := (Z.of_nat (length buf)).

(** What the loads have in common. *)
Definition loads (n : Z) (load : list Z -> Z -> outcome (Z * Z)) : Prop :=
  0 < n /\ forall p, (exists v, load buf p = Done (v, p + n) /\ 0 <= v < 256 ^ n /\ 0 <= p /\ p + n <= len) \/
    (load buf p = Faults /\ (p < 0 \/ len < p + n)).

Lemma loads_u8 : loads 1 mp_load_u8.
Proof.
  split; [lia|]. intros p. destruct (mp_load_u8_cases buf p HB) as [(v & ? & ? & ?)|[? ?]].
  - left. exists v. unfold byte_range in *. split_and!; [done|lia..].
  - right. split; [done|lia].
Qed.
Lemma loads_u16 : loads 2 mp_load_u16.
Proof. split; [lia|]. intros p. exact (mp_load_cases 2 buf p HB). Qed.
Lemma loads_u32 : loads 4 mp_load_u32.
Proof. split; [lia|]. intros p. exact (mp_load_cases 4 buf p HB). Qed.
Lemma loads_u64 : loads 8 mp_load_u64.
Proof. split; [lia|]. intros p. exact (mp_load_cases 8 buf p HB). Qed.

(** A step of a loop: out of the buffer, or further on. *)
Definition advances (p : Z) (m : outcome (Z * Z)) : Prop :=
  m = Faults \/ exists p' n, m = Done (p', n) /\ p < p' /\ 0 <= n.

Lemma payload_advances n load p : loads n load -> advances p (payload load buf p).
Proof.
  intros [Hn L]. unfold payload, skip_payload. destruct (L p) as [(v & -> & ? & ?)|[-> _]]; [right|by left].
  eexists _, _. rewrite !bind_done. split; [reflexivity|lia].
Qed.
Lemma elements_advances n times load p : loads n load -> 0 <= times -> advances p (elements times load buf p).
Proof.
  intros [Hn L] Ht. unfold elements. destruct (L p) as [(v & -> & ? & ?)|[-> _]]; [right|by left].
  eexists _, _. rewrite !bind_done. split; [reflexivity|nia].
Qed.
Lemma ext_advances n load p : loads n load -> advances p (ext load buf p).
Proof.
  intros [Hn L]. unfold ext, skip_ext. destruct (L p) as [(v & -> & ? & ?)|[-> _]]; [rewrite bind_done|by left].
  destruct loads_u8 as [_ L8]. destruct (L8 (p + n)) as [(w & -> & ? & ?)|[-> _]]; [right|by left].
  eexists _, _. rewrite !bind_done. split; [reflexivity|lia].
Qed.

Lemma advances_later p q m : advances p m -> q <= p -> advances q m.
Proof. intros [->|(p' & n & -> & ?)]; [by left|right]. eexists _, _. split; [done|lia]. Qed.

Lemma item_advances p : advances p (item buf p) /\ (~ (0 <= p < len) -> item buf p = Faults).
Proof.
  unfold item. destruct loads_u8 as [_ L8]. destruct (L8 p) as [(c & -> & ? & ?)|[-> _]]; [|split; [by left|done]].
  split; [|lia]. rewrite bind_done. cbv zeta.
  destruct (Z.leb_spec 0 (mp_parser_hint c)); [right; eexists _, _; split; [reflexivity|lia]|].
  destruct (MP_HINT <? _); [right; eexists _, _; split; [reflexivity|lia]|].
  apply (advances_later (p + 1)); [|lia].
  repeat case_match; [eapply payload_advances|eapply payload_advances|eapply payload_advances
    |eapply elements_advances|eapply elements_advances|eapply elements_advances|eapply elements_advances
    |eapply ext_advances|eapply ext_advances|eapply ext_advances|by left];
    eauto using loads_u8, loads_u16, loads_u32 with lia; lia.
Qed.

(** ** The reference is total *)

Lemma skip_fuel_enough f1 f2 p k :
  (Z.to_nat (len - p) < f1)%nat -> (Z.to_nat (len - p) < f2)%nat -> skip_fuel f1 buf p k = skip_fuel f2 buf p k.
Proof.
  revert f2 p k. induction f1 as [|f1 IH]; intros [|f2] p k H1 H2; try lia. cbn [skip_fuel].
  destruct (k <=? 0); [done|]. destruct (item_advances p) as [[->|(p' & n & E & Hp & _)] Out]; [done|].
  rewrite E, !bind_done. destruct (decide (0 <= p < len)) as [In|N]; [|by rewrite Out in E].
  apply IH; lia.
Qed.

Lemma skip_done p k : k <= 0 -> skip buf p k = Done p.
Proof. intros. unfold skip. cbn [skip_fuel]. by rewrite (proj2 (Z.leb_le _ _)). Qed.

Lemma skip_step p k : 0 < k -> skip buf p k = '(p, n) ← item buf p; skip buf p (k - 1 + n).
Proof.
  intros Hk. unfold skip at 1. cbn [skip_fuel]. rewrite (proj2 (Z.leb_gt _ _)) by lia.
  destruct (item_advances p) as [[->|(p' & n & E & Hp & _)] Out]; [done|].
  rewrite E, !bind_done. destruct (decide (0 <= p < len)) as [In|N]; [|by rewrite Out in E].
  apply skip_fuel_enough; lia.
Qed.

(** More values than bytes left: out of the buffer. *)
Lemma skip_short p k : 0 <= p -> 0 < k -> len - p < k -> skip buf p k = Faults.
Proof.
  intros H0. remember (Z.to_nat (len - p)) as d eqn:D. revert p k H0 D.
  induction d as [d IH] using lt_wf_ind. intros p k H0 -> Hk Hl. rewrite skip_step by done.
  destruct (item_advances p) as [[->|(p' & n & E & Hp & Hn)] Out]; [done|].
  destruct (decide (0 <= p < len)) as [In|N]; [|by rewrite Out in E].
  rewrite E, bind_done. apply (IH (Z.to_nat (len - p'))); lia.
Qed.

(** ** The count of values to come

    It stays in its [int64_t] while the bytes left cannot announce too many values,
    at most [2 ^ 33] for each five of them; and also when the reference ends in the
    buffer, which then has a byte for each value. *)
Definition counted (p k : Z) : Prop :=
  5 * k + 2 ^ 33 * (len - p) < 5 * 2 ^ 63 \/ (len < 2 ^ 63 /\ exists q, skip buf p k = Done q).

Definition announces (p : Z) (m : outcome (Z * Z)) : Prop := forall p' n, m = Done (p', n) -> 5 * n <= 2 ^ 33 * (p' - p).

Lemma payload_announces n load p : loads n load -> announces p (payload load buf p).
Proof.
  intros L p' m E. destruct (payload_advances n load p L) as [F|(q & j & F & ? & ?)]; [congruence|].
  unfold payload in *. destruct (skip_payload load buf p); [|done..]. rewrite bind_done in *. simplify_eq. pow2_norm; lia.
Qed.
Lemma ext_announces n load p : loads n load -> announces p (ext load buf p).
Proof.
  intros L p' m E. destruct (ext_advances n load p L) as [F|(q & j & F & ? & ?)]; [congruence|].
  unfold ext in *. destruct (skip_ext load buf p); [|done..]. rewrite bind_done in *. simplify_eq. pow2_norm; lia.
Qed.
Lemma elements_announces n times load p : loads n load -> 1 <= n <= 4 -> 0 <= times <= 2 ->
  announces (p - 1) (elements times load buf p).
Proof.
  intros [_ L] Hn Ht p' m E. unfold elements in E. destruct (L p) as [(v & R & Hv & ?)|[R _]]; rewrite R in E; [|done].
  rewrite bind_done in E. simplify_eq.
  assert (n = 1 \/ n = 2 \/ n = 3 \/ n = 4) as [->|[->|[->| ->]]] by lia; pow2_norm; change (256 ^ 1) with 256 in *;
    change (256 ^ 2) with 65536 in *; change (256 ^ 3) with 16777216 in *; change (256 ^ 4) with 4294967296 in *; nia.
Qed.

Lemma announces_earlier p q m : announces p m -> q <= p -> announces q m.
Proof. intros A Hq p' n E. specialize (A _ _ E). pow2_norm; lia. Qed.

Lemma parser_hint_bound c : byte_range c -> -42 <= mp_parser_hint c <= 31.
Proof.
  intros Hc. rewrite parser_hint_documented by done.
  assert (F : forallb (fun c => (-42 <=? documented_hint c) && (documented_hint c <=? 31)) (seqZ 0 256) = true) by (vm_compute; reflexivity).
  rewrite forallb_forall in F. specialize (F c). rewrite <- list_elem_of_In, elem_of_seqZ in F. specialize (F Hc).
  apply andb_prop in F as [F1 F2]. lia.
Qed.

Lemma item_announces p : announces p (item buf p).
Proof.
  unfold item. destruct (mp_load_u8_cases buf p HB) as [(c & -> & Hc & _)|[-> _]]; [|done]. rewrite bind_done. cbv zeta.
  pose proof (parser_hint_bound c Hc).
  destruct (Z.leb_spec 0 (mp_parser_hint c)); [intros ?? E; simplify_eq; pow2_norm; lia|].
  destruct (Z.ltb_spec MP_HINT (mp_parser_hint c)); [intros ?? E; simplify_eq; unfold MP_HINT in *; pow2_norm; lia|].
  replace p with (p + 1 - 1) at 1 by lia.
  repeat case_match; first [done
    |eapply elements_announces; [eauto using loads_u16, loads_u32|lia|lia]
    |apply (announces_earlier (p + 1)); [|lia]; first [eapply payload_announces|eapply ext_announces]; eauto using loads_u8, loads_u16, loads_u32].
Qed.

Lemma counted_item p k p' n : 0 <= p -> 0 < k -> counted p k -> item buf p = Done (p', n) ->
  counted p' (k - 1 + n) /\ (p' <= len -> k + n < 2 ^ 63).
Proof.
  intros Hp Hk C E. pose proof (item_announces p _ _ E) as A.
  destruct (item_advances p) as [[F|(q & j & F & ? & ?)] _]; [congruence|]. rewrite F in E. simplify_eq.
  destruct C as [C|(HL & q & C)]; [split; [left|intros]; pow2_norm; lia|].
  rewrite skip_step, F, bind_done in C by done. split; [right; eauto|]. intros _.
  destruct (Z.ltb_spec (len - p') (k - 1 + n)); [|pow2_norm; lia].
  destruct (Z.leb_spec (k - 1 + n) 0); [pow2_norm; lia|]. rewrite skip_short in C by lia. done.
Qed.

(** Both additions are exact then. *)
Definition adds (add : Z -> Z -> outcome Z) : Prop := forall k n, 0 < k -> 0 <= n -> k + n < 2 ^ 63 -> add k n = Done (k + n).
Lemma count_add_adds : adds count_add.
Proof. intros k n ???. unfold count_add. by rewrite (proj2 (Z.ltb_lt _ _)). Qed.
Lemma count_add_wide_adds : adds count_add_wide.
Proof.
  intros k n ???. unfold count_add_wide. cbv zeta. rewrite swrap_small by (pow2_norm; lia).
  rewrite (proj2 (Z.eqb_neq _ _)) by (pow2_norm; lia). done.
Qed.

(** ** The slow path *)

(** Eight equal bytes. *)
Lemma same_bytes c bs : length bs = 8%nat -> Forall byte_range bs -> byte_range c ->
  bswap 8 (le_combine bs) = u64 (c * 0x0101010101010101) -> bs = replicate 8 c.
Proof.
  intros L Hb Hc. rewrite <- L at 1. rewrite bswap_combine by done.
  assert (HR : Forall byte_range (replicate 8 c)) by (by apply Forall_replicate).
  replace (u64 (c * 0x0101010101010101)) with (le_combine (replicate 8 c)).
  - intros E. assert (E' : rev bs = replicate 8 c).
    { rewrite <- (le_split_combine (replicate 8 c) HR), <- E, length_replicate, <- L, <- length_rev.
      symmetry. apply le_split_combine. by apply Forall_rev. }
    rewrite <- (rev_involutive bs), E'. reflexivity.
  - unfold byte_range in Hc. rewrite wrap_small by (pow2_norm; lia). cbn [replicate le_combine]. lia.
Qed.

Lemma item_one c q : 0 <= q -> byte_at buf q = Some c -> mp_parser_hint c = 0 -> item buf q = Done (q + 1, 0).
Proof.
  intros Hq B Z0. unfold item, mp_load_u8. assert (q < len).
  { unfold byte_at in B. case_match; [|done]. apply lookup_lt_Some in B. lia. }
  rewrite load_le_some by lia. cbn [demand]. rewrite !bind_done. rewrite byte_at_bytes in B by lia.
  simplify_eq. rewrite Z0. cbn. f_equal. f_equal. lia.
Qed.

Lemma skip_ones c p k j : mp_parser_hint c = 0 -> 0 <= p -> Z.of_nat j <= k ->
  (forall i, (i < j)%nat -> byte_at buf (p + Z.of_nat i) = Some c) ->
  skip buf p k = skip buf (p + Z.of_nat j) (k - Z.of_nat j).
Proof.
  intros Z0. revert p k. induction j as [|j IH]; intros p k Hp Hk B.
  { f_equal; lia. }
  rewrite skip_step by lia. specialize (B O ltac:(lia)) as B0. rewrite Z.add_0_r in B0.
  rewrite (item_one c) by done. rewrite bind_done, IH; [f_equal; lia|lia..|].
  intros i Hi. rewrite <- (B (S i)) by lia. f_equal. lia.
Qed.

Lemma load_bytes n p i : 0 <= p -> p + Z.of_nat n <= len -> (i < n)%nat ->
  byte_at buf (p + Z.of_nat i) = take n (drop (Z.to_nat p) buf) !! i.
Proof.
  intros. unfold byte_at. rewrite (proj2 (Z.leb_le _ _)) by lia.
  rewrite lookup_take_lt by lia. rewrite lookup_drop. f_equal. lia.
Qed.

Lemma skip_same_skip fuel c p k : byte_range c -> mp_parser_hint c = 0 -> 0 <= p -> (Z.to_nat (len - p) < fuel)%nat ->
  match skip_same fuel buf c p k with
  | Done (p', k') => p <= p' /\ k' <= k /\ skip buf p (k - 1) = skip buf p' (k' - 1)
  | Faults => skip buf p (k - 1) = Faults
  | _ => False
  end.
Proof.
  intros Hc Z0. revert p k. induction fuel as [|fuel IH]; intros p k Hp Hf; [lia|]. cbn [skip_same].
  destruct (Z.gtb_spec k 8) as [K|K]; [|split_and!; [lia|lia|done]].
  unfold mp_load_u64, mp_load.
  destruct (decide (p + 8 <= len)) as [L|L].
  2:{ unfold load_le. rewrite (proj2 (Z.leb_gt (p + Z.of_nat 8) len)) by lia. rewrite andb_false_r. cbn [demand].
      apply skip_short; lia. }
  rewrite load_le_some by lia. cbn [demand]. rewrite !bind_done.
  destruct (negb _) eqn:E; [split_and!; [lia|lia|done]|].
  apply negb_false_iff, Z.eqb_eq, same_bytes in E;
    [|rewrite length_take, length_drop; lia|by apply Forall_take, Forall_drop|done].
  specialize (IH (p + Z.of_nat 8) (k - 8) ltac:(lia) ltac:(lia)).
  assert (S8 : skip buf p (k - 1) = skip buf (p + Z.of_nat 8) (k - 8 - 1)).
  { rewrite (skip_ones c p (k - 1) 8); [f_equal; lia|done|lia|lia|].
    intros i Hi. rewrite (load_bytes 8) by lia. rewrite E. apply lookup_replicate_2. lia. }
  rewrite S8. destruct (skip_same fuel buf c (p + Z.of_nat 8) (k - 8)) as [[p' k']| | |]; [|done..].
  destruct IH as (? & ? & ?). split_and!; [lia|lia|done].
Qed.

(** The branches of the loops are those of the reference, for the headers [P] that
    it reads. *)
Lemma payload_bind {B} n load p (P : Z -> Z -> Prop) (f : Z -> outcome B) (g : Z * Z -> outcome B) : loads n load ->
  (forall q n, payload load buf p = Done (q, n) -> P q n) ->
  (forall q, P q 0 -> f q = g (q, 0)) -> skip_payload load buf p ≫= f = payload load buf p ≫= g.
Proof.
  intros [Hn L] HP E. unfold payload, skip_payload in *. destruct (L p) as [(v & R & ? & ?)|[R _]]; rewrite R in *; [|done].
  rewrite !bind_done in *. by apply E, HP.
Qed.
Lemma ext_bind {B} n load p (P : Z -> Z -> Prop) (f : Z -> outcome B) (g : Z * Z -> outcome B) : loads n load ->
  (forall q n, ext load buf p = Done (q, n) -> P q n) ->
  (forall q, P q 0 -> f q = g (q, 0)) -> skip_ext load buf p ≫= f = ext load buf p ≫= g.
Proof.
  intros [Hn L] HP E. unfold ext, skip_ext in *. destruct (L p) as [(v & R & ? & ?)|[R _]]; rewrite R in *; [|done]. rewrite !bind_done in *.
  destruct loads_u8 as [_ L8]. destruct (L8 (p + n)) as [(w & R' & ? & ?)|[R' _]]; rewrite R' in *; [|done].
  rewrite !bind_done in *. by apply E, HP.
Qed.
Lemma elements_bind {B} n times load p (P : Z -> Z -> Prop) (f g : Z * Z -> outcome B) : loads n load -> 0 <= times ->
  (forall q n, elements times load buf p = Done (q, n) -> P q n) ->
  (forall v q, q <= len -> 0 <= times * v -> P q (times * v) -> f (v, q) = g (q, times * v)) ->
  load buf p ≫= f = elements times load buf p ≫= g.
Proof.
  intros [Hn L] Ht HP E. unfold elements in *. destruct (L p) as [(v & R & ? & ?)|[R _]]; rewrite R in *; [|done].
  rewrite !bind_done in *. apply E; [lia|nia|by apply HP].
Qed.

(** What is known of the header read at [p], with [k] values to come. *)
Definition counts (p k q n : Z) : Prop := p < q /\ counted q (k - 1 + n) /\ (q <= len -> k + n < 2 ^ 63).
Lemma item_counts p k q n : 0 <= p -> 0 < k -> counted p k -> item buf p = Done (q, n) -> counts p k q n.
Proof.
  intros Hp Hk C E. destruct (item_advances p) as [[F|(q' & j & F & ? & ?)] _]; [congruence|].
  rewrite F in E. simplify_eq. split; [lia|]. by apply (counted_item p).
Qed.

Lemma slowpath_skip fuel p k : 0 <= p -> (Z.to_nat (len - p) < fuel)%nat -> counted p k ->
  mp_next_slowpath fuel buf p k = skip buf p k.
Proof.
  revert p k. induction fuel as [|fuel IH]; intros p k Hp Hf C; [lia|]. cbn [mp_next_slowpath].
  destruct (Z.leb_spec k 0) as [K|K]; [by rewrite skip_done|]. rewrite skip_step by done.
  pose proof (fun q n => item_counts p k q n Hp K C) as I. revert I. unfold item.
  destruct (mp_load_u8_cases buf p HB) as [(c & -> & Hc & Hl)|[-> _]]; [|done]. rewrite !bind_done. cbv zeta.
  assert (Next : forall q, counts p k q 0 -> mp_next_slowpath fuel buf q (k - 1) = skip buf q (k - 1 + 0)).
  { intros q (? & C' & _). rewrite Z.add_0_r in C' |- *. apply IH; [lia..|done]. }
  assert (Add : forall add q n, adds add -> 0 <= n -> q <= len -> counts p k q n ->
    (k ← add k n; mp_next_slowpath fuel buf q (k - 1)) = skip buf q (k - 1 + n)).
  { intros add q n A Hn Hq (? & Cq & F). rewrite A, bind_done by auto.
    replace (k + n - 1) with (k - 1 + n) by lia. apply IH; [lia..|done]. }
  destruct (Z.leb_spec 0 (mp_parser_hint c)) as [L0|L0].
  { intros I. specialize (I _ _ eq_refl). rewrite bind_done. destruct (_ && _) eqn:E; [|by apply Next].
    apply andb_prop in E as [Z0 _]. apply Z.eqb_eq in Z0. destruct I as (_ & C' & _).
    pose proof (skip_same_skip fuel c (p + 1) k Hc Z0 ltac:(lia) ltac:(lia)) as Same.
    replace (p + 1 + mp_parser_hint c) with (p + 1) in C' |- * by lia. rewrite Z.add_0_r in C' |- *.
    destruct (skip_same fuel buf c (p + 1) k) as [[p' k']| | |]; [|done..]. rewrite bind_done.
    destruct Same as (? & ? & S). rewrite S. apply IH; [lia..|]. destruct C' as [C'|C']; [left; pow2_norm; lia|right; by rewrite <- S]. }
  destruct (MP_HINT <? _); [intros I; rewrite bind_done; apply Add; [apply count_add_adds|lia..|by apply I]|].
  repeat case_match; intros I; [eapply payload_bind|eapply payload_bind|eapply payload_bind
    |eapply elements_bind|eapply elements_bind|eapply elements_bind|eapply elements_bind
    |eapply ext_bind|eapply ext_bind|eapply ext_bind|done];
    eauto using loads_u8, loads_u16, loads_u32 with lia; intros; cbv beta; rewrite ?Z.mul_1_l in *; apply Add;
    auto using count_add_adds, count_add_wide_adds.
Qed.

Lemma next_loop_skip fuel p k : 0 <= p -> (Z.to_nat (len - p) < fuel)%nat -> counted p k ->
  next_loop fuel buf p k = skip buf p k.
Proof.
  revert p k. induction fuel as [|fuel IH]; intros p k Hp Hf C; [lia|]. cbn [next_loop].
  destruct (Z.leb_spec k 0) as [K|K]; [by rewrite skip_done|].
  assert (Slow : mp_next_slowpath (S fuel) buf p k = skip buf p k) by (by apply slowpath_skip).
  pose proof (fun q n => item_counts p k q n Hp K C) as I. rewrite skip_step in * by done. revert I Slow. unfold item.
  destruct (mp_load_u8_cases buf p HB) as [(c & E & Hc & Hl)|[E _]]; rewrite E; [|done]. rewrite !bind_done. cbv zeta.
  destruct (Z.leb_spec 0 (mp_parser_hint c)) as [L0|L0]; intros I Slow.
  { destruct (I _ _ eq_refl) as (? & C' & _). rewrite bind_done. rewrite Z.add_0_r in C' |- *. apply IH; [lia..|done]. }
  destruct (Z.eqb_spec c 0xd9) as [->|N].
  { rewrite parser_hint_documented in I |- * by done. change (documented_hint 0xd9) with MP_HINT_STR_8 in *.
    cbn -[mp_load_u8 skip next_loop payload] in *.
    change (next_loop fuel buf) with (fun p k => next_loop fuel buf p k).
    transitivity (skip_payload mp_load_u8 buf (p + 1) ≫= (fun p => next_loop fuel buf p (k - 1))).
    { unfold skip_payload. destruct (mp_load_u8 buf (p + 1)) as [[v q]| | |]; by rewrite ?bind_done. }
    eapply payload_bind; [apply loads_u8|exact I|]. intros q (? & C' & _). rewrite Z.add_0_r in C' |- *. apply IH; [lia..|done]. }
  destruct (MP_HINT <? _) eqn:Hh.
  { destruct (I _ _ eq_refl) as (? & ? & F). rewrite bind_done. rewrite count_add_adds, bind_done by (auto with lia; apply F; lia).
    replace (k + - mp_parser_hint c - 1) with (k - 1 + - mp_parser_hint c) by lia. apply IH; [lia..|done]. }
  replace (p + 1 - 1) with p by lia. exact Slow.
Qed.

Lemma skip_total p k : 0 <= p -> skip buf p k <> Spins.
Proof.
  remember (Z.to_nat (len - p)) as d eqn:D. revert p k D. induction d as [d IH] using lt_wf_ind. intros p k -> Hp.
  destruct (Z.leb_spec k 0); [by rewrite skip_done|].
  rewrite skip_step by done. destruct (item_advances p) as [[->|(p' & n & E & ? & ?)] Out]; [done|].
  destruct (decide (0 <= p < len)); [|by rewrite Out in E]. rewrite E, bind_done.
  eapply (IH (Z.to_nat (len - p'))); lia.
Qed.

Lemma skip_monotone p k q : 0 <= p -> skip buf p k = Done q -> p <= q.
Proof.
  remember (Z.to_nat (len - p)) as d eqn:D. revert p k D. induction d as [d IH] using lt_wf_ind. intros p k -> Hp E.
  destruct (Z.leb_spec k 0) as [K|K]; [rewrite skip_done in E by done; simplify_eq; lia|].
  rewrite skip_step in E by done. destruct (item_advances p) as [[F|(p' & n & F & Hp' & Hn)] Out]; [by rewrite F in E|].
  destruct (decide (0 <= p < len)) as [In|N]; [|by rewrite Out in F].
  rewrite F, bind_done in E. apply IH with (m := Z.to_nat (len - p')) in E; lia.
Qed.

(** ** Checking *)

Section Checks.
Context (mp_check_ext_data : Z -> list Z -> Z -> Z) (begin end_ : Z).
Context (HE : end_ <= len) (HL : len < 2 ^ 63).
Notation check_step := (check_step mp_check_ext_data buf begin end_).

Definition accepts_ext : Prop := forall type data n, mp_check_ext_data type data n = 0.

(** A step of the check and the reference: the same header, which is before the end,
    or an error, and then no header before the end unless an extension was refused. *)
Definition agrees (k pos : Z) (m : outcome (Z * Z)) (s : step) : Prop :=
  (exists p n, s = Done (inl (p, k + n)) /\ m = Done (p, n) /\ pos < p <= end_ /\ 0 <= n) \/
  (exists e, s = Done (inr e) /\ (accepts_ext -> forall p n, m = Done (p, n) -> end_ < p)).

Lemma check_len pos k p l rest : p <= end_ -> 0 <= p -> 0 <= l < 2 ^ 63 ->
  MP_CHECK_LEN begin end_ pos k p l rest = if end_ - p <? l then Done (inr (truncated begin end_ pos k)) else rest.
Proof. intros. unfold MP_CHECK_LEN. pow2_norm. by rewrite !wrap_small by (pow2_norm; lia). Qed.

Lemma agrees_len k pos p l m rest : 0 <= pos -> pos <= p <= end_ -> 0 <= l < 2 ^ 63 ->
  (end_ < p + l -> forall q n, m = Done (q, n) -> end_ < q) ->
  (p + l <= end_ -> agrees k pos m rest) ->
  agrees k pos m (MP_CHECK_LEN begin end_ pos k p l rest).
Proof.
  intros. rewrite check_len by lia. destruct (Z.ltb_spec (end_ - p) l); [right; eauto with lia|auto with lia].
Qed.

Lemma agrees_ext k pos type p l q n : agrees k pos (Done (q, n)) (Done (inl (q, k + n))) ->
  agrees k pos (Done (q, n)) (MP_CHECK_EXT mp_check_ext_data buf begin end_ type p l (Done (inl (q, k + n)))).
Proof.
  intros A. unfold MP_CHECK_EXT. destruct (negb _) eqn:E; [|done]. right. eexists. split; [done|].
  intros Acc. by rewrite Acc in E.
Qed.

Lemma agrees_done k pos q n : pos < q <= end_ -> 0 <= n -> agrees k pos (Done (q, n)) (Done (inl (q, k + n))).
Proof. left. eauto 10. Qed.

Lemma agrees_plain k pos q : pos < q <= end_ -> agrees k pos (Done (q, 0)) (Done (inl (q, k))).
Proof. intros. rewrite <- (Z.add_0_r k) at 2. apply agrees_done; lia. Qed.
Lemma agrees_plain_ext k pos type p l q : pos < q <= end_ ->
  agrees k pos (Done (q, 0)) (MP_CHECK_EXT mp_check_ext_data buf begin end_ type p l (Done (inl (q, k)))).
Proof. intros. rewrite <- (Z.add_0_r k) at 2. apply agrees_ext, agrees_done; lia. Qed.

Definition small (n : Z) : Prop := 1 <= n <= 4.
Lemma small_pow n v : small n -> 0 <= v < 256 ^ n -> 0 <= v < 2 ^ 63.
Proof.
  intros Hn Hv. split; [lia|]. eapply Z.lt_le_trans; [apply Hv|]. transitivity (256 ^ 4); [|done].
  apply Z.pow_le_mono_r; unfold small in Hn; lia.
Qed.

Ltac beyond := let E := fresh in intros ??? E; simplify_eq; lia.

Lemma check_payload_agrees n load pos k p : loads n load -> small n -> 0 <= pos -> pos < p <= end_ ->
  agrees k pos (payload load buf p) (check_payload buf begin end_ n load pos k p).
Proof.
  intros [Hn L] Hs H0 Hp. unfold check_payload, payload, skip_payload. apply agrees_len; [lia|lia|unfold small in Hs; lia|..].
  - intros Hl q m E. destruct (L p) as [(v & R & ? & ?)|[R _]]; rewrite R, ?bind_done in E; [|done]. simplify_eq. lia.
  - intros Hl. destruct (L p) as [(v & -> & Hv & ?)|[_ ?]]; [|lia]. rewrite !bind_done.
    apply agrees_len; [lia|lia|by eapply small_pow|beyond|]. intros. apply agrees_plain; lia.
Qed.

Lemma check_count_agrees n times add load pos k p : loads n load -> small n -> 0 <= times -> adds add -> 0 < k ->
  0 <= pos -> pos < p <= end_ -> (forall q n, elements times load buf p = Done (q, n) -> q <= len -> k + n < 2 ^ 63) ->
  agrees k pos (elements times load buf p) (check_count buf begin end_ n times add load pos k p).
Proof.
  intros [Hn L] Hs Ht A Hk H0 Hp F. unfold check_count, elements in *. apply agrees_len; [lia|lia|unfold small in Hs; lia|..].
  - intros Hl q m E. destruct (L p) as [(v & R & ? & ?)|[R _]]; rewrite R, ?bind_done in E; [|done]. simplify_eq. lia.
  - intros Hl. destruct (L p) as [(v & R & Hv & ?)|[_ ?]]; [|lia]. rewrite R in F |- *. rewrite bind_done in F. rewrite !bind_done.
    specialize (F _ _ eq_refl ltac:(lia)). rewrite A by nia. rewrite bind_done. apply agrees_done; nia.
Qed.

Lemma check_ext_agrees n load pos k p : loads n load -> small n -> 0 <= pos -> pos < p <= end_ ->
  agrees k pos (ext load buf p) (check_ext mp_check_ext_data buf begin end_ n load pos k p).
Proof.
  intros [Hn L] Hs H0 Hp. unfold check_ext, ext, skip_ext. destruct loads_u8 as [_ L8].
  apply agrees_len; [lia|lia|unfold small in Hs; lia|..].
  - intros Hl q m E. destruct (L p) as [(v & R & ? & ?)|[R _]]; rewrite R, ?bind_done in E; [|done].
    destruct (L8 (p + n)) as [(w & R' & ? & ?)|[R' _]]; rewrite R', ?bind_done in E; [|done]. simplify_eq. lia.
  - intros Hl. destruct (L p) as [(v & -> & Hv & ?)|[_ ?]]; [|lia]. rewrite !bind_done.
    destruct (L8 (p + n)) as [(w & -> & ? & ?)|[_ ?]]; [|lia]. rewrite !bind_done.
    apply agrees_len; [lia|lia|by eapply small_pow|beyond|]. intros. apply agrees_plain_ext; lia.
Qed.

Lemma fixed_ext_hint c : byte_range c -> 0xd4 <= c <= 0xd8 -> 2 <= mp_parser_hint c.
Proof.
  intros Hb Hc. rewrite parser_hint_documented by done.
  assert (c = 0xd4 \/ c = 0xd5 \/ c = 0xd6 \/ c = 0xd7 \/ c = 0xd8) as [->|[->|[->|[->| ->]]]] by lia; vm_compute; congruence.
Qed.

Lemma check_step_agrees k pos : 0 <= pos <= end_ -> 0 < k -> counted pos k -> agrees k pos (item buf pos) (check_step k pos).
Proof.
  intros Hp Hk C. pose proof (fun q n => item_counts pos k q n (proj1 Hp) Hk C) as I.
  unfold MsgSkip.check_step. apply agrees_len; [lia|lia|lia|..].
  { intros Hl q m E. destruct (I _ _ E). lia. }
  intros Hl. revert I. unfold item. destruct loads_u8 as [_ L8].
  destruct (mp_load_u8_cases buf pos HB) as [(c & -> & Hc & Hin)|[_ ?]]; [|lia]. rewrite !bind_done. cbv zeta.
  pose proof (parser_hint_bound c Hc) as Hb.
  destruct (Z.leb_spec 0 (mp_parser_hint c)) as [L0|L0]; intros I.
  { apply agrees_len; [lia|lia|lia| |].
    { intros ? q m E. simplify_eq. lia. }
    intros Hl'. destruct (_ && _) eqn:E; [|apply agrees_plain; lia].
    apply andb_prop in E as [E1 E2]. pose proof (fixed_ext_hint c Hc ltac:(lia)).
    destruct (L8 (pos + 1)) as [(w & -> & ? & ?)|[_ ?]]; [|lia]. rewrite bind_done.
    rewrite wrap_small by (pow2_norm; lia).
    replace (pos + 1 + 1 + (mp_parser_hint c - 1)) with (pos + 1 + mp_parser_hint c) by lia.
    apply agrees_plain_ext; lia. }
  destruct (Z.ltb_spec MP_HINT (mp_parser_hint c)) as [|L1].
  { destruct (I _ _ eq_refl) as (_ & _ & F). rewrite count_add_adds, bind_done by (auto with lia; apply F; lia). apply agrees_done; lia. }
  assert (F : forall q n, pos < q /\ counted q (k - 1 + n) /\ (q <= len -> k + n < 2 ^ 63) -> q <= len -> k + n < 2 ^ 63) by tauto.
  revert I. repeat case_match; intros I;
    [eapply check_payload_agrees|eapply check_payload_agrees|eapply check_payload_agrees
    |eapply check_count_agrees|eapply check_count_agrees|eapply check_count_agrees|eapply check_count_agrees
    |eapply check_ext_agrees|eapply check_ext_agrees|eapply check_ext_agrees|right; eexists; split; [done|congruence]|exfalso];
    eauto using loads_u8, loads_u16, loads_u32, count_add_adds, count_add_wide_adds; unfold small, MP_HINT_STR_8, MP_HINT_STR_16,
    MP_HINT_STR_32, MP_HINT_ARRAY_16, MP_HINT_ARRAY_32, MP_HINT_MAP_16, MP_HINT_MAP_32, MP_HINT_EXT_8, MP_HINT_EXT_16, MP_HINT_EXT_32,
    MP_HINT_INVALID, MP_HINT in *; try lia.
  all: intros q n E; exact (F q n (I q n E)).
Qed.

Lemma check_loop_skip fuel k p : 0 <= p <= end_ -> (Z.to_nat (end_ - p) < fuel)%nat -> counted p k ->
  match check_loop mp_check_ext_data buf begin end_ fuel k p with
  | Done (inl q) => skip buf p k = Done q /\ q <= end_
  | Done (inr e) => accepts_ext -> forall q, skip buf p k = Done q -> end_ < q
  | _ => False
  end.
Proof.
  revert k p. induction fuel as [|fuel IH]; intros k p Hp Hf C; [lia|]. cbn [check_loop].
  destruct (Z.leb_spec k 0) as [K|K].
  { rewrite (proj2 (Z.leb_le _ _)) by lia. split; [by apply skip_done|lia]. }
  destruct (check_step_agrees k p Hp K C) as [(p' & n & -> & E & Hp' & Hn)|(e & -> & E)]; rewrite bind_done, skip_step by done.
  - destruct (item_counts p k p' n (proj1 Hp) K C E) as (_ & C' & _).
    rewrite E, bind_done. replace (k - 1 + n) with (k + n - 1) in * by lia. apply IH; [lia..|done].
  - intros Acc q S. destruct (item_advances p) as [[F|(p' & n & F & Hp' & Hn)] _]; rewrite F in S; [done|].
    rewrite bind_done in S. pose proof (skip_monotone p' _ _ ltac:(lia) S). specialize (E Acc _ _ F). lia.
Qed.
End Checks.

Lemma mp_next_skip fuel p : 0 <= p -> (Z.to_nat (len - p) < fuel)%nat -> counted p 1 -> mp_next fuel buf p = skip buf p 1.
Proof. apply next_loop_skip. Qed.

(** Less than five gigabytes from one value on. *)
Lemma counted_one p : len - p < 5 * 2 ^ 30 -> counted p 1.
Proof. left. pow2_norm; lia. Qed.
Lemma counted_done p k q : len < 2 ^ 63 -> skip buf p k = Done q -> counted p k.
Proof. right. eauto. Qed.
End Buffer.
End Reference.

(** ** Theorems *)

(** C19: the two loops of skipping, the slow one with its eight equal bytes at a time,
    do what reading one header after another does, for any bytes and any place: they
    end at the same pointer or leave the buffer both, and as much fuel as there are
    bytes left is enough.  This is so from [k] values to come as long as five times
    [k] and [2 ^ 33] times the bytes left are below [5 * 2 ^ 63], which for [mp_next],
    where [k] is 1, means less than five gigabytes left; beyond, the [int64_t] may
    overflow, yet wherever the headers end in the buffer the loops end there too. *)
Theorem mp_next_reference {H : Hints} {HD : Documented_hints H} buf p k fuel
  (HB : Forall byte_range buf) (Hp : 0 <= p) (HL : Z.of_nat (length buf) < 2 ^ 63)
  (Hf : (Z.to_nat (Z.of_nat (length buf) - p) < fuel)%nat) :
  (5 * k + 2 ^ 33 * (Z.of_nat (length buf) - p) < 5 * 2 ^ 63 -> mp_next_slowpath fuel buf p k = skip buf p k) /\
  (Z.of_nat (length buf) - p < 5 * 2 ^ 30 -> mp_next fuel buf p = skip buf p 1) /\
  (forall q, skip buf p k = Done q -> mp_next_slowpath fuel buf p k = Done q) /\
  (forall q, skip buf p 1 = Done q -> mp_next fuel buf p = Done q) /\
  skip buf p k <> Spins.
Proof.
  split_and!.
  - intros C. apply slowpath_skip; [done..|by left].
  - intros C. apply mp_next_skip; [done..|by apply counted_one].
  - intros q E. rewrite <- E. apply slowpath_skip; [done..|by eapply counted_done].
  - intros q E. rewrite <- E. apply mp_next_skip; [done..|by eapply counted_done].
  - by apply skip_total.
Qed.

(** C6: checking untrusted data of less than five gigabytes always gives an answer and
    reads nothing outside of the data; when it accepts, skipping the value is safe, ends
    at the same pointer, and this is within the data; and when no extension is refused,
    it accepts every value that can be skipped within the data. *)
Theorem mp_check_safe {H : Hints} {HD : Documented_hints H} mp_check_ext_data buf p end_ fuel
  (HB : Forall byte_range buf) (Hp : 0 <= p <= end_) (He : end_ <= Z.of_nat (length buf) < 2 ^ 63)
  (Hg : Z.of_nat (length buf) - p < 5 * 2 ^ 30)
  (Hf : (Z.to_nat (Z.of_nat (length buf) - p) < fuel)%nat) :
  match mp_check mp_check_ext_data fuel buf p end_ with
  | Done (inl q) => mp_next fuel buf p = Done q /\ q <= end_
  | Done (inr e) => accepts_ext mp_check_ext_data -> forall q, mp_next fuel buf p = Done q -> end_ < q
  | _ => False
  end.
Proof.
  pose proof (counted_one buf p Hg) as C. unfold mp_check. rewrite mp_next_skip by (done || lia).
  apply (check_loop_skip buf HB mp_check_ext_data p end_); [lia..|done].
Qed.

(** ** The count of values to come can wrap

    The header of a map of one pair, with a count next to the greatest [int64_t]: the
    addition of the [uint64_t] wraps, and the loops end after the header, as if the
    [2 ^ 63] values to come were there.  With a count of one at first, five gigabytes
    of headers of 32-bit maps, of [2 ^ 33 - 2] values each, bring it there. *)
Theorem pending_count_wraps :
  let H := message_pack_hints in
  let map_header := [0xdf; 0; 0; 0; 1] in
  mp_next_slowpath 6 map_header 0 (2 ^ 63 - 1) = Done 5 /\
  check_loop (fun _ _ _ => 0) map_header 0 5 6 (2 ^ 63 - 1) 0 = Done (inl 5) /\
  skip map_header 0 (2 ^ 63 - 1) = Faults.
Proof. split_and!; vm_compute; reflexivity. Qed.

(** ** Witnesses *)

(** An array of a string of one byte and of nothing. *)
Definition bytes : list Z := [0x92; 0xa1; 97; 0xc0].
Lemma bytes_range : Forall byte_range bytes.
Proof. unfold bytes. repeat constructor; unfold byte_range; lia. Qed.

Lemma mp_next_reference_witness :
  mp_next (H := message_pack_hints) 5 bytes 0 = Done 4 /\ skip (H := message_pack_hints) bytes 0 1 = Done 4.
Proof.
  destruct (mp_next_reference (H := message_pack_hints) bytes 0 1 5 bytes_range ltac:(lia) ltac:(cbn; lia) ltac:(cbn; lia))
    as (_ & E & _).
  rewrite E by (vm_compute; reflexivity).
  split; vm_compute; reflexivity.
Defined.

(** Accepted as a whole; cut before its last byte, it is refused: one value is missing. *)
Lemma mp_check_safe_witness :
  let check := mp_check (H := message_pack_hints) (fun _ _ _ => 0) 5 bytes 0 in
  check 4 = Done (inl 4) /\ mp_next (H := message_pack_hints) 5 bytes 0 = Done 4 /\
  check 3 = Done (inr (truncated 0 3 3 1)).
Proof.
  intros check.
  pose proof (mp_check_safe (H := message_pack_hints) (fun _ _ _ => 0) bytes 0 4 5 bytes_range ltac:(lia) ltac:(cbn; lia)
    ltac:(cbn; lia) ltac:(cbn; lia)) as S.
  replace (mp_check _ 5 bytes 0 4) with (@Done (Z + mp_check_error) (inl 4)) in S by (vm_compute; reflexivity).
  split_and!; [vm_compute; reflexivity|apply S|vm_compute; reflexivity].
Defined.
