(* ===== verification/MsgCodec.v ===== *)
(** * The encoders and the decoders are inverse ([storage/dart/assets/msgpuck.h])

    At any place of a buffer a decoder gives back what the encoder stored there, and
    leaves the pointer after as many bytes as the size says. *)
From S2P Require Import Prelude MsgPack MsgSkip.

(** ** Tactics *)

Ltac widths := repeat match goal with |- context [8 * Z.of_nat ?n] => let v := eval vm_compute in (8 * Z.of_nat n) in change (8 * Z.of_nat n) with v end.
Ltac in_width := unfold byte_range; widths; pow2_norm; lia.

(** Conditions without variables. *)
Ltac decided := repeat match goal with
  | |- context [if ?b then _ else _] =>
      let v := eval vm_compute in b in (match v with true => idtac | false => idtac end); change b with v; cbv iota
  end.

(** Comparisons of literals. *)
Ltac literals := cbv [Z.eqb Z.ltb Z.leb Pos.eqb Z.compare Pos.compare Pos.compare_cont andb orb negb].

Section Codec.
Context {H : Hints} {HD : Documented_hints H}.

Notation len pre := (Z.of_nat (length pre)).

(** A first byte, then a number. *)
Lemma load_head h pre rest post :
  mp_load_u8 (pre ++ ([h] ++ rest) ++ post) (len pre) = Done (h, len pre + 1).
Proof. cbn [app]. rewrite mp_load_u8_at. f_equal. f_equal. lia. Qed.

Lemma load_tail n h v pre post : 0 <= v < 2 ^ (8 * Z.of_nat n) ->
  mp_load n (pre ++ ([h] ++ mp_store n v) ++ post) (len pre + 1) = Done (v, len pre + 1 + Z.of_nat n).
Proof.
  intros Hv. replace (pre ++ ([h] ++ mp_store n v) ++ post) with ((pre ++ [h]) ++ mp_store n v ++ post) by (by rewrite <- !app_assoc).
  replace (len pre + 1) with (len (pre ++ [h])) by (rewrite length_app; cbn; lia).
  rewrite mp_load_store, wrap_small by done. f_equal. f_equal. lia.
Qed.

Lemma load_tail_u8 h v pre post : byte_range v ->
  mp_load_u8 (pre ++ ([h] ++ mp_store_u8 v) ++ post) (len pre + 1) = Done (v, len pre + 1 + 1).
Proof.
  intros Hv. unfold mp_store_u8. rewrite wrap_small by exact Hv.
  replace (pre ++ ([h] ++ [v]) ++ post) with ((pre ++ [h]) ++ v :: post) by (by rewrite <- !app_assoc).
  replace (len pre + 1) with (len (pre ++ [h])) by (rewrite length_app; cbn; lia).
  rewrite mp_load_u8_at. f_equal. f_equal. lia.
Qed.

Lemma load_only h pre post : mp_load_u8 (pre ++ [h] ++ post) (len pre) = Done (h, len pre + 1).
Proof. cbn [app]. rewrite mp_load_u8_at. f_equal. f_equal. lia. Qed.

(** The numbers of a width, with the sign. *)
Lemma signed_tail w n h v pre post : w = 8 * Z.of_nat n -> - 2 ^ (w - 1) <= v < 2 ^ (w - 1) -> 0 < w ->
  signed w (mp_load n (pre ++ ([h] ++ mp_store n v) ++ post) (len pre + 1)) = Done (v, len pre + 1 + Z.of_nat n).
Proof.
  intros -> Hv Hw.
  replace (pre ++ ([h] ++ mp_store n v) ++ post) with ((pre ++ [h]) ++ mp_store n v ++ post) by (by rewrite <- !app_assoc).
  replace (len pre + 1) with (len (pre ++ [h])) by (rewrite length_app; cbn; lia).
  unfold signed. rewrite mp_load_store, bind_done. f_equal. f_equal; [|lia].
  unfold swrap, wrap. rewrite Zplus_mod_idemp_l. fold (swrap (8 * Z.of_nat n) v). by apply swrap_small.
Qed.

Lemma signed_tail_u8 h v pre post : - 2 ^ 7 <= v < 2 ^ 7 ->
  signed 8 (mp_load_u8 (pre ++ ([h] ++ mp_store_u8 v) ++ post) (len pre + 1)) = Done (v, len pre + 1 + 1).
Proof.
  intros Hv. replace (mp_store_u8 v) with (mp_store_u8 (u8 v)).
  - unfold signed. rewrite load_tail_u8, bind_done by (apply (wrap_bound 8); lia). f_equal. f_equal.
    unfold swrap, wrap. rewrite Zplus_mod_idemp_l. fold (swrap 8 v). apply swrap_small; [exact Hv|lia].
  - unfold mp_store_u8. by rewrite wrap_idemp by lia.
Qed.

Lemma land_low a b k : 0 <= b < 2 ^ k -> 0 <= k -> a mod 2 ^ k = 0 -> Z.land (Z.lor a b) (Z.ones k) = b.
Proof.
  intros Hb Hk Ha. rewrite Z.land_ones by lia.
  rewrite <- (Z.mod_small b (2 ^ k)) at 2 by done. apply Z.bits_inj'. intros i Hi.
  destruct (Z.lt_ge_cases i k); [|rewrite !Z.mod_pow2_bits_high by lia; done].
  rewrite !Z.mod_pow2_bits_low, Z.lor_spec by lia.
  replace (Z.testbit a i) with false; [done|]. symmetry.
  rewrite <- (Z.mod_pow2_bits_low a k i) by lia. by rewrite Ha, Z.bits_0.
Qed.

(** The bytes that hold a small number. *)
Lemma fixed_byte (f : Z -> bool) n a : forallb f (seqZ 0 n) = true -> 0 <= a < n -> f a = true.
Proof. intros F Ha. rewrite forallb_forall in F. apply F. rewrite <- list_elem_of_In. apply elem_of_seqZ. lia. Qed.

(** A first byte that is a literal, and what is loaded after it. *)
Ltac tagged :=
  unfold mp_load_u16, mp_load_u32, mp_load_u64, mp_load_float, mp_load_double, mp_store_u16, mp_store_u32, mp_store_u64, mp_store_float, mp_store_double;
  match goal with |- context [mp_store_u8 (Zpos ?h)] => change (mp_store_u8 (Zpos h)) with [Zpos h] end;
  rewrite ?load_head, ?load_only; rewrite ?bind_done; literals; rewrite ?bind_done;
  first [rewrite signed_tail by in_width | rewrite signed_tail_u8 by in_width | rewrite load_tail by in_width
        | rewrite load_tail_u8 by in_width | idtac];
  rewrite ?bind_done.
Ltac ends := f_equal; try (f_equal; lia).

Lemma decode_uint_encode n pre post : 0 <= n < 2 ^ 64 ->
  mp_decode_uint (pre ++ mp_encode_uint n ++ post) (len pre) = Done (n, len pre + mp_sizeof_uint n).
Proof.
  intros Hn. unfold mp_encode_uint, mp_sizeof_uint, mp_decode_uint, UINT8_MAX, UINT16_MAX, UINT32_MAX.
  destruct (Z.leb_spec n 0x7f).
  { unfold mp_store_u8. rewrite wrap_small, load_only, bind_done by (pow2_norm; lia).
    rewrite !(proj2 (Z.eqb_neq _ _)), (proj2 (Z.ltb_ge _ _)) by lia. done. }
  destruct (Z.leb_spec n (2 ^ 8 - 1)); [tagged; ends|].
  destruct (Z.leb_spec n (2 ^ 16 - 1)); [tagged; ends|].
  destruct (Z.leb_spec n (2 ^ 32 - 1)); tagged; ends.
Qed.

Lemma decode_int_encode n pre post bytes : - 2 ^ 63 <= n < 0 -> mp_encode_int n = Done bytes ->
  exists size, mp_sizeof_int n = Done size /\ mp_decode_int (pre ++ bytes ++ post) (len pre) = Done (n, len pre + size).
Proof.
  intros Hn. unfold mp_encode_int, mp_sizeof_int, mp_decode_int, UINT16_MAX, UINT32_MAX.
  rewrite (proj2 (Z.ltb_lt _ _)) by lia. cbn [negb]. intros E.
  match type of E with Done ?x = _ => replace bytes with x by congruence end. eexists. split; [reflexivity|]. clear E.
  destruct (Z.leb_spec (-0x20) n).
  { unfold mp_store_u8. replace (u8 (Z.lor 0xe0 n)) with (256 + n).
    - rewrite load_only, bind_done. rewrite !(proj2 (Z.eqb_neq _ _)), (proj2 (Z.ltb_ge _ _)) by lia.
      f_equal. f_equal. unfold swrap. pow2_norm. zdiv_lia.
    - pose proof (fixed_byte (fun i => u8 (Z.lor 0xe0 (i - 32)) =? 256 + (i - 32)) 32 (n + 32) ltac:(vm_compute; reflexivity)) as F.
      specialize (F ltac:(lia)). cbn beta in F. replace (n + 32 - 32) with n in F by lia. symmetry. by apply Z.eqb_eq. }
  destruct (Z.leb_spec (- 2 ^ 7) n); cbn [andb]; [rewrite (proj2 (Z.leb_le n _)) by lia; cbn [andb]; tagged; ends|].
  destruct (Z.leb_spec (- 2 ^ 15) n); cbn [andb]; [rewrite (proj2 (Z.leb_le n _)) by lia; cbn [andb]; tagged; ends|].
  destruct (Z.leb_spec (- 2 ^ 31) n); cbn [andb]; [rewrite (proj2 (Z.leb_le n _)) by lia; cbn [andb]; tagged; ends|].
  cbn [andb]. tagged; ends.
Qed.

Lemma decode_array_encode n pre post : 0 <= n < 2 ^ 32 ->
  mp_decode_array (pre ++ mp_encode_array n ++ post) (len pre) = Done (n, len pre + mp_sizeof_array n).
Proof.
  intros Hn. unfold mp_encode_array, mp_sizeof_array, mp_decode_array, mp_decode_array_slowpath, UINT16_MAX.
  destruct (Z.leb_spec n 15).
  { unfold mp_store_u8. rewrite load_only, bind_done.
    pose proof (fixed_byte (fun i => (Z.land (u8 (Z.lor 0x90 i)) 0x40 =? 0) && (Z.land (u8 (Z.lor 0x90 i)) 0xf =? i)) 16 n
      ltac:(vm_compute; reflexivity) ltac:(lia)) as F. cbn beta in F. apply andb_prop in F as [-> F].
    apply Z.eqb_eq in F. by rewrite F. }
  destruct (Z.leb_spec n (2 ^ 16 - 1)); tagged; cbn [Z.land Pos.land Pos.Ndouble Pos.Nsucc_double Z.of_N]; literals; ends.
Qed.

Lemma decode_map_encode n pre post : 0 <= n < 2 ^ 32 ->
  mp_decode_map (pre ++ mp_encode_map n ++ post) (len pre) = Done (n, len pre + mp_sizeof_map n).
Proof.
  intros Hn. unfold mp_encode_map, mp_sizeof_map, mp_decode_map, UINT16_MAX.
  destruct (Z.leb_spec n 15).
  { unfold mp_store_u8. rewrite load_only, bind_done.
    pose proof (fixed_byte (fun i => let c := u8 (Z.lor 0x80 i) in negb (c =? 0xde) && negb (c =? 0xdf) &&
      negb ((c <? 0x80) || (0x8f <? c)) && (Z.land c 0xf =? i)) 16 n
      ltac:(vm_compute; reflexivity) ltac:(lia)) as F. cbv beta zeta in F.
    apply andb_prop in F as [F F4]. apply andb_prop in F as [F F3]. apply andb_prop in F as [F1 F2].
    apply negb_true_iff in F1, F2, F3. rewrite F1, F2, F3. apply Z.eqb_eq in F4. by rewrite F4. }
  destruct (Z.leb_spec n (2 ^ 16 - 1)); tagged; ends.
Qed.

Lemma decode_strl_encode n pre post : 0 <= n < 2 ^ 32 ->
  mp_decode_strl (pre ++ mp_encode_strl n ++ post) (len pre) = Done (n, len pre + mp_sizeof_strl n).
Proof.
  intros Hn. unfold mp_encode_strl, mp_sizeof_strl, mp_decode_strl, UINT8_MAX, UINT16_MAX.
  destruct (Z.leb_spec n 31).
  { unfold mp_store_u8. rewrite load_only, bind_done.
    pose proof (fixed_byte (fun i => let c := u8 (Z.lor 0xa0 (u8 i)) in negb (c =? 0xd9) && negb (c =? 0xda) && negb (c =? 0xdb) &&
      negb ((c <? 0xa0) || (0xbf <? c)) && (Z.land c 0x1f =? i)) 32 n
      ltac:(vm_compute; reflexivity) ltac:(lia)) as F. cbv beta zeta in F.
    apply andb_prop in F as [F F5]. apply andb_prop in F as [F F4]. apply andb_prop in F as [F F3]. apply andb_prop in F as [F1 F2].
    apply negb_true_iff in F1, F2, F3, F4. rewrite F1, F2, F3, F4. apply Z.eqb_eq in F5. by rewrite F5. }
  destruct (Z.leb_spec n (2 ^ 8 - 1)); [tagged; ends|]. destruct (Z.leb_spec n (2 ^ 16 - 1)); tagged; ends.
Qed.

Lemma decode_binl_encode n pre post : 0 <= n < 2 ^ 32 ->
  mp_decode_binl (pre ++ mp_encode_binl n ++ post) (len pre) = Done (n, len pre + mp_sizeof_binl n).
Proof.
  intros Hn. unfold mp_encode_binl, mp_sizeof_binl, mp_decode_binl, UINT8_MAX, UINT16_MAX.
  destruct (Z.leb_spec n (2 ^ 8 - 1)); [tagged; ends|]. destruct (Z.leb_spec n (2 ^ 16 - 1)); tagged; ends.
Qed.

Lemma decode_float_encode n pre post : 0 <= n < 2 ^ 32 ->
  mp_decode_float (pre ++ mp_encode_float n ++ post) (len pre) = Done (n, len pre + mp_sizeof_float n).
Proof. intros Hn. unfold mp_encode_float, mp_sizeof_float, mp_decode_float. tagged; ends. Qed.

Lemma decode_double_encode n pre post : 0 <= n < 2 ^ 64 ->
  mp_decode_double (pre ++ mp_encode_double n ++ post) (len pre) = Done (n, len pre + mp_sizeof_double n).
Proof. intros Hn. unfold mp_encode_double, mp_sizeof_double, mp_decode_double. tagged; ends. Qed.

Lemma decode_bool_encode b pre post :
  mp_decode_bool (pre ++ mp_encode_bool b ++ post) (len pre) = Done (b, len pre + mp_sizeof_bool b).
Proof.
  unfold mp_encode_bool, mp_decode_bool, mp_sizeof_bool, mp_store_u8. rewrite load_only, bind_done. by destruct b.
Qed.

Lemma decode_nil_encode pre post : mp_decode_nil (pre ++ mp_encode_nil ++ post) (len pre) = Done (len pre + mp_sizeof_nil).
Proof. unfold mp_encode_nil, mp_decode_nil, mp_sizeof_nil, mp_store_u8. by rewrite load_only, bind_done. Qed.

(** *** Extensions *)

Lemma load_after (bytes pre post : list Z) t : byte_range t ->
  mp_load_u8 (pre ++ bytes ++ [t] ++ post) (len pre + Z.of_nat (length bytes)) = Done (t, len pre + Z.of_nat (length bytes) + 1).
Proof.
  intros Ht. rewrite app_assoc. replace (len pre + Z.of_nat (length bytes)) with (len (pre ++ bytes)) by (rewrite length_app; lia).
  apply load_only.
Qed.

Definition power_length (n : Z) : bool := (n =? 1) || (n =? 2) || (n =? 4) || (n =? 8) || (n =? 16).

Lemma fixed_ext_lengths n : 0 <= n -> fixed_ext n = power_length n.
Proof.
  intros Hn. unfold fixed_ext. destruct (Z.leb_spec n 16) as [L|L].
  - destruct (Z.eqb_spec n 0) as [->|]; [done|]. rewrite ext_hint_documented by lia. cbn [negb andb].
    pose proof (fixed_byte (fun i => Bool.eqb (negb (documented_ext i =? 0)) (power_length (i + 1))) 16 (n - 1)
      ltac:(vm_compute; reflexivity) ltac:(lia)) as F. cbn beta in F. apply Bool.eqb_prop in F. rewrite F.
    by replace (n - 1 + 1) with n by lia.
  - rewrite andb_false_r. symmetry. unfold power_length. repeat rewrite (proj2 (Z.eqb_neq n _)) by lia. done.
Qed.

Lemma power_length_shift n : power_length n = true -> exists k, 0 <= k <= 4 /\ n = Z.shiftl 1 k /\ documented_ext (n - 1) = 0xd4 + k.
Proof.
  intros F. assert (n = 1 \/ n = 2 \/ n = 4 \/ n = 8 \/ n = 16) as [->|[->|[->|[->| ->]]]] by (unfold power_length in F; lia).
  - by exists 0. - by exists 1. - by exists 2. - by exists 3. - by exists 4.
Qed.

Lemma decode_extl_encode type n pre post : 0 <= n < 2 ^ 32 -> - 2 ^ 7 <= type < 2 ^ 7 ->
  mp_decode_extl (pre ++ mp_encode_extl type n ++ post) (len pre) = Done (n, type, len pre + mp_sizeof_extl n).
Proof.
  intros Hn Ht. unfold mp_encode_extl, mp_sizeof_extl, mp_decode_extl, UINT8_MAX, UINT16_MAX.
  assert (T : i8 (u8 type) = type).
  { unfold swrap, wrap. rewrite Zplus_mod_idemp_l. fold (swrap 8 type). by apply swrap_small. }
  assert (B : byte_range (u8 type)) by (apply (wrap_bound 8); lia).
  change (mp_store_u8 type) with [u8 type]. rewrite fixed_ext_lengths by lia. rewrite <- app_assoc.
  destruct (power_length n) eqn:F.
  - destruct (power_length_shift n F) as (k & Hk & -> & E). rewrite ext_hint_documented, E by (rewrite Z.shiftl_mul_pow2 by lia; assert (0 < 2 ^ k <= 2 ^ 4) by (split; [lia|apply Z.pow_le_mono_r; lia]); lia).
    unfold mp_store_u8. rewrite wrap_small by (pow2_norm; lia).
    rewrite load_only, bind_done. rewrite (proj2 (Z.leb_le 0xd4 _)), (proj2 (Z.leb_le _ 0xd8)) by lia. cbn [andb]. rewrite bind_done.
    rewrite (load_after [0xd4 + k]) by done. rewrite bind_done, T. f_equal. f_equal; [f_equal; f_equal; lia|cbn; lia].
  - destruct (Z.leb_spec n (2 ^ 8 - 1)); [|destruct (Z.leb_spec n (2 ^ 16 - 1))]; tagged;
      (match goal with |- context [mp_load_u8 (_ ++ ?bs ++ [u8 type] ++ _) ?q] =>
         replace q with (len pre + Z.of_nat (length bs)) by (cbn; lia); rewrite (load_after bs) by done end);
      rewrite bind_done, T; f_equal; f_equal; cbn; lia.
Qed.

Lemma mp_store_length n v : length (mp_store n v) = n.
Proof. apply le_split_length. Qed.

(** ** Integers that may not fit *)

Definition fits (w n : Z) : bool := (- 2 ^ (w - 1) <=? n) && (n <? 2 ^ (w - 1)).

(** What a reader of [w] bits answers. *)
Definition read_answer (w n p : Z) : outcome (option (Z * Z)) := Done (if fits w n then Some (n, p) else None).

Lemma read_answer_fits w n p : fits w n = true -> Done (Some (n, p)) = read_answer w n p.
Proof. unfold read_answer. by intros ->. Qed.
Lemma read_answer_none w n p : fits w n = false -> Done None = read_answer w n p.
Proof. unfold read_answer. by intros ->. Qed.

Lemma read_signed w v m p : signed w m = Done (v, p) -> read w m = Done (Some (v, p)).
Proof. unfold signed, read. destruct m as [[x q]| | |]; cbn; intros; simplify_eq; done. Qed.

(** A number after a literal first byte, or one that the first byte refuses. *)
Ltac read_tag :=
  unfold mp_load_u16, mp_load_u32, mp_load_u64, mp_store_u16, mp_store_u32, mp_store_u64;
  match goal with |- context [mp_store_u8 (Zpos ?h)] => change (mp_store_u8 (Zpos h)) with [Zpos h] end;
  rewrite load_head, bind_done; literals; unfold read_fixed; literals;
  first [ erewrite read_signed by (first [apply signed_tail; [done|in_width|in_width] | apply signed_tail_u8; in_width])
        | rewrite load_tail by in_width | rewrite load_tail_u8 by in_width | idtac ];
  unfold read_plain, read_limited; rewrite ?bind_done.
Ltac read_done :=
  repeat match goal with |- context [if ?b then _ else _] => destruct b eqn:? end;
  first [ eapply eq_trans; [|apply read_answer_fits]; [do 3 f_equal; lia|unfold fits; pow2_norm; lia]
        | apply read_answer_none; unfold fits; pow2_norm; lia ].

(** A number in its first byte. *)
Ltac read_small n :=
  unfold mp_store_u8; rewrite wrap_small, load_only, bind_done by (pow2_norm; lia);
  rewrite !(proj2 (Z.eqb_neq _ _)) by lia; unfold read_fixed;
  rewrite (proj2 (Z.ltb_ge 0x7f _)), andb_false_r by lia; rewrite swrap_small by (pow2_norm; lia); read_done.
Ltac read_uint n :=
  unfold mp_encode_uint, mp_sizeof_uint, UINT8_MAX, UINT16_MAX, UINT32_MAX;
  destruct (Z.leb_spec n 0x7f); [read_small n|];
  destruct (Z.leb_spec n (2 ^ 8 - 1)); [read_tag; read_done|];
  destruct (Z.leb_spec n (2 ^ 16 - 1)); [read_tag; read_done|];
  destruct (Z.leb_spec n (2 ^ 32 - 1)); read_tag; read_done.

Lemma negative_byte n : -0x20 <= n < 0 -> u8 (Z.lor 0xe0 n) = 256 + n /\ i8 (256 + n) = n.
Proof.
  intros Hn. split; [|unfold swrap; pow2_norm; zdiv_lia].
  pose proof (fixed_byte (fun i => u8 (Z.lor 0xe0 (i - 32)) =? 256 + (i - 32)) 32 (n + 32) ltac:(vm_compute; reflexivity)) as F.
  specialize (F ltac:(lia)). cbn beta in F. replace (n + 32 - 32) with n in F by lia. by apply Z.eqb_eq.
Qed.

(** The bytes of a negative number. *)
Definition int_bytes (n : Z) : list Z := match mp_encode_int n with Done bytes => bytes | _ => [] end.

Ltac read_int n :=
  unfold int_bytes, mp_encode_int; rewrite (proj2 (Z.ltb_lt n 0)) by lia; cbn [negb];
  destruct (Z.leb_spec (-0x20) n);
  [ unfold mp_store_u8; destruct (negative_byte n) as [-> ?]; [lia|]; rewrite load_only, bind_done;
    rewrite !(proj2 (Z.eqb_neq _ _)) by lia; unfold read_fixed; rewrite (proj2 (Z.ltb_ge _ 0xe0)) by lia; cbn [andb length];
    read_done
  |];
  destruct (Z.leb_spec (- 2 ^ 7) n); [read_tag; cbn [length app]; unfold mp_store_u8; cbn [length]; read_done|];
  destruct (Z.leb_spec (- 2 ^ 15) n); [read_tag; cbn [length app]; rewrite ?mp_store_length; read_done|];
  destruct (Z.leb_spec (- 2 ^ 31) n); read_tag; cbn [length app]; rewrite ?mp_store_length; read_done.

Lemma read_int8_uint n pre post : 0 <= n < 2 ^ 64 ->
  mp_read_int8 (pre ++ mp_encode_uint n ++ post) (len pre) = read_answer 8 n (len pre + mp_sizeof_uint n).
Proof. intros Hn. unfold mp_read_int8. read_uint n. Qed.
Lemma read_int16_uint n pre post : 0 <= n < 2 ^ 64 ->
  mp_read_int16 (pre ++ mp_encode_uint n ++ post) (len pre) = read_answer 16 n (len pre + mp_sizeof_uint n).
Proof. intros Hn. unfold mp_read_int16. read_uint n. Qed.
Lemma read_int32_uint n pre post : 0 <= n < 2 ^ 64 ->
  mp_read_int32 (pre ++ mp_encode_uint n ++ post) (len pre) = read_answer 32 n (len pre + mp_sizeof_uint n).
Proof. intros Hn. unfold mp_read_int32. read_uint n. Qed.
Lemma read_int64_uint n pre post : 0 <= n < 2 ^ 64 ->
  mp_read_int64 (pre ++ mp_encode_uint n ++ post) (len pre) = read_answer 64 n (len pre + mp_sizeof_uint n).
Proof. intros Hn. unfold mp_read_int64. read_uint n. Qed.

Lemma read_int8_int n pre post : - 2 ^ 63 <= n < 0 ->
  mp_read_int8 (pre ++ int_bytes n ++ post) (len pre) = read_answer 8 n (len pre + len (int_bytes n)).
Proof. intros Hn. unfold mp_read_int8. read_int n. Qed.
Lemma read_int16_int n pre post : - 2 ^ 63 <= n < 0 ->
  mp_read_int16 (pre ++ int_bytes n ++ post) (len pre) = read_answer 16 n (len pre + len (int_bytes n)).
Proof. intros Hn. unfold mp_read_int16. read_int n. Qed.
Lemma read_int32_int n pre post : - 2 ^ 63 <= n < 0 ->
  mp_read_int32 (pre ++ int_bytes n ++ post) (len pre) = read_answer 32 n (len pre + len (int_bytes n)).
Proof. intros Hn. unfold mp_read_int32. read_int n. Qed.
Lemma read_int64_int n pre post : - 2 ^ 63 <= n < 0 ->
  mp_read_int64 (pre ++ int_bytes n ++ post) (len pre) = read_answer 64 n (len pre + len (int_bytes n)).
Proof. intros Hn. unfold mp_read_int64. read_int n. Qed.

(** ** Comparing *)

Lemma difference_sign w a b : 0 <= a < 2 ^ w -> 0 <= b < 2 ^ w -> 0 <= w <= 32 ->
  Z.sgn ((if i64 (u64 (a - b)) >? 0 then 1 else 0) - (if i64 (u64 (a - b)) <? 0 then 1 else 0)) = Z.sgn (a - b).
Proof.
  intros Ha Hb Hw. assert (2 ^ w <= 2 ^ 32) by (apply Z.pow_le_mono_r; lia).
  replace (i64 (u64 (a - b))) with (a - b).
  - destruct (Z.gtb_spec (a - b) 0), (Z.ltb_spec (a - b) 0); lia.
  - unfold swrap, wrap. rewrite Zplus_mod_idemp_l. fold (swrap 64 (a - b)). symmetry. apply swrap_small; pow2_norm; lia.
Qed.

(** The forms of a number: its first byte, the rest, and the range. *)
Inductive uint_form (n : Z) : Z -> list Z -> Prop :=
| uint_fixed : n <= 0x7f -> uint_form n n []
| uint_8 : 0x7f < n < 2 ^ 8 -> uint_form n 0xcc (mp_store_u8 n)
| uint_16 : 2 ^ 8 <= n < 2 ^ 16 -> uint_form n 0xcd (mp_store_u16 n)
| uint_32 : 2 ^ 16 <= n < 2 ^ 32 -> uint_form n 0xce (mp_store_u32 n)
| uint_64 : 2 ^ 32 <= n -> uint_form n 0xcf (mp_store_u64 n).

Lemma uint_encode_form n : 0 <= n < 2 ^ 64 -> exists c rest, mp_encode_uint n = [c] ++ rest /\ uint_form n c rest.
Proof.
  intros Hn. unfold mp_encode_uint, UINT8_MAX, UINT16_MAX, UINT32_MAX.
  destruct (Z.leb_spec n 0x7f).
  { exists n, []. unfold mp_store_u8. rewrite wrap_small by (pow2_norm; lia). split; [done|by constructor]. }
  destruct (Z.leb_spec n (2 ^ 8 - 1)); [|destruct (Z.leb_spec n (2 ^ 16 - 1)); [|destruct (Z.leb_spec n (2 ^ 32 - 1))]];
    eexists _, _; (split; [reflexivity|]); constructor; lia.
Qed.

Lemma compare_uint_sign a b pre1 post1 pre2 post2 : 0 <= a < 2 ^ 64 -> 0 <= b < 2 ^ 64 ->
  exists r, mp_compare_uint (pre1 ++ mp_encode_uint a ++ post1) (len pre1) (pre2 ++ mp_encode_uint b ++ post2) (len pre2) = Done r /\
    Z.sgn r = Z.sgn (a - b).
Proof.
  intros Ha Hb. unfold mp_compare_uint.
  destruct (uint_encode_form a Ha) as (ca & ra & -> & Fa), (uint_encode_form b Hb) as (cb & rb & -> & Fb).
  rewrite !load_head, !bind_done. cbv zeta.
  destruct (Z.eqb_spec (ca - cb) 0) as [E|E]; cbn [negb].
  - destruct (Z.leb_spec ca 0x7f) as [L|L].
    { eexists. split; [reflexivity|]. inversion Fa; subst; inversion Fb; subst; lia. }
    inversion Fa; subst; try lia; inversion Fb; subst; try lia; decided;
      unfold mp_load_u16, mp_load_u32, mp_load_u64, mp_store_u16, mp_store_u32, mp_store_u64;
      first [rewrite load_tail by in_width | rewrite load_tail_u8 by in_width]; rewrite ?bind_done;
      first [rewrite load_tail by in_width | rewrite load_tail_u8 by in_width]; rewrite ?bind_done;
      (eexists; split; [reflexivity|]).
    + apply (difference_sign 8); lia.
    + apply (difference_sign 16); lia.
    + apply (difference_sign 32); lia.
    + destruct (Z.ltb_spec a b), (Z.gtb_spec a b); lia.
  - eexists. split; [reflexivity|]. pow2_norm. inversion Fa; subst; inversion Fb; subst; pow2_norm; lia.
Qed.

(** ** Sizes *)


Ltac sizes := repeat case_match; unfold mp_store_u8, mp_store_u16, mp_store_u32, mp_store_u64, mp_store_float, mp_store_double;
  rewrite ?length_app, ?mp_store_length; cbn; lia.

Lemma encode_array_size n : len (mp_encode_array n) = mp_sizeof_array n.
Proof. unfold mp_encode_array, mp_sizeof_array. sizes. Qed.
Lemma encode_map_size n : len (mp_encode_map n) = mp_sizeof_map n.
Proof. unfold mp_encode_map, mp_sizeof_map. sizes. Qed.
Lemma encode_uint_size n : len (mp_encode_uint n) = mp_sizeof_uint n.
Proof. unfold mp_encode_uint, mp_sizeof_uint. sizes. Qed.
Lemma encode_strl_size n : len (mp_encode_strl n) = mp_sizeof_strl n.
Proof. unfold mp_encode_strl, mp_sizeof_strl. sizes. Qed.
Lemma encode_binl_size n : len (mp_encode_binl n) = mp_sizeof_binl n.
Proof. unfold mp_encode_binl, mp_sizeof_binl. sizes. Qed.
Lemma encode_extl_size t n : len (mp_encode_extl t n) = mp_sizeof_extl n.
Proof. unfold mp_encode_extl, mp_sizeof_extl. rewrite length_app. sizes. Qed.
Lemma encode_int_size n bytes : mp_encode_int n = Done bytes -> mp_sizeof_int n = Done (len bytes).
Proof.
  unfold mp_encode_int, mp_sizeof_int, UINT16_MAX, UINT32_MAX. destruct (Z.ltb_spec n 0); [cbn [negb]|done]. intros E.
  match type of E with Done ?x = _ => replace bytes with x by congruence end. clear E. f_equal.
  rewrite !(proj2 (Z.leb_le n _)) by lia. rewrite !andb_true_r. sizes.
Qed.

Lemma memcpy_all str : mp_memcpy str (len str) = Done str.
Proof. unfold mp_memcpy. rewrite (proj2 (Z.leb_le _ _)), Z.leb_refl by lia. cbn [andb]. by rewrite Nat2Z.id, firstn_all. Qed.

Lemma slice_at (pre str post : list Z) : take (length str) (drop (length pre) (pre ++ str ++ post)) = str.
Proof. by rewrite drop_app_length, take_app_length. Qed.

Lemma safely_fits size bytes left b : bytes = Done b -> len b = size ->
  exists stored, safely size bytes (Some left) = Done (stored, Some (left - size)) /\
    (0 <= left -> len stored <= left) /\ stored = if size <=? left then b else [].
Proof.
  intros -> <-. unfold safely. destruct (Z.ltb_spec (left - len b) 0).
  - exists []. rewrite (proj2 (Z.leb_gt _ _)) by lia. split_and!; [done|cbn; lia|done].
  - exists b. rewrite bind_done, (proj2 (Z.leb_le _ _)) by lia. split_and!; [done|lia|done].
Qed.
End Codec.

(** ** Theorems *)

(** C37: at any place of a buffer, what the encoders of numbers, booleans and nothing
    stored is what the decoders give back, with the pointer after as many bytes as
    the sizes say; every 64-bit number has an encoding. *)
Theorem mp_scalars_roundtrip pre post :
  let p := Z.of_nat (length pre) in
  let at_ bytes := pre ++ bytes ++ post in
  (forall n, 0 <= n < 2 ^ 64 -> mp_decode_uint (at_ (mp_encode_uint n)) p = Done (n, p + mp_sizeof_uint n)) /\
  (forall n, - 2 ^ 63 <= n < 0 -> exists bytes size, mp_encode_int n = Done bytes /\ mp_sizeof_int n = Done size /\
     mp_decode_int (at_ bytes) p = Done (n, p + size)) /\
  (forall n, 0 <= n < 2 ^ 32 -> mp_decode_float (at_ (mp_encode_float n)) p = Done (n, p + mp_sizeof_float n)) /\
  (forall n, 0 <= n < 2 ^ 64 -> mp_decode_double (at_ (mp_encode_double n)) p = Done (n, p + mp_sizeof_double n)) /\
  (forall b, mp_decode_bool (at_ (mp_encode_bool b)) p = Done (b, p + mp_sizeof_bool b)) /\
  mp_decode_nil (at_ mp_encode_nil) p = Done (p + mp_sizeof_nil).
Proof.
  cbv zeta. split_and!; auto using decode_uint_encode, decode_float_encode, decode_double_encode, decode_bool_encode, decode_nil_encode.
  intros n Hn. destruct (mp_encode_int n) as [bytes| | |] eqn:E;
    [|unfold mp_encode_int in E; rewrite (proj2 (Z.ltb_lt n 0)) in E by lia; discriminate..].
  destruct (decode_int_encode n pre post bytes Hn E) as (size & ? & ?). eauto.
Qed.

(** C36: the same for strings, binary data, arrays, maps and extensions: the headers
    give back the length, the number of elements and the type; and the contents of
    a string, of binary data and of an extension are where the decoder points. *)
Theorem mp_containers_roundtrip {H : Hints} {HD : Documented_hints H} pre post :
  let p := Z.of_nat (length pre) in
  let at_ bytes := pre ++ bytes ++ post in
  let slice start n buf := take (Z.to_nat n) (drop (Z.to_nat start) buf) in
  (forall n, 0 <= n < 2 ^ 32 ->
     mp_decode_array (at_ (mp_encode_array n)) p = Done (n, p + mp_sizeof_array n) /\
     mp_decode_map (at_ (mp_encode_map n)) p = Done (n, p + mp_sizeof_map n)) /\
  (forall str, let n := Z.of_nat (length str) in n < 2 ^ 32 ->
     (exists bytes start, mp_encode_str str n = Done bytes /\ slice start n (at_ bytes) = str /\
        mp_decode_str (at_ bytes) p = Done (start, n, p + Z.of_nat (length bytes))) /\
     (exists bytes start, mp_encode_bin str n = Done bytes /\ slice start n (at_ bytes) = str /\
        mp_decode_bin (at_ bytes) p = Done (start, n, p + Z.of_nat (length bytes))) /\
     (forall type, - 2 ^ 7 <= type < 2 ^ 7 -> exists bytes start, mp_encode_ext type str n = Done bytes /\
        slice start n (at_ bytes) = str /\
        mp_decode_ext (at_ bytes) p = Done (start, n, type, p + Z.of_nat (length bytes)))).
Proof.
  cbv zeta. split; [auto using decode_array_encode, decode_map_encode|].
  intros str Hn. unfold mp_encode_str, mp_encode_bin, mp_encode_ext. rewrite memcpy_all, !bind_done.
  assert (S : forall head size, Z.of_nat (length head) = size ->
    take (Z.to_nat (Z.of_nat (length str))) (drop (Z.to_nat (Z.of_nat (length pre) + size)) (pre ++ (head ++ str) ++ post)) = str).
  { intros head size <-. rewrite <- Nat2Z.inj_add, !Nat2Z.id, <- length_app, <- app_assoc, app_assoc. apply slice_at. }
  assert (A : forall head : list Z, pre ++ (head ++ str) ++ post = pre ++ head ++ (str ++ post)) by (intros; by rewrite <- app_assoc).
  split_and!; [| |intros type Ht]; eexists _, _; (split; [reflexivity|]);
    unfold mp_decode_str, mp_decode_bin, mp_decode_ext, contents.
  - split; [apply S, encode_strl_size|].
    rewrite A, decode_strl_encode, bind_done by lia. f_equal. rewrite length_app, <- encode_strl_size. f_equal; lia.
  - split; [apply S, encode_binl_size|].
    rewrite A, decode_binl_encode, bind_done by lia. f_equal. rewrite length_app, <- encode_binl_size. f_equal; lia.
  - split; [apply S, (encode_extl_size type)|].
    rewrite A, decode_extl_encode, bind_done by lia. f_equal. rewrite length_app, <- (encode_extl_size type). f_equal; lia.
Qed.

(** Given the number of bytes left, the safe encoder of strings stores the whole
    string when it fits and nothing otherwise, and the new number tells; except for
    strings of [2 ^ 32 - 5] bytes and more, whose size is cut to 32 bits: more is
    stored then than there is room for. *)
Theorem mp_encode_str_safe_bounds str left (Hn : Z.of_nat (length str) < 2 ^ 32) :
  let n := Z.of_nat (length str) in
  let size := mp_sizeof_strl n + n in
  (n < 2 ^ 32 - 5 ->
     exists stored, mp_encode_str_safe (Some left) str n = Done (stored, Some (left - size)) /\
       (0 <= left -> Z.of_nat (length stored) <= left) /\
       stored = if size <=? left then mp_encode_strl n ++ str else []) /\
  (2 ^ 32 - 5 <= n ->
     mp_encode_str_safe (Some (size - 2 ^ 32)) str n = Done (mp_encode_strl n ++ str, Some 0) /\
     size - 2 ^ 32 < Z.of_nat (length (mp_encode_strl n ++ str))).
Proof.
  cbv zeta. assert (E : mp_encode_str str (Z.of_nat (length str)) = Done (mp_encode_strl (Z.of_nat (length str)) ++ str)).
  { unfold mp_encode_str. by rewrite memcpy_all, bind_done. }
  unfold mp_encode_str_safe, mp_sizeof_str. rewrite E. rewrite length_app, Nat2Z.inj_add, encode_strl_size.
  assert (L : 1 <= mp_sizeof_strl (Z.of_nat (length str)) <= 5) by (unfold mp_sizeof_strl; repeat case_match; lia).
  split; intros Hs.
  - rewrite wrap_small by (pow2_norm; lia). eapply safely_fits; [done|]. by rewrite length_app, Nat2Z.inj_add, encode_strl_size.
  - assert (L5 : mp_sizeof_strl (Z.of_nat (length str)) = 5).
    { unfold mp_sizeof_strl, UINT8_MAX, UINT16_MAX. rewrite !(proj2 (Z.leb_gt _ _)) by (pow2_norm; lia). done. }
    rewrite L5. replace (u32 (5 + Z.of_nat (length str))) with (5 + Z.of_nat (length str) - 2 ^ 32) by (unfold wrap; pow2_norm; zdiv_lia).
    unfold safely. rewrite Z.sub_diag. cbn [Z.ltb Z.compare]. rewrite bind_done. split; [done|lia].
Qed.

(** The readers of integers of 8, 16, 32 and 64 bits read any integer, of either
    sign and of any encoded length: the number and the pointer after it when it
    fits the width, and otherwise the error, the pointer then staying in place. *)
Theorem mp_read_ints_fit pre post n (Hn : - 2 ^ 63 <= n < 2 ^ 64) :
  let bytes := if n <? 0 then int_bytes n else mp_encode_uint n in
  Forall (fun '(w, mp_read_int) => mp_read_int (pre ++ bytes ++ post) (Z.of_nat (length pre)) =
      Done (if fits w n then Some (n, Z.of_nat (length pre) + Z.of_nat (length bytes)) else None))
    [(8, mp_read_int8); (16, mp_read_int16); (32, mp_read_int32); (64, mp_read_int64)].
Proof.
  cbv zeta. destruct (Z.ltb_spec n 0).
  - repeat apply List.Forall_cons; [..|apply List.Forall_nil].
    + apply read_int8_int; lia. + apply read_int16_int; lia. + apply read_int32_int; lia. + apply read_int64_int; lia.
  - rewrite encode_uint_size. repeat apply List.Forall_cons; [..|apply List.Forall_nil].
    + apply read_int8_uint; lia. + apply read_int16_uint; lia. + apply read_int32_uint; lia. + apply read_int64_uint; lia.
Qed.

(** Comparing two encoded unsigned numbers without decoding them gives the sign of
    their difference, for all pairs of lengths. *)
Theorem mp_compare_uint_order a b pre1 post1 pre2 post2 (Ha : 0 <= a < 2 ^ 64) (Hb : 0 <= b < 2 ^ 64) :
  exists r, mp_compare_uint (pre1 ++ mp_encode_uint a ++ post1) (Z.of_nat (length pre1))
              (pre2 ++ mp_encode_uint b ++ post2) (Z.of_nat (length pre2)) = Done r /\ Z.sgn r = Z.sgn (a - b).
Proof. by apply compare_uint_sign. Qed.

(** ** Witnesses *)

Lemma mp_read_ints_fit_witness :
  mp_read_int16 ([1] ++ int_bytes (-300) ++ []) 1 = Done (Some (-300, 4)) /\
  mp_read_int8 ([1] ++ int_bytes (-300) ++ []) 1 = Done None.
Proof.
  pose proof (mp_read_ints_fit [1] [] (-300) ltac:(lia)) as F.
  split; [exact (Forall_inv (Forall_inv_tail F))|exact (Forall_inv F)].
Defined.

Lemma mp_compare_uint_order_witness :
  exists r, mp_compare_uint (mp_encode_uint 300) 0 (mp_encode_uint 70000) 0 = Done r /\ Z.sgn r = -1.
Proof.
  destruct (mp_compare_uint_order 300 70000 [] [] [] [] ltac:(lia) ltac:(lia)) as (r & E & S). exists r. split; [exact E|exact S].
Defined.


Lemma mp_containers_roundtrip_witness :
  mp_decode_array ([7] ++ mp_encode_array 70000 ++ [8]) 1 = Done (70000, 6).
Proof. exact (proj1 (proj1 (mp_containers_roundtrip (H := message_pack_hints) [7] [8]) 70000 ltac:(lia))). Defined.

Lemma mp_encode_str_safe_bounds_witness :
  exists stored, mp_encode_str_safe (Some 2) [97; 98] 2 = Done (stored, Some (-1)).
Proof.
  destruct (proj1 (mp_encode_str_safe_bounds [97; 98] 2 ltac:(cbn; lia)) ltac:(cbn; lia)) as (stored & E & _).
  exists stored. exact E.
Defined.
