(* ===== verification/MsgDouble.v ===== *)
(** * Reading numbers as doubles ([storage/dart/assets/msgpuck.h])

    [mp_read_double] reads a number of any encoding as a double and refuses an
    integer it would have to round; [mp_read_double_lossy] rounds it. *)
From S2P Require Import Prelude Doubles MsgPack MsgSkip MsgCodec.

(** ** The readers *)

(** A number that was read is stored as a double. *)
Definition as_double (m : outcome (option (Z * Z))) : outcome (option (Z * Z)) :=
  r ← m; Done (match r with Some (v, p) => Some (double_of_Z v, p) | None => None end).

(** [cast] is the conversion back to the integer, done when no precision may be
    lost. *)
Definition read_wide (cast : Z -> outcome Z) (may_lose_precision : bool) (ival p : Z) : outcome (option (Z * Z)) :=
  let val := double_of_Z ival in
  if may_lose_precision then Done (Some (val, p))
  else back ← cast val; Done (if negb (back =? ival) then None else Some (val, p)).

Definition mp_read_double_impl (buf : list Z) (p : Z) (may_lose_precision : bool) : outcome (option (Z * Z)) :=
  '(c, p) ← mp_load_u8 buf p;
  if c =? 0xd0 then as_double (read 8 (mp_load_u8 buf p))
  else if c =? 0xd1 then as_double (read 16 (mp_load_u16 buf p))
  else if c =? 0xd2 then as_double (read 32 (mp_load_u32 buf p))
  else if c =? 0xd3 then '(v, p) ← mp_load_u64 buf p; read_wide int64_of_double may_lose_precision (i64 v) p
  else if c =? 0xcc then as_double (read_plain (mp_load_u8 buf p))
  else if c =? 0xcd then as_double (read_plain (mp_load_u16 buf p))
  else if c =? 0xce then as_double (read_plain (mp_load_u32 buf p))
  else if c =? 0xcf then '(v, p) ← mp_load_u64 buf p; read_wide uint64_of_double may_lose_precision v p
  else if c =? 0xca then '(f, p) ← mp_load_float buf p; Done (Some (double_of_float f, p))
  else if c =? 0xcb then '(d, p) ← mp_load_double buf p; Done (Some (d, p))
  else as_double (read_fixed c p).

Definition mp_read_double (buf : list Z) (p : Z) : outcome (option (Z * Z)) := mp_read_double_impl buf p false.
Definition mp_read_double_lossy (buf : list Z) (p : Z) : outcome (option (Z * Z)) := mp_read_double_impl buf p true.

(** ** Numbers of 64 bits *)

Notation len l := (Z.of_nat (length l)) (only parsing).

Lemma wide_byte c pre rest post : mp_load_u8 (pre ++ ([c] ++ rest) ++ post) (len pre) = Done (c, len pre + 1).
Proof. apply load_head. Qed.

Lemma wide_tail c v pre post : 0 <= v < 2 ^ 64 ->
  mp_load_u64 (pre ++ ([c] ++ mp_store_u64 v) ++ post) (len pre + 1) = Done (v, len pre + 9).
Proof. intros Hv. unfold mp_load_u64, mp_store_u64. rewrite load_tail by in_width. f_equal. f_equal. lia. Qed.

Lemma store_signed v : mp_store_u64 v = mp_store_u64 (u64 v).
Proof. unfold mp_store_u64, mp_store. by rewrite wrap_idemp by lia. Qed.

Lemma impl_unsigned v pre post lossy : 0 <= v < 2 ^ 64 ->
  mp_read_double_impl (pre ++ ([0xcf] ++ mp_store_u64 v) ++ post) (len pre) lossy = read_wide uint64_of_double lossy v (len pre + 9).
Proof.
  intros Hv. unfold mp_read_double_impl. rewrite wide_byte, bind_done. literals. by rewrite wide_tail, bind_done by done.
Qed.

Lemma impl_signed v pre post lossy : - 2 ^ 63 <= v < 2 ^ 63 ->
  mp_read_double_impl (pre ++ ([0xd3] ++ mp_store_u64 v) ++ post) (len pre) lossy = read_wide int64_of_double lossy v (len pre + 9).
Proof.
  intros Hv. unfold mp_read_double_impl. rewrite wide_byte, bind_done. literals.
  rewrite store_signed, wide_tail, bind_done by (apply (wrap_bound 64); lia). f_equal.
  unfold swrap, wrap. rewrite Zplus_mod_idemp_l. fold (swrap 64 v). by apply swrap_small.
Qed.

(** The narrow numbers are doubles. *)
Lemma narrow_significant n : Z.abs n < 2 ^ 53 -> significant n.
Proof. intros Hn. exists n, 0. split_and!; [lia|done|lia]. Qed.

(** ** What the conversion back gives *)

Lemma power_significant k : 0 <= k -> significant (2 ^ k).
Proof. intros Hk. exists 1, k. split_and!; [done|pow2_norm; lia|lia]. Qed.

Lemma significant_opp n : significant n -> significant (- n).
Proof. intros (m & e & He & Hm & ->). exists (- m), e. split_and!; [done|by rewrite Z.abs_opp|lia]. Qed.

(** The largest double below [2 ^ w], for [w] bits; half of the distance between
    them is what is rounded up to [2 ^ w]. *)
Lemma rounded_below w n : 54 <= w -> - 2 ^ w <= n < 2 ^ w - 2 ^ (w - 54) -> - 2 ^ w <= rounded n < 2 ^ w.
Proof.
  intros Hw Hn.
  pose proof (rounded_nearest n (- 2 ^ w) (significant_opp _ (power_significant w ltac:(lia)))) as L.
  assert (E : 2 ^ (w - 53) = 2 * 2 ^ (w - 54)) by (rewrite <- Z.pow_succ_r by lia; f_equal; lia).
  assert (0 < 2 ^ (w - 54)) by (apply Z.pow_pos_nonneg; lia).
  assert (S : significant (2 ^ w - 2 ^ (w - 53))).
  { exists (2 ^ 53 - 1), (w - 53). split_and!; [lia|pow2_norm; lia|]. rewrite Z.mul_sub_distr_r, <- Z.pow_add_r by lia. f_equal; [f_equal; lia|lia]. }
  pose proof (rounded_nearest n _ S) as U. lia.
Qed.

Lemma rounded_nonneg n : 0 <= n -> 0 <= rounded n.
Proof. intros Hn. pose proof (rounded_nearest n 0 ltac:(by apply narrow_significant)). lia. Qed.

Lemma rounded_above w n : 54 <= w -> 2 ^ w - 2 ^ (w - 54) <= n < 2 ^ w -> rounded n = 2 ^ w.
Proof.
  intros Hw Hn. assert (P : 0 < 2 ^ (w - 54)) by (apply Z.pow_pos_nonneg; lia).
  assert (E53 : 2 ^ (w - 53) = 2 * 2 ^ (w - 54)) by (rewrite <- Z.pow_succ_r by lia; f_equal; lia).
  assert (Ew : 2 ^ w = 2 ^ 53 * 2 ^ (w - 53)) by (rewrite <- Z.pow_add_r by lia; f_equal; lia).
  assert (L : Z.log2 n = w - 1).
  { apply Z.log2_unique; [lia|]. replace (Z.succ (w - 1)) with w by lia.
    assert (2 ^ w = 2 * 2 ^ (w - 1)) by (rewrite <- Z.pow_succ_r by lia; f_equal; lia). pow2_norm. lia. }
  unfold rounded, last_place. rewrite (Z.abs_eq n) by (pow2_norm; lia). rewrite L. replace (w - 1 - 52) with (w - 53) by lia.
  rewrite (proj2 (Z.leb_gt _ _)), (Z.sgn_pos n), Z.mul_1_l by (pow2_norm; lia). rewrite Ew. f_equal.
  unfold round_even. rewrite (proj2 (Z.leb_gt _ _)) by lia. cbv zeta. replace (w - 53 - 1) with (w - 54) by lia.
  assert (Q : n / 2 ^ (w - 53) = 2 ^ 53 - 1).
  { symmetry. apply (Z.div_unique_pos _ _ _ (n - (2 ^ 53 - 1) * 2 ^ (w - 53))); lia. }
  rewrite Q. pose proof (Z.div_mod n (2 ^ (w - 53)) ltac:(lia)) as D. rewrite Q in D. set (r := n mod _) in *.
  assert (Hr : 2 ^ (w - 54) <= r) by (pow2_norm; lia).
  destruct (Z.ltb_spec (2 ^ (w - 54)) r); cbn [orb]; [pow2_norm; lia|].
  rewrite (proj2 (Z.eqb_eq _ _)) by lia. change (Z.odd (2 ^ 53 - 1)) with true. cbn [andb]. pow2_norm; lia.
Qed.

Lemma wide_lossy cast v p : read_wide cast true v p = Done (Some (double_of_Z v, p)).
Proof. done. Qed.

Lemma wide_exact cast v p : cast (double_of_Z v) = Done (rounded v) ->
  read_wide cast false v p = Done (if rounded v =? v then Some (double_of_Z v, p) else None).
Proof. unfold read_wide. intros ->. rewrite bind_done. by destruct (rounded v =? v). Qed.

Lemma cast_unsigned v : 0 <= v < 2 ^ 64 ->
  uint64_of_double (double_of_Z v) = if 2 ^ 64 - 2 ^ 10 <=? v then Faults else Done (rounded v).
Proof.
  intros Hv. unfold uint64_of_double. rewrite truncate_double_of_Z by (pow2_norm; lia). unfold demand. rewrite bind_done.
  pose proof (rounded_nonneg v ltac:(lia)). destruct (Z.leb_spec (2 ^ 64 - 2 ^ 10) v).
  - rewrite (rounded_above 64) by (try change (64 - 54) with 10; lia). done.
  - pose proof (rounded_below 64 v ltac:(lia) ltac:(change (64 - 54) with 10; pow2_norm; lia)).
    by rewrite (proj2 (Z.leb_le _ _)), (proj2 (Z.ltb_lt _ _)) by lia.
Qed.

Lemma cast_signed v : - 2 ^ 63 <= v < 2 ^ 63 ->
  int64_of_double (double_of_Z v) = if 2 ^ 63 - 2 ^ 9 <=? v then Faults else Done (rounded v).
Proof.
  intros Hv. unfold int64_of_double. rewrite truncate_double_of_Z by (pow2_norm; lia). unfold demand. rewrite bind_done.
  destruct (Z.leb_spec (2 ^ 63 - 2 ^ 9) v).
  - rewrite (rounded_above 63) by (try change (63 - 54) with 9; lia). by rewrite Z.ltb_irrefl, andb_false_r.
  - pose proof (rounded_below 63 v ltac:(lia) ltac:(change (63 - 54) with 9; lia)).
    by rewrite (proj2 (Z.leb_le _ _)), (proj2 (Z.ltb_lt _ _)) by lia.
Qed.

(** ** The encodings of an integer

    In its first byte, or after a first byte that says the width and whether there
    is a sign; the shortest one is what the encoders store, the readers take any.
    [limit] is the least number of the encoding whose double is no number of the
    64-bit type it is converted back to; there is none for the shorter ones. *)
Inductive integer_encoding (n : Z) : Z -> list Z -> Prop :=
  | enc_positive : 0 <= n < 2 ^ 7 -> integer_encoding n (2 ^ 64) [n]
  | enc_negative : - 2 ^ 5 <= n < 0 -> integer_encoding n (2 ^ 64) [256 + n]
  | enc_uint8 : 0 <= n < 2 ^ 8 -> integer_encoding n (2 ^ 64) ([0xcc] ++ mp_store_u8 n)
  | enc_uint16 : 0 <= n < 2 ^ 16 -> integer_encoding n (2 ^ 64) ([0xcd] ++ mp_store_u16 n)
  | enc_uint32 : 0 <= n < 2 ^ 32 -> integer_encoding n (2 ^ 64) ([0xce] ++ mp_store_u32 n)
  | enc_uint64 : 0 <= n < 2 ^ 64 -> integer_encoding n (2 ^ 64 - 2 ^ 10) ([0xcf] ++ mp_store_u64 n)
  | enc_int8 : - 2 ^ 7 <= n < 2 ^ 7 -> integer_encoding n (2 ^ 64) ([0xd0] ++ mp_store_u8 n)
  | enc_int16 : - 2 ^ 15 <= n < 2 ^ 15 -> integer_encoding n (2 ^ 64) ([0xd1] ++ mp_store_u16 n)
  | enc_int32 : - 2 ^ 31 <= n < 2 ^ 31 -> integer_encoding n (2 ^ 64) ([0xd2] ++ mp_store_u32 n)
  | enc_int64 : - 2 ^ 63 <= n < 2 ^ 63 -> integer_encoding n (2 ^ 63 - 2 ^ 9) ([0xd3] ++ mp_store_u64 n).

(** What is read: the double, unless some of the number is lost and may not be. *)
Definition read_as_double (n limit p : Z) (lossy : bool) : outcome (option (Z * Z)) :=
  if lossy then Done (Some (double_of_Z n, p))
  else if limit <=? n then Faults
  else Done (if rounded n =? n then Some (double_of_Z n, p) else None).

Lemma read_wide_double cast n limit p lossy :
  cast (double_of_Z n) = (if limit <=? n then Faults else Done (rounded n)) ->
  read_wide cast lossy n p = read_as_double n limit p lossy.
Proof.
  intros C. unfold read_as_double. destruct lossy; [apply wide_lossy|].
  destruct (limit <=? n); [unfold read_wide; by rewrite C|by apply wide_exact].
Qed.

(** The shorter ones lose nothing. *)
Lemma read_narrow_double n p lossy : Z.abs n < 2 ^ 53 ->
  Done (Some (double_of_Z n, p)) = read_as_double n (2 ^ 64) p lossy.
Proof.
  intros Hn. unfold read_as_double. rewrite (proj2 (Z.leb_gt _ _)) by (pow2_norm; lia).
  rewrite (proj2 (Z.eqb_eq _ _) (proj2 (rounded_exact n) (narrow_significant n Hn))). by destruct lossy.
Qed.

(** A number in its first byte. *)
Lemma impl_fixed c n pre post lossy : i8 c = n -> 0 <= c < 0x80 \/ 0xe0 <= c ->
  mp_read_double_impl (pre ++ [c] ++ post) (len pre) lossy = Done (Some (double_of_Z n, len pre + 1)).
Proof.
  intros <- Hc. unfold mp_read_double_impl. rewrite load_only, bind_done. rewrite !(proj2 (Z.eqb_neq _ _)) by lia.
  unfold read_fixed. destruct (Z.ltb_spec c 0xe0), (Z.ltb_spec 0x7f c); try lia; done.
Qed.

(** A number after a literal first byte. *)
Ltac reads_narrow :=
  unfold mp_read_double_impl, mp_load_u16, mp_load_u32, mp_store_u16, mp_store_u32; rewrite wide_byte, bind_done; literals;
  first [ erewrite read_signed by (first [apply signed_tail; [done|in_width|in_width] | apply signed_tail_u8; in_width])
        | unfold read_plain; first [rewrite load_tail by in_width | rewrite load_tail_u8 by in_width]];
  unfold as_double; rewrite ?bind_done; cbn [length app]; unfold mp_store_u8; rewrite ?mp_store_length;
  match goal with |- Done (Some (_, ?p)) = read_as_double _ _ ?q _ => replace p with q by (cbn [length]; lia) end;
  apply read_narrow_double; pow2_norm; lia.

Lemma impl_integer pre post n limit bytes lossy : integer_encoding n limit bytes ->
  mp_read_double_impl (pre ++ bytes ++ post) (len pre) lossy = read_as_double n limit (len pre + len bytes) lossy.
Proof.
  intros [Hn|Hn|Hn|Hn|Hn|Hn|Hn|Hn|Hn|Hn].
  - rewrite (impl_fixed _ n); [apply read_narrow_double; pow2_norm; lia|apply swrap_small; lia|lia].
  - rewrite (impl_fixed _ n); [apply read_narrow_double; pow2_norm; lia|apply negative_byte; lia|lia].
  - reads_narrow.
  - reads_narrow.
  - reads_narrow.
  - rewrite impl_unsigned by done. apply read_wide_double, cast_unsigned, Hn.
  - reads_narrow.
  - reads_narrow.
  - reads_narrow.
  - rewrite impl_signed by done. apply read_wide_double, cast_signed, Hn.
Qed.

(** ** Properties *)

(** C24: An integer of up to 64 bits, of any encoding the format has for it
    ([integer_encoding]: in its first byte or of 8, 16, 32 or 64 bits, signed or
    not, the shortest one or not), is read as a double without loss exactly when it
    has at most 53 significant bits and refused otherwise, and the lossy reader
    always answers, with the nearest double.  The one exception are the two 64-bit
    encodings close to the end of their range: for an unsigned one within 1024 of
    [2 ^ 64] and a signed one within 512 of [2 ^ 63] the check of the loss is
    undefined, since the conversion back of the double, which is the end of the
    range, cannot represent it. *)
Theorem mp_read_double_exact pre post n limit bytes (E : integer_encoding n limit bytes) :
  let buf := pre ++ bytes ++ post in
  let answer := Some (double_of_Z n, Z.of_nat (length pre) + Z.of_nat (length bytes)) in
  mp_read_double_lossy buf (Z.of_nat (length pre)) = Done answer /\
  mp_read_double buf (Z.of_nat (length pre)) =
    (if limit <=? n then Faults else Done (if rounded n =? n then answer else None)) /\
  double_truncate (double_of_Z n) = Some (rounded n) /\
  (rounded n = n <-> significant n) /\
  (forall r, significant r -> Z.abs (rounded n - n) <= Z.abs (r - n)).
Proof.
  cbv zeta. unfold mp_read_double_lossy, mp_read_double. rewrite !(impl_integer _ _ _ _ _ _ E). split_and!; try done.
  - apply truncate_double_of_Z. destruct E; pow2_norm; lia.
  - apply rounded_exact.
  - intros r. apply rounded_nearest.
Qed.

(** A float is read as the double of its value and a double as it is; what is
    not a number is refused. *)
Theorem mp_read_double_encodings pre post :
  let p := Z.of_nat (length pre) in
  (forall f, 0 <= f < 2 ^ 32 ->
     mp_read_double (pre ++ mp_encode_float f ++ post) p = Done (Some (double_of_float f, p + 5)) /\
     forall s m k, float_parts f = Some (s, m, k) ->
       exists k', k' <= k /\ double_parts (double_of_float f) = Some (s, m * 2 ^ (k - k'), k')) /\
  (forall d, 0 <= d < 2 ^ 64 -> mp_read_double (pre ++ mp_encode_double d ++ post) p = Done (Some (d, p + 9))) /\
  (forall c, 0x80 <= c < 0xe0 -> existsb (Z.eqb c) [0xca; 0xcb; 0xcc; 0xcd; 0xce; 0xcf; 0xd0; 0xd1; 0xd2; 0xd3] = false ->
     mp_read_double (pre ++ [c] ++ post) p = Done None).
Proof.
  cbv zeta. unfold mp_read_double. split_and!.
  - intros f Hf. split; [|intros; by apply double_of_float_parts].
    unfold mp_read_double_impl, mp_encode_float. change (mp_store_u8 0xca) with [0xca]. rewrite wide_byte, bind_done. literals.
    unfold mp_load_float, mp_store_float. rewrite load_tail, bind_done by in_width. do 3 f_equal. lia.
  - intros d Hd. unfold mp_read_double_impl, mp_encode_double. change (mp_store_u8 0xcb) with [0xcb]. rewrite wide_byte, bind_done. literals.
    unfold mp_load_double, mp_store_double. rewrite load_tail, bind_done by in_width. do 3 f_equal. lia.
  - intros c Hc N. unfold mp_read_double_impl. rewrite load_only, bind_done.
    cbn [existsb] in N. repeat (apply orb_false_iff in N as [? N]).
    repeat match goal with F : (c =? _) = false |- _ => rewrite F; clear F end.
    unfold read_fixed. by rewrite (proj2 (Z.ltb_lt c 0xe0)), (proj2 (Z.ltb_lt 0x7f c)) by lia.
Qed.

(** One more than fits, the same in the longer encoding of a small number, and a
    signed number whose check is undefined. *)
Lemma mp_read_double_exact_witness :
  mp_read_double ([1] ++ mp_encode_uint (2 ^ 53 + 1) ++ []) 1 = Done None /\
  mp_read_double_lossy ([1] ++ mp_encode_uint (2 ^ 53 + 1) ++ []) 1 = Done (Some (0x4340000000000000, 10)) /\
  mp_read_double ([1] ++ ([0xd3] ++ mp_store_u64 5) ++ []) 1 = Done (Some (0x4014000000000000, 10)) /\
  mp_read_double ([1] ++ ([0xd1] ++ mp_store_u16 (-2)) ++ []) 1 = Done (Some (0xc000000000000000, 4)) /\
  mp_read_double ([1] ++ ([0xd3] ++ mp_store_u64 (2 ^ 63 - 1)) ++ []) 1 = Faults.
Proof.
  destruct (mp_read_double_exact [1] [] (2 ^ 53 + 1) _ _ (enc_uint64 (2 ^ 53 + 1) ltac:(lia))) as (L & E & _).
  destruct (mp_read_double_exact [1] [] 5 _ _ (enc_int64 5 ltac:(lia))) as (_ & E5 & _).
  destruct (mp_read_double_exact [1] [] (-2) _ _ (enc_int16 (-2) ltac:(lia))) as (_ & E2 & _).
  destruct (mp_read_double_exact [1] [] (2 ^ 63 - 1) _ _ (enc_int64 (2 ^ 63 - 1) ltac:(lia))) as (_ & F & _).
  split_and!; [exact E|exact L|exact E5|exact E2|exact F].
Defined.

Lemma mp_read_double_encodings_witness :
  mp_read_double ([1] ++ mp_encode_float 0x40490fdb ++ []) 1 = Done (Some (0x400921fb60000000, 6)).
Proof. exact (proj1 (proj1 (mp_read_double_encodings [1] []) 0x40490fdb ltac:(lia))). Defined.
