(* ===== verification/MsgValues.v ===== *)
(** * Values ([storage/dart/assets/msgpuck.h])

    A value is a tree; its encoding is made with the encoders of the header, and it
    is skipped, and checked, as a whole. *)
From S2P Require Import Prelude MsgPack MsgSkip MsgSkipTheorems MsgCodec.

(** A float and a double are their bits; a map is the list of its keys and values. *)
Inductive value :=
| Nil
| Bool (b : bool)
| Uint (n : Z)
| Int (n : Z)
| Float (bits : Z)
| Double (bits : Z)
| Str (s : list Z)
| Bin (s : list Z)
| Array (l : list value)
| Map (l : list (value * value))
| Ext (type : Z) (s : list Z).

Section Values.
Context {H : Hints} {HD : Documented_hints H}.
Notation len l := (Z.of_nat (length l)).

Fixpoint encode (v : value) : list Z :=
  match v with
  | Nil => mp_encode_nil
  | Bool b => mp_encode_bool b
  | Uint n => mp_encode_uint n
  | Int n => int_bytes n
  | Float b => mp_encode_float b
  | Double b => mp_encode_double b
  | Str s => mp_encode_strl (len s) ++ s
  | Bin s => mp_encode_binl (len s) ++ s
  | Array l => mp_encode_array (len l) ++ concat (map encode l)
  | Map l => mp_encode_map (len l) ++ concat (map (fun kv => encode (fst kv) ++ encode (snd kv)) l)
  | Ext t s => mp_encode_extl t (len s) ++ s
  end.
Definition encodes (vs : list value) : list Z := concat (map encode vs).

(** The values inside, and the bytes of the header and the payload. *)
Definition inside (v : value) : list value :=
  match v with
  | Array l => l
  | Map l => concat (map (fun kv => [fst kv; snd kv]) l)
  | _ => []
  end.
Definition header (v : value) : list Z :=
  match v with
  | Array l => mp_encode_array (len l)
  | Map l => mp_encode_map (len l)
  | v => encode v
  end.

Lemma encode_header v : encode v = header v ++ encodes (inside v).
Proof.
  destruct v; cbn [header inside encode]; unfold encodes; cbn [map concat]; rewrite ?app_nil_r; try done.
  f_equal. induction l as [|[k v] l IH]; [done|]. cbn [map concat fst snd app]. rewrite IH. by rewrite <- app_assoc.
Qed.

Fixpoint nodes (v : value) : nat :=
  match v with
  | Array l => S (list_sum (map nodes l))
  | Map l => S (list_sum (map (fun kv => nodes (fst kv) + nodes (snd kv))%nat l))
  | _ => 1
  end.
Definition all_nodes (vs : list value) : nat := list_sum (map nodes vs).

Lemma nodes_inside v : nodes v = S (all_nodes (inside v)).
Proof.
  destruct v; cbn [nodes inside all_nodes]; try done. f_equal. unfold all_nodes.
  induction l as [|[k v] l IH]; [done|]. unfold list_sum in *. cbn in *. lia.
Qed.

Lemma all_nodes_app l1 l2 : all_nodes (l1 ++ l2) = (all_nodes l1 + all_nodes l2)%nat.
Proof. unfold all_nodes. by rewrite map_app, list_sum_app. Qed.

(** Numbers are of their width and lengths below [2 ^ 32]. *)
Fixpoint sized (v : value) : Prop :=
  match v with
  | Nil | Bool _ => True
  | Uint n => 0 <= n < 2 ^ 64
  | Int n => - 2 ^ 63 <= n < 0
  | Float b => 0 <= b < 2 ^ 32
  | Double b => 0 <= b < 2 ^ 64
  | Str s | Bin s => len s < 2 ^ 32
  | Array l => len l < 2 ^ 32 /\ foldr (fun v P => sized v /\ P) True l
  | Map l => len l < 2 ^ 32 /\ foldr (fun kv P => sized (fst kv) /\ sized (snd kv) /\ P) True l
  | Ext t s => len s < 2 ^ 32 /\ - 2 ^ 7 <= t < 2 ^ 7
  end.
Definition all_sized (vs : list value) : Prop := foldr (fun v P => sized v /\ P) True vs.

Lemma all_sized_app l1 l2 : all_sized (l1 ++ l2) <-> all_sized l1 /\ all_sized l2.
Proof. unfold all_sized. induction l1; cbn; tauto. Qed.

Lemma sized_inside v : sized v -> all_sized (inside v).
Proof.
  destruct v; cbn; try done; [tauto|]. intros [_ Hl]. induction l as [|[k v] l IH]; cbn in *; tauto.
Qed.

(** ** The header of a value in a buffer *)

Lemma item_at h rest pre post : byte_range h ->
  item (pre ++ (h :: rest) ++ post) (len pre) =
  let buf := pre ++ (h :: rest) ++ post in
  let p := len pre + 1 in
  let l := documented_hint h in
  if 0 <=? l then Done (p + l, 0)
  else if MP_HINT <? l then Done (p, - l)
  else if l =? MP_HINT_STR_8 then payload mp_load_u8 buf p
  else if l =? MP_HINT_STR_16 then payload mp_load_u16 buf p
  else if l =? MP_HINT_STR_32 then payload mp_load_u32 buf p
  else if l =? MP_HINT_ARRAY_16 then elements 1 mp_load_u16 buf p
  else if l =? MP_HINT_ARRAY_32 then elements 1 mp_load_u32 buf p
  else if l =? MP_HINT_MAP_16 then elements 2 mp_load_u16 buf p
  else if l =? MP_HINT_MAP_32 then elements 2 mp_load_u32 buf p
  else if l =? MP_HINT_EXT_8 then ext mp_load_u8 buf p
  else if l =? MP_HINT_EXT_16 then ext mp_load_u16 buf p
  else if l =? MP_HINT_EXT_32 then ext mp_load_u32 buf p
  else Faults.
Proof.
  intros Hh. unfold item. change (h :: rest) with ([h] ++ rest). rewrite load_head, bind_done, parser_hint_documented by done.
  reflexivity.
Qed.

(** The branch of a literal first byte. *)
Ltac tag_item :=
  match goal with |- context [mp_store_u8 (Zpos ?h)] => change (mp_store_u8 (Zpos h)) with [Zpos h] end;
  match goal with |- context [[?h] ++ ?x] => change ([h] ++ x) with (h :: x) end;
  rewrite item_at by (unfold byte_range; lia); cbv zeta;
  match goal with |- context [documented_hint ?h] => let v := eval vm_compute in (documented_hint h) in change (documented_hint h) with v end;
  decided.

Lemma uint_item n pre post : 0 <= n < 2 ^ 64 ->
  item (pre ++ mp_encode_uint n ++ post) (len pre) = Done (len pre + len (mp_encode_uint n), 0).
Proof.
  intros Hn. rewrite encode_uint_size. unfold mp_encode_uint, mp_sizeof_uint.
  destruct (Z.leb_spec n 0x7f).
  { unfold mp_store_u8. rewrite wrap_small by (pow2_norm; lia). rewrite (item_at n []) by (unfold byte_range; lia).
    unfold documented_hint. rewrite (proj2 (Z.leb_le n _)) by lia. cbn. f_equal. f_equal. lia. }
  destruct (n <=? UINT8_MAX); [|destruct (n <=? UINT16_MAX); [|destruct (n <=? UINT32_MAX)]];
    tag_item; f_equal; f_equal; lia.
Qed.

Lemma int_item n pre post : - 2 ^ 63 <= n < 0 ->
  item (pre ++ int_bytes n ++ post) (len pre) = Done (len pre + len (int_bytes n), 0).
Proof.
  intros Hn. assert (E : mp_encode_int n = Done (int_bytes n)).
  { unfold int_bytes, mp_encode_int. by rewrite (proj2 (Z.ltb_lt n 0)) by lia. }
  apply encode_int_size in E as S. unfold int_bytes, mp_encode_int, mp_sizeof_int, UINT16_MAX, UINT32_MAX in *.
  rewrite (proj2 (Z.ltb_lt n 0)) in * by lia. cbn [negb] in *.
  destruct (Z.leb_spec (-0x20) n).
  { destruct (negative_byte n) as [F _]; [lia|].
    unfold mp_store_u8 in *. rewrite F in *. rewrite (item_at _ []) by (unfold byte_range; lia).
    replace (documented_hint (256 + n)) with 0; [cbn; f_equal; f_equal; lia|].
    pose proof (fixed_byte (fun i => documented_hint (224 + i) =? 0) 32 (n + 32) ltac:(vm_compute; reflexivity) ltac:(lia)) as D.
    cbn beta in D. replace (224 + (n + 32)) with (256 + n) in D by lia. lia. }
  clear E S. destruct (- 2 ^ 7 <=? n); [|destruct (- 2 ^ 15 <=? n); [|destruct (- 2 ^ 31 <=? n)]];
    tag_item; cbn [length]; rewrite ?mp_store_length; f_equal; f_equal;
    unfold mp_store_u8, mp_store_u16, mp_store_u32, mp_store_u64; rewrite ?mp_store_length; cbn [length]; lia.
Qed.

Lemma array_item n pre post : 0 <= n < 2 ^ 32 ->
  item (pre ++ mp_encode_array n ++ post) (len pre) = Done (len pre + len (mp_encode_array n), n).
Proof.
  intros Hn. rewrite encode_array_size. unfold mp_encode_array, mp_sizeof_array, UINT16_MAX.
  destruct (Z.leb_spec n 15).
  { pose proof (fixed_byte (fun i => documented_hint (u8 (Z.lor 0x90 i)) =? - i) 16 n
      ltac:(vm_compute; reflexivity) ltac:(lia)) as F. cbn beta in F.
    apply Z.eqb_eq in F. unfold mp_store_u8. rewrite (item_at _ []) by (apply (wrap_bound 8); lia). cbv zeta. rewrite F.
    destruct (Z.leb_spec 0 (- n)); [f_equal; f_equal; lia|].
    rewrite (proj2 (Z.ltb_lt _ _)) by (unfold MP_HINT; lia). f_equal. f_equal. lia. }
  destruct (Z.leb_spec n (2 ^ 16 - 1)); tag_item; unfold elements, mp_load_u16, mp_load_u32, mp_store_u16, mp_store_u32;
    match goal with |- context [?h :: mp_store ?k n] => change (h :: mp_store k n) with ([h] ++ mp_store k n) end;
    rewrite load_tail by in_width; rewrite bind_done; f_equal; f_equal; lia.
Qed.

Lemma map_item n pre post : 0 <= n < 2 ^ 32 ->
  item (pre ++ mp_encode_map n ++ post) (len pre) = Done (len pre + len (mp_encode_map n), 2 * n).
Proof.
  intros Hn. rewrite encode_map_size. unfold mp_encode_map, mp_sizeof_map, UINT16_MAX.
  destruct (Z.leb_spec n 15).
  { pose proof (fixed_byte (fun i => documented_hint (u8 (Z.lor 0x80 i)) =? - (2 * i)) 16 n
      ltac:(vm_compute; reflexivity) ltac:(lia)) as F. cbn beta in F.
    apply Z.eqb_eq in F. unfold mp_store_u8. rewrite (item_at _ []) by (apply (wrap_bound 8); lia). cbv zeta. rewrite F.
    destruct (Z.leb_spec 0 (- (2 * n))); [f_equal; f_equal; lia|].
    rewrite (proj2 (Z.ltb_lt _ _)) by (unfold MP_HINT; lia). f_equal. f_equal. lia. }
  destruct (Z.leb_spec n (2 ^ 16 - 1)); tag_item; unfold elements, mp_load_u16, mp_load_u32, mp_store_u16, mp_store_u32;
    match goal with |- context [?h :: mp_store ?k n] => change (h :: mp_store k n) with ([h] ++ mp_store k n) end;
    rewrite load_tail by in_width; rewrite bind_done; f_equal; f_equal; lia.
Qed.

(** The length of a payload, read after a literal first byte. *)
Lemma payload_tail n h v pre post : 0 <= v < 2 ^ (8 * Z.of_nat n) ->
  payload (mp_load n) (pre ++ (h :: mp_store n v) ++ post) (len pre + 1) = Done (len pre + 1 + Z.of_nat n + v, 0).
Proof. intros Hv. unfold payload, skip_payload. change (h :: mp_store n v) with ([h] ++ mp_store n v). by rewrite load_tail, !bind_done. Qed.
Lemma payload_tail_u8 h v pre post : byte_range v ->
  payload mp_load_u8 (pre ++ (h :: mp_store_u8 v) ++ post) (len pre + 1) = Done (len pre + 1 + 1 + v, 0).
Proof. intros Hv. unfold payload, skip_payload. change (h :: mp_store_u8 v) with ([h] ++ mp_store_u8 v). by rewrite load_tail_u8, !bind_done. Qed.

Ltac payload_ends :=
  unfold mp_load_u16, mp_load_u32, mp_store_u16, mp_store_u32;
  first [rewrite payload_tail by in_width | rewrite payload_tail_u8 by in_width]; f_equal; f_equal; lia.

Lemma strl_item n pre post : 0 <= n < 2 ^ 32 ->
  item (pre ++ mp_encode_strl n ++ post) (len pre) = Done (len pre + len (mp_encode_strl n) + n, 0).
Proof.
  intros Hn. rewrite encode_strl_size. unfold mp_encode_strl, mp_sizeof_strl, UINT8_MAX, UINT16_MAX.
  destruct (Z.leb_spec n 31).
  { pose proof (fixed_byte (fun i => documented_hint (u8 (Z.lor 0xa0 (u8 i))) =? i) 32 n
      ltac:(vm_compute; reflexivity) ltac:(lia)) as F. cbn beta in F.
    apply Z.eqb_eq in F. unfold mp_store_u8. rewrite (item_at _ []) by (apply (wrap_bound 8); lia). cbv zeta. rewrite F.
    rewrite (proj2 (Z.leb_le 0 n)) by lia. done. }
  destruct (Z.leb_spec n (2 ^ 8 - 1)); [|destruct (Z.leb_spec n (2 ^ 16 - 1))]; tag_item; payload_ends.
Qed.

Lemma binl_item n pre post : 0 <= n < 2 ^ 32 ->
  item (pre ++ mp_encode_binl n ++ post) (len pre) = Done (len pre + len (mp_encode_binl n) + n, 0).
Proof.
  intros Hn. rewrite encode_binl_size. unfold mp_encode_binl, mp_sizeof_binl, UINT8_MAX, UINT16_MAX.
  destruct (Z.leb_spec n (2 ^ 8 - 1)); [|destruct (Z.leb_spec n (2 ^ 16 - 1))]; tag_item; payload_ends.
Qed.

Lemma extl_item t n pre post : 0 <= n < 2 ^ 32 ->
  item (pre ++ mp_encode_extl t n ++ post) (len pre) = Done (len pre + len (mp_encode_extl t n) + n, 0).
Proof.
  intros Hn. rewrite encode_extl_size. unfold mp_encode_extl, mp_sizeof_extl, UINT8_MAX, UINT16_MAX.
  change (mp_store_u8 t) with [u8 t]. rewrite fixed_ext_lengths by lia. rewrite <- app_assoc.
  assert (B : byte_range (u8 t)) by (apply (wrap_bound 8); lia).
  destruct (power_length n) eqn:F.
  - destruct (power_length_shift n F) as (k & Hk & -> & E). rewrite ext_hint_documented, E
      by (rewrite Z.shiftl_mul_pow2 by lia; assert (0 < 2 ^ k <= 2 ^ 4) by (split; [lia|apply Z.pow_le_mono_r; lia]); lia).
    unfold mp_store_u8. rewrite wrap_small by (pow2_norm; lia). rewrite (item_at _ []) by (unfold byte_range; lia). cbv zeta.
    assert (documented_hint (0xd4 + k) = 1 + Z.shiftl 1 k) as ->
      by (assert (k = 0 \/ k = 1 \/ k = 2 \/ k = 3 \/ k = 4) as [->|[->|[->|[->| ->]]]] by lia; reflexivity).
    rewrite (proj2 (Z.leb_le 0 _)) by lia. f_equal. f_equal. lia.
  - destruct (Z.leb_spec n (2 ^ 8 - 1)); [|destruct (Z.leb_spec n (2 ^ 16 - 1))]; tag_item;
      unfold ext, skip_ext, mp_load_u16, mp_load_u32, mp_store_u16, mp_store_u32;
      match goal with |- context [(?h :: ?x) ++ [u8 t] ++ post] => change (h :: x) with ([h] ++ x) end;
      first [rewrite load_tail by in_width | rewrite load_tail_u8 by in_width]; rewrite bind_done;
      (match goal with |- context [mp_load_u8 (_ ++ ?bs ++ [u8 t] ++ _) ?q] =>
         replace q with (len pre + len bs) by (cbn; lia); rewrite (load_after bs) by done end);
      rewrite !bind_done; f_equal; f_equal; cbn; lia.
Qed.

(** The header of a sized value ends where its encoding, without the values inside,
    ends, and announces these values. *)
Lemma header_item v pre post : sized v ->
  item (pre ++ header v ++ post) (len pre) = Done (len pre + len (header v), len (inside v)).
Proof.
  intros S. destruct v; cbn [header inside encode sized] in *.
  - unfold mp_encode_nil, mp_store_u8. rewrite (item_at _ []) by (apply (wrap_bound 8); lia).
    replace (documented_hint (u8 0xc0)) with 0 by (vm_compute; reflexivity). cbn -[Z.add Z.of_nat]. f_equal. f_equal. cbn. lia.
  - unfold mp_encode_bool, mp_store_u8. rewrite (item_at _ []) by (apply (wrap_bound 8); lia).
    replace (documented_hint _) with 0 by (destruct b; vm_compute; reflexivity). cbn -[Z.add Z.of_nat]. f_equal. f_equal. cbn. lia.
  - by apply uint_item.
  - by apply int_item.
  - unfold mp_encode_float. tag_item. f_equal. f_equal. cbn [length]. unfold mp_store_float. rewrite mp_store_length. lia.
  - unfold mp_encode_double. tag_item. f_equal. f_equal. cbn [length]. unfold mp_store_double. rewrite mp_store_length. lia.
  - rewrite <- app_assoc, strl_item, length_app by lia. f_equal. f_equal. lia.
  - rewrite <- app_assoc, binl_item, length_app by lia. f_equal. f_equal. lia.
  - rewrite array_item by lia. done.
  - rewrite map_item by lia. f_equal. f_equal. clear. induction l as [|[k v] l IH]; [done|]. cbn [map concat app length fst snd] in *. lia.
  - rewrite <- app_assoc, extl_item, length_app by lia. f_equal. f_equal. lia.
Qed.

Lemma store_range n v : Forall byte_range (mp_store n v).
Proof. apply le_split_range. Qed.
Lemma store_u8_range v : Forall byte_range (mp_store_u8 v).
Proof. constructor; [apply (wrap_bound 8); lia|constructor]. Qed.

(** ** Skipping encodings *)

Lemma skip_encodes buf vs : Forall byte_range buf -> all_sized vs -> forall pre post k,
  buf = pre ++ encodes vs ++ post -> 0 <= k ->
  skip buf (len pre) (len vs + k) = skip buf (len pre + len (encodes vs)) k.
Proof.
  intros HB. remember (all_nodes vs) as d eqn:D. revert vs D. induction d as [d IH] using lt_wf_ind.
  intros [|v vs] -> HS pre post k E Hk.
  { change (len (encodes [])) with 0. change (len (@nil value)) with 0. by rewrite Z.add_0_r, Z.add_0_l. }
  destruct HS as [Sv Svs]. cbn [all_sized] in *. rewrite skip_step by (done || (cbn [length]; lia)).
  assert (E' : buf = pre ++ header v ++ (encodes (inside v ++ vs) ++ post)).
  { rewrite E. unfold encodes. cbn [map concat]. rewrite encode_header, map_app, concat_app. by rewrite <- !app_assoc. }
  rewrite E' at 1. rewrite header_item by done. rewrite bind_done. rewrite app_assoc in E'.
  replace (len (v :: vs) + k - 1 + len (inside v)) with (len (inside v ++ vs) + k) by (rewrite length_app; cbn [length]; lia).
  replace (len pre + len (header v)) with (len (pre ++ header v)) by (rewrite length_app; lia).
  rewrite (IH (all_nodes (inside v ++ vs))) with (post := post); [|..|done|done].
  - f_equal. unfold encodes. cbn [map concat]. rewrite encode_header, map_app, concat_app; unfold encodes; rewrite !length_app. lia.
  - rewrite all_nodes_app. change (all_nodes (v :: vs)) with (nodes v + all_nodes vs)%nat. rewrite nodes_inside. lia.
  - done.
  - apply all_sized_app. split; [by apply sized_inside|done].
Qed.

Lemma skip_value buf v pre post : Forall byte_range buf -> sized v -> buf = pre ++ encode v ++ post ->
  skip buf (len pre) 1 = Done (len pre + len (encode v)).
Proof.
  intros HB S E. assert (R : encodes [v] = encode v) by (unfold encodes; cbn; by rewrite app_nil_r).
  pose proof (skip_encodes buf [v] HB (conj S I) pre post 0) as K. rewrite R in K. change (len [v] + 0) with 1 in K.
  rewrite (K E) by lia. by apply skip_done.
Qed.
End Values.

(** ** Theorems *)

(** C7: a value of any depth, encoded with the encoders of the header, is skipped as a
    whole: [mp_next] ends right after it, wherever it is in a buffer; and [mp_check]
    accepts it, when it accepts its extensions, if it is before the end of the data,
    and refuses it if it is not. *)
Theorem mp_next_value {H : Hints} {HD : Documented_hints H} v pre post (S : sized v) :
  let buf := pre ++ encode v ++ post in
  let p := Z.of_nat (length pre) in
  let q := p + Z.of_nat (length (encode v)) in
  Forall byte_range buf -> Z.of_nat (length buf) < 2 ^ 63 ->
  mp_next (Datatypes.S (length buf)) buf p = Done q /\
  forall mp_check_ext_data end_, accepts_ext mp_check_ext_data -> p <= end_ <= Z.of_nat (length buf) ->
    if q <=? end_ then mp_check mp_check_ext_data (Datatypes.S (length buf)) buf p end_ = Done (inl q)
    else exists e, mp_check mp_check_ext_data (Datatypes.S (length buf)) buf p end_ = Done (inr e).
Proof.
  cbv zeta. intros HB HL. set (buf := pre ++ encode v ++ post) in *.
  assert (N : skip buf (Z.of_nat (length pre)) 1 = Done (Z.of_nat (length pre) + Z.of_nat (length (encode v)))) by (by eapply skip_value).
  pose proof (counted_done buf _ _ _ HL N) as C0.
  split; [rewrite mp_next_skip by (done || lia); exact N|].
  intros f end_ Acc He. unfold mp_check.
  pose proof (check_loop_skip buf HB f (Z.of_nat (length pre)) end_ (proj2 He) HL (Datatypes.S (length buf)) 1 (Z.of_nat (length pre))
    ltac:(lia) ltac:(lia) C0) as C.
  destruct (check_loop f buf (Z.of_nat (length pre)) end_ _ 1 _) as [[q|e]| | |]; [|..|done|done|done].
  - destruct C as [E L]. rewrite N in E. simplify_eq. by rewrite (proj2 (Z.leb_le _ _)).
  - specialize (C Acc _ N). rewrite (proj2 (Z.leb_gt _ _)) by lia. eauto.
Qed.

(** ** Witnesses *)

(** A map from a string to an array of numbers. *)
Definition sample : value := Map [(Str [105; 100], Array [Uint 300; Int (-5); Nil])].

Lemma mp_next_value_witness :
  let H := message_pack_hints in
  mp_next 13 ([7] ++ encode sample ++ [8]) 1 = Done 11 /\ Z.of_nat (length (encode sample)) = 10.
Proof.
  intros H. destruct (mp_next_value (H := message_pack_hints) sample [7] [8]) as [E _].
  - cbn. lia.
  - replace ([7] ++ encode sample ++ [8]) with [7; 0x81; 0xa2; 105; 100; 0x93; 0xcd; 1; 44; 0xfb; 0xc0; 8] by (vm_compute; reflexivity).
    repeat constructor; unfold byte_range; lia.
  - vm_compute. done.
  - split; [|vm_compute; reflexivity]. revert E. vm_compute. done.
Defined.
