(* ===== verification/Box.v ===== *)
(** * The operations of the storage ([storage/native/storage/box.c], [box.h])

    A handler gets the request of a task, calls the database, and leaves an answer
    in the task: a tuple, a port with tuples, a buffer, a number or an event.  The
    database, its ports, its memory pools and its Lua are not part of the
    repository: their answers are the parameter [box], which gives for the calls
    that were made before and a call what is returned.  A handler is the list of
    calls it makes and the task it leaves; nothing is assumed of [box]. *)
From stdpp Require Import strings.
From S2P Require Import Prelude MsgPack MsgSkip Executor.

(** ** Calls *)

(** The bytes between two pointers into a buffer. *)
Record range := Range { rg_buffer : list Z; rg_from : Z; rg_to : Z }.
Definition range_bytes (r : range) : list Z := take (Z.to_nat (rg_to r - rg_from r)) (drop (Z.to_nat (rg_from r)) (rg_buffer r)).
Definition whole (buffer : list Z) (size : Z) : range := Range buffer 0 size.

Inductive event_kind := Diagnostic_event | Empty_error_event.

Inductive box_call :=
(* the database *)
| Box_replace (space : Z) (tuple : range)
| Box_insert (space : Z) (tuple : range)
| Box_delete (space index : Z) (key : range)
| Box_update (space index : Z) (key operations : range) (base : Z)
| Box_upsert (space index : Z) (tuple operations : range) (base : Z)
| Box_index_get (space index : Z) (key : range)
| Box_index_min (space index : Z) (key : range)
| Box_index_max (space index : Z) (key : range)
| Box_select (space index iterator offset limit : Z) (key : range) (port : Z)
| Box_index_iterator (space index type : Z) (key : range)
| Box_index_count (space index type : Z) (key : range)
| Box_index_len (space index : Z)
| Box_truncate (space : Z)
| Box_space_id_by_name (name size : Z)
| Box_index_id_by_name (space name size : Z)
| Box_iterator_next (iterator : Z)
| Box_iterator_free (iterator : Z)
| Box_lua_eval (expression length : Z) (input : range)
| Box_lua_call (function length : Z) (input : range)
| Txn_begin
| Txn_commit (transaction : Z)
| Txn_rollback (transaction : Z)
| Diag_last_error
(* tuples, ports, buffers, pools *)
| Tuple_ref (tuple : Z)
| Tuple_unref (tuple : Z)
| Port_c_create (port : Z)
| Port_c_add_tuple (port tuple : Z)
| Port_destroy (port : Z)
| Port_in_create (input : range)
| Port_in_destroy
| Port_out_dump
| Port_out_destroy
| Obuf_create
| Mempool_alloc
| Mempool_free (port : Z)
| Smalloc (size : Z)
| Smfree (address size : Z)
| Store (address : Z) (bytes : list Z)
| Create_event (kind : event_kind)
| Allocator_create
| Mempool_create
| Allocator_destroy
| Mempool_destroy.

(** What a call returns, the pointer it gives, and for a dump the bytes it appended
    to the buffer, block by block, with the size of the buffer. *)
Record reply := Reply { status : Z; given : Z; dumped : list (list Z); used : Z }.

Definition box_m (A : Type) : Type := list box_call -> outcome (A * list box_call).
Definition box_ret {A} (a : A) : box_m A := fun past => Done (a, past).
Definition box_bind {A B} (m : box_m A) (k : A -> box_m B) : box_m B :=
  fun past => match m past with Done (a, past) => k a past | Exits c => Exits c | Faults => Faults | Spins => Spins end.
Definition lift {A} (o : outcome A) : box_m A :=
  fun past => match o with Done a => Done (a, past) | Exits c => Exits c | Faults => Faults | Spins => Spins end.

Declare Scope box_scope.
Delimit Scope box_scope with box.
Notation "x <- m ;; k" := (box_bind m (fun x => k)) (at level 100, m at next level, right associativity) : box_scope.
Notation "' p <- m ;; k" := (box_bind m (fun x => match x with p => k end))
  (at level 100, p pattern, m at next level, right associativity) : box_scope.
Notation "m ;; k" := (box_bind m (fun _ => k)) (at level 100, right associativity) : box_scope.

(** ** Requests *)

Record storage_space_request := SpaceRequest { sr_tuple_size : Z; sr_tuple : list Z; sr_space_id : Z }.
Record storage_space_count_request := SpaceCountRequest { sc_key_size : Z; sc_key : list Z; sc_space_id : Z; sc_iterator_type : Z }.
Record storage_space_select_request := SpaceSelectRequest {
  ss_key_size : Z; ss_key : list Z; ss_space_id : Z; ss_offset : Z; ss_limit : Z; ss_iterator_type : Z }.
Record storage_space_update_request := SpaceUpdateRequest {
  su_key_size : Z; su_operations_size : Z; su_key : list Z; su_operations : list Z; su_space_id : Z }.
Record storage_space_upsert_request := SpaceUpsertRequest {
  sp_tuple_size : Z; sp_tuple : list Z; sp_operations : list Z; sp_operations_size : Z; sp_space_id : Z }.
Record storage_space_iterator_request := SpaceIteratorRequest { si_key_size : Z; si_key : list Z; si_space_id : Z; si_type : Z }.
Record storage_index_request := IndexRequest { ir_tuple_size : Z; ir_tuple : list Z; ir_space_id : Z; ir_index_id : Z }.
Record storage_index_count_request := IndexCountRequest {
  ic_key_size : Z; ic_key : list Z; ic_space_id : Z; ic_index_id : Z; ic_iterator_type : Z }.
Record storage_index_id_by_name_request := IndexIdByNameRequest { in_name : Z; in_name_length : Z; in_space_id : Z }.
Record storage_index_update_request := IndexUpdateRequest {
  iu_key : list Z; iu_key_size : Z; iu_operations : list Z; iu_operations_size : Z; iu_space_id : Z; iu_index_id : Z }.
Record storage_call_request := CallRequest { cr_function : Z; cr_input : list Z; cr_input_size : Z; cr_function_length : Z }.
Record storage_evaluate_request := EvaluateRequest { er_expression : Z; er_input : list Z; er_input_size : Z; er_expression_length : Z }.
Record storage_index_iterator_request := IndexIteratorRequest {
  ii_key : list Z; ii_key_size : Z; ii_space_id : Z; ii_index_id : Z; ii_type : Z }.
Record storage_index_select_request := IndexSelectRequest {
  is_key : list Z; is_key_size : Z; is_space_id : Z; is_index_id : Z; is_offset : Z; is_limit : Z; is_iterator_type : Z }.
Record storage_index_id_request := IndexIdRequest { id_space_id : Z; id_index_id : Z }.

Definition STORAGE_PRIMARY_INDEX_ID : Z := 0.
Definition STORAGE_INDEX_BASE_C : Z := 0.

(** ** Tasks *)

Definition with_output (task : executor_task) (output : Z) : executor_task :=
  ExecutorTask (task_id task) (source task) (target task) (owner task) (method task) (input task) (input_size task)
    output (output_size task) (flags task).
Definition with_buffer (task : executor_task) (output size : Z) : executor_task :=
  ExecutorTask (task_id task) (source task) (target task) (owner task) (method task) (input task) (input_size task)
    output size (flags task).
Definition EXECUTOR_TASK_OUTPUT_EVENT : Z := Z.shiftl 1 0.
Definition sizeof_pointer : Z := 8.
Definition with_event (task : executor_task) (event : Z) : executor_task :=
  ExecutorTask (task_id task) (source task) (target task) (owner task) (method task) (input task) (input_size task)
    event sizeof_pointer EXECUTOR_TASK_OUTPUT_EVENT.

Section Box.
Context {H : Hints} (box : list box_call -> box_call -> reply).
Open Scope box_scope.

Definition call (c : box_call) : box_m reply := fun past => Done (box past c, past ++ [c]).

(** The event of the last diagnostic, or an empty one. *)
Definition storage_send_error (task : executor_task) : box_m executor_task :=
  error <- call Diag_last_error;;
  if negb (given error =? 0) then
    event <- call (Create_event Diagnostic_event);; box_ret (with_event task (given event))
  else
    event <- call (Create_event Empty_error_event);; box_ret (with_event task (given event)).

(** ** Operations with one tuple: the error, or nothing, or a reference to the tuple *)
Definition answer_tuple (task : executor_task) (result : reply) : box_m executor_task :=
  if status result <? 0 then storage_send_error task else
  if given result =? 0 then box_ret task else
  call (Tuple_ref (given result));; box_ret (with_output task (given result)).

Definition storage_space_put_single (r : storage_space_request) (task : executor_task) : box_m executor_task :=
  result <- call (Box_replace (sr_space_id r) (whole (sr_tuple r) (sr_tuple_size r)));; answer_tuple task result.
Definition storage_space_insert_single (r : storage_space_request) (task : executor_task) : box_m executor_task :=
  result <- call (Box_insert (sr_space_id r) (whole (sr_tuple r) (sr_tuple_size r)));; answer_tuple task result.
Definition storage_space_delete_single (r : storage_space_request) (task : executor_task) : box_m executor_task :=
  result <- call (Box_delete (sr_space_id r) STORAGE_PRIMARY_INDEX_ID (whole (sr_tuple r) (sr_tuple_size r)));;
  answer_tuple task result.
Definition storage_space_update_single (r : storage_space_update_request) (task : executor_task) : box_m executor_task :=
  result <- call (Box_update (su_space_id r) STORAGE_PRIMARY_INDEX_ID (whole (su_key r) (su_key_size r))
                    (whole (su_operations r) (su_operations_size r)) STORAGE_INDEX_BASE_C);;
  answer_tuple task result.
Definition storage_space_upsert (r : storage_space_upsert_request) (task : executor_task) : box_m executor_task :=
  result <- call (Box_upsert (sp_space_id r) STORAGE_PRIMARY_INDEX_ID (whole (sp_tuple r) (sp_tuple_size r))
                    (whole (sp_operations r) (sp_operations_size r)) STORAGE_INDEX_BASE_C);;
  answer_tuple task result.
Definition storage_space_get (r : storage_space_request) (task : executor_task) : box_m executor_task :=
  result <- call (Box_index_get (sr_space_id r) STORAGE_PRIMARY_INDEX_ID (whole (sr_tuple r) (sr_tuple_size r)));;
  answer_tuple task result.
Definition storage_space_min (r : storage_space_request) (task : executor_task) : box_m executor_task :=
  result <- call (Box_index_min (sr_space_id r) STORAGE_PRIMARY_INDEX_ID (whole (sr_tuple r) (sr_tuple_size r)));;
  answer_tuple task result.
Definition storage_space_max (r : storage_space_request) (task : executor_task) : box_m executor_task :=
  result <- call (Box_index_max (sr_space_id r) STORAGE_PRIMARY_INDEX_ID (whole (sr_tuple r) (sr_tuple_size r)));;
  answer_tuple task result.
Definition storage_index_get (r : storage_index_request) (task : executor_task) : box_m executor_task :=
  result <- call (Box_index_get (ir_space_id r) (ir_index_id r) (whole (ir_tuple r) (ir_tuple_size r)));; answer_tuple task result.
Definition storage_index_min (r : storage_index_request) (task : executor_task) : box_m executor_task :=
  result <- call (Box_index_min (ir_space_id r) (ir_index_id r) (whole (ir_tuple r) (ir_tuple_size r)));; answer_tuple task result.
Definition storage_index_max (r : storage_index_request) (task : executor_task) : box_m executor_task :=
  result <- call (Box_index_max (ir_space_id r) (ir_index_id r) (whole (ir_tuple r) (ir_tuple_size r)));; answer_tuple task result.
Definition storage_index_update_single (r : storage_index_update_request) (task : executor_task) : box_m executor_task :=
  result <- call (Box_update (iu_space_id r) (iu_index_id r) (whole (iu_key r) (iu_key_size r))
                    (whole (iu_operations r) (iu_operations_size r)) STORAGE_INDEX_BASE_C);;
  answer_tuple task result.

(** The end of an iterator is an error, too. *)
Definition storage_iterator_next_single (task : executor_task) : box_m executor_task :=
  result <- call (Box_iterator_next (input task));;
  if (status result <? 0) || (given result =? 0) then storage_send_error task else
  if given result =? 0 then box_ret task else
  call (Tuple_ref (given result));; box_ret (with_output task (given result)).

(** ** Operations without tuples *)
Definition storage_space_iterator (r : storage_space_iterator_request) (task : executor_task) : box_m executor_task :=
  it <- call (Box_index_iterator (si_space_id r) STORAGE_PRIMARY_INDEX_ID (si_type r) (whole (si_key r) (si_key_size r)));;
  box_ret (with_output task (given it)).
Definition storage_index_iterator (r : storage_index_iterator_request) (task : executor_task) : box_m executor_task :=
  it <- call (Box_index_iterator (ii_space_id r) (ii_index_id r) (ii_type r) (whole (ii_key r) (ii_key_size r)));;
  box_ret (with_output task (given it)).
Definition storage_space_count (r : storage_space_count_request) (task : executor_task) : box_m executor_task :=
  n <- call (Box_index_count (sc_space_id r) STORAGE_PRIMARY_INDEX_ID (sc_iterator_type r) (whole (sc_key r) (sc_key_size r)));;
  box_ret (with_output task (given n)).
Definition storage_index_count (r : storage_index_count_request) (task : executor_task) : box_m executor_task :=
  n <- call (Box_index_count (ic_space_id r) (ic_index_id r) (ic_iterator_type r) (whole (ic_key r) (ic_key_size r)));;
  box_ret (with_output task (given n)).
Definition storage_space_length (task : executor_task) : box_m executor_task :=
  n <- call (Box_index_len (u32 (input task)) STORAGE_PRIMARY_INDEX_ID);; box_ret (with_output task (given n)).
Definition storage_index_length (r : storage_index_id_request) (task : executor_task) : box_m executor_task :=
  n <- call (Box_index_len (id_space_id r) (id_index_id r));; box_ret (with_output task (given n)).
Definition storage_space_truncate (task : executor_task) : box_m executor_task :=
  call (Box_truncate (u32 (input task)));; box_ret task.
Definition storage_space_id_by_name (task : executor_task) : box_m executor_task :=
  id <- call (Box_space_id_by_name (input task) (input_size task));; box_ret (with_output task (given id)).
Definition storage_index_id_by_name (r : storage_index_id_by_name_request) (task : executor_task) : box_m executor_task :=
  id <- call (Box_index_id_by_name (in_space_id r) (in_name r) (in_name_length r));; box_ret (with_output task (given id)).
Definition storage_iterator_destroy (task : executor_task) : box_m executor_task :=
  call (Box_iterator_free (input task));; box_ret task.
Definition storage_free_output_buffer (task : executor_task) : box_m executor_task :=
  call (Smfree (input task) (input_size task));; box_ret task.
Definition storage_free_output_port (task : executor_task) : box_m executor_task :=
  call (Port_destroy (input task));; call (Mempool_free (input task));; box_ret task.
Definition storage_free_output_tuple (task : executor_task) : box_m executor_task :=
  call (Tuple_unref (input task));; box_ret task.

Definition answer_port (task : executor_task) (port : Z) (result : reply) : box_m executor_task :=
  if status result <? 0 then storage_send_error task else box_ret (with_output task port).
Definition storage_space_select (r : storage_space_select_request) (task : executor_task) : box_m executor_task :=
  port <- call Mempool_alloc;;
  result <- call (Box_select (ss_space_id r) STORAGE_PRIMARY_INDEX_ID (ss_iterator_type r) (ss_offset r) (ss_limit r)
                    (whole (ss_key r) (ss_key_size r)) (given port));;
  answer_port task (given port) result.
Definition storage_index_select (r : storage_index_select_request) (task : executor_task) : box_m executor_task :=
  port <- call Mempool_alloc;;
  result <- call (Box_select (is_space_id r) (is_index_id r) (is_iterator_type r) (is_offset r) (is_limit r)
                    (whole (is_key r) (is_key_size r)) (given port));;
  answer_port task (given port) result.

(** ** Operations with many tuples, in one transaction *)

(** What the error branches of the loops have in common, the end of a transaction,
    and the two tests after a tuple was written. *)
Definition abandon (task : executor_task) (port transaction : Z) : box_m executor_task :=
  call (Port_destroy port);; call (Txn_rollback transaction);; storage_send_error task.
Definition finish (task : executor_task) (port transaction : Z) : box_m executor_task :=
  committed <- call (Txn_commit transaction);;
  if negb (status committed =? 0) then call (Port_destroy port);; storage_send_error task
  else box_ret (with_output task port).
Definition keep (task : executor_task) (port transaction : Z) (written : reply) (continue : box_m executor_task) : box_m executor_task :=
  if status written <? 0 then abandon task port transaction else
  call (Tuple_ref (given written));;
  added <- call (Port_c_add_tuple port (given written));;
  if negb (status added =? 0) then abandon task port transaction else continue.

(** As much fuel as there are bytes. *)
Definition next (buffer : list Z) (p : Z) : outcome Z := mp_next (S (length buffer)) buffer p.

Section Many.
Context (task : executor_task) (port transaction : Z).

(** The loops, with the number of rounds to go. *)
Fixpoint insert_loop (count : nat) (space : Z) (buffer : list Z) (tuple_next : Z) : box_m executor_task :=
  match count with
  | O => finish task port transaction
  | S count =>
      let tuple_data := tuple_next in
      tuple_next <- lift (next buffer tuple_next);;
      written <- call (Box_insert space (Range buffer tuple_data tuple_next));;
      keep task port transaction written (insert_loop count space buffer tuple_next)
  end.

(** The number of elements of the tuple is taken for its size. *)
Fixpoint put_loop (count : nat) (space : Z) (buffer : list Z) (tuple_next tuple_next_size : Z) : box_m executor_task :=
  match count with
  | O => finish task port transaction
  | S count =>
      let tuple_data := tuple_next in
      '(tuple_size, _) <- lift (mp_decode_array buffer tuple_next_size);;
      written <- call (Box_replace space (Range buffer tuple_data (tuple_data + tuple_size)));;
      keep task port transaction written
        (tuple_next <- lift (next buffer tuple_next);; put_loop count space buffer tuple_next tuple_next)
  end.
Fixpoint delete_loop (count : nat) (space : Z) (buffer : list Z) (tuple_next tuple_next_size : Z) : box_m executor_task :=
  match count with
  | O => finish task port transaction
  | S count =>
      let tuple_data := tuple_next in
      '(tuple_size, _) <- lift (mp_decode_array buffer tuple_next_size);;
      written <- call (Box_delete space STORAGE_PRIMARY_INDEX_ID (Range buffer tuple_data (tuple_data + tuple_size)));;
      keep task port transaction written
        (tuple_next <- lift (next buffer tuple_next);; delete_loop count space buffer tuple_next tuple_next)
  end.
Fixpoint update_loop (count : nat) (space index : Z) (keys operations : list Z)
    (key_next key_next_size operation_next operation_next_size : Z) : box_m executor_task :=
  match count with
  | O => finish task port transaction
  | S count =>
      let key_data := key_next in
      let operation_data := operation_next in
      '(key_size, _) <- lift (mp_decode_array keys key_next_size);;
      '(operation_size, _) <- lift (mp_decode_array operations operation_next_size);;
      written <- call (Box_update space index (Range keys key_data (key_data + key_size))
                         (Range operations operation_data (operation_data + operation_size)) STORAGE_INDEX_BASE_C);;
      keep task port transaction written
        (key_next <- lift (next keys key_next);;
         operation_next <- lift (next operations operation_next);;
         update_loop count space index keys operations key_next key_next operation_next operation_next)
  end.
End Many.

Definition new_port : box_m Z := port <- call Mempool_alloc;; call (Port_c_create (given port));; box_ret (given port).

Definition storage_space_insert_many (r : storage_space_request) (task : executor_task) : box_m executor_task :=
  port <- new_port;;
  '(count, batch) <- lift (mp_decode_array (sr_tuple r) 0);;
  transaction <- call Txn_begin;;
  insert_loop task port (given transaction) (Z.to_nat count) (sr_space_id r) (sr_tuple r) batch.
Definition storage_space_put_many (r : storage_space_request) (task : executor_task) : box_m executor_task :=
  port <- new_port;;
  '(count, batch) <- lift (mp_decode_array (sr_tuple r) 0);;
  transaction <- call Txn_begin;;
  put_loop task port (given transaction) (Z.to_nat count) (sr_space_id r) (sr_tuple r) batch batch.
Definition storage_space_delete_many (r : storage_space_request) (task : executor_task) : box_m executor_task :=
  port <- new_port;;
  '(count, batch) <- lift (mp_decode_array (sr_tuple r) 0);;
  transaction <- call Txn_begin;;
  delete_loop task port (given transaction) (Z.to_nat count) (sr_space_id r) (sr_tuple r) batch batch.
Definition storage_space_update_many (r : storage_space_update_request) (task : executor_task) : box_m executor_task :=
  port <- new_port;;
  '(count, key_batch) <- lift (mp_decode_array (su_key r) 0);;
  '(operations_count, operation_batch) <- lift (mp_decode_array (su_operations r) 0);;
  transaction <- call Txn_begin;;
  update_loop task port (given transaction) (Z.to_nat count) (su_space_id r) STORAGE_PRIMARY_INDEX_ID (su_key r) (su_operations r)
    key_batch key_batch operation_batch operation_batch.
Definition storage_index_update_many (r : storage_index_update_request) (task : executor_task) : box_m executor_task :=
  port <- new_port;;
  '(count, key_batch) <- lift (mp_decode_array (iu_key r) 0);;
  '(operations_count, operation_batch) <- lift (mp_decode_array (iu_operations r) 0);;
  transaction <- call Txn_begin;;
  update_loop task port (given transaction) (Z.to_nat count) (iu_space_id r) (iu_index_id r) (iu_key r) (iu_operations r)
    key_batch key_batch operation_batch operation_batch.

(** The next tuples of an iterator, as many as the size of the input.  The counter
    has 32 bits and the size 64: from [2 ^ 32] on, the counter starts again below the
    size and the loop goes on for as long as there are tuples.  The fuel is the size,
    enough for every size below. *)
Fixpoint iterator_loop (fuel : nat) (task : executor_task) (port found : Z) : box_m executor_task :=
  if found <? input_size task then
    match fuel with
    | O => lift Spins
    | S fuel =>
        result <- call (Box_iterator_next (input task));;
        if (status result <? 0) || (given result =? 0) then call (Port_destroy port);; storage_send_error task else
        added <- call (Port_c_add_tuple port (given result));;
        if negb (status added =? 0) then call (Port_destroy port);; storage_send_error task
        else iterator_loop fuel task port (u32 (found + 1))
    end
  else box_ret (with_output task port).
Definition storage_iterator_next_many (task : executor_task) : box_m executor_task :=
  port <- new_port;; iterator_loop (Z.to_nat (input_size task)) task port 0.

(** ** Lua

    The results, dumped block by block, are copied after the header of an array, to
    what [smalloc] gave: null, which is not tested, when there is no memory. *)
Definition copy_results (task : executor_task) (return_count : Z) (dump : reply) : box_m executor_task :=
  let size := used dump + mp_sizeof_array return_count in
  output <- call (Smalloc size);;
  if given output =? 0 then lift Faults else
  call (Store (given output) (mp_encode_array return_count ++ concat (dumped dump)));;
  box_ret (with_buffer task (given output) size).
Definition run_lua (task : executor_task) (run : box_call) (arguments : range) : box_m executor_task :=
  call Obuf_create;;
  call (Port_in_create arguments);;
  result <- call run;;
  if negb (status result =? 0) then call Port_out_destroy;; call Port_in_destroy;; storage_send_error task else
  call Port_in_destroy;;
  dump <- call Port_out_dump;;
  call Port_out_destroy;;
  copy_results task (given result) dump.
Definition storage_evaluate (r : storage_evaluate_request) (task : executor_task) : box_m executor_task :=
  let arguments := whole (er_input r) (er_input_size r) in
  run_lua task (Box_lua_eval (er_expression r) (er_expression_length r) arguments) arguments.
Definition storage_call (r : storage_call_request) (task : executor_task) : box_m executor_task :=
  let arguments := whole (cr_input r) (cr_input_size r) in
  run_lua task (Box_lua_call (cr_function r) (cr_function_length r) arguments) arguments.

(** The two pools; the table of the addresses of the handlers is in [Handlers]. *)
Definition storage_initialize_box : box_m unit := call Allocator_create;; call Mempool_create;; box_ret tt.
Definition storage_destroy_box : box_m unit := call Allocator_destroy;; call Mempool_destroy;; box_ret tt.
End Box.
