(* ===== verification/BoxTheorems.v ===== *)
(** * Transactions of the storage ([storage/native/storage/box.c])

    The operations with many tuples are compared with a list of writes made in one
    transaction, all of them or none; the batch is an encoded array. *)
From stdpp Require Import strings.
From S2P Require Import Prelude MsgPack MsgSkip MsgSkipTheorems MsgCodec MsgValues Executor Box.

Section Transactions.
Context (box : list box_call -> box_call -> reply).
Notation call := (Box.call box).
Open Scope box_scope.

(** ** Writes in a transaction *)

Fixpoint transact (task : executor_task) (port transaction : Z) (writes : list box_call) : box_m executor_task :=
  match writes with
  | [] => finish box task port transaction
  | w :: writes => written <- call w;; keep box task port transaction written (transact task port transaction writes)
  end.

(** The writes were accepted: each is made, its tuple gets a reference, and is in the
    port. *)
Inductive wrote (port : Z) : list box_call -> list box_call -> list box_call -> Prop :=
| wrote_none past : wrote port [] past past
| wrote_one w writes past past' :
    let tuple := given (box past w) in
    0 <= status (box past w) ->
    status (box (past ++ [w; Tuple_ref tuple]) (Port_c_add_tuple port tuple)) = 0 ->
    wrote port writes (past ++ [w; Tuple_ref tuple; Port_c_add_tuple port tuple]) past' ->
    wrote port (w :: writes) past past'.

(** The task has an event, made of the last calls. *)
Definition failed (past : list box_call) (task' : executor_task) (past' : list box_call) : Prop :=
  exists kind, past' = past ++ [Diag_last_error; Create_event kind] /\
    (kind = Diagnostic_event <-> given (box past Diag_last_error) <> 0) /\
    flags task' = EXECUTOR_TASK_OUTPUT_EVENT /\ output_size task' = sizeof_pointer /\
    output task' = given (box (past ++ [Diag_last_error]) (Create_event kind)).

(** How a transaction ends: all writes are made and committed, and the answer is the
    port; the commit is refused; or a write, or the port, refused, after the writes
    before it, and everything is rolled back.  The port is destroyed unless it is the
    answer. *)
Inductive transaction_ends (task : executor_task) (port transaction : Z) (writes past : list box_call)
    : executor_task -> list box_call -> Prop :=
| ends_committed past1 :
    wrote port writes past past1 -> status (box past1 (Txn_commit transaction)) = 0 ->
    transaction_ends task port transaction writes past (with_output task port) (past1 ++ [Txn_commit transaction])
| ends_not_committed past1 task' past' :
    wrote port writes past past1 -> status (box past1 (Txn_commit transaction)) <> 0 ->
    failed (past1 ++ [Txn_commit transaction; Port_destroy port]) task' past' ->
    transaction_ends task port transaction writes past task' past'
| ends_refused made w rest past1 task' past' :
    writes = made ++ w :: rest -> wrote port made past past1 -> status (box past1 w) < 0 ->
    failed (past1 ++ [w; Port_destroy port; Txn_rollback transaction]) task' past' ->
    transaction_ends task port transaction writes past task' past'
| ends_not_kept made w rest past1 task' past' :
    let tuple := given (box past1 w) in
    writes = made ++ w :: rest -> wrote port made past past1 -> 0 <= status (box past1 w) ->
    status (box (past1 ++ [w; Tuple_ref tuple]) (Port_c_add_tuple port tuple)) <> 0 ->
    failed (past1 ++ [w; Tuple_ref tuple; Port_c_add_tuple port tuple; Port_destroy port; Txn_rollback transaction]) task' past' ->
    transaction_ends task port transaction writes past task' past'.

Lemma send_error_fails task past : exists task' past', storage_send_error box task past = Done (task', past') /\ failed past task' past'.
Proof.
  unfold storage_send_error, box_bind, Box.call, box_ret. destruct (Z.eqb_spec (given (box past Diag_last_error)) 0) as [E|E]; cbn [negb].
  - eexists _, _. split; [reflexivity|]. exists Empty_error_event. rewrite <- app_assoc. split_and!; try done.
  - eexists _, _. split; [reflexivity|]. exists Diagnostic_event. rewrite <- app_assoc. split_and!; try done.
Qed.

Lemma abandon_fails task port transaction past : exists task' past', abandon box task port transaction past = Done (task', past') /\
  failed (past ++ [Port_destroy port; Txn_rollback transaction]) task' past'.
Proof.
  unfold abandon, box_bind, Box.call. destruct (send_error_fails task ((past ++ [Port_destroy port]) ++ [Txn_rollback transaction]))
    as (task' & past' & E & F). rewrite <- app_assoc in E, F. rewrite <- app_assoc. eauto.
Qed.

Lemma transact_ends task port transaction writes : forall past,
  exists task' past', transact task port transaction writes past = Done (task', past') /\
    transaction_ends task port transaction writes past task' past'.
Proof.
  induction writes as [|w writes IH]; intros past; cbn [transact].
  - unfold finish, box_bind, Box.call, box_ret. destruct (Z.eqb_spec (status (box past (Txn_commit transaction))) 0) as [E|E]; cbn [negb].
    + eexists _, _. split; [reflexivity|]. apply ends_committed; [constructor|done].
    + destruct (send_error_fails task ((past ++ [Txn_commit transaction]) ++ [Port_destroy port])) as (task' & past' & -> & F).
      eexists _, _. split; [reflexivity|]. rewrite <- app_assoc in F. by eapply ends_not_committed; [constructor| |].
  - unfold keep, box_bind at 1, Box.call at 1. destruct (Z.ltb_spec (status (box past w)) 0) as [L|L].
    { destruct (abandon_fails task port transaction (past ++ [w])) as (task' & past' & -> & F).
      eexists _, _. split; [reflexivity|]. rewrite <- app_assoc in F. by apply (ends_refused _ _ _ _ _ [] w writes past); [..|constructor| |]. }
    unfold box_bind, Box.call. rewrite <- !app_assoc. cbn [app].
    destruct (Z.eqb_spec (status (box (past ++ [w; Tuple_ref (given (box past w))]) (Port_c_add_tuple port (given (box past w))))) 0)
      as [E|E]; cbn [negb].
    + destruct (IH (past ++ [w; Tuple_ref (given (box past w)); Port_c_add_tuple port (given (box past w))])) as (task' & past' & -> & T).
      eexists _, _. split; [reflexivity|]. destruct T.
      * apply ends_committed; [by constructor|done].
      * eapply ends_not_committed; [by constructor|done|done].
      * subst. by eapply (ends_refused _ _ _ _ _ (w :: made)); [reflexivity|by constructor|..].
      * subst. by eapply (ends_not_kept _ _ _ _ _ (w :: made)); [reflexivity|by constructor|..].
    + destruct (abandon_fails task port transaction
        (past ++ [w; Tuple_ref (given (box past w)); Port_c_add_tuple port (given (box past w))])) as (task' & past' & -> & F).
      eexists _, _. split; [reflexivity|]. rewrite <- app_assoc in F. by eapply (ends_not_kept _ _ _ _ _ [] w writes past); [..|constructor| | |].
Qed.
End Transactions.

Section Batches.
Context {H : Hints} {HD : Documented_hints H} (box : list box_call -> box_call -> reply).
Open Scope box_scope.
Notation len l := (Z.of_nat (length l)).

(** The ranges of the values of a batch, and those of as many bytes as each tuple has
    elements. *)
Fixpoint tuple_ranges (buffer : list Z) (p : Z) (vs : list value) : list range :=
  match vs with
  | [] => []
  | v :: vs => Range buffer p (p + len (encode v)) :: tuple_ranges buffer (p + len (encode v)) vs
  end.
Fixpoint count_ranges (buffer : list Z) (p : Z) (ls : list (list value)) : list range :=
  match ls with
  | [] => []
  | l :: ls => Range buffer p (p + len l) :: count_ranges buffer (p + len (encode (Array l))) ls
  end.

Lemma encodes_cons v vs : encodes (v :: vs) = encode v ++ encodes vs.
Proof. done. Qed.

Lemma encode_not_empty v : sized v -> 0 < len (encode v).
Proof.
  intros S. pose proof (header_item v [] [] S) as E. rewrite encode_header, length_app.
  destruct (header v) as [|b l]; [|cbn [length]; lia]. cbn in E. unfold item in E. cbn in E. done.
Qed.

Lemma slice_of (buffer pre bytes post : list Z) (n : nat) : buffer = pre ++ bytes ++ post -> (n <= length bytes)%nat ->
  range_bytes (Range buffer (len pre) (len pre + Z.of_nat n)) = take n bytes.
Proof.
  intros -> Hn. unfold range_bytes. cbn [rg_buffer rg_from rg_to]. rewrite Nat2Z.id, drop_app_length.
  replace (Z.to_nat (len pre + Z.of_nat n - len pre)) with n by lia. apply take_app_le. lia.
Qed.

Lemma tuple_ranges_bytes buffer vs : forall pre post, buffer = pre ++ encodes vs ++ post ->
  map range_bytes (tuple_ranges buffer (len pre) vs) = map encode vs.
Proof.
  induction vs as [|v vs IH]; intros pre post E; cbn [tuple_ranges map]; [done|]. rewrite encodes_cons, <- app_assoc in E. f_equal.
  - rewrite (slice_of buffer pre (encode v) (encodes vs ++ post)) by done. apply firstn_all.
  - replace (len pre + len (encode v)) with (len (pre ++ encode v)) by (rewrite length_app; lia).
    apply (IH _ post). by rewrite <- app_assoc.
Qed.

Lemma elements_encode l : all_sized l -> len l <= len (encodes l).
Proof.
  induction l as [|v l IH]; cbn [all_sized foldr]; [done|]. intros [Sv Sl]. rewrite encodes_cons, length_app.
  pose proof (encode_not_empty v Sv). specialize (IH Sl). cbn [length]. lia.
Qed.

Lemma elements_below l : sized (Array l) -> len l < len (encode (Array l)).
Proof.
  intros S. rewrite encode_header, length_app. cbn [inside header].
  pose proof (elements_encode l (proj2 S)). rewrite Nat2Z.inj_add, encode_array_size.
  assert (1 <= mp_sizeof_array (len l)) by (unfold mp_sizeof_array; repeat case_match; lia). lia.
Qed.

Lemma count_ranges_bytes buffer ls : forall pre post, buffer = pre ++ encodes (map Array ls) ++ post -> all_sized (map Array ls) ->
  map range_bytes (count_ranges buffer (len pre) ls) = map (fun l => take (length l) (encode (Array l))) ls.
Proof.
  induction ls as [|l ls IH]; intros pre post E S; cbn [count_ranges map]; [done|]. cbn [map] in E. destruct S as [Sl Sls].
  rewrite encodes_cons, <- app_assoc in E. f_equal.
  - pose proof (elements_below l Sl). apply (slice_of buffer pre (encode (Array l)) (encodes (map Array ls) ++ post)); [done|lia].
  - replace (len pre + len (encode (Array l))) with (len (pre ++ encode (Array l))) by (rewrite length_app; lia).
    apply (IH _ post); [by rewrite <- app_assoc|done].
Qed.

(** ** The loops are transactions *)

Lemma next_value buffer v pre post : Forall byte_range buffer -> len buffer < 2 ^ 63 -> sized v -> buffer = pre ++ encode v ++ post ->
  next buffer (len pre) = Done (len pre + len (encode v)).
Proof.
  intros HB HL S E. pose proof (skip_value buffer v pre post HB S E) as K.
  unfold next. rewrite mp_next_skip; [exact K|done|lia|lia|by eapply counted_done].
Qed.

Lemma decode_elements buffer l pre post : len l < 2 ^ 32 -> buffer = pre ++ encode (Array l) ++ post ->
  exists p, mp_decode_array buffer (len pre) = Done (len l, p).
Proof.
  intros Hl ->. rewrite encode_header. cbn [header inside]. rewrite <- app_assoc, decode_array_encode by lia. eauto.
Qed.

Lemma keep_ext task port transaction w c c' past : (forall past, c past = c' past) ->
  keep box task port transaction w c past = keep box task port transaction w c' past.
Proof. intros E. unfold keep. destruct (_ <? 0); [done|]. unfold box_bind, Box.call. by destruct (negb _). Qed.

Section Loops.
Context (task : executor_task) (port transaction space : Z) (buffer : list Z) (HB : Forall byte_range buffer) (HL : len buffer < 2 ^ 63).

Lemma insert_loop_transact vs : forall pre post past, buffer = pre ++ encodes vs ++ post -> all_sized vs ->
  insert_loop box task port transaction (length vs) space buffer (len pre) past =
  transact box task port transaction (map (Box_insert space) (tuple_ranges buffer (len pre) vs)) past.
Proof.
  induction vs as [|v vs IH]; intros pre post past E S; cbn [length insert_loop tuple_ranges map transact]; [done|].
  destruct S as [Sv Svs]. rewrite encodes_cons, <- app_assoc in E.
  unfold lift, box_bind at 1. rewrite (next_value buffer v pre (encodes vs ++ post)) by done.
  unfold box_bind, Box.call. apply keep_ext. intros past'.
  replace (len pre + len (encode v)) with (len (pre ++ encode v)) by (rewrite length_app; lia).
  apply (IH _ post); [by rewrite <- app_assoc|done].
Qed.

(** The two loops that pass the number of elements differ in the write. *)
Lemma put_loop_transact ls : forall pre post past, buffer = pre ++ encodes (map Array ls) ++ post -> all_sized (map Array ls) ->
  put_loop box task port transaction (length ls) space buffer (len pre) (len pre) past =
  transact box task port transaction (map (Box_replace space) (count_ranges buffer (len pre) ls)) past.
Proof.
  induction ls as [|l ls IH]; intros pre post past E S; cbn [length put_loop count_ranges map transact]; [done|].
  cbn [map] in E. destruct S as [Sl Sls]. rewrite encodes_cons, <- app_assoc in E.
  destruct (decode_elements buffer l pre _ (proj1 Sl) E) as [p D].
  unfold lift at 1, box_bind at 1. rewrite D. unfold box_bind at 1 3, Box.call. apply keep_ext. intros past'.
  unfold lift, box_bind. rewrite (next_value buffer (Array l) pre _ HB HL Sl E).
  replace (len pre + len (encode (Array l))) with (len (pre ++ encode (Array l))) by (rewrite length_app; lia).
  apply (IH _ post); [by rewrite <- app_assoc|done].
Qed.

Lemma delete_loop_transact ls : forall pre post past, buffer = pre ++ encodes (map Array ls) ++ post -> all_sized (map Array ls) ->
  delete_loop box task port transaction (length ls) space buffer (len pre) (len pre) past =
  transact box task port transaction (map (Box_delete space STORAGE_PRIMARY_INDEX_ID) (count_ranges buffer (len pre) ls)) past.
Proof.
  induction ls as [|l ls IH]; intros pre post past E S; cbn [length delete_loop count_ranges map transact]; [done|].
  cbn [map] in E. destruct S as [Sl Sls]. rewrite encodes_cons, <- app_assoc in E.
  destruct (decode_elements buffer l pre _ (proj1 Sl) E) as [p D].
  unfold lift at 1, box_bind at 1. rewrite D. unfold box_bind at 1 3, Box.call. apply keep_ext. intros past'.
  unfold lift, box_bind. rewrite (next_value buffer (Array l) pre _ HB HL Sl E).
  replace (len pre + len (encode (Array l))) with (len (pre ++ encode (Array l))) by (rewrite length_app; lia).
  apply (IH _ post); [by rewrite <- app_assoc|done].
Qed.
End Loops.

(** The calls before the first write. *)
Definition started (past : list box_call) (port transaction : Z) (past' : list box_call) : Prop :=
  port = given (box past Mempool_alloc) /\
  transaction = given (box (past ++ [Mempool_alloc; Port_c_create port]) Txn_begin) /\
  past' = past ++ [Mempool_alloc; Port_c_create port; Txn_begin].

Lemma array_start buffer vs post : len vs < 2 ^ 32 -> buffer = encode (Array vs) ++ post ->
  mp_decode_array buffer 0 = Done (len vs, len (mp_encode_array (len vs))).
Proof.
  intros Hl ->. rewrite encode_header. cbn [header inside]. rewrite <- app_assoc.
  pose proof (decode_array_encode (len vs) [] (encodes vs ++ post) ltac:(lia)) as E. cbn [app] in E. change (len (@nil Z)) with 0 in E.
  by rewrite E, encode_array_size.
Qed.

Lemma array_batch buffer vs post : buffer = encode (Array vs) ++ post -> buffer = mp_encode_array (len vs) ++ encodes vs ++ post.
Proof. intros ->. rewrite encode_header. by rewrite <- app_assoc. Qed.
End Batches.

Ltac start_batch := unfold new_port; cbv beta delta [box_bind Box.call box_ret lift] iota; rewrite <- !app_assoc; cbn [app].

(** ** Theorems *)

(** C4: inserting a batch of tuples is one transaction that inserts exactly the tuples
    of the batch, each with its own bytes and in their order: all of them are
    inserted, committed and referenced by the port that is the answer, or the
    answer is an event, everything is rolled back or the commit was refused, and
    the port is destroyed.  The buffer of the request is below [2 ^ 63] bytes, as
    every object of C is. *)
Theorem storage_space_insert_many_transaction {H : Hints} {HD : Documented_hints H} box r task past vs post
  (HV : sized (Array vs)) (HB : Forall byte_range (sr_tuple r))
  (HL : Z.of_nat (length (sr_tuple r)) < 2 ^ 63) (HR : sr_tuple r = encode (Array vs) ++ post) :
  exists port transaction past1 tuples task' past',
    started box past port transaction past1 /\
    map range_bytes tuples = map encode vs /\
    storage_space_insert_many box r task past = Done (task', past') /\
    transaction_ends box task port transaction (map (Box_insert (sr_space_id r)) tuples) past1 task' past'.
Proof.
  unfold storage_space_insert_many. start_batch. rewrite (array_start _ vs post) by (done || apply HV).
  set (port := given (box past Mempool_alloc)). rewrite Nat2Z.id.
  rewrite (insert_loop_transact box task port _ (sr_space_id r) (sr_tuple r) HB HL vs _ post) by (by apply array_batch || apply HV).
  edestruct (transact_ends box task port) as (task' & past' & -> & T). rewrite <- app_assoc in T.
  eexists port, _, _, _, task', past'. split; [split_and!; reflexivity|]. split; [|split; [reflexivity|exact T]].
  apply (tuple_ranges_bytes _ vs _ post). by apply array_batch.
Qed.


(** The operations with one tuple make their one call of the database, with the
    bytes of the request; a refusal becomes an event, no tuple leaves the task as it
    is, and a tuple gets a reference and is the answer. *)
Theorem storage_single_answers box r ri ru riu rp task past :
  let tuple := whole (sr_tuple r) (sr_tuple_size r) in
  let key := whole (ir_tuple ri) (ir_tuple_size ri) in
  Forall (fun '(handler, c) => exists task' past', handler past = Done (task', past') /\
      let answer := box past c in
      (status answer < 0 -> failed box (past ++ [c]) task' past') /\
      (0 <= status answer -> given answer = 0 -> task' = task /\ past' = past ++ [c]) /\
      (0 <= status answer -> given answer <> 0 -> task' = with_output task (given answer) /\ past' = past ++ [c; Tuple_ref (given answer)]))
    [(storage_space_put_single box r task, Box_replace (sr_space_id r) tuple);
     (storage_space_insert_single box r task, Box_insert (sr_space_id r) tuple);
     (storage_space_delete_single box r task, Box_delete (sr_space_id r) 0 tuple);
     (storage_space_update_single box ru task,
      Box_update (su_space_id ru) 0 (whole (su_key ru) (su_key_size ru)) (whole (su_operations ru) (su_operations_size ru)) 0);
     (storage_space_upsert box rp task,
      Box_upsert (sp_space_id rp) 0 (whole (sp_tuple rp) (sp_tuple_size rp)) (whole (sp_operations rp) (sp_operations_size rp)) 0);
     (storage_space_get box r task, Box_index_get (sr_space_id r) 0 tuple);
     (storage_space_min box r task, Box_index_min (sr_space_id r) 0 tuple);
     (storage_space_max box r task, Box_index_max (sr_space_id r) 0 tuple);
     (storage_index_get box ri task, Box_index_get (ir_space_id ri) (ir_index_id ri) key);
     (storage_index_min box ri task, Box_index_min (ir_space_id ri) (ir_index_id ri) key);
     (storage_index_max box ri task, Box_index_max (ir_space_id ri) (ir_index_id ri) key);
     (storage_index_update_single box riu task,
      Box_update (iu_space_id riu) (iu_index_id riu) (whole (iu_key riu) (iu_key_size riu))
        (whole (iu_operations riu) (iu_operations_size riu)) 0)].
Proof.
  cbv zeta.
  assert (A : forall c, exists task' past', box_bind (Box.call box c) (answer_tuple box task) past = Done (task', past') /\
      (status (box past c) < 0 -> failed box (past ++ [c]) task' past') /\
      (0 <= status (box past c) -> given (box past c) = 0 -> task' = task /\ past' = past ++ [c]) /\
      (0 <= status (box past c) -> given (box past c) <> 0 ->
         task' = with_output task (given (box past c)) /\ past' = past ++ [c; Tuple_ref (given (box past c))])).
  { intros c. unfold box_bind at 1, Box.call at 1, answer_tuple. destruct (Z.ltb_spec (status (box past c)) 0).
    { destruct (send_error_fails box task (past ++ [c])) as (task' & past' & -> & F). eexists _, _. split; [done|]. split_and!; [done|lia..]. }
    destruct (Z.eqb_spec (given (box past c)) 0); eexists _, _; (split; [reflexivity|]).
    - split_and!; [lia|done|done].
    - rewrite <- app_assoc. split_and!; [lia|done|done]. }
  repeat apply List.Forall_cons; [..|apply List.Forall_nil]; apply A.
Qed.

(** Evaluating an expression or calling a function allocates exactly as many bytes
    as the answer has: the header of an array of the results and the results, as they
    were dumped, which a reader of the header finds; when Lua fails, both ports
    are destroyed and the answer is an event; and when there is no memory for the
    answer, it is written through a null pointer. *)
Theorem storage_lua_answers box task past expression function
  (HU : forall past, used (box past Port_out_dump) = Z.of_nat (length (concat (dumped (box past Port_out_dump)))))
  (HC : forall past c, 0 <= given (box past c) < 2 ^ 32) :
  let answers (handler : box_m executor_task) (arguments : range) (run : box_call) :=
    let past1 := past ++ [Obuf_create; Port_in_create arguments] in
    let count := given (box past1 run) in
    let size := used (box (past1 ++ [run; Port_in_destroy]) Port_out_dump) + mp_sizeof_array count in
    let memory := given (box (past1 ++ [run; Port_in_destroy; Port_out_dump; Port_out_destroy]) (Smalloc size)) in
    (status (box past1 run) = 0 -> memory = 0 -> handler past = Faults) /\
    (status (box past1 run) <> 0 \/ memory <> 0 -> exists task' past', handler past = Done (task', past') /\
      (status (box past1 run) <> 0 -> failed box (past1 ++ [run; Port_out_destroy; Port_in_destroy]) task' past') /\
      (status (box past1 run) = 0 -> exists bytes results,
         past' = past1 ++ [run; Port_in_destroy; Port_out_dump; Port_out_destroy; Smalloc (output_size task'); Store (output task') bytes] /\
         output_size task' = Z.of_nat (length bytes) /\
         results = concat (dumped (box (past1 ++ [run; Port_in_destroy]) Port_out_dump)) /\
         bytes = mp_encode_array count ++ results /\ mp_decode_array bytes 0 = Done (count, mp_sizeof_array count))) in
  answers (storage_evaluate box expression task) (whole (er_input expression) (er_input_size expression))
    (Box_lua_eval (er_expression expression) (er_expression_length expression) (whole (er_input expression) (er_input_size expression))) /\
  answers (storage_call box function task) (whole (cr_input function) (cr_input_size function))
    (Box_lua_call (cr_function function) (cr_function_length function) (whole (cr_input function) (cr_input_size function))).
Proof.
  intros answers. assert (A : forall arguments run, answers (run_lua box task run arguments) arguments run); [|split; apply A].
  intros arguments run. unfold answers, run_lua. start_batch.
  destruct (Z.eqb_spec (status (box (past ++ [Obuf_create; Port_in_create arguments]) run)) 0) as [E|E]; cbn [negb].
  - unfold copy_results. cbv beta delta [box_bind Box.call box_ret lift] iota. rewrite <- !app_assoc. cbn [app].
    split; [intros _ ->; done|]. intros M. rewrite (proj2 (Z.eqb_neq _ _)) by (destruct M; done).
    eexists _, _. split; [reflexivity|]. split; [done|]. intros _.
    eexists _, _. rewrite <- !app_assoc. cbn [app]. split_and!; [reflexivity| |reflexivity|reflexivity|].
    + cbn [output_size with_buffer]. rewrite HU, length_app, Nat2Z.inj_add, encode_array_size. lia.
    + apply (decode_array_encode _ [] (concat _)). pose proof (HC (past ++ [Obuf_create; Port_in_create arguments]) run). lia.
  - split; [done|]. intros _. edestruct (send_error_fails box task) as (task' & past' & -> & F). eexists _, _. split; [reflexivity|].
    rewrite <- !app_assoc in F. split; [done|congruence].
Qed.

(** ** Witnesses *)

(** A database that accepts everything, and one that refuses the second insertion. *)
Definition accepting (past : list box_call) (c : box_call) : reply := Reply 0 1 [[1; 2]; [3]] 3.
Definition refusing_second (past : list box_call) (c : box_call) : reply :=
  match c with
  | Box_insert _ r => Reply (if rg_from r =? 1 then 0 else -1) 1 [] 0
  | _ => Reply 0 1 [] 0
  end.

Definition a_batch : list (list value) := [[Uint 1; Uint 2]; [Uint 3]].
Definition a_request : storage_space_request := SpaceRequest 6 [0x92; 0x92; 1; 2; 0x91; 3] 512.
Definition a_task : executor_task := ExecutorTask 0 0 0 0 0 0 0 0 0 0.
Lemma a_request_range : Forall byte_range (sr_tuple a_request).
Proof. cbn. repeat constructor; unfold byte_range; lia. Qed.
Lemma a_batch_sized : sized (Array (map Array a_batch)).
Proof. cbn. lia. Qed.

Lemma storage_space_insert_many_transaction_witness :
  (exists port transaction past1 tuples task' past',
    started accepting [] port transaction past1 /\ map range_bytes tuples = [[0x92; 1; 2]; [0x91; 3]] /\
    storage_space_insert_many (H := message_pack_hints) accepting a_request a_task [] = Done (task', past') /\
    transaction_ends accepting a_task port transaction (map (Box_insert 512) tuples) past1 task' past') /\
  (exists task' past', storage_space_insert_many (H := message_pack_hints) refusing_second a_request a_task [] = Done (task', past') /\
    flags task' = EXECUTOR_TASK_OUTPUT_EVENT /\ In (Txn_rollback 1) past' /\ ~ In (Txn_commit 1) past').
Proof.
  split.
  - exact (storage_space_insert_many_transaction (H := message_pack_hints) accepting a_request a_task [] (map Array a_batch) []
      a_batch_sized a_request_range eq_refl eq_refl).
  - eexists _, _. split; [vm_compute; reflexivity|]. split_and!; [reflexivity|cbn; tauto|cbn; intros Hin; repeat destruct Hin as [Hin|Hin]; try discriminate Hin; exact Hin].
Defined.


Lemma storage_lua_answers_witness :
  exists task' past', storage_evaluate accepting (EvaluateRequest 7 [0x90] 1 3) a_task [] = Done (task', past') /\
    output_size task' = 4 /\ In (Store (output task') [0x91; 1; 2; 3]) past'.
Proof.
  destruct (proj1 (storage_lua_answers accepting a_task [] (EvaluateRequest 7 [0x90] 1 3) (CallRequest 0 [] 0 0)
    ltac:(intros; reflexivity) ltac:(intros; cbn; lia))) as [_ A].
  destruct A as (task' & past' & E & _ & S); [right; cbn; lia|]. destruct (S eq_refl) as (bytes & results & P & Z & R & B & _). exists task', past'. split; [exact E|].
  rewrite R in B. vm_compute in B. rewrite B in P, Z. split; [exact Z|]. rewrite P. cbn. tauto.
Defined.
