(* ===== verification/StorageExecutor.v ===== *)
(** * The executor of the storage ([storage/native/storage/executor.c])

    A fiber of the database takes the tasks that other executors sent to its ring,
    runs the handler each names, and sends the task back to the ring it came from.
    The handlers are the parameter [run]: a function of the task and of the world
    they act on, for instance the handlers of [Box]. *)
From S2P Require Import Prelude Events Uring Executor.

Section Storage_executor.
Context {R : Type} `{UringLaws R} {W : Type}.

(** [task->method] is the address of a handler. *)
Context (run : Z -> executor_task -> W -> outcome (executor_task * W)).
(** [io_uring_wait_cqe_nr]. *)
Context (wait_cqe : R -> R).
Context (system_error : Z -> event).

Record storage_executor := StorageExecutor {
  st_ring : R;
  st_configuration : executor_configuration;
  st_descriptor : Z;
  st_active : bool;
}.

(** The executor, the tasks in memory by their address, and the world. *)
Record storage_state := StorageState { executor : storage_executor; tasks : gmap Z executor_task; world : W }.
Implicit Types (s : storage_state).

Definition with_executor_ring s (r : R) : storage_state :=
  StorageState (StorageExecutor r (st_configuration (executor s)) (st_descriptor (executor s)) (st_active (executor s))) (tasks s) (world s).
Definition with_active s (b : bool) : storage_state :=
  StorageState (StorageExecutor (st_ring (executor s)) (st_configuration (executor s)) (st_descriptor (executor s)) b) (tasks s) (world s).

(** The answer, the event that is propagated and the executor; [queue_init] gives the
    ring as it is left, and the negated error. *)
Definition storage_executor_initialize (queue_init : Z -> Z -> R * Z) (configuration : executor_configuration)
    : Z * option event * storage_executor :=
  let '(r, result) := queue_init (u32 (ring_size configuration)) (ring_flags configuration) in
  let raised := if negb (result =? 0) then Some (system_error (i32 (- result))) else None in
  (0, raised, StorageExecutor r configuration (ring_fd r) true).

(** One completion: the task is run, and sent back; the entry is not tested. *)
Definition answer_task s (at_ : Z) : outcome storage_state :=
  if at_ =? 0 then Done s else
  task ← demand (tasks s !! at_);
  '(task, world) ← run (method task) task (world s);
  r ← demand (get_sqe (st_ring (executor s)));
  let target := source task in
  let task := with_route task (u64 (st_descriptor (executor s))) target in
  let r := write_sqe r (message (i32 target) EXECUTOR_CALLBACK at_) in
  Done (with_executor_ring (StorageState (executor s) (<[at_ := task]> (tasks s)) world) r).

Fixpoint answer_tasks s (cqes : list Z) : outcome storage_state :=
  match cqes with
  | [] => Done s
  | at_ :: cqes => s ← answer_task s at_; answer_tasks s cqes
  end.

(** One round of the loop, up to the yield, with the completions that are ready:
    whether the loop goes on. *)
Definition storage_executor_round s (cqes : list Z) : outcome (bool * storage_state) :=
  let s := with_executor_ring s (submit (st_ring (executor s))) in
  match cqes with
  | [] => Done (true, s)
  | _ =>
      if negb (st_active (executor s)) then Done (false, s) else
      s ← answer_tasks s cqes;
      Done (true, with_executor_ring s (submit (st_ring (executor s))))
  end.

(** The rounds: what was ready in each, and whether the executor was still active
    when the fiber came back. *)
Fixpoint storage_executor_start s (rounds : list (list Z * bool)) : outcome storage_state :=
  if negb (st_active (executor s)) then Done s else
  match rounds with
  | [] => Done s
  | (cqes, active) :: rounds =>
      '(go_on, s) ← storage_executor_round s cqes;
      if (go_on : bool) then storage_executor_start (with_active s (active && st_active (executor s))) rounds else Done s
  end.

Definition storage_executor_descriptor s : Z := st_descriptor (executor s).

(** Waits for completions, which submits nothing, until there is an entry. *)
Fixpoint stop_loop (fuel : nat) (r : R) : outcome R :=
  match get_sqe r with
  | Some r => Done r
  | None => match fuel with O => Spins | S fuel => stop_loop fuel (wait_cqe r) end
  end.
Definition storage_executor_stop (fuel : nat) s : outcome storage_state :=
  let s := with_active s false in
  r ← stop_loop fuel (st_ring (executor s));
  Done (with_executor_ring s (submit (write_sqe r (Sqe Nop 0 0)))).

(** ** Properties *)

Definition ring_of s : R := st_ring (executor s).

(** The message that brings a task back to where it came from. *)
Definition answer_of (ts : gmap Z executor_task) (at_ : Z) : list io_uring_sqe :=
  match ts !! at_ with Some task => [message (i32 (source task)) EXECUTOR_CALLBACK at_] | None => [] end.

(** The tasks are run one after the other. *)
Fixpoint run_tasks (descriptor : Z) (ts : gmap Z executor_task) (w : W) (cqes : list Z) : outcome (gmap Z executor_task * W) :=
  match cqes with
  | [] => Done (ts, w)
  | at_ :: cqes =>
      task ← demand (ts !! at_);
      '(task, w) ← run (method task) task w;
      run_tasks descriptor (<[at_ := with_route task (u64 descriptor) (source task)]> ts) w cqes
  end.

(** A handler leaves the route of its task alone. *)
Definition keeps_route : Prop :=
  forall m task w task' w', run m task w = Done (task', w') -> source task' = source task /\ method task' = method task.

Lemma answer_tasks_run s cqes : keeps_route -> NoDup cqes -> Forall (fun at_ => at_ <> 0) cqes ->
  Z.of_nat (length cqes) <= sq_space_left (ring_of s) ->
  match run_tasks (st_descriptor (executor s)) (tasks s) (world s) cqes with
  | Done (ts, w) => exists s', answer_tasks s cqes = Done s' /\ tasks s' = ts /\ world s' = w /\
      entries (ring_of s') = entries (ring_of s) ++ concat (map (answer_of (tasks s)) cqes) /\
      st_descriptor (executor s') = st_descriptor (executor s) /\ st_active (executor s') = st_active (executor s)
  | Exits code => answer_tasks s cqes = Exits code
  | Faults => answer_tasks s cqes = Faults
  | Spins => answer_tasks s cqes = Spins
  end.
Proof.
  intros K. revert s. induction cqes as [|at_ cqes IH]; intros s ND NZ Sp; cbn [run_tasks answer_tasks].
  { exists s. cbn [map concat]. by rewrite app_nil_r. }
  apply NoDup_cons in ND as [Nin ND]. apply Forall_cons in NZ as [NZ NZs]. cbn [length] in Sp.
  unfold answer_task. rewrite (proj2 (Z.eqb_neq _ _) NZ).
  destruct (tasks s !! at_) as [task|] eqn:T; cbn [demand]; [rewrite !bind_done|done].
  destruct (run (method task) task (world s)) as [[task' w']| | |] eqn:E; [rewrite !bind_done|done..].
  destruct (K _ _ _ _ _ E) as [Ks _].
  destruct (get_sqe (st_ring (executor s))) as [r|] eqn:G.
  2:{ assert (P : 0 < sq_space_left (st_ring (executor s))) by (unfold ring_of in Sp; lia). apply get_sqe_space in P as [? ?]. congruence. }
  cbn [demand]. rewrite !bind_done.
  set (s1 := with_executor_ring (StorageState (executor s) (<[at_ := with_route task' (u64 (st_descriptor (executor s))) (source task')]> (tasks s)) w')
    (write_sqe r (message (i32 (source task')) EXECUTOR_CALLBACK at_))).
  specialize (IH s1 ND NZs). cbn [executor tasks world s1 with_executor_ring st_descriptor st_active] in IH.
  unfold ring_of in IH at 1. cbn in IH. rewrite (space_write _ _ _ G) in IH. unfold ring_of in Sp.
  specialize (IH ltac:(lia)).
  fold s1. destruct (run_tasks _ _ _ cqes) as [[ts w]| | |]; [|done..].
  destruct IH as (s' & -> & ? & ? & En & ? & ?). exists s'. split_and!; try done.
  rewrite En. unfold ring_of at 1. cbn [s1 with_executor_ring executor st_ring]. rewrite (entries_write _ _ _ G), <- app_assoc. f_equal.
  cbn [map concat]. unfold answer_of at 2. rewrite T. rewrite Ks. cbn [app]. f_equal. f_equal.
  apply map_ext_in. intros a Ha. unfold answer_of. cbn [tasks s1 with_executor_ring]. by rewrite lookup_insert_ne by (intros ->; apply Nin; by apply list_elem_of_In).
Qed.

Lemma answer_tasks_overflow s cqes : (forall m task w, exists task' w', run m task w = Done (task', w')) ->
  Forall (fun at_ => at_ <> 0 /\ is_Some (tasks s !! at_)) cqes -> cqes <> [] ->
  sq_space_left (ring_of s) < Z.of_nat (length cqes) -> answer_tasks s cqes = Faults.
Proof.
  intros Total. revert s. induction cqes as [|at_ cqes IH]; intros s F N Sp; [done|]. cbn [answer_tasks].
  apply Forall_cons in F as [[NZ [task T]] F]. unfold answer_task. rewrite (proj2 (Z.eqb_neq _ _) NZ), T. cbn [demand]. rewrite !bind_done.
  destruct (Total (method task) task (world s)) as (task' & w' & ->). rewrite !bind_done.
  destruct (get_sqe (st_ring (executor s))) as [r|] eqn:G; [|done]. cbn [demand]. rewrite !bind_done.
  assert (P : 0 < sq_space_left (ring_of s)) by (apply get_sqe_space; unfold ring_of; eauto).
  destruct cqes as [|b cqes].
  { cbn [length] in Sp. lia. }
  apply IH; [|done|].
  - eapply Forall_impl; [exact F|]. intros x [? ?]. split; [done|]. cbn [tasks with_executor_ring]. destruct (decide (at_ = x)) as [->|].
    + rewrite lookup_insert_eq. eauto. + by rewrite lookup_insert_ne.
  - unfold ring_of. cbn [executor with_executor_ring st_ring]. rewrite (space_write _ _ _ G). cbn [length] in *. unfold ring_of in Sp. lia.
Qed.
End Storage_executor.

(** ** Theorems *)

(** An active round with as many free entries as completed tasks runs every task
    once, with its handler, in the order of the completions, and sends each back to
    the ring it came from, once and in this order; the route of a task is turned
    around, and nothing is left unsubmitted. *)
Theorem storage_executor_round_answers {R} `{UringLaws R} {W} run (s : storage_state (R := R) (W := W)) cqes
  (K : keeps_route run) (ND : NoDup cqes) (NZ : Forall (fun at_ => at_ <> 0) cqes) (NE : cqes <> [])
  (A : st_active (executor s) = true) (Sp : Z.of_nat (length cqes) <= sq_space_left (submit (ring_of s))) :
  match run_tasks run (st_descriptor (executor s)) (tasks s) (world s) cqes with
  | Done (ts, w) => exists s', storage_executor_round run s cqes = Done (true, s') /\ tasks s' = ts /\ world s' = w /\
      submitted (ring_of s') = entries (ring_of s) ++ concat (map (answer_of (tasks s)) cqes) /\ prepared (ring_of s') = []
  | Exits code => storage_executor_round run s cqes = Exits code
  | Faults => storage_executor_round run s cqes = Faults
  | Spins => storage_executor_round run s cqes = Spins
  end.
Proof.
  unfold storage_executor_round. destruct cqes as [|a l]; [done|]. cbn [executor with_executor_ring st_active]. rewrite A. cbn [negb].
  pose proof (answer_tasks_run run (with_executor_ring s (submit (st_ring (executor s)))) (a :: l) K ND NZ Sp) as T.
  cbn [executor with_executor_ring st_descriptor tasks world] in T.
  destruct (run_tasks _ _ _ _ _) as [[ts w]|code| |]; [|by rewrite T..].
  destruct T as (s' & -> & ? & ? & E & _). rewrite bind_done. eexists. split; [reflexivity|].
  cbn [tasks world with_executor_ring]. split_and!; [done..| |unfold ring_of; cbn; apply prepared_submit].
  pose proof (prepared_submit (ring_of s')) as P. pose proof (entries_submit (ring_of s')) as Q. unfold entries in Q at 1.
  unfold ring_of in *. cbn in *. rewrite P, app_nil_r in Q. rewrite Q, E, entries_submit. done.
Qed.

(** With more completed tasks than free entries the fiber writes through a null
    entry, whatever the handlers do: the entry is not tested as it is elsewhere. *)
Theorem storage_executor_round_overflows {R} `{UringLaws R} {W} run (s : storage_state (R := R) (W := W)) cqes
  (T : forall m task w, exists task' w', run m task w = Done (task', w'))
  (F : Forall (fun at_ => at_ <> 0 /\ is_Some (tasks s !! at_)) cqes)
  (A : st_active (executor s) = true) (N : cqes <> []) (Sp : sq_space_left (submit (ring_of s)) < Z.of_nat (length cqes)) :
  storage_executor_round run s cqes = Faults.
Proof.
  unfold storage_executor_round. destruct cqes as [|a l]; [done|]. cbn [executor with_executor_ring st_active]. rewrite A. cbn [negb].
  by rewrite answer_tasks_overflow.
Qed.

(** Stopping deactivates the executor and wakes its fiber with an empty completion
    when there is a free entry; without one it waits for completions, which does not
    free an entry, for ever. *)
Theorem storage_executor_stop_wakes {R} `{UringLaws R} {W} (wait_cqe : R -> R) (s : storage_state (R := R) (W := W))
  (L : forall r, sq_space_left (wait_cqe r) = sq_space_left r) :
  (0 < sq_space_left (ring_of s) -> forall fuel, exists s', storage_executor_stop wait_cqe fuel s = Done s' /\
     st_active (executor s') = false /\ entries (ring_of s') = entries (ring_of s) ++ [Sqe Nop 0 0] /\
     prepared (ring_of s') = [] /\ (forall run rounds, storage_executor_start run s' rounds = Done s')) /\
  (sq_space_left (ring_of s) <= 0 -> forall fuel, storage_executor_stop wait_cqe fuel s = Spins).
Proof.
  unfold storage_executor_stop, ring_of. cbn [executor with_active st_ring]. split.
  - intros P fuel. apply get_sqe_space in P as [r G].
    replace (stop_loop wait_cqe fuel (st_ring (executor s))) with (Done r) by (destruct fuel; cbn; by rewrite G).
    rewrite bind_done. eexists. split; [reflexivity|]. cbn. split_and!; [done| |apply prepared_submit|by intros ? []].
    by rewrite entries_submit, (entries_write _ _ _ G).
  - intros P fuel. enough (E : stop_loop wait_cqe fuel (st_ring (executor s)) = Spins) by (by rewrite E).
    remember (st_ring (executor s)) as r. clear Heqr s. revert r P. induction fuel as [|fuel IH]; intros r P; cbn [stop_loop];
      (destruct (get_sqe r) eqn:G; [assert (0 < sq_space_left r) by (apply get_sqe_space; eauto); lia|]); [done|].
    apply IH. by rewrite L.
Qed.

(** ** Witnesses *)

(** Two tasks of the executors with the rings 7 and 8, whose handler counts. *)
Definition counting (m : Z) (task : executor_task) (w : Z) : outcome (executor_task * Z) := Done (task, w + m).
Definition sent (from m : Z) : executor_task := ExecutorTask 0 from 0 0 m 0 0 0 0 0.
Definition two_tasks (entries : nat) : storage_state (R := list_ring) (W := Z) :=
  StorageState (StorageExecutor (ListRing 3 entries [] []) (ExecutorConfiguration 4 0) 3 true)
    (<[100 := sent 7 1]> (<[200 := sent 8 10]> ∅)) 0.

Lemma storage_executor_round_answers_witness :
  exists s', storage_executor_round counting (two_tasks 4) [100; 200] = Done (true, s') /\ world s' = 11 /\
    submitted (ring_of s') = [message 7 EXECUTOR_CALLBACK 100; message 8 EXECUTOR_CALLBACK 200].
Proof.
  pose proof (storage_executor_round_answers counting (two_tasks 4) [100; 200]) as T.
  destruct T as (s' & E & _ & W & S & _).
  - intros m task w task' w' [= <- <-]. done.
  - repeat constructor; set_solver.
  - repeat constructor; lia.
  - done.
  - reflexivity.
  - cbn. lia.
  - exists s'. split_and!; [exact E|rewrite W; vm_compute; reflexivity|rewrite S; vm_compute; reflexivity].
Defined.

Lemma storage_executor_round_overflows_witness : storage_executor_round counting (two_tasks 0) [100; 200] = Faults.
Proof.
  apply (storage_executor_round_overflows counting (two_tasks 0) [100; 200]).
  - intros. eexists _, _. reflexivity.
  - repeat constructor; (lia || (vm_compute; eauto)).
  - reflexivity.
  - done.
  - cbn. lia.
Defined.

Lemma storage_executor_stop_wakes_witness :
  exists s', storage_executor_stop (fun r => r) 3 (two_tasks 4) = Done s' /\ st_active (executor s') = false.
Proof.
  assert (P : 0 < sq_space_left (ring_of (two_tasks 4))) by (vm_compute; reflexivity).
  destruct (proj1 (storage_executor_stop_wakes (fun r : list_ring => r) (two_tasks 4) (fun r => eq_refl)) P 3%nat)
    as (s' & E & A & _).
  exists s'. split; [exact E|exact A].
Defined.
