(* ===== verification/Storage.v ===== *)
(** * The storage ([storage/native/storage/storage.c])

    Its errors and messages as events, and how it is started and stopped: a thread
    runs the database, and the caller waits for it on a condition. *)
From stdpp Require Import strings.
From S2P Require Import Prelude Time Events System MsgPack MsgSkip MsgSkipTheorems MsgCodec MsgValues.

(** ** Errors of the database

    The payload of an error are named values in message pack; a field may be null. *)
Record error_field := ErrorField { ef_name : string; ef_data : list Z }.
Record error := Error {
  error_code : field_value;
  error_message : string;
  error_file : string;
  error_line : Z;
  error_payload : list (option error_field);
}.

Section Events.
Context {H : Hints} (stack_trace : option string) (p : place).

(** A float as the bits of the double it converts to. *)
Context (double_of_float : Z -> Z).

Definition storage_name : string := "storage".
Definition at_file (e : event) (file : string) (line : Z) : event :=
  Event (raised_module_name e) (fields e) (function e) file line (level e) (timestamp e).

(** [storage_module_event(event_of(level, ...))]. *)
Definition storage_event (lvl : Z) (l : list event_field_structure) : outcome event :=
  e ← event_at p lvl l; Done (event_setup e storage_name).

(** One field of the payload; the pointer to the data is read before the field is
    tested, and the text of a string is decoded from a variable of the same name
    that has no value. *)
Definition convert_field (e : event) (field : option error_field) : outcome event :=
  field ← demand field;
  let data := ef_data field in
  '(c, _) ← mp_load_u8 data 0;
  match mp_typeof c with
  | MP_STR => Faults
  | MP_UINT => '(v, _) ← mp_decode_uint data 0; event_set_unsigned e (ef_name field) v
  | MP_INT => '(v, _) ← mp_decode_int data 0; event_set_signed e (ef_name field) v
  | MP_BOOL => '(v, _) ← mp_decode_bool data 0; event_set_boolean e (ef_name field) v
  | MP_FLOAT => '(v, _) ← mp_decode_float data 0; event_set_double e (ef_name field) (double_of_float v)
  | MP_DOUBLE => '(v, _) ← mp_decode_double data 0; event_set_double e (ef_name field) v
  | MP_NIL | MP_BIN | MP_ARRAY | MP_MAP | MP_EXT => Done e
  end.
Fixpoint convert_fields (e : event) (l : list (option error_field)) : outcome event :=
  match l with [] => Done e | field :: l => e ← convert_field e field; convert_fields e l end.

Definition storage_convert_error (err : error) (lvl : Z) : outcome (option event) :=
  e ← storage_event lvl [EventField EVENT_FIELD_CODE (error_code err);
                         EventField EVENT_FIELD_MESSAGE (event_field_set_string (error_message err))];
  e ← convert_fields (at_file e (error_file err) (error_line err)) (error_payload err);
  event_put_stack_trace stack_trace (Some e).

Definition storage_create_error (message : string) : outcome (option event) :=
  e ← storage_event EVENT_LEVEL_ERROR [EventField EVENT_FIELD_MESSAGE (event_field_set_string message)];
  event_put_stack_trace stack_trace (Some e).

(** The last error, which is not tested. *)
Definition storage_get_diagnostic_event (last_error : option error) : outcome (option event) :=
  err ← demand last_error; storage_convert_error err EVENT_LEVEL_ERROR.

(** The levels of the messages of the database. *)
Inductive say_level := S_FATAL | S_SYSERROR | S_ERROR | S_CRIT | S_WARN | S_INFO | S_VERBOSE | S_DEBUG.

(** The event that is printed. *)
Definition storage_say (lvl : say_level) (filename : string) (line : Z) (message : string) : outcome (option event) :=
  let m := [EventField EVENT_FIELD_MESSAGE (event_field_set_string message)] in
  e ← match lvl with
      | S_FATAL | S_SYSERROR | S_ERROR | S_CRIT =>
          e ← storage_event EVENT_LEVEL_ERROR m; event_put_stack_trace stack_trace (Some e)
      | S_WARN => e ← storage_event EVENT_LEVEL_WARNING m; Done (Some e)
      | S_INFO => e ← storage_event EVENT_LEVEL_INFORMATION m; Done (Some e)
      | S_VERBOSE | S_DEBUG => e ← storage_event EVENT_LEVEL_TRACE m; Done (Some e)
      end;
  e ← demand e; Done (Some (at_file e filename line)).
End Events.

(** ** Starting and stopping

    The calls on threads, mutexes and conditions; [threads], given the calls made
    before, answers a call with its error, and with what the other threads have done
    to the instance meanwhile. *)
Inductive pair := Initialization | Shutdown.
Inductive thread_call :=
| Calloc
| Pthread_create
| Mutex_lock (m : pair)
| Mutex_unlock (m : pair)
| Mutex_destroy (m : pair)
| Cond_timedwait (c : pair)
| Cond_destroy (c : pair)
| Cond_broadcast (c : pair)
| Executor_initialize | Executor_start | Executor_stop | Executor_destroy
| Initialize_box | Destroy_box
| Launcher_launch | Launcher_shutdown
| Run_script
| Box_on_shutdown
| Fiber_start
| Ev_run | Ev_break
| Free.
#[export] Instance thread_call_eq_dec : EqDecision thread_call.
Proof. unfold EqDecision, Decision. decide equality; decide equality. Defined.

Record storage_instance := StorageInstance {
  initialization_error : string;
  shutdown_error : string;
  instance_initialized : bool;
}.

Section Lifecycle.
Context (threads : list thread_call -> thread_call -> Z * (storage_instance -> storage_instance)) (strerror : Z -> string).

Definition state : Type := storage_instance * list thread_call.

(** A call: its error and the new state; [Calloc] answers an address or zero. *)
Definition perform (c : thread_call) (s : state) : Z * state :=
  let '(i, past) := s in
  let '(error, meanwhile) := threads past c in
  (error, (meanwhile i, past ++ [c])).
Definition set_initialization_error (message : string) (s : state) : state :=
  (StorageInstance message (shutdown_error (fst s)) (instance_initialized (fst s)), snd s).
Definition set_shutdown_error (message : string) (s : state) : state :=
  (StorageInstance (initialization_error (fst s)) message (instance_initialized (fst s)), snd s).

(** [if (error = c) { storage_instance...error = strerror(error); return false; }],
    then the rest. *)
Definition checked (set_error : string -> state -> state) (c : thread_call) (s : state) (rest : state -> outcome (bool * state))
    : outcome (bool * state) :=
  let '(error, s) := perform c s in
  if negb (error =? 0) then Done (false, set_error (strerror error) s) else rest s.

(** The loops until the flag has the awaited value. *)
Fixpoint await (fuel : nat) (set_error : string -> state -> state) (c : pair) (awaited : bool) (s : state)
    (rest : state -> outcome (bool * state)) : outcome (bool * state) :=
  if Bool.eqb (instance_initialized (fst s)) awaited then rest s else
  match fuel with
  | O => Spins
  | S fuel => checked set_error (Cond_timedwait c) s (fun s => await fuel set_error c awaited s rest)
  end.

Definition ENOMEM : Z := 12.

Definition storage_initialize (fuel : nat) (s : state) : outcome (bool * state) :=
  if instance_initialized (fst s) then Done (true, s) else
  let s := set_initialization_error "" s in
  let '(args, s) := perform Calloc s in
  if args =? 0 then Done (false, set_initialization_error (strerror ENOMEM) s) else
  let checked := checked set_initialization_error in
  checked Pthread_create s (fun s =>
  checked (Mutex_lock Initialization) s (fun s =>
  await fuel set_initialization_error Initialization true s (fun s =>
  checked (Mutex_unlock Initialization) s (fun s =>
  checked (Cond_destroy Initialization) s (fun s =>
  checked (Mutex_destroy Initialization) s (fun s =>
  Done (String.eqb (initialization_error (fst s)) "", s))))))).

Definition storage_shutdown (fuel : nat) (s : state) : outcome (bool * state) :=
  if negb (instance_initialized (fst s)) then Done (true, s) else
  let '(_, s) := perform Executor_stop s in
  let checked := checked set_shutdown_error in
  checked (Mutex_lock Shutdown) s (fun s =>
  await fuel set_shutdown_error Shutdown false s (fun s =>
  checked (Mutex_unlock Shutdown) s (fun s =>
  checked (Cond_destroy Shutdown) s (fun s =>
  checked (Mutex_destroy Shutdown) s (fun s => Done (true, s)))))).

(** The thread of the database and its fiber.  An error is stored after the
    executor is destroyed, in the fiber; the call answers are the error numbers, for
    [box_on_shutdown] the value of [errno]. *)
Definition call (c : thread_call) (s : state) : state := snd (perform c s).
Definition set_instance_initialized (b : bool) (s : state) : state :=
  (StorageInstance (initialization_error (fst s)) (shutdown_error (fst s)) b, snd s).
Definition unless_error (c : thread_call) (s : state) (fail : Z -> state -> state) (rest : state -> state) : state :=
  let '(error, s) := perform c s in if negb (error =? 0) then fail error s else rest s.
Definition fiber_fails (undo : state -> state) (error : Z) (s : state) : state :=
  set_initialization_error (strerror error) (undo (call Executor_destroy s)).

Definition storage_fiber (s : state) : state :=
  unless_error Executor_initialize s (fiber_fails id) (fun s =>
  unless_error (Mutex_lock Initialization) s (fiber_fails id) (fun s =>
  let s := set_instance_initialized true s in
  unless_error (Cond_broadcast Initialization) s (fiber_fails (set_instance_initialized false)) (fun s =>
  unless_error (Mutex_unlock Initialization) s (fiber_fails (set_instance_initialized false)) (fun s =>
  call Ev_break (call Executor_destroy (call Destroy_box (call Executor_start (call Initialize_box s)))))))).

(** [Ev_run] runs the fiber. *)
Definition storage_process_initialization (s : state) : state :=
  let s := call Launcher_launch s in
  unless_error Run_script s (fun _ => set_initialization_error "STORAGE_LUA_ERROR") (fun s =>
  unless_error Box_on_shutdown s (fun errno => set_initialization_error (strerror errno)) (fun s =>
  let s := call Ev_run (storage_fiber (call Fiber_start s)) in
  if instance_initialized (fst s) then
    unless_error (Mutex_lock Shutdown) s (fun error => set_shutdown_error (strerror error)) (fun s =>
    let s := set_instance_initialized false (call Launcher_shutdown s) in
    unless_error (Cond_broadcast Shutdown) s (fun error => set_shutdown_error (strerror error)) (fun s =>
    unless_error (Mutex_unlock Shutdown) s (fun error => set_shutdown_error (strerror error)) (fun s =>
    call Free s)))
  else call Free s)).

(** The trigger the database runs on its shutdown. *)
Definition storage_shutdown_trigger (s : state) : state := call Ev_break (call Executor_stop s).

Definition storage_initialized (s : state) : bool := instance_initialized (fst s).
Definition storage_initialization_error (s : state) : string := initialization_error (fst s).
Definition storage_shutdown_error (s : state) : string := shutdown_error (fst s).

(** *** Properties *)

Definition code_of (s : state) (c : thread_call) : Z := fst (threads (snd s) c).

Lemma checked_cases set_error c s rest r s' : (forall m s, snd (set_error m s) = snd s) ->
  checked set_error c s rest = Done (r, s') ->
  (r = false /\ code_of s c <> 0 /\ snd s' = snd s ++ [c] /\ exists s1, s' = set_error (strerror (code_of s c)) s1) \/
  (exists s1, code_of s c = 0 /\ snd s1 = snd s ++ [c] /\ rest s1 = Done (r, s')).
Proof.
  intros Hs. unfold checked, perform, code_of. destruct s as [i past]. destruct (threads past c) as [code f] eqn:E. cbn [snd].
  rewrite E. cbn [fst]. destruct (Z.eqb_spec code 0); cbn [negb]; intros R.
  - right. eexists. split; [done|]. split; [|exact R]. done.
  - left. simplify_eq. rewrite Hs. split_and!; [done..|by eexists].
Qed.

Lemma await_cases fuel set_error c awaited s rest r s' : (forall m s, snd (set_error m s) = snd s) ->
  await fuel set_error c awaited s rest = Done (r, s') ->
  (exists waits s1, snd s1 = snd s ++ replicate waits (Cond_timedwait c) /\ instance_initialized (fst s1) = awaited /\ rest s1 = Done (r, s')) \/
  (exists waits s1 code, r = false /\ snd s' = snd s ++ replicate (S waits) (Cond_timedwait c) /\ code <> 0 /\
     s' = set_error (strerror code) s1).
Proof.
  intros Hs. revert s. induction fuel as [|fuel IH]; intros s; cbn [await]; destruct (Bool.eqb _ _) eqn:E; intros R; try done;
    try (left; exists O, s; cbn [replicate]; rewrite app_nil_r; apply Bool.eqb_prop in E; eauto; fail).
  apply checked_cases in R as [(-> & N & P & s1 & ->)|(s1 & Z0 & P & R)]; [|..|done].
  - right. exists O, s1. eauto.
  - apply IH in R as [(w & s2 & Q & A & R)|(w & s2 & code & -> & Q & N & ->)].
    + left. exists (S w), s2. rewrite Q, P, <- app_assoc. eauto.
    + right. exists (S w), s2, code. rewrite Q, P, <- app_assoc. eauto.
Qed.

Lemma set_initialization_calls m s : snd (set_initialization_error m s) = snd s.
Proof. done. Qed.
Lemma set_shutdown_calls m s : snd (set_shutdown_error m s) = snd s.
Proof. done. Qed.

(** The calls of a start that gets through. *)
Definition start_calls (waits : nat) : list thread_call :=
  [Calloc; Pthread_create; Mutex_lock Initialization] ++ replicate waits (Cond_timedwait Initialization) ++
  [Mutex_unlock Initialization; Cond_destroy Initialization; Mutex_destroy Initialization].
Definition stop_calls (waits : nat) : list thread_call :=
  [Executor_stop; Mutex_lock Shutdown] ++ replicate waits (Cond_timedwait Shutdown) ++
  [Mutex_unlock Shutdown; Cond_destroy Shutdown; Mutex_destroy Shutdown].

(** The calls of a fiber that serves its clients. *)
Definition fiber_calls : list thread_call :=
  [Executor_initialize; Mutex_lock Initialization; Cond_broadcast Initialization; Mutex_unlock Initialization;
   Initialize_box; Executor_start; Destroy_box; Executor_destroy; Ev_break].

Lemma unless_error_cases c s fail rest (P : state -> Prop) :
  (forall s1, snd s1 = snd s ++ [c] -> code_of s c = 0 -> P (rest s1)) ->
  (forall s1, snd s1 = snd s ++ [c] -> code_of s c <> 0 -> P (fail (code_of s c) s1)) ->
  P (unless_error c s fail rest).
Proof.
  unfold unless_error, perform, code_of. destruct s as [i past]. cbn [snd]. intros R F.
  destruct (threads past c) as [code f]. cbn [fst] in *. destruct (Z.eqb_spec code 0); cbn [negb]; auto.
Qed.
Lemma call_calls c s : snd (call c s) = snd s ++ [c].
Proof. unfold call, perform. destruct s as [i past]. by destruct (threads past c). Qed.

(** How many times a mutex is locked more often than unlocked. *)
Definition held (m : pair) (l : list thread_call) : Z :=
  Z.of_nat (count_occ thread_call_eq_dec l (Mutex_lock m)) - Z.of_nat (count_occ thread_call_eq_dec l (Mutex_unlock m)).
End Lifecycle.

(** ** Payloads of encoded values *)

Definition kind (v : value) : mp_type :=
  match v with
  | Nil => MP_NIL | Bool _ => MP_BOOL | Uint _ => MP_UINT | Int _ => MP_INT | Float _ => MP_FLOAT | Double _ => MP_DOUBLE
  | Str _ => MP_STR | Bin _ => MP_BIN | Array _ => MP_ARRAY | Map _ => MP_MAP | Ext _ _ => MP_EXT
  end.

Section Payload.
Context {H : Hints} {HD : Documented_hints H} (double_of_float : Z -> Z).

Definition first_of_type (t : mp_type) (bytes : list Z) : Prop :=
  exists c rest, bytes = c :: rest /\ byte_range c /\ documented_type c = t.

Lemma first_tag (h : Z) rest t : byte_range h -> documented_type h = t -> first_of_type t (mp_store_u8 h ++ rest).
Proof. intros Hh <-. exists h, rest. unfold mp_store_u8. rewrite wrap_small by exact Hh. done. Qed.
Lemma first_fixed (f : Z -> Z) n a rest t : forallb (fun i => bool_decide (documented_type (u8 (f i)) = t)) (seqZ 0 n) = true ->
  0 <= a < n -> first_of_type t (mp_store_u8 (f a) ++ rest).
Proof.
  intros F Ha. pose proof (fixed_byte _ n a F Ha) as T. cbn beta in T. apply bool_decide_eq_true in T.
  exists (u8 (f a)), rest. split_and!; [done|apply (wrap_bound 8); lia|done].
Qed.
Lemma first_app t bytes rest : first_of_type t bytes -> first_of_type t (bytes ++ rest).
Proof. intros (c & r & -> & ? & ?). exists c, (r ++ rest). done. Qed.
Lemma first_alone t h : first_of_type t (mp_store_u8 h ++ []) -> first_of_type t (mp_store_u8 h).
Proof. by rewrite app_nil_r. Qed.

Ltac tagged_first := try apply first_alone; apply first_tag; [by vm_compute|reflexivity].

Lemma encode_first v : sized v -> first_of_type (kind v) (encode v).
Proof.
  destruct v; cbn [sized kind encode]; intros S.
  - unfold mp_encode_nil. tagged_first.
  - unfold mp_encode_bool. destruct b; tagged_first.
  - unfold mp_encode_uint. destruct (Z.leb_spec n 0x7f).
    + apply first_alone, (first_fixed id 128); [vm_compute; reflexivity|rewrite ?wrap_small by (pow2_norm; lia); lia].
    + repeat case_match; tagged_first.
  - unfold int_bytes, mp_encode_int. destruct (Z.ltb_spec n 0); [|lia]. cbn [negb]. destruct (Z.leb_spec (-0x20) n).
    + destruct (negative_byte n) as [F _]; [lia|]. exists (256 + n), []. unfold mp_store_u8. rewrite F.
      split_and!; [done|unfold byte_range; lia|]. pose proof (fixed_byte (fun i => bool_decide (documented_type (224 + i) = MP_INT)) 32
        (n + 32)) as D. specialize (D ltac:(vm_compute; reflexivity) ltac:(lia)). cbn beta in D. apply bool_decide_eq_true in D.
      by replace (224 + (n + 32)) with (256 + n) in D by lia.
    + repeat case_match; tagged_first.
  - unfold mp_encode_float. tagged_first.
  - unfold mp_encode_double. tagged_first.
  - apply first_app. unfold mp_encode_strl. destruct (Z.leb_spec (Z.of_nat (length s)) 31).
    + apply first_alone, (first_fixed (Z.lor 0xa0) 32); [vm_compute; reflexivity|rewrite ?wrap_small by (pow2_norm; lia); lia].
    + repeat case_match; tagged_first.
  - apply first_app. unfold mp_encode_binl. repeat case_match; tagged_first.
  - apply first_app. unfold mp_encode_array. destruct (Z.leb_spec (Z.of_nat (length l)) 15).
    + apply first_alone, (first_fixed (Z.lor 0x90) 16); [vm_compute; reflexivity|rewrite ?wrap_small by (pow2_norm; lia); lia].
    + repeat case_match; tagged_first.
  - apply first_app. unfold mp_encode_map. destruct (Z.leb_spec (Z.of_nat (length l)) 15).
    + apply first_alone, (first_fixed (Z.lor 0x80) 16); [vm_compute; reflexivity|rewrite ?wrap_small by (pow2_norm; lia); lia].
    + repeat case_match; tagged_first.
  - apply first_app. unfold mp_encode_extl. rewrite fixed_ext_lengths by lia. destruct (power_length _) eqn:F.
    + destruct (power_length_shift _ F) as (k & Hk & E & D). rewrite ext_hint_documented, D
        by (rewrite E, Z.shiftl_mul_pow2 by lia; assert (0 < 2 ^ k <= 2 ^ 4) by (split; [lia|apply Z.pow_le_mono_r; lia]); lia).
      apply (first_fixed (Z.add 0xd4) 5); [vm_compute; reflexivity|rewrite ?wrap_small by (pow2_norm; lia); lia].
    + repeat case_match; tagged_first.
Qed.

(** What one field of the payload becomes. *)
Definition field_set (e : event) (name : string) (v : value) : outcome event :=
  match v with
  | Uint n => event_set_field e name (Unsigned n)
  | Int n => event_set_field e name (Signed n)
  | Bool b => event_set_field e name (Boolean b)
  | Float b => event_set_field e name (Events.Double (double_of_float b))
  | Double b => event_set_field e name (Events.Double b)
  | _ => Done e
  end.

Ltac decoded D := let R := fresh in pose proof D as R; change (Z.of_nat (length [])) with 0 in R; cbn [app] in R;
  rewrite R, bind_done; clear R.
Lemma convert_field_value e name v post : sized v ->
  convert_field double_of_float e (Some (ErrorField name (encode v ++ post)))
  = match v with Str _ => Faults | v => field_set e name v end.
Proof.
  intros S. destruct (encode_first v S) as (c & rest & E & Hc & T). unfold convert_field. cbn [demand ef_data ef_name].
  assert (L : mp_load_u8 (encode v ++ post) 0 = Done (c, 1)) by (rewrite E; exact (load_head c [] rest post)).
  rewrite bind_done. cbv zeta. cbn [ef_data ef_name]. rewrite L, bind_done. unfold mp_typeof. rewrite type_hint_documented, T by exact Hc. clear T c rest E Hc L.
  destruct v; cbn [kind field_set]; try done; cbn [encode sized] in *.
  - decoded (decode_bool_encode b [] post). done.
  - decoded (decode_uint_encode n [] post S). unfold event_set_unsigned, event_field_set_unsigned. by rewrite wrap_small by lia.
  - assert (E : mp_encode_int n = Done (int_bytes n)).
    { unfold int_bytes, mp_encode_int. by rewrite (proj2 (Z.ltb_lt n 0)) by lia. }
    destruct (decode_int_encode n [] post (int_bytes n) ltac:(lia) E) as (size & _ & D). decoded D.
    unfold event_set_signed, event_field_set_signed. by rewrite swrap_small by lia.
  - decoded (decode_float_encode bits [] post S). done.
  - decoded (decode_double_encode bits [] post S). done.
Qed.
End Payload.

(** ** Theorems *)

(** *** The trace of a start

    What the calls of a trace answer, in their order: whether they succeed, and the
    instance after what the other threads did to it meanwhile. *)
Section Start.
Context (threads : list thread_call -> thread_call -> Z * (storage_instance -> storage_instance)) (strerror : Z -> string).

Definition answer (past : list thread_call) (c : thread_call) : Z := fst (threads past c).
Definition succeeds (past : list thread_call) (c : thread_call) : bool :=
  match c with Calloc => negb (answer past c =? 0) | _ => answer past c =? 0 end.
Fixpoint succeed (past made : list thread_call) : bool :=
  match made with [] => true | c :: made => succeeds past c && succeed (past ++ [c]) made end.
Fixpoint after (past made : list thread_call) (i : storage_instance) : storage_instance :=
  match made with [] => i | c :: made => after (past ++ [c]) made (snd (threads past c) i) end.

(** The message a failing call leaves. *)
Definition failure (past : list thread_call) (c : thread_call) : string :=
  match c with Calloc => strerror ENOMEM | _ => strerror (answer past c) end.

(** The calls up to a number of waits. *)
Definition waiting (waits : nat) : list thread_call :=
  [Calloc; Pthread_create; Mutex_lock Initialization] ++ replicate waits (Cond_timedwait Initialization).

Context (i : storage_instance) (past : list thread_call).
Definition cleared : storage_instance := StorageInstance "" (shutdown_error i) (instance_initialized i).
Definition flag (waits : nat) : bool := instance_initialized (after past (waiting waits) cleared).
Definition at_trace (made : list thread_call) : state := (after past made cleared, past ++ made).

(** How a start can end, after [fuel] waits at most. *)
Inductive start_ends (fuel : nat) : outcome (bool * state) -> Prop :=
| start_through waits :
    (forall k, (k < waits)%nat -> flag k = false) -> flag waits = true -> succeed past (start_calls waits) = true ->
    start_ends fuel (Done (String.eqb (initialization_error (after past (start_calls waits) cleared)) "", at_trace (start_calls waits)))
| start_fails waits before c :
    (forall k, (k < waits)%nat -> flag k = false) -> before ++ [c] `prefix_of` start_calls waits ->
    succeed past before = true -> succeeds (past ++ before) c = false ->
    (c = Cond_timedwait Initialization -> held Initialization (before ++ [c]) = 1) ->
    start_ends fuel (Done (false, set_initialization_error (failure (past ++ before) c) (at_trace (before ++ [c]))))
| start_waits : (forall k, (k <= fuel)%nat -> flag k = false) -> succeed past (waiting fuel) = true -> start_ends fuel Spins.

Lemma after_snoc made c : forall past i, after past (made ++ [c]) i = snd (threads (past ++ made) c) (after past made i).
Proof.
  induction made as [|d made IH]; intros p j; cbn [app after]; [by rewrite app_nil_r|]. rewrite IH. by rewrite <- app_assoc.
Qed.
Lemma succeed_snoc made c : forall past, succeed past (made ++ [c]) = succeed past made && succeeds (past ++ made) c.
Proof.
  induction made as [|d made IH]; intros p; cbn [app succeed]; [by rewrite app_nil_r, andb_true_r|].
  rewrite IH, <- app_assoc, andb_assoc. done.
Qed.

Lemma perform_at made c : perform threads c (at_trace made) = (answer (past ++ made) c, at_trace (made ++ [c])).
Proof.
  unfold perform, at_trace, answer. rewrite after_snoc, app_assoc. by destruct (threads (past ++ made) c).
Qed.

(** One checked call: it fails, or the rest follows. *)
Lemma checked_ends fuel waits made c rest :
  c <> Calloc -> (forall k, (k < waits)%nat -> flag k = false) -> made ++ [c] `prefix_of` start_calls waits ->
  (c = Cond_timedwait Initialization -> held Initialization (made ++ [c]) = 1) ->
  succeed past made = true -> (succeed past (made ++ [c]) = true -> start_ends fuel (rest (at_trace (made ++ [c])))) ->
  start_ends fuel (checked threads strerror set_initialization_error c (at_trace made) rest).
Proof.
  intros Hc Hf Hp Hh Hm Hr. unfold checked. rewrite perform_at. rewrite succeed_snoc, Hm in Hr. cbn [andb] in Hr.
  assert (S : succeeds (past ++ made) c = (answer (past ++ made) c =? 0)) by (by destruct c).
  destruct (answer (past ++ made) c =? 0) eqn:E; cbn [negb]; [by apply Hr|].
  assert (F : failure (past ++ made) c = strerror (answer (past ++ made) c)) by (by destruct c). rewrite <- F.
  by apply (start_fails fuel waits).
Qed.

Lemma waiting_S w : waiting (S w) = waiting w ++ [Cond_timedwait Initialization].
Proof. unfold waiting. by rewrite replicate_S_end, app_assoc. Qed.
Lemma waiting_prefix w : waiting w `prefix_of` start_calls w.
Proof. unfold waiting, start_calls. rewrite app_assoc. by eexists. Qed.
Lemma waiting_held w : held Initialization (waiting w) = 1.
Proof.
  unfold held, waiting. rewrite !count_occ_app. cbn.
  assert (R : forall c, c <> Cond_timedwait Initialization -> count_occ thread_call_eq_dec (replicate w (Cond_timedwait Initialization)) c = O).
  { intros c Hc. apply count_occ_not_In. intros Hin%list_elem_of_In%elem_of_replicate. by destruct Hin. }
  by rewrite !R.
Qed.

Lemma await_ends total rest : forall fuel w, (w + fuel = total)%nat ->
  (forall k, (k < w)%nat -> flag k = false) -> succeed past (waiting w) = true ->
  (forall w', (forall k, (k < w')%nat -> flag k = false) -> flag w' = true -> succeed past (waiting w') = true ->
     start_ends total (rest (at_trace (waiting w')))) ->
  start_ends total (await threads strerror fuel set_initialization_error Initialization true (at_trace (waiting w)) rest).
Proof.
  assert (More : forall w, (forall k, (k < w)%nat -> flag k = false) -> flag w = false -> forall k, (k < S w)%nat -> flag k = false).
  { intros w Hf Ef k Hk. destruct (Nat.eq_dec k w) as [->|]; [done|apply Hf; lia]. }
  induction fuel as [|fuel IH]; intros w Hw Hf Hs Hr; cbn [await]; change (instance_initialized (fst (at_trace (waiting w)))) with (flag w);
    destruct (flag w) eqn:Ef; cbn [Bool.eqb]; try (by apply Hr).
  - apply start_waits; [|by replace total with w by lia]. intros k Hk. apply (More w Hf Ef). lia.
  - apply (checked_ends total (S w)); try done; [by apply More|rewrite <- waiting_S; apply waiting_prefix|intros _; rewrite <- waiting_S; apply waiting_held|].
    rewrite <- waiting_S. intros Hs'. apply IH; [lia|by apply More|done|done].
Qed.
End Start.

(** C35: A start makes its calls in order, up to the first that fails, and gives its
    answer and its error.  When the storage was started before, it answers true and
    makes no call.  Otherwise one of three things happens ([start_ends]), [flag k]
    being whether the storage is started after [k] waits.  Every call succeeds: then
    there were as many waits as it took to find the storage started, and the answer
    is whether the threads left no message meanwhile.  Or a call fails, all before it
    having succeeded: then it is the last, the answer is false, and the error is the
    one of the code that call answered (of [ENOMEM] for the allocation); when it is
    the wait for the thread, by the time limit for instance, the mutex stays locked.
    Or, within the [fuel], the waits all succeed without the storage being started. *)
Theorem storage_initialize_outcome threads strerror fuel i past :
  if instance_initialized i
  then storage_initialize threads strerror fuel (i, past) = Done (true, (i, past))
  else start_ends threads strerror i past fuel (storage_initialize threads strerror fuel (i, past)).
Proof.
  unfold storage_initialize. cbn [fst]. destruct (instance_initialized i) eqn:Hi; [done|].
  assert (E0 : set_initialization_error "" (i, past) = at_trace threads i past []).
  { unfold set_initialization_error, at_trace, cleared. cbn [fst snd after]. by rewrite app_nil_r. }
  rewrite E0, perform_at. cbv zeta. cbn [app]. unfold answer. rewrite app_nil_r.
  destruct (fst (threads past Calloc) =? 0) eqn:Ec.
  { pose proof (start_fails threads strerror i past fuel 0 [] Calloc) as F. cbn [app] in F. rewrite app_nil_r in F.
    apply F; [lia|by eexists|done|unfold succeeds, answer; by rewrite Ec|done]. }
  assert (S0 : succeed threads past [Calloc] = true) by (cbn; unfold answer; by rewrite Ec).
  assert (N0 : forall k, (k < 0)%nat -> flag threads i past k = false) by lia.
  apply (checked_ends _ _ _ _ _ 0); [done|done|by eexists|done|done|intros S1; cbn [app] in *].
  apply (checked_ends _ _ _ _ _ 0); [done|done|by eexists|done|done|intros S2; cbn [app] in *].
  change [Calloc; Pthread_create; Mutex_lock Initialization] with (waiting 0) in *.
  apply await_ends; try done. intros w Hf Ew Sw.
  assert (P : forall l, l `prefix_of` [Mutex_unlock Initialization; Cond_destroy Initialization; Mutex_destroy Initialization] ->
    waiting w ++ l `prefix_of` start_calls w).
  { intros l Hl. unfold waiting, start_calls. rewrite <- !app_assoc. by repeat apply prefix_app. }
  apply (checked_ends _ _ _ _ _ w); [done|done|apply P; by eexists|done|done|intros S3].
  apply (checked_ends _ _ _ _ _ w); [done|done|rewrite <- app_assoc; apply P; by eexists|done|done|intros S4].
  apply (checked_ends _ _ _ _ _ w); [done|done|rewrite <- !app_assoc; apply P; by eexists|done|done|intros S5].
  assert (Es : ((waiting w ++ [Mutex_unlock Initialization]) ++ [Cond_destroy Initialization]) ++ [Mutex_destroy Initialization] = start_calls w).
  { unfold waiting, start_calls. by rewrite <- !app_assoc. }
  rewrite Es in *. by apply start_through.
Qed.

Lemma initialize_calls threads strerror fuel i past s' : instance_initialized i = false ->
  storage_initialize threads strerror fuel (i, past) = Done (true, s') -> exists waits, snd s' = past ++ start_calls waits.
Proof.
  intros Hi E. unfold storage_initialize in E. cbn [fst] in E. rewrite Hi in E.
  unfold perform at 1, set_initialization_error at 1 in E. cbn [snd fst] in E.
  destruct (threads past Calloc) as [args f]. destruct (args =? 0); [done|].
  apply checked_cases in E as [(? & _)|(s1 & _ & P1 & E)]; [done|..|done].
  apply checked_cases in E as [(? & _)|(s2 & _ & P2 & E)]; [done|..|done].
  apply await_cases in E as [(w & s3 & P3 & _ & E)|(? & ? & ? & ? & _)]; [|done..].
  apply checked_cases in E as [(? & _)|(s4 & _ & P4 & E)]; [done|..|done].
  apply checked_cases in E as [(? & _)|(s5 & _ & P5 & E)]; [done|..|done].
  apply checked_cases in E as [(? & _)|(s6 & _ & P6 & E)]; [done|..|done].
  exists w. simplify_eq. rewrite P6, P5, P4, P3, P2, P1. unfold start_calls. cbn [snd]. rewrite <- !app_assoc. cbn. by rewrite <- ?app_assoc.
Qed.

Lemma shutdown_calls threads strerror fuel i past s' : instance_initialized i = true ->
  storage_shutdown threads strerror fuel (i, past) = Done (true, s') -> exists waits, snd s' = past ++ stop_calls waits.
Proof.
  intros Hi E. unfold storage_shutdown in E. cbn [fst] in E. rewrite Hi in E. cbn [negb] in E.
  unfold perform at 1 in E. destruct (threads past Executor_stop) as [args f].
  apply checked_cases in E as [(? & _)|(s2 & _ & P2 & E)]; [done|..|done].
  apply await_cases in E as [(w & s3 & P3 & _ & E)|(? & ? & ? & ? & _)]; [|done..].
  apply checked_cases in E as [(? & _)|(s4 & _ & P4 & E)]; [done|..|done].
  apply checked_cases in E as [(? & _)|(s5 & _ & P5 & E)]; [done|..|done].
  apply checked_cases in E as [(? & _)|(s6 & _ & P6 & E)]; [done|..|done].
  exists w. simplify_eq. rewrite P6, P5, P4, P3, P2. unfold stop_calls. cbn [snd]. rewrite <- !app_assoc. cbn. by rewrite <- ?app_assoc.
Qed.

(** The threads of the examples: the allocation answers an address, the wait for the
    start finds the storage started, the wait for the stop finds it stopped, and
    every call succeeds. *)
Definition set_initialized (b : bool) (i : storage_instance) : storage_instance :=
  StorageInstance (initialization_error i) (shutdown_error i) b.
Definition good_threads (past : list thread_call) (c : thread_call) : Z * (storage_instance -> storage_instance) :=
  match c with
  | Calloc => (1, id)
  | Cond_timedwait Initialization => (0, set_initialized true)
  | Cond_timedwait Shutdown => (0, set_initialized false)
  | _ => (0, id)
  end.
(** Here the thread never starts the storage. *)
Definition ETIMEDOUT : Z := 110.
Definition late_threads (past : list thread_call) (c : thread_call) : Z * (storage_instance -> storage_instance) :=
  match c with Calloc => (1, id) | Cond_timedwait _ => (ETIMEDOUT, id) | _ => (0, id) end.
Definition late_strerror (code : Z) : string := (if (code =? ETIMEDOUT)%Z then "timed out" else "other")%string.
Definition fresh_instance : storage_instance := StorageInstance "" "" false.

(** The start that runs out of time reports it and leaves the mutex locked; one that
    is told in time gets through. *)
Lemma storage_initialize_outcome_witness :
  (exists s', storage_initialize late_threads late_strerror 3 (fresh_instance, []) = Done (false, s') /\
    initialization_error (fst s') = "timed out"%string /\ held Initialization (snd s') = 1 /\
    start_ends late_threads late_strerror fresh_instance [] 3 (Done (false, s'))) /\
  start_ends good_threads (fun _ => ""%string) fresh_instance [] 3 (Done (true, (set_initialized true fresh_instance, start_calls 1))).
Proof.
  split.
  - eexists. split; [vm_compute; reflexivity|]. split; [reflexivity|]. split; [reflexivity|].
    exact (storage_initialize_outcome late_threads late_strerror 3 fresh_instance []).
  - exact (storage_initialize_outcome good_threads (fun _ => ""%string) 3 fresh_instance []).
Defined.

(** What is destroyed when the storage has started is not made again: a storage
    started, stopped and started once more locks a mutex, and waits on a condition,
    that its first start destroyed. *)
Theorem storage_restart_uses_destroyed threads strerror fuel i past s1 s2 s3
  (Hi : instance_initialized i = false)
  (E1 : storage_initialize threads strerror fuel (i, past) = Done (true, s1))
  (H1 : instance_initialized (fst s1) = true)
  (E2 : storage_shutdown threads strerror fuel s1 = Done (true, s2))
  (H2 : instance_initialized (fst s2) = false)
  (E3 : storage_initialize threads strerror fuel s2 = Done (true, s3)) :
  exists first second again, snd s3 = past ++ start_calls first ++ stop_calls second ++ start_calls again /\
    exists before between after, snd s3 = before ++ Mutex_destroy Initialization :: between ++ Mutex_lock Initialization :: after /\
      held Initialization between = 0.
Proof.
  destruct s1 as [i1 p1], s2 as [i2 p2]. cbn [fst] in *.
  destruct (initialize_calls _ _ _ _ _ _ Hi E1) as [a A], (shutdown_calls _ _ _ _ _ _ H1 E2) as [b B],
    (initialize_calls _ _ _ _ _ _ H2 E3) as [c C]. cbn [snd] in *. subst p1 p2.
  exists a, b, c. split; [by rewrite C, <- !app_assoc|].
  exists (past ++ [Calloc; Pthread_create; Mutex_lock Initialization] ++ replicate a (Cond_timedwait Initialization) ++
    [Mutex_unlock Initialization; Cond_destroy Initialization]), (stop_calls b ++ [Calloc; Pthread_create]),
    (replicate c (Cond_timedwait Initialization) ++ [Mutex_unlock Initialization; Cond_destroy Initialization; Mutex_destroy Initialization]).
  split; [rewrite C; unfold start_calls; rewrite <- !app_assoc; cbn; by rewrite <- ?app_assoc|].
  unfold held, stop_calls. rewrite !count_occ_app. cbn.
  assert (forall x, x <> Cond_timedwait Shutdown -> count_occ thread_call_eq_dec (replicate b (Cond_timedwait Shutdown)) x = O) as R.
  { intros x Hx. apply count_occ_not_In. intros Hin%list_elem_of_In%elem_of_replicate. by destruct Hin. }
  by rewrite !R.
Qed.

Lemma storage_restart_uses_destroyed_witness :
  exists s1 s2 s3, storage_initialize good_threads (fun _ => ""%string) 3 (fresh_instance, []) = Done (true, s1) /\
    storage_shutdown good_threads (fun _ => ""%string) 3 s1 = Done (true, s2) /\
    storage_initialize good_threads (fun _ => ""%string) 3 s2 = Done (true, s3) /\
    exists before between after, snd s3 = before ++ Mutex_destroy Initialization :: between ++ Mutex_lock Initialization :: after /\
      held Initialization between = 0.
Proof.
  do 3 eexists. split; [vm_compute; reflexivity|]. split; [vm_compute; reflexivity|]. split; [vm_compute; reflexivity|].
  destruct (storage_restart_uses_destroyed good_threads (fun _ => ""%string) 3 fresh_instance [] _ _ _
    eq_refl ltac:(vm_compute; reflexivity) eq_refl ltac:(vm_compute; reflexivity) eq_refl ltac:(vm_compute; reflexivity))
    as (a & b & c & _ & R).
  exact R.
Defined.

(** The payload of the values with these names, each with other bytes after it. *)
Definition payload_of {H : Hints} (l : list (string * value * list Z)) : list (option error_field) :=
  map (fun '(name, v, post) => Some (ErrorField name (encode v ++ post))) l.
Fixpoint fields_set (double_of_float : Z -> Z) (e : event) (l : list (string * value * list Z)) : outcome event :=
  match l with
  | [] => Done e
  | (name, v, _) :: l => e ← field_set double_of_float e name v; fields_set double_of_float e l
  end.

(** An error of the database becomes an event at the place of the error, with its
    code, its message, and each number or boolean of its payload under the name it
    has there; the other values are left out.  But no error with a text in its
    payload, or with a null field, is converted. *)
Theorem storage_convert_error_fields {H : Hints} {HD : Documented_hints H} stack_trace p double_of_float err lvl l
  (S : Forall (fun '(_, v, _) => sized v) l) (P : error_payload err = payload_of l) :
  (Forall (fun '(_, v, _) => kind v <> MP_STR) l ->
     storage_convert_error stack_trace p double_of_float err lvl =
       (e ← fields_set double_of_float
              (Event (Some storage_name)
                 [EventField EVENT_FIELD_CODE (error_code err); EventField EVENT_FIELD_MESSAGE (String (error_message err))]
                 (place_function p) (error_file err) (error_line err) lvl (place_time p)) l;
        event_put_stack_trace stack_trace (Some e))) /\
  (Exists (fun '(_, v, _) => kind v = MP_STR) l -> forall e, storage_convert_error stack_trace p double_of_float err lvl <> Done e) /\
  (forall err', None ∈ error_payload err' -> forall e, storage_convert_error stack_trace p double_of_float err' lvl <> Done e).
Proof.
  assert (C : forall l e, Forall (fun '(_, v, _) => sized v) l -> Forall (fun '(_, v, _) => kind v <> MP_STR) l ->
    convert_fields double_of_float e (payload_of l) = fields_set double_of_float e l).
  { clear - HD. induction l as [|[[name v] post] l IH]; intros e S K; [done|].
    apply Forall_cons in S as [Sv S], K as [Kv K]. cbn [payload_of map convert_fields fields_set]. rewrite convert_field_value by done.
    destruct v; try done; cbn [field_set]; (destruct (event_set_field e name _) || idtac); cbn; auto. }
  assert (T : forall l e r, Forall (fun '(_, v, _) => sized v) l -> Exists (fun '(_, v, _) => kind v = MP_STR) l ->
    convert_fields double_of_float e (payload_of l) <> Done r).
  { clear - HD. intros l e r S X. revert e S. induction X as [[[name v] post] l K|[[name v] post] l X IH]; intros e [Sv S]%Forall_cons;
      cbn [payload_of map convert_fields]; rewrite convert_field_value by done.
    - by destruct v.
    - destruct (match v with Str _ => _ | _ => _ end) as [e'| | |]; try done. rewrite bind_done. by apply IH. }
  assert (N : forall l e r, None ∈ l -> convert_fields double_of_float e l <> Done r).
  { clear - HD. intros l e r X. revert e. remember None as x eqn:E. induction X as [x l|x y l X IH]; intros e; subst; cbn [convert_fields].
    - done.
    - destruct (convert_field _ _ y); try done. rewrite bind_done. by apply IH. }
  assert (B : forall a b, storage_event p lvl [a; b] =
    Done (Event (Some storage_name) [a; b] (place_function p) (place_file p) (place_line p) lvl (place_time p))) by done.
  unfold storage_convert_error. split_and!.
  - intros K. rewrite B, bind_done, P, C by done. done.
  - intros K e. rewrite B, bind_done, P. destruct (convert_fields _ _ _) eqn:E; try done. by apply T in E.
  - intros err' K e. rewrite B, bind_done. destruct (convert_fields _ _ _) eqn:E; try done. by apply N in E.
Qed.

Definition sample_error : error :=
  Error (Unsigned 7) "no space" "box.cc" 21 (payload_of (H := message_pack_hints) [("limit"%string, Uint 300, []); ("ro"%string, Bool true, [9])]).
Definition sample_place : place := Place "storage_convert_error" "storage.c" 380 (Timespec 5 6).

Lemma storage_convert_error_fields_witness :
  storage_convert_error (H := message_pack_hints) None sample_place id sample_error EVENT_LEVEL_ERROR =
    Done (Some (Event (Some storage_name)
      [EventField EVENT_FIELD_CODE (Unsigned 7); EventField EVENT_FIELD_MESSAGE (String "no space");
       EventField "limit" (Unsigned 300); EventField "ro" (Boolean true)] "storage_convert_error" "box.cc" 21 EVENT_LEVEL_ERROR (Timespec 5 6))).
Proof.
  destruct (storage_convert_error_fields (H := message_pack_hints) None sample_place id sample_error EVENT_LEVEL_ERROR
    [("limit"%string, Uint 300, []); ("ro"%string, Bool true, [9])]) as [E _].
  - repeat constructor; cbn; lia.
  - reflexivity.
  - rewrite E by (repeat constructor; cbn; congruence). vm_compute. reflexivity.
Defined.

(** The fiber of the executor either makes all its calls, serves and ends the event
    loop, or stops at its first failing call: then the executor is destroyed and the
    error stored, but the event loop is not ended, and unless the broadcast was made
    the thread that waits for the start is not told; past the lock the mutex is left
    locked. *)
Theorem storage_fiber_outcome threads strerror s :
  let s' := storage_fiber threads strerror s in
  snd s' = snd s ++ fiber_calls \/
  exists n code, (1 <= n <= 4)%nat /\ snd s' = snd s ++ take n fiber_calls ++ [Executor_destroy] /\
    code <> 0 /\ initialization_error (fst s') = strerror code /\
    ((3 <= n)%nat -> instance_initialized (fst s') = false /\ Mutex_lock Initialization ∈ take (n - 1) fiber_calls) /\
    Ev_break ∉ take n fiber_calls ++ [Executor_destroy] /\
    ((n < 3)%nat -> Cond_broadcast Initialization ∉ take n fiber_calls ++ [Executor_destroy]).
Proof.
  cbv zeta. pattern (storage_fiber threads strerror s). match goal with |- ?Q _ => set (P := Q) end. unfold storage_fiber.
  assert (F : forall n undo code s1, (1 <= n <= 4)%nat -> snd s1 = snd s ++ take n fiber_calls -> code <> 0 ->
    (forall s, snd (undo s) = snd s) -> ((3 <= n)%nat -> forall s, instance_initialized (fst (undo s)) = false) ->
    P (fiber_fails threads strerror undo code s1)).
  { intros n undo code s1 Hn E C U I. right. exists n, code. unfold fiber_fails, set_initialization_error.
    cbn [fst snd initialization_error instance_initialized]. rewrite U, call_calls, E, <- app_assoc.
    split_and!; try done; [lia|lia|intros; split; [by apply I|]| |]; destruct n as [|[|[|[|[|]]]]]; try lia; cbn; set_solver. }
  apply unless_error_cases; intros s1 E1 C1; [|apply (F 1%nat); try done; lia].
  apply unless_error_cases; intros s2 E2 C2; [|apply (F 2%nat); try done; [lia|by rewrite E2, E1, <- app_assoc|lia]].
  apply unless_error_cases; intros s3 E3 C3; cbn [snd set_instance_initialized] in E3;
    [|apply (F 3%nat); try done; [lia|by rewrite E3, E2, E1, <- !app_assoc]].
  apply unless_error_cases; intros s4 E4 C4; [|apply (F 4%nat); try done; [lia|by rewrite E4, E3, E2, E1, <- !app_assoc]].
  left. rewrite !call_calls, E4, E3, E2, E1, <- !app_assoc. done.
Qed.
