(* ===== verification/Exchange.v ===== *)
(** * Executors and the storage together

    Executors send tasks to the ring of the storage, the kernel delivers the
    messages one by one, the fiber of the storage answers them in rounds, and the
    kernel brings the answers back: in any order that respects each ring.  The steps
    are the operations of [Executor] and [StorageExecutor]; the kernel's delivery of
    [IORING_OP_MSG_RING] is the documented one, a completion on the ring the entry
    names, entries of one ring in their order. *)
From stdpp Require Import strings relations.
From S2P Require Import Prelude Events Uring Executor StorageExecutor.

Lemma filter_agree {A} (P Q : A -> Prop) `{!forall x, Decision (P x), !forall x, Decision (Q x)} (l : list A) :
  (forall x, x ∈ l -> P x <-> Q x) -> filter P l = filter Q l.
Proof.
  induction l as [|a l IH]; intros E; [done|]. rewrite !filter_cons. rewrite IH by set_solver.
  destruct (decide (P a)), (decide (Q a)); try done; exfalso; specialize (E a); set_solver.
Qed.

Lemma filter_all {A} (P : A -> Prop) `{!forall x, Decision (P x)} (l : list A) : (forall x, x ∈ l -> P x) -> filter P l = l.
Proof. induction l as [|a l IH]; intros F; [done|]. rewrite filter_cons_True by set_solver. f_equal. set_solver. Qed.
Lemma filter_none {A} (P : A -> Prop) `{!forall x, Decision (P x)} (l : list A) : (forall x, x ∈ l -> ~ P x) -> filter P l = [].
Proof. induction l as [|a l IH]; intros F; [done|]. rewrite filter_cons_False by set_solver. set_solver. Qed.

Section Exchange.
Context {R : Type} `{UringLaws R} {W : Type}.
Context (run : Z -> executor_task -> W -> outcome (executor_task * W)) (ring_full : event).

(** An executor, how many of its entries the kernel has delivered, the completions it
    got from the storage, and, for the statements only, the tasks it called. *)
Record client := Client {
  cl_executor : executor_instance (R := R);
  cl_delivered : nat;
  cl_answered : list Z;
  cl_called : list Z;
}.

(** The executors by their descriptor; the storage, how many of its entries the kernel
    has delivered, and the completions that are ready on its ring.  The tasks are
    those of the storage's state: the memory is shared. *)
Record exchange := Exchange {
  clients : gmap Z client;
  storage : storage_state (R := R) (W := W);
  st_delivered : nat;
  st_ready : list Z;
}.
Implicit Types (x : exchange) (c : client).

Definition storage_fd x : Z := st_descriptor (executor (storage x)).
Definition with_client x (d : Z) c : exchange := Exchange (<[d := c]> (clients x)) (storage x) (st_delivered x) (st_ready x).
Definition with_task x (at_ : Z) (task : executor_task) : exchange :=
  Exchange (clients x) (StorageState (executor (storage x)) (<[at_ := task]> (tasks (storage x))) (world (storage x)))
    (st_delivered x) (st_ready x).

(** What the entries of a list bring to the ring [fd]. *)
Definition brings (fd : Z) (e : io_uring_sqe) : option Z :=
  match sqe_operation e with Msg_ring f _ data => if f =? fd then Some data else None | _ => None end.
Definition brought (fd : Z) (l : list io_uring_sqe) : list Z := omap (brings fd) l.

(** The tasks of a client that did not reach the storage, and the answers on their way. *)
Definition on_the_way x c : list Z := brought (storage_fd x) (drop (cl_delivered c) (entries (ring (cl_executor c)))).
Definition answers_to x (d : Z) : list Z := brought d (drop (st_delivered x) (entries (ring_of (storage x)))).
Definition comes_from x (d : Z) (at_ : Z) : Prop := source <$> tasks (storage x) !! at_ = Some (u64 d).
#[global] Instance comes_from_dec x d at_ : Decision (comes_from x d at_).
Proof. unfold comes_from. apply _. Defined.
Definition ready_of x (d : Z) : list Z := filter (comes_from x d) (st_ready x).

(** A task that is on its way to the storage, or arrived there. *)
Definition busy x (at_ : Z) : Prop := at_ ∈ st_ready x \/ exists d c, clients x !! d = Some c /\ at_ ∈ on_the_way x c.

(** The other operations of an executor. *)
Definition op_local (op : executor_op) : Prop :=
  match op with Register _ | Unregister _ | Peek | Awake_begin | Awake_complete | Shutdown => True | _ => False end.

(** The two ways to call a task on the storage. *)
Inductive calls (fd at_ : Z) (e : executor_instance (R := R)) (task : executor_task) : executor_instance (R := R) -> executor_task -> Prop :=
| Calls_native e' task' : executor_call_native ring_full e fd at_ task = (0, None, e', task') -> calls fd at_ e task e' task'
| Calls_dart r' task' : state e <> EXECUTOR_STATE_IDLE ->
    executor_call_dart ring_full (ring e) (descriptor e) fd at_ task = (0, None, r', task') -> calls fd at_ e task (with_ring e r') task'.

Inductive exchange_step : exchange -> exchange -> Prop :=
| Step_call x d c at_ task e' task' :
    clients x !! d = Some c -> at_ <> 0 -> ~ busy x at_ -> tasks (storage x) !! at_ = Some task ->
    calls (storage_fd x) at_ (cl_executor c) task e' task' ->
    exchange_step x (with_client (with_task x at_ task') d (Client e' (cl_delivered c) (cl_answered c) (at_ :: cl_called c)))
| Step_local x d c op e' :
    clients x !! d = Some c -> op_local op -> run_op ring_full (cl_executor c) op = (0, e') ->
    exchange_step x (with_client x d (Client e' (cl_delivered c) (cl_answered c) (cl_called c)))
| Step_deliver x d c e :
    clients x !! d = Some c -> submitted (ring (cl_executor c)) !! cl_delivered c = Some e ->
    exchange_step x (let x' := with_client x d (Client (cl_executor c) (S (cl_delivered c)) (cl_answered c) (cl_called c)) in
            Exchange (clients x') (storage x') (st_delivered x') (st_ready x ++ brought (storage_fd x) [e]))
| Step_round x cqes rest go s' :
    st_ready x = cqes ++ rest -> storage_executor_round run (storage x) cqes = Done (go, s') ->
    exchange_step x (Exchange (clients x) s' (st_delivered x) (if (go : bool) then rest else cqes ++ rest))
| Step_answer x e :
    submitted (ring_of (storage x)) !! st_delivered x = Some e ->
    exchange_step x (Exchange
      (map_imap (fun d c => Some (Client (cl_executor c) (cl_delivered c) (cl_answered c ++ brought d [e]) (cl_called c))) (clients x))
      (storage x) (S (st_delivered x)) (st_ready x)).

(** A start: nothing was called and everything was delivered. *)
Record fresh x : Prop := {
  fr_client d c : clients x !! d = Some c ->
    executor_wf (cl_executor c) /\ descriptor (cl_executor c) = d /\ 0 <= d < 2 ^ 31 /\
    scheduler_descriptor (cl_executor c) <> storage_fd x /\
    prepared (ring (cl_executor c)) = [] /\ cl_delivered c = length (submitted (ring (cl_executor c))) /\
    cl_answered c = [] /\ cl_called c = [];
  fr_storage : prepared (ring_of (storage x)) = [] /\ st_delivered x = length (submitted (ring_of (storage x)));
  fr_ready : st_ready x = [];
}.

(** ** The invariant *)

Record client_ok x d c : Prop := {
  ok_wf : executor_wf (cl_executor c);
  ok_fd : descriptor (cl_executor c) = d;
  ok_range : 0 <= d < 2 ^ 31;
  ok_scheduler : scheduler_descriptor (cl_executor c) <> storage_fd x;
  ok_delivered : (cl_delivered c <= length (submitted (ring (cl_executor c))))%nat;
  ok_owned : Forall (fun at_ => at_ <> 0 /\ comes_from x d at_ /\ at_ ∉ st_ready x) (on_the_way x c);
  ok_once : NoDup (on_the_way x c);
  ok_count : cl_called c ≡ₚ cl_answered c ++ answers_to x d ++ ready_of x d ++ on_the_way x c;
}.
Record exchange_ok x : Prop := {
  ok_clients d c : clients x !! d = Some c -> client_ok x d c;
  ok_ready_once : NoDup (st_ready x);
  ok_ready : Forall (fun at_ => at_ <> 0 /\ exists d, is_Some (clients x !! d) /\ comes_from x d at_) (st_ready x);
  ok_storage : prepared (ring_of (storage x)) = [] /\ (st_delivered x <= length (submitted (ring_of (storage x))))%nat;
}.

Lemma brought_app fd l1 l2 : brought fd (l1 ++ l2) = brought fd l1 ++ brought fd l2.
Proof. apply omap_app. Qed.
Lemma brought_message fd fd' kind data : brought fd [message fd' kind data] = if fd' =? fd then [data] else [].
Proof. unfold brought, brings, message. cbn. by destruct (fd' =? fd). Qed.
Lemma submitted_entries (r : R) : (length (submitted r) <= length (entries r))%nat.
Proof. unfold entries. rewrite length_app. lia. Qed.
Lemma same_source x d1 d2 at_ : comes_from x d1 at_ -> comes_from x d2 at_ -> 0 <= d1 < 2 ^ 31 -> 0 <= d2 < 2 ^ 31 -> d1 = d2.
Proof. unfold comes_from. intros -> E ? ?. injection E as E. rewrite !wrap_small in E by (pow2_norm; lia). done. Qed.

Lemma fresh_ok x : fresh x -> exchange_ok x.
Proof.
  intros [Hc [Hp Hd] Hr]. split; [|rewrite Hr; constructor..|split; [done|lia]].
  intros d c E. destruct (Hc d c E) as (W1 & F & Rg & S & P & D & A & C).
  assert (O : on_the_way x c = []) by (unfold on_the_way, entries; by rewrite P, app_nil_r, D, drop_all).
  split; rewrite ?O; try done; [lia|constructor..|].
  unfold answers_to, ready_of, entries. by rewrite A, C, Hp, Hr, !app_nil_r, Hd, drop_all.
Qed.

(** *** Calls and other operations of an executor *)

(** An operation of a client that adds [l] to its entries. *)
Definition client_moves c c' (l : list io_uring_sqe) : Prop :=
  executor_wf (cl_executor c') /\ same_place (cl_executor c) (cl_executor c') /\
  entries (ring (cl_executor c')) = entries (ring (cl_executor c)) ++ l /\
  (length (submitted (ring (cl_executor c))) <= length (submitted (ring (cl_executor c'))))%nat /\
  cl_delivered c' = cl_delivered c /\ cl_answered c' = cl_answered c.

Lemma submitted_submit (r : R) : (length (submitted r) <= length (submitted (submit r)))%nat.
Proof. destruct (submit_spec r) as (_ & -> & _). rewrite length_app. lia. Qed.
Lemma submitted_write (r r' : R) e : get_sqe r = Some r' -> submitted (write_sqe r' e) = submitted r.
Proof. intros E. apply (get_sqe_write r r' e E). Qed.

Lemma calls_moves fd at_ e task e' task' : executor_wf e -> calls fd at_ e task e' task' ->
  executor_wf e' /\ same_place e e' /\ entries (ring e') = entries (ring e) ++ [message fd EXECUTOR_CALL at_] /\
  (length (submitted (ring e)) <= length (submitted (ring e')))%nat /\ source task' = u64 (descriptor e).
Proof.
  intros Wf [e1 task1 E1|r1 task1 I E1]; revert E1.
  - unfold executor_call_native. destruct (get_sqe (ring e)) as [r|] eqn:G; [|done]. intros [= <- <-].
    destruct (submit_wf e r Wf G (message fd EXECUTOR_CALL at_)) as (? & ? & _ & _). split_and!; try done.
    + unfold executor_submit. by case_match.
    + unfold executor_submit. case_match; cbn [ring with_ring]; [etrans; [|apply submitted_submit]|]; by rewrite (submitted_write _ _ _ G).
  - unfold executor_call_dart. destruct (get_sqe (ring e)) as [r|] eqn:G; [|done]. intros [= <- <-].
    cbn [ring with_ring]. split_and!; [split; [apply Wf|done]|done|by apply entries_write| |done]. by rewrite (submitted_write _ _ _ G).
Qed.

Lemma local_moves e op e' : executor_wf e -> op_local op -> run_op ring_full e op = (0, e') ->
  executor_wf e' /\ same_place e e' /\ entries (ring e') = entries (ring e) ++ op_message e op /\
  (length (submitted (ring e)) <= length (submitted (ring e')))%nat.
Proof.
  intros Wf L E. pose proof (run_op_wf ring_full e op Wf) as G. rewrite E in G. cbn [fst snd] in G.
  destruct G as (? & ? & ?); [by destruct op|done|]. split_and!; try done.
  assert (W1 : forall r, get_sqe (ring e) = Some r -> forall m, (length (submitted (ring e)) <= length (submitted (submit (write_sqe r m))))%nat).
  { intros r Er m. etrans; [|apply submitted_submit]. by rewrite (submitted_write _ _ _ Er). }
  destruct op; cbn [run_op op_local] in *; try done.
  - by simplify_eq.
  - unfold executor_register_on_scheduler in E. cbn [ring with_state with_callback] in E. destruct (get_sqe (ring e)) eqn:Er; simplify_eq. by apply W1.
  - unfold executor_unregister_from_scheduler in E. cbn [ring with_state] in E. destruct (get_sqe (ring e)) eqn:Er; simplify_eq. by apply W1.
  - simplify_eq. apply submitted_submit.
  - unfold executor_awake_begin in E. cbn [ring with_state] in E. destruct (get_sqe (ring e)) eqn:Er; simplify_eq. cbn [ring with_ring]. by rewrite (submitted_write _ _ _ Er).
  - simplify_eq. apply submitted_submit.
Qed.

Lemma moves_on_the_way x x' d c c' l : client_ok x d c -> client_moves c c' l -> storage_fd x' = storage_fd x ->
  on_the_way x' c' = on_the_way x c ++ brought (storage_fd x) l.
Proof.
  intros K (_ & _ & En & _ & D & _) F. unfold on_the_way. rewrite F, En, D, drop_app_le, brought_app; [done|].
  etrans; [apply (ok_delivered _ _ _ K)|apply submitted_entries].
Qed.
(** *** Each step keeps the invariant *)

(** A client that does not move. *)
Lemma client_frame x x' d c : client_ok x d c -> storage_fd x' = storage_fd x -> answers_to x' d = answers_to x d ->
  ready_of x' d = ready_of x d ->
  (forall at_, at_ ∈ on_the_way x c -> comes_from x d at_ -> at_ ∉ st_ready x -> comes_from x' d at_ /\ at_ ∉ st_ready x') ->
  client_ok x' d c.
Proof.
  intros [W1 F Rg S D Ow On C] Ef Ea Er P. assert (Eo : on_the_way x' c = on_the_way x c) by (unfold on_the_way; by rewrite Ef).
  split; try done; rewrite ?Ef, ?Eo, ?Ea, ?Er; try done.
  apply Forall_forall. intros a Ha. rewrite Forall_forall in Ow. destruct (Ow a Ha) as (? & ? & ?). split; [done|]. by apply P.
Qed.

Lemma ready_of_task x at_ task d : at_ ∉ st_ready x -> ready_of (with_task x at_ task) d = ready_of x d.
Proof.
  intros N. unfold ready_of. cbn [st_ready with_task]. apply filter_agree. intros a Ha. unfold comes_from.
  cbn [storage tasks with_task]. by rewrite lookup_insert_ne by (intros ->; done).
Qed.

Lemma call_ok x d c at_ task e' task' : exchange_ok x -> clients x !! d = Some c -> at_ <> 0 -> ~ busy x at_ ->
  calls (storage_fd x) at_ (cl_executor c) task e' task' ->
  exchange_ok (with_client (with_task x at_ task') d (Client e' (cl_delivered c) (cl_answered c) (at_ :: cl_called c))).
Proof.
  intros OK E NZ NB C. destruct (ok_clients x OK d c E) as [Wf F Rg S D Ow On Ct] eqn:OKc. clear OKc.
  destruct (calls_moves _ _ _ _ _ _ Wf C) as (Wf' & (A1 & A2 & A3 & A4) & En & Sb & Src).
  assert (NR : at_ ∉ st_ready x) by (intros ?; apply NB; by left).
  assert (NW : forall d c, clients x !! d = Some c -> at_ ∉ on_the_way x c) by (intros d' c' ? ?; apply NB; right; eauto).
  set (c' := Client e' (cl_delivered c) (cl_answered c) (at_ :: cl_called c)).
  set (x' := with_client (with_task x at_ task') d c').
  assert (CF : forall d' a, a <> at_ -> comes_from x' d' a <-> comes_from x d' a).
  { intros d' a Ha. unfold comes_from. cbn [x' storage tasks with_client with_task]. by rewrite lookup_insert_ne by done. }
  assert (OW : on_the_way x' c' = on_the_way x c ++ [at_]).
  { rewrite (moves_on_the_way x x' d c c' [message (storage_fd x) EXECUTOR_CALL at_]).
    - by rewrite brought_message, Z.eqb_refl. - by apply ok_clients. - by unfold client_moves, same_place. - done. }
  assert (RO : forall d', ready_of x' d' = ready_of x d') by (intros; by apply (ready_of_task x at_ task')).
  split; [|exact (ok_ready_once x OK)| |exact (ok_storage x OK)].
  - intros d' c1. cbn [clients x' with_client with_task]. intros [[<- <-]|[Nd E1]]%lookup_insert_Some.
    + split; rewrite ?OW, ?RO; try done; [by cbn; rewrite A4|by cbn; rewrite A2|cbn; lia| | |].
      * apply Forall_app. split.
        -- apply Forall_forall. intros a Ha. rewrite Forall_forall in Ow. destruct (Ow a Ha) as (? & ? & ?).
           split_and!; [done| |done]. apply CF; [|done]. intros ->. by apply (NW d c).
        -- constructor; [|constructor]. split_and!; [done| |done]. unfold comes_from. cbn [x' storage tasks with_client with_task].
           rewrite lookup_insert_eq. cbn. by rewrite Src, F.
      * apply NoDup_app. split_and!; [done| |apply NoDup_singleton]. intros a Ha ->%list_elem_of_singleton. by apply (NW d c).
      * cbn [cl_called cl_answered c']. rewrite Ct. change (answers_to x' d) with (answers_to x d).
        rewrite !app_assoc. apply Permutation_cons_append.
    + eapply client_frame; [by apply ok_clients|done|done|by apply RO|]. intros a Ha ? ?. split; [|done]. apply CF; [|done].
      intros ->. by apply (NW d' c1).
  - apply Forall_forall. intros a Ha. pose proof (ok_ready x OK) as Rd. rewrite Forall_forall in Rd.
    destruct (Rd a Ha) as (? & d' & ? & ?). split; [done|]. exists d'. split.
    + cbn [clients x' with_client with_task]. by apply lookup_insert_is_Some'; right.
    + apply CF; [|done]. intros ->. done.
Qed.
Lemma op_message_elsewhere (e : executor_instance (R := R)) op fd : op_local op -> scheduler_descriptor e <> fd -> brought fd (op_message e op) = [].
Proof. intros L N. destruct op; try done; cbn [op_message]; rewrite brought_message; by rewrite (proj2 (Z.eqb_neq _ _) N). Qed.

Lemma local_ok x d c op e' : exchange_ok x -> clients x !! d = Some c -> op_local op -> run_op ring_full (cl_executor c) op = (0, e') ->
  exchange_ok (with_client x d (Client e' (cl_delivered c) (cl_answered c) (cl_called c))).
Proof.
  intros OK E L Eo. pose proof (ok_clients x OK d c E) as [Wf F Rg S D Ow On Ct].
  destruct (local_moves _ _ _ Wf L Eo) as (Wf' & (A1 & A2 & A3 & A4) & En & Sb).
  set (c' := Client e' (cl_delivered c) (cl_answered c) (cl_called c)). set (x' := with_client x d c').
  assert (OW : on_the_way x' c' = on_the_way x c).
  { rewrite (moves_on_the_way x x' d c c' (op_message (cl_executor c) op)).
    - by rewrite op_message_elsewhere, app_nil_r. - by apply ok_clients. - by unfold client_moves, same_place. - done. }
  split; [|exact (ok_ready_once x OK)| |exact (ok_storage x OK)].
  - intros d' c1. cbn [clients x' with_client]. intros [[<- <-]|[Nd E1]]%lookup_insert_Some.
    + split; rewrite ?OW; try done; [by cbn; rewrite A4|by cbn; rewrite A2|cbn; lia].
    + eapply client_frame; [by apply ok_clients|done..].
  - eapply Forall_impl; [exact (ok_ready x OK)|]. intros a (? & d' & ? & ?). split; [done|]. exists d'. split; [|done].
    cbn [clients x' with_client]. by apply lookup_insert_is_Some'; right.
Qed.

Lemma drop_brought fd (l : list io_uring_sqe) n e : l !! n = Some e -> brought fd (drop n l) = brought fd [e] ++ brought fd (drop (S n) l).
Proof. intros E. by rewrite (drop_S l e n E), <- brought_app. Qed.
Lemma submitted_lookup (r : R) n e : submitted r !! n = Some e -> entries r !! n = Some e.
Proof. intros E. unfold entries. by apply lookup_app_l_Some. Qed.
Lemma brought_one fd e : brought fd [e] = [] \/ exists at_, brought fd [e] = [at_].
Proof. unfold brought, brings. cbn. destruct (sqe_operation e); eauto. case_match; eauto. Qed.

Lemma deliver_ok x d c e : exchange_ok x -> clients x !! d = Some c -> submitted (ring (cl_executor c)) !! cl_delivered c = Some e ->
  exchange_ok (let x' := with_client x d (Client (cl_executor c) (S (cl_delivered c)) (cl_answered c) (cl_called c)) in
            Exchange (clients x') (storage x') (st_delivered x') (st_ready x ++ brought (storage_fd x) [e])).
Proof.
  intros OK E Ee. pose proof (ok_clients x OK d c E) as [Wf F Rg S1 D Ow On Ct]. cbv zeta.
  set (c' := Client (cl_executor c) (S (cl_delivered c)) (cl_answered c) (cl_called c)).
  match goal with |- exchange_ok ?y => set (x' := y) end.
  assert (OW : on_the_way x c = brought (storage_fd x) [e] ++ on_the_way x' c') by (by apply drop_brought, submitted_lookup).
  rewrite OW in *. apply lookup_lt_Some in Ee. set (new := brought (storage_fd x) [e]) in *.
  apply Forall_app in Ow as [Own Owr]. apply NoDup_app in On as (_ & Dis & Onr).
  assert (Sd : forall d' a, a ∈ new -> comes_from x d' a -> 0 <= d' < 2 ^ 31 -> d' = d).
  { intros d' a Ha Hc ?. rewrite Forall_forall in Own. destruct (Own a Ha) as (_ & ? & _). by eapply same_source. }
  split.
  - intros d' c1. cbn [clients x' with_client]. intros [[<- <-]|[Nd E1]]%lookup_insert_Some.
    + split; try done.
      * rewrite Forall_forall in Owr |- *. intros a Ha. destruct (Owr a Ha) as (? & ? & ?). split_and!; [done..|].
        cbn [st_ready x']. intros [?|Hn]%elem_of_app; [done|]. by apply (Dis a Hn).
      * change (answers_to x' d) with (answers_to x d). cbn [cl_called cl_answered c']. rewrite Ct. unfold ready_of at 2.
        cbn [st_ready x']. rewrite filter_app. change (filter (comes_from x' d) (st_ready x)) with (ready_of x d).
        rewrite (filter_all (comes_from x' d) new); [by rewrite <- !app_assoc|].
        intros a Ha. rewrite Forall_forall in Own. apply (Own a Ha).
    + destruct (ok_clients x OK d' c1 E1) as [_ _ Rg1 _ _ Ow1 _ _].
      eapply client_frame; [by apply ok_clients|done|done| |].
      * unfold ready_of. cbn [st_ready x']. rewrite filter_app. rewrite (filter_none (comes_from x' d') new); [by rewrite app_nil_r|].
        intros a Ha Hc. by apply Nd, eq_sym, (Sd d' a).
      * intros a Ha Hc Hr. split; [done|]. cbn [st_ready x']. intros [?|Hn]%elem_of_app; [done|]. by apply Nd, eq_sym, (Sd d' a).
  - cbn [st_ready x']. apply NoDup_app. split_and!; [exact (ok_ready_once x OK)| |].
    + intros a Ha Hn. rewrite Forall_forall in Own. by destruct (Own a Hn) as (_ & _ & ?).
    + subst new. destruct (brought_one (storage_fd x) e) as [->|[at_ ->]]; [constructor|apply NoDup_singleton].
  - cbn [st_ready x']. apply Forall_app. split.
    + eapply Forall_impl; [exact (ok_ready x OK)|]. intros a (? & d' & ? & ?). split; [done|]. exists d'. split; [|done].
      cbn [clients x' with_client]. by apply lookup_insert_is_Some'; right.
    + eapply Forall_impl; [exact Own|]. intros a (? & ? & ?). split; [done|]. exists d. split; [|done].
      cbn [clients x' with_client]. rewrite lookup_insert_eq. eauto.
  - exact (ok_storage x OK).
Qed.
Context (K : keeps_route run).

Lemma answer_tasks_done (s s' : storage_state (R := R) (W := W)) cqes : NoDup cqes -> Forall (fun at_ => at_ <> 0) cqes ->
  answer_tasks run s cqes = Done s' ->
  entries (ring_of s') = entries (ring_of s) ++ concat (map (answer_of (tasks s)) cqes) /\
  submitted (ring_of s') = submitted (ring_of s) /\
  st_descriptor (executor s') = st_descriptor (executor s) /\ st_active (executor s') = st_active (executor s) /\
  forall a, a ∉ cqes -> tasks s' !! a = tasks s !! a.
Proof.
  revert s. induction cqes as [|a cqes IH]; intros s ND NZ E; cbn [answer_tasks map concat] in *.
  { simplify_eq. rewrite app_nil_r. done. }
  apply NoDup_cons in ND as [Na ND]. apply Forall_cons in NZ as [Za NZ]. unfold answer_task in E.
  rewrite (proj2 (Z.eqb_neq _ _) Za) in E. destruct (tasks s !! a) as [task|] eqn:T; [|done]. cbn [demand] in E. rewrite !bind_done in E.
  destruct (run (method task) task (world s)) as [[task1 w1]| | |] eqn:Er; [|done..]. rewrite !bind_done in E.
  destruct (get_sqe (st_ring (executor s))) as [r|] eqn:G; [|done]. cbn [demand] in E. rewrite !bind_done in E.
  destruct (IH _ ND NZ E) as (En & Es & Ed & Ea & Et). clear IH E. unfold ring_of in *.
  cbn [executor with_executor_ring st_ring tasks st_descriptor st_active] in *.
  rewrite (entries_write _ _ _ G) in En. rewrite (submitted_write _ _ _ G) in Es. destruct (K _ _ _ _ _ Er) as [Ks _].
  split_and!; try done.
  - assert (answer_of (tasks s) a = [message (i32 (source task)) EXECUTOR_CALLBACK a]) as -> by (unfold answer_of; by rewrite T).
    rewrite En, Ks, <- app_assoc. f_equal. cbn [app]. f_equal. f_equal. apply map_ext_in.
    intros b Hb%list_elem_of_In. unfold answer_of. by rewrite lookup_insert_ne by (intros ->; done).
  - intros b Hb. rewrite Et by set_solver. apply lookup_insert_ne. set_solver.
Qed.

Lemma round_done (s s' : storage_state (R := R) (W := W)) cqes go : NoDup cqes -> Forall (fun at_ => at_ <> 0) cqes ->
  storage_executor_round run s cqes = Done (go, s') ->
  entries (ring_of s') = entries (ring_of s) ++ (if go then concat (map (answer_of (tasks s)) cqes) else []) /\
  prepared (ring_of s') = [] /\ (length (submitted (ring_of s)) <= length (submitted (ring_of s')))%nat /\
  st_descriptor (executor s') = st_descriptor (executor s) /\ st_active (executor s') = st_active (executor s) /\
  forall a, a ∉ cqes \/ go = false -> tasks s' !! a = tasks s !! a.
Proof.
  intros ND NZ. unfold storage_executor_round. destruct cqes as [|a l].
  { intros [= <- <-]. unfold ring_of. cbn. rewrite entries_submit, app_nil_r. split_and!; try done; [apply prepared_submit|apply submitted_submit]. }
  destruct (negb _).
  { intros [= <- <-]. unfold ring_of. cbn [executor with_executor_ring st_ring st_descriptor st_active tasks].
    rewrite entries_submit, app_nil_r. split_and!; try done; [apply prepared_submit|apply submitted_submit]. }
  destruct (answer_tasks _ _ _) as [s1| | |] eqn:E; [|done..]. rewrite bind_done. intros [= <- <-].
  destruct (answer_tasks_done _ _ _ ND NZ E) as (En & Es & Ed & Ea & Et). unfold ring_of in *.
  cbn [executor with_executor_ring st_ring st_descriptor st_active tasks] in *. rewrite entries_submit in *.
  split_and!; try done; [apply prepared_submit| |intros b [?|?]; [by apply Et|done]].
  etrans; [apply submitted_submit|]. rewrite <- Es. apply submitted_submit.
Qed.

(** The answers of a round for one client. *)
Lemma answers_brought x d cqes : 0 <= d < 2 ^ 31 ->
  Forall (fun at_ => at_ <> 0 /\ exists d, 0 <= d < 2 ^ 31 /\ comes_from x d at_) cqes ->
  brought d (concat (map (answer_of (tasks (storage x))) cqes)) = filter (comes_from x d) cqes.
Proof.
  intros Rd. induction cqes as [|a cqes IH]; intros F; [done|]. apply Forall_cons in F as [(_ & d' & Rd' & C) F].
  cbn [map concat]. rewrite brought_app, IH, filter_cons by done. clear IH F.
  assert (A : answer_of (tasks (storage x)) a = [message d' EXECUTOR_CALLBACK a]).
  { unfold comes_from, answer_of in *. destruct (tasks (storage x) !! a) as [task|]; [|done]. injection C as ->.
    by rewrite (wrap_small 64 d'), swrap_small by (pow2_norm; lia). }
  rewrite A, brought_message. destruct (Z.eqb_spec d' d) as [->|N]; [by rewrite decide_True|].
  rewrite decide_False; [done|]. intros C'. by apply N, (same_source x d' d a).
Qed.

Lemma round_ok x cqes rest (go : bool) s' : exchange_ok x -> st_ready x = cqes ++ rest ->
  storage_executor_round run (storage x) cqes = Done (go, s') ->
  exchange_ok (Exchange (clients x) s' (st_delivered x) (if go then rest else cqes ++ rest)).
Proof.
  intros OK Er Es. pose proof (ok_ready_once x OK) as ND. pose proof (ok_ready x OK) as Rd. rewrite Er in ND, Rd.
  pose proof ND as NDr. apply NoDup_app in ND as (NDc & Dis & _).
  assert (Rg : forall d, is_Some (clients x !! d) -> 0 <= d < 2 ^ 31) by (intros d [c E]; apply (ok_range _ _ _ (ok_clients x OK d c E))).
  assert (Rd' : Forall (fun at_ => at_ <> 0 /\ exists d, 0 <= d < 2 ^ 31 /\ comes_from x d at_) (cqes ++ rest)).
  { eapply Forall_impl; [exact Rd|]. intros a (? & d & ? & ?). eauto. }
  apply Forall_app in Rd' as [Rc Rr].
  destruct (round_done _ _ _ _ NDc ltac:(eapply Forall_impl; [exact Rc|by intros ? []]) Es) as (En & Pr & Sb & Ed & Ea & Et).
  set (x' := Exchange (clients x) s' (st_delivered x) (if go then rest else cqes ++ rest)).
  assert (CF : forall d a, a ∉ cqes \/ go = false -> comes_from x' d a <-> comes_from x d a).
  { intros d a Ha. unfold comes_from. cbn [storage x']. by rewrite Et. }
  destruct (ok_storage x OK) as [P0 D0].
  assert (AN : forall d, 0 <= d < 2 ^ 31 -> answers_to x' d ++ ready_of x' d = answers_to x d ++ ready_of x d).
  { intros d Hd. unfold answers_to. cbn [st_delivered storage x']. rewrite En, drop_app_le, brought_app, <- app_assoc
      by (etrans; [exact D0|apply submitted_entries]). f_equal. unfold ready_of. rewrite Er, filter_app. cbn [st_ready x']. destruct go.
    - rewrite (answers_brought x d cqes Hd Rc). f_equal. apply filter_agree. intros a Ha. apply CF. left. intros Hc. by apply (Dis a Hc).
    - cbn [brought omap list_omap app]. rewrite <- filter_app. apply filter_agree. intros a Ha. apply CF. by right. }
  split.
  - intros d c E. destruct (ok_clients x OK d c E) as [Wf F Rg1 S1 D Ow On Ct].
    assert (EF : storage_fd x' = storage_fd x) by (exact Ed).
    assert (EO : on_the_way x' c = on_the_way x c) by (unfold on_the_way; by rewrite EF).
    split; rewrite ?EF, ?EO; try done.
    + eapply Forall_impl; [exact Ow|]. intros a (? & ? & Na). rewrite Er in Na. split_and!; [done| |].
      * apply CF; [|done]. left. intros ?. apply Na, elem_of_app. by left.
      * cbn [st_ready x']. destruct go; [|done]. intros ?. apply Na, elem_of_app. by right.
    + rewrite Ct. rewrite !(app_assoc (answers_to _ _)). by rewrite AN.
  - cbn [st_ready x']. destruct go; [by apply NoDup_app in NDr as (_ & _ & ?)|done].
  - cbn [st_ready x']. apply Forall_forall. intros a Ha. rewrite Forall_forall in Rd. destruct (Rd a) as (? & d & ? & ?).
    { destruct go; [apply elem_of_app; by right|done]. }
    split; [done|]. exists d. split; [done|]. apply CF; [|done]. destruct go; [left|by right]. intros Hc. by apply (Dis a Hc).
  - cbn [storage x' st_delivered]. split; [exact Pr|]. etrans; [exact D0|exact Sb].
Qed.

Lemma answer_ok x e : exchange_ok x -> submitted (ring_of (storage x)) !! st_delivered x = Some e ->
  exchange_ok (Exchange
      (map_imap (fun d c => Some (Client (cl_executor c) (cl_delivered c) (cl_answered c ++ brought d [e]) (cl_called c))) (clients x))
      (storage x) (S (st_delivered x)) (st_ready x)).
Proof.
  intros OK E. match goal with |- exchange_ok ?y => set (x' := y) end.
  split; [|exact (ok_ready_once x OK)| |].
  - intros d c'. cbn [clients x']. rewrite map_lookup_imap. destruct (clients x !! d) as [c|] eqn:Ec; [|done]. intros [= <-].
    destruct (ok_clients x OK d c Ec) as [Wf F Rg1 S1 D Ow On Ct]. split; try done.
    change (cl_called c ≡ₚ (cl_answered c ++ brought d [e]) ++ answers_to x' d ++ ready_of x d ++ on_the_way x c).
    etrans; [exact Ct|]. unfold answers_to at 1. rewrite (drop_brought d _ _ e) by (by apply submitted_lookup). by rewrite <- !app_assoc.
  - eapply Forall_impl; [exact (ok_ready x OK)|]. intros a (? & d & [c Ec] & ?). split; [done|]. exists d. split; [|done].
    cbn [clients x']. rewrite map_lookup_imap, Ec. cbn. eauto.
  - destruct (ok_storage x OK). split; [done|]. cbn [st_delivered x']. by apply lookup_lt_Some in E.
Qed.

Lemma step_ok x x' : exchange_step x x' -> exchange_ok x -> exchange_ok x'.
Proof.
  intros [] OK; [by eapply call_ok|by eapply local_ok|by apply deliver_ok|by apply round_ok|by apply answer_ok].
Qed.
Lemma steps_ok x x' : rtc exchange_step x x' -> exchange_ok x -> exchange_ok x'.
Proof. induction 1; eauto using step_ok. Qed.
(** ** Everything comes back *)

Definition called x : gmap Z (list Z) := cl_called <$> clients x.
Definition quiet x (d : Z) : Prop := forall c, clients x !! d = Some c -> on_the_way x c = [].

Lemma called_update x d c c' : clients x !! d = Some c -> cl_called c' = cl_called c -> called (with_client x d c') = called x.
Proof.
  intros E C. unfold called. cbn [clients with_client]. rewrite fmap_insert, C. apply insert_id. by rewrite lookup_fmap, E.
Qed.
Lemma quiet_update x x' d c' : storage x' = storage x -> clients x' = <[d := c']> (clients x) -> on_the_way x' c' = [] ->
  forall d', d' = d \/ quiet x d' -> quiet x' d'.
Proof.
  intros Es Ec O d' Hd c1. rewrite Ec. intros [[<- <-]|[N E1]]%lookup_insert_Some; [done|].
  destruct Hd as [->|Q]; [done|]. unfold on_the_way, storage_fd. rewrite Es. by apply Q.
Qed.

Lemma deliver_all x d c : exchange_ok x -> clients x !! d = Some c -> prepared (ring (cl_executor c)) = [] ->
  exists x', rtc exchange_step x x' /\ called x' = called x /\ storage x' = storage x /\ forall d', d' = d \/ quiet x d' -> quiet x' d'.
Proof.
  remember (length (submitted (ring (cl_executor c))) - cl_delivered c)%nat as n eqn:N.
  revert x c N. induction n as [|n IH]; intros x c N OK E P; pose proof (ok_clients x OK d c E) as Kc.
  - exists x. split_and!; [by apply rtc_refl|done..|]. intros d' [->|Q]; [|done]. intros c' E'. rewrite E in E'. injection E' as <-.
    unfold on_the_way, entries. rewrite P, app_nil_r, drop_ge by (pose proof (ok_delivered _ _ _ Kc); lia). done.
  - destruct (lookup_lt_is_Some_2 (submitted (ring (cl_executor c))) (cl_delivered c)) as [e Ee]; [lia|].
    pose proof (Step_deliver x d c e E Ee) as St. pose proof (deliver_ok x d c e OK E Ee) as OK'. cbv zeta in *.
    match type of St with exchange_step x ?y => set (x1 := y) in * end.
    set (c1 := Client (cl_executor c) (S (cl_delivered c)) (cl_answered c) (cl_called c)) in *.
    assert (E1 : clients x1 !! d = Some c1) by apply lookup_insert_eq.
    destruct (IH x1 c1) as (x' & Sx & Cx & Wx & Qx); [cbn; lia|done..|]. exists x'. split_and!.
    + by eapply rtc_l. + rewrite Cx. by apply (called_update x d c c1). + done.
    + intros d' [->|Q]; [apply Qx; by left|]. destruct (decide (d' = d)) as [->|Nd]; [apply Qx; by left|]. apply Qx. right.
      intros c' E'. cbn [clients x1 with_client] in E'. rewrite lookup_insert_ne in E' by done. by apply Q.
Qed.

Lemma pump_client x d : exchange_ok x ->
  exists x', rtc exchange_step x x' /\ called x' = called x /\ storage x' = storage x /\ forall d', d' = d \/ quiet x d' -> quiet x' d'.
Proof.
  intros OK. destruct (clients x !! d) as [c|] eqn:E.
  2:{ exists x. split_and!; [by apply rtc_refl|done..|]. intros d' [->|Q]; [|done]. intros c. by rewrite E. }
  pose proof (Step_local x d c Peek (executor_peek (cl_executor c)) E I eq_refl) as St.
  pose proof (local_ok x d c Peek _ OK E I eq_refl) as OK'. set (c1 := Client _ _ _ _) in *. set (x1 := with_client x d c1) in *.
  destruct (deliver_all x1 d c1 OK') as (x' & Sx & Cx & Wx & Qx); [apply lookup_insert_eq|apply prepared_submit|].
  exists x'. split_and!; [by eapply rtc_l|rewrite Cx; by apply (called_update x d c c1)|done|].
  intros d' [->|Q]; [apply Qx; by left|]. destruct (decide (d' = d)) as [->|Nd]; [apply Qx; by left|]. apply Qx. right.
  intros c' E'. cbn [clients x1 with_client] in E'. rewrite lookup_insert_ne in E' by done. by apply Q.
Qed.

Lemma pump_clients (ds : list Z) x : exchange_ok x ->
  exists x', rtc exchange_step x x' /\ called x' = called x /\ storage x' = storage x /\ forall d, d ∈ ds \/ quiet x d -> quiet x' d.
Proof.
  revert x. induction ds as [|d ds IH]; intros x OK.
  { exists x. split_and!; [by apply rtc_refl|done..|]. intros d [[]%not_elem_of_nil|?]; done. }
  destruct (pump_client x d OK) as (x1 & S1 & C1 & W1 & Q1). destruct (IH x1 (steps_ok _ _ S1 OK)) as (x2 & S2 & C2 & W2 & Q2).
  exists x2. split_and!; [by etrans|congruence|congruence|]. intros d' [[->|?]%elem_of_cons|?]; apply Q2; auto.
Qed.

(** The tasks in memory are ones that their handler answers, and a queue without
    prepared entries has one to take. *)
Context (servable : executor_task -> Prop).
Context (Routed : forall task source target, servable task -> servable (with_route task source target)).
Context (Served : forall task w, servable task -> exists task' w', run (method task) task w = Done (task', w') /\ servable task').
Context (Room : forall r : R, prepared r = [] -> is_Some (get_sqe r)).

Definition all_servable x : Prop := map_Forall (fun _ => servable) (tasks (storage x)).

Lemma answer_tasks_servable s cqes s' : map_Forall (fun _ => servable) (tasks s) -> answer_tasks run s cqes = Done s' ->
  map_Forall (fun _ => servable) (tasks s').
Proof.
  revert s. induction cqes as [|at_ cqes IH]; intros s T; cbn [answer_tasks]; [by intros [= <-]|].
  unfold answer_task. destruct (at_ =? 0); [by apply IH|].
  destruct (tasks s !! at_) as [task|] eqn:E; [|done]. cbn [demand]. rewrite bind_done.
  destruct (Served task (world s) (T _ _ E)) as (task' & w' & -> & Sv). rewrite bind_done.
  destruct (get_sqe _); [|done]. cbn [demand]. rewrite !bind_done. apply IH. cbn [tasks with_executor_ring].
  apply map_Forall_insert_2; [by apply Routed|done].
Qed.

Lemma step_servable x x' : exchange_step x x' -> all_servable x -> all_servable x'.
Proof.
  intros [y d c at_ task e' task' _ _ _ Et C| | |y cqes rest go s' _ Er|] T; try exact T;
    unfold all_servable in *; cbn [storage tasks with_client with_task] in *.
  - apply map_Forall_insert_2; [|done]. specialize (T _ _ Et). destruct C as [e' task' C|r' task' _ C];
      [unfold executor_call_native in C|unfold executor_call_dart in C]; case_match; simplify_eq; by apply Routed.
  - revert Er. unfold storage_executor_round.
    destruct cqes as [|a l]; [by intros [= <- <-]|]. destruct (negb _); [by intros [= <- <-]|].
    destruct (answer_tasks _ _ _) as [s1| | |] eqn:E; [|done..]. rewrite bind_done. intros [= <- <-].
    by apply answer_tasks_servable in E.
Qed.
Lemma steps_servable x x' : rtc exchange_step x x' -> all_servable x -> all_servable x'.
Proof. induction 1; eauto using step_servable. Qed.

Lemma one_round x at_ rest : exchange_ok x -> all_servable x -> st_active (executor (storage x)) = true -> st_ready x = at_ :: rest ->
  exists s', storage_executor_round run (storage x) [at_] = Done (true, s') /\ st_active (executor s') = true /\
    st_descriptor (executor s') = storage_fd x.
Proof.
  intros OK T A Er. pose proof (ok_ready x OK) as F. rewrite Er in F. apply Forall_cons in F as [(Z0 & d & _ & C) _].
  unfold storage_executor_round. cbn [executor with_executor_ring st_active answer_tasks]. rewrite A. cbn [negb]. unfold answer_task.
  rewrite (proj2 (Z.eqb_neq _ _) Z0). cbn [tasks with_executor_ring]. unfold comes_from in C.
  destruct (tasks (storage x) !! at_) as [task|] eqn:Et; [|done]. cbn [demand]. rewrite !bind_done. cbn [world with_executor_ring].
  destruct (Served task (world (storage x)) (T _ _ Et)) as (task' & w' & -> & _). rewrite !bind_done.
  destruct (Room (submit (st_ring (executor (storage x))))) as [r G]; [apply prepared_submit|].
  cbn [executor with_executor_ring st_ring]. rewrite G. cbn [demand]. rewrite !bind_done.
  eexists. split; [reflexivity|]. cbn [executor with_executor_ring st_active st_descriptor]. done.
Qed.

Lemma answer_ready x : exchange_ok x -> all_servable x -> st_active (executor (storage x)) = true ->
  exists x', rtc exchange_step x x' /\ clients x' = clients x /\ storage_fd x' = storage_fd x /\ st_ready x' = [].
Proof.
  remember (st_ready x) as l eqn:L. revert x L. induction l as [|at_ l IH]; intros x L OK T A.
  { exists x. split_and!; [by apply rtc_refl|done..]. }
  destruct (one_round x at_ l OK T A (eq_sym L)) as (s' & Es & A' & F').
  pose proof (Step_round x [at_] l true s' (eq_sym L) Es) as St. pose proof (round_ok x [at_] l true s' OK (eq_sym L) Es) as OK'.
  pose proof (step_servable _ _ St T) as T'.
  cbv iota in *. destruct (IH (Exchange (clients x) s' (st_delivered x) l) eq_refl OK' T' A') as (x' & Sx & Cx & Fx & Rx). exists x'. split_and!; [by eapply rtc_l|done| |done].
  by rewrite Fx.
Qed.

Lemma bring_answers x : exchange_ok x ->
  exists x', rtc exchange_step x x' /\ called x' = called x /\ storage x' = storage x /\ st_ready x' = st_ready x /\
    (forall d, quiet x d -> quiet x' d) /\ forall d, answers_to x' d = [].
Proof.
  remember (length (submitted (ring_of (storage x))) - st_delivered x)%nat as n eqn:N. revert x N.
  induction n as [|n IH]; intros x N OK; destruct (ok_storage x OK) as [P D].
  - exists x. split_and!; [by apply rtc_refl|done..|]. intros d. unfold answers_to, entries. by rewrite P, app_nil_r, drop_ge by lia.
  - destruct (lookup_lt_is_Some_2 (submitted (ring_of (storage x))) (st_delivered x)) as [e Ee]; [lia|].
    pose proof (Step_answer x e Ee) as St. pose proof (answer_ok x e OK Ee) as OK'.
    match type of St with exchange_step x ?y => set (x1 := y) in * end.
    destruct (IH x1) as (x' & Sx & Cx & Wx & Rx & Qx & Ax); [cbn; lia|done|]. exists x'. split_and!; try done.
    + by eapply rtc_l.
    + rewrite Cx. apply map_eq. intros d. unfold called. cbn [clients x1]. rewrite !lookup_fmap, map_lookup_imap. by destruct (clients x !! d).
    + intros d Q. apply Qx. intros c. cbn [clients x1]. rewrite map_lookup_imap. destruct (clients x !! d) as [c0|] eqn:E0; [|done].
      intros [= <-]. exact (Q c0 E0).
Qed.

(** While the storage is active every exchange can be finished. *)
Lemma exchange_finishes x0 x : fresh x0 -> all_servable x0 -> rtc exchange_step x0 x -> st_active (executor (storage x)) = true ->
  exists x', rtc exchange_step x x' /\ called x' = called x /\
    forall d c', clients x' !! d = Some c' -> cl_answered c' ≡ₚ cl_called c'.
Proof.
  intros F T0 S A. pose proof (steps_ok _ _ S (fresh_ok x0 F)) as OK. pose proof (steps_servable _ _ S T0) as T.
  destruct (pump_clients (elements (dom (clients x))) x OK) as (x1 & S1 & C1 & W1 & Q1).
  pose proof (steps_ok _ _ S1 OK) as OK1. destruct (answer_ready x1 OK1 (steps_servable _ _ S1 T)) as (x2 & S2 & C2 & F2 & R2); [by rewrite W1|].
  pose proof (steps_ok _ _ S2 OK1) as OK2. destruct (bring_answers x2 OK2) as (x3 & S3 & C3 & W3 & R3 & Q3 & A3).
  pose proof (steps_ok _ _ S3 OK2) as OK3.
  assert (Q : forall d, quiet x3 d).
  { intros d. apply Q3. intros c E. unfold on_the_way. rewrite F2. rewrite C2 in E. revert c E. apply Q1.
    destruct (clients x !! d) as [c|] eqn:E; [left; apply elem_of_elements, elem_of_dom; eauto|right; intros c; by rewrite E]. }
  exists x3. split_and!; [by etrans; [|etrans]|rewrite C3; unfold called in *; by rewrite C2|].
  intros d c' E. rewrite (ok_count _ _ _ (ok_clients x3 OK3 d c' E)), A3, (Q d c' E). unfold ready_of. by rewrite R3, R2, !app_nil_r.
Qed.

(** ** Theorems *)

(** C9: whatever the order of calls, deliveries and rounds, every task an executor has
    called is in exactly one place, once for each call: on its way to the storage,
    ready there, on its way back, or back at the executor that called it; and every
    task that waits at the storage belongs to a client. *)
Theorem exchange_conserves x0 x (F : fresh x0) (S : rtc exchange_step x0 x) :
  (forall d c, clients x !! d = Some c ->
     cl_called c ≡ₚ cl_answered c ++ answers_to x d ++ ready_of x d ++ on_the_way x c) /\
  (forall at_, at_ ∈ st_ready x -> exists d c, clients x !! d = Some c /\ at_ ∈ ready_of x d).
Proof.
  pose proof (steps_ok _ _ S (fresh_ok x0 F)) as OK. split.
  - intros d c E. apply (ok_clients x OK d c E).
  - intros a Ha. pose proof (ok_ready x OK) as Rd. rewrite Forall_forall in Rd. destruct (Rd a Ha) as (_ & d & [c E] & C).
    exists d, c. split; [done|]. by apply list_elem_of_filter.
Qed.
End Exchange.

(** ** Witnesses *)

(** The executors 7 and 8 and the storage on the ring 3, whose handlers count. *)
Definition idle_executor (fd : Z) : executor_instance (R := list_ring) :=
  ExecutorInstance (fd * 1000) 0 2 (ListRing fd 4 [] []) (ExecutorConfiguration 4 0) fd fd EXECUTOR_STATE_IDLE.
Definition idle_client (fd : Z) : client (R := list_ring) := Client (idle_executor fd) 0 [] [].
Definition two_clients : exchange (R := list_ring) (W := Z) :=
  Exchange (<[7 := idle_client 7]> (<[8 := idle_client 8]> ∅)) (two_tasks 4) 0 [].

Lemma two_clients_fresh : fresh two_clients.
Proof.
  split; [|done..]. intros d c. cbn [clients two_clients].
  intros [[<- <-]|[_ [[<- <-]|[_ ?%lookup_empty_Some]]%lookup_insert_Some]]%lookup_insert_Some; [..|done];
    (split_and!; try done; try lia; split; [cbn; set_solver|done]).
Qed.
Lemma counting_keeps_route : keeps_route counting.
Proof. intros m task w task' w' [= <- <-]. done. Qed.

(** The executor 7 calls its task. *)
Lemma first_call : exists x, rtc (exchange_step counting some_event) two_clients x /\
  (cl_called <$> clients x !! 7) = Some [100] /\ st_active (executor (storage x)) = true.
Proof.
  eexists. split; [apply rtc_once; eapply (Step_call _ _ two_clients 7 (idle_client 7) 100 (sent 7 1))|split; vm_compute; reflexivity].
  - reflexivity.
  - done.
  - intros [N|(d & c & E & N)]; [by apply not_elem_of_nil in N|]. cbn [clients two_clients] in E.
    apply lookup_insert_Some in E as [[<- <-]|[_ [[<- <-]|[_ ?%lookup_empty_Some]]%lookup_insert_Some]]; [..|done];
      vm_compute in N; by apply not_elem_of_nil in N.
  - reflexivity.
  - apply Calls_native. vm_compute. reflexivity.
Qed.

Lemma exchange_conserves_witness : exists x c, rtc (exchange_step counting some_event) two_clients x /\
  clients x !! 7 = Some c /\ cl_called c = [100] /\
  [100] ≡ₚ cl_answered c ++ answers_to x 7 ++ ready_of x 7 ++ on_the_way x c.
Proof.
  destruct first_call as (x & S & C & _). destruct (clients x !! 7) as [c|] eqn:E; [|done]. injection C as C.
  exists x, c. split_and!; [exact S|exact E|exact C|]. rewrite <- C.
  exact (proj1 (exchange_conserves counting some_event counting_keeps_route two_clients x two_clients_fresh S) 7 c E).
Defined.
