(* ===== verification/Handlers.v ===== *)
(** * The table of the handlers ([storage/native/storage/box.c], [box.h])

    The storage hands out the addresses of its handlers in a [struct storage_box]; a
    task names one of them, and the fiber of the storage calls it on the task.  The
    handlers keep what the executor of the storage asks of them. *)
From S2P Require Import Prelude MsgPack MsgSkip MsgSkipTheorems Events Uring Executor MsgCodec MsgValues Box BoxTheorems StorageExecutor.

(** ** The requests in memory

    A handler reads the request at the input of its task, with the type it expects. *)
Record requests := Requests {
  evaluate_request_at : Z -> option storage_evaluate_request;
  call_request_at : Z -> option storage_call_request;
  space_count_request_at : Z -> option storage_space_count_request;
  space_iterator_request_at : Z -> option storage_space_iterator_request;
  space_request_at : Z -> option storage_space_request;
  space_update_request_at : Z -> option storage_space_update_request;
  space_select_request_at : Z -> option storage_space_select_request;
  space_upsert_request_at : Z -> option storage_space_upsert_request;
  index_count_request_at : Z -> option storage_index_count_request;
  index_id_request_at : Z -> option storage_index_id_request;
  index_iterator_request_at : Z -> option storage_index_iterator_request;
  index_request_at : Z -> option storage_index_request;
  index_update_request_at : Z -> option storage_index_update_request;
  index_select_request_at : Z -> option storage_index_select_request;
  index_id_by_name_request_at : Z -> option storage_index_id_by_name_request;
}.

(** ** The table *)

Inductive storage_function : Set :=
| Storage_evaluate
| Storage_call
| Storage_iterator_next_single
| Storage_iterator_next_many
| Storage_iterator_destroy
| Storage_free_output_buffer
| Storage_space_id_by_name
| Storage_space_count
| Storage_space_length
| Storage_space_iterator
| Storage_space_insert_single
| Storage_space_insert_many
| Storage_space_put_single
| Storage_space_put_many
| Storage_space_delete_single
| Storage_space_delete_many
| Storage_space_update_single
| Storage_space_update_many
| Storage_space_select
| Storage_space_get
| Storage_space_min
| Storage_space_max
| Storage_space_truncate
| Storage_space_upsert
| Storage_index_count
| Storage_index_length
| Storage_index_iterator
| Storage_index_get
| Storage_index_max
| Storage_index_min
| Storage_index_update_single
| Storage_index_update_many
| Storage_index_select
| Storage_index_id_by_name.

#[export] Instance storage_function_eq_dec : EqDecision storage_function.
Proof. solve_decision. Defined.

Section Handlers.
Context {H : Hints} (database : list box_call -> box_call -> reply) (memory : requests).

Definition with_request {A} (view : Z -> option A) (handler : A -> executor_task -> box_m executor_task) (task : executor_task)
    : box_m executor_task :=
  box_bind (lift (demand (view (input task)))) (fun r => handler r task).

(** What [storage_initialize_box] stores under each name. *)
Definition storage_box (f : storage_function) : executor_task -> box_m executor_task :=
  match f with
  | Storage_evaluate => with_request (evaluate_request_at memory) (storage_evaluate database)
  | Storage_call => with_request (call_request_at memory) (storage_call database)
  | Storage_iterator_next_single => storage_iterator_next_single database
  | Storage_iterator_next_many => storage_iterator_next_many database
  | Storage_iterator_destroy => storage_iterator_destroy database
  | Storage_free_output_buffer => storage_free_output_buffer database
  | Storage_space_id_by_name => storage_space_id_by_name database
  | Storage_space_count => with_request (space_count_request_at memory) (storage_space_count database)
  | Storage_space_length => storage_space_length database
  | Storage_space_iterator => with_request (space_iterator_request_at memory) (storage_space_iterator database)
  | Storage_space_insert_single => with_request (space_request_at memory) (storage_space_insert_single database)
  | Storage_space_insert_many => with_request (space_request_at memory) (storage_space_insert_many database)
  | Storage_space_put_single => with_request (space_request_at memory) (storage_space_put_single database)
  | Storage_space_put_many => with_request (space_request_at memory) (storage_space_put_many database)
  | Storage_space_delete_single => with_request (space_request_at memory) (storage_space_delete_single database)
  | Storage_space_delete_many => with_request (space_request_at memory) (storage_space_delete_many database)
  | Storage_space_update_single => with_request (space_update_request_at memory) (storage_space_update_single database)
  | Storage_space_update_many => with_request (space_update_request_at memory) (storage_space_update_many database)
  | Storage_space_select => with_request (space_select_request_at memory) (storage_space_select database)
  | Storage_space_get => with_request (space_request_at memory) (storage_space_get database)
  | Storage_space_min => with_request (space_request_at memory) (storage_space_min database)
  | Storage_space_max => with_request (space_request_at memory) (storage_space_max database)
  | Storage_space_truncate => storage_space_truncate database
  | Storage_space_upsert => with_request (space_upsert_request_at memory) (storage_space_upsert database)
  | Storage_index_count => with_request (index_count_request_at memory) (storage_index_count database)
  | Storage_index_length => with_request (index_id_request_at memory) (storage_index_length database)
  | Storage_index_iterator => with_request (index_iterator_request_at memory) (storage_index_iterator database)
  | Storage_index_get => with_request (index_request_at memory) (storage_index_get database)
  | Storage_index_max => with_request (index_request_at memory) (storage_index_max database)
  | Storage_index_min => with_request (index_request_at memory) (storage_index_min database)
  | Storage_index_update_single => with_request (index_update_request_at memory) (storage_index_update_single database)
  | Storage_index_update_many => with_request (index_update_request_at memory) (storage_index_update_many database)
  | Storage_index_select => with_request (index_select_request_at memory) (storage_index_select database)
  | Storage_index_id_by_name => with_request (index_id_by_name_request_at memory) (storage_index_id_by_name database)
  end.

(** The call through [task->method]; [functions] is what the addresses are. *)
Definition call_method (functions : Z -> option storage_function) (method : Z) (task : executor_task) (past : list box_call)
    : outcome (executor_task * list box_call) :=
  f ← demand (functions method); storage_box f task past.

(** ** What a handler promises *)

(** A computation that neither ends the process nor runs for ever, only adds calls to
    the past ones, and whose result is as [Q] says; reading memory that is not there
    is left open. *)
Definition serves {A} (Q : A -> Prop) (m : box_m A) : Prop :=
  forall past, match m past with
  | Done (a, past') => Q a /\ past `prefix_of` past'
  | Faults => True
  | Exits _ | Spins => False
  end.
Definition answers {A} (Q : A -> Prop) (o : outcome A) : Prop :=
  match o with Done a => Q a | Faults => True | Exits _ | Spins => False end.

(** The answer to a task is the task, but for its output. *)
Definition same_task (task task' : executor_task) : Prop :=
  source task' = source task /\ target task' = target task /\ method task' = method task /\ task_id task' = task_id task /\
  owner task' = owner task /\ input task' = input task /\ input_size task' = input_size task.
End Handlers.

Lemma serves_ret {A} (Q : A -> Prop) a : Q a -> serves Q (box_ret a).
Proof. intros Ha past. by split. Qed.
Lemma serves_lift {A} (Q : A -> Prop) o : answers Q o -> serves Q (lift o).
Proof. intros Ho past. unfold lift. destruct o; try done. Qed.
Lemma serves_bind {A B} (P : A -> Prop) (Q : B -> Prop) m k : serves P m -> (forall a, P a -> serves Q (k a)) -> serves Q (box_bind m k).
Proof.
  intros Hm Hk past. unfold box_bind. specialize (Hm past). destruct (m past) as [[a past1]| | |]; try done.
  destruct Hm as [Pa Pre]. specialize (Hk a Pa past1). destruct (k a past1) as [[b past2]| | |]; try done.
  destruct Hk as [Qb Pre']. split; [done|]. by etrans.
Qed.
Lemma serves_call (database : list box_call -> box_call -> reply) c : serves (fun _ => True) (call database c).
Proof. intros past. split; [done|]. by eexists. Qed.
Lemma serves_weaken {A} (P Q : A -> Prop) m : (forall a, P a -> Q a) -> serves P m -> serves Q m.
Proof. intros PQ Hm past. specialize (Hm past). destruct (m past) as [[a past']| | |]; try done. destruct Hm. auto. Qed.

Create HintDb serves.
#[export] Hint Resolve serves_ret serves_call : serves.

(** After a call, whatever it answers. *)
Lemma serves_after (database : list box_call -> box_call -> reply) {A} (Q : A -> Prop) c k :
  (forall r, serves Q (k r)) -> serves Q (box_bind (call database c) k).
Proof. intros Hk. eapply serves_bind; [apply serves_call|auto]. Qed.

Ltac serve := repeat lazymatch goal with
  | |- serves _ (box_bind (call _ _) _) => apply serves_after; intros
  | |- serves _ (if ?b then _ else _) => destruct b
  | |- serves _ (box_ret _) => apply serves_ret; repeat split
  | |- serves _ (lift Faults) => apply serves_lift; exact I
  end; auto 2 with serves nocore.

(** ** The handlers keep the promise

    The buffers of the requests hold bytes. *)
Class Byte_memory (memory : requests) : Prop := {
  space_tuple_bytes at_ r : space_request_at memory at_ = Some r -> Forall byte_range (sr_tuple r);
  space_update_bytes at_ r : space_update_request_at memory at_ = Some r ->
    Forall byte_range (su_key r) /\ Forall byte_range (su_operations r);
  index_update_bytes at_ r : index_update_request_at memory at_ = Some r ->
    Forall byte_range (iu_key r) /\ Forall byte_range (iu_operations r);
}.

Section Serves.
Context {H : Hints} {HD : Documented_hints H} (database : list box_call -> box_call -> reply).

Lemma decode_answers buf p : Forall byte_range buf -> 0 <= p -> answers (fun '(_, q) => p <= q) (mp_decode_array buf p).
Proof.
  intros HB Hp. unfold mp_decode_array, mp_decode_array_slowpath.
  destruct (mp_load_u8_cases buf p HB) as [(c & -> & _ & _)|[-> _]]; [rewrite bind_done|done].
  case_match; [cbn; lia|]. case_match.
  - unfold mp_load_u16. destruct (mp_load_cases 2 buf (p + 1) HB) as [(v & -> & _)|[-> _]]; cbn; lia.
  - unfold mp_load_u32. destruct (mp_load_cases 4 buf (p + 1) HB) as [(v & -> & _)|[-> _]]; cbn; lia.
Qed.

Lemma answers_bind {A B} (P : A -> Prop) (Q : B -> Prop) (o : outcome A) k : answers P o -> (forall a, P a -> answers Q (k a)) -> answers Q (o ≫= k).
Proof. destruct o; cbn; auto. Qed.
Lemma answers_weaken {A} (P Q : A -> Prop) (o : outcome A) : (forall a, P a -> Q a) -> answers P o -> answers Q o.
Proof. destruct o; cbn; auto. Qed.

(** Skipping ends after where it starts, or faults, whatever the count does. *)
Section Skipping.
Context (buf : list Z) (HB : Forall byte_range buf).
Notation len := (Z.of_nat (length buf)).
Definition goes_on (p : Z) (m : outcome (Z * Z)) : Prop := answers (fun '(_, q) => p < q) m.

Lemma load_answers n load p : loads buf n load -> goes_on p (load buf p).
Proof. intros [Hn L]. unfold goes_on. destruct (L p) as [(v & -> & _ & ?)|[-> _]]; cbn; [lia|done]. Qed.
Lemma payload_answers n load p : loads buf n load -> answers (fun q => p < q) (skip_payload load buf p).
Proof. intros [Hn L]. unfold skip_payload. destruct (L p) as [(v & -> & ? & ?)|[-> _]]; cbn; [lia|done]. Qed.
Lemma ext_answers n load p : loads buf n load -> answers (fun q => p < q) (skip_ext load buf p).
Proof.
  intros [Hn L]. unfold skip_ext. destruct (L p) as [(v & -> & ? & ?)|[-> _]]; [rewrite bind_done|done].
  destruct (loads_u8 buf HB) as [_ L8]. destruct (L8 (p + n)) as [(w & -> & ? & ?)|[-> _]]; cbn; [lia|done].
Qed.
Lemma count_answers wide k n : answers (fun _ => True) ((if wide : bool then count_add_wide else count_add) k n).
Proof. unfold count_add_wide, count_add. destruct wide; case_match; done. Qed.

Lemma skip_same_answers fuel c p k : 0 <= p -> (Z.to_nat (len - p) < fuel)%nat ->
  answers (fun '(q, _) => p <= q) (skip_same fuel buf c p k).
Proof.
  revert p k. induction fuel as [|fuel IH]; intros p k Hp Hf; [lia|]. cbn [skip_same].
  destruct (k >? 8); [|cbn; lia]. destruct (loads_u64 buf HB) as [_ L].
  destruct (L p) as [(u & -> & ? & ?)|[-> _]]; [rewrite bind_done|done]. case_match; [cbn; lia|].
  eapply answers_weaken; [|apply IH; lia]. intros [q k'] ?. lia.
Qed.

Lemma slowpath_answers fuel p k : 0 <= p -> (Z.to_nat (len - p) < fuel)%nat -> answers (fun q => p <= q) (mp_next_slowpath fuel buf p k).
Proof.
  revert p k. induction fuel as [|fuel IH]; intros p k Hp Hf; [lia|]. cbn [mp_next_slowpath].
  destruct (k <=? 0); [cbn; lia|]. destruct (mp_load_u8_cases buf p HB) as [(c & -> & _ & Hl)|[-> _]]; [|done]. rewrite bind_done. cbv zeta.
  assert (Next : forall q k', p < q -> answers (fun q => p <= q) (mp_next_slowpath fuel buf q k')).
  { intros q k' Hq. eapply answers_weaken; [|apply IH; lia]. cbn. lia. }
  assert (Add : forall wide n q, p < q -> answers (fun q => p <= q)
    ((if wide : bool then count_add_wide else count_add) k n ≫= (fun k => mp_next_slowpath fuel buf q (k - 1)))).
  { intros wide n q Hq. eapply answers_bind; [apply count_answers|]. intros k' _. by apply Next. }
  destruct (Z.leb_spec 0 (mp_parser_hint c)).
  { case_match; [|apply Next; lia].
    eapply answers_bind; [apply skip_same_answers; lia|]. intros [q k'] Hq. apply Next. lia. }
  destruct (MP_HINT <? _); [apply (Add false); lia|].
  repeat case_match;
    [eapply answers_bind; [eapply payload_answers|]|eapply answers_bind; [eapply payload_answers|]|eapply answers_bind; [eapply payload_answers|]
    |eapply answers_bind; [eapply load_answers|]|eapply answers_bind; [eapply load_answers|]
    |eapply answers_bind; [eapply load_answers|]|eapply answers_bind; [eapply load_answers|]
    |eapply answers_bind; [eapply ext_answers|]|eapply answers_bind; [eapply ext_answers|]|eapply answers_bind; [eapply ext_answers|]|done];
    eauto using loads_u8, loads_u16, loads_u32; try (intros q Hq; cbn in Hq; apply Next; lia);
    intros [n q] Hq; first [apply (Add false); lia|apply (Add true); lia].
Qed.

Lemma next_loop_answers fuel p k : 0 <= p -> (Z.to_nat (len - p) < fuel)%nat -> answers (fun q => p <= q) (next_loop fuel buf p k).
Proof.
  revert p k. induction fuel as [|fuel IH]; intros p k Hp Hf; [lia|]. cbn [next_loop].
  destruct (k <=? 0); [cbn; lia|]. destruct (mp_load_u8_cases buf p HB) as [(c & -> & _ & Hl)|[-> _]]; [|done]. rewrite bind_done. cbv zeta.
  assert (Next : forall q k', p < q -> answers (fun q => p <= q) (next_loop fuel buf q k')).
  { intros q k' Hq. eapply answers_weaken; [|apply IH; lia]. cbn. lia. }
  destruct (Z.leb_spec 0 (mp_parser_hint c)); [apply Next; lia|].
  case_match.
  { destruct (loads_u8 buf HB) as [_ L8]. destruct (L8 (p + 1)) as [(v & -> & ? & ?)|[-> _]]; [|done]. rewrite bind_done. apply Next. lia. }
  case_match; [eapply answers_bind; [apply (count_answers false)|]; intros; apply Next; lia|].
  replace (p + 1 - 1) with p by lia. by apply slowpath_answers.
Qed.

Lemma next_answers p : 0 <= p -> answers (fun q => p <= q) (next buf p).
Proof. intros Hp. apply next_loop_answers; lia. Qed.
End Skipping.

Lemma send_error_serves task : serves (same_task task) (storage_send_error database task).
Proof. unfold storage_send_error. serve. Qed.
#[local] Hint Resolve send_error_serves : serves.

Lemma abandon_serves task port transaction : serves (same_task task) (abandon database task port transaction).
Proof. unfold abandon. serve. Qed.
Lemma finish_serves task port transaction : serves (same_task task) (finish database task port transaction).
Proof. unfold finish. serve. Qed.
Lemma keep_serves task port transaction w k : serves (same_task task) k -> serves (same_task task) (keep database task port transaction w k).
Proof. intros Hk. unfold keep. destruct (_ <? 0); [apply abandon_serves|]. do 2 (apply serves_after; intros). case_match; [apply abandon_serves|done]. Qed.

Section Buffer.
Context (task : executor_task) (port transaction : Z) (buffer : list Z) (HB : Forall byte_range buffer).

Lemma next_serves p k : 0 <= p -> (forall q, 0 <= q -> serves (same_task task) (k q)) ->
  serves (same_task task) (box_bind (lift (next buffer p)) k).
Proof.
  intros Hp Hk. eapply serves_bind; [apply serves_lift, (next_answers buffer HB p Hp)|]. intros q Hq. apply Hk. cbn in Hq. lia.
Qed.
Lemma decode_serves p k : 0 <= p -> (forall n q, 0 <= q -> serves (same_task task) (k (n, q))) ->
  serves (same_task task) (box_bind (lift (mp_decode_array buffer p)) k).
Proof.
  intros Hp Hk. eapply serves_bind; [apply serves_lift, (decode_answers buffer p HB Hp)|]. intros [n q] Hq. apply Hk. lia.
Qed.

Lemma insert_loop_serves count space : forall p, 0 <= p -> serves (same_task task) (insert_loop database task port transaction count space buffer p).
Proof.
  induction count as [|count IH]; intros p Hp; cbn [insert_loop]; [apply finish_serves|].
  apply next_serves; [done|]. intros q Hq. apply serves_after. intros. apply keep_serves. auto.
Qed.
Lemma put_loop_serves count space : forall p p', 0 <= p -> 0 <= p' ->
  serves (same_task task) (put_loop database task port transaction count space buffer p p').
Proof.
  induction count as [|count IH]; intros p p' Hp Hp'; cbn [put_loop]; [apply finish_serves|].
  apply decode_serves; [done|]. intros n q Hq. apply serves_after. intros. apply keep_serves, next_serves; auto.
Qed.
Lemma delete_loop_serves count space : forall p p', 0 <= p -> 0 <= p' ->
  serves (same_task task) (delete_loop database task port transaction count space buffer p p').
Proof.
  induction count as [|count IH]; intros p p' Hp Hp'; cbn [delete_loop]; [apply finish_serves|].
  apply decode_serves; [done|]. intros n q Hq. apply serves_after. intros. apply keep_serves, next_serves; auto.
Qed.
End Buffer.

Lemma update_loop_serves task port transaction keys operations count space index :
  Forall byte_range keys -> Forall byte_range operations -> forall p p' o o', 0 <= p -> 0 <= p' -> 0 <= o -> 0 <= o' ->
  serves (same_task task) (update_loop database task port transaction count space index keys operations p p' o o').
Proof.
  intros HK HO. induction count as [|count IH]; intros p p' o o' Hp Hp' Ho Ho'; cbn [update_loop]; [apply finish_serves|].
  apply (decode_serves task keys HK); [done|]. intros n q Hq. apply (decode_serves task operations HO); [done|]. intros m r Hr.
  apply serves_after. intros. apply keep_serves. apply (next_serves task keys HK); [done|]. intros q' Hq'.
  apply (next_serves task operations HO); [done|]. auto.
Qed.

(** Below [2 ^ 32] the counter does not start again. *)
Lemma iterator_loop_serves task port fuel found : 0 <= found -> input_size task < 2 ^ 32 -> input_size task - found <= Z.of_nat fuel ->
  serves (same_task task) (iterator_loop database fuel task port found).
Proof.
  intros H0 HI. revert found H0. induction fuel as [|fuel IH]; intros found H0 Hf; cbn [iterator_loop];
    (destruct (Z.ltb_spec found (input_size task)); [|serve]); [lia|]. serve.
  rewrite wrap_small by (pow2_norm; lia). apply IH; lia.
Qed.

Lemma new_port_serves {A} (Q : A -> Prop) k : (forall port, serves Q (k port)) -> serves Q (box_bind (new_port database) k).
Proof.
  intros Hk. eapply (serves_bind (fun _ => True)); [|auto]. unfold new_port. do 2 (apply serves_after; intros). by apply serves_ret.
Qed.

Lemma with_request_serves {A} (view : Z -> option A) handler task :
  (forall r, view (input task) = Some r -> serves (same_task task) (handler r task)) -> serves (same_task task) (with_request view handler task).
Proof.
  intros Hh. unfold with_request. eapply (serves_bind (fun r => view (input task) = Some r)); [|exact Hh].
  apply serves_lift. by destruct (view (input task)).
Qed.

Lemma lua_serves task run arguments : serves (same_task task) (run_lua database task run arguments).
Proof. unfold run_lua, copy_results. cbv zeta. serve. Qed.

(** The size of the input of a task counts the tuples to get; a number of them is
    below the bound of the counter. *)
Definition counted_input (f : storage_function) (task : executor_task) : Prop :=
  f = Storage_iterator_next_many -> input_size task < 2 ^ 32.

Lemma handler_serves memory f task : Byte_memory memory -> counted_input f task ->
  serves (same_task task) (storage_box database memory f task).
Proof.
  intros BM HI. destruct f; cbn [storage_box]; try (apply with_request_serves; intros r Hr);
    try (unfold storage_iterator_next_single, storage_iterator_destroy, storage_free_output_buffer, storage_space_id_by_name,
           storage_space_count, storage_space_length, storage_space_iterator, storage_space_insert_single, storage_space_put_single,
           storage_space_delete_single, storage_space_update_single, storage_space_select, storage_space_get, storage_space_min,
           storage_space_max, storage_space_truncate, storage_space_upsert, storage_index_count, storage_index_length,
           storage_index_iterator, storage_index_get, storage_index_max, storage_index_min, storage_index_update_single,
           storage_index_select, storage_index_id_by_name, answer_tuple, answer_port; serve; fail).
  - apply lua_serves.
  - apply lua_serves.
  - apply new_port_serves. intros port. apply iterator_loop_serves; [done|by apply HI|lia].
  - apply new_port_serves. intros port. apply decode_serves; [by eapply space_tuple_bytes|done|]. intros n q Hq. apply serves_after. intros.
    apply insert_loop_serves; [by eapply space_tuple_bytes|done].
  - apply new_port_serves. intros port. apply decode_serves; [by eapply space_tuple_bytes|done|]. intros n q Hq. apply serves_after. intros.
    apply put_loop_serves; [by eapply space_tuple_bytes|done..].
  - apply new_port_serves. intros port. apply decode_serves; [by eapply space_tuple_bytes|done|]. intros n q Hq. apply serves_after. intros.
    apply delete_loop_serves; [by eapply space_tuple_bytes|done..].
  - destruct (space_update_bytes _ _ Hr) as [HK HO]. apply new_port_serves. intros port. apply decode_serves; [done..|]. intros n q Hq.
    apply decode_serves; [done..|]. intros m o Ho. apply serves_after. intros. by apply update_loop_serves.
  - destruct (index_update_bytes _ _ Hr) as [HK HO]. apply new_port_serves. intros port. apply decode_serves; [done..|]. intros n q Hq.
    apply decode_serves; [done..|]. intros m o Ho. apply serves_after. intros. by apply update_loop_serves.
Qed.
End Serves.

(** ** When the handlers answer

    A batch is the encoding of an array; a request is well formed when it is there,
    with the batches its handler reads. *)
Section Well_formed.
Context {H : Hints}.
Definition holds_batch (buf : list Z) (vs : list value) : Prop :=
  Forall byte_range buf /\ Z.of_nat (length buf) < 2 ^ 63 /\ sized (Array vs) /\ exists post, buf = encode (Array vs) ++ post.
Definition holds_arrays (buf : list Z) (ls : list (list value)) : Prop := holds_batch buf (map Array ls).
Definition holds_updates (keys operations : list Z) : Prop :=
  exists ks os, holds_arrays keys ks /\ holds_arrays operations os /\ (length ks <= length os)%nat.

Definition well_formed (memory : requests) (f : storage_function) (task : executor_task) : Prop :=
  let at_ := input task in
  match f with
  | Storage_evaluate => is_Some (evaluate_request_at memory at_)
  | Storage_call => is_Some (call_request_at memory at_)
  | Storage_space_count => is_Some (space_count_request_at memory at_)
  | Storage_space_iterator => is_Some (space_iterator_request_at memory at_)
  | Storage_space_insert_many => exists r vs, space_request_at memory at_ = Some r /\ holds_batch (sr_tuple r) vs
  | Storage_space_put_many | Storage_space_delete_many =>
      exists r ls, space_request_at memory at_ = Some r /\ holds_arrays (sr_tuple r) ls
  | Storage_space_update_many => exists r, space_update_request_at memory at_ = Some r /\ holds_updates (su_key r) (su_operations r)
  | Storage_index_update_many => exists r, index_update_request_at memory at_ = Some r /\ holds_updates (iu_key r) (iu_operations r)
  | Storage_space_insert_single | Storage_space_put_single | Storage_space_delete_single | Storage_space_get | Storage_space_min
  | Storage_space_max => is_Some (space_request_at memory at_)
  | Storage_space_update_single => is_Some (space_update_request_at memory at_)
  | Storage_space_select => is_Some (space_select_request_at memory at_)
  | Storage_space_upsert => is_Some (space_upsert_request_at memory at_)
  | Storage_index_count => is_Some (index_count_request_at memory at_)
  | Storage_index_length => is_Some (index_id_request_at memory at_)
  | Storage_index_iterator => is_Some (index_iterator_request_at memory at_)
  | Storage_index_get | Storage_index_max | Storage_index_min => is_Some (index_request_at memory at_)
  | Storage_index_update_single => is_Some (index_update_request_at memory at_)
  | Storage_index_select => is_Some (index_select_request_at memory at_)
  | Storage_index_id_by_name => is_Some (index_id_by_name_request_at memory at_)
  | Storage_iterator_next_single | Storage_iterator_next_many | Storage_iterator_destroy | Storage_free_output_buffer
  | Storage_space_id_by_name | Storage_space_length | Storage_space_truncate => True
  end.

End Well_formed.

(** There is memory for the answers of Lua. *)
Definition allocates (database : list box_call -> box_call -> reply) : Prop :=
  forall past size, given (database past (Smalloc size)) <> 0.

Definition completes {A} (m : box_m A) : Prop := forall past, exists a past', m past = Done (a, past').

Section Completes.
Context {H : Hints} {HD : Documented_hints H} (database : list box_call -> box_call -> reply).

Lemma completes_ret {A} (a : A) : completes (box_ret a).
Proof. intros past. by eexists _, _. Qed.
Lemma completes_after {A} c (k : reply -> box_m A) : (forall r, completes (k r)) -> completes (box_bind (call database c) k).
Proof. intros Hk past. apply Hk. Qed.
Lemma completes_lift {A B} (o : outcome A) a (k : A -> box_m B) : o = Done a -> completes (k a) -> completes (box_bind (lift o) k).
Proof. intros -> Hk past. apply Hk. Qed.
Lemma completes_new_port {A} (k : Z -> box_m A) : (forall port, completes (k port)) -> completes (box_bind (new_port database) k).
Proof. intros Hk past. unfold new_port, box_bind, Box.call, box_ret. apply Hk. Qed.

Lemma send_error_completes task : completes (storage_send_error database task).
Proof. apply completes_after. intros r. destruct (negb _); apply completes_after; intros; apply completes_ret. Qed.
Ltac complete := cbv beta iota; repeat lazymatch goal with
  | |- completes (box_bind (call _ _) _) => apply completes_after; intros
  | |- completes (if ?b then _ else _) => destruct b
  | |- completes (box_ret _) => apply completes_ret
  | |- completes (storage_send_error _ _) => apply send_error_completes
  end.

Lemma finish_completes task port transaction : completes (finish database task port transaction).
Proof. unfold finish. complete. Qed.
Lemma keep_completes task port transaction w k : completes k -> completes (keep database task port transaction w k).
Proof. intros Hk. unfold keep, abandon. complete. exact Hk. Qed.

Lemma array_start_of buf vs : holds_batch buf vs ->
  exists post, mp_decode_array buf 0 = Done (Z.of_nat (length vs), Z.of_nat (length (mp_encode_array (Z.of_nat (length vs))))) /\
    buf = mp_encode_array (Z.of_nat (length vs)) ++ encodes vs ++ post.
Proof. intros (HB & HL & HS & post & E). exists post. split; [eapply array_start; [apply HS|exact E]|by apply array_batch]. Qed.

Section Batch.
Context (task : executor_task) (port transaction : Z) (buffer : list Z) (HB : Forall byte_range buffer)
  (HL : Z.of_nat (length buffer) < 2 ^ 63).
Notation len l := (Z.of_nat (length l)).

(** The value at a place, and the place of the one after. *)
Lemma batch_next v vs pre post : sized v -> buffer = pre ++ encodes (v :: vs) ++ post ->
  next buffer (len pre) = Done (len (pre ++ encode v)) /\ buffer = (pre ++ encode v) ++ encodes vs ++ post.
Proof.
  intros S E. rewrite encodes_cons, <- app_assoc in E. rewrite length_app, Nat2Z.inj_add. split; [by eapply next_value|].
  by rewrite <- app_assoc.
Qed.
Lemma batch_decode l vs pre post : sized (Array l) -> buffer = pre ++ encodes (Array l :: vs) ++ post ->
  exists p, mp_decode_array buffer (len pre) = Done (len l, p).
Proof. intros [S _] E. rewrite encodes_cons, <- app_assoc in E. by eapply decode_elements. Qed.

Lemma insert_loop_completes vs space : forall pre post, buffer = pre ++ encodes vs ++ post -> all_sized vs ->
  completes (insert_loop database task port transaction (length vs) space buffer (len pre)).
Proof.
  induction vs as [|v vs IH]; intros pre post E S; cbn [length insert_loop]; [apply finish_completes|]. destruct S as [Sv Svs].
  destruct (batch_next v vs pre post Sv E) as [N E']. eapply completes_lift; [exact N|]. complete. apply keep_completes. by eapply IH.
Qed.
Lemma put_loop_completes ls space : forall pre post, buffer = pre ++ encodes (map Array ls) ++ post -> all_sized (map Array ls) ->
  completes (put_loop database task port transaction (length ls) space buffer (len pre) (len pre)) /\
  completes (delete_loop database task port transaction (length ls) space buffer (len pre) (len pre)).
Proof.
  induction ls as [|l ls IH]; intros pre post E S; cbn [length put_loop delete_loop]; [split; apply finish_completes|].
  cbn [map] in E. destruct S as [Sv Svs]. destruct (batch_decode l _ pre post Sv E) as [p D].
  destruct (batch_next _ _ pre post Sv E) as [N E']. destruct (IH _ _ E' Svs).
  split; (eapply completes_lift; [exact D|]; complete; apply keep_completes; eapply completes_lift; [exact N|done]).
Qed.
End Batch.

Lemma update_loop_completes task port transaction space index keys operations
  (HK : Forall byte_range keys) (HKL : Z.of_nat (length keys) < 2 ^ 63)
  (HO : Forall byte_range operations) (HOL : Z.of_nat (length operations) < 2 ^ 63) ks : forall os pre post pre' post',
  keys = pre ++ encodes (map Array ks) ++ post -> operations = pre' ++ encodes (map Array os) ++ post' ->
  all_sized (map Array ks) -> all_sized (map Array os) -> (length ks <= length os)%nat ->
  completes (update_loop database task port transaction (length ks) space index keys operations
    (Z.of_nat (length pre)) (Z.of_nat (length pre)) (Z.of_nat (length pre')) (Z.of_nat (length pre'))).
Proof.
  induction ks as [|k ks IH]; intros [|o os] pre post pre' post' EK EO SK SO L; cbn [length update_loop] in *; try apply finish_completes; [lia|].
  cbn [map] in EK, EO. destruct SK as [Sk SK], SO as [So SO].
  destruct (batch_decode keys k _ pre post Sk EK) as [p D], (batch_decode operations o _ pre' post' So EO) as [p' D'].
  destruct (batch_next keys HK HKL _ _ pre post Sk EK) as [N EK'], (batch_next operations HO HOL _ _ pre' post' So EO) as [N' EO'].
  eapply completes_lift; [exact D|]. eapply completes_lift; [exact D'|]. complete. apply keep_completes.
  eapply completes_lift; [exact N|]. eapply completes_lift; [exact N'|]. eapply IH; [exact EK'|exact EO'|done|done|lia].
Qed.

Lemma updates_complete task space index keys operations : holds_updates keys operations ->
  completes (box_bind (new_port database) (fun port =>
    box_bind (lift (mp_decode_array keys 0)) (fun '(count, key_batch) =>
    box_bind (lift (mp_decode_array operations 0)) (fun '(_, operation_batch) =>
    box_bind (call database Txn_begin) (fun transaction =>
    update_loop database task port (given transaction) (Z.to_nat count) space index keys operations
      key_batch key_batch operation_batch operation_batch))))).
Proof.
  intros (ks & os & K & O & L). apply completes_new_port. intros port.
  destruct (array_start_of _ _ K) as (post & D & EK), (array_start_of _ _ O) as (post' & D' & EO).
  eapply completes_lift; [exact D|]. eapply completes_lift; [exact D'|]. complete. rewrite Nat2Z.id, length_map.
  rewrite length_map in EK, EO. rewrite length_map.
  destruct K as (? & ? & (_ & ?) & _), O as (? & ? & (_ & ?) & _). eapply update_loop_completes; eauto.
Qed.

Lemma iterator_loop_completes task port fuel found : 0 <= found -> input_size task < 2 ^ 32 -> input_size task - found <= Z.of_nat fuel ->
  completes (iterator_loop database fuel task port found).
Proof.
  intros H0 HI. revert found H0. induction fuel as [|fuel IH]; intros found H0 Hf; cbn [iterator_loop];
    (destruct (Z.ltb_spec found (input_size task)); [|complete]); [lia|]. complete.
  rewrite wrap_small by (pow2_norm; lia). apply IH; lia.
Qed.

Lemma lua_completes task run arguments : allocates database -> completes (run_lua database task run arguments).
Proof.
  intros Al. unfold run_lua, copy_results. cbv zeta. do 3 (apply completes_after; intros). destruct (negb _); [complete|].
  do 3 (apply completes_after; intros). intros past. cbv beta delta [box_bind Box.call box_ret lift] iota.
  rewrite (proj2 (Z.eqb_neq _ _)) by apply Al. eexists _, _. reflexivity.
Qed.

Lemma handler_completes memory f task : allocates database -> well_formed memory f task -> counted_input f task ->
  completes (storage_box database memory f task).
Proof.
  intros Al WF HI. destruct f; cbn [storage_box well_formed] in *; cbv zeta in *; unfold with_request;
    try (destruct WF as [r Hr]; eapply completes_lift; [rewrite Hr; reflexivity|]);
    try (unfold storage_iterator_next_single, storage_iterator_destroy, storage_free_output_buffer, storage_space_id_by_name,
           storage_space_count, storage_space_length, storage_space_iterator, storage_space_insert_single, storage_space_put_single,
           storage_space_delete_single, storage_space_update_single, storage_space_select, storage_space_get, storage_space_min,
           storage_space_max, storage_space_truncate, storage_space_upsert, storage_index_count, storage_index_length,
           storage_index_iterator, storage_index_get, storage_index_max, storage_index_min, storage_index_update_single,
           storage_index_select, storage_index_id_by_name, answer_tuple, answer_port; complete; fail).
  - by apply lua_completes.
  - by apply lua_completes.
  - apply completes_new_port. intros port. apply iterator_loop_completes; [done|by apply HI|lia].
  - destruct WF as (r & vs & Hr & B). eapply completes_lift; [by rewrite Hr|]. apply completes_new_port. intros port.
    destruct (array_start_of _ _ B) as (post & D & E). eapply completes_lift; [exact D|]. complete. rewrite Nat2Z.id.
    destruct B as (? & ? & [_ ?] & _). by eapply insert_loop_completes.
  - destruct WF as (r & ls & Hr & B). eapply completes_lift; [by rewrite Hr|]. apply completes_new_port. intros port.
    destruct (array_start_of _ _ B) as (post & D & E). eapply completes_lift; [exact D|]. complete. rewrite length_map in *. rewrite Nat2Z.id.
    destruct B as (? & ? & [_ ?] & _). by eapply put_loop_completes.
  - destruct WF as (r & ls & Hr & B). eapply completes_lift; [by rewrite Hr|]. apply completes_new_port. intros port.
    destruct (array_start_of _ _ B) as (post & D & E). eapply completes_lift; [exact D|]. complete. rewrite length_map in *. rewrite Nat2Z.id.
    destruct B as (? & ? & [_ ?] & _). by eapply put_loop_completes.
  - destruct WF as (r & Hr & U). eapply completes_lift; [by rewrite Hr|]. by apply updates_complete.
  - destruct WF as (r & Hr & U). eapply completes_lift; [by rewrite Hr|]. by apply updates_complete.
Qed.
End Completes.

(** An iterator that gives tuples for ever is read for ever, once the counter starts
    again below the number of tuples to get, however many rounds are made. *)
Theorem iterator_next_many_wraps {H : Hints} (database : list box_call -> box_call -> reply) task past
  (HI : 2 ^ 32 <= input_size task)
  (HT : forall past, 0 <= status (database past (Box_iterator_next (input task))) /\ given (database past (Box_iterator_next (input task))) <> 0)
  (HP : forall past port tuple, status (database past (Port_c_add_tuple port tuple)) = 0) fuel port :
  iterator_loop database fuel task port 0 past = Spins.
Proof.
  assert (L : forall found past, 0 <= found < 2 ^ 32 -> iterator_loop database fuel task port found past = Spins); [|by apply L].
  clear past. induction fuel as [|fuel IH]; intros found past Hf; cbn [iterator_loop]; rewrite (proj2 (Z.ltb_lt _ _)) by lia; [done|].
  unfold box_bind, Box.call. destruct (HT past) as [St Gi].
  rewrite (proj2 (Z.ltb_ge _ _)), (proj2 (Z.eqb_neq _ _)) by done. cbn [orb]. rewrite HP. cbn [Z.eqb negb].
  apply IH, wrap_bound. lia.
Qed.

(** The interface of the executor of the storage. *)
Lemma iterator_loop_keeps (database : list box_call -> box_call -> reply) task port fuel : forall found past task' past',
  iterator_loop database fuel task port found past = Done (task', past') -> same_task task task'.
Proof.
  induction fuel as [|fuel IH]; intros found past task' past'; cbn [iterator_loop]; destruct (found <? input_size task);
    try (intros [= <- _]; repeat split; fail).
  unfold box_bind at 1, Box.call at 1. case_match.
  { unfold box_bind, Box.call. intros E. match type of E with storage_send_error _ _ ?p = _ => pose proof (send_error_serves database task p) as S end.
    rewrite E in S. apply S. }
  unfold box_bind at 1, Box.call at 1. case_match; [|apply IH].
  unfold box_bind, Box.call. intros E. match type of E with storage_send_error _ _ ?p = _ => pose proof (send_error_serves database task p) as S end.
  rewrite E in S. apply S.
Qed.

Lemma handler_keeps {H : Hints} {HD : Documented_hints H} database memory f task past task' past' : Byte_memory memory ->
  storage_box database memory f task past = Done (task', past') -> same_task task task'.
Proof.
  intros BM E. destruct (decide (f = Storage_iterator_next_many)) as [->|N].
  - cbn [storage_box] in E. unfold storage_iterator_next_many, new_port, box_bind, Box.call, box_ret in E. by eapply iterator_loop_keeps.
  - pose proof (handler_serves database memory f task BM (fun F => match N F with end) past) as S. rewrite E in S. apply S.
Qed.

Lemma handlers_keep_route {H : Hints} {HD : Documented_hints H} database memory functions :
  Byte_memory memory -> keeps_route (call_method database memory functions).
Proof.
  intros BM m task w task' w'. unfold call_method. destruct (functions m) as [f|]; [|done]. cbn [demand]. rewrite bind_done. intros E.
  by destruct (handler_keeps database memory f task w _ _ BM E) as (? & ? & ? & _).
Qed.

(** ** Theorems *)


(** ** Witness: a batch of one tuple *)

Definition one_request : requests :=
  Requests (fun _ => None) (fun _ => None) (fun _ => None) (fun _ => None)
    (fun at_ => if at_ =? 64 then Some (SpaceRequest 3 [0x91; 0x91; 7] 512) else None)
    (fun _ => None) (fun _ => None) (fun _ => None) (fun _ => None) (fun _ => None) (fun _ => None) (fun _ => None)
    (fun _ => None) (fun _ => None) (fun _ => None).
Definition any_database (past : list box_call) (c : box_call) : reply := Reply 0 1 [] 0.
Definition a_sent_task : executor_task := ExecutorTask 1 7 3 7 4096 64 0 0 0 0.

Lemma one_request_bytes : Byte_memory one_request.
Proof.
  split; intros at_ r; cbn [one_request space_request_at space_update_request_at index_update_request_at]; try done.
  case_match; [|done]. intros [= <-]. repeat constructor; unfold byte_range; lia.
Qed.

