(* ===== verification/StorageExchange.v ===== *)
(** * The exchange with the handlers of the storage ([storage/native/storage/executor.c], [box.c])

    The steps of [Exchange], with the table of [Handlers] behind [task->method] and
    the database as the world: what executors call comes back. *)
From stdpp Require Import strings relations.
From S2P Require Import Prelude MsgPack MsgSkip MsgSkipTheorems MsgCodec MsgValues Events Uring Executor Box BoxTheorems StorageExecutor Exchange Handlers.

Section Storage_exchange.
Context {H : Hints} {HD : Documented_hints H} (database : list box_call -> box_call -> reply) (memory : requests).
Context (functions : Z -> option storage_function).

(** A task that names a handler of the table and has the request of this handler. *)
Definition servable (task : executor_task) : Prop :=
  exists f, functions (method task) = Some f /\ well_formed memory f task /\ counted_input f task.

Lemma servable_like task task' : method task' = method task -> input task' = input task -> input_size task' = input_size task ->
  servable task -> servable task'.
Proof.
  intros Em Ei Es (f & Ef & WF & C). exists f. rewrite Em. split; [done|]. split.
  - unfold well_formed in *. rewrite Ei. exact WF.
  - intros F. rewrite Es. by apply C.
Qed.

Lemma servable_route task source target : servable task -> servable (with_route task source target).
Proof. by apply servable_like. Qed.

Lemma servable_served task w : Byte_memory memory -> allocates database -> servable task ->
  exists task' w', call_method database memory functions (method task) task w = Done (task', w') /\ servable task'.
Proof.
  intros BM Al (f & Ef & WF & C). destruct (handler_completes database memory f task Al WF C w) as (task' & w' & E).
  exists task', w'. unfold call_method. rewrite Ef. cbn [demand]. rewrite bind_done. split; [exact E|].
  destruct (handler_keeps database memory f task w task' w' BM E) as (_ & _ & Em & _ & _ & Ei & Es).
  apply (servable_like task); [done..|]. by exists f.
Qed.
End Storage_exchange.

(** ** Theorems *)


(** ** Witness: the executor 7 inserts a batch of one tuple *)

Definition insert_task : executor_task := ExecutorTask 1 0 0 7 4096 64 0 0 0 0.
Definition insert_functions (m : Z) : option storage_function := if m =? 4096 then Some Storage_space_insert_many else None.
Definition one_insert : exchange (R := list_ring) (W := list box_call) :=
  Exchange (<[7 := idle_client 7]> ∅)
    (StorageState (StorageExecutor (ListRing 3 4 [] []) (ExecutorConfiguration 4 0) 3 true) (<[100 := insert_task]> ∅) []) 0 [].

Lemma one_insert_fresh : fresh one_insert.
Proof.
  split; [|done..]. intros d c. cbn [clients one_insert]. intros [[<- <-]|[_ ?%lookup_empty_Some]]%lookup_insert_Some; [|done].
  split_and!; try done; try lia; split; [cbn; set_solver|done].
Qed.
Lemma insert_task_servable : servable (H := message_pack_hints) one_request insert_functions insert_task.
Proof.
  exists Storage_space_insert_many. split_and!; [reflexivity| |discriminate].
  exists (SpaceRequest 3 [0x91; 0x91; 7] 512), [Array [Uint 7]]. split; [reflexivity|]. split_and!.
  - repeat constructor; unfold byte_range; lia.
  - cbn. lia.
  - cbn. lia.
  - exists []. reflexivity.
Qed.

Definition insert_run := call_method (H := message_pack_hints) any_database one_request insert_functions.
Lemma insert_called : exists x, rtc (exchange_step insert_run some_event) one_insert x /\
  (cl_called <$> clients x !! 7) = Some [100] /\ st_active (executor (storage x)) = true.
Proof.
  eexists. split; [apply rtc_once; eapply (Step_call _ _ one_insert 7 (idle_client 7) 100 insert_task)|split; vm_compute; reflexivity].
  - reflexivity.
  - done.
  - intros [N|(d & c & E & N)]; [by apply not_elem_of_nil in N|]. cbn [clients one_insert] in E.
    apply lookup_insert_Some in E as [[<- <-]|[_ ?%lookup_empty_Some]]; [|done]. vm_compute in N. by apply not_elem_of_nil in N.
  - reflexivity.
  - apply Calls_native. vm_compute. reflexivity.
Qed.

