(* ===== verification/Dart.v ===== *)
(** * Calls into the Dart runtime ([core/native/dart/dart.c])

    Wrappers of the embedding interface, which is not part of the repository:
    [api] gives, for the calls made before and a call, what is returned and what is
    written through the pointer the call is given.  A handle is its address, 0 is
    [NULL].  [Dart_PropagateError] does not come back when there is Dart code to
    return to; what follows here is the case in which it does. *)
From stdpp Require Import strings.
From S2P Require Import Prelude.

Inductive dart_call :=
| New_string (native : string)
| New_integer (native : Z)
| New_integer_from_uint64 (native : Z)
| New_boolean (native : bool)
| String_utf8_length (value : Z)
| String_to_c_string (value : Z)
| Integer_to_int64 (value : Z)
| Integer_to_uint64 (value : Z)
| Boolean_value (value : Z)
| Double_value (value : Z)
| Lookup_library (url : Z)
| Get_class (library name : Z)
| Get_loaded_libraries
| List_length (list : Z)
| List_get_at (list index : Z)
| Invoke (target name count : Z) (arguments : list Z)
| New_object (type constructor count : Z) (arguments : list Z)
| Null
| Is_error (handle : Z)
| Is_null (handle : Z)
| Propagate_error (handle : Z)
| Calloc_string (length : Z)
| Free_string (at_ : Z).

Record dart_reply := DartReply { returned : Z; written : Z }.

Section Dart.
Context (api : list dart_call -> dart_call -> dart_reply).

Definition dart_m (A : Type) : Type := list dart_call -> A * list dart_call.
Definition dart_ret {A} (a : A) : dart_m A := fun past => (a, past).
Definition dart_bind {A B} (m : dart_m A) (k : A -> dart_m B) : dart_m B := fun past => let '(a, past) := m past in k a past.
Definition ask (c : dart_call) : dart_m dart_reply := fun past => (api past c, past ++ [c]).
Notation "x <- m ;; k" := (dart_bind m (fun x => k)) (at level 100, m at next level, right associativity).
Notation "m ;; k" := (dart_bind m (fun _ => k)) (at level 100, right associativity).

(** A C boolean of the interface. *)
Definition is_true (r : dart_reply) : bool := negb (returned r =? 0).

Definition dart_check (handle : Z) : dart_m bool :=
  error <- ask (Is_error handle);;
  if is_true error then ask (Propagate_error handle);; dart_ret false else dart_ret true.
Definition dart_check_with_null (handle : Z) : dart_m bool :=
  error <- ask (Is_error handle);;
  if is_true error then ask (Propagate_error handle);; dart_ret false else
  null <- ask (Is_null handle);; dart_ret (negb (is_true null)).

(** [if (!check(result)) return NULL; return result;] *)
Definition checked_handle (check : Z -> dart_m bool) (result : dart_reply) : dart_m Z :=
  ok <- check (returned result);; dart_ret (if (ok : bool) then returned result else 0).

Definition dart_from_string (native : string) : dart_m Z := result <- ask (New_string native);; checked_handle dart_check_with_null result.
Definition dart_from_signed (native : Z) : dart_m Z := result <- ask (New_integer native);; checked_handle dart_check_with_null result.
Definition dart_from_unsigned (native : Z) : dart_m Z :=
  result <- ask (New_integer_from_uint64 native);; checked_handle dart_check_with_null result.
Definition dart_from_bool (native : bool) : dart_m Z := result <- ask (New_boolean native);; checked_handle dart_check_with_null result.
(** It calls itself. *)
Fixpoint dart_from_double (fuel : nat) (native : Z) : outcome (dart_m Z) :=
  match fuel with
  | O => Spins
  | S fuel => m ← dart_from_double fuel native; Done (result <- m;; checked_handle dart_check_with_null (DartReply result 0))
  end.

(** The address of the text, and the flag if it was set; the pointer to the buffer is
    written over by the interface when it succeeds, and kept when it does not. *)
Definition dart_to_string (value : Z) : dart_m (Z * option bool) :=
  length <- ask (String_utf8_length value);;
  if written length =? 0 then dart_ret (0, None) else
  buffer <- ask (Calloc_string (written length));;
  result <- ask (String_to_c_string value);;
  ok <- dart_check (returned result);;
  if (ok : bool) then dart_ret (written result, Some true) else
  ask (Free_string (returned buffer));; dart_ret (0, Some false).

(** The number that was written, and the flag. *)
Definition converted (c : dart_call) : dart_m (Z * bool) :=
  result <- ask c;; ok <- dart_check (returned result);; dart_ret (written result, ok).
Definition dart_to_signed (value : Z) : dart_m (Z * bool) := converted (Integer_to_int64 value).
Definition dart_to_unsigned (value : Z) : dart_m (Z * bool) := converted (Integer_to_uint64 value).
Definition dart_to_bool (value : Z) : dart_m (Z * bool) := converted (Boolean_value value).
Definition dart_to_double (value : Z) : dart_m (Z * bool) := converted (Double_value value).

Definition dart_get_file (path : string) : dart_m Z :=
  url <- dart_from_string path;; library <- ask (Lookup_library url);; checked_handle dart_check_with_null library.
Definition dart_get_class (file name : string) : dart_m Z :=
  library <- dart_get_file file;;
  if library =? 0 then dart_ret 0 else
  name <- dart_from_string name;; class <- ask (Get_class library name);; checked_handle dart_check_with_null class.

(** The loop over the loaded libraries, from the one with that index. *)
Fixpoint find_class_loop (name : string) (libraries : Z) (remaining : nat) (index : Z) : dart_m Z :=
  match remaining with
  | O => dart_ret 0
  | S remaining =>
      library <- ask (List_get_at libraries index);;
      ok <- dart_check_with_null (returned library);;
      if negb ok then find_class_loop name libraries remaining (index + 1) else
      handle <- dart_from_string name;;
      class <- ask (Get_class (returned library) handle);;
      null <- ask (Is_null (returned class));;
      if is_true null then find_class_loop name libraries remaining (index + 1) else
      error <- ask (Is_error (returned class));;
      if is_true error then find_class_loop name libraries remaining (index + 1) else
      dart_ret (returned class)
  end.
Definition dart_find_class (name : string) : dart_m Z :=
  libraries <- ask Get_loaded_libraries;;
  length <- ask (List_length (returned libraries));;
  find_class_loop name (returned libraries) (Z.to_nat (written length)) 0.

(** [length_of] of a parameter is the size of a pointer in pointers. *)
Definition length_of (size element : Z) : Z := (size / element) / (if size mod element =? 0 then 1 else 0).
Definition length_of_arguments : Z := length_of 8 8.

Definition dart_call_static (file class member : string) (arguments : list Z) : dart_m Z :=
  type <- dart_get_class file class;;
  if type =? 0 then dart_ret 0 else
  member <- dart_from_string member;; result <- ask (Invoke type member length_of_arguments arguments);; checked_handle dart_check result.
Definition dart_invoke (owner : Z) (member : string) (arguments : list Z) : dart_m Z :=
  member <- dart_from_string member;; result <- ask (Invoke owner member length_of_arguments arguments);; checked_handle dart_check result.
Definition dart_call_constructor (class : Z) (constructor : string) (arguments : list Z) : dart_m Z :=
  constructor <- dart_from_string constructor;; result <- ask (New_object class constructor length_of_arguments arguments);;
  checked_handle dart_check result.
Definition dart_new (class : Z) (arguments : list Z) (arguments_count : Z) : dart_m Z :=
  null <- ask Null;; result <- ask (New_object class (returned null) arguments_count arguments);;
  checked_handle dart_check result.
End Dart.

(** ** An interface whose answers depend on the handles only *)
Section Stable.
Context (api : list dart_call -> dart_call -> dart_reply) (answer : dart_call -> dart_reply) (Stable : forall past c, api past c = answer c).

Definition good (h : Z) : bool := negb (is_true (answer (Is_error h))) && negb (is_true (answer (Is_null h))).
(** The class with a name in a library, if it is one. *)
Definition class_in (name : string) (libraries index : Z) : option Z :=
  let library := returned (answer (List_get_at libraries index)) in
  let string := returned (answer (New_string name)) in
  let class := returned (answer (Get_class library (if good string then string else 0))) in
  if good library && good class then Some class else None.
Fixpoint first_class (name : string) (libraries : Z) (indexes : list Z) : option Z :=
  match indexes with
  | [] => None
  | i :: indexes => match class_in name libraries i with Some c => Some c | None => first_class name libraries indexes end
  end.

Lemma check_null_stable h past : fst (dart_check_with_null api h past) = good h.
Proof.
  unfold dart_check_with_null, good, dart_bind, ask, dart_ret. rewrite Stable. destruct (is_true _); cbn; [done|]. by rewrite Stable.
Qed.
Lemma from_string_stable name past :
  let h := returned (answer (New_string name)) in fst (dart_from_string api name past) = if good h then h else 0.
Proof.
  unfold dart_from_string, checked_handle, dart_bind, ask at 1. cbn [fst]. rewrite Stable.
  pose proof (check_null_stable (returned (answer (New_string name))) (past ++ [New_string name])) as E.
  destruct (dart_check_with_null _ _ _) as [ok past']. cbn in *. by rewrite E.
Qed.

Lemma find_loop_stable name libraries n index past :
  fst (find_class_loop api name libraries n index past) = default 0 (first_class name libraries (seqZ index (Z.of_nat n))).
Proof.
  revert index past. induction n as [|n IH]; intros index past; [done|].
  rewrite seqZ_cons by lia. replace (Z.pred (Z.of_nat (S n))) with (Z.of_nat n) by lia. change (Z.succ index) with (index + 1).
  cbn [find_class_loop first_class]. unfold class_in. unfold dart_bind at 1. unfold ask at 1. rewrite Stable.
  set (library := returned (answer (List_get_at libraries index))). unfold dart_bind at 1.
  pose proof (check_null_stable library (past ++ [List_get_at libraries index])) as C.
  destruct (dart_check_with_null api library _) as [ok past1]. cbn [fst] in C. rewrite C. clear C ok.
  destruct (good library); cbn [negb andb]; [|apply IH]. unfold dart_bind at 1.
  pose proof (from_string_stable name past1) as S. cbv zeta in S. destruct (dart_from_string api name past1) as [string past2].
  cbn [fst] in S. rewrite S. clear S. set (h := if good _ then _ else _). unfold dart_bind at 1. unfold ask at 1. rewrite Stable.
  set (class := returned (answer (Get_class library h))). unfold good. unfold dart_bind at 1. unfold ask at 1. rewrite Stable.
  destruct (is_true (answer (Is_null class))); [rewrite andb_false_r; apply IH|]. unfold dart_bind at 1. unfold ask at 1. rewrite Stable.
  destruct (is_true (answer (Is_error class))); cbn [negb andb]; [apply IH|done].
Qed.
End Stable.

(** ** Theorems *)

(** While the answers of the runtime only depend on the handles, finding a class by
    its name answers the class of the first loaded library that has one, and null when
    none has; a library that is an error or null, and a class that is, are passed
    over. *)
Theorem dart_find_class_first api answer name past (Stable : forall past c, api past c = answer c) :
  let libraries := returned (answer Get_loaded_libraries) in
  let count := written (answer (List_length libraries)) in
  fst (dart_find_class api name past) = default 0 (first_class answer name libraries (seqZ 0 count)).
Proof.
  cbv zeta. unfold dart_find_class. unfold dart_bind at 1. unfold ask at 1. rewrite Stable. unfold dart_bind at 1. unfold ask at 1. rewrite Stable.
  rewrite (find_loop_stable api answer Stable). f_equal. f_equal.
  unfold seqZ. by rewrite Nat2Z.id.
Qed.

(** The conversion of a double calls itself and never ends. *)
Theorem dart_from_double_spins api native : forall fuel, dart_from_double api fuel native = Spins.
Proof. induction fuel as [|fuel IH]; [done|]. cbn [dart_from_double]. by rewrite IH. Qed.

(** A call announces one argument, however many it is given. *)
Theorem dart_invoke_one_argument api owner member arguments past :
  exists before name, Invoke owner name 1 arguments ∈ snd (dart_invoke api owner member arguments past) /\
    dart_from_string api member past = (name, before).
Proof.
  unfold dart_invoke. unfold dart_bind at 1. destruct (dart_from_string api member past) as [name before] eqn:E. exists before, name.
  split; [|done]. unfold dart_bind at 1, ask at 1. unfold checked_handle, dart_check, dart_bind, ask, dart_ret.
  destruct (is_true _); cbn; set_solver.
Qed.

(** ** Witness: the second of two libraries has the class *)
Definition two_libraries (c : dart_call) : dart_reply :=
  match c with
  | Get_loaded_libraries => DartReply 1 0
  | List_length _ => DartReply 1 2
  | List_get_at _ i => DartReply (10 + i) 0
  | New_string _ => DartReply 5 0
  | Get_class library _ => DartReply (library * 10) 0
  | Is_null h => DartReply (if h =? 100 then 1 else 0) 0
  | _ => DartReply 0 0
  end.
Lemma dart_find_class_first_witness : fst (dart_find_class (fun _ => two_libraries) "LocalEvent" []) = 110.
Proof. rewrite (dart_find_class_first (fun _ => two_libraries) two_libraries "LocalEvent" [] (fun _ _ => eq_refl)). reflexivity. Defined.
