(* ===== verification/Handshake.v ===== *)
(** * The handshake of the two threads of the storage ([storage/native/storage/storage.c])

    Starting and stopping wait on a condition, under a mutex, for a flag another
    thread sets: [storage_initialize] for [storage_fiber], [storage_shutdown] for
    [storage_process_initialization].  [Storage] gives the calls of each thread
    alone; here the two threads run interleaved, with the semantics POSIX gives the
    mutex and the condition: waiting releases the mutex and takes it again, also
    after a time-out, and may end for no reason. *)
From stdpp Require Import relations.
From S2P Require Import Prelude.

(** Where the thread that waits is: before the lock; with the mutex, before the test
    of the loop; asleep; ended its sleep, without the mutex, after a wake-up or the
    time-out; past the loop; past the unlock; past the destruction of the condition;
    back with an answer. *)
Inductive waiter := W_start | W_testing | W_asleep | W_woken | W_late | W_leaving | W_unlocked | W_condition_destroyed | W_returned (answer : bool).
(** The thread that sets the flag: before the lock, or given up before it; with the
    mutex; with the flag set; past the broadcast; past the unlock. *)
Inductive notifier := N_start | N_failed | N_locked | N_set | N_broadcast | N_done.
Inductive side := Waiter | Notifier.

(** [hs_flag] says that the awaited value was stored. *)
Record handshake := Handshake { hs_owner : option side; hs_flag : bool; hs_waiter : waiter; hs_notifier : notifier }.

Definition wake (w : waiter) : waiter := match w with W_asleep => W_woken | w => w end.

Inductive handshake_step : handshake -> handshake -> Prop :=
(* the lock, the test of the loop, the wait *)
| Waiter_locks f n : handshake_step (Handshake None f W_start n) (Handshake (Some Waiter) f W_testing n)
| Waiter_leaves n : handshake_step (Handshake (Some Waiter) true W_testing n) (Handshake (Some Waiter) true W_leaving n)
| Waiter_sleeps n : handshake_step (Handshake (Some Waiter) false W_testing n) (Handshake None false W_asleep n)
| Waiter_wakes o f n : handshake_step (Handshake o f W_asleep n) (Handshake o f W_woken n)
| Waiter_late o f n : handshake_step (Handshake o f W_asleep n) (Handshake o f W_late n)
| Waiter_tests f n : handshake_step (Handshake None f W_woken n) (Handshake (Some Waiter) f W_testing n)
(* the time-out returns without the unlock *)
| Waiter_fails f n : handshake_step (Handshake None f W_late n) (Handshake (Some Waiter) f (W_returned false) n)
(* the unlock and the destructions *)
| Waiter_unlocks f n : handshake_step (Handshake (Some Waiter) f W_leaving n) (Handshake None f W_unlocked n)
| Waiter_destroys_condition o f n : handshake_step (Handshake o f W_unlocked n) (Handshake o f W_condition_destroyed n)
| Waiter_destroys_mutex o f n : handshake_step (Handshake o f W_condition_destroyed n) (Handshake o f (W_returned true) n)
(* the other thread *)
| Notifier_fails o f w : handshake_step (Handshake o f w N_start) (Handshake o f w N_failed)
| Notifier_locks f w : handshake_step (Handshake None f w N_start) (Handshake (Some Notifier) f w N_locked)
| Notifier_sets o f w : handshake_step (Handshake o f w N_locked) (Handshake o true w N_set)
| Notifier_broadcasts o f w : handshake_step (Handshake o f w N_set) (Handshake o f (wake w) N_broadcast)
| Notifier_unlocks f w : handshake_step (Handshake (Some Notifier) f w N_broadcast) (Handshake None f w N_done).

Definition handshake_start : handshake := Handshake None false W_start N_start.
Definition reachable (s : handshake) : Prop := rtc handshake_step handshake_start s.

(** ** The invariant *)

Definition waiter_holds (w : waiter) : bool := match w with W_testing | W_leaving | W_returned false => true | _ => false end.
Definition notifier_holds (n : notifier) : bool := match n with N_locked | N_set | N_broadcast => true | _ => false end.
Definition flag_set (n : notifier) : bool := match n with N_set | N_broadcast | N_done => true | _ => false end.
Definition past_broadcast (n : notifier) : bool := match n with N_broadcast | N_done => true | _ => false end.
(** The waiter has seen the flag. *)
Definition seen (w : waiter) : bool := match w with W_leaving | W_unlocked | W_condition_destroyed | W_returned true => true | _ => false end.

Record handshake_ok (s : handshake) : Prop := {
  hs_owner_ok : hs_owner s = if waiter_holds (hs_waiter s) then Some Waiter else if notifier_holds (hs_notifier s) then Some Notifier else None;
  hs_exclusive : waiter_holds (hs_waiter s) && notifier_holds (hs_notifier s) = false;
  hs_flag_ok : hs_flag s = flag_set (hs_notifier s);
  hs_seen_ok : seen (hs_waiter s) = true -> hs_notifier s = N_done;
  hs_asleep_ok : hs_waiter s = W_asleep -> past_broadcast (hs_notifier s) = false;
}.

Lemma handshake_step_ok s s' : handshake_step s s' -> handshake_ok s -> handshake_ok s'.
Proof.
  intros St [O X F S A]. destruct St; cbn in *;
    repeat match goal with
    | n : notifier |- _ => destruct n
    | w : waiter |- _ => destruct w as [| | | | | | | |[]]
    end; cbn in *; split; cbn; try done; try congruence; intros; try specialize (S eq_refl); try congruence; auto.
Qed.
Lemma reachable_ok s : reachable s -> handshake_ok s.
Proof.
  intros Hr. assert (I : handshake_ok handshake_start) by done. unfold reachable in Hr. induction Hr; eauto using handshake_step_ok.
Qed.

(** ** Ways to the end *)

(** The waiter ran out of time. *)
Definition lost (w : waiter) : bool := match w with W_late | W_returned false => true | _ => false end.

(** [via]: the next step of a given kind. *)
Ltac via r := eapply rtc_l; [apply r|cbn [wake]].

(** The notifier, with the mutex, gets through. *)
Lemma notifier_finishes f w n : notifier_holds n = true -> (w = W_asleep -> past_broadcast n = false) ->
  exists w', w' <> W_asleep /\ lost w' = lost w /\ waiter_holds w' = waiter_holds w /\
    (flag_set n = f -> rtc handshake_step (Handshake (Some Notifier) f w n) (Handshake None true w' N_done)).
Proof.
  intros Hn A. exists (wake w). split_and!; [by destruct w|by destruct w|by destruct w|]. intros <-. destruct n; try done; cbn [flag_set].
  - via Notifier_sets. via Notifier_broadcasts. via Notifier_unlocks. apply rtc_refl.
  - via Notifier_broadcasts. via Notifier_unlocks. apply rtc_refl.
  - destruct w; try (by specialize (A eq_refl)); via Notifier_unlocks; apply rtc_refl.
Qed.

(** Once the flag is set and the mutex free, the waiter gets through. *)
Lemma waiter_finishes w : lost w = false -> w <> W_asleep -> waiter_holds w = false ->
  rtc handshake_step (Handshake None true w N_done) (Handshake None true (W_returned true) N_done).
Proof.
  intros L A Hw. destruct w as [| | | | | | | |[]]; try done.
  - via Waiter_locks. via Waiter_leaves. via Waiter_unlocks. via Waiter_destroys_condition. via Waiter_destroys_mutex. apply rtc_refl.
  - via Waiter_tests. via Waiter_leaves. via Waiter_unlocks. via Waiter_destroys_condition. via Waiter_destroys_mutex. apply rtc_refl.
  - via Waiter_destroys_condition. via Waiter_destroys_mutex. apply rtc_refl.
  - via Waiter_destroys_mutex. apply rtc_refl.
Qed.

(** The waiter lets the mutex go. *)
Lemma waiter_releases f w n : lost w = false -> waiter_holds w = true -> (seen w = true -> f = true) ->
  exists w', rtc handshake_step (Handshake (Some Waiter) f w n) (Handshake None f w' n) /\ lost w' = false /\ waiter_holds w' = false /\
    (w' = W_asleep -> f = false).
Proof.
  intros L Hw S. destruct w as [| | | | | | | |[]]; try done.
  - destruct f.
    + eexists. split; [via Waiter_leaves; via Waiter_unlocks; apply rtc_refl|done].
    + eexists. split; [via Waiter_sleeps; apply rtc_refl|done].
  - eexists. split; [via Waiter_unlocks; apply rtc_refl|done].
Qed.

(** ** Theorems *)

(** C13: in every interleaving the waiter succeeds only when the flag is set; no wake-up
    is lost: it is never asleep once the broadcast was made; the mutex is held by
    one thread; and when the waiter destroys the condition and the mutex the other
    thread uses them no more. *)
Theorem handshake_safe s (S : reachable s) :
  (hs_waiter s = W_returned true -> hs_flag s = true) /\
  (hs_waiter s = W_asleep -> past_broadcast (hs_notifier s) = false) /\
  (waiter_holds (hs_waiter s) && notifier_holds (hs_notifier s) = false) /\
  (seen (hs_waiter s) = true -> hs_notifier s = N_done).
Proof.
  destruct (reachable_ok s S) as [O X F Sn A]. split_and!; try done. intros E. rewrite F, Sn; [done|by rewrite E].
Qed.

(** C14: as long as the waiter did not run out of time and the other thread did not give
    up, both can still finish, with success. *)
Theorem handshake_completes s (S : reachable s) (L : lost (hs_waiter s) = false) (N : hs_notifier s <> N_failed) :
  rtc handshake_step s (Handshake None true (W_returned true) N_done).
Proof.
  destruct (reachable_ok s S) as [O X F Sn A]. destruct s as [o f w n]. cbn in *.
  assert (Free : forall w n, lost w = false -> waiter_holds w = false -> notifier_holds n = false -> n <> N_failed ->
    (w = W_asleep -> n <> N_done) -> rtc handshake_step (Handshake None (flag_set n) w n) (Handshake None true (W_returned true) N_done)).
  { clear. intros w n L Hw Hn N A. destruct n; try done.
    - etrans; [via Notifier_locks; apply rtc_refl|]. destruct (notifier_finishes false w N_locked) as (w' & E1 & E2 & E3 & R); [done..|].
      etrans; [by apply R|]. apply waiter_finishes; congruence.
    - apply waiter_finishes; [done| |done]. intros E. by apply A. }
  destruct (waiter_holds w) eqn:Hw.
  - rewrite O. destruct (waiter_releases f w n) as (w' & R & L' & Hw' & A'); [done|done| |].
    { intros E. by rewrite F, (Sn E). }
    etrans; [exact R|]. rewrite F. apply Free; try done.
    intros E ->. rewrite F in A'. by specialize (A' E).
  - destruct (notifier_holds n) eqn:Hn.
    + rewrite O. destruct (notifier_finishes f w n Hn A) as (w' & E1 & E2 & E3 & R). etrans; [by apply R|].
      apply waiter_finishes; congruence.
    + rewrite O, F. apply Free; try done. intros E ->. by specialize (A E).
Qed.

(** When the time-out comes before the other thread has the mutex, that thread never
    gets it, as it was left locked: the flag is never set; and when it gave up,
    which it tells nobody, the waiter never succeeds. *)
Theorem handshake_late_blocks s s' (S : reachable s) (T : rtc handshake_step s s') :
  (hs_waiter s = W_returned false -> hs_notifier s = N_start ->
     hs_flag s' = false /\ (hs_notifier s' = N_start \/ hs_notifier s' = N_failed)) /\
  (hs_notifier s = N_failed -> hs_flag s' = false /\ hs_waiter s' <> W_returned true).
Proof.
  pose proof (reachable_ok s S) as K. split.
  - intros W N. assert (I : hs_owner s = Some Waiter /\ hs_flag s = false /\ hs_waiter s = W_returned false /\ (hs_notifier s = N_start \/ hs_notifier s = N_failed)).
    { destruct K as [O _ F _ _]. rewrite O, F, W, N. cbn. auto. }
    clear W N K S. induction T as [|s s1 s2 St T IH]; [tauto|]. apply IH. clear IH.
    destruct I as (O & F & W & N). destruct St; cbn in *; subst; try done; destruct N; try done; auto.
  - intros N. clear S. induction T as [s|s s1 s2 St T IH].
    + destruct K as [_ _ F Sn _]. rewrite F, N. split; [done|]. intros E. rewrite E in Sn. specialize (Sn eq_refl). congruence.
    + apply IH; [by eapply handshake_step_ok|]. destruct St; cbn in *; done.
Qed.

(** ** Witnesses *)

(** The waiter sleeps, is woken by the broadcast and succeeds. *)
Lemma woken_path : reachable (Handshake None true (W_returned true) N_done).
Proof.
  unfold reachable, handshake_start. via Waiter_locks. via Waiter_sleeps. via Notifier_locks. via Notifier_sets. via Notifier_broadcasts.
  via Notifier_unlocks. via Waiter_tests. via Waiter_leaves. via Waiter_unlocks. via Waiter_destroys_condition. via Waiter_destroys_mutex.
  apply rtc_refl.
Qed.
(** The waiter sleeps. *)
Lemma asleep_path : reachable (Handshake None false W_asleep N_start).
Proof. unfold reachable, handshake_start. via Waiter_locks. via Waiter_sleeps. apply rtc_refl. Qed.
(** Its time runs out. *)
Lemma late_path : reachable (Handshake (Some Waiter) false (W_returned false) N_start).
Proof. unfold reachable, handshake_start. via Waiter_locks. via Waiter_sleeps. via Waiter_late. via Waiter_fails. apply rtc_refl. Qed.

Lemma handshake_safe_witness : reachable (Handshake None true (W_returned true) N_done) /\ N_done = N_done.
Proof.
  split; [exact woken_path|]. destruct (handshake_safe _ woken_path) as (_ & _ & _ & Sn). apply Sn. reflexivity.
Defined.

Lemma handshake_completes_witness :
  rtc handshake_step (Handshake None false W_asleep N_start) (Handshake None true (W_returned true) N_done).
Proof. apply (handshake_completes _ asleep_path); [reflexivity|discriminate]. Defined.

Lemma handshake_late_blocks_witness :
  ~ rtc handshake_step (Handshake (Some Waiter) false (W_returned false) N_start) (Handshake (Some Notifier) true (W_returned false) N_set).
Proof.
  intros T. destruct (handshake_late_blocks _ _ late_path T) as [L _]. destruct (L eq_refl eq_refl) as [F _]. discriminate F.
Defined.
