(* ===== verification/Lifetimes.v ===== *)
(** * Lifetimes: what is allocated, used and released

    The other files say what the structures hold; this one says which blocks of
    memory and which objects of the libraries are alive.  A function is a [prog]: it
    asks the world for its answers (does an allocation succeed, is a call refused),
    reads and writes the pointers that structures hold, and calls [calloc], [free] and
    the constructors and destructors of the libraries [small] and [liburing].  Of the
    libraries there is only the rule for using them that their documentation gives: an
    object is made once, on an object that is alive, and destroyed once, while the
    object it was made on is still alive; a block is freed once and touched only while
    it is alive.  Breaking the rule is a fault.

    Sizes, which decide nothing here, and the events of error branches are left out. *)
From stdpp Require Import strings.
From S2P Require Import Prelude.

(** ** The store *)

Inductive kind := Block | Arena | SlabCache | Mempool | PoolObject | SmallAlloc | SmallObject | Ring | Ibuf | Obuf.
#[export] Instance kind_eq_dec : EqDecision kind.
Proof. solve_decision. Defined.
Definition kind_number (k : kind) : Z :=
  match k with
  | Block => 0 | Arena => 1 | SlabCache => 2 | Mempool => 3 | PoolObject => 4 | SmallAlloc => 5 | SmallObject => 6
  | Ring => 7 | Ibuf => 8 | Obuf => 9
  end.
Definition kind_of_number (n : Z) : kind :=
  default Block ([Block; Arena; SlabCache; Mempool; PoolObject; SmallAlloc; SmallObject; Ring; Ibuf; Obuf] !! Z.to_nat n).
#[export] Instance kind_countable : Countable kind.
Proof. apply (inj_countable' kind_number kind_of_number). by intros []. Defined.

(** An object is known by its kind and its address, and the address is that of the
    structure it is part of.  A slot is a field of a structure, or an element of an
    array of pointers. *)
Abbreviation resource := (kind * Z)%type.
Abbreviation slot := (string * Z)%type.

(** [founded] is what an object was made on; [fresh] is an address beyond all that
    were given; [asked] counts the answers of the world. *)
Record store := Store {
  live : gset resource;
  founded : gmap resource resource;
  cells : gmap (Z * slot) Z;
  fresh : Z;
  asked : nat;
}.

Definition with_live (s : store) (l : gset resource) : store := Store l (founded s) (cells s) (fresh s) (asked s).

(** ** Programs *)

Definition prog (A : Type) : Type := store -> outcome (A * store).
#[export] Instance prog_ret : MRet prog := fun A a s => Done (a, s).
#[export] Instance prog_bind : MBind prog := fun A B f m s => '(a, s) ← m s; f a s.

(** [exit(-1)]. *)
Definition quit {A} : prog A := fun _ => Exits (-1).

Section Primitives.
(** The answers of the world, in the order of the questions. *)
Context (world : nat -> Z).

Definition ask : prog Z := fun s => Done (world (asked s), Store (live s) (founded s) (cells s) (fresh s) (S (asked s))).

(** A new object at an address of its own. *)
Definition born (k : kind) (on : option resource) : prog Z := fun s =>
  Done (fresh s, Store ({[ (k, fresh s) ]} ∪ live s)
                   (match on with Some r => <[ (k, fresh s) := r ]> (founded s) | None => founded s end)
                   (cells s) (fresh s + 1) (asked s)).

(** [calloc]: null when the world answers zero. *)
Definition calloc : prog Z := answer ← ask; if answer =? 0 then mret 0 else born Block None.
Definition free (a : Z) : prog unit := fun s =>
  if a =? 0 then Done (tt, s) else if decide ((Block, a) ∈ live s) then Done (tt, with_live s (live s ∖ {[ (Block, a) ]})) else Faults.

(** A structure is a block of its own, or an object of a pool. *)
Definition usable (a : Z) (s : store) : Prop := (Block, a) ∈ live s \/ (PoolObject, a) ∈ live s.
#[export] Instance usable_dec a s : Decision (usable a s).
Proof. apply or_dec; apply _. Defined.

Definition touch (a : Z) : prog unit := fun s => if decide (usable a s) then Done (tt, s) else Faults.
(** The memory of [calloc] is zero until it is written. *)
Definition load (a : Z) (f : slot) : prog Z := fun s =>
  if decide (usable a s) then Done (default 0 (cells s !! (a, f)), s) else Faults.
Definition write (a : Z) (f : slot) (v : Z) : prog unit := fun s =>
  if decide (usable a s) then Done (tt, Store (live s) (founded s) (<[ (a, f) := v ]> (cells s)) (fresh s) (asked s)) else Faults.

(** The constructor of an object in the structure at [a], made on [on], and its
    destructor. *)
Definition construct (k : kind) (a : Z) (on : resource) : prog unit := fun s =>
  if decide (usable a s /\ on ∈ live s /\ (k, a) ∉ live s)
  then Done (tt, Store ({[ (k, a) ]} ∪ live s) (<[ (k, a) := on ]> (founded s)) (cells s) (fresh s) (asked s))
  else Faults.
Definition destroy (k : kind) (a : Z) : prog unit := fun s =>
  if decide ((k, a) ∈ live s /\ default (k, a) (founded s !! (k, a)) ∈ live s)
  then Done (tt, with_live s (live s ∖ {[ (k, a) ]})) else Faults.

(** [obtain k on]: an allocator of a library gives an object or null; [give_back]
    takes only an object that it gave. *)
Definition obtain (k : kind) (on : resource) : prog Z := fun s =>
  if decide (on ∈ live s) then (answer ← ask; if answer =? 0 then mret 0 else born k (Some on)) s else Faults.
Definition give_back (k : kind) (on : resource) (a : Z) : prog unit := fun s =>
  if decide (on ∈ live s /\ (k, a) ∈ live s /\ founded s !! (k, a) = Some on)
  then Done (tt, with_live s (live s ∖ {[ (k, a) ]})) else Faults.

(** ** [memory/native/memory/memory.h] *)

(** A constructor that can fail answers zero on success. *)
Definition construct_checked (k : kind) (a : Z) (on : resource) : prog Z :=
  result ← ask; if result =? 0 then construct k a on;; mret 0 else mret result.
Definition slab_arena_create (a : Z) : prog Z := construct_checked Arena a (Block, a).

Definition memory_create : prog Z :=
  memory ← calloc;
  if memory =? 0 then mret 0 else
  touch memory;;
  result ← slab_arena_create memory;
  if negb (result =? 0) then free memory;; mret 0 else
  construct SlabCache memory (Arena, memory);; mret memory.

Definition memory_destroy (memory : Z) : prog unit :=
  destroy SlabCache memory;; destroy Arena memory;; touch memory;; free memory.

(** The structure is written without a check; [mempool_is_initialized] is the last
    answer. *)
Definition memory_pool_create (memory : Z) : prog Z :=
  pool ← calloc;
  touch pool;;
  construct Mempool pool (SlabCache, memory);;
  initialized ← ask;
  mret (if initialized =? 0 then 0 else pool).
Definition memory_pool_destroy (pool : Z) : prog unit := destroy Mempool pool;; free pool.

(** The [memset] touches the object before anybody compares it with null. *)
Definition memory_pool_allocate (pool : Z) : prog Z :=
  touch pool;; data ← obtain PoolObject (Mempool, pool); touch data;; mret data.
Definition memory_pool_free (pool ptr : Z) : prog unit := touch pool;; give_back PoolObject (Mempool, pool) ptr.

(** The last answer is whether the allocator has a cache. *)
Definition memory_small_allocator_create (memory : Z) : prog Z :=
  allocator ← calloc;
  construct SmallAlloc allocator (SlabCache, memory);;
  cache ← ask;
  mret (if cache =? 0 then 0 else allocator).
Definition memory_small_allocator_allocate (pool : Z) : prog Z := touch pool;; obtain SmallObject (SmallAlloc, pool).
Definition memory_small_allocator_free (pool ptr : Z) : prog unit := touch pool;; give_back SmallObject (SmallAlloc, pool) ptr.
(** The structure is not freed. *)
Definition memory_small_allocator_destroy (pool : Z) : prog unit := touch pool;; destroy SmallAlloc pool.

(** ** [memory/native/memory/io_buffers.h] *)

Definition memory_io_buffers_create (memory : Z) : prog Z :=
  pool ← calloc;
  if pool =? 0 then mret 0 else
  write pool ("instance", 0) memory;;
  input ← memory_pool_create memory;
  write pool ("input_buffers", 0) input;;
  if input =? 0 then free pool;; mret 0 else
  output ← memory_pool_create memory;
  write pool ("output_buffers", 0) output;;
  if output =? 0 then free pool;; mret 0 else
  mret pool.

Definition memory_io_buffers_destroy (pool : Z) : prog unit :=
  input ← load pool ("input_buffers", 0);
  memory_pool_destroy input;;
  output ← load pool ("output_buffers", 0);
  memory_pool_destroy output;;
  free pool.

(** [allocate_input] and [allocate_output] have the same calls, on their own pool and
    with their own kind of buffer. *)
Definition allocate_buffer (pool : string) (k : kind) (buffers : Z) : prog Z :=
  pool ← load buffers (pool, 0);
  buffer ← memory_pool_allocate pool;
  if buffer =? 0 then mret 0 else
  instance ← load buffers ("instance", 0);
  construct k buffer (SlabCache, instance);;
  mret buffer.
Definition free_buffer (pool : string) (k : kind) (buffers buffer : Z) : prog unit :=
  destroy k buffer;;
  pool ← load buffers (pool, 0);
  memory_pool_free pool buffer.
Definition memory_io_buffers_allocate_input : Z -> prog Z := allocate_buffer "input_buffers" Ibuf.
Definition memory_io_buffers_free_input : Z -> Z -> prog unit := free_buffer "input_buffers" Ibuf.
Definition memory_io_buffers_allocate_output : Z -> prog Z := allocate_buffer "output_buffers" Obuf.
Definition memory_io_buffers_free_output : Z -> Z -> prog unit := free_buffer "output_buffers" Obuf.

(** ** [storage/native/storage/factory.c] *)

(** The structure of the factory is the caller's. *)
Definition storage_factory_initialize (factory : Z) : prog Z :=
  memory ← memory_create;
  write factory ("memory", 0) memory;;
  if memory =? 0 then mret (- 12) else
  storage_datas ← calloc;
  write factory ("storage_datas", 0) storage_datas;;
  if storage_datas =? 0 then mret (- 12) else
  construct SmallAlloc storage_datas (SlabCache, memory);;
  mret 0.
Definition storage_create_string (factory : Z) : prog Z :=
  storage_datas ← load factory ("storage_datas", 0);
  touch storage_datas;; obtain SmallObject (SmallAlloc, storage_datas).
Definition storage_free_string (factory string_ : Z) : prog unit :=
  storage_datas ← load factory ("storage_datas", 0);
  touch storage_datas;; give_back SmallObject (SmallAlloc, storage_datas) string_.
Definition storage_factory_destroy (factory : Z) : prog unit :=
  storage_datas ← load factory ("storage_datas", 0);
  destroy SmallAlloc storage_datas;;
  memory ← load factory ("memory", 0);
  memory_destroy memory;;
  storage_datas ← load factory ("storage_datas", 0);
  free storage_datas.

(** ** [executor/native/executor/executor.c] *)

Definition io_uring_queue_init (ring : Z) : prog Z := construct_checked Ring ring (Block, ring).

Definition executor_create : prog Z :=
  executor ← calloc;
  if executor =? 0 then mret 0 else
  touch executor;;
  completions ← calloc;
  write executor ("completions", 0) completions;;
  if completions =? 0 then mret 0 else
  ring ← calloc;
  write executor ("ring", 0) ring;;
  if ring =? 0 then mret 0 else
  result ← io_uring_queue_init ring;
  if negb (result =? 0) then mret 0 else
  touch ring;;
  mret executor.

Definition executor_destroy (executor : Z) : prog unit :=
  ring ← load executor ("ring", 0);
  destroy Ring ring;;
  ring ← load executor ("ring", 0);
  free ring;;
  completions ← load executor ("completions", 0);
  free completions;;
  free executor.

(** ** What the steps do *)

(** Addresses that are alive are below [fresh], and memory that was not given yet was
    not written. *)
Record sound (s : store) : Prop := Sound {
  sound_fresh : 0 < fresh s;
  sound_live k a : (k, a) ∈ live s -> 0 < a < fresh s;
  sound_cells a f : fresh s <= a -> cells s !! (a, f) = None;
}.

Lemma bind_run {A B} (m : prog A) (f : A -> prog B) s a s' : m s = Done (a, s') -> (m ≫= f) s = f a s'.
Proof. intros E. change ((m ≫= f) s) with (r ← m s; let '(a, s) := r in f a s). by rewrite E. Qed.

Definition after_answer (s : store) : store := Store (live s) (founded s) (cells s) (fresh s) (S (asked s)).
Definition after_birth (k : kind) (on : option resource) (s : store) : store :=
  Store ({[ (k, fresh s) ]} ∪ live s) (match on with Some r => <[ (k, fresh s) := r ]> (founded s) | None => founded s end)
    (cells s) (fresh s + 1) (asked s).
Definition after_write (a : Z) (f : slot) (v : Z) (s : store) : store :=
  Store (live s) (founded s) (<[ (a, f) := v ]> (cells s)) (fresh s) (asked s).
Definition after_construct (k : kind) (a : Z) (on : resource) (s : store) : store :=
  Store ({[ (k, a) ]} ∪ live s) (<[ (k, a) := on ]> (founded s)) (cells s) (fresh s) (asked s).

Lemma ask_run s : ask s = Done (world (asked s), after_answer s).
Proof. done. Qed.
Lemma calloc_run s : calloc s =
  if world (asked s) =? 0 then Done (0, after_answer s) else Done (fresh s, after_birth Block None (after_answer s)).
Proof. unfold calloc. erewrite bind_run by apply ask_run. by case_match. Qed.
Lemma born_run k on s : born k on s = Done (fresh s, after_birth k on s).
Proof. done. Qed.
Lemma free_run a s : a <> 0 -> (Block, a) ∈ live s -> free a s = Done (tt, with_live s (live s ∖ {[ (Block, a) ]})).
Proof. intros Ha E. unfold free. rewrite (proj2 (Z.eqb_neq _ _) Ha), decide_True by done. done. Qed.
Lemma free_null s : free 0 s = Done (tt, s).
Proof. done. Qed.
Lemma touch_run a s : usable a s -> touch a s = Done (tt, s).
Proof. intros. unfold touch. by rewrite decide_True. Qed.
Lemma load_run a f s : usable a s -> load a f s = Done (default 0 (cells s !! (a, f)), s).
Proof. intros. unfold load. by rewrite decide_True. Qed.
Lemma write_run a f v s : usable a s -> write a f v s = Done (tt, after_write a f v s).
Proof. intros. unfold write. by rewrite decide_True. Qed.
Lemma construct_run k a on s : usable a s -> on ∈ live s -> (k, a) ∉ live s -> construct k a on s = Done (tt, after_construct k a on s).
Proof. intros. unfold construct. by rewrite decide_True. Qed.
Lemma destroy_run k a on s : (k, a) ∈ live s -> founded s !! (k, a) = Some on -> on ∈ live s ->
  destroy k a s = Done (tt, with_live s (live s ∖ {[ (k, a) ]})).
Proof. intros H1 H2 H3. unfold destroy. by rewrite H2, decide_True. Qed.
Lemma obtain_run k on s : on ∈ live s -> obtain k on s =
  if world (asked s) =? 0 then Done (0, after_answer s) else Done (fresh s, after_birth k (Some on) (after_answer s)).
Proof. intros. unfold obtain. rewrite decide_True by done. erewrite bind_run by apply ask_run. by case_match. Qed.
Lemma give_back_run k on a s : on ∈ live s -> (k, a) ∈ live s -> founded s !! (k, a) = Some on ->
  give_back k on a s = Done (tt, with_live s (live s ∖ {[ (k, a) ]})).
Proof. intros. unfold give_back. by rewrite decide_True. Qed.

(** *** Null *)

Lemma null_dead k s : sound s -> (k, 0) ∉ live s.
Proof. intros S H. apply sound_live in H; [lia|done]. Qed.
Lemma touch_null s : sound s -> touch 0 s = Faults.
Proof. intros S. unfold touch. rewrite decide_False; [done|]. intros [H|H]; by apply null_dead in H. Qed.
Lemma write_null f v s : sound s -> write 0 f v s = Faults.
Proof. intros S. unfold write. rewrite decide_False; [done|]. intros [H|H]; by apply null_dead in H. Qed.
Lemma construct_null k on s : sound s -> construct k 0 on s = Faults.
Proof. intros S. unfold construct. rewrite decide_False; [done|]. intros [[H|H] _]; by apply null_dead in H. Qed.
Lemma bind_fault {A B} (m : prog A) (f : A -> prog B) s : m s = Faults -> (m ≫= f) s = Faults.
Proof. intros E. change ((m ≫= f) s) with (r ← m s; let '(a, s) := r in f a s). by rewrite E. Qed.

(** *** Soundness is kept *)

Lemma sound_answer s : sound s -> sound (after_answer s).
Proof. by intros []. Qed.
Lemma sound_birth k on s : sound s -> sound (after_birth k on s).
Proof.
  intros [F L C]. split; cbn.
  - lia.
  - intros k' a E. apply elem_of_union in E as [E|E]; [apply elem_of_singleton in E; simplify_eq; lia|apply L in E; lia].
  - intros a f Ha. apply C. lia.
Qed.
Lemma sound_with_live s l : sound s -> l ⊆ live s -> sound (with_live s l).
Proof. intros [F L C] E. split; cbn; auto. intros k a H. apply (L k). set_solver. Qed.
Lemma usable_below a s : sound s -> usable a s -> 0 < a < fresh s.
Proof. intros S [H|H]; by apply (sound_live _ S) in H. Qed.
Lemma sound_write a f v s : sound s -> usable a s -> sound (after_write a f v s).
Proof.
  intros S U. pose proof (usable_below _ _ S U). destruct S as [F L C]. split; cbn; auto. intros a' f' Ha.
  rewrite lookup_insert_ne; [by apply C|]. intros E. simplify_eq. lia.
Qed.
Lemma sound_construct k a on s : sound s -> usable a s -> sound (after_construct k a on s).
Proof.
  intros S U. pose proof (usable_below _ _ S U). destruct S as [F L C]. split; cbn; auto.
  intros k' a' E; apply elem_of_union in E as [E|E]; [apply elem_of_singleton in E; simplify_eq; lia|by apply L in E].
Qed.
Lemma fresh_dead k a s : sound s -> fresh s <= a -> (k, a) ∉ live s.
Proof. intros S H E. apply (sound_live _ S) in E. lia. Qed.

(** *** Running a program *)

Ltac projections := cbn [live founded cells fresh asked after_birth after_answer after_write after_construct with_live] in *.
Ltac settle := projections; unfold usable; projections; first [done | lia | set_solver | left; set_solver | right; set_solver].
Ltac look := projections; repeat first [rewrite lookup_insert_eq | rewrite lookup_insert_ne by (intros ?; simplify_eq; lia)]; try done.
(** One step of the program in the goal. *)
Ltac step :=
  first
    [ erewrite bind_run by apply ask_run
    | erewrite bind_run by (apply free_run; settle)
    | erewrite bind_run by (apply touch_run; settle)
    | erewrite bind_run by (apply load_run; settle)
    | erewrite bind_run by (apply write_run; settle)
    | erewrite bind_run by (apply construct_run; settle)
    | erewrite bind_run by (apply born_run) ].
Ltac sound_store := repeat first [done | apply sound_answer | apply sound_birth | apply sound_write; [|settle] | apply sound_construct; [|settle]
  | apply sound_with_live; [|settle]].

Lemma alive_nonzero k a s : sound s -> (k, a) ∈ live s -> a <> 0.
Proof. intros S H. apply (sound_live _ S) in H. lia. Qed.

(** An allocation fails, or gives the next address. *)
Lemma calloc_cases {A} (f : Z -> prog A) s (Q : outcome (A * store) -> Prop) :
  (world (asked s) = 0 -> Q (f 0 (after_answer s))) ->
  (world (asked s) <> 0 -> Q (f (fresh s) (after_birth Block None (after_answer s)))) ->
  Q ((calloc ≫= f) s).
Proof.
  intros H0 H1. pose proof (calloc_run s) as E. destruct (Z.eqb_spec (world (asked s)) 0) as [Z0|Z0]; erewrite bind_run by apply E; auto.
Qed.

Lemma usable_more a r s s' : live s' = r ∪ live s -> usable a s -> usable a s'.
Proof. unfold usable. intros ->. set_solver. Qed.

(** A new block, or null, is stored in a slot. *)
Lemma calloc_into {A} a f (k : Z -> prog A) s (Q : outcome (A * store) -> Prop) : sound s -> usable a s ->
  (world (asked s) = 0 -> forall s', sound s' -> live s' = live s -> founded s' = founded s ->
     cells s' = <[ (a, f) := 0 ]> (cells s) -> asked s' = S (asked s) -> fresh s' = fresh s -> Q (k 0 s')) ->
  (world (asked s) <> 0 -> forall s', sound s' -> live s' = {[ (Block, fresh s) ]} ∪ live s -> founded s' = founded s ->
     cells s' = <[ (a, f) := fresh s ]> (cells s) -> asked s' = S (asked s) -> fresh s' = fresh s + 1 -> Q (k (fresh s) s')) ->
  Q ((calloc ≫= fun v => write a f v ≫= fun _ => k v) s).
Proof.
  intros Snd U H0 H1. apply calloc_cases; intros W.
  - erewrite bind_run by (by apply write_run). apply H0; auto. apply sound_write; [|done]. by apply sound_answer.
  - assert (U1 : usable a (after_birth Block None (after_answer s))) by (by eapply usable_more).
    erewrite bind_run by (by apply write_run). apply H1; auto. apply sound_write; [|done]. by apply sound_birth, sound_answer.
Qed.

Lemma obtain_cases {A} k on (f : Z -> prog A) s (Q : outcome (A * store) -> Prop) : on ∈ live s ->
  (world (asked s) = 0 -> Q (f 0 (after_answer s))) ->
  (world (asked s) <> 0 -> Q (f (fresh s) (after_birth k (Some on) (after_answer s)))) ->
  Q ((obtain k on ≫= f) s).
Proof.
  intros L H0 H1. pose proof (obtain_run k on s L) as E.
  destruct (Z.eqb_spec (world (asked s)) 0) as [Z0|Z0]; erewrite bind_run by apply E; auto.
Qed.

Lemma construct_checked_cases {A} k a on (f : Z -> prog A) s (Q : outcome (A * store) -> Prop) :
  usable a s -> on ∈ live s -> (k, a) ∉ live s ->
  (world (asked s) = 0 -> Q (f 0 (after_construct k a on (after_answer s)))) ->
  (forall r, r = world (asked s) -> r <> 0 -> Q (f r (after_answer s))) ->
  Q ((construct_checked k a on ≫= f) s).
Proof.
  intros H1 H2 H3 H4 H5. destruct (Z.eqb_spec (world (asked s)) 0) as [E|E].
  - erewrite bind_run; [by apply H4|]. unfold construct_checked. step. rewrite E. cbn [Z.eqb].
    by erewrite bind_run by (by apply construct_run).
  - erewrite bind_run; [by apply (H5 (world (asked s)))|]. unfold construct_checked. step. by rewrite (proj2 (Z.eqb_neq _ _) E).
Qed.

(** ** The instance of the memory *)

Definition memory_objects (m : Z) : gset resource := {[ (Block, m); (Arena, m); (SlabCache, m) ]}.
Definition holds_memory (m : Z) (s : store) : Prop :=
  memory_objects m ⊆ live s /\ founded s !! (Arena, m) = Some (Block, m) /\ founded s !! (SlabCache, m) = Some (Arena, m).

(** Either nothing was made, or exactly [objects], which were not alive before. *)
Definition made (objects : gset resource) (s s' : store) : Prop := live s' = objects ∪ live s /\ objects ## live s.

Definition gives {A} (r : outcome (A * store)) (a : A) (Q : store -> Prop) : Prop := exists s', r = Done (a, s') /\ sound s' /\ Q s'.

Lemma memory_create_run s : sound s ->
  let n := asked s in let m := fresh s in let r := memory_create s in
  if (world n =? 0) || negb (world (1 + n)%nat =? 0) then gives r 0 (fun s' => live s' = live s /\ cells s' = cells s /\ fresh s <= fresh s')
  else gives r m (fun s' => (holds_memory m s' /\ made (memory_objects m) s s') /\
    asked s' = (2 + n)%nat /\ fresh s' = m + 1 /\ cells s' = cells s).
Proof.
  intros S. pose proof (fun k => fresh_dead k _ _ S (Z.le_refl _)) as D. pose proof (sound_fresh _ S). cbv zeta. cbn [Nat.add].
  unfold memory_create, gives. apply calloc_cases; intros W; [rewrite W|rewrite (proj2 (Z.eqb_neq _ _) W)]; cbn [Z.eqb orb].
  { eexists. split; [done|]. split; [sound_store|]. projections. split; [done|split; [done|lia]]. }
  rewrite (proj2 (Z.eqb_neq (fresh s) 0)) by lia. step. unfold slab_arena_create. change (Datatypes.S (asked s)) with (asked (after_birth Block None (after_answer s))).
  apply construct_checked_cases; [settle..|intros ->|intros r -> Hr]; cbn [Z.eqb negb].
  - step. eexists. split; [done|]. split; [sound_store|]. unfold holds_memory, made, memory_objects. projections.
    split; [split; [split; [set_solver|split; look]|split; set_solver]|done].
  - rewrite (proj2 (Z.eqb_neq _ _) Hr). cbn [negb]. step. eexists. split; [done|]. split; [sound_store|].
    projections. split; [|split; [done|lia]]. specialize (D Block). set_solver.
Qed.

Lemma memory_destroy_run m s : sound s -> holds_memory m s ->
  memory_destroy m s = Done (tt, with_live s (live s ∖ memory_objects m)).
Proof.
  intros S (L & F1 & F2). unfold memory_objects in L. pose proof (alive_nonzero Block m s S ltac:(set_solver)).
  unfold memory_destroy. 
  erewrite bind_run by (eapply destroy_run; [set_solver|exact F2|set_solver]).
  erewrite bind_run by (eapply destroy_run; [settle|exact F1|settle]). step.
  rewrite free_run by settle. unfold with_live. projections. unfold memory_objects. do 3 f_equal. set_solver.
Qed.

(** ** Pools *)

Definition pool_objects (p : Z) : gset resource := {[ (Block, p); (Mempool, p) ]}.
Definition holds_pool (memory p : Z) (s : store) : Prop :=
  pool_objects p ⊆ live s /\ founded s !! (Mempool, p) = Some (SlabCache, memory).

Definition after_pool (memory : Z) (s : store) : store :=
  after_answer (after_construct Mempool (fresh s) (SlabCache, memory) (after_birth Block None (after_answer s))).

Lemma memory_pool_create_run memory s : sound s -> (SlabCache, memory) ∈ live s -> world (asked s) <> 0 ->
  memory_pool_create memory s = Done (if world (S (asked s)) =? 0 then 0 else fresh s, after_pool memory s).
Proof.
  intros S L W. pose proof (fun k => fresh_dead k _ _ S (Z.le_refl _)) as D. pose proof (D Mempool).
  unfold memory_pool_create. apply calloc_cases; [done|intros _]. step. step. step. done.
Qed.

Lemma memory_pool_create_null memory s : sound s -> world (asked s) = 0 -> memory_pool_create memory s = Faults.
Proof.
  intros S W. unfold memory_pool_create. apply calloc_cases; [intros _|done].
  apply bind_fault, touch_null, sound_answer, S.
Qed.

Lemma after_pool_sound memory s : sound s -> sound (after_pool memory s).
Proof. intros S. unfold after_pool. sound_store. Qed.

Lemma after_pool_holds memory s : sound s -> holds_pool memory (fresh s) (after_pool memory s) /\ made (pool_objects (fresh s)) s (after_pool memory s).
Proof.
  intros S. pose proof (fun k => fresh_dead k _ _ S (Z.le_refl _)) as D. pose proof (D Mempool). pose proof (D Block).
  unfold holds_pool, made, after_pool, pool_objects. projections. split; [split; [set_solver|look]|split; set_solver].
Qed.

Lemma memory_pool_create_cases {A} memory (f : Z -> prog A) s (Q : outcome (A * store) -> Prop) :
  sound s -> (SlabCache, memory) ∈ live s ->
  (world (asked s) = 0 -> Q Faults) ->
  (world (asked s) <> 0 -> forall s', sound s' -> asked s' = S (S (asked s)) -> fresh s' = fresh s + 1 -> cells s' = cells s ->
    founded s' = <[ (Mempool, fresh s) := (SlabCache, memory) ]> (founded s) ->
    made (pool_objects (fresh s)) s s' -> Q (f (if world (S (asked s)) =? 0 then 0 else fresh s) s')) ->
  Q ((memory_pool_create memory ≫= f) s).
Proof.
  intros Snd L H0 H1. destruct (Z.eq_dec (world (asked s)) 0) as [W|W].
  - rewrite bind_fault by (by apply memory_pool_create_null). auto.
  - erewrite bind_run by (by apply memory_pool_create_run). apply H1; [done|by apply after_pool_sound|done..|by apply after_pool_holds].
Qed.

Lemma memory_pool_destroy_run memory p s : sound s -> holds_pool memory p s -> (SlabCache, memory) ∈ live s ->
  memory_pool_destroy p s = Done (tt, with_live s (live s ∖ pool_objects p)).
Proof.
  intros S [L F] C. unfold pool_objects in L. pose proof (alive_nonzero Block p s S ltac:(set_solver)). unfold memory_pool_destroy.
  erewrite bind_run by (eapply destroy_run; [set_solver|exact F|set_solver]). rewrite free_run by settle.
  unfold with_live. projections. unfold pool_objects. do 3 f_equal. set_solver.
Qed.

(** *** Allocators of any size *)

Definition small_objects (a : Z) : gset resource := {[ (Block, a); (SmallAlloc, a) ]}.
Definition holds_small (memory a : Z) (s : store) : Prop :=
  small_objects a ⊆ live s /\ founded s !! (SmallAlloc, a) = Some (SlabCache, memory).

Lemma small_destroy_run memory a s : sound s -> holds_small memory a s -> (SlabCache, memory) ∈ live s ->
  memory_small_allocator_destroy a s = Done (tt, with_live s (live s ∖ {[ (SmallAlloc, a) ]})).
Proof.
  intros S [L F] C. unfold small_objects in L. unfold memory_small_allocator_destroy. step.
  rewrite (destroy_run SmallAlloc a _ s ltac:(set_solver) F C). done.
Qed.

Lemma small_create_run memory s : sound s -> (SlabCache, memory) ∈ live s -> world (asked s) <> 0 ->
  exists s', memory_small_allocator_create memory s = Done (if world (S (asked s)) =? 0 then 0 else fresh s, s') /\ sound s' /\
    holds_small memory (fresh s) s' /\ made (small_objects (fresh s)) s s'.
Proof.
  intros S L W. pose proof (fun k => fresh_dead k _ _ S (Z.le_refl _)) as D. pose proof (D SmallAlloc). pose proof (D Block).
  unfold memory_small_allocator_create. apply calloc_cases; [done|intros _]. step. step. eexists. split; [done|]. split; [sound_store|].
  unfold holds_small, made, small_objects. projections. split; [split; [set_solver|look]|split; set_solver].
Qed.

Lemma small_create_null memory s : sound s -> world (asked s) = 0 -> memory_small_allocator_create memory s = Faults.
Proof.
  intros S W. unfold memory_small_allocator_create. apply calloc_cases; [intros _|done].
  apply bind_fault, construct_null, sound_answer, S.
Qed.

(** ** The pair of pools for buffers *)

Definition io_objects (b input output : Z) : gset resource := {[ (Block, b) ]} ∪ pool_objects input ∪ pool_objects output.
Record holds_io (memory b input output : Z) (s : store) : Prop := HoldsIo {
  io_block : (Block, b) ∈ live s;
  io_instance : cells s !! (b, ("instance", 0)) = Some memory;
  io_input_slot : cells s !! (b, ("input_buffers", 0)) = Some input;
  io_output_slot : cells s !! (b, ("output_buffers", 0)) = Some output;
  io_input : holds_pool memory input s;
  io_output : holds_pool memory output s;
  io_apart : b <> input /\ b <> output /\ input <> output;
}.

Lemma memory_io_buffers_create_run memory s : sound s -> (SlabCache, memory) ∈ live s ->
  let n := asked s in let b := fresh s in let i := b + 1 in let o := i + 1 in
  let r := memory_io_buffers_create memory s in
  if world n =? 0 then gives r 0 (fun s' => live s' = live s)
  else if world (1 + n)%nat =? 0 then r = Faults
  else if world (2 + n)%nat =? 0 then gives r 0 (made (pool_objects i) s)
  else if world (3 + n)%nat =? 0 then r = Faults
  else if world (4 + n)%nat =? 0 then gives r 0 (made (pool_objects i ∪ pool_objects o) s)
  else gives r b (fun s' => holds_io memory b i o s' /\ made (io_objects b i o) s s').
Proof.
  intros Snd L n b i o. pose proof (fun k a => fresh_dead k a _ Snd) as D.
  pose proof (D Block b ltac:(lia)) as Db. pose proof (sound_fresh _ Snd). cbv zeta. cbn [Nat.add].
  unfold memory_io_buffers_create, gives. apply calloc_cases; fold n; intros W0.
  { rewrite W0. eexists. split; [done|]. split; [sound_store|done]. }
  rewrite (proj2 (Z.eqb_neq _ _) W0). rewrite (proj2 (Z.eqb_neq (fresh s) 0)) by lia. step.
  set (s1 := after_write _ _ _ _). assert (S1 : sound s1) by (unfold s1; sound_store).
  assert (M1 : live s1 = {[ (Block, b) ]} ∪ live s) by done. assert (L1 : (SlabCache, memory) ∈ live s1) by (clear -L M1; set_solver).
  apply memory_pool_create_cases; [done..|change (asked s1) with (S n); intros W1; by rewrite W1|].
  change (asked s1) with (S n). change (fresh s1) with i. intros W1 s2 S2 A2 E2 C2 F2 [M2 _]. rewrite (proj2 (Z.eqb_neq _ _) W1). clear W1.
  assert (B2 : (Block, b) ∈ live s2) by (clear -M1 M2; set_solver).
  destruct (Z.eqb_spec (world (S (S n))) 0) as [W2|W2]; cbn [Z.eqb]; step; cbn [Z.eqb].
  { step. eexists. split; [done|]. split; [sound_store|]. unfold made, pool_objects in *. projections. rewrite M2, M1.
    pose proof (D Block i ltac:(lia)). pose proof (D Mempool i ltac:(lia)). assert (b <> i) by lia. clear -Db H0 H1 H2. split; set_solver. }
  rewrite (proj2 (Z.eqb_neq i 0)) by lia. set (s3 := after_write _ _ _ s2). assert (S3 : sound s3) by (unfold s3; sound_store).
  apply memory_pool_create_cases; [done|change (live s3) with (live s2); clear -L1 M2; set_solver|change (asked s3) with (asked s2); rewrite A2; intros W3; by rewrite W3|].
  change (asked s3) with (asked s2). change (fresh s3) with (fresh s2). change (live s3) with (live s2). change (founded s3) with (founded s2).
  rewrite A2, E2. change (i + 1) with o. intros W3 s4 S4 A4 E4 C4 F4 [M4 _]. rewrite (proj2 (Z.eqb_neq _ _) W3). clear W3.
  change (live s3) with (live s2) in M4. assert (B4 : (Block, b) ∈ live s4) by (clear -B2 M4; set_solver).
  assert (Dk : b <> i /\ b <> o /\ i <> o) by lia.
  pose proof (D Block i ltac:(lia)); pose proof (D Mempool i ltac:(lia)); pose proof (D Block o ltac:(lia)); pose proof (D Mempool o ltac:(lia)).
  destruct (Z.eqb_spec (world (S (S (S (S n))))) 0) as [W4|W4]; cbn [Z.eqb]; step; cbn [Z.eqb].
  { step. eexists. split; [done|]. split; [sound_store|]. unfold made, pool_objects in *. projections. rewrite M4, M2, M1.
    clear -Db Dk H0 H1 H2 H3. split; set_solver. }
  rewrite (proj2 (Z.eqb_neq o 0)) by lia. eexists. split; [done|]. split; [sound_store|]. unfold made, io_objects. projections.
  rewrite M4, M2, M1. split; [|unfold pool_objects; clear -Db Dk H0 H1 H2 H3; split; set_solver].
  assert (Cell : cells s4 = <[ (b, ("input_buffers", 0)) := i ]> (<[ (b, ("instance", 0)) := memory ]> (cells s))) by (rewrite C4; cbn; by rewrite C2).
  split; projections; try rewrite Cell.
  - done.
  - look.
  - look.
  - look.
  - unfold holds_pool. projections. rewrite M4, M2, F4, F2. clear -Dk. split; [set_solver|look].
  - unfold holds_pool. projections. rewrite M4, F4. clear. split; [set_solver|look].
  - done.
Qed.

Lemma memory_io_buffers_destroy_run memory b i o s : sound s -> (SlabCache, memory) ∈ live s -> holds_io memory b i o s ->
  memory_io_buffers_destroy b s = Done (tt, with_live s (live s ∖ io_objects b i o)).
Proof.
  intros Snd L [B _ Ci Co Hi Ho Ap]. pose proof (alive_nonzero _ _ _ Snd B). unfold memory_io_buffers_destroy. step. rewrite Ci. cbn [default].
  destruct Hi as [Li Fi], Ho as [Lo Fo]. unfold pool_objects in Li, Lo.
  erewrite bind_run by (by apply (memory_pool_destroy_run memory i)).
  assert (B1 : (Block, b) ∈ live s ∖ pool_objects i) by (unfold pool_objects; clear -B Ap; set_solver). step. projections. rewrite Co. cbn [default].
  assert (L1 : (SlabCache, memory) ∈ live s ∖ pool_objects i) by (unfold pool_objects; clear -L; set_solver).
  assert (Lo1 : pool_objects o ⊆ live s ∖ pool_objects i) by (unfold pool_objects; clear -Lo Ap; set_solver).
  erewrite bind_run by (apply (memory_pool_destroy_run memory o); [sound_store; clear; set_solver|by split|done]). projections.
  rewrite free_run by (try done; projections; unfold pool_objects; clear -B Ap; set_solver). unfold with_live. projections. do 3 f_equal.
  unfold io_objects. clear. set_solver.
Qed.

(** *** Buffers *)

Definition buffer_objects (k : kind) (x : Z) : gset resource := {[ (PoolObject, x); (k, x) ]}.
Definition holds_buffer (memory pool : Z) (k : kind) (x : Z) (s : store) : Prop :=
  buffer_objects k x ⊆ live s /\ founded s !! (PoolObject, x) = Some (Mempool, pool) /\ founded s !! (k, x) = Some (SlabCache, memory).

Lemma memory_pool_allocate_cases {A} pool (f : Z -> prog A) s (Q : outcome (A * store) -> Prop) :
  sound s -> usable pool s -> (Mempool, pool) ∈ live s ->
  (world (asked s) = 0 -> Q Faults) ->
  (world (asked s) <> 0 -> Q (f (fresh s) (after_birth PoolObject (Some (Mempool, pool)) (after_answer s)))) ->
  Q ((memory_pool_allocate pool ≫= f) s).
Proof.
  intros Snd U M H0 H1. destruct (Z.eq_dec (world (asked s)) 0) as [W|W].
  - rewrite bind_fault; [auto|]. unfold memory_pool_allocate. erewrite bind_run by (by apply touch_run).
    apply obtain_cases; [done|intros _; by apply bind_fault, touch_null, sound_answer|done].
  - erewrite bind_run; [by apply H1|]. unfold memory_pool_allocate. erewrite bind_run by (by apply touch_run).
    apply obtain_cases; [done..|intros _]. by step.
Qed.

(** [name] is the slot of the pool. *)
Lemma allocate_buffer_run name k memory b pool s : sound s -> (SlabCache, memory) ∈ live s -> k <> PoolObject ->
  (Block, b) ∈ live s -> cells s !! (b, ("instance", 0)) = Some memory -> cells s !! (b, (name, 0)) = Some pool -> pool_objects pool ⊆ live s ->
  if world (asked s) =? 0 then allocate_buffer name k b s = Faults
  else gives (allocate_buffer name k b s) (fresh s)
    (fun s' => holds_buffer memory pool k (fresh s) s' /\ made (buffer_objects k (fresh s)) s s').
Proof.
  intros Snd L Hk B Cm Cp P. unfold pool_objects in P. pose proof (fun k => fresh_dead k _ _ Snd (Z.le_refl _)) as D. pose proof (sound_fresh _ Snd).
  assert (usable b s /\ usable pool s /\ (Mempool, pool) ∈ live s) as (U & V & M) by (clear -B P; unfold usable; set_solver).
  unfold allocate_buffer. step. rewrite Cp. cbn [default].
  apply memory_pool_allocate_cases; [done..|intros W; by rewrite W|intros W]. rewrite (proj2 (Z.eqb_neq _ _) W).
  rewrite (proj2 (Z.eqb_neq (fresh s) 0)) by lia. step. projections. rewrite Cm. cbn [default].
  pose proof (D PoolObject). pose proof (D k).
  erewrite bind_run by (apply construct_run; [right; projections; clear; set_solver|clear -L; settle|clear -H1 Hk; settle]).
  eexists. split; [done|]. split; [apply sound_construct; [sound_store|right; projections; clear; set_solver]|].
  unfold holds_buffer, made, buffer_objects. projections. split; [|clear -H0 H1; split; set_solver].
  split; [clear; set_solver|split; look].
Qed.

Lemma free_buffer_run name k memory b pool x s : sound s -> (SlabCache, memory) ∈ live s -> k <> PoolObject ->
  (Block, b) ∈ live s -> cells s !! (b, (name, 0)) = Some pool -> pool_objects pool ⊆ live s -> k <> Block -> k <> Mempool -> 
  holds_buffer memory pool k x s -> 
  free_buffer name k b x s = Done (tt, with_live s (live s ∖ buffer_objects k x)).
Proof.
  intros Snd L Hk B Cp P Hk1 Hk2 (X & F1 & F2). unfold pool_objects, buffer_objects in *. unfold free_buffer, memory_pool_free.
  erewrite bind_run by (eapply destroy_run; [clear -X; set_solver|exact F2|exact L]).
  assert (B1 : usable b (with_live s (live s ∖ {[ (k, x) ]}))) by (left; projections; clear -B Hk1; set_solver).
  erewrite bind_run by (by apply load_run). projections. rewrite Cp. cbn [default].
  assert (P1 : usable pool (with_live s (live s ∖ {[ (k, x) ]}))) by (left; projections; clear -P Hk1; set_solver).
  erewrite bind_run by (by apply touch_run).
  rewrite give_back_run; [|clear -P Hk2; settle|clear -X Hk; settle|done].
  unfold with_live. projections. do 3 f_equal. clear. set_solver.
Qed.

(** ** The factory *)

(** The arena of a memory is its own and so is the allocator of strings. *)
Record holds_factory (factory memory storage_datas : Z) (s : store) : Prop := HoldsFactory {
  factory_memory_slot : cells s !! (factory, ("memory", 0)) = Some memory;
  factory_datas_slot : cells s !! (factory, ("storage_datas", 0)) = Some storage_datas;
  factory_memory : holds_memory memory s;
  factory_datas : holds_small memory storage_datas s;
}.
Definition factory_objects (memory storage_datas : Z) : gset resource := memory_objects memory ∪ small_objects storage_datas.

Lemma storage_factory_initialize_run factory s : sound s -> usable factory s ->
  let n := asked s in let m := fresh s in let d := m + 1 in
  let r := storage_factory_initialize factory s in
  if (world n =? 0) || negb (world (1 + n)%nat =? 0) then gives r (- 12) (fun s' => live s' = live s)
  else if world (2 + n)%nat =? 0 then gives r (- 12) (made (memory_objects m) s)
  else gives r 0 (fun s' => holds_factory factory m d s' /\ made (factory_objects m d) s s').
Proof.
  intros Snd U n m d. pose proof (usable_below _ _ Snd U) as Ub. pose proof (memory_create_run s Snd) as R. cbv zeta in *. fold n m in R.
  unfold storage_factory_initialize. destruct (_ || _).
  { destruct R as (s1 & E & S1 & L & _). erewrite bind_run by exact E. assert (U1 : usable factory s1) by (unfold usable in *; by rewrite L).
    erewrite bind_run by (by apply write_run). cbn [Z.eqb]. eexists. split; [done|]. split; [by apply sound_write|done]. }
  destruct R as (s1 & E & S1 & [[Hm [L Dj]] [A1 [F1 C1]]]). erewrite bind_run by exact E.
  assert (U1 : usable factory s1) by (unfold usable in *; rewrite L; clear -U; set_solver). erewrite bind_run by (by apply write_run).
  rewrite (proj2 (Z.eqb_neq m 0)) by lia. rewrite <- A1. change (asked s1) with (asked (after_write factory ("memory", 0) m s1)).
  apply calloc_cases; intros W; [rewrite W|rewrite (proj2 (Z.eqb_neq _ _) W)]; cbn [Z.eqb]. 
  - erewrite bind_run by (by apply write_run). eexists. split; [done|].
    split; [by repeat first [apply sound_write|apply sound_answer]|split; [exact L|exact Dj]].
  - assert (U2 : usable factory (after_birth Block None (after_answer (after_write factory ("memory", 0) m s1)))) by (unfold usable in *; projections; clear -U1; set_solver).
    erewrite bind_run by (by apply write_run). projections. rewrite F1. change (m + 1) with d. rewrite (proj2 (Z.eqb_neq d 0)) by lia.
    destruct Hm as (Lm & G1 & G2). unfold memory_objects in *. 
    pose proof (fresh_dead SmallAlloc d s1 S1 ltac:(lia)) as Dd. pose proof (fresh_dead SmallAlloc d s Snd ltac:(lia)). pose proof (fresh_dead Block d s Snd ltac:(lia)).
    assert (m <> d) by lia.
    erewrite bind_run by (apply construct_run; [left; projections; rewrite F1; clear; set_solver|projections; clear -Lm; set_solver|projections; rewrite F1; clear -Dd; set_solver]).
    eexists. split; [done|]. split; [apply sound_construct; [|left; projections; rewrite F1; clear; set_solver]; apply sound_write; [|done]; sound_store; by apply sound_write|].
    split; [|unfold made, factory_objects, memory_objects, small_objects; projections; rewrite F1, L; clear -Dj H H0 H1; split; set_solver].
    split; projections; [look|look| |]; unfold holds_memory, holds_small, memory_objects, small_objects; projections; rewrite F1; change (m + 1) with d.
    + split; [clear -Lm; set_solver|split; look].
    + split; [clear; set_solver|look].
Qed.

Lemma storage_factory_destroy_run factory m d s : sound s -> usable factory s -> holds_factory factory m d s ->
  factory <> m -> factory <> d -> m <> d ->
  storage_factory_destroy factory s = Done (tt, with_live s (live s ∖ factory_objects m d)).
Proof.
  intros Snd U [Cm Cd Hm [Ld Fd]] A1 A2 A3. pose proof Hm as (Lm & G1 & G2). unfold memory_objects, small_objects in *.
  pose proof (alive_nonzero Block d s Snd ltac:(clear -Ld; set_solver)). unfold storage_factory_destroy.
  erewrite bind_run by (by apply load_run). rewrite Cd. cbn [default].
  erewrite bind_run by (eapply destroy_run; [clear -Ld; set_solver|exact Fd|clear -Lm; set_solver]).
  set (s1 := with_live _ _). assert (S1 : sound s1) by (apply sound_with_live; [done|clear; set_solver]).
  assert (U1 : usable factory s1) by (unfold usable in *; cbn; clear -U; set_solver).
  erewrite bind_run by (by apply load_run). cbn [cells s1 with_live]. rewrite Cm. cbn [default].
  assert (H1 : holds_memory m s1) by (split; [unfold memory_objects; cbn; clear -Lm A3; set_solver|done]).
  erewrite bind_run by (by apply memory_destroy_run).
  erewrite bind_run by (apply load_run; unfold usable, memory_objects in *; cbn in *; clear -U1 A1; set_solver).
  cbn [cells s1 with_live]. rewrite Cd. cbn [default].
  rewrite free_run by (try done; unfold memory_objects; cbn; clear -Ld A3; set_solver).
  unfold with_live, s1. cbn. unfold factory_objects, memory_objects, small_objects. do 3 f_equal. clear. set_solver.
Qed.

(** ** The executor *)

Definition executor_objects (e completions ring : Z) : gset resource := {[ (Block, e); (Block, completions); (Block, ring); (Ring, ring) ]}.
Record holds_executor (e completions ring : Z) (s : store) : Prop := HoldsExecutor {
  executor_completions_slot : cells s !! (e, ("completions", 0)) = Some completions;
  executor_ring_slot : cells s !! (e, ("ring", 0)) = Some ring;
  executor_ring : founded s !! (Ring, ring) = Some (Block, ring);
  executor_live : executor_objects e completions ring ⊆ live s;
  executor_apart : e <> completions /\ e <> ring /\ completions <> ring;
}.

Lemma executor_create_run s : sound s ->
  let n := asked s in let e := fresh s in let c := e + 1 in let g := c + 1 in let r := executor_create s in
  if world n =? 0 then gives r 0 (fun s' => live s' = live s)
  else if world (1 + n)%nat =? 0 then gives r 0 (made {[ (Block, e) ]} s)
  else if world (2 + n)%nat =? 0 then gives r 0 (made {[ (Block, e); (Block, c) ]} s)
  else if negb (world (3 + n)%nat =? 0) then gives r 0 (made {[ (Block, e); (Block, c); (Block, g) ]} s)
  else gives r e (fun s' => holds_executor e c g s' /\ made (executor_objects e c g) s s').
Proof.
  intros Snd n e c g. pose proof (sound_fresh _ Snd) as P. cbv zeta. cbn [Nat.add].
  assert (D : (Block, e) ∉ live s /\ (Block, c) ∉ live s /\ (Block, g) ∉ live s /\ (Ring, g) ∉ live s) by (split_and!; apply fresh_dead; auto; lia).
  assert (Ap : e <> c /\ e <> g /\ c <> g) by lia.
  unfold executor_create. apply calloc_cases; fold n e; intros W; [rewrite W|rewrite (proj2 (Z.eqb_neq _ _) W)]; cbn [Z.eqb].
  { eexists. split; [done|]. split; [sound_store|done]. }
  rewrite (proj2 (Z.eqb_neq e 0)) by lia. clear W. step. set (s1 := after_birth _ _ _). assert (S1 : sound s1) by (unfold s1; sound_store).
  assert (L1 : live s1 = {[ (Block, e) ]} ∪ live s) by done.
  assert (U1 : usable e s1) by (left; rewrite L1; clear; set_solver). change (S n) with (asked s1).
  apply calloc_into; [done..| |]; intros W s2 S2 L2 F2 C2 A2 E2; [rewrite W|rewrite (proj2 (Z.eqb_neq _ _) W)]; cbn [Z.eqb]; change (fresh s1) with c in *.
  { eexists. split; [done|]. split; [done|]. unfold made. rewrite L2, L1. clear -D. split; set_solver. }
  rewrite (proj2 (Z.eqb_neq c 0)) by lia. clear W. change (S (S n)) with (S (asked s1)). rewrite <- A2.
  assert (U2 : usable e s2) by (eapply usable_more; eauto).
  apply calloc_into; [done..| |]; intros W s3 S3 L3 F3 C3 A3 E3; [rewrite W|rewrite (proj2 (Z.eqb_neq _ _) W)]; cbn [Z.eqb]; rewrite ?E2 in *.
  { eexists. split; [done|]. split; [done|]. unfold made. rewrite L3, L2, L1. clear -D. split; set_solver. }
  change (c + 1) with g in L3, C3 |- *. rewrite (proj2 (Z.eqb_neq g 0)) by lia. clear W.
  rewrite <- A3.
  assert (D3 : (Ring, g) ∉ live s3) by (rewrite L3, L2, L1; clear -D; set_solver).
  assert (B3 : (Block, g) ∈ live s3) by (rewrite L3; clear; set_solver).
  unfold io_uring_queue_init. apply construct_checked_cases; [by left|done..|intros ->|intros r -> Hr]; cbn [Z.eqb negb].
  - erewrite bind_run by (apply touch_run; left; projections; clear -B3; set_solver). eexists. split; [done|].
    split; [apply sound_construct; [by apply sound_answer|by left]|]. unfold made, executor_objects. projections. rewrite L3, L2, L1.
    split; [|clear -D; split; set_solver]. split; projections; rewrite ?C3, ?C2; look. unfold executor_objects. rewrite L3, L2, L1. clear. set_solver.
  - rewrite (proj2 (Z.eqb_neq _ _) Hr). cbn [negb]. eexists. split; [done|]. split; [by apply sound_answer|]. unfold made. projections.
    rewrite L3, L2, L1. clear -D. split; set_solver.
Qed.

Lemma executor_destroy_run e c g s : sound s -> holds_executor e c g s ->
  executor_destroy e s = Done (tt, with_live s (live s ∖ executor_objects e c g)).
Proof.
  intros Snd [Cc Cg F L (A1 & A2 & A3)]. unfold executor_objects in L.
  pose proof (alive_nonzero Block e s Snd ltac:(clear -L; set_solver)). pose proof (alive_nonzero Block c s Snd ltac:(clear -L; set_solver)).
  pose proof (alive_nonzero Block g s Snd ltac:(clear -L; set_solver)).
  assert (U : forall l, (forall r, r ∈ l -> r <> (Block, e)) -> usable e (with_live s (live s ∖ l))) by (intros l Hl; left; projections; clear -L Hl; set_solver).
  unfold executor_destroy. erewrite bind_run by (apply load_run; left; clear -L; set_solver). rewrite Cg. cbn [default].
  erewrite bind_run by (eapply destroy_run; [clear -L; set_solver|exact F|clear -L; set_solver]).
  erewrite bind_run by (apply load_run, U; clear; set_solver). cbn [cells with_live]. rewrite Cg. cbn [default].
  erewrite bind_run by (apply free_run; [done|projections; clear -L; set_solver]). projections.
  erewrite bind_run by (apply load_run; left; projections; clear -L A2; set_solver). cbn [cells with_live]. rewrite Cc. cbn [default].
  erewrite bind_run by (apply free_run; [done|projections; clear -L A3; set_solver]).
  rewrite free_run by (try done; projections; clear -L A1 A2; set_solver).
  unfold with_live. projections. unfold executor_objects. do 3 f_equal. clear. set_solver.
Qed.

(** ** The lifetimes *)

Lemma made_removed objects s s' : made objects s s' -> live s' ∖ objects = live s.
Proof. intros [-> D]. set_solver. Qed.

(** The memory of a thread.  [memory_create] gives null, and then everything it made
    is gone again, or a structure with its arena and its cache, which
    [memory_destroy] removes and nothing else, each before what it was made on.  A
    pool, made on a cache that is alive, is a block and a [mempool], which
    [memory_pool_destroy] removes; when its structure cannot be allocated it is written
    all the same, and when the [mempool] is not initialised the block is lost.  A small
    allocator is destroyed without its structure, which nobody can free any more. *)
Theorem memory_lifetimes s (Hs : sound s) :
  (let r := memory_create s in
   if (world (asked s) =? 0) || negb (world (1 + asked s)%nat =? 0) then gives r 0 (fun s' => live s' = live s)
   else gives r (fresh s) (fun s' => holds_memory (fresh s) s' /\ made (memory_objects (fresh s)) s s')) /\
  (forall m, holds_memory m s -> memory_destroy m s = Done (tt, with_live s (live s ∖ memory_objects m))) /\
  (forall m, (SlabCache, m) ∈ live s ->
    (let r := memory_pool_create m s in
     if world (asked s) =? 0 then r = Faults
     else gives r (if world (1 + asked s)%nat =? 0 then 0 else fresh s)
       (fun s' => holds_pool m (fresh s) s' /\ made (pool_objects (fresh s)) s s')) /\
    (forall p, holds_pool m p s -> memory_pool_destroy p s = Done (tt, with_live s (live s ∖ pool_objects p))) /\
    (let r := memory_small_allocator_create m s in
     if world (asked s) =? 0 then r = Faults
     else gives r (if world (1 + asked s)%nat =? 0 then 0 else fresh s)
       (fun s' => holds_small m (fresh s) s' /\ made (small_objects (fresh s)) s s')) /\
    (forall a, holds_small m a s -> memory_small_allocator_destroy a s = Done (tt, with_live s (live s ∖ {[ (SmallAlloc, a) ]})) /\
      (Block, a) ∈ live s ∖ {[ (SmallAlloc, a) ]})).
Proof.
  split; [|split; [by intros; apply memory_destroy_run|intros m L; split_and!]].
  - pose proof (memory_create_run s Hs) as R. cbv zeta in *. case_match; destruct R as (s' & E & S' & R); exists s'; tauto.
  - destruct (Z.eqb_spec (world (asked s)) 0) as [W|W]; [by apply memory_pool_create_null|].
    eexists. split; [by apply memory_pool_create_run|]. split; [by apply after_pool_sound|by apply after_pool_holds].
  - intros p H. by apply (memory_pool_destroy_run m).
  - destruct (Z.eqb_spec (world (asked s)) 0) as [W|W]; [by apply small_create_null|].
    destruct (small_create_run m s Hs L W) as (s' & E & S' & R). exists s'. tauto.
  - intros a H. split; [by apply (small_destroy_run m)|]. destruct H as [H _]. unfold small_objects in H. clear -H. set_solver.
Qed.

(** C22: The pools of buffers.  Their creation is settled by five answers: the structure,
    and for either pool its block and its [mempool].  Without the structure nothing is
    made; without a block it writes through null; when the first [mempool] fails that
    pool is lost, and when the second does both are; else all three are there, and
    [memory_io_buffers_destroy] removes exactly them.  A buffer is an object of its
    pool with an [ibuf] or an [obuf] in it, when the pool has one (else null is zeroed),
    and freeing it removes both. *)
Theorem io_buffers_lifetimes memory s (Hs : sound s) (Hc : (SlabCache, memory) ∈ live s) :
  (let n := asked s in let b := fresh s in let i := b + 1 in let o := i + 1 in
   let r := memory_io_buffers_create memory s in
   if world n =? 0 then gives r 0 (fun s' => live s' = live s)
   else if world (1 + n)%nat =? 0 then r = Faults
   else if world (2 + n)%nat =? 0 then gives r 0 (made (pool_objects i) s)
   else if world (3 + n)%nat =? 0 then r = Faults
   else if world (4 + n)%nat =? 0 then gives r 0 (made (pool_objects i ∪ pool_objects o) s)
   else gives r b (fun s' => holds_io memory b i o s' /\ made (io_objects b i o) s s')) /\
  (forall b i o, holds_io memory b i o s ->
    memory_io_buffers_destroy b s = Done (tt, with_live s (live s ∖ io_objects b i o)) /\
    (let r := memory_io_buffers_allocate_input b s in
     if world (asked s) =? 0 then r = Faults
     else gives r (fresh s) (fun s' => holds_buffer memory i Ibuf (fresh s) s' /\ made (buffer_objects Ibuf (fresh s)) s s')) /\
    (let r := memory_io_buffers_allocate_output b s in
     if world (asked s) =? 0 then r = Faults
     else gives r (fresh s) (fun s' => holds_buffer memory o Obuf (fresh s) s' /\ made (buffer_objects Obuf (fresh s)) s s')) /\
    (forall x, holds_buffer memory i Ibuf x s ->
      memory_io_buffers_free_input b x s = Done (tt, with_live s (live s ∖ buffer_objects Ibuf x))) /\
    (forall x, holds_buffer memory o Obuf x s ->
      memory_io_buffers_free_output b x s = Done (tt, with_live s (live s ∖ buffer_objects Obuf x)))).
Proof.
  split; [by apply memory_io_buffers_create_run|]. intros b i o H. pose proof H as [B Cm Ci Co [Pi _] [Po _] _].
  split; [by apply (memory_io_buffers_destroy_run memory)|]. split; [by apply allocate_buffer_run|]. split; [by apply allocate_buffer_run|].
  split; intros x X; [by apply (free_buffer_run _ _ memory _ i)|by apply (free_buffer_run _ _ memory _ o)].
Qed.

(** C23: Executors and the factory of strings.  An executor is its structure, the array of
    completions, the ring and what the kernel keeps for it; [executor_destroy] removes
    exactly these, and when one of the four cannot be had, the ones before it are lost.
    A factory is a memory and a small allocator in a block of its own; its destructor
    destroys the allocator before the cache it was made on, then the memory, then the
    block; when the block cannot be allocated the memory is lost. *)
Theorem executor_factory_lifetimes s (Hs : sound s) :
  (let n := asked s in let e := fresh s in let c := e + 1 in let g := c + 1 in let r := executor_create s in
   if world n =? 0 then gives r 0 (fun s' => live s' = live s)
   else if world (1 + n)%nat =? 0 then gives r 0 (made {[ (Block, e) ]} s)
   else if world (2 + n)%nat =? 0 then gives r 0 (made {[ (Block, e); (Block, c) ]} s)
   else if negb (world (3 + n)%nat =? 0) then gives r 0 (made {[ (Block, e); (Block, c); (Block, g) ]} s)
   else gives r e (fun s' => holds_executor e c g s' /\ made (executor_objects e c g) s s')) /\
  (forall e c g, holds_executor e c g s -> executor_destroy e s = Done (tt, with_live s (live s ∖ executor_objects e c g))) /\
  (forall factory, usable factory s ->
    (let n := asked s in let m := fresh s in let d := m + 1 in let r := storage_factory_initialize factory s in
     if (world n =? 0) || negb (world (1 + n)%nat =? 0) then gives r (- 12) (fun s' => live s' = live s)
     else if world (2 + n)%nat =? 0 then gives r (- 12) (made (memory_objects m) s)
     else gives r 0 (fun s' => holds_factory factory m d s' /\ made (factory_objects m d) s s')) /\
    (forall m d, holds_factory factory m d s -> factory <> m -> factory <> d -> m <> d ->
      storage_factory_destroy factory s = Done (tt, with_live s (live s ∖ factory_objects m d)))).
Proof.
  split; [by apply executor_create_run|]. split; [by intros; apply executor_destroy_run|]. intros f U.
  split; [by apply storage_factory_initialize_run|by intros; apply storage_factory_destroy_run].
Qed.

End Primitives.

(** *** On an empty store *)

Definition empty_store : store := Store ∅ ∅ ∅ 1 0.
Lemma empty_sound : sound empty_store.
Proof. split; cbn; [lia|set_solver|intros; apply lookup_empty]. Qed.

Lemma memory_lifetimes_witness : let w n := if Nat.eqb n 1 then 0 else 1 in
  sound empty_store /\
  gives (memory_create w empty_store) 1 (fun s' => holds_memory 1 s' /\ made (memory_objects 1) empty_store s').
Proof. intros w. split; [exact empty_sound|]. exact (proj1 (memory_lifetimes w empty_store empty_sound)). Defined.

(** The store with one memory. *)
Definition one_memory : store := Store (memory_objects 1) {[ (Arena, 1) := (Block, 1); (SlabCache, 1) := (Arena, 1) ]} ∅ 2 0.
Lemma one_memory_sound : sound one_memory.
Proof. split; cbn; [lia|unfold memory_objects; intros k a H; assert (a = 1) by set_solver; lia|intros; apply lookup_empty]. Qed.

(** The second [mempool] fails: both pools are lost. *)
Lemma io_buffers_lifetimes_witness : let w n := if Nat.eqb n 4 then 0 else 1 in
  sound one_memory /\ (SlabCache, 1) ∈ live one_memory /\
  gives (memory_io_buffers_create w 1 one_memory) 0 (made (pool_objects 3 ∪ pool_objects 4) one_memory).
Proof.
  intros w. split; [exact one_memory_sound|]. assert (L : (SlabCache, 1) ∈ live one_memory) by (cbn; unfold memory_objects; set_solver).
  split; [exact L|]. exact (proj1 (io_buffers_lifetimes w 1 one_memory one_memory_sound L)).
Defined.

Lemma executor_factory_lifetimes_witness : let w n := if Nat.eqb n 3 then 0 else 1 in
  sound empty_store /\
  gives (executor_create w empty_store) 1 (fun s' => holds_executor 1 2 3 s' /\ made (executor_objects 1 2 3) empty_store s').
Proof. intros w. split; [exact empty_sound|]. exact (proj1 (executor_factory_lifetimes w empty_store empty_sound)). Defined.

(** A thread's session, from the memory to its buffers and back: nothing is left. *)
Example session : let w n := if Nat.eqb n 1 then 0 else 1 in
  let run := memory ← memory_create w; io ← memory_io_buffers_create w memory; input ← memory_io_buffers_allocate_input w io;
             memory_io_buffers_free_input io input;; memory_io_buffers_destroy io;; memory_destroy memory in
  exists s', run empty_store = Done (tt, s') /\ live s' = ∅.
Proof. eexists. split; [vm_compute; reflexivity|]. reflexivity. Qed.
