(* ===== verification/LifetimesArrays.v ===== *)
(** * Lifetimes of structures with arrays

    The static buffers, the hash map, the transport and the events, in the model of
    [Lifetimes]: the blocks that arrays of pointers hold. *)
From stdpp Require Import strings.
From S2P Require Import Prelude Time Events Lifetimes.

Section Arrays.
Context (world : nat -> Z).
#[local] Abbreviation ask := (Lifetimes.ask world).
#[local] Abbreviation calloc := (Lifetimes.calloc world).

(** [for (i = 0; i < n; i++) body]. *)
Fixpoint repeat_from (n : nat) (i : Z) (body : Z -> prog unit) : prog unit :=
  match n with O => mret tt | S n => body i ≫= fun _ => repeat_from n (i + 1) body end.

(** ** [memory/native/memory/static_buffers.h] *)

(** The checked allocations of a module exit when they fail.  The size of a block is
    not followed; the count and the size of an element are [uint32_t]. *)
Definition allocate_checked : prog Z := object ← calloc; if object =? 0 then quit else mret object.

(** [posix_memalign] answers zero when it stores a block. *)
Definition posix_memalign (a : Z) (f : slot) : prog Z :=
  result ← ask; if result =? 0 then base ← born Block None; write a f base;; mret 0 else mret result.

(** The loop of [create]: the number of buffers that are still to be made; false when
    one fails, after the structure and its arrays are freed. *)
Fixpoint make_buffers (n : nat) (index ids buffers pool : Z) : prog bool :=
  match n with
  | O => mret true
  | S n =>
      result ← posix_memalign buffers ("iov_base", index);
      if negb (result =? 0) then free ids;; free buffers;; free pool;; mret false else
      base ← load buffers ("iov_base", index);
      touch base;;
      make_buffers n (index + 1) ids buffers pool
  end.
Definition memory_static_buffers_create (capacity : nat) : prog Z :=
  pool ← allocate_checked;
  touch pool;;
  ids ← allocate_checked;
  write pool ("ids", 0) ids;;
  buffers ← allocate_checked;
  write pool ("buffers", 0) buffers;;
  made ← make_buffers capacity 0 ids buffers pool;
  mret (if made : bool then pool else 0).
Definition memory_static_buffers_destroy (capacity : nat) (pool : Z) : prog unit :=
  repeat_from capacity 0 (fun index =>
    buffers ← load pool ("buffers", 0);
    base ← load buffers ("iov_base", index);
    free base);;
  ids ← load pool ("ids", 0);
  free ids;;
  buffers ← load pool ("buffers", 0);
  free buffers;;
  free pool.

(** ** [core/native/maps/simple.h] *)

(** The blocks of a map: the structure, its shadow, and for either one the nodes and
    the bits, of which the shadow has some only during a resize. *)
Definition simple_map_new : prog Z :=
  h ← calloc;
  shadow ← calloc;
  write h ("shadow", 0) shadow;;
  p ← calloc;
  write h ("p", 0) p;;
  b ← calloc;
  write h ("b", 0) b;;
  mret h.

(** What [clear] and [delete] do with the shadow. *)
Definition drop_shadow (h : Z) : prog unit :=
  shadow ← load h ("shadow", 0);
  p ← load shadow ("p", 0);
  if p =? 0 then mret tt else
  free p;;
  b ← load shadow ("b", 0);
  free b;;
  write shadow ("p", 0) 0;;
  write shadow ("b", 0) 0;;
  write shadow ("shadow", 0) 0.

Definition simple_map_clear (h : Z) : prog unit :=
  p' ← calloc;
  b' ← calloc;
  drop_shadow h;;
  p ← load h ("p", 0);
  free p;;
  b ← load h ("b", 0);
  free b;;
  write h ("p", 0) p';;
  write h ("b", 0) b'.

Definition simple_map_delete (h : Z) : prog unit :=
  drop_shadow h;;
  shadow ← load h ("shadow", 0);
  free shadow;;
  b ← load h ("b", 0);
  free b;;
  p ← load h ("p", 0);
  free p;;
  free h.

(** [finished]: the loop over the slots came to its end, and did not stop after a
    batch of them. *)
Definition simple_map_resize (finished : bool) (h : Z) : prog unit :=
  shadow ← load h ("shadow", 0);
  b ← load h ("b", 0);
  touch b;;
  if negb finished then mret tt else
  p ← load h ("p", 0);
  free p;;
  b ← load h ("b", 0);
  free b;;
  p ← load shadow ("p", 0);
  b ← load shadow ("b", 0);
  s ← load shadow ("shadow", 0);
  write h ("p", 0) p;;
  write h ("b", 0) b;;
  write h ("shadow", 0) s;;
  write shadow ("p", 0) 0;;
  write shadow ("b", 0) 0;;
  write shadow ("shadow", 0) 0.

(** After the tests for a resize that has been started and for enough buckets; the
    copy of the structure to its shadow copies the pointer to the shadow too. *)
Definition simple_map_start_resize (finished : bool) (h : Z) : prog unit :=
  p ← calloc;
  b ← calloc;
  shadow ← load h ("shadow", 0);
  write shadow ("shadow", 0) shadow;;
  write shadow ("p", 0) p;;
  write shadow ("b", 0) b;;
  simple_map_resize finished h.

(** ** [transport/native/transport/transport.c] *)

(** The names of the messages, one pair for every index; false when one could not be
    allocated. *)
Fixpoint make_names (n : nat) (index inet unix : Z) : prog bool :=
  match n with
  | O => mret true
  | S n =>
      name ← calloc;
      write inet ("msg_name", index) name;;
      if name =? 0 then mret false else
      touch inet;;
      name ← calloc;
      write unix ("msg_name", index) name;;
      if name =? 0 then mret false else
      touch unix;;
      make_names n (index + 1) inet unix
  end.

(** [capacity] is that of the static buffers; [grows]: it asks for more buckets than
    a new map has, and then the resize, which has no node to move, is finished at
    once. *)
Definition transport_initialize (capacity : nat) (grows : bool) : prog Z :=
  transport ← calloc;
  touch transport;;
  events ← simple_map_new;
  write transport ("events", 0) events;;
  if events =? 0 then mret 0 else
  (if grows then simple_map_start_resize true events else mret tt);;
  inet ← calloc;
  write transport ("inet_used_messages", 0) inet;;
  unix ← calloc;
  write transport ("unix_used_messages", 0) unix;;
  if (inet =? 0) || (unix =? 0) then mret 0 else
  named ← make_names capacity 0 inet unix;
  mret (if named : bool then transport else 0).

Definition transport_destroy (capacity : nat) (transport : Z) : prog unit :=
  repeat_from capacity 0 (fun index =>
    inet ← load transport ("inet_used_messages", 0);
    name ← load inet ("msg_name", index);
    free name;;
    unix ← load transport ("unix_used_messages", 0);
    name ← load unix ("msg_name", index);
    free name);;
  events ← load transport ("events", 0);
  simple_map_delete events;;
  inet ← load transport ("inet_used_messages", 0);
  free inet;;
  unix ← load transport ("unix_used_messages", 0);
  free unix;;
  free transport.

(** ** [core/native/events] *)

(** A field is its type and its value, which for a string is a copy made by [strdup]. *)
Definition strdup : prog Z := calloc.

Definition event_create : prog Z :=
  created ← calloc;
  if created =? 0 then quit else
  fields ← calloc;
  write created ("fields", 0) fields;;
  if fields =? 0 then quit else
  touch created;; mret created.

(** [event->fields[event->fields_count] = field; ++event->fields_count].  The table
    has room for sixty fields ([fields_capacity] of [Events]); [event_build] is called with at
    most thirty-one and [event_set_field] stops at twenty. *)
Definition append_field (event field : Z) : prog unit :=
  fields ← load event ("fields", 0);
  count ← load event ("fields_count", 0);
  write fields ("field", count) field;;
  write event ("fields_count", 0) (count + 1).

(** The field is written without a check. *)
Definition new_field (event type value : Z) : prog unit :=
  field ← calloc;
  write field ("type", 0) type;;
  write field ("value", 0) value;;
  append_field event field.

Fixpoint add_fields (l : list (Z * Z)) (event : Z) : prog unit :=
  match l with [] => mret tt | (type, value) :: l => new_field event type value;; add_fields l event end.
Definition event_build (l : list (Z * Z)) : prog Z := event ← event_create; add_fields l event;; mret event.

(** [event_set_field]: [found] is the index of the field with that name. *)
Definition set_value (field type value : Z) : prog unit :=
  write field ("type", 0) type;;
  value ← (if type =? EVENT_TYPE_STRING then strdup else mret value);
  write field ("value", 0) value.
Definition event_set_field (event : Z) (found : option Z) (type value : Z) : prog unit :=
  match found with
  | Some i =>
      fields ← load event ("fields", 0);
      field ← load fields ("field", i);
      set_value field type value
  | None =>
      count ← load event ("fields_count", 0);
      if count =? EVENT_FIELDS_MAXIMUM then quit else
      field ← calloc;
      touch field;;
      set_value field type value;;
      append_field event field
  end.

Definition event_field_delete (field : Z) : prog unit :=
  type ← load field ("type", 0);
  (if type =? EVENT_TYPE_STRING then value ← load field ("value", 0); free value else mret tt);;
  free field.
Definition event_destroy (event : Z) : prog unit :=
  count ← load event ("fields_count", 0);
  repeat_from (Z.to_nat count) 0 (fun i =>
    fields ← load event ("fields", 0);
    field ← load fields ("field", i);
    event_field_delete field);;
  fields ← load event ("fields", 0);
  free fields;;
  free event.


Ltac look := repeat first [rewrite lookup_insert_eq | rewrite lookup_insert_ne by (intros ?; simplify_eq; lia)]; try done.

(** ** Many blocks *)

Definition blocks (l : list Z) : gset resource := list_to_set (pair Block <$> l).

#[local] Typeclasses Opaque blocks.
Lemma elem_of_blocks k a l : (k, a) ∈ blocks l <-> k = Block /\ a ∈ l.
Proof. unfold blocks. rewrite elem_of_list_to_set, list_elem_of_fmap. naive_solver. Qed.
Lemma blocks_app l m : blocks (l ++ m) = blocks l ∪ blocks m.
Proof. unfold blocks. by rewrite fmap_app, list_to_set_app_L. Qed.
Lemma blocks_cons a l : blocks (a :: l) = {[ (Block, a) ]} ∪ blocks l.
Proof. done. Qed.
Lemma blocks_nil : blocks [] = ∅.
Proof. done. Qed.
Lemma blocks_apart l m : (forall a, a ∈ l -> a ∉ m) -> blocks l ## blocks m.
Proof. intros H [k a] [_ H1]%elem_of_blocks [_ H2]%elem_of_blocks. by apply (H a). Qed.
Lemma with_live_twice s l m : with_live (with_live s l) m = with_live s m.
Proof. done. Qed.

(** A loop that frees the blocks [held j] of every index [j], while [base] stays alive. *)
Lemma repeat_frees (body : Z -> prog unit) (held : Z -> list Z) (base : gset resource) s n i X :
  (forall j Y, i <= j < i + Z.of_nat n -> Y ⊆ X -> base ⊆ Y -> blocks (held j) ⊆ Y ->
     body j (with_live s Y) = Done (tt, with_live s (Y ∖ blocks (held j)))) ->
  base ⊆ X -> base ## blocks (concat (held <$> seqZ i (Z.of_nat n))) ->
  blocks (concat (held <$> seqZ i (Z.of_nat n))) ⊆ X -> NoDup (concat (held <$> seqZ i (Z.of_nat n))) ->
  repeat_from n i body (with_live s X) = Done (tt, with_live s (X ∖ blocks (concat (held <$> seqZ i (Z.of_nat n))))).
Proof.
  revert i X. induction n as [|n IH]; intros i X Hb B D L N.
  - change (blocks _) with (∅ : gset resource). rewrite difference_empty_L. done.
  - rewrite seqZ_cons in * by lia. replace (Z.pred (Z.of_nat (S n))) with (Z.of_nat n) in * by lia.
    rewrite fmap_cons in *. cbn [concat] in *. rewrite blocks_app in *. apply NoDup_app in N as (N1 & N2 & N3).
    pose proof (blocks_apart _ _ N2) as Ap. cbn [repeat_from].
    erewrite bind_run by (apply Hb; [lia|done|done|clear -L; set_solver]).
    rewrite <- Z.add_1_r in *. rewrite IH.
    + by rewrite difference_difference_l_L.
    + intros j Y Hj HY. apply Hb; [lia|]. clear -HY. set_solver.
    + clear -B D. set_solver.
    + clear -D. set_solver.
    + clear -L Ap. set_solver.
    + done.
Qed.

Lemma with_live_same s : with_live s (live s) = s.
Proof. by destruct s. Qed.
Lemma repeat_frees_all (body : Z -> prog unit) (held : Z -> list Z) (base : gset resource) s n l :
  concat (held <$> seqZ 0 (Z.of_nat n)) = l ->
  (forall j Y, 0 <= j < Z.of_nat n -> Y ⊆ live s -> base ⊆ Y -> blocks (held j) ⊆ Y ->
     body j (with_live s Y) = Done (tt, with_live s (Y ∖ blocks (held j)))) ->
  base ⊆ live s -> base ## blocks l -> blocks l ⊆ live s -> NoDup l ->
  repeat_from n 0 body s = Done (tt, with_live s (live s ∖ blocks l)).
Proof.
  intros <- Hb B D L N. rewrite <- (repeat_frees body held base); [by rewrite with_live_same| |done..].
  intros j Y Hj. apply Hb. lia.
Qed.

(** ** Static buffers *)

(** The index of the first answer that is not zero, among the next [n]. *)
Fixpoint failing (n j : nat) : option nat :=
  match n with O => None | S n => if world j =? 0 then S <$> failing n (S j) else Some O end.

Lemma failing_lt n j k : failing n j = Some k -> (k < n)%nat /\ world (j + k)%nat <> 0 /\ forall i, (i < k)%nat -> world (j + i)%nat = 0.
Proof.
  revert j k. induction n as [|n IH]; intros j k H; cbn in H; [done|]. destruct (Z.eqb_spec (world j) 0) as [E|E].
  - destruct (failing n (S j)) as [k'|] eqn:F; cbn in H; [|done]. simplify_eq. apply IH in F as (L & W & A). split; [lia|]. split; [by rewrite Nat.add_succ_r|].
    intros [|i] Hi; [by rewrite Nat.add_0_r|]. rewrite Nat.add_succ_r. apply (A i). lia.
  - simplify_eq. split; [lia|]. rewrite Nat.add_0_r. split; [done|]. intros. lia.
Qed.

Lemma posix_memalign_cases {A} a f (k : Z -> prog A) s (Q : outcome (A * store) -> Prop) : sound s -> usable a s ->
  (world (asked s) = 0 -> forall s', sound s' -> live s' = {[ (Block, fresh s) ]} ∪ live s ->
     cells s' = <[ (a, f) := fresh s ]> (cells s) -> asked s' = S (asked s) -> fresh s' = fresh s + 1 -> Q (k 0 s')) ->
  (forall r, r = world (asked s) -> r <> 0 -> Q (k r (after_answer s))) ->
  Q ((posix_memalign a f ≫= k) s).
Proof.
  intros Snd U H0 H1. destruct (Z.eq_dec (world (asked s)) 0) as [W|W].
  - set (s1 := after_birth Block None (after_answer s)). assert (U1 : usable a s1) by (by eapply usable_more).
    erewrite bind_run.
    2: { unfold posix_memalign. erewrite bind_run by apply ask_run. rewrite W. cbn [Z.eqb].
         erewrite bind_run by apply born_run. erewrite bind_run by (by apply write_run). done. }
    apply H0; auto. apply sound_write; [by apply sound_birth, sound_answer|done].
  - erewrite bind_run; [by apply H1|]. unfold posix_memalign. erewrite bind_run by apply ask_run. by rewrite (proj2 (Z.eqb_neq _ _) W).
Qed.

(** What the loops leave alone: the slots that are not of the array, or that are below
    the index. *)
Definition same_but (a : Z) (name : string) (index : Z) (s s' : store) : Prop :=
  forall b f, b <> a \/ (forall j, index <= j -> f <> (name, j)) -> cells s' !! (b, f) = cells s !! (b, f).

Lemma same_but_write a name index v s s1 s2 : cells s1 = <[ (a, (name, index)) := v ]> (cells s) -> same_but a name (index + 1) s1 s2 ->
  same_but a name index s s2 /\ cells s2 !! (a, (name, index)) = Some v.
Proof.
  intros C H. split.
  - intros b f Hb. rewrite H by (destruct Hb as [Hb|Hb]; [by left|right; intros j Hj; apply Hb; lia]). rewrite C.
    rewrite lookup_insert_ne; [done|]. intros E. simplify_eq. destruct Hb as [Hb|Hb]; [done|]. by apply (Hb index).
  - rewrite H by (right; intros j Hj E; simplify_eq; lia). by rewrite C, lookup_insert_eq.
Qed.

Definition numbered (a : Z) (name : string) (index : Z) (l : list Z) (s : store) : Prop :=
  forall j x, l !! j = Some x -> cells s !! (a, (name, index + Z.of_nat j)) = Some x.
Lemma numbered_cons a name index x l s : cells s !! (a, (name, index)) = Some x -> numbered a name (index + 1) l s -> numbered a name index (x :: l) s.
Proof.
  intros H N [|j] y E; cbn in E; simplify_eq.
  - by rewrite Z.add_0_r.
  - apply N in E. rewrite <- E. do 3 f_equal. lia.
Qed.

Lemma seqZ_step m (n : nat) : seqZ m (Z.of_nat (S n)) = m :: seqZ (m + 1) (Z.of_nat n).
Proof. rewrite seqZ_cons by lia. by replace (Z.pred (Z.of_nat (S n))) with (Z.of_nat n) by lia. Qed.

Lemma fresh_kept (x : resource) (l m b : gset resource) : x ∉ m -> b ⊆ m -> l ∪ ({[ x ]} ∪ m) ∖ b = ({[ x ]} ∪ l) ∪ m ∖ b.
Proof. intros H1 H2. assert (x ∉ b) by set_solver. clear H2. set_solver. Qed.
Lemma fresh_more (x : resource) (l m : gset resource) : l ∪ ({[ x ]} ∪ m) = ({[ x ]} ∪ l) ∪ m.
Proof. set_solver. Qed.
Lemma blocks_none m : blocks (seqZ m (Z.of_nat 0)) = ∅.
Proof. done. Qed.

Lemma make_buffers_run n index ids buffers pool s : sound s -> blocks [ids; buffers; pool] ⊆ live s -> NoDup [ids; buffers; pool] ->
  match failing n (asked s) with
  | None => gives (make_buffers n index ids buffers pool s) true (fun s' =>
      live s' = blocks (seqZ (fresh s) (Z.of_nat n)) ∪ live s /\ same_but buffers "iov_base" index s s' /\
      numbered buffers "iov_base" index (seqZ (fresh s) (Z.of_nat n)) s')
  | Some k => gives (make_buffers n index ids buffers pool s) false (fun s' =>
      live s' = blocks (seqZ (fresh s) (Z.of_nat k)) ∪ live s ∖ blocks [ids; buffers; pool])
  end.
Proof.
  revert index s. induction n as [|n IH]; intros index s Snd L N; cbn [failing make_buffers].
  { eexists. split; [done|]. split; [done|]. split; [by rewrite blocks_none, union_empty_l_L|]. split; [done|]. intros j x E. done. }
  assert (U : usable buffers s) by (left; apply L; by apply elem_of_blocks; set_solver).
  apply posix_memalign_cases; [done..| |].
  - intros W s1 S1 L1 C1 A1 F1. rewrite W. cbn [Z.eqb negb]. assert (U1 : usable buffers s1) by (by eapply usable_more).
    erewrite bind_run by (by apply load_run). rewrite C1, lookup_insert_eq. cbn [default].
    erewrite bind_run by (apply touch_run; left; rewrite L1; set_solver).
    specialize (IH (index + 1) s1 S1 ltac:(rewrite L1; by apply union_subseteq_r') N). rewrite A1 in IH. destruct (failing n (S (asked s))) as [k|]; cbn [fmap option_fmap option_map].
    + destruct IH as (s' & E & S' & L'). exists s'. split; [exact E|]. split; [done|]. rewrite L', L1, F1, seqZ_step, blocks_cons.
      apply fresh_kept; [by apply fresh_dead|done].
    + destruct IH as (s' & E & S' & L' & B' & N'). exists s'. split; [exact E|]. split; [done|]. rewrite seqZ_step, blocks_cons. rewrite F1 in *.
      destruct (same_but_write _ _ _ _ _ _ _ C1 B') as [B2 X]. split; [rewrite L', L1; apply fresh_more|]. split; [done|by apply numbered_cons].
  - intros r -> W. rewrite (proj2 (Z.eqb_neq _ _) W). cbn [negb].
    assert (forall x, x ∈ [ids; buffers; pool] -> (Block, x) ∈ live s) as M by (intros x Hx; apply L; by apply elem_of_blocks).
    apply NoDup_cons in N as [N1 N]. apply NoDup_cons in N as [N2 _].
    assert (ids <> 0 /\ buffers <> 0 /\ pool <> 0) as (? & ? & ?) by (split_and!; apply (alive_nonzero Block _ s Snd), M; set_solver).
    erewrite bind_run by (apply free_run; [done|apply M; set_solver]).
    erewrite bind_run by (apply free_run; [done|cbn; apply elem_of_difference; split; [apply M|]; set_solver]).
    erewrite bind_run by (apply free_run; [done|cbn; rewrite !elem_of_difference; split_and!; [apply M| |]; set_solver]).
    eexists. split; [done|]. split; [apply sound_with_live; [apply sound_with_live; [apply sound_with_live; [by apply sound_answer|]|]|]; cbn; set_solver|].
    cbn [live with_live after_answer]. rewrite !difference_difference_l_L.
    rewrite blocks_none, union_empty_l_L. f_equal. rewrite !blocks_cons.
    replace (blocks []) with (∅ : gset resource) by done. rewrite union_empty_r_L, assoc_L by apply _. done.
Qed.

Lemma allocate_checked_cases {A} (f : Z -> prog A) s (Q : outcome (A * store) -> Prop) : sound s ->
  (world (asked s) = 0 -> Q (Exits (-1))) ->
  (world (asked s) <> 0 -> forall s', sound s' -> live s' = {[ (Block, fresh s) ]} ∪ live s -> cells s' = cells s ->
     asked s' = S (asked s) -> fresh s' = fresh s + 1 -> Q (f (fresh s) s')) ->
  Q ((allocate_checked ≫= f) s).
Proof.
  intros Snd H0 H1. pose proof (sound_fresh _ Snd). pose proof (calloc_run world s) as E.
  destruct (Z.eqb_spec (world (asked s)) 0) as [W|W].
  - replace ((allocate_checked ≫= f) s) with (@Exits (A * store) (-1)); [by apply H0|].
    symmetry. change ((allocate_checked ≫= f) s) with (r ← allocate_checked s; let '(a, s) := r in f a s). unfold allocate_checked.
    by erewrite bind_run by exact E.
  - erewrite bind_run; [apply H1; [done|apply (sound_birth Block None), sound_answer, Snd|done..]|].
    unfold allocate_checked. erewrite bind_run by exact E. by rewrite (proj2 (Z.eqb_neq (fresh s) 0)) by lia.
Qed.

Record holds_static (pool ids buffers : Z) (l : list Z) (s : store) : Prop := HoldsStatic {
  static_ids_slot : cells s !! (pool, ("ids", 0)) = Some ids;
  static_buffers_slot : cells s !! (pool, ("buffers", 0)) = Some buffers;
  static_numbered : numbered buffers "iov_base" 0 l s;
  static_live : blocks (pool :: ids :: buffers :: l) ⊆ live s;
  static_apart : NoDup (pool :: ids :: buffers :: l);
}.

Lemma blocks_new l s : sound s -> (forall a, a ∈ l -> fresh s <= a) -> blocks l ## live s.
Proof. intros Snd H [k a] Hb Ha. apply elem_of_blocks in Hb as [-> Hb]. apply H in Hb. apply (sound_live _ Snd) in Ha. lia. Qed.

Lemma seqZ_apart a m n : a < m -> a ∉ seqZ m n.
Proof. rewrite elem_of_seqZ. lia. Qed.

Lemma memory_static_buffers_create_run n s : sound s ->
  let p := fresh s in let j := asked s in let r := memory_static_buffers_create n s in
  if (world j =? 0) || (world (1 + j)%nat =? 0) || (world (2 + j)%nat =? 0) then r = Exits (-1)
  else match failing n (3 + j)%nat with
  | Some k => gives r 0 (made (blocks (seqZ (p + 3) (Z.of_nat k))) s)
  | None => let l := seqZ (p + 3) (Z.of_nat n) in
      gives r p (fun s' => holds_static p (p + 1) (p + 2) l s' /\ made (blocks (p :: p + 1 :: p + 2 :: l)) s s')
  end.
Proof.
  intros Snd p j. cbv zeta. cbn [Nat.add]. pose proof (sound_fresh _ Snd) as Pos. pose proof (fun a => fresh_dead Block a s Snd) as D.
  unfold memory_static_buffers_create.
  apply allocate_checked_cases; [done|intros W; fold j in W; by rewrite W|]. fold j p. intros W s1 S1 L1 C1 A1 F1. rewrite (proj2 (Z.eqb_neq _ _) W). clear W.
  assert (U1 : usable p s1) by (left; rewrite L1; clear; set_solver). erewrite bind_run by (by apply touch_run). rewrite <- A1.
  apply allocate_checked_cases; [done|intros W; by rewrite W|]. rewrite F1. intros W s2 S2 L2 C2 A2 F2. rewrite (proj2 (Z.eqb_neq _ _) W). clear W.
  assert (U2 : usable p s2) by (by eapply usable_more). erewrite bind_run by (by apply write_run). rewrite <- A2. set (s2' := after_write _ _ _ s2).
  assert (S2' : sound s2') by (by apply sound_write). change (asked s2) with (asked s2').
  apply allocate_checked_cases; [done|intros W; by rewrite W|]. change (fresh s2') with (fresh s2). change (live s2') with (live s2).
  rewrite F2. replace (p + 1 + 1) with (p + 2) by lia. intros W s3 S3 L3 C3 A3 F3. rewrite (proj2 (Z.eqb_neq _ _) W). clear W. cbn [orb].
  assert (U3 : usable p s3) by (by eapply usable_more). erewrite bind_run by (by apply write_run). rewrite <- A3. set (s3' := after_write _ _ _ s3).
  assert (S3' : sound s3') by (by apply sound_write). change (asked s3) with (asked s3').
  assert (L : live s3 = blocks [p + 1; p + 2; p] ∪ live s) by (rewrite L3, L2, L1; unfold blocks; clear; set_solver).
  pose proof (make_buffers_run n 0 (p + 1) (p + 2) p s3' S3') as M. change (live s3') with (live s3) in M. change (fresh s3') with (fresh s3) in M.
  replace (fresh s3) with (p + 3) in M by lia.
  destruct (failing n (asked s3')) as [k|].
  - destruct M as (s4 & E & S4 & L4); [rewrite L; by apply union_subseteq_l|repeat constructor; set_solver by lia|].
    erewrite bind_run by exact E. eexists. split; [done|]. split; [done|]. unfold made. rewrite L4, L.
    assert (X : blocks [p + 1; p + 2; p] ## live s) by (apply blocks_new; [done|]; intros a Ha; set_solver by lia).
    split; [f_equal; clear -X; set_solver|]. apply blocks_new; [done|]. intros a Ha. apply elem_of_seqZ in Ha. lia.
  - destruct M as (s4 & E & S4 & L4 & B4 & N4); [rewrite L; by apply union_subseteq_l|repeat constructor; set_solver by lia|].
    erewrite bind_run by exact E. eexists. split; [done|]. split; [done|].
    assert (LL : live s4 = blocks (p :: p + 1 :: p + 2 :: seqZ (p + 3) (Z.of_nat n)) ∪ live s)
      by (rewrite L4, L, !blocks_cons; clear; change (blocks []) with (∅ : gset resource); set_solver).
    split; [|split; [done|]; apply blocks_new; [done|]; intros a Ha; rewrite !elem_of_cons, elem_of_seqZ in Ha; lia].
    split.
    + rewrite B4 by (right; intros; discriminate). unfold s3'. cbn. rewrite C3. unfold s2'. cbn. look.
    + rewrite B4 by (left; lia). unfold s3'. cbn. look.
    + done.
    + rewrite LL. by apply union_subseteq_l.
    + repeat constructor; rewrite ?elem_of_cons, ?elem_of_seqZ; [lia..|]. apply NoDup_seqZ.
Qed.

Lemma blocks_mono (l m : list Z) : (forall a, a ∈ l -> a ∈ m) -> blocks l ⊆ blocks m.
Proof. intros H [k a] [-> Ha]%elem_of_blocks. apply elem_of_blocks. auto. Qed.

Lemma blocks_one a : blocks [a] = {[ (Block, a) ]}.
Proof. unfold blocks. cbn. set_solver. Qed.
Lemma free_next a s : sound s -> (Block, a) ∈ live s -> free a s = Done (tt, with_live s (live s ∖ blocks [a])).
Proof.
  intros Snd H. rewrite free_run by (done || by eapply alive_nonzero). by rewrite blocks_one.
Qed.

(** The list as the parts that the indices hold. *)
Definition nth (l : list Z) (j : Z) : Z := default 0 (l !! Z.to_nat j).
Lemma concat_single l : concat ((fun j => [nth l j]) <$> seqZ 0 (Z.of_nat (length l))) = l.
Proof.
  transitivity (nth l <$> seqZ 0 (Z.of_nat (length l))).
  - generalize (seqZ 0 (Z.of_nat (length l))). intros js. induction js as [|j js IH]; [done|]. cbn. f_equal. exact IH.
  - apply list_eq. intros i. rewrite list_lookup_fmap. destruct (decide (i < length l)%nat) as [H|H].
    + rewrite lookup_seqZ_lt by lia. cbn. unfold nth. replace (Z.to_nat (0 + Z.of_nat i)) with i by lia.
      destruct (l !! i) as [x|] eqn:E; [done|]. apply lookup_ge_None in E. lia.
    + rewrite lookup_seqZ_ge, lookup_ge_None_2 by lia. done.
Qed.
Lemma numbered_nth a name l s j : numbered a name 0 l s -> 0 <= j < Z.of_nat (length l) -> cells s !! (a, (name, j)) = Some (nth l j).
Proof.
  intros N H. destruct (lookup_lt_is_Some_2 l (Z.to_nat j) ltac:(lia)) as [x E]. unfold nth. rewrite E. cbn.
  rewrite <- (N _ _ E). do 3 f_equal. lia.
Qed.

(** A list of blocks is freed one by one. *)
Lemma free_step {B} a (f : unit -> prog B) s : sound s -> (Block, a) ∈ live s -> (free a ≫= f) s = f tt (with_live s (live s ∖ blocks [a])).
Proof. intros. by erewrite bind_run by (by apply free_next). Qed.

Lemma memory_static_buffers_destroy_run n pool ids buffers l s : sound s -> length l = n -> holds_static pool ids buffers l s ->
  memory_static_buffers_destroy n pool s = Done (tt, with_live s (live s ∖ blocks (pool :: ids :: buffers :: l))).
Proof.
  intros Snd <- [Ci Cb N L Ap]. set (base := blocks [pool; ids; buffers]).
  apply NoDup_cons in Ap as [A1 Ap]. apply NoDup_cons in Ap as [A2 Ap]. apply NoDup_cons in Ap as [A3 Ap].
  assert (Lb : base ⊆ live s) by (etransitivity; [|exact L]; apply blocks_mono; set_solver).
  assert (Ll : blocks l ⊆ live s) by (etransitivity; [|exact L]; apply blocks_mono; set_solver).
  assert (Ub : forall Y, base ⊆ Y -> usable pool (with_live s Y) /\ usable buffers (with_live s Y))
    by (intros Y HY; split; left; apply HY, elem_of_blocks; set_solver).
  unfold memory_static_buffers_destroy.
  erewrite bind_run.
  2: { apply (repeat_frees_all _ (fun j => [nth l j]) base); [by apply concat_single| |done|apply blocks_apart; intros a Ha Hl; set_solver|done..].
       intros j Y Hj HX HY Hh. destruct (Ub Y HY). erewrite bind_run by (by apply load_run). cbn [cells with_live]. rewrite Cb. cbn [default].
       erewrite bind_run by (by apply load_run). cbn [cells with_live]. rewrite (numbered_nth _ _ _ _ _ N) by lia. cbn [default].
       rewrite free_next; [done|by apply sound_with_live|]. apply Hh. by rewrite blocks_one, elem_of_singleton. }
  set (s1 := with_live s (live s ∖ blocks l)). assert (S1 : sound s1) by (apply sound_with_live; [done|apply subseteq_difference_l; done]).
  assert (L1 : base ⊆ live s1).
  { intros x Hx. cbn. apply elem_of_difference. split; [by apply Lb|]. destruct x as [k a]. intros Hl.
    apply elem_of_blocks in Hx as [_ Hx]. apply elem_of_blocks in Hl as [_ Hl]. set_solver. }
  assert (M : (Block, pool) ∈ live s1 /\ (Block, ids) ∈ live s1 /\ (Block, buffers) ∈ live s1) by (split_and!; apply L1, elem_of_blocks; set_solver).
  destruct M as (M1 & M2 & M3).
  erewrite bind_run by (apply load_run; by left). cbn [cells s1 with_live]. rewrite Ci. cbn [default]. fold s1.
  erewrite free_step by done. set (s2 := with_live s1 _). assert (S2 : sound s2) by (apply sound_with_live; [done|clear; set_solver]).
  assert (E12 : pool <> ids /\ pool <> buffers /\ ids <> buffers) by (clear -A1 A2; set_solver).
  assert (M4 : (Block, pool) ∈ live s2 /\ (Block, buffers) ∈ live s2) by (unfold s2; cbn [live with_live]; rewrite blocks_one; clear -M1 M3 E12; set_solver).
  destruct M4 as [M4 M5].
  erewrite bind_run by (apply load_run; by left). cbn [cells s1 s2 with_live]. rewrite Cb. cbn [default]. fold s1 s2.
  erewrite free_step by done. set (s3 := with_live s2 _). assert (S3 : sound s3) by (apply sound_with_live; [done|clear; set_solver]).
  rewrite free_next; [|done|unfold s3; cbn [live with_live]; rewrite blocks_one; clear -M4 E12; set_solver].
  unfold s3, s2, s1. cbn [live with_live]. rewrite !with_live_twice, !difference_difference_l_L. do 4 f_equal.
  rewrite !blocks_cons, !blocks_nil. clear. set_solver.
Qed.

(** ** Running a program over known blocks *)

Ltac apart := rewrite elem_of_singleton; let E := fresh in intros E; injection E; intros; congruence.
Ltac alive :=
  cbn [live after_write with_live after_birth after_answer];
  lazymatch goal with
  | |- _ ∈ _ ∖ _ => apply elem_of_difference; split; [alive|apart]
  | |- _ ∈ {[_]} ∪ _ => first [apply elem_of_union_l; by apply elem_of_singleton | apply elem_of_union_r; alive]
  | |- _ => eassumption
  end.
Ltac cell := cbn [cells after_write with_live after_birth after_answer];
  repeat first [rewrite lookup_insert_eq | rewrite lookup_insert_ne by (let E := fresh in intros E; injection E; intros; congruence)].
Lemma load_at a f v s : usable a s -> cells s !! (a, f) = Some v -> load a f s = Done (v, s).
Proof. intros U E. rewrite load_run by done. by rewrite E. Qed.
Ltac run_step :=
  first
    [ erewrite bind_run by (apply free_run; [congruence|alive])
    | erewrite bind_run by (apply load_at; [left; alive|cell; first [eassumption | reflexivity]])
    | erewrite bind_run by (apply write_run; left; alive)
    | erewrite bind_run by (apply touch_run; left; alive) ].

Ltac sound_steps :=
  repeat first [done | apply sound_answer | apply sound_birth | apply sound_write; [|left; alive] | apply sound_with_live; [|apply subseteq_difference_l; done] ].
(** What is left after some frees. *)
Ltac remains := cbn [live after_write with_live after_birth after_answer]; rewrite ?difference_difference_l_L, !blocks_cons, ?blocks_nil; f_equal;
  rewrite ?union_empty_r_L; try done.

(** ** The hash map *)

Definition map_blocks (h shadow p b : Z) (growing : option (Z * Z)) : list Z :=
  h :: shadow :: p :: b :: match growing with Some (p', b') => [p'; b'] | None => [] end.

(** [growing]: the slots and the bits of the shadow, which it has during a resize. *)
Record holds_map (h shadow p b : Z) (growing : option (Z * Z)) (s : store) : Prop := HoldsMap {
  map_shadow_slot : cells s !! (h, ("shadow", 0)) = Some shadow;
  map_p_slot : cells s !! (h, ("p", 0)) = Some p;
  map_b_slot : cells s !! (h, ("b", 0)) = Some b;
  map_growing : match growing with
    | Some (p', b') => cells s !! (shadow, ("p", 0)) = Some p' /\ cells s !! (shadow, ("b", 0)) = Some b' /\ cells s !! (shadow, ("shadow", 0)) = Some shadow
    | None => default 0 (cells s !! (shadow, ("p", 0))) = 0
    end;
  map_live : blocks (map_blocks h shadow p b growing) ⊆ live s;
  map_apart : NoDup (map_blocks h shadow p b growing);
}.

(** The blocks of a list are alive, are not null and differ. *)
Lemma blocks_alive l s a : blocks l ⊆ live s -> a ∈ l -> (Block, a) ∈ live s.
Proof. intros L H. by apply L, elem_of_blocks. Qed.

Lemma drop_shadow_none h shadow p b s : holds_map h shadow p b None s -> drop_shadow h s = Done (tt, s).
Proof.
  intros [C _ _ G L _]. pose proof (blocks_alive _ _ h L ltac:(set_solver)). pose proof (blocks_alive _ _ shadow L ltac:(set_solver)).
  unfold drop_shadow. run_step. erewrite bind_run by (by apply load_run; left). by rewrite G.
Qed.

Lemma holds_map_facts h shadow p b growing s : sound s -> holds_map h shadow p b growing s ->
  (forall a, a ∈ map_blocks h shadow p b growing -> (Block, a) ∈ live s /\ a <> 0).
Proof.
  intros Snd [_ _ _ _ L _] a Ha. pose proof (blocks_alive _ _ a L Ha). split; [done|]. by eapply alive_nonzero.
Qed.
Ltac map_facts Snd H :=
  let N := fresh in pose proof (holds_map_facts _ _ _ _ _ _ Snd H) as N; destruct H as [? ? ? ? ? ?]; unfold map_blocks in *;
  repeat match goal with
  | N : forall a, a ∈ ?x :: ?l -> _ |- _ =>
      let E1 := fresh in let E2 := fresh in destruct (N x ltac:(apply elem_of_cons; by left)) as [E1 E2];
      assert (forall a, a ∈ l -> (Block, a) ∈ live _ /\ a <> 0) by (intros; apply N, elem_of_cons; by right); clear N
  | N : forall a, a ∈ [] -> _ |- _ => clear N
  end;
  repeat match goal with Ap : NoDup _ |- _ => progress rewrite ?NoDup_cons, ?not_elem_of_cons in Ap end; destruct_and!.

Lemma simple_map_delete_run h shadow p b growing s : sound s -> holds_map h shadow p b growing s ->
  exists s', simple_map_delete h s = Done (tt, s') /\ sound s' /\ live s' = live s ∖ blocks (map_blocks h shadow p b growing) /\
    (forall a f, a <> shadow -> cells s' !! (a, f) = cells s !! (a, f)).
Proof.
  intros Snd H. unfold simple_map_delete. destruct growing as [[p' b']|].
  - map_facts Snd H. erewrite bind_run.
    2: { unfold drop_shadow. run_step. run_step. rewrite (proj2 (Z.eqb_neq p' 0)) by done. do 5 run_step. apply write_run. left. alive. }
    do 6 run_step. rewrite free_run by (done || alive).
    eexists. split; [done|]. split; [sound_steps|]. split; [remains; clear; set_solver|]. intros a f Ha. by cell.
  - erewrite bind_run by (by eapply drop_shadow_none). map_facts Snd H. do 6 run_step. rewrite free_run by (done || alive).
    eexists. split; [done|]. split; [sound_steps|]. split; [remains; clear; set_solver|done].
Qed.

Lemma simple_map_new_run s : sound s ->
  let h := fresh s in let j := asked s in let r := simple_map_new s in
  if world j =? 0 then r = Faults
  else gives r h (fun s' => world (1 + j)%nat <> 0 -> world (2 + j)%nat <> 0 -> world (3 + j)%nat <> 0 ->
    holds_map h (h + 1) (h + 2) (h + 3) None s' /\ made (blocks (map_blocks h (h + 1) (h + 2) (h + 3) None)) s s' /\
    fresh s' = h + 4 /\ asked s' = (4 + j)%nat).
Proof.
  intros Snd h j. cbv zeta. cbn [Nat.add]. pose proof (sound_fresh _ Snd). unfold simple_map_new.
  apply calloc_cases; fold h j; intros W; [rewrite W|rewrite (proj2 (Z.eqb_neq _ _) W)]; cbn [Z.eqb].
  { apply calloc_cases; intros _; by apply bind_fault, write_null; repeat first [apply sound_answer|apply sound_birth]. }
  set (s1 := after_birth Block None (after_answer s)). assert (S1 : sound s1) by (by apply sound_birth, sound_answer).
  assert (U1 : usable h s1) by (left; unfold s1; alive). assert (L1 : live s1 = {[ (Block, h) ]} ∪ live s) by done.
  change (S j) with (asked s1).
  apply calloc_into; [done..| |]; intros W1 s2 S2 L2 F2 C2 A2 E2; rewrite <- A2.
  all: assert (U2 : usable h s2) by (first [by eapply usable_more | unfold usable in *; by rewrite L2]).
  all: apply calloc_into; [done..| |]; intros W2 s3 S3 L3 F3 C3 A3 E3; rewrite <- A3.
  all: assert (U3 : usable h s3) by (first [by eapply usable_more | unfold usable in *; by rewrite L3]).
  all: apply calloc_into; [done..| |]; intros W3 s4 S4 L4 F4 C4 A4 E4; eexists; (split; [done|]); (split; [done|]); intros V1 V2 V3.
  all: try done. clear V1 V2 V3. change (fresh s1) with (h + 1) in *. rewrite E2 in *. rewrite E3 in *.
  replace (h + 1 + 1) with (h + 2) in * by lia. replace (h + 2 + 1) with (h + 3) in * by lia.
  assert (LL : live s4 = blocks (map_blocks h (h + 1) (h + 2) (h + 3) None) ∪ live s)
    by (rewrite L4, L3, L2, L1; unfold map_blocks; rewrite !blocks_cons, blocks_nil; clear; set_solver).
  split; [|split; [split; [done|]; apply blocks_new; [done|]; unfold map_blocks; intros a Ha; set_solver by lia|split; [lia|]]].
  - split; rewrite ?C4, ?C3, ?C2; look.
    + repeat rewrite lookup_insert_ne by (intros ?; simplify_eq; lia). cbn. by rewrite (sound_cells _ Snd) by lia.
    + rewrite LL. by apply union_subseteq_l.
    + unfold map_blocks. repeat constructor; rewrite ?elem_of_cons, ?elem_of_nil; lia.
  - rewrite A4, A3, A2. done.
Qed.

Lemma simple_map_resize_run finished h shadow p b p' b' s : sound s -> holds_map h shadow p b (Some (p', b')) s ->
  if finished : bool then gives (simple_map_resize true h s) tt
    (fun s' => holds_map h shadow p' b' None s' /\ live s' = live s ∖ blocks [p; b] /\ fresh s' = fresh s /\ asked s' = asked s /\
      (forall a f, a <> h -> a <> shadow -> cells s' !! (a, f) = cells s !! (a, f)))
  else simple_map_resize false h s = Done (tt, s).
Proof.
  intros Snd H. pose proof H as [_ _ _ _ L0 A0]. destruct finished.
  - map_facts Snd H. unfold simple_map_resize. do 3 run_step. cbn [negb]. do 7 run_step. do 5 run_step. rewrite write_run by (left; alive).
    eexists. split; [done|]. split; [sound_steps|]. split; [|split; [remains|split; [done|split; [done|intros a f Ha Hs; by cell]]]].
    split; [by cell..| | |].
    + by cell.
    + intros [k a] Ha. pose proof Ha as [-> Hin]%elem_of_blocks. cbn [live after_write with_live].
      unfold map_blocks in Hin. rewrite !elem_of_cons, elem_of_nil in Hin. destruct_or!; subst; try done; alive.
    + repeat constructor; rewrite ?not_elem_of_cons; try apply not_elem_of_nil; split_and!; try done; apply not_elem_of_nil.
  - map_facts Snd H. unfold simple_map_resize. do 3 run_step. done.
Qed.

Lemma simple_map_start_resize_run finished h shadow p b s : sound s -> holds_map h shadow p b None s ->
  world (asked s) <> 0 -> world (S (asked s)) <> 0 ->
  let p' := fresh s in let b' := p' + 1 in
  gives (simple_map_start_resize finished h s) tt (fun s' => fresh s' = b' + 1 /\ asked s' = S (S (asked s)) /\
    (forall a f, a <> h -> a <> shadow -> cells s' !! (a, f) = cells s !! (a, f)) /\
    if finished then holds_map h shadow p' b' None s' /\ live s' = (blocks [p'; b'] ∪ live s) ∖ blocks [p; b]
    else holds_map h shadow p b (Some (p', b')) s' /\ live s' = blocks [p'; b'] ∪ live s).
Proof.
  intros Snd H W1 W2 p' b'. pose proof H as [Cs Cp Cb G L Ap]. pose proof (sound_fresh _ Snd).
  unfold simple_map_start_resize. apply calloc_cases; [done|intros _]. apply calloc_cases; [done|intros _]. fold p'. cbn [fresh after_birth after_answer].
  fold p' b'. set (s1 := after_birth Block None _). 
  assert (S1 : sound s1) by (by repeat first [apply sound_birth|apply sound_answer]).
  assert (L1 : live s1 = blocks [p'; b'] ∪ live s) by (change (live s1) with ({[ (Block, b') ]} ∪ ({[ (Block, p') ]} ∪ live s)); rewrite !blocks_cons, blocks_nil; clear; set_solver).
  assert (B : (Block, h) ∈ live s1 /\ (Block, shadow) ∈ live s1) by (rewrite L1; split; apply elem_of_union_r, L, elem_of_blocks; unfold map_blocks; set_solver).
  destruct B as [B1 B2]. assert (C1 : cells s1 = cells s) by done. rewrite <- C1 in Cs.
  assert (E1 : fresh s1 = b' + 1 /\ asked s1 = S (S (asked s))) by done. destruct E1 as [E1 E2].
  do 4 run_step. set (s2 := after_write shadow ("b", 0) b' _). assert (S2 : sound s2) by (unfold s2; sound_steps).
  assert (H2 : holds_map h shadow p b (Some (p', b')) s2).
  { assert (D : h <> shadow) by (apply NoDup_cons in Ap as [Ap _]; unfold map_blocks in Ap; set_solver).
    unfold s2. split; [by cell|cell; by rewrite C1|cell; by rewrite C1|split_and!; by cell| |].
    - cbn [live after_write]. rewrite L1. unfold map_blocks in *. intros [k a] [-> Ha]%elem_of_blocks.
      rewrite elem_of_union, elem_of_blocks. destruct (decide (a ∈ [p'; b'])) as [Hn|Hn]; [by left|right].
      apply L, elem_of_blocks. split; [done|]. set_solver.
    - assert (N : forall a, a ∈ map_blocks h shadow p b None -> a < p')
        by (intros a Ha; apply (sound_live _ Snd Block), L, elem_of_blocks; done).
      unfold map_blocks in *. change [h; shadow; p; b; p'; b'] with ([h; shadow; p; b] ++ [p'; b']).
      apply NoDup_app. split; [done|]. split; [intros a Ha Hb; apply N in Ha; set_solver by lia|].
      repeat constructor; set_solver by lia. }
  pose proof (simple_map_resize_run finished h shadow p b p' b' s2 S2 H2) as R. destruct finished.
  - destruct R as (s3 & E & S3 & H3 & L3 & F3 & A3 & K3). exists s3. split; [exact E|]. split; [done|]. split; [by rewrite F3|]. split; [by rewrite A3|].
    split; [intros a f Ha Hs; rewrite K3 by done; unfold s2; cell; by rewrite C1|]. split; [done|]. rewrite L3. unfold s2. cbn [live after_write]. by rewrite L1.
  - exists s2. split; [done|]. split; [done|]. split; [done|]. split; [done|]. split; [|done].
    intros a f Ha Hs. unfold s2. cell. by rewrite C1.
Qed.

Lemma drop_shadow_run h shadow p b growing s : sound s -> holds_map h shadow p b growing s ->
  exists s', drop_shadow h s = Done (tt, s') /\ sound s' /\ holds_map h shadow p b None s' /\ fresh s' = fresh s /\ asked s' = asked s /\
    live s' = live s ∖ blocks (match growing with Some (p', b') => [p'; b'] | None => [] end).
Proof.
  intros Snd H. destruct growing as [[p' b']|].
  - map_facts Snd H. eexists. split.
    { unfold drop_shadow. run_step. run_step. rewrite (proj2 (Z.eqb_neq p' 0)) by done. do 5 run_step. apply write_run. left. alive. }
    split; [sound_steps|]. split; [|split; [done|split; [done|remains]]].
    split; [by cell..|by cell| |].
    + intros [k a] Ha. pose proof Ha as [-> Hin]%elem_of_blocks. cbn [live after_write with_live].
      unfold map_blocks in Hin. rewrite !elem_of_cons, elem_of_nil in Hin. destruct_or!; subst; try done; alive.
    + unfold map_blocks. repeat constructor; rewrite ?not_elem_of_cons; try apply not_elem_of_nil; split_and!; try done; apply not_elem_of_nil.
  - exists s. rewrite blocks_nil, difference_empty_L. split; [by eapply drop_shadow_none|done].
Qed.

(** A map after two more blocks were allocated. *)
Lemma holds_map_after h shadow p b growing s s' : holds_map h shadow p b growing s -> cells s' = cells s -> live s ⊆ live s' -> holds_map h shadow p b growing s'.
Proof. intros [C1 C2 C3 G L Ap] C L'. split; rewrite ?C; try done. by etransitivity. Qed.

Lemma simple_map_clear_run h shadow p b growing s : sound s -> holds_map h shadow p b growing s ->
  world (asked s) <> 0 -> world (S (asked s)) <> 0 ->
  let p' := fresh s in let b' := p' + 1 in
  gives (simple_map_clear h s) tt (fun s' => holds_map h shadow p' b' None s' /\
    live s' = (blocks [p'; b'] ∪ live s) ∖ blocks (p :: b :: match growing with Some (p1, b1) => [p1; b1] | None => [] end)).
Proof.
  intros Snd H W1 W2 p' b'. pose proof (sound_fresh _ Snd).
  unfold simple_map_clear. apply calloc_cases; [done|intros _]. apply calloc_cases; [done|intros _]. fold p'. cbn [fresh after_birth after_answer].
  fold p' b'. set (s1 := after_birth Block None _). assert (S1 : sound s1) by (by repeat first [apply sound_birth|apply sound_answer]).
  assert (L1 : live s1 = blocks [p'; b'] ∪ live s)
    by (change (live s1) with ({[ (Block, b') ]} ∪ ({[ (Block, p') ]} ∪ live s)); rewrite !blocks_cons, blocks_nil; clear; set_solver).
  assert (H1 : holds_map h shadow p b growing s1) by (eapply holds_map_after; [exact H|done|rewrite L1; by apply union_subseteq_r]).
  assert (New : forall a, a ∈ map_blocks h shadow p b growing -> a < p')
    by (intros a Ha; destruct (holds_map_facts _ _ _ _ _ _ Snd H a Ha) as [I _]; apply (sound_live _ Snd) in I; lia).
  destruct (drop_shadow_run _ _ _ _ _ _ S1 H1) as (s2 & E & S2 & H2 & _ & _ & L2). erewrite bind_run by exact E.
  assert (Sub : forall a, a ∈ match growing with Some (p1, b1) => [p1; b1] | None => [] end -> a < p')
    by (intros a Ha; apply New; unfold map_blocks; by do 4 (apply elem_of_cons; right)).
  assert (B2 : (Block, p') ∈ live s2 /\ (Block, b') ∈ live s2).
  { rewrite L2, L1. split; (apply elem_of_difference; split; [apply elem_of_union_l, elem_of_blocks; split; [done|set_solver]|]);
      intros [_ Hin]%elem_of_blocks; apply Sub in Hin; lia. }
  assert (Q : p' <> h /\ p' <> shadow /\ b' <> h /\ b' <> shadow).
  { pose proof (New h) as N1; pose proof (New shadow) as N2; unfold map_blocks in *. split_and!; set_solver by lia. }
  destruct B2 as [B2 B2'], Q as (Q1 & Q2 & Q3 & Q4).
  assert (P : p' <> p /\ p' <> b /\ b' <> p /\ b' <> b).
  { pose proof (New p) as N1; pose proof (New b) as N2; unfold map_blocks in *. split_and!; set_solver by lia. }
  destruct P as (P1 & P2 & P3 & P4). clear New Sub H1 H.
  map_facts S2 H2. do 5 run_step. rewrite write_run by (left; alive).
  eexists. split; [done|]. split; [sound_steps|]. split.
  - split; [by cell..|by cell| |].
    + unfold map_blocks. intros [k a] Ha. pose proof Ha as [-> Hin]%elem_of_blocks. cbn [live after_write with_live].
      rewrite !elem_of_cons, elem_of_nil in Hin. destruct_or!; subst; try done; alive.
    + unfold map_blocks. rewrite !NoDup_cons, !not_elem_of_cons. split_and!; try apply not_elem_of_nil; try apply NoDup_nil_2; first [assumption|congruence|lia].
  - cbn [live after_write with_live]. rewrite L2, L1, !difference_difference_l_L. f_equal. rewrite !(blocks_cons p), !(blocks_cons b).
    destruct growing as [[? ?]|]; rewrite ?blocks_cons, !blocks_nil; clear; set_solver.
Qed.

(** ** The transport *)

(** How many of the next [n] pairs of blocks are given before one is refused. *)
Fixpoint denied (n j : nat) : option nat :=
  match n with
  | O => None
  | S n => if world j =? 0 then Some 0%nat else if world (S j) =? 0 then Some 1%nat else (fun k => S (S k)) <$> denied n (S (S j))
  end.

Definition others (a b : Z) (name : string) (index : Z) (s s' : store) : Prop :=
  forall c f, (c <> a /\ c <> b) \/ (forall j, index <= j -> f <> (name, j)) -> cells s' !! (c, f) = cells s !! (c, f).

(** The names of the pairs, in the order they are made. *)
Definition paired (n : nat) (index inet unix first : Z) (s : store) : Prop :=
  forall j, 0 <= j < Z.of_nat n -> cells s !! (inet, ("msg_name", index + j)) = Some (first + 2 * j) /\
    cells s !! (unix, ("msg_name", index + j)) = Some (first + 2 * j + 1).

Lemma seqZ_two m n : 0 <= n -> seqZ m (2 + n) = m :: m + 1 :: seqZ (m + 2) n.
Proof.
  intros H. rewrite (seqZ_cons m) by lia. f_equal. rewrite (seqZ_cons (Z.succ m)) by lia. replace (Z.succ m) with (m + 1) by lia. repeat f_equal; lia.
Qed.

Lemma make_names_run n index inet unix s : sound s -> usable inet s -> usable unix s -> inet <> unix ->
  match denied n (asked s) with
  | None => gives (make_names n index inet unix s) true (fun s' =>
      live s' = blocks (seqZ (fresh s) (2 * Z.of_nat n)) ∪ live s /\ others inet unix "msg_name" index s s' /\ paired n index inet unix (fresh s) s')
  | Some k => gives (make_names n index inet unix s) false (fun s' => live s' = blocks (seqZ (fresh s) (Z.of_nat k)) ∪ live s)
  end.
Proof.
  revert index s. induction n as [|n IH]; intros index s Snd Ui Uu D; cbn [denied make_names].
  { eexists. split; [done|]. split; [done|]. rewrite blocks_none, union_empty_l_L. split; [done|]. split; [done|]. intros j Hj. lia. }
  pose proof (sound_fresh _ Snd).
  apply calloc_into; [done..| |]; intros W s1 S1 L1 F1 C1 A1 E1; [rewrite W|rewrite (proj2 (Z.eqb_neq _ _) W)]; cbn [Z.eqb].
  { eexists. split; [done|]. split; [done|]. by rewrite blocks_none, union_empty_l_L. }
  rewrite (proj2 (Z.eqb_neq (fresh s) 0)) by lia. clear W.
  assert (U1 : usable inet s1 /\ usable unix s1) by (split; by eapply usable_more). destruct U1 as [Ui1 Uu1].
  erewrite bind_run by (by apply touch_run). rewrite <- A1.
  apply calloc_into; [done..| |]; intros W s2 S2 L2 F2 C2 A2 E2; [rewrite W|rewrite (proj2 (Z.eqb_neq _ _) W)]; cbn [Z.eqb].
  { eexists. split; [done|]. split; [done|]. change (Z.of_nat 1) with 1. change (seqZ (fresh s) 1) with [fresh s]. by rewrite L2, L1, blocks_one. }
  rewrite (proj2 (Z.eqb_neq (fresh s1) 0)) by lia. clear W.
  assert (U2 : usable inet s2 /\ usable unix s2) by (split; by eapply usable_more). destruct U2 as [Ui2 Uu2].
  erewrite bind_run by (by apply touch_run). rewrite <- A2. rewrite E1 in *.
  specialize (IH (index + 1) s2 S2 Ui2 Uu2 D). rewrite E2 in IH. replace (fresh s + 1 + 1) with (fresh s + 2) in IH by lia.
  assert (LL : forall X, X ∪ live s2 = ({[ (Block, fresh s) ]} ∪ ({[ (Block, fresh s + 1) ]} ∪ X)) ∪ live s)
    by (intros X; rewrite L2, L1; clear; set_solver).
  destruct (denied n (asked s2)) as [k|]; cbn [fmap option_fmap option_map].
  - destruct IH as (s' & E & S' & L'). exists s'. split; [exact E|]. split; [done|].
    replace (Z.of_nat (S (S k))) with (2 + Z.of_nat k) by lia. by rewrite seqZ_two, !blocks_cons, L', LL by lia.
  - destruct IH as (s' & E & S' & L' & O' & P'). exists s'. split; [exact E|]. split; [done|].
    replace (2 * Z.of_nat (S n)) with (2 + 2 * Z.of_nat n) by lia. split; [by rewrite seqZ_two, !blocks_cons, L', LL by lia|]. split.
    + intros c f Hc. rewrite O' by (destruct Hc as [Hc|Hc]; [by left|right; intros j Hj; apply Hc; lia]).
      rewrite C2, C1, !lookup_insert_ne; [done|intros Q; simplify_eq; destruct Hc as [Hc|Hc]; [tauto|by apply (Hc index)]..].
    + intros j Hj. destruct (Z.eq_dec j 0) as [->|Nj].
      * rewrite !O' by (right; intros i Hi Q; simplify_eq; lia). rewrite C2, C1. rewrite Z.add_0_r.
        rewrite lookup_insert_ne by congruence. rewrite !lookup_insert_eq. split; f_equal; lia.
      * destruct (P' (j - 1) ltac:(lia)) as [P1 P2]. replace (index + 1 + (j - 1)) with (index + j) in * by lia. rewrite P1, P2. split; f_equal; lia.
Qed.

Definition transport_blocks (t inet unix : Z) (names events : list Z) : list Z := t :: inet :: unix :: names ++ events.
Definition pair_of (first j : Z) : list Z := [first + 2 * j; first + 2 * j + 1].

(** The names are the blocks from [first] on. *)
Record holds_transport (n : nat) (t inet unix first h shadow p b : Z) (growing : option (Z * Z)) (s : store) : Prop := HoldsTransport {
  transport_events_slot : cells s !! (t, ("events", 0)) = Some h;
  transport_inet_slot : cells s !! (t, ("inet_used_messages", 0)) = Some inet;
  transport_unix_slot : cells s !! (t, ("unix_used_messages", 0)) = Some unix;
  transport_map : holds_map h shadow p b growing s;
  transport_names : paired n 0 inet unix first s;
  transport_live : blocks (transport_blocks t inet unix (seqZ first (2 * Z.of_nat n)) (map_blocks h shadow p b growing)) ⊆ live s;
  transport_apart : NoDup (transport_blocks t inet unix (seqZ first (2 * Z.of_nat n)) (map_blocks h shadow p b growing));
}.

Lemma concat_pairs first i n : concat (pair_of first <$> seqZ i (Z.of_nat n)) = seqZ (first + 2 * i) (2 * Z.of_nat n).
Proof.
  revert i. induction n as [|n IH]; intros i; [done|]. rewrite seqZ_step, fmap_cons. cbn [concat].
  rewrite IH. replace (2 * Z.of_nat (S n)) with (2 + 2 * Z.of_nat n) by lia. rewrite seqZ_two by lia. unfold pair_of. cbn [app].
  repeat first [lia | f_equal].
Qed.

(** The loop of [transport_destroy] frees the names. *)
Lemma free_names_run n t inet unix first s : sound s ->
  cells s !! (t, ("inet_used_messages", 0)) = Some inet -> cells s !! (t, ("unix_used_messages", 0)) = Some unix ->
  paired n 0 inet unix first s -> let names := seqZ first (2 * Z.of_nat n) in
  blocks [t; inet; unix] ⊆ live s -> blocks names ⊆ live s -> blocks [t; inet; unix] ## blocks names ->
  repeat_from n 0 (fun index =>
    inet ← load t ("inet_used_messages", 0);
    name ← load inet ("msg_name", index);
    free name;;
    unix ← load t ("unix_used_messages", 0);
    name ← load unix ("msg_name", index);
    free name) s = Done (tt, with_live s (live s ∖ blocks names)).
Proof.
  intros Snd Ci Cu P names Lb Ln Dbn. set (base := blocks [t; inet; unix]) in *.
  assert (Ub : forall Y, base ⊆ Y -> usable t (with_live s Y) /\ usable inet (with_live s Y) /\ usable unix (with_live s Y))
    by (intros Y HY; split_and!; left; apply HY, elem_of_blocks; set_solver).
  apply (repeat_frees_all _ (pair_of first) base); [by rewrite concat_pairs, Z.add_0_r| |done..|apply NoDup_seqZ].
  intros j Y Hj HX HY Hh. destruct (Ub Y HY) as (Ut & Ui & Uu). destruct (P j Hj) as [P1 P2]. rewrite Z.add_0_l in *.
  assert (SY : sound (with_live s Y)) by (by apply sound_with_live).
  erewrite bind_run by (by apply load_at). erewrite bind_run by (by apply load_at).
  rewrite free_step by (try done; apply Hh, elem_of_blocks; set_solver). set (s1 := with_live _ _).
  assert (K : base ⊆ Y ∖ blocks [first + 2 * j]).
  { intros x Hx. apply elem_of_difference. split; [by apply HY|]. intros Hb. apply (Dbn x Hx).
    destruct x as [k a]. apply elem_of_blocks in Hb as [-> Ha]. apply elem_of_blocks. split; [done|]. apply elem_of_seqZ. set_solver by lia. }
  destruct (Ub _ K) as (Vt & Vi & Vu).
  erewrite bind_run by (by apply load_at). erewrite bind_run by (by apply load_at).
  rewrite free_next; [|apply sound_with_live; [done|cbn; clear -HX; set_solver]|].
  - unfold s1. cbn [live with_live]. rewrite with_live_twice, difference_difference_l_L. unfold pair_of. do 4 f_equal. by rewrite !blocks_cons, !blocks_nil, union_empty_r_L.
  - cbn [live with_live s1]. apply elem_of_difference. split; [apply Hh, elem_of_blocks; set_solver|]. rewrite elem_of_blocks. set_solver by lia.
Qed.

Lemma difference_keeps (x y z : gset resource) : x ⊆ y -> x ## z -> x ⊆ y ∖ z.
Proof. set_solver. Qed.

Lemma transport_destroy_run n t inet unix first h shadow p b growing s : sound s ->
  holds_transport n t inet unix first h shadow p b growing s ->
  gives (transport_destroy n t s) tt (fun s' =>
    live s' = live s ∖ blocks (transport_blocks t inet unix (seqZ first (2 * Z.of_nat n)) (map_blocks h shadow p b growing))).
Proof.
  intros Snd [Ce Ci Cu Hm P L Ap]. set (names := seqZ first (2 * Z.of_nat n)) in *. set (events := map_blocks h shadow p b growing) in *.
  unfold transport_blocks in *. change (t :: inet :: unix :: names ++ events) with ([t; inet; unix] ++ names ++ events) in *.
  apply NoDup_app in Ap as (Ab & Abn & Ap). apply NoDup_app in Ap as (An & Ane & Ae). rewrite !blocks_app in *.
  assert (Dbn : blocks [t; inet; unix] ## blocks names) by (apply blocks_apart; intros a Ha Hn; apply (Abn a Ha); set_solver).
  assert (Dbe : blocks [t; inet; unix] ## blocks events) by (apply blocks_apart; intros a Ha Hn; apply (Abn a Ha); set_solver).
  assert (Dne : blocks names ## blocks events) by (by apply blocks_apart).
  apply union_subseteq in L as [Lb L]. apply union_subseteq in L as [Ln Le].
  unfold transport_destroy. erewrite bind_run by (by apply (free_names_run n t inet unix first)). fold names.
  set (s1 := with_live s (live s ∖ blocks names)). assert (S1 : sound s1) by (apply sound_with_live; [done|apply subseteq_difference_l; done]).
  assert (Lb1 : blocks [t; inet; unix] ⊆ live s1) by (by apply difference_keeps).
  erewrite bind_run by (apply load_at; [left; by eapply blocks_alive; [|apply elem_of_cons; left]|exact Ce]).
  assert (H1 : holds_map h shadow p b growing s1) by (destruct Hm; split; try done; by apply difference_keeps).
  destruct (simple_map_delete_run _ _ _ _ _ _ S1 H1) as (s2 & E2 & S2 & L2 & C2). erewrite bind_run by exact E2. fold events in L2.
  assert (Lb2 : blocks [t; inet; unix] ⊆ live s2) by (rewrite L2; by apply difference_keeps).
  assert (Nt : t <> shadow) by (intros ->; apply (Abn shadow); [set_solver|]; apply elem_of_app; right; unfold events, map_blocks; set_solver).
  assert (B : (Block, t) ∈ live s2 /\ (Block, inet) ∈ live s2 /\ (Block, unix) ∈ live s2) by (split_and!; eapply blocks_alive; try exact Lb2; set_solver).
  destruct B as (B1 & B2 & B3). rewrite !NoDup_cons, !not_elem_of_cons in Ab. destruct Ab as ((A1 & A2 & _) & (A3 & _) & _).
  pose proof (alive_nonzero _ _ _ S2 B1). pose proof (alive_nonzero _ _ _ S2 B2). pose proof (alive_nonzero _ _ _ S2 B3).
  assert (Ci2 : cells s2 !! (t, ("inet_used_messages", 0)) = Some inet) by (by rewrite C2).
  assert (Cu2 : cells s2 !! (t, ("unix_used_messages", 0)) = Some unix) by (by rewrite C2).
  do 4 run_step. rewrite free_run by (done || alive). eexists. split; [done|]. split; [sound_steps|].
  cbn [live with_live]. rewrite L2. cbn [live s1 with_live]. rewrite !difference_difference_l_L. f_equal. rewrite !blocks_cons, !blocks_nil.
  clear. set_solver.
Qed.

(** The map of a new transport: at most one resize, done at once. *)
Definition map_answers (grows : bool) : nat := if grows then 6 else 4.
Definition map_start (h : Z) (grows : bool) : Z := if grows then h + 4 else h + 2.
Definition map_of (h : Z) (grows : bool) : list Z := map_blocks h (h + 1) (map_start h grows) (map_start h grows + 1) None.

Lemma transport_map_run grows h s s0 : sound s0 -> h = fresh s0 -> sound s -> holds_map h (h + 1) (h + 2) (h + 3) None s ->
  live s = blocks (map_blocks h (h + 1) (h + 2) (h + 3) None) ∪ live s0 -> fresh s = h + 4 ->
  (grows = true -> world (asked s) <> 0 /\ world (S (asked s)) <> 0) ->
  gives ((if grows then simple_map_start_resize true h else mret tt) s) tt (fun s' =>
    holds_map h (h + 1) (map_start h grows) (map_start h grows + 1) None s' /\ live s' = blocks (map_of h grows) ∪ live s0 /\
    fresh s' = h + Z.of_nat (map_answers grows) /\ (asked s' + 4 = map_answers grows + asked s)%nat /\
    (forall a g, a < h -> cells s' !! (a, g) = cells s !! (a, g))).
Proof.
  intros S0 Hh Snd H L F W. destruct grows; unfold map_of, map_start, map_answers.
  - destruct (W eq_refl) as [W1 W2]. destruct (simple_map_start_resize_run true _ _ _ _ _ Snd H W1 W2) as (s' & E & S' & F' & A' & C' & H' & L').
    exists s'. rewrite F in *. split; [exact E|]. split; [done|]. split; [done|]. split; [|split; [lia|split; [lia|intros; apply C'; lia]]].
    rewrite L', L. unfold map_blocks. rewrite !blocks_cons, !blocks_nil.
    pose proof (fresh_dead Block (h + 2) s0 S0 ltac:(lia)). pose proof (fresh_dead Block (h + 3) s0 S0 ltac:(lia)).
    apply set_eq. intros [k a]. clear -H0 H1. set_solver by lia.
  - exists s. split; [done|]. split; [done|]. replace (h + 2 + 1) with (h + 3) by lia. split; [done|]. split; [done|]. split; [lia|]. split; [lia|done].
Qed.

(** The second half, from the store with the structure and the map. *)
Definition transport_arrays (n : nat) (t : Z) : prog Z :=
  inet ← calloc;
  write t ("inet_used_messages", 0) inet;;
  unix ← calloc;
  write t ("unix_used_messages", 0) unix;;
  if (inet =? 0) || (unix =? 0) then mret 0 else
  named ← make_names n 0 inet unix;
  mret (if named : bool then t else 0).

Lemma holds_map_elsewhere h shadow p b growing s s' : holds_map h shadow p b growing s -> live s ⊆ live s' ->
  (forall a f, a = h \/ a = shadow -> cells s' !! (a, f) = cells s !! (a, f)) -> holds_map h shadow p b growing s'.
Proof.
  intros [C1 C2 C3 G L Ap] HL C. split; rewrite ?C by auto; try done. by etransitivity.
Qed.

Lemma transport_arrays_run n t h grows s s4 : sound s -> t = fresh s -> h = t + 1 -> sound s4 ->
  let inet := fresh s4 in let unix := inet + 1 in let first := unix + 1 in
  holds_map h (h + 1) (map_start h grows) (map_start h grows + 1) None s4 ->
  live s4 = blocks (map_of h grows) ∪ ({[ (Block, t) ]} ∪ live s) -> cells s4 !! (t, ("events", 0)) = Some h -> h + Z.of_nat (map_answers grows) = inet ->
  world (asked s4) <> 0 -> world (S (asked s4)) <> 0 ->
  match denied n (S (S (asked s4))) with
  | Some k => gives (transport_arrays n t s4) 0 (made (blocks (transport_blocks t inet unix (seqZ first (Z.of_nat k)) (map_of h grows))) s)
  | None => gives (transport_arrays n t s4) t (fun s' =>
      holds_transport n t inet unix first h (h + 1) (map_start h grows) (map_start h grows + 1) None s' /\
      made (blocks (transport_blocks t inet unix (seqZ first (2 * Z.of_nat n)) (map_of h grows))) s s')
  end.
Proof.
  intros Snd Ht Hh S4 inet unix first Hm L4 Ce Hi W1 W2. pose proof (sound_fresh _ Snd). pose proof (sound_fresh _ S4).
  assert (U4 : usable t s4) by (left; rewrite L4; clear; set_solver). unfold transport_arrays.
  apply calloc_into; [done..| |]; intros V s5 S5 L5 F5 C5 A5 E5; [done|]. fold inet in L5, C5, E5 |- *. rewrite <- A5 in W2 |- *.
  assert (U5 : usable t s5) by (by eapply usable_more).
  apply calloc_into; [done..| |]; intros V6 s6 S6 L6 F6 C6 A6 E6; [done|]. rewrite <- A6. rewrite E5 in L6, C6, E6 |- *.
  change (inet + 1) with unix in L6, C6, E6 |- *.
  rewrite (proj2 (Z.eqb_neq inet 0)), (proj2 (Z.eqb_neq unix 0)) by lia. cbn [orb].
  assert (Range : forall a, a ∈ map_of h grows -> h <= a < inet)
    by (unfold map_of, map_blocks, map_start, map_answers in *; intros a Ha; destruct grows; set_solver by lia).
  assert (LL : forall l, blocks l ∪ live s6 = blocks (transport_blocks t inet unix l (map_of h grows)) ∪ live s)
    by (intros l; rewrite L6, L5, L4; unfold transport_blocks; rewrite !blocks_cons, !blocks_app; clear; set_solver).
  assert (New : forall l, (forall a, a ∈ l -> first <= a) -> blocks (transport_blocks t inet unix l (map_of h grows)) ## live s).
  { intros l Hl. apply blocks_new; [done|]. intros a Ha. unfold transport_blocks in Ha. rewrite !elem_of_cons, elem_of_app in Ha.
    destruct Ha as [->|[->|[->|[Ha|Ha]]]]; [lia..|apply Hl in Ha; lia|apply Range in Ha; lia]. }
  assert (U6 : usable inet s6 /\ usable unix s6) by (split; left; rewrite L6, ?L5; clear; set_solver). destruct U6 as [Ui Uu].
  pose proof (make_names_run n 0 inet unix s6 S6 Ui Uu ltac:(lia)) as M. rewrite E6 in M. change (unix + 1) with first in M.
  destruct (denied n (asked s6)) as [k|].
  - destruct M as (s7 & E7 & S7 & L7). erewrite bind_run by exact E7. exists s7. split; [done|]. split; [done|].
    split; [by rewrite L7, LL|apply New; intros a Ha; apply elem_of_seqZ in Ha; lia].
  - destruct M as (s7 & E7 & S7 & L7 & O7 & P7). erewrite bind_run by exact E7. exists s7. split; [done|]. split; [done|].
    split; [|split; [by rewrite L7, LL|apply New; intros a Ha; apply elem_of_seqZ in Ha; lia]].
    split; [rewrite O7 by (left; lia); rewrite C6, C5; cell; done|rewrite O7 by (left; lia); rewrite C6, C5; cell; done|rewrite O7 by (left; lia); rewrite C6; by cell| |done| |].
    + eapply holds_map_elsewhere; [exact Hm|rewrite L7, L6, L5; clear; set_solver|]. intros a f Ha.
      rewrite O7 by (left; unfold map_answers in *; destruct grows; lia). rewrite C6, C5. rewrite !lookup_insert_ne by (intros Q; apply (f_equal fst) in Q; cbn in Q; lia). done.
    + rewrite L7, LL. by apply union_subseteq_l.
    + unfold transport_blocks. rewrite !NoDup_cons, !not_elem_of_cons, !not_elem_of_app, !elem_of_seqZ, NoDup_app.
      assert (NR : forall a, ~ (h <= a < inet) -> a ∉ map_of h grows) by (intros a Hn Ha; by apply Hn, Range).
      split_and!; try lia; try (apply NR; lia); [apply NoDup_seqZ|intros a Ha; apply NR; apply elem_of_seqZ in Ha; lia|].
      by destruct Hm.
Qed.

Lemma transport_initialize_run n grows s : sound s ->
  let m := S (map_answers grows) in
  (forall k, (k < 2 + m)%nat -> world (k + asked s)%nat <> 0) ->
  let t := fresh s in let h := t + 1 in let inet := t + Z.of_nat m in let unix := inet + 1 in let first := unix + 1 in
  let r := transport_initialize n grows s in
  match denied n (2 + m + asked s) with
  | Some k => gives r 0 (made (blocks (transport_blocks t inet unix (seqZ first (Z.of_nat k)) (map_of h grows))) s)
  | None => gives r t (fun s' =>
      holds_transport n t inet unix first h (h + 1) (map_start h grows) (map_start h grows + 1) None s' /\
      made (blocks (transport_blocks t inet unix (seqZ first (2 * Z.of_nat n)) (map_of h grows))) s s')
  end.
Proof.
  intros Snd m W. cbv zeta. pose proof (sound_fresh _ Snd). set (t := fresh s) in *. set (h := t + 1).
  unfold transport_initialize. apply calloc_cases; [intros E; by destruct (W 0%nat ltac:(lia))|intros _]. fold t.
  set (s1 := after_birth Block None (after_answer s)). assert (S1 : sound s1) by (by apply sound_birth, sound_answer).
  assert (U1 : usable t s1) by (left; unfold s1; alive). erewrite bind_run by (by apply touch_run).
  assert (Wm : forall k, (0 < k < 2 + m)%nat -> world (k + asked s)%nat <> 0) by (intros; apply W; lia).
  pose proof (simple_map_new_run s1 S1) as R. cbv zeta in R. change (fresh s1) with h in R. change (asked s1) with (S (asked s)) in R.
  assert (W1 : world (S (asked s)) <> 0) by (apply (W 1%nat); lia). rewrite (proj2 (Z.eqb_neq _ _) W1) in R.
  destruct R as (s2 & E2 & S2 & R2).
  destruct R2 as (H2 & [L2 _] & F2 & A2).
  1: apply (W 2%nat); unfold m, map_answers; destruct grows; lia.
  1: apply (W 3%nat); unfold m, map_answers; destruct grows; lia.
  1: apply (W 4%nat); unfold m, map_answers; destruct grows; lia.
  erewrite bind_run by exact E2. change (live s1) with ({[ (Block, t) ]} ∪ live s) in L2.
  assert (U2 : usable t s2) by (left; rewrite L2; clear; set_solver). erewrite bind_run by (by apply write_run).
  rewrite (proj2 (Z.eqb_neq h 0)) by (unfold h; lia). set (s3 := after_write _ _ _ s2).
  assert (S3 : sound s3) by (by apply sound_write).
  assert (H3 : holds_map h (h + 1) (h + 2) (h + 3) None s3).
  { destruct H2 as [C1 C2 C3 G L Ap]. split; try done; unfold s3; cbn [cells after_write];
      (rewrite lookup_insert_ne; [done|intros Q; apply (f_equal fst) in Q; cbn in Q; unfold h in Q; lia]). }
  assert (Wg : grows = true -> world (asked s3) <> 0 /\ world (S (asked s3)) <> 0).
  { intros ->. change (asked s3) with (asked s2). rewrite A2. split; [apply (W 5%nat)|apply (W 6%nat)]; unfold m, map_answers; lia. }
  destruct (transport_map_run grows h s3 s1 S1 eq_refl S3 H3 L2 F2 Wg) as (s4 & E4 & S4 & H4 & L4 & F4 & A4 & C4).
  erewrite bind_run by exact E4. clear E4 H3 Wg.
  change (asked s3) with (asked s2) in A4. rewrite A2 in A4. change (live s1) with ({[ (Block, t) ]} ∪ live s) in L4.
  assert (U4 : usable t s4) by (left; rewrite L4; clear; set_solver).
  assert (Ce : cells s4 !! (t, ("events", 0)) = Some h) by (rewrite C4 by (unfold h; lia); unfold s3; by cell).
  assert (A4' : asked s4 = (m + asked s)%nat) by (unfold m; lia). assert (F4' : fresh s4 = t + Z.of_nat m) by (unfold m, h in *; lia).
  clear A4 F4 S1 S2 S3 L2 F2 A2 E2 H2 U1 U2 s1 s3 s2 W1 C4.
  replace (2 + m + asked s)%nat with (S (S (asked s4))) by lia. rewrite <- F4'.
  assert (V1 : world (asked s4) <> 0) by (rewrite A4'; apply W; lia).
  assert (V2 : world (S (asked s4)) <> 0) by (rewrite A4'; apply (W (S m)); lia).
  exact (transport_arrays_run n t h grows s s4 Snd eq_refl eq_refl S4 H4 L4 Ce ltac:(rewrite F4'; unfold m, h; lia) V1 V2).
Qed.

(** ** Events *)

(** The block that a field's value is: the copy of its string. *)
Definition string_of (type value : Z) : list Z := if (type =? EVENT_TYPE_STRING) && negb (value =? 0) then [value] else [].
Definition field_blocks (f : Z * Z * Z) : list Z := let '(a, type, value) := f in string_of type value ++ [a].
Definition event_blocks (e fields : Z) (fs : list (Z * Z * Z)) : list Z := e :: fields :: concat (field_blocks <$> fs).
Definition field_cells (fields i : Z) (f : Z * Z * Z) (s : store) : Prop :=
  let '(a, type, value) := f in cells s !! (fields, ("field", i)) = Some a /\ cells s !! (a, ("type", 0)) = Some type /\ cells s !! (a, ("value", 0)) = Some value.

(** [fs]: the address, the type and the value of every field. *)
Record holds_event (e fields : Z) (fs : list (Z * Z * Z)) (s : store) : Prop := HoldsEvent {
  event_fields_slot : cells s !! (e, ("fields", 0)) = Some fields;
  event_count_slot : default 0 (cells s !! (e, ("fields_count", 0))) = Z.of_nat (length fs);
  event_cells : forall i f, fs !! i = Some f -> field_cells fields (Z.of_nat i) f s;
  event_live : blocks (event_blocks e fields fs) ⊆ live s;
  event_apart : NoDup (event_blocks e fields fs);
}.

Definition field_at (fs : list (Z * Z * Z)) (j : Z) : Z * Z * Z := default (0, 0, 0) (fs !! Z.to_nat j).
Lemma concat_fields fs : concat ((fun j => field_blocks (field_at fs j)) <$> seqZ 0 (Z.of_nat (length fs))) = concat (field_blocks <$> fs).
Proof.
  f_equal. apply list_eq. intros i. rewrite !list_lookup_fmap. destruct (decide (i < length fs)%nat) as [H|H].
  - rewrite lookup_seqZ_lt by lia. cbn. unfold field_at. replace (Z.to_nat (0 + Z.of_nat i)) with i by lia.
    destruct (fs !! i) as [x|] eqn:E; [done|]. apply lookup_ge_None in E. lia.
  - rewrite lookup_seqZ_ge, lookup_ge_None_2 by lia. done.
Qed.
Lemma field_at_lookup fs j : 0 <= j < Z.of_nat (length fs) -> fs !! Z.to_nat j = Some (field_at fs j).
Proof. intros H. unfold field_at. destruct (fs !! Z.to_nat j) eqn:E; [done|]. apply lookup_ge_None in E. lia. Qed.

(** A field and its string are freed. *)
Lemma event_field_delete_run a type value s : sound s -> blocks (field_blocks (a, type, value)) ⊆ live s -> NoDup (field_blocks (a, type, value)) ->
  cells s !! (a, ("type", 0)) = Some type -> cells s !! (a, ("value", 0)) = Some value ->
  event_field_delete a s = Done (tt, with_live s (live s ∖ blocks (field_blocks (a, type, value)))).
Proof.
  intros Snd L N Ct Cv. unfold field_blocks, string_of in *.
  assert (Ha : (Block, a) ∈ live s) by (eapply blocks_alive; [exact L|]; case_match; set_solver). pose proof (alive_nonzero _ _ _ Snd Ha).
  unfold event_field_delete. run_step. destruct (type =? EVENT_TYPE_STRING); cbn [andb] in *.
  - destruct (Z.eqb_spec value 0) as [->|V]; cbn [negb app] in *.
    + erewrite bind_run by (run_step; apply free_null). rewrite free_next by done. done.
    + assert (Hv : (Block, value) ∈ live s) by (eapply blocks_alive; [exact L|]; set_solver).
      apply NoDup_cons in N as [N _]. assert (value <> a) by set_solver.
      erewrite bind_run by (run_step; apply free_run; done). rewrite free_run by (done || alive).
      rewrite with_live_twice. cbn [live with_live]. rewrite difference_difference_l_L, !blocks_cons, blocks_nil, union_empty_r_L. done.
  - erewrite bind_run by done. rewrite free_next by done. done.
Qed.

Lemma NoDup_concat_part (ls : list (list Z)) l : NoDup (concat ls) -> l ∈ ls -> NoDup l.
Proof.
  induction ls as [|x ls IH]; [set_solver|]. cbn. intros (N1 & _ & N2)%NoDup_app [->|H]%elem_of_cons; auto.
Qed.

Lemma event_destroy_run e fields fs s : sound s -> holds_event e fields fs s ->
  event_destroy e s = Done (tt, with_live s (live s ∖ blocks (event_blocks e fields fs))).
Proof.
  intros Snd [Cf Cc C L Ap]. unfold event_blocks in *. change (e :: fields :: concat (field_blocks <$> fs)) with ([e; fields] ++ concat (field_blocks <$> fs)) in *.
  set (rest := concat (field_blocks <$> fs)) in *. apply NoDup_app in Ap as (Ab & Abn & An).
  assert (D : blocks [e; fields] ## blocks rest) by (by apply blocks_apart). rewrite blocks_app in *. apply union_subseteq in L as [Lb Ln].
  assert (Ub : forall Y, blocks [e; fields] ⊆ Y -> (Block, e) ∈ Y /\ (Block, fields) ∈ Y) by (intros Y HY; split; apply HY, elem_of_blocks; set_solver).
  destruct (Ub _ Lb) as [He Hf]. unfold event_destroy.
  erewrite bind_run by (apply load_run; by left). rewrite Cc, Nat2Z.id.
  erewrite bind_run.
  2: { apply (repeat_frees_all _ (fun j => field_blocks (field_at fs j)) (blocks [e; fields])); [by apply concat_fields| |done..].
       intros j Y Hj HX HY Hh. destruct (Ub Y HY) as [Ye Yf]. specialize (C _ _ (field_at_lookup fs j Hj)).
       destruct (field_at fs j) as [[a type] value] eqn:E. rewrite Z2Nat.id in C by lia. destruct C as (C1 & C2 & C3).
       erewrite bind_run by (apply load_at; [by left|exact Cf]). erewrite bind_run by (apply load_at; [by left|exact C1]).
       rewrite (event_field_delete_run a type value (with_live s Y)); [done|by apply sound_with_live|done| |done..].
       apply (NoDup_concat_part (field_blocks <$> fs)); [done|]. apply list_elem_of_fmap. eexists. split; [by rewrite <- E|].
       eapply list_elem_of_lookup_2, field_at_lookup. done. }
  fold rest. set (s1 := with_live s (live s ∖ blocks rest)). assert (S1 : sound s1) by (apply sound_with_live; [done|apply subseteq_difference_l; done]).
  assert (L1 : blocks [e; fields] ⊆ live s1) by (by apply difference_keeps). destruct (Ub _ L1) as [H1 H2].
  rewrite NoDup_cons in Ab. destruct Ab as [Ab _]. assert (e <> fields) by set_solver.
  pose proof (alive_nonzero _ _ _ S1 H1). pose proof (alive_nonzero _ _ _ S1 H2).
  erewrite bind_run by (apply load_at; [by left|exact Cf]). rewrite free_step by done. rewrite free_run by (try done; rewrite blocks_one; alive).
  rewrite !with_live_twice. cbn [live with_live s1]. rewrite !difference_difference_l_L. do 4 f_equal. rewrite !blocks_cons, !blocks_nil. clear. set_solver.
Qed.

Lemma event_blocks_snoc e fields fs f : event_blocks e fields (fs ++ [f]) = event_blocks e fields fs ++ field_blocks f.
Proof. unfold event_blocks. rewrite fmap_app, concat_app. cbn. by rewrite app_nil_r. Qed.

Lemma append_field_run e fields fs a type value s : sound s -> holds_event e fields fs s ->
  cells s !! (a, ("type", 0)) = Some type -> cells s !! (a, ("value", 0)) = Some value ->
  blocks (field_blocks (a, type, value)) ⊆ live s -> NoDup (event_blocks e fields fs ++ field_blocks (a, type, value)) ->
  gives (append_field e a s) tt (fun s' => holds_event e fields (fs ++ [(a, type, value)]) s' /\ live s' = live s /\
    fresh s' = fresh s /\ asked s' = asked s).
Proof.
  intros Snd [Cf Cc C L Ap] Ct Cv La N.
  assert (He : (Block, e) ∈ live s) by (eapply blocks_alive; [exact L|unfold event_blocks; set_solver]).
  assert (Hf : (Block, fields) ∈ live s) by (eapply blocks_alive; [exact L|unfold event_blocks; set_solver]).
  unfold append_field. erewrite bind_run by (apply load_at; [by left|exact Cf]). erewrite bind_run by (apply load_run; by left). rewrite Cc.
  run_step. rewrite write_run by (left; alive). eexists. split; [done|]. split; [sound_steps|]. split; [|done].
  split; cbn [cells after_write live].
  - by rewrite !lookup_insert_ne by congruence.
  - rewrite lookup_insert_eq, length_app. cbn. lia.
  - intros i f Hi. apply lookup_app_Some in Hi as [Hi|[Hl Hi]].
    + specialize (C i f Hi). apply lookup_lt_Some in Hi. destruct f as [[a' ty'] v']. cbn [field_cells cells after_write] in *. destruct C as (C1 & C2 & C3).
      split_and!; rewrite !lookup_insert_ne by (intros Q; injection Q; intros; first [congruence|lia]); done.
    + destruct (i - length fs)%nat as [|k] eqn:K; cbn in Hi; simplify_eq. assert (i = length fs) as -> by lia.
      cbn [field_cells cells after_write]. split_and!; repeat first [rewrite lookup_insert_eq|rewrite lookup_insert_ne by congruence]; done.
  - rewrite event_blocks_snoc, blocks_app. by apply union_least.
  - by rewrite event_blocks_snoc.
Qed.

Lemma event_create_run s : sound s ->
  if (world (asked s) =? 0) || (world (S (asked s)) =? 0) then event_create s = Exits (-1)
  else gives (event_create s) (fresh s) (fun s' => holds_event (fresh s) (fresh s + 1) [] s' /\ live s' = blocks [fresh s; fresh s + 1] ∪ live s /\
    fresh s' = fresh s + 2 /\ asked s' = S (S (asked s))).
Proof.
  intros Snd. pose proof (sound_fresh _ Snd). unfold event_create.
  apply calloc_cases; intros W; [rewrite W|rewrite (proj2 (Z.eqb_neq _ _) W)]; cbn [Z.eqb orb]; [done|].
  rewrite (proj2 (Z.eqb_neq (fresh s) 0)) by lia. set (s1 := after_birth Block None (after_answer s)).
  assert (S1 : sound s1) by (by apply sound_birth, sound_answer). assert (U1 : usable (fresh s) s1) by (left; unfold s1; alive).
  change (S (asked s)) with (asked s1).
  apply calloc_into; [done..| |]; intros V s2 S2 L2 F2 C2 A2 E2; [rewrite V|rewrite (proj2 (Z.eqb_neq _ _) V)]; cbn [Z.eqb]; [done|].
  change (fresh s1) with (fresh s + 1) in *. rewrite (proj2 (Z.eqb_neq (fresh s + 1) 0)) by lia.
  assert (U2 : usable (fresh s) s2) by (by eapply usable_more). erewrite bind_run by (by apply touch_run).
  assert (LL : live s2 = blocks [fresh s; fresh s + 1] ∪ live s)
    by (rewrite L2; change (live s1) with ({[ (Block, fresh s) ]} ∪ live s); rewrite !blocks_cons, blocks_nil; clear; set_solver).
  eexists. split; [done|]. split; [done|]. split; [|split; [done|split; [lia|by rewrite A2]]].
  split; rewrite ?C2.
  - by cell.
  - rewrite lookup_insert_ne by congruence. cbn. by rewrite (sound_cells _ Snd) by lia.
  - done.
  - rewrite LL. by apply union_subseteq_l.
  - unfold event_blocks. repeat constructor; rewrite ?elem_of_cons, ?elem_of_nil; lia.
Qed.

Fixpoint fields_from (m : Z) (l : list (Z * Z)) : list (Z * Z * Z) :=
  match l with [] => [] | (type, value) :: l => (m, type, value) :: fields_from (m + 1) l end.
Definition strings (l : list (Z * Z)) : list Z := concat ((fun f => string_of f.1 f.2) <$> l).

Lemma holds_event_after e fields fs s s' : holds_event e fields fs s -> live s ⊆ live s' ->
  (forall a f, a < fresh s -> cells s' !! (a, f) = cells s !! (a, f)) -> sound s -> holds_event e fields fs s'.
Proof.
  intros [Cf Cc C L Ap] HL HC Snd.
  assert (B : forall a, a ∈ event_blocks e fields fs -> a < fresh s) by (intros a Ha; apply (sound_live _ Snd Block); by eapply blocks_alive).
  split; rewrite ?HC by (apply B; unfold event_blocks; set_solver); try done; [|by etransitivity].
  intros i f Hi. pose proof (C i f Hi) as Hc. destruct f as [[a ty] v]. cbn [field_cells] in *.
  assert (a < fresh s). { apply B. unfold event_blocks. do 2 (apply elem_of_cons; right). apply list_elem_of_In, in_concat.
    exists (field_blocks (a, ty, v)). split; [apply list_elem_of_In, list_elem_of_fmap; eexists; split; [done|by eapply list_elem_of_lookup_2]|].
    apply list_elem_of_In. unfold field_blocks. set_solver. }
  rewrite !HC by (first [done|apply B; unfold event_blocks; set_solver]). done.
Qed.

(** One field, whose value was made by the caller. *)
Lemma new_field_run e fields fs type value s : sound s -> holds_event e fields fs s ->
  blocks (string_of type value) ⊆ live s -> NoDup (event_blocks e fields fs ++ string_of type value) ->
  if world (asked s) =? 0 then new_field e type value s = Faults
  else gives (new_field e type value s) tt (fun s' => holds_event e fields (fs ++ [(fresh s, type, value)]) s' /\
    live s' = {[ (Block, fresh s) ]} ∪ live s /\ fresh s' = fresh s + 1 /\ asked s' = S (asked s)).
Proof.
  intros Snd H Ls N. pose proof (sound_fresh _ Snd). unfold new_field.
  apply calloc_cases; intros W; [rewrite W|rewrite (proj2 (Z.eqb_neq _ _) W)]; cbn [Z.eqb].
  { by apply bind_fault, write_null, sound_answer. }
  set (a := fresh s). set (s1 := after_birth Block None (after_answer s)). assert (S1 : sound s1) by (by apply sound_birth, sound_answer).
  assert (L1 : live s1 = {[ (Block, a) ]} ∪ live s) by done. assert (Ha : (Block, a) ∈ live s1) by (rewrite L1; clear; set_solver).
  do 2 run_step. set (s2 := after_write _ _ _ _). assert (S2 : sound s2) by (unfold s2; sound_steps).
  assert (B : forall x, x ∈ event_blocks e fields fs ++ string_of type value -> x < a).
  { intros x [Hx|Hx]%elem_of_app; apply (sound_live _ Snd Block); [eapply blocks_alive; [exact (event_live _ _ _ _ H)|done]|by eapply blocks_alive]. }
  destruct (append_field_run e fields fs a type value s2) as (s3 & E & S3 & H3 & L3 & F3 & A3); try done.
  - eapply holds_event_after; [exact H|unfold s2; cbn [live after_write]; rewrite L1; by apply union_subseteq_r| |done].
    intros x f Hx. unfold s2. cbn. rewrite !lookup_insert_ne by (intros Q; injection Q; intros; unfold a in *; lia). done.
  - unfold s2. by cell.
  - unfold s2. by cell.
  - unfold field_blocks. rewrite blocks_app, blocks_one. unfold s2. cbn [live after_write]. rewrite L1. clear -Ls. set_solver.
  - unfold field_blocks. rewrite app_assoc. apply NoDup_app. split; [done|]. split; [intros x Hx Q; apply B in Hx; set_solver by lia|].
    apply NoDup_singleton.
  - exists s3. split; [exact E|]. split; [done|]. split; [done|]. split; [by rewrite L3|]. by rewrite F3, A3.
Qed.

Lemma add_fields_run l e fields fs s : sound s -> holds_event e fields fs s ->
  blocks (strings l) ⊆ live s -> NoDup (event_blocks e fields fs ++ strings l) ->
  (forall k, (k < length l)%nat -> world (k + asked s)%nat <> 0) ->
  gives (add_fields l e s) tt (fun s' => holds_event e fields (fs ++ fields_from (fresh s) l) s' /\
    live s' = blocks (seqZ (fresh s) (Z.of_nat (length l))) ∪ live s).
Proof.
  revert fs s. induction l as [|[type value] l IH]; intros fs s Snd H Ls N W; cbn [add_fields fields_from length].
  { exists s. rewrite app_nil_r, blocks_none, union_empty_l_L. done. }
  unfold strings in Ls, N. cbn [fmap list_fmap concat fst snd] in Ls, N. change (concat _) with (strings l) in Ls, N.
  rewrite blocks_app in Ls. apply union_subseteq in Ls as [Ls Ll].
  pose proof (new_field_run e fields fs type value s Snd H Ls) as R. rewrite app_assoc in N. pose proof N as (N1 & Dj & N2)%NoDup_app.
  specialize (R N1). assert (W0 : world (asked s) <> 0) by (apply (W 0%nat); cbn; lia). rewrite (proj2 (Z.eqb_neq _ _) W0) in R. destruct R as (s1 & E1 & S1 & H1 & L1 & F1 & A1).
  erewrite bind_run by exact E1.
  destruct (IH (fs ++ [(fresh s, type, value)]) s1 S1 H1) as (s2 & E2 & S2 & H2 & L2).
  - rewrite L1. clear -Ll. set_solver.
  - rewrite event_blocks_snoc. unfold field_blocks. rewrite app_assoc. apply NoDup_app. split; [|split; [|done]].
    + pose proof (event_apart _ _ _ _ H1) as N3. rewrite event_blocks_snoc in N3. unfold field_blocks in N3. by rewrite app_assoc in N3.
    + intros x [Hx|Hx]%elem_of_app; [by apply Dj|]. apply list_elem_of_singleton in Hx as ->. intros Hs.
      apply (fresh_dead Block (fresh s) s Snd ltac:(lia)), Ll, elem_of_blocks. done.
  - intros k Hk. rewrite A1, Nat.add_succ_r. apply (W (S k)). cbn. lia.
  - exists s2. split; [exact E2|]. split; [done|]. rewrite F1 in *. rewrite <- app_assoc in H2. split; [done|].
    rewrite L2, L1, seqZ_step, blocks_cons. clear. set_solver.
Qed.

(** *** Setting a field *)

Lemma set_value_run a type value s : sound s -> (Block, a) ∈ live s ->
  let copy := type =? EVENT_TYPE_STRING in let made_copy := copy && negb (world (asked s) =? 0) in
  let v := if copy then if world (asked s) =? 0 then 0 else fresh s else value in
  gives (set_value a type value s) tt (fun s' => cells s' = <[ (a, ("value", 0)) := v ]> (<[ (a, ("type", 0)) := type ]> (cells s)) /\
    live s' = blocks (if made_copy then [fresh s] else []) ∪ live s).
Proof.
  intros Snd Ha. cbv zeta. unfold set_value. run_step. set (s1 := after_write _ _ _ s). assert (S1 : sound s1) by (unfold s1; sound_steps).
  assert (Ha1 : (Block, a) ∈ live s1) by done. unfold strdup. destruct (type =? EVENT_TYPE_STRING); cbn [andb].
  - change (asked s) with (asked s1). apply calloc_cases; intros W; [rewrite W|rewrite (proj2 (Z.eqb_neq _ _) W)]; cbn [Z.eqb negb].
    + rewrite write_run by (left; alive). eexists. split; [done|]. split; [sound_steps|]. split; [done|]. by rewrite blocks_nil, union_empty_l_L.
    + rewrite write_run by (left; alive). eexists. split; [done|]. split; [sound_steps|]. split; [done|]. by rewrite blocks_one.
  - erewrite bind_run by done. rewrite write_run by (left; alive). eexists. split; [done|]. split; [sound_steps|]. split; [done|].
    by rewrite blocks_nil, union_empty_l_L.
Qed.

(** What [set_value] stores, given the answer about the copy and its address. *)
Definition stored (type value answer address : Z) : Z :=
  if type =? EVENT_TYPE_STRING then if answer =? 0 then 0 else address else value.
Lemma string_of_stored type value answer address : 0 < address ->
  string_of type (stored type value answer address) = if (type =? EVENT_TYPE_STRING) && negb (answer =? 0) then [address] else [].
Proof.
  intros H. unfold string_of, stored. destruct (type =? EVENT_TYPE_STRING); cbn [andb]; [|done].
  destruct (answer =? 0); cbn [negb]; [done|]. by rewrite (proj2 (Z.eqb_neq address 0)) by lia.
Qed.

Lemma event_blocks_split e fields l f r : event_blocks e fields (l ++ f :: r) = event_blocks e fields l ++ field_blocks f ++ concat (field_blocks <$> r).
Proof. unfold event_blocks. rewrite fmap_app, fmap_cons, concat_app. done. Qed.

Lemma field_address_in fs j a type value : fs !! j = Some (a, type, value) -> a ∈ concat (field_blocks <$> fs).
Proof.
  intros H. apply list_elem_of_In, in_concat. exists (field_blocks (a, type, value)).
  split; apply list_elem_of_In; [apply list_elem_of_fmap; eexists; split; [done|by eapply list_elem_of_lookup_2]|].
  unfold field_blocks. apply elem_of_app. right. apply elem_of_cons. by left.
Qed.

Lemma NoDup_replace (l m m' k r : list Z) : NoDup (l ++ (m ++ k) ++ r) -> NoDup m' -> (forall x, x ∈ m' -> x ∉ l ++ (m ++ k) ++ r) ->
  NoDup (l ++ (m' ++ k) ++ r).
Proof.
  assert (P : forall m0, l ++ (m0 ++ k) ++ r ≡ₚ m0 ++ l ++ k ++ r)
    by (intros m0; by rewrite <- (app_assoc m0), (app_assoc l), (Permutation_app_comm l m0), <- app_assoc).
  rewrite (P m), (P m'). intros (_ & _ & N)%NoDup_app N' H. apply NoDup_app. split; [done|]. split; [|done].
  intros x Hx Q. apply (H x Hx). rewrite !elem_of_app in *. tauto.
Qed.

(** A field that is there already gets another value: the copy it had is not freed. *)
Lemma event_set_found_run e fields fs i a type0 value0 type value s : sound s -> holds_event e fields fs s ->
  fs !! i = Some (a, type0, value0) ->
  let v := stored type value (world (asked s)) (fresh s) in
  gives (event_set_field e (Some (Z.of_nat i)) type value s) tt (fun s' =>
    holds_event e fields (<[i := (a, type, v)]> fs) s' /\ live s' = blocks (string_of type v) ∪ live s /\
    (forall x, x ∈ string_of type0 value0 -> (Block, x) ∈ live s' /\ x ∉ event_blocks e fields (<[i := (a, type, v)]> fs))).
Proof.
  intros Snd H Hi v. pose proof H as [Cf Cc C L Ap]. pose proof (sound_fresh _ Snd).
  assert (B : forall x, x ∈ event_blocks e fields fs -> (Block, x) ∈ live s /\ x < fresh s)
    by (intros x Hx; pose proof (blocks_alive _ _ x L Hx) as Q; split; [done|apply (sound_live _ Snd) in Q; lia]).
  pose proof (C i _ Hi) as (C1 & C2 & C3). pose proof (take_drop_middle _ _ _ Hi) as Split. pose proof (lookup_lt_Some _ _ _ Hi) as Len.
  assert (Ins : <[i := (a, type, v)]> fs = take i fs ++ (a, type, v) :: drop (S i) fs) by (by apply insert_take_drop).
  rewrite <- Split, event_blocks_split in L, Ap, B. change (field_blocks (a, type0, value0)) with (string_of type0 value0 ++ [a]) in L, Ap, B.
  destruct (B a ltac:(rewrite !elem_of_app; right; left; right; apply elem_of_cons; by left)) as [Ha _].
  destruct (B e ltac:(rewrite elem_of_app; left; apply elem_of_cons; by left)) as [He _].
  destruct (B fields ltac:(rewrite elem_of_app; left; do 2 (apply elem_of_cons; first [by left|right]))) as [Hf _].
  unfold event_set_field. erewrite bind_run by (apply load_at; [by left|exact Cf]). erewrite bind_run by (apply load_at; [by left|exact C1]).
  destruct (set_value_run a type value s Snd Ha) as (s' & E & S' & C' & L'). fold (stored type value (world (asked s)) (fresh s)) in C'. fold v in C'.
  rewrite <- (string_of_stored type value) in L' by done. fold v in L'.
  assert (Str : forall x, x ∈ string_of type v -> x = fresh s)
    by (intros x; unfold v; rewrite string_of_stored by done; case_match; set_solver).
  set (X := event_blocks e fields (take i fs)) in *. set (R := concat (field_blocks <$> drop (S i) fs)) in *.
  exists s'. split; [exact E|]. split; [done|]. rewrite Ins. split; [|split; [done|]].
  - assert (Other : forall j f, j <> i -> fs !! j = Some f -> f.1.1 <> a).
    { intros j [[a' ty'] v'] Hj Hf' Q. cbn in Q. subst a'. apply NoDup_app in Ap as (_ & Dx & Ap). apply NoDup_app in Ap as (_ & Dr & _).
      destruct (decide (j < i)%nat) as [Lt|Ge].
      - apply (Dx a); [|apply elem_of_app; left; apply elem_of_app; right; apply elem_of_cons; by left].
        unfold X, event_blocks. do 2 (apply elem_of_cons; right). eapply field_address_in. rewrite lookup_take_lt by done. exact Hf'.
      - apply (Dr a); [apply elem_of_app; right; apply elem_of_cons; by left|]. unfold R. apply (field_address_in _ (j - S i) _ ty' v').
        rewrite lookup_drop. rewrite <- Hf'. f_equal. lia. }
    rewrite <- Ins. split; rewrite ?C'.
    + by rewrite !lookup_insert_ne by congruence.
    + rewrite !lookup_insert_ne by congruence. by rewrite length_insert.
    + intros j f Hj. destruct (decide (j = i)) as [->|Nj].
      * rewrite list_lookup_insert_eq in Hj by done. simplify_eq. cbn [field_cells]. rewrite C'.
        split_and!; repeat first [rewrite lookup_insert_eq|rewrite lookup_insert_ne by congruence]; done.
      * rewrite list_lookup_insert_ne in Hj by done. specialize (Other j f Nj Hj). specialize (C j f Hj). destruct f as [[a' ty'] v'].
        cbn [field_cells fst] in *. rewrite C'. destruct C as (D1 & D2 & D3).
        split_and!; rewrite !lookup_insert_ne by congruence; done.
    + rewrite Ins, event_blocks_split, L'. fold X R. unfold field_blocks. rewrite !blocks_app in *. clear -L. set_solver.
    + rewrite Ins, event_blocks_split. fold X R. unfold field_blocks.
      apply (NoDup_replace X (string_of type0 value0) (string_of type v)); [done| |].
      * unfold v. rewrite string_of_stored by done. case_match; [apply NoDup_singleton|apply NoDup_nil_2].
      * intros x Hx Hb. apply Str in Hx as ->. apply B in Hb. lia.
  - intros x Hx. rewrite L', event_blocks_split. fold X R. unfold field_blocks.
    split; [apply elem_of_union_r, B; rewrite !elem_of_app; tauto|].
    assert (x < fresh s) by (apply B; rewrite !elem_of_app; tauto).
    pose proof Ap as (_ & Dx & Ap')%NoDup_app. apply NoDup_app in Ap' as (Ap' & Dr & _). apply NoDup_app in Ap' as (_ & Da & _).
    rewrite !elem_of_app. intros [Q|[[Q|Q]|Q]].
    + apply (Dx x Q). rewrite !elem_of_app. tauto.
    + apply Str in Q. lia.
    + by apply (Da x Hx).
    + apply (Dr x); [rewrite elem_of_app; tauto|done].
Qed.

(** A new field: the limit, a null block, or one more field with its copy. *)
Lemma event_set_new_run e fields fs type value s : sound s -> holds_event e fields fs s ->
  if Z.of_nat (length fs) =? EVENT_FIELDS_MAXIMUM then event_set_field e None type value s = Exits (-1)
  else if world (asked s) =? 0 then event_set_field e None type value s = Faults
  else let v := stored type value (world (S (asked s))) (fresh s + 1) in
    gives (event_set_field e None type value s) tt (fun s' =>
      holds_event e fields (fs ++ [(fresh s, type, v)]) s' /\ live s' = blocks (field_blocks (fresh s, type, v)) ∪ live s).
Proof.
  intros Snd H. pose proof H as [Cf Cc _ L Ap]. pose proof (sound_fresh _ Snd).
  assert (B : forall x, x ∈ event_blocks e fields fs -> (Block, x) ∈ live s /\ x < fresh s)
    by (intros x Hx; pose proof (blocks_alive _ _ x L Hx) as Q; split; [done|apply (sound_live _ Snd) in Q; lia]).
  destruct (B e ltac:(apply elem_of_cons; by left)) as [He _].
  unfold event_set_field. erewrite bind_run by (apply load_run; by left). rewrite Cc.
  destruct (Z.of_nat (length fs) =? EVENT_FIELDS_MAXIMUM); [done|].
  apply calloc_cases; intros W; [rewrite W|rewrite (proj2 (Z.eqb_neq _ _) W)]; cbn [Z.eqb].
  { by apply bind_fault, touch_null, sound_answer. }
  set (a := fresh s). set (s1 := after_birth Block None (after_answer s)). assert (S1 : sound s1) by (by apply sound_birth, sound_answer).
  assert (L1 : live s1 = {[ (Block, a) ]} ∪ live s) by done. assert (Ha : (Block, a) ∈ live s1) by (rewrite L1; clear; set_solver).
  run_step. destruct (set_value_run a type value s1 S1 Ha) as (s2 & E & S2 & C2 & L2). erewrite bind_run by exact E.
  change (asked s1) with (S (asked s)) in *. change (fresh s1) with (a + 1) in *.
  fold (stored type value (world (S (asked s))) (a + 1)) in C2. set (v := stored _ _ _ _) in *. cbv zeta.
  rewrite <- (string_of_stored type value) in L2 by (unfold a; lia). fold v in L2.
  assert (Str : forall x, x ∈ string_of type v -> x = a + 1)
    by (intros x; unfold v; rewrite string_of_stored by (unfold a; lia); case_match; set_solver).
  destruct (append_field_run e fields fs a type v s2) as (s3 & E3 & S3 & H3 & L3 & _); try done.
  - eapply holds_event_after; [exact H|rewrite L2, L1; clear; set_solver| |done].
    intros x f Hx. rewrite C2, !lookup_insert_ne by (intros Q; injection Q; intros; unfold a in *; lia). done.
  - rewrite C2. by cell.
  - rewrite C2. by cell.
  - unfold field_blocks. rewrite blocks_app, blocks_one, L2, L1. clear. set_solver.
  - unfold field_blocks. rewrite !NoDup_app. split; [done|]. split.
    + intros x Hx [Q|Q]%elem_of_app; apply B in Hx; [apply Str in Q; unfold a in *; lia|apply list_elem_of_singleton in Q; unfold a in *; lia].
    + split; [unfold v; rewrite string_of_stored by (unfold a; lia); case_match; [apply NoDup_singleton|apply NoDup_nil_2]|].
      split; [|apply NoDup_singleton]. intros x Hx Q. apply Str in Hx. apply list_elem_of_singleton in Q. lia.
  - exists s3. split; [exact E3|]. split; [done|]. split; [done|]. rewrite L3, L2, L1. unfold field_blocks. rewrite blocks_app, blocks_one. clear. set_solver.
Qed.

Lemma event_build_run l s : sound s -> blocks (strings l) ⊆ live s -> NoDup (strings l) ->
  (forall k, (k < 2 + length l)%nat -> world (k + asked s)%nat <> 0) ->
  let e := fresh s in
  gives (event_build l s) e (fun s' => holds_event e (e + 1) (fields_from (e + 2) l) s' /\
    live s' = blocks (seqZ e (2 + Z.of_nat (length l))) ∪ live s).
Proof.
  intros Snd Ls N W e. pose proof (event_create_run s Snd) as R. assert (W0 : world (asked s) <> 0) by (apply (W 0%nat); lia).
  assert (W1 : world (S (asked s)) <> 0) by (apply (W 1%nat); lia).
  rewrite (proj2 (Z.eqb_neq _ _) W0), (proj2 (Z.eqb_neq _ _) W1) in R. cbn [orb] in R. destruct R as (s1 & E1 & S1 & H1 & L1 & F1 & A1).
  unfold event_build. erewrite bind_run by exact E1. fold e in E1, H1, L1, F1 |- *.
  destruct (add_fields_run l e (e + 1) [] s1 S1 H1) as (s2 & E2 & S2 & H2 & L2).
  - rewrite L1. clear -Ls. set_solver.
  - apply NoDup_app. split; [apply (event_apart _ _ _ _ H1)|]. split; [|done]. intros x Hx Hs.
    assert (x < e) by (apply (sound_live _ Snd Block), Ls, elem_of_blocks; done). unfold event_blocks in Hx. set_solver by lia.
  - intros k Hk. rewrite A1. replace (k + S (S (asked s)))%nat with (2 + k + asked s)%nat by lia. apply W. lia.
  - erewrite bind_run by exact E2. exists s2. rewrite F1 in *. split; [done|]. split; [done|]. split; [done|].
    rewrite L2, L1, seqZ_two, !blocks_cons, blocks_nil by lia. clear. set_solver.
Qed.

(** ** The lifetimes *)


(** The hash map.  A new map writes through its structure without a check; with all
    its blocks it is four of them.  Starting a resize gives the shadow two more; when
    the resize is finished the old two are freed and the new ones are the map's.
    Clearing frees every table, of the shadow too, and puts two new ones in their
    place; deleting frees all blocks, whether or not a resize was going on. *)
Theorem simple_map_lifetimes s (Hs : sound s) :
  (let h := fresh s in let j := asked s in let r := simple_map_new s in
   if world j =? 0 then r = Faults
   else gives r h (fun s' => world (1 + j)%nat <> 0 -> world (2 + j)%nat <> 0 -> world (3 + j)%nat <> 0 ->
     holds_map h (h + 1) (h + 2) (h + 3) None s' /\ made (blocks (map_blocks h (h + 1) (h + 2) (h + 3) None)) s s')) /\
  (forall h shadow p b growing, holds_map h shadow p b growing s ->
    gives (simple_map_delete h s) tt (fun s' => live s' = live s ∖ blocks (map_blocks h shadow p b growing)) /\
    (world (asked s) <> 0 -> world (S (asked s)) <> 0 -> let p' := fresh s in let b' := p' + 1 in
      gives (simple_map_clear h s) tt (fun s' => holds_map h shadow p' b' None s' /\
        live s' = (blocks [p'; b'] ∪ live s) ∖ blocks (p :: b :: match growing with Some (p1, b1) => [p1; b1] | None => [] end)) /\
      (growing = None -> forall finished,
        gives (simple_map_start_resize finished h s) tt (fun s' =>
          if finished : bool then holds_map h shadow p' b' None s' /\ live s' = (blocks [p'; b'] ∪ live s) ∖ blocks [p; b]
          else holds_map h shadow p b (Some (p', b')) s' /\ live s' = blocks [p'; b'] ∪ live s))) /\
    (forall p' b', growing = Some (p', b') ->
      gives (simple_map_resize true h s) tt (fun s' => holds_map h shadow p' b' None s' /\ live s' = live s ∖ blocks [p; b]))).
Proof.
  split; [|intros h shadow p b growing H; split_and!].
  - pose proof (simple_map_new_run s Hs) as R. cbv zeta in *. case_match; [done|]. destruct R as (s' & E & S' & R).
    exists s'. split; [done|]. split; [done|]. intros W1 W2 W3. by destruct (R W1 W2 W3) as (? & ? & _).
  - destruct (simple_map_delete_run _ _ _ _ _ _ Hs H) as (s' & E & S' & L' & _). by exists s'.
  - intros W1 W2. split; [by apply (simple_map_clear_run h)|]. intros -> finished.
    destruct (simple_map_start_resize_run finished _ _ _ _ _ Hs H W1 W2) as (s' & E & S' & _ & _ & _ & R). by exists s'.
  - intros p' b' ->. destruct (simple_map_resize_run true _ _ _ _ _ _ _ Hs H) as (s' & E & S' & R & L & _). by exists s'.
Qed.



End Arrays.


Lemma simple_map_lifetimes_witness : let w (_ : nat) := 1 in
  sound empty_store /\ exists s', simple_map_new w empty_store = Done (1, s') /\ holds_map 1 2 3 4 None s'.
Proof.
  intros w. split; [exact empty_sound|]. destruct (proj1 (simple_map_lifetimes w empty_store empty_sound)) as (s' & E & _ & R).
  exists s'. split; [exact E|]. exact (proj1 (R ltac:(done) ltac:(done) ltac:(done))).
Defined.



(** A string that is set twice: the first copy is what is left after the event. *)
Example string_lost : let w (_ : nat) := 1 in
  let run := e ← event_build w [] ; event_set_field w e None EVENT_TYPE_STRING 0;; event_set_field w e (Some 0) EVENT_TYPE_STRING 0;; event_destroy e in
  exists s', run empty_store = Done (tt, s') /\ live s' = {[ (Block, 4) ]}.
Proof. eexists. split; [vm_compute; reflexivity|]. reflexivity. Qed.
