(* ===== verification/Launcher.v ===== *)
(** * The launcher of the database ([storage/native/storage/launcher.cc])

    How the database is started in its thread, what its signals do, its
    configuration, and its shutdown: a fiber sleeps until the first request for a
    shutdown, runs the triggers, shuts the box down and leaves the event loop.

    The database, its event loop and libc are parameters: what they answer is in
    the records [configuration] and [surroundings], and what the launcher calls is a
    list of [call]s.  A fiber runs when it is resumed, which may happen at any time
    and for no reason, and the triggers and [box_shutdown] may suspend it. *)
From stdpp Require Import strings.
From S2P Require Import Prelude.

(** ** What the launcher calls *)

Inductive callback := Sig_checkpoint | Signal_cb | Sigwinch_cb | Say_logrotate | Other_callback (id : Z).

Definition SIGHUP : Z := 1.
Definition SIGINT : Z := 2.
Definition SIGUSR1 : Z := 10.
Definition SIGPIPE : Z := 13.
Definition SIGTERM : Z := 15.
Definition SIGWINCH : Z := 28.
Definition EX_OSERR : Z := 71.
Definition EXIT_FAILURE : Z := 1.

Inductive call :=
| Named (name : string)
| Say_warn | Say_syserror | Say_error | Say_info | Say_verbose
| Panic
| Broadcast_shutdown | Wakeup_on_shutdown
| Fiber_sleep | Fiber_yield | Run_triggers | Diag_log | Diag_clear | Box_shutdown | Ev_break
| Sigaction (ignored : bool) (signum : Z)
| Signal_init_at (signum : Z) (c : callback) | Signal_start (signum : Z) | Signal_stop (signum : Z)
| Setlocale (name : string).
#[export] Instance callback_eq_dec : EqDecision callback.
Proof. solve_decision. Defined.
#[export] Instance call_eq_dec : EqDecision call.
Proof. solve_decision. Defined.

(** Calls are kept also when the process exits after them. *)
Definition steps (A : Type) : Type := list call * outcome A.
#[export] Instance steps_ret : MRet steps := fun A a => ([], Done a).
#[export] Instance steps_bind : MBind steps := fun A B f m =>
  match m with
  | (l, Done a) => let '(l', o) := f a in (l ++ l', o)
  | (l, Exits c) => (l, Exits c)
  | (l, Faults) => (l, Faults)
  | (l, Spins) => (l, Spins)
  end.
Definition step (c : call) : steps unit := ([c], Done tt).
Definition leave {A} (code : Z) : steps A := ([], Exits code).
Definition panic {A} : steps A := ([Panic], Exits EXIT_FAILURE).
Definition when (b : bool) (m : steps unit) : steps unit := if b then m else mret tt.
Definition run_all (l : list call) : steps unit := (l, Done tt).

(** ** The state of the launcher *)

(** Where the fiber of [on_shutdown_f] is suspended. *)
Inductive fiber := No_fiber | New_fiber | Asleep | Yielded | In_triggers | In_shutdown | Ended.
(** [main_argv] is left pointing to an array that [storage_launcher_launch] deletes. *)
Inductive argument_vector := No_arguments | Arguments | Deleted_arguments.
#[export] Instance fiber_eq_dec : EqDecision fiber.
Proof. solve_decision. Defined.

Definition ev_sig_count : nat := 5.

Record launcher := Launcher {
  start_loop : bool;
  shutdown_started : bool;
  shutdown_finished : bool;
  exit_code : Z;
  on_shutdown_fiber : fiber;
  ev_sigs : list (Z * callback);
  signal_sigint_cb : callback;
  main_argv : argument_vector;
  start_time : Z;
}.
Definition unlaunched (loop : bool) : launcher :=
  Launcher loop false false 0 No_fiber (replicate ev_sig_count (0, Other_callback 0)) Signal_cb No_arguments 0.

Definition with_request (code : Z) (l : launcher) : launcher :=
  Launcher (start_loop l) true (shutdown_finished l) code (on_shutdown_fiber l) (ev_sigs l) (signal_sigint_cb l)
    (main_argv l) (start_time l).
Definition without_loop (l : launcher) : launcher :=
  Launcher false (shutdown_started l) (shutdown_finished l) (exit_code l) (on_shutdown_fiber l) (ev_sigs l)
    (signal_sigint_cb l) (main_argv l) (start_time l).
Definition at_fiber (f : fiber) (l : launcher) : launcher :=
  Launcher (start_loop l) (shutdown_started l) (shutdown_finished l) (exit_code l) f (ev_sigs l)
    (signal_sigint_cb l) (main_argv l) (start_time l).
Definition finish (l : launcher) : launcher :=
  Launcher (start_loop l) (shutdown_started l) true (exit_code l) Ended (ev_sigs l) (signal_sigint_cb l)
    (main_argv l) (start_time l).
Definition with_signals (sigs : list (Z * callback)) (l : launcher) : launcher :=
  Launcher (start_loop l) (shutdown_started l) (shutdown_finished l) (exit_code l) (on_shutdown_fiber l) sigs
    (signal_sigint_cb l) (main_argv l) (start_time l).
Definition with_arguments (a : argument_vector) (l : launcher) : launcher :=
  Launcher (start_loop l) (shutdown_started l) (shutdown_finished l) (exit_code l) (on_shutdown_fiber l) (ev_sigs l)
    (signal_sigint_cb l) a (start_time l).
Definition with_start_time (t : Z) (l : launcher) : launcher :=
  Launcher (start_loop l) (shutdown_started l) (shutdown_finished l) (exit_code l) (on_shutdown_fiber l) (ev_sigs l)
    (signal_sigint_cb l) (main_argv l) t.

(** ** The shutdown *)

(** [fiber_wakeup] takes a fiber, which a null pointer is not. *)
Definition fiber_wakeup (l : launcher) : steps unit :=
  if decide (on_shutdown_fiber l = No_fiber) then ([], Faults) else step Wakeup_on_shutdown.

Definition storage_exit (code : Z) (l : launcher) : steps launcher :=
  let l := without_loop l in
  if shutdown_started l then mret l else
  let l := with_request code l in
  step Broadcast_shutdown;; fiber_wakeup l;; mret l.

Definition storage_launcher_shutdown (code : Z) (l : launcher) : steps launcher :=
  when (start_loop l) (step Say_info);;
  if negb (shutdown_started l) then storage_exit code l else mret l.

Definition signal_cb (l : launcher) : steps launcher := step Say_warn;; storage_exit 0 l.

(** The loop of [on_shutdown_f]: a round either yields or runs the triggers. *)
Definition on_shutdown_wait (l : launcher) : launcher * list call :=
  if negb (shutdown_started l) then (at_fiber Yielded l, [Fiber_yield]) else (at_fiber In_triggers l, [Run_triggers]).

(** The fiber runs from where it is suspended to where it is suspended next.
    [depth] is [ev_depth]; [answer] is what the triggers or [box_shutdown] return,
    [None] when they suspend the fiber again. *)
Definition on_shutdown_f (depth : Z) (answer : option Z) (l : launcher) : launcher * list call :=
  match on_shutdown_fiber l with
  | No_fiber | Ended => (l, [])
  | New_fiber => if depth =? 0 then (at_fiber Asleep l, [Fiber_sleep]) else on_shutdown_wait l
  | Asleep | Yielded => on_shutdown_wait l
  | In_triggers =>
      match answer with
      | None => (l, [])
      | Some code => (at_fiber In_shutdown l, (if negb (code =? 0) then [Say_error; Diag_log; Diag_clear] else []) ++ [Box_shutdown])
      end
  | In_shutdown => match answer with None => (l, []) | Some _ => (finish l, [Ev_break]) end
  end.

(** ** Signals *)

Definition signal_init_at (i : nat) (c : callback) (signum : Z) (l : launcher) : steps launcher :=
  step (Signal_init_at signum c);; mret (with_signals (<[i := (signum, c)]> (ev_sigs l)) l).

(** [sigaction] answers for each signal whether it fails. *)
Definition signal_init (fails : Z -> bool) (l : launcher) : steps launcher :=
  step (Sigaction true SIGPIPE);;
  (if fails SIGPIPE then panic else mret tt);;
  step (Named "fiber_signal_init");;
  l ← signal_init_at 0 Sig_checkpoint SIGUSR1 l;
  l ← signal_init_at 1 (signal_sigint_cb l) SIGINT l;
  l ← signal_init_at 2 Signal_cb SIGTERM l;
  l ← signal_init_at 3 Sigwinch_cb SIGWINCH l;
  l ← signal_init_at 4 Say_logrotate SIGHUP l;
  run_all (map (fun s => Signal_start (fst s)) (ev_sigs l));;
  step (Named "tt_pthread_atfork");;
  mret l.

Definition signal_free (l : launcher) : steps unit := run_all (map (fun s => Signal_stop (fst s)) (ev_sigs l)).

(** The calls of a chain of [||] up to the first that fails. *)
Fixpoint until_failure (fails : Z -> bool) (l : list Z) : list call * bool :=
  match l with
  | [] => ([], false)
  | s :: l => if fails s then ([Sigaction false s], true) else let '(calls, b) := until_failure fails l in (Sigaction false s :: calls, b)
  end.
Definition signal_reset (fails : Z -> bool) (mask_fails : bool) (l : launcher) : steps unit :=
  signal_free l;;
  let '(calls, failed) := until_failure fails [SIGUSR1; SIGINT; SIGTERM; SIGHUP; SIGWINCH] in
  run_all calls;;
  when failed (step Say_syserror);;
  step (Named "fiber_signal_reset");;
  step (Named "pthread_sigmask");;
  when mask_fails (step Say_syserror).

Definition set_sigint_cb (new_sigint_cb : callback) (l : launcher) : callback * launcher :=
  let old_cb := signal_sigint_cb l in
  (old_cb, with_signals (alter (fun s => (fst s, new_sigint_cb)) 1%nat (ev_sigs l)) l).

Definition sig_checkpoint (fiber_made : bool) : steps unit :=
  step (Named "fiber_new_system checkpoint");;
  if fiber_made then step (Named "fiber_wakeup checkpoint") else step Say_warn.
Definition sig_checkpoint_f (code : Z) : steps unit :=
  step (Named "box_checkpoint");; when (negb (code =? 0)) (step Diag_log).
Definition signal_sigwinch_cb (rl_instream : bool) : steps unit := when rl_instream (step (Named "rl_resize_terminal")).

(** The event loop calls what is set for a signal; [made] and [rl_instream] are
    answers to those calls. *)
Definition deliver (made rl_instream : bool) (c : callback) (l : launcher) : steps launcher :=
  match c with
  | Sig_checkpoint => sig_checkpoint made;; mret l
  | Signal_cb => signal_cb l
  | Sigwinch_cb => signal_sigwinch_cb rl_instream;; mret l
  | Say_logrotate => step (Named "say_logrotate");; mret l
  | Other_callback _ => mret l
  end.

(** ** The end of the process *)

Definition free_readline_state (is_terminal : bool) : steps unit :=
  step (Named "isatty");; when is_terminal (step (Named "rl_cleanup_after_signal")).
Definition storage_atexit (is_master cord_is_main is_terminal : bool) : steps unit :=
  if negb is_master then mret tt else if negb cord_is_main then mret tt else free_readline_state is_terminal.

Definition names (l : list string) : list call := map Named l.
(** [gcov] is the build with [ENABLE_GCOV]. *)
Definition storage_free (gcov is_master cord_is_main : bool) (l : launcher) : steps unit :=
  if negb is_master then mret tt else if negb cord_is_main then mret tt else
  run_all (names ["coio_shutdown"; "box_lua_free"; "box_free"; "title_free"; "popen_free"; "module_free"]);;
  signal_free l;;
  when gcov (step (Named "gcov_flush"));;
  run_all (names ["cbus_free"; "event_free"; "ssl_free"; "memtx_tx_manager_free"; "coll_free"; "say_logger_free";
                  "fiber_free"; "memory_free"; "random_free"]).

Definition storage_uptime (now : Z) (l : launcher) : Z := now - start_time l.

(** ** The configuration *)

Record configuration := Configuration {
  work_dir : option string; chdir_fails : bool;
  coredump : Z; getrlimit_fails : bool; setrlimit_fails : bool; has_prctl : bool; prctl_fails : bool;
  strip_core : Z; dontdump : bool; on_linux : bool;
  box_init_say : Z; box_set_flightrec : Z;
}.

(** A limit that cannot be read or set ends the process. *)
Definition checked (name : string) (fails : bool) : steps unit :=
  step (Named name);; if fails then step Say_syserror;; leave EX_OSERR else mret tt.
Definition answered (name : string) (code : Z) : steps unit :=
  step (Named name);; if negb (code =? 0) then step Diag_log;; leave EXIT_FAILURE else mret tt.

Definition load_cfg (c : configuration) : steps unit :=
  match work_dir c with
  | Some _ => step (Named "chdir");; if chdir_fails c then panic else mret tt
  | None => mret tt
  end;;
  when (negb (coredump c =? 0))
    (checked "getrlimit" (getrlimit_fails c);; checked "setrlimit" (setrlimit_fails c);;
     when (has_prctl c) (checked "prctl" (prctl_fails c)));;
  when (negb (strip_core c =? 0) && negb (dontdump c)) (step (if on_linux c then Say_warn else Say_verbose));;
  answered "box_init_say" (box_init_say c);;
  answered "box_set_flightrec" (box_set_flightrec c);;
  run_all [Say_info; Say_info; Named "box_cfg"].

(** ** Starting the database *)

Inductive thrown := Database_error | Unknown_exception.
#[export] Instance thrown_eq_dec : EqDecision thrown.
Proof. solve_decision. Defined.

Record surroundings := Surroundings {
  locale_known : string -> bool;
  sigaction_fails : Z -> bool;
  cert_paths : Z;
  debug : bool;
  monotonic_time : Z;
  box_init : option thrown; box_lua_init : option thrown; tarantool_lua_postinit : option thrown;
  fiber_made : bool;
  has_loop : bool;
}.

(** The first of the locales that is known is set. *)
Fixpoint setlocale (known : string -> bool) (l : list string) : list call * bool :=
  match l with
  | [] => ([], false)
  | name :: l => if known name then ([Setlocale name], true)
                 else let '(calls, b) := setlocale known l in (Setlocale name :: calls, b)
  end.
Definition locales : list string := ["C.UTF-8"; "en_US.UTF-8"; "en_US.utf8"].

(** The two handlers of the [try] block; a call in it that throws goes there. *)
Definition caught (t : thrown) {A} : steps A :=
  match t with Database_error => step (Named "error_log");; panic | Unknown_exception => panic end.
Definition attempt (name : string) (t : option thrown) : steps unit :=
  step (Named name);; match t with None => mret tt | Some t => caught t end.

Definition storage_launcher_launch (w : surroundings) (l : launcher) : steps launcher :=
  let '(calls, set) := setlocale (locale_known w) locales in
  run_all calls;;
  when (negb set) (step (Named "fprintf"));;
  run_all (names ["fpconv_check"; "find_path"; "random_init"; "crc32_init"; "memory_init"]);;
  let l := with_arguments Arguments l in
  run_all (names ["diag_override_raiser"; "say_override"; "fiber_init"; "popen_init"; "coio_init"; "coio_enable"]);;
  l ← signal_init (sigaction_fails w) l;
  run_all (names ["cbus_init"; "coll_init"; "memtx_tx_manager_init"; "module_init"; "ssl_init"; "event_init"]);;
  step (Named "tnt_ssl_cert_paths_discover");;
  when (negb (cert_paths w =? 0)) (step Say_warn);;
  when (debug w) (step (Named "errinj_set_with_environment_vars"));;
  step (Named "tarantool_lua_init_deferred");;
  let l := with_start_time (monotonic_time w) l in
  attempt "box_init" (box_init w);;
  attempt "box_lua_init" (box_lua_init w);;
  attempt "tarantool_lua_postinit" (tarantool_lua_postinit w);;
  step (Named "fiber_new_system on_shutdown");;
  (if fiber_made w then mret tt else step (Named "diag_raise");; caught Database_error);;
  let l := at_fiber New_fiber l in
  step (Named "atexit");;
  (if has_loop w then mret tt else panic);;
  mret (with_arguments Deleted_arguments l).

(** ** A run: what the threads, the signals and the fibers do to the launcher *)

Inductive event :=
| Exit_requested (code : Z)
| Signalled (signum : Z) (fiber_made rl_instream : bool)
| Resumed (depth : Z) (answer : option Z).

Definition handle (e : event) (l : launcher) : steps launcher :=
  match e with
  | Exit_requested code => storage_launcher_shutdown code l
  | Signalled signum made stream =>
      match list_find (fun s => fst s = signum) (ev_sigs l) with
      | Some (_, (_, c)) => deliver made stream c l
      | None => mret l
      end
  | Resumed depth answer => let '(l, calls) := on_shutdown_f depth answer l in (calls, Done l)
  end.
Fixpoint run (es : list event) (l : launcher) : steps launcher :=
  match es with [] => mret l | e :: es => l ← handle e l; run es l end.

(** ** Starting: when it returns and what it leaves *)

Definition launched_signals : list (Z * callback) :=
  [(SIGUSR1, Sig_checkpoint); (SIGINT, Signal_cb); (SIGTERM, Signal_cb); (SIGWINCH, Sigwinch_cb); (SIGHUP, Say_logrotate)].
Definition launches (w : surroundings) : bool :=
  negb (sigaction_fails w SIGPIPE) && bool_decide (box_init w = None) && bool_decide (box_lua_init w = None)
  && bool_decide (tarantool_lua_postinit w = None) && fiber_made w && has_loop w.

Lemma steps_done {A B} (m : steps A) (f : A -> steps B) (b : B) :
  snd (m ≫= f) = Done b -> exists a, snd m = Done a /\ snd (f a) = Done b.
Proof.
  destruct m as [l [a| | |]]; cbn; try discriminate. destruct (f a) as [l' o] eqn:E. cbn. intros ->.
  exists a. rewrite E. auto.
Qed.

Lemma steps_snd {A B} (m : steps A) (f : A -> steps B) : snd (m ≫= f) = snd m ≫= (fun a => snd (f a)).
Proof. destruct m as [l [a| | |]]; cbn; try reflexivity. destruct (f a); reflexivity. Qed.

(** The launcher is ready exactly when nothing it needs has failed; otherwise the
    process has exited. *)
Lemma storage_launcher_launch_outcome w loop :
  snd (storage_launcher_launch w (unlaunched loop))
  = if launches w then Done (Launcher loop false false 0 New_fiber launched_signals Signal_cb Deleted_arguments (monotonic_time w))
    else Exits EXIT_FAILURE.
Proof.
  unfold storage_launcher_launch, launches. destruct (setlocale (locale_known w) locales) as [calls set].
  destruct w as [lk sf cp db t bi bl pi fm hl]; cbn -[setlocale locales negb].
  destruct set; cbn; destruct (sf SIGPIPE); cbn; try reflexivity;
    destruct (cp =? 0); cbn; destruct db; cbn; destruct bi as [[]|]; cbn; try reflexivity;
    destruct bl as [[]|]; cbn; try reflexivity; destruct pi as [[]|]; cbn; try reflexivity;
    destruct fm; cbn; try reflexivity; destruct hl; reflexivity.
Qed.

(** [set_sigint_cb] answers what [signal_init] set, not what the call before set. *)
Lemma set_sigint_cb_forgets c c' l :
  fst (set_sigint_cb c' (snd (set_sigint_cb c l))) = signal_sigint_cb l.
Proof. reflexivity. Qed.

(** The configuration is applied exactly when no call it needs has failed. *)
Definition limits_fail (c : configuration) : bool :=
  negb (coredump c =? 0) && (getrlimit_fails c || setrlimit_fails c || (has_prctl c && prctl_fails c)).
Lemma load_cfg_outcome c :
  snd (load_cfg c)
  = if match work_dir c with Some _ => chdir_fails c | None => false end then Exits EXIT_FAILURE
    else if limits_fail c then Exits EX_OSERR
    else if (box_init_say c =? 0) && (box_set_flightrec c =? 0) then Done tt else Exits EXIT_FAILURE.
Proof.
  destruct c as [wd cf cd gf sf hp pf sc dd ol bs bf]. unfold load_cfg, limits_fail. cbn.
  destruct wd; cbn; [destruct cf; cbn; [reflexivity|]|];
    (destruct (cd =? 0); cbn; [|destruct gf; cbn; [reflexivity|]; destruct sf; cbn; [reflexivity|];
      destruct hp; cbn; [destruct pf; cbn; [reflexivity|]|]]);
    destruct (sc =? 0); cbn; try (destruct dd; cbn); try (destruct ol; cbn);
    destruct (bs =? 0); cbn; try reflexivity; destruct (bf =? 0); reflexivity.
Qed.

(** ** The shutdown *)

(** What an event asks of a launcher that is ready: SIGINT and SIGTERM ask for
    a shutdown with code 0. *)
Definition request_of (e : event) : list Z :=
  match e with
  | Exit_requested code => [code]
  | Signalled signum _ _ => if (signum =? SIGINT) || (signum =? SIGTERM) then [0] else []
  | Resumed _ _ => []
  end.
Definition requests (es : list event) : list Z := es ≫= request_of.
Definition answered_resume (e : event) : nat := match e with Resumed _ (Some _) => 1 | _ => 0 end.
Definition answers (es : list event) : nat := sum_list_with answered_resume es.

Definition of_shutdown (c : call) : bool :=
  match c with
  | Broadcast_shutdown | Wakeup_on_shutdown | Run_triggers | Say_error | Diag_log | Diag_clear | Box_shutdown | Ev_break => true
  | _ => false
  end.

(** The calls of a shutdown up to where its fiber is. *)
Definition shutdown_calls (failed : bool) (started : bool) (f : fiber) : list call :=
  if negb started then [] else
  [Broadcast_shutdown; Wakeup_on_shutdown]
  ++ match f with
     | No_fiber | New_fiber | Asleep | Yielded => []
     | In_triggers => [Run_triggers]
     | In_shutdown => Run_triggers :: (if failed then [Say_error; Diag_log; Diag_clear] else []) ++ [Box_shutdown]
     | Ended => Run_triggers :: (if failed then [Say_error; Diag_log; Diag_clear] else []) ++ [Box_shutdown; Ev_break]
     end.

(** How many answers the fiber of a started shutdown still waits for, at most. *)
Definition rank (f : fiber) : nat :=
  match f with No_fiber => 0 | New_fiber => 4 | Asleep | Yielded => 3 | In_triggers => 2 | In_shutdown => 1 | Ended => 0 end.

Record ready (l : launcher) : Prop := Ready {
  ready_signals : ev_sigs l = launched_signals;
  ready_fiber : on_shutdown_fiber l <> No_fiber;
  ready_waits : shutdown_started l = false -> on_shutdown_fiber l ∈ [New_fiber; Asleep; Yielded];
  ready_finished : shutdown_finished l = bool_decide (on_shutdown_fiber l = Ended);
}.

(** The codes asked for so far and the calls made for them. *)
Record follows (loop : bool) (codes : list Z) (failed : bool) (calls : list call) (l : launcher) : Prop := Follows {
  follows_started : shutdown_started l = negb (bool_decide (codes = []));
  follows_code : exit_code l = default 0 (head codes);
  follows_loop : start_loop l = loop && bool_decide (codes = []);
  follows_calls : List.filter of_shutdown calls = shutdown_calls failed (shutdown_started l) (on_shutdown_fiber l);
}.

(** What an event does: calls and a state, with the codes and the answers it brings. *)
Definition takes (loop : bool) (codes asked : list Z) (answered : nat) (calls : list call) (l : launcher) (m : steps launcher) : Prop :=
  exists calls' l' failed', m = (calls', Done l') /\ ready l'
    /\ follows loop (codes ++ asked) failed' (calls ++ calls') l'
    /\ (shutdown_started l = true -> (rank (on_shutdown_fiber l') <= rank (on_shutdown_fiber l) - answered)%nat).

Lemma takes_quiet loop codes failed calls quiet l :
  ready l -> follows loop codes failed calls l -> List.filter of_shutdown quiet = [] ->
  takes loop codes [] 0 calls l (quiet, Done l).
Proof.
  intros Hr [F1 F2 F3 F4] Hq. exists quiet, l, failed. split; [reflexivity|]. split; [exact Hr|].
  rewrite app_nil_r. split; [|lia]. split; try assumption. rewrite List.filter_app, Hq, app_nil_r. exact F4.
Qed.

(** A request, whatever is said before it. *)
Lemma takes_request loop codes failed calls said code l :
  ready l -> follows loop codes failed calls l -> List.filter of_shutdown said = [] ->
  takes loop codes [code] 0 calls l (('(_) ← (said, Done tt) : steps unit; storage_exit code l) : steps launcher).
Proof.
  intros [R1 R2 R3 R4] [F1 F2 F3 F4] Hq. destruct l as [sl ss sf ec fi sg cb ar st]; cbn in *. subst sg sl ec sf.
  unfold storage_exit; cbn. destruct (bool_decide_reflect (codes = [])) as [->|Hne]; cbn in F1; subst ss; cbn.
  - unfold fiber_wakeup; cbn. rewrite decide_False by exact R2. cbn. eexists _, _, failed. split; [reflexivity|].
    split; [split; cbn; auto; discriminate|]. split; [|discriminate]. split; cbn; try reflexivity.
    + symmetry; apply andb_false_r.
    + rewrite !List.filter_app, F4, Hq. specialize (R3 eq_refl). set_unfold. destruct R3 as [->|[->|[->|[]]]]; reflexivity.
  - eexists _, _, failed. split; [reflexivity|]. split; [split; cbn; auto; discriminate|]. split; [|cbn; lia].
    destruct codes as [|c0 codes]; [done|]. split; cbn; try reflexivity.
    + symmetry; apply andb_false_r.
    + rewrite List.filter_app, List.filter_app, Hq, F4. cbn. rewrite app_nil_r. reflexivity.
Qed.

Lemma takes_resume loop codes failed calls depth answer l :
  ready l -> follows loop codes failed calls l ->
  takes loop codes [] (answered_resume (Resumed depth answer)) calls l (handle (Resumed depth answer) l).
Proof.
  intros [R1 R2 R3 R4] [F1 F2 F3 F4]. destruct l as [sl ss sf ec fi sg cb ar st]; cbn in *. subst sg sl ec sf.
  unfold takes, on_shutdown_f, on_shutdown_wait; cbn.
  set (failed' := match fi, answer with In_triggers, Some c => negb (c =? 0) | _, _ => failed end).
  destruct ss; cbn in *.
  - clear R3. destruct fi; try congruence; cbn; try (destruct (depth =? 0)); try destruct answer; cbn;
      eexists _, _, failed'; (split; [reflexivity|]); (split; [split; cbn; solve [auto|congruence]|]);
      (split; [split; cbn; rewrite ?app_nil_r, ?List.filter_app, ?F4; auto|cbn; lia]); cbn;
      unfold failed'; try destruct (_ =? 0); try destruct failed; reflexivity.
  - specialize (R3 eq_refl). set_unfold. destruct R3 as [->|[->|[->|[]]]]; cbn; try (destruct (depth =? 0)); cbn;
      eexists _, _, failed; (split; [reflexivity|]);
      (split; [split; cbn; solve [auto|congruence|intros _; set_unfold; auto]|]);
      (split; [split; cbn; rewrite ?app_nil_r, ?List.filter_app, ?F4; auto|discriminate]).
Qed.

(** One event keeps the state and makes the calls it should. *)
Lemma handle_takes e l loop codes failed calls :
  ready l -> follows loop codes failed calls l ->
  takes loop codes (request_of e) (answered_resume e) calls l (handle e l).
Proof.
  intros Hr Hf. destruct e as [code|signum made stream|depth answer]; cbn [handle request_of answered_resume].
  - unfold storage_launcher_shutdown. pose proof (takes_request loop codes failed calls (if start_loop l then [Say_info] else []) code l Hr Hf) as T.
    destruct (start_loop l) eqn:Es, (shutdown_started l) eqn:Et; cbn [when negb].
    + exfalso. destruct Hf as [F1 _ F3 _]. rewrite Es in F3. rewrite Et in F1.
      destruct (bool_decide_reflect (codes = [])); cbn in *; [discriminate|]. destruct loop; discriminate.
    + exact (T eq_refl).
    + specialize (T eq_refl). unfold storage_exit in T. cbn in T. rewrite Et in T. cbn in T.
      replace (without_loop l) with l in T; [exact T|]. destruct l; cbn in *. subst. reflexivity.
    + exact (T eq_refl).
  - rewrite (ready_signals l Hr).
    assert (E : list_find (fun s => fst s = signum) launched_signals
      = if decide (SIGUSR1 = signum) then Some (0%nat, (SIGUSR1, Sig_checkpoint))
        else if decide (SIGINT = signum) then Some (1%nat, (SIGINT, Signal_cb))
        else if decide (SIGTERM = signum) then Some (2%nat, (SIGTERM, Signal_cb))
        else if decide (SIGWINCH = signum) then Some (3%nat, (SIGWINCH, Sigwinch_cb))
        else if decide (SIGHUP = signum) then Some (4%nat, (SIGHUP, Say_logrotate)) else None).
    { unfold launched_signals; cbn. repeat (case_decide; cbn; try reflexivity). }
    rewrite E. clear E. repeat (case_decide; [subst signum; cbn [deliver]|]).
    + destruct made; apply (takes_quiet _ _ failed); auto.
    + apply (takes_request _ _ failed); auto.
    + apply (takes_request _ _ failed); auto.
    + destruct stream; apply (takes_quiet _ _ failed); auto.
    + apply (takes_quiet _ _ failed); auto.
    + rewrite !(proj2 (Z.eqb_neq _ _)) by congruence. apply (takes_quiet _ _ failed); auto.
  - apply (takes_resume _ _ failed); assumption.
Qed.

Lemma run_takes es : forall l loop codes failed calls,
  ready l -> follows loop codes failed calls l ->
  takes loop codes (requests es) (answers es) calls l (run es l).
Proof.
  induction es as [|e es IH]; intros l loop codes failed calls Hr Hf.
  - apply (takes_quiet _ _ failed); auto.
  - destruct (handle_takes e l loop codes failed calls Hr Hf) as (c1 & l1 & f1 & E1 & R1 & F1 & K1).
    destruct (IH l1 loop _ f1 _ R1 F1) as (c2 & l2 & f2 & E2 & R2 & F2 & K2).
    exists (c1 ++ c2), l2, f2. cbn [run]. rewrite E1. cbn. rewrite E2. split; [reflexivity|]. split; [exact R2|].
    split; [change (requests (e :: es)) with (request_of e ++ requests es); rewrite !app_assoc; exact F2|].
    intros Hs. specialize (K1 Hs). assert (Hs1 : shutdown_started l1 = true).
    { rewrite (follows_started _ _ _ _ _ F1). rewrite (follows_started _ _ _ _ _ Hf) in Hs.
      destruct codes; [discriminate|reflexivity]. }
    specialize (K2 Hs1). unfold answers in *. cbn. lia.
Qed.

Lemma run_app es es' l : run (es ++ es') l = (l ← run es l; run es' l).
Proof.
  revert l. induction es as [|e es IH]; intros l; cbn [app run].
  - cbn. destruct (run es' l). reflexivity.
  - destruct (handle e l) as [c [l1| | |]]; cbn; try reflexivity. rewrite IH.
    destruct (run es l1) as [c2 [l2| | |]]; cbn; try reflexivity. destruct (run es' l2). cbn. rewrite app_assoc. reflexivity.
Qed.

(** C33: whatever requests, signals and resumptions come after a start that has
    returned, in any order, the launcher never faults; the shutdown happens for the
    first request only, whose code is kept, and its calls are made once and in this
    order, as far as its fiber has come: the broadcast and the wake-up, the triggers,
    what is said when these failed, the shutdown of the box and the end of the event
    loop.  After a request, four answers of the triggers and the box bring the fiber
    to its end.  A request made of a launcher that was never started faults. *)
Theorem launcher_shutdown w loop l0 es es' :
  snd (storage_launcher_launch w (unlaunched loop)) = Done l0 ->
  (exists calls l failed, run (es ++ es') l0 = (calls, Done l)
    /\ List.filter of_shutdown calls = shutdown_calls failed (shutdown_started l) (on_shutdown_fiber l)
    /\ shutdown_started l = negb (bool_decide (requests (es ++ es') = []))
    /\ exit_code l = default 0 (head (requests (es ++ es')))
    /\ start_loop l = loop && bool_decide (requests (es ++ es') = [])
    /\ shutdown_finished l = bool_decide (on_shutdown_fiber l = Ended)
    /\ (requests es <> [] -> (4 <= answers es')%nat -> shutdown_finished l = true))
  /\ (forall code, snd (storage_launcher_shutdown code (unlaunched loop)) = Faults).
Proof.
  intros H. rewrite storage_launcher_launch_outcome in H. destruct (launches w); [|discriminate].
  injection H as <-. split; [|intros code; destruct loop; reflexivity].
  set (l0 := Launcher _ _ _ _ _ _ _ _ _).
  assert (R0 : ready l0) by (split; cbn; [reflexivity|discriminate|intros _; set_unfold; auto|reflexivity]).
  assert (F0 : follows loop [] false [] l0) by (split; cbn; rewrite ?andb_true_r; reflexivity).
  destruct (run_takes es l0 loop [] false [] R0 F0) as (c1 & l1 & f1 & E1 & R1 & F1 & _).
  destruct (run_takes es' l1 loop _ f1 _ R1 F1) as (c2 & l2 & f2 & E2 & R2 & F2 & K2). cbn in F2.
  exists (c1 ++ c2), l2, f2. rewrite run_app, E1. cbn. rewrite E2. split; [reflexivity|].
  unfold requests in *. rewrite bind_app. destruct F2 as [S2 C2 L2 A2].
  do 4 (split; [assumption|]). split; [exact (ready_finished l2 R2)|]. intros Hreq Hans.
  assert (Hs : shutdown_started l1 = true).
  { rewrite (follows_started _ _ _ _ _ F1). cbn. rewrite bool_decide_false by exact Hreq. reflexivity. }
  specialize (K2 Hs). rewrite (ready_finished l2 R2). apply bool_decide_true.
  pose proof (ready_fiber l2 R2). pose proof (ready_fiber l1 R1).
  destruct (on_shutdown_fiber l2), (on_shutdown_fiber l1); cbn in K2; try lia; congruence.
Qed.

(** A start without accidents; the fiber waits, SIGTERM arrives while a shutdown
    with code 3 is under way, and the triggers fail. *)
Definition plain_surroundings : surroundings :=
  Surroundings (fun _ => true) (fun _ => false) 0 false 17 None None None true true.
Definition shutdown_events : list event :=
  [Resumed 0 None; Resumed 1 None; Exit_requested 3].
Definition shutdown_answers : list event :=
  [Resumed 1 (Some 0); Signalled SIGTERM true true; Resumed 1 None; Resumed 1 (Some (-1)); Resumed 1 (Some 0); Resumed 1 (Some 0)].
Lemma launcher_shutdown_witness :
  exists calls l failed, run (shutdown_events ++ shutdown_answers) (Launcher true false false 0 New_fiber launched_signals Signal_cb Deleted_arguments 17)
    = (calls, Done l) /\ List.filter of_shutdown calls = shutdown_calls failed true Ended /\ exit_code l = 3.
Proof.
  destruct (proj1 (launcher_shutdown plain_surroundings true _ shutdown_events shutdown_answers (storage_launcher_launch_outcome plain_surroundings true)))
    as (calls & l & failed & E & A & S & C & _ & F & D).
  exists calls, l, failed. split; [exact E|]. assert (Hf : shutdown_finished l = true).
  { apply D; [discriminate|cbn; lia]. }
  rewrite F in Hf. apply bool_decide_eq_true in Hf. rewrite Hf, S in A. split; [exact A|exact C].
Defined.
