(* ===== verification/Stacktrace.v ===== *)
(** * Stack traces ([core/native/stacktrace/stacktrace.h], [stacktrace.cc])

    Collecting the frames of the caller, the text of a trace in a buffer, and the
    text of the callers a module traces.  The unwinder, the demangler and the text
    libc prints for a pointer are parameters.  A structure or an array that was never
    written is [None], and so is a null pointer; memory is given back by
    [delete], which is taken for [free]. *)
From stdpp Require Import strings pretty.
From S2P Require Import Prelude Time Events.

Definition STACKTRACE_PROCEDURE_SIZE : Z := 128.
Definition STACKTRACE_FRAME_MAX : Z := 128.
Definition STACKTRACE_PRINT_BUFFER : Z := 2048.
Definition STACKTRACE_UNKNOWN : string := "(unknown)".
Definition UNW_ENOMEM : Z := 2.

(** The frames, by their instructions; [None] is one that was not written. *)
Record stacktrace := Stacktrace { size : Z; frames : list (option Z) }.

(** What the unwinder says of a procedure, and the demangler of a name. *)
Record procedure := Procedure { proc_status : Z; proc_name : string; proc_offset : Z }.
Record demangled := Demangled { demangled_text : option string; demangled_size : Z; demangled_status : Z }.

Section Stacktrace.
Context (get_proc_name : option (Z -> procedure)) (cxa_demangle : string -> demangled)
  (getcontext_status init_status : Z) (unw_backtrace : list Z)
  (format_pointer : Z -> string) (format_fails : string -> bool).

(** ** Collecting *)

(** [None]: the trace is left as it was.  Moving from outside of the array is
    undefined. *)
Definition stacktrace_collect_current (skip : Z) : outcome (option stacktrace) :=
  if bool_decide (get_proc_name = None) && (negb (getcontext_status =? 0) || negb (init_status =? 0)) then Done None else
  let found := take (Z.to_nat STACKTRACE_FRAME_MAX) unw_backtrace in
  let written := map Some found ++ replicate (Z.to_nat STACKTRACE_FRAME_MAX - length found) None in
  let n := Z.of_nat (length found) in
  let n' := n - Z.min skip n in
  if (skip <? 0) || (STACKTRACE_FRAME_MAX <? skip) then Faults else
  Done (Some (Stacktrace n' (take (Z.to_nat n') (drop (Z.to_nat skip) written) ++ drop (Z.to_nat n') written))).

(** ** One frame *)

(** The name, [None] for a null pointer, and the offset, which begins at 0.  The
    name is copied with as many bytes as the demangler has left in [size]. *)
Definition stacktrace_frame_read (instruction : Z) : outcome (option string * Z) :=
  get_name ← demand get_proc_name;
  let p := get_name instruction in
  if negb (proc_status p =? 0) && negb (proc_status p =? - UNW_ENOMEM) then Done (None, 0) else
  let d := cxa_demangle (proc_name p) in
  let demangled_procedure :=
    if negb (demangled_status d =? 0) && negb (demangled_status d =? - UNW_ENOMEM) then None else demangled_text d in
  match demangled_procedure with
  | Some text => Done (Some text, proc_offset p)
  | None =>
      let size := demangled_size d in
      let new_size := text_length (proc_name p) + 1 in
      let size := if size <? new_size then new_size else size in
      if STACKTRACE_PROCEDURE_SIZE <? size then Faults else Done (Some (proc_name p), proc_offset p)
  end.

(** ["#%-2d %p %s:%lu\n"] and ["%s:%lu"]; [%d] pads a number to two places. *)
Definition pad2 (text : string) : string := (text ++ if (text_length text <? 2)%Z then " " else "")%string.
Definition frame_format_long (number instruction : Z) (name : string) (offset : Z) : string :=
  ("#" ++ pad2 (pretty number) ++ " " ++ format_pointer instruction ++ " " ++ name ++ ":" ++ pretty (u64 offset) ++ new_line)%string.
Definition frame_format_short (name : string) (offset : Z) : string := (name ++ ":" ++ pretty (u64 offset))%string.

(** What is printed; [None] when [snprintf] answers a negative number. *)
Definition printed (text : string) : option string := if format_fails text then None else Some text.
Definition frame_line (number : Z) (frame : option Z) : outcome (option string) :=
  instruction ← demand frame;
  '(name, offset) ← stacktrace_frame_read instruction;
  Done (printed (frame_format_long number instruction (default STACKTRACE_UNKNOWN name) offset)).

(** ** A trace in a buffer *)

(** [snprintf(buffer + total, buffer_size - total, ...)]: past the end of the
    buffer the room wraps around.  The sum is an [int]. *)
Definition print_at (buffer_size : Z) (st : string * Z) (piece : string) : outcome (string * Z) :=
  let '(text, total) := st in
  if total >? buffer_size then Faults else
  if 2 ^ 31 <=? total + text_length piece then Faults else
  Done ((text ++ String.substring 0 (Z.to_nat (buffer_size - 1 - total)) piece)%string, total + text_length piece).

Fixpoint format_frames (buffer_size number : Z) (st : string * Z) (l : list (option Z)) : outcome (string * Z) :=
  match l with
  | [] => Done st
  | frame :: l =>
      line ← frame_line number frame;
      match line with
      | None => Done st
      | Some line =>
          st ← print_at buffer_size st line;
          if snd st >=? buffer_size then Done st else format_frames buffer_size (number + 1) st l
      end
  end.

(** The text in the buffer and the result. *)
Definition stacktrace_format (trace : option stacktrace) (buffer_size : Z) : outcome (string * Z) :=
  trace ← demand trace;
  format_frames buffer_size 1 (EmptyString, 0) (take (Z.to_nat (size trace)) (frames trace)).

(** What is handed to [print_string]. *)
Definition stacktrace_print (skip : Z) : outcome (option string) :=
  trace ← stacktrace_collect_current (skip + 2);
  '(text, total) ← stacktrace_format trace STACKTRACE_PRINT_BUFFER;
  Done (if total >? 0 then Some text else None).

(** The text [event_put_stack_trace] puts into an event, if any. *)
Definition event_stack_trace : outcome (option string) :=
  trace ← stacktrace_collect_current 1;
  '(text, total) ← stacktrace_format trace STACKTRACE_PRINT_BUFFER;
  Done (if total >? 0 then Some text else None).
Definition event_put_stack_trace (e : option event) : outcome (option event) :=
  text ← event_stack_trace; Events.event_put_stack_trace text e.

(** ** The callers *)

(** The text in the buffer, [None] when [snprintf] fails.  The index is not
    compared with the size of the trace. *)
Definition stacktrace_format_at (skip index buffer_size : Z) : outcome (option (string * Z)) :=
  trace ← stacktrace_collect_current (skip + 1);
  trace ← demand trace;
  if index <? 0 then Faults else
  instruction ← demand (mjoin (frames trace !! Z.to_nat index));
  '(name, offset) ← stacktrace_frame_read instruction;
  let line := frame_format_short (default STACKTRACE_UNKNOWN name) offset in
  Done (if format_fails line then None
        else Some (String.substring 0 (Z.to_nat (buffer_size - 1)) line, text_length line)).

Definition callers_separator : string := " <- ".

(** [st] is the text of [result] and [result_size].  A negative answer of
    [stacktrace_format_at] is a large size, and its buffer was not written. *)
Fixpoint callers_loop (n : nat) (skip i room : Z) (st : string * Z) : outcome (string * Z) :=
  match n with
  | O => Done st
  | S n =>
      line ← stacktrace_format_at skip i STACKTRACE_PROCEDURE_SIZE;
      '(buffer, size) ← demand line;
      st ← (if negb (0 <? size) then Done st
            else if snd st =? 0 then print_at room (EmptyString, 0) buffer
            else print_at room st (callers_separator ++ buffer)%string);
      callers_loop n skip (i + 1) room st
  end.
Definition stacktrace_callers (skip count : Z) : outcome string :=
  '(text, result_size) ← callers_loop (Z.to_nat count) skip 0 (STACKTRACE_PROCEDURE_SIZE * count) (EmptyString, 0);
  Done (if result_size =? 0 then EmptyString else text).

(** ** The text of a trace *)

(** What a buffer of a size holds of a text. *)
Definition cut (buffer_size : Z) (text : string) : string := String.substring 0 (Z.to_nat (buffer_size - 1)) text.

Lemma print_at_run buffer_size text piece :
  0 <= buffer_size -> text_length (text ++ piece) < 2 ^ 31 ->
  print_at buffer_size (cut buffer_size text, text_length text) piece
  = if text_length text >? buffer_size then Faults else Done (cut buffer_size (text ++ piece), text_length (text ++ piece)).
Proof.
  intros Hb Hl. unfold print_at. destruct (Z.gtb_spec (text_length text) buffer_size); [reflexivity|].
  unfold cut, text_length in *. rewrite string_length_app in *. rewrite (proj2 (Z.leb_gt _ _)) by lia.
  rewrite substring_app. do 3 f_equal; [f_equal; lia|lia].
Qed.

(** The lines before the first that [snprintf] fails to print. *)
Fixpoint printable (l : list (option string)) : list string :=
  match l with Some line :: l => line :: printable l | _ => [] end.
Fixpoint frame_lines (number : Z) (l : list (option Z)) : outcome (list (option string)) :=
  match l with
  | [] => Done []
  | frame :: l => line ← frame_line number frame; rest ← frame_lines (number + 1) l; Done (line :: rest)
  end.

(** Whether all of the text fits, what is in the buffer is its beginning. *)
Definition formats (buffer_size : Z) (all : string) (r : outcome (string * Z)) : Prop :=
  exists total, r = Done (cut buffer_size all, total) /\ 0 <= total <= text_length all
    /\ (total < buffer_size <-> text_length all < buffer_size) /\ (total < buffer_size -> total = text_length all).

Lemma cut_nil buffer_size : cut buffer_size "" = EmptyString.
Proof. unfold cut. destruct (Z.to_nat (buffer_size - 1)); reflexivity. Qed.

Lemma cut_full buffer_size a b : buffer_size - 1 <= text_length a -> cut buffer_size (a ++ b) = cut buffer_size a.
Proof.
  intros H. unfold cut, text_length in *. rewrite substring_app.
  replace (Z.to_nat (buffer_size - 1) - String.length a)%nat with 0%nat by lia.
  replace (String.substring 0 0 b) with EmptyString by (destruct b; reflexivity). apply string_app_nil.
Qed.

Lemma format_frames_run buffer_size l : forall number text lines,
  frame_lines number l = Done lines -> text_length text < buffer_size ->
  text_length (text ++ all_text (printable lines)) < 2 ^ 31 ->
  formats buffer_size (text ++ all_text (printable lines)) (format_frames buffer_size number (cut buffer_size text, text_length text) l).
Proof.
  induction l as [|frame l IH]; intros number text lines E Ht Hi; cbn [frame_lines format_frames] in *.
  - injection E as <-. cbn. rewrite string_app_nil. exists (text_length text). unfold text_length in *. repeat split; auto; lia.
  - apply outcome_bind_done in E as (line & E1 & E). apply outcome_bind_done in E as (rest & E2 & E). injection E as <-.
    rewrite E1. cbn [mbind outcome_bind]. destruct line as [line|]; cbn [printable all_text foldr] in *.
    + rewrite <- string_app_assoc in *. change (foldr String.append ""%string (printable rest)) with (all_text (printable rest)) in *.
      assert (Hs : text_length (text ++ line) <= text_length ((text ++ line) ++ all_text (printable rest))).
      { unfold text_length. rewrite (string_length_app (text ++ line)). lia. }
      rewrite print_at_run by (unfold text_length in *; lia). rewrite Z.gtb_ltb, (proj2 (Z.ltb_ge _ _)) by lia.
      cbn [mbind outcome_bind snd]. rewrite Z.geb_leb. destruct (Z.leb_spec buffer_size (text_length (text ++ line))) as [Hge|Hlt].
      * exists (text_length (text ++ line)). rewrite (cut_full _ (text ++ line)) by lia. unfold text_length in *. repeat split; auto; lia.
      * apply IH; assumption.
    + rewrite string_app_nil. exists (text_length text). unfold text_length in *. repeat split; auto; lia.
Qed.

(** ** Collecting and reading *)

Lemma stacktrace_collect_run skip :
  get_proc_name <> None -> 0 <= skip <= STACKTRACE_FRAME_MAX ->
  exists trace, stacktrace_collect_current skip = Done (Some trace)
    /\ let found := take (Z.to_nat STACKTRACE_FRAME_MAX) unw_backtrace in
       take (Z.to_nat (size trace)) (frames trace) = map Some (drop (Z.to_nat skip) found)
       /\ (forall i, (i < length found - Z.to_nat skip)%nat -> frames trace !! i = Some <$> found !! (Z.to_nat skip + i)%nat).
Proof.
  intros Hg Hs. unfold stacktrace_collect_current. rewrite bool_decide_false by exact Hg. cbn [andb].
  rewrite (proj2 (Z.ltb_ge _ _)), (proj2 (Z.ltb_ge _ _)) by lia. cbn [orb].
  set (found := take (Z.to_nat STACKTRACE_FRAME_MAX) unw_backtrace). eexists. split; [reflexivity|]. cbn [size frames].
  assert (Hm : Z.to_nat (Z.of_nat (length found) - Z.min skip (Z.of_nat (length found))) = (length found - Z.to_nat skip)%nat) by lia.
  rewrite Hm. set (written := map Some found ++ _).
  assert (E : take (length found - Z.to_nat skip) (drop (Z.to_nat skip) written) = map Some (drop (Z.to_nat skip) found)).
  { unfold written. destruct (Nat.le_gt_cases (Z.to_nat skip) (length found)).
    - rewrite drop_app_le by (rewrite length_map; lia). rewrite take_app_le by (rewrite length_drop, length_map; lia).
      change (map Some found) with (Some <$> found). rewrite take_ge by (rewrite length_drop, length_fmap; lia). symmetry; apply fmap_drop.
    - replace (length found - Z.to_nat skip)%nat with 0%nat by lia. rewrite (drop_ge found) by lia. reflexivity. }
  rewrite E. assert (L : length (map (@Some Z) (drop (Z.to_nat skip) found)) = (length found - Z.to_nat skip)%nat).
  { rewrite length_map, length_drop. reflexivity. }
  split; [rewrite <- L; apply take_app_length|]. intros i Hi. rewrite lookup_app_l by (rewrite L; exact Hi).
  change (map (@Some Z) (drop (Z.to_nat skip) found)) with (Some <$> drop (Z.to_nat skip) found).
  rewrite list_lookup_fmap, lookup_drop. reflexivity.
Qed.

(** What the code relies on, as documented: the unwinder can name procedures and
    ends a name in the buffer it is given; the demangler gives a text when it
    succeeds, of any length, and when it fails it gives none and leaves the size as
    it was, zero. *)
Record readable : Prop := Readable {
  readable_unwinder : exists get_name, get_proc_name = Some get_name /\ forall i, text_length (proc_name (get_name i)) < STACKTRACE_PROCEDURE_SIZE;
  readable_demangler : forall name, let d := cxa_demangle name in
    (demangled_status d = 0 /\ demangled_text d <> None) \/ (demangled_status d <> 0 /\ demangled_text d = None /\ demangled_size d = 0);
}.

Lemma frame_read_done i : readable -> exists r, stacktrace_frame_read i = Done r.
Proof.
  intros [(g & Hg & Hn) Hd]. unfold stacktrace_frame_read. rewrite Hg. cbn [demand mbind outcome_bind].
  case_match; [eauto|]. cbv zeta. specialize (Hn i). specialize (Hd (proc_name (g i))). cbv zeta in Hd.
  destruct Hd as [[-> Ht]|(_ & -> & ->)]; [cbn [Z.eqb negb andb]; destruct (demangled_text _); [eauto|done]|].
  replace (if _ && _ then None else None) with (@None string) by (by case_match).
  rewrite (proj2 (Z.ltb_ge STACKTRACE_PROCEDURE_SIZE _)) by (unfold text_length in *; case_match; lia). eauto.
Qed.

Lemma frame_lines_done (l : list Z) : readable -> forall number, exists lines, frame_lines number (map Some l) = Done lines /\ length lines = length l.
Proof.
  intros Hr. induction l as [|i l IH]; intros number; [exists []; auto|]. cbn [map frame_lines].
  unfold frame_line at 1. cbn [demand mbind outcome_bind]. destruct (frame_read_done i Hr) as [[name offset] E].
  rewrite E. cbn [mbind outcome_bind]. destruct (IH (number + 1)) as (lines & E' & L). rewrite E'. cbn.
  eexists. split; [reflexivity|]. cbn. rewrite L. reflexivity.
Qed.

(** A short line, of a frame that can be read. *)
Definition frame_short (instruction : Z) : string :=
  match stacktrace_frame_read instruction with
  | Done (name, offset) => frame_format_short (default STACKTRACE_UNKNOWN name) offset
  | _ => EmptyString
  end.

Lemma format_at_run skip index buffer_size i :
  readable -> 0 <= skip -> 0 <= index -> skip + 1 <= STACKTRACE_FRAME_MAX ->
  take (Z.to_nat STACKTRACE_FRAME_MAX) unw_backtrace !! Z.to_nat (skip + 1 + index) = Some i ->
  stacktrace_format_at skip index buffer_size =
    Done (if format_fails (frame_short i) then None else Some (cut buffer_size (frame_short i), text_length (frame_short i))).
Proof.
  intros Hr Hs Hi Hm Hl. unfold stacktrace_format_at.
  assert (Hg : get_proc_name <> None) by (destruct (readable_unwinder Hr) as (g & -> & _); discriminate).
  destruct (stacktrace_collect_run (skip + 1) Hg ltac:(lia)) as (trace & E & _ & L). rewrite E. cbn [mbind outcome_bind demand].
  rewrite (proj2 (Z.ltb_ge _ _)) by lia. pose proof (lookup_lt_Some _ _ _ Hl).
  rewrite L by lia. replace (Z.to_nat (skip + 1) + Z.to_nat index)%nat with (Z.to_nat (skip + 1 + index)) by lia.
  rewrite Hl. cbn [fmap option_fmap option_map mjoin option_join demand mbind outcome_bind].
  unfold frame_short. destruct (frame_read_done i Hr) as [[name offset] Er]. rewrite Er. reflexivity.
Qed.

Lemma frame_short_positive i : readable -> 0 < text_length (frame_short i).
Proof.
  intros Hr. unfold frame_short. destruct (frame_read_done i Hr) as [[name offset] Er]. rewrite Er.
  unfold frame_format_short, text_length.
  rewrite !string_length_app. change (String.length ":") with 1%nat. lia.
Qed.

Lemma cut_length buffer_size text : text_length (cut buffer_size text) <= Z.max 0 (buffer_size - 1).
Proof.
  unfold cut, text_length. assert (H : forall n s, (String.length (String.substring 0 n s) <= n)%nat).
  { intros n s. revert n. induction s as [|c s IH]; intros [|n]; cbn; try lia. specialize (IH n). lia. }
  specialize (H (Z.to_nat (buffer_size - 1)) text). lia.
Qed.

Lemma cut_positive buffer_size text : 1 < buffer_size -> 0 < text_length text -> 0 < text_length (cut buffer_size text).
Proof.
  intros Hb Ht. unfold cut, text_length in *. destruct text as [|c text]; cbn in *; [lia|].
  destruct (Z.to_nat (buffer_size - 1)) eqn:E; [lia|]. cbn. lia.
Qed.

(** ** The callers, joined *)

Lemma concat_snoc sep x l y : String.concat sep ((x :: l) ++ [y]) = (String.concat sep (x :: l) ++ sep ++ y)%string.
Proof.
  revert x. induction l as [|z l IH]; intros x; [reflexivity|].
  change (String.concat sep ((x :: z :: l) ++ [y])) with (x ++ sep ++ String.concat sep ((z :: l) ++ [y]))%string.
  rewrite IH. change (String.concat sep (x :: z :: l)) with (x ++ sep ++ String.concat sep (z :: l))%string.
  rewrite !string_app_assoc. reflexivity.
Qed.

Lemma concat_length (l : list string) (bound : Z) :
  Forall (fun s => text_length s <= bound) l -> 0 <= bound ->
  text_length (String.concat callers_separator l) <= Z.max 0 (Z.of_nat (length l) * (bound + 4) - 4).
Proof.
  intros H Hb. induction H as [|x l Hx H IH]; [unfold text_length; cbn [String.concat String.length length]; lia|]. destruct l as [|y l].
  - change (String.concat callers_separator [x]) with x. cbn [length]. lia.
  - change (String.concat callers_separator (x :: y :: l)) with (x ++ callers_separator ++ String.concat callers_separator (y :: l))%string.
    unfold text_length in *. rewrite !string_length_app. change (String.length callers_separator) with 4%nat. cbn [length] in *. lia.
Qed.

(** The callers of a trace that is deep enough, and their lines. *)
Definition caller_frames (skip count : Z) : list Z :=
  take (Z.to_nat count) (drop (Z.to_nat (skip + 1)) (take (Z.to_nat STACKTRACE_FRAME_MAX) unw_backtrace)).
Definition callers (skip count : Z) : list string :=
  map (fun i => cut STACKTRACE_PROCEDURE_SIZE (frame_short i)) (caller_frames skip count).
Definition caller_fails (i : Z) : bool := format_fails (frame_short i).

(** One more caller: after [k] of them their texts are joined in the buffer. *)
Lemma callers_loop_run skip n : forall k (l : list Z) room (before : list Z),
  readable -> 0 <= skip -> skip + 1 <= STACKTRACE_FRAME_MAX ->
  drop (Z.to_nat (skip + 1)) (take (Z.to_nat STACKTRACE_FRAME_MAX) unw_backtrace) = before ++ l ->
  length before = k -> (n <= length l)%nat ->
  Z.of_nat (k + n) * 131 <= room + 135 -> room < 2 ^ 30 -> 0 <= room ->
  let text_of l := String.concat callers_separator (map (fun i => cut STACKTRACE_PROCEDURE_SIZE (frame_short i)) l) in
  callers_loop n skip (Z.of_nat k) room (cut room (text_of before), text_length (text_of before))
  = if existsb caller_fails (take n l) then Faults
    else Done (cut room (text_of (before ++ take n l)), text_length (text_of (before ++ take n l))).
Proof.
  induction n as [|n IH]; intros k l room before Hr Hs Hm Hl Hk Hn Hroom Hroom' Hroom0 text_of; cbn [callers_loop take existsb].
  { rewrite app_nil_r. reflexivity. }
  destruct l as [|i l]; cbn in Hn; [lia|]. cbn [take existsb].
  assert (Hi : take (Z.to_nat STACKTRACE_FRAME_MAX) unw_backtrace !! Z.to_nat (skip + 1 + Z.of_nat k) = Some i).
  { replace (Z.to_nat (skip + 1 + Z.of_nat k)) with (Z.to_nat (skip + 1) + k)%nat by lia.
    rewrite <- lookup_drop, Hl, <- Hk. apply list_lookup_middle. reflexivity. }
  rewrite (format_at_run skip (Z.of_nat k) _ i) by (auto; lia). change (caller_fails i) with (format_fails (frame_short i)).
  destruct (format_fails (frame_short i)); [done|]. cbn [mbind outcome_bind demand orb].
  set (b := cut STACKTRACE_PROCEDURE_SIZE (frame_short i)).
  pose proof (frame_short_positive i Hr) as Hp. rewrite (proj2 (Z.ltb_lt 0 _)) by exact Hp. cbn [negb snd].
  assert (Hb : text_length b <= 127) by (etransitivity; [apply cut_length|]; unfold STACKTRACE_PROCEDURE_SIZE; lia).
  assert (Hb0 : 0 < text_length b) by (apply cut_positive; [unfold STACKTRACE_PROCEDURE_SIZE; lia|exact Hp]).
  assert (Hlen : forall m, text_length (text_of m) <= Z.max 0 (Z.of_nat (length m) * 131 - 4)).
  { intros m. unfold text_of. rewrite <- (length_map (fun i => cut STACKTRACE_PROCEDURE_SIZE (frame_short i)) m).
    apply (concat_length _ 127); [|lia]. apply Forall_forall. intros s Hin. apply list_elem_of_fmap in Hin as (j & -> & _).
    etransitivity; [apply cut_length|]; unfold STACKTRACE_PROCEDURE_SIZE; lia. }
  assert (E : (if text_length (text_of before) =? 0 then print_at room (EmptyString, 0) b
               else print_at room (cut room (text_of before), text_length (text_of before)) (callers_separator ++ b))
              = Done (cut room (text_of (before ++ [i])), text_length (text_of (before ++ [i])))).
  { pose proof (Hlen before) as H1. destruct before as [|j before].
    - cbn [app]. change (text_of [i]) with b. change (text_of []) with EmptyString. change (text_length "") with 0. cbn [Z.eqb].
      pose proof (print_at_run room "" b Hroom0) as Pr. change ("" ++ b)%string with b in Pr.
      rewrite cut_nil in Pr. change (text_length "") with 0 in Pr. rewrite Pr by lia. rewrite Z.gtb_ltb, (proj2 (Z.ltb_ge _ _)) by (cbn; lia). reflexivity.
    - assert (Et : text_of ((j :: before) ++ [i]) = (text_of (j :: before) ++ callers_separator ++ b)%string).
      { unfold text_of. rewrite map_app. apply concat_snoc. }
      assert (Hpos : 0 < text_length (text_of (j :: before))).
      { unfold text_of. cbn [map]. assert (0 < text_length (cut STACKTRACE_PROCEDURE_SIZE (frame_short j)))
          by (apply cut_positive; [unfold STACKTRACE_PROCEDURE_SIZE; lia|apply frame_short_positive; exact Hr]).
        destruct (map _ before); [assumption|].
        match goal with |- context [String.concat ?s (?x :: ?y :: ?l)] =>
          change (String.concat s (x :: y :: l)) with (x ++ s ++ String.concat s (y :: l))%string end.
        unfold text_length in *. rewrite string_length_app. lia. }
      rewrite (proj2 (Z.eqb_neq _ _)) by lia. rewrite Et. rewrite print_at_run; [|lia|].
      + rewrite Z.gtb_ltb, (proj2 (Z.ltb_ge _ _)) by lia. reflexivity.
      + unfold text_length in *. rewrite !string_length_app. change (String.length callers_separator) with 4%nat. lia. }
  rewrite E. cbn [mbind outcome_bind].
  specialize (IH (S k) l room (before ++ [i])). replace (Z.of_nat k + 1) with (Z.of_nat (S k)) by lia.
  etransitivity; [apply IH; try assumption; try lia|].
  - rewrite Hl, <- app_assoc. reflexivity.
  - rewrite length_app. cbn. lia.
  - rewrite <- app_assoc. reflexivity.
Qed.

(** ** What is shown of a trace *)

Lemma stacktrace_format_run skip buffer_size lines :
  get_proc_name <> None -> 0 <= skip <= STACKTRACE_FRAME_MAX -> 0 < buffer_size ->
  frame_lines 1 (map Some (drop (Z.to_nat skip) (take (Z.to_nat STACKTRACE_FRAME_MAX) unw_backtrace))) = Done lines ->
  text_length (all_text (printable lines)) < 2 ^ 31 ->
  exists trace, stacktrace_collect_current skip = Done (Some trace)
    /\ formats buffer_size (all_text (printable lines)) (stacktrace_format (Some trace) buffer_size).
Proof.
  intros Hg Hs Hb E Hl. destruct (stacktrace_collect_run skip Hg Hs) as (trace & C & T & _). exists trace. split; [exact C|].
  unfold stacktrace_format. cbn [demand mbind outcome_bind]. rewrite T. rewrite <- (cut_nil buffer_size).
  exact (format_frames_run buffer_size _ 1 "" lines E Hb Hl).
Qed.

Lemma cut_or_empty buffer_size text : (if text_length text =? 0 then EmptyString else cut buffer_size text) = cut buffer_size text.
Proof. destruct text as [|c text]; [rewrite cut_nil|]; reflexivity. Qed.

Lemma stacktrace_callers_run skip count :
  readable -> 0 <= skip -> 1 <= count <= 45 ->
  skip + 1 + count <= Z.of_nat (length (take (Z.to_nat STACKTRACE_FRAME_MAX) unw_backtrace)) ->
  stacktrace_callers skip count
  = if existsb caller_fails (caller_frames skip count) then Faults
    else Done (cut (STACKTRACE_PROCEDURE_SIZE * count) (String.concat callers_separator (callers skip count))).
Proof.
  intros Hr Hs Hc Hd.
  assert (Hfl : Z.of_nat (length (take (Z.to_nat STACKTRACE_FRAME_MAX) unw_backtrace)) <= 128).
  { rewrite length_take. unfold STACKTRACE_FRAME_MAX. lia. }
  unfold stacktrace_callers. rewrite <- (cut_nil (STACKTRACE_PROCEDURE_SIZE * count)) at 1.
  etransitivity; [apply (f_equal (fun m => m ≫= _)); apply (callers_loop_run skip (Z.to_nat count) 0
    (drop (Z.to_nat (skip + 1)) (take (Z.to_nat STACKTRACE_FRAME_MAX) unw_backtrace)) _ []); auto;
    unfold STACKTRACE_PROCEDURE_SIZE in *; rewrite ?length_drop; unfold STACKTRACE_FRAME_MAX in *; lia|].
  fold (caller_frames skip count). destruct (existsb _ _); [done|]. cbn [mbind outcome_bind]. rewrite cut_or_empty. reflexivity.
Qed.

(** C34: suppose the unwinder can name procedures and ends every name within the
    buffer of 128 bytes it is given, and a demangler that fails leaves its size at
    zero ([readable]; how long a demangled name is does not matter).  Then a trace can
    be formatted for up to 128 skipped frames (the size of the array; skipping more
    is undefined) and any buffer: when the text is shorter than [2 ^ 31], the range of
    the [int] it is counted in, the buffer holds the beginning of the lines of the
    frames, numbered from 1, up to the first line [snprintf] fails on, and the result
    is the length of them all when they fit.  The text an event is given is the same,
    in a buffer of 2048 bytes.  The callers a module traces, up to 45 of them, are the
    first bytes of their short lines joined by arrows, when the trace is deep enough,
    and nothing outside of their buffer is written; but when [snprintf] fails on the
    line of one of them, a buffer is read that was never written. *)
Theorem stacktrace_text :
  readable ->
  (forall skip buffer_size, 0 <= skip <= STACKTRACE_FRAME_MAX -> 0 < buffer_size ->
    exists lines, let found := drop (Z.to_nat skip) (take (Z.to_nat STACKTRACE_FRAME_MAX) unw_backtrace) in
      frame_lines 1 (map Some found) = Done lines /\ length lines = length found
      /\ (text_length (all_text (printable lines)) < 2 ^ 31 ->
          (exists trace, stacktrace_collect_current skip = Done (Some trace)
            /\ formats buffer_size (all_text (printable lines)) (stacktrace_format (Some trace) buffer_size))
          /\ (skip = 1 -> event_stack_trace
               = Done (if 0 <? text_length (all_text (printable lines)) then Some (cut STACKTRACE_PRINT_BUFFER (all_text (printable lines))) else None))))
  /\ (forall skip, STACKTRACE_FRAME_MAX < skip -> stacktrace_collect_current skip = Faults)
  /\ (forall skip count, 0 <= skip -> 1 <= count <= 45 ->
       skip + 1 + count <= Z.of_nat (length (take (Z.to_nat STACKTRACE_FRAME_MAX) unw_backtrace)) ->
       stacktrace_callers skip count
       = if existsb (fun i => format_fails (frame_short i)) (caller_frames skip count) then Faults
         else Done (cut (STACKTRACE_PROCEDURE_SIZE * count) (String.concat callers_separator (callers skip count)))).
Proof.
  intros Hr. assert (Hg : get_proc_name <> None) by (destruct (readable_unwinder Hr) as (g & -> & _); discriminate).
  split; [|split].
  - intros skip buffer_size Hs Hb. cbv zeta.
    destruct (frame_lines_done (drop (Z.to_nat skip) (take (Z.to_nat STACKTRACE_FRAME_MAX) unw_backtrace)) Hr 1) as (lines & E & L).
    exists lines. do 2 (split; [assumption|]). intros Hl. split; [exact (stacktrace_format_run skip buffer_size lines Hg Hs Hb E Hl)|].
    intros ->. destruct (stacktrace_format_run 1 STACKTRACE_PRINT_BUFFER lines Hg Hs ltac:(unfold STACKTRACE_PRINT_BUFFER; lia) E Hl)
      as (trace & C & total & F & B & I & T).
    unfold event_stack_trace. rewrite C. cbn [mbind outcome_bind]. rewrite F. cbn [mbind outcome_bind].
    rewrite Z.gtb_ltb. destruct (Z.ltb_spec 0 total), (Z.ltb_spec 0 (text_length (all_text (printable lines)))); try reflexivity; try lia.
    exfalso. unfold STACKTRACE_PRINT_BUFFER in *. lia.
  - intros skip Hs. unfold stacktrace_collect_current. rewrite bool_decide_false by exact Hg.
    cbn [andb]. by rewrite (proj2 (Z.ltb_lt STACKTRACE_FRAME_MAX skip)), orb_true_r by done.
  - intros skip count. apply (stacktrace_callers_run skip count Hr).
Qed.
End Stacktrace.

(** A program of six frames, whose procedures are named [main] or [step] and
    cannot be demangled. *)
Definition sample_procedure (i : Z) : procedure := Procedure 0 (if i =? 15 then "main" else "step") (i * 4).
Definition undemangled (name : string) : demangled := Demangled None 0 (-2).
Definition sample_frames : list Z := [10; 11; 12; 13; 14; 15].
Lemma sample_readable : readable (Some sample_procedure) undemangled.
Proof.
  split; [exists sample_procedure; split; [reflexivity|]|by right].
  intros i. unfold sample_procedure. destruct (i =? 15); reflexivity.
Qed.

Lemma stacktrace_text_witness :
  stacktrace_callers (Some sample_procedure) undemangled 0 0 sample_frames (fun _ => false) 1 3
  = Done "step:48 <- step:52 <- step:56"
  /\ event_stack_trace (Some sample_procedure) undemangled 0 0 sample_frames pretty (fun _ => false)
     = Done (Some (all_text (map (fun l => l ++ new_line)%string
         ["#1  11 step:44"; "#2  12 step:48"; "#3  13 step:52"; "#4  14 step:56"; "#5  15 main:60"]))).
Proof.
  destruct (stacktrace_text (Some sample_procedure) undemangled 0 0 sample_frames pretty (fun _ => false) sample_readable) as (T & _ & C).
  split; [rewrite C by (first [lia|vm_compute; discriminate]); vm_compute; reflexivity|].
  destruct (T 1 2048) as (lines & E & _ & F); [unfold STACKTRACE_FRAME_MAX; lia|lia|].
  vm_compute in E. injection E as <-. destruct (F ltac:(vm_compute; reflexivity)) as [_ G].
  rewrite (G eq_refl). vm_compute. reflexivity.
Defined.

(** The index of a caller is not compared with the size of the trace: with three
    frames, the caller of the outermost one is read from where the frames were before
    they were moved.  The lone frame skipped to is called by one that was skipped. *)
Example stale_caller :
  stacktrace_callers (Some sample_procedure) undemangled 0 0 [10; 11; 15] (fun _ => false) 1 2 = Done "main:60 <- step:44".
Proof. vm_compute. reflexivity. Qed.

(** Without the accessor that names procedures a trace can be collected, and
    formatting it calls a null pointer. *)
Example unnamed_procedures :
  stacktrace_print None undemangled 0 0 sample_frames pretty (fun _ => false) 0 = Faults.
Proof. reflexivity. Qed.

(** When the unwinder cannot be initialised either, the size of the trace is read
    although it was never written. *)
Example uncollected :
  stacktrace_print None undemangled 1 0 sample_frames pretty (fun _ => false) 0 = Faults.
Proof. reflexivity. Qed.
